(* ===== verification/_CoqProject ===== *)
-Q . S2P
Prelude.v
F32.v
F64.v
Net.v
Digits.v
Rolling.v
RollingDelta.v
RollingSync.v
RollingWire.v
OAuth.v
OAuthInv.v
OAuthSafety.v
OAuthProps.v
AuthLimiter.v
AuthProps.v
Cluster.v
ClusterInv.v
ClusterProps.v
WolfRun.v
WolfRunLb.v
WolfRunTick.v
WolfRunProps.v
WolfRunPass.v
AtRest.v
AtRestProps.v
Rotation.v
RotationProps.v
AgentTools.v
AgentGate.v
AgentProps.v
Cron.v
CronProps.v
Workflow.v
WorkflowHost.v
WorkflowRun.v
WorkflowInv.v
WorkflowProps.v
WorkflowFaults.v
ImageWatch.v
ImageUpdate.v
ImageNode.v
ImageInv.v
ImageProps.v
ImageTiming.v
ImageFleet.v
ImageFaults.v
Firewall.v
Danger.v
SafeMode.v
FirewallProps.v
SafeModeInv.v
SafeModeLive.v
SafeModeProps.v
Inbox.v
InboxAnalyzers.v
DiskFill.v
ContainerDisk.v
ContainerRestart.v
IpConflict.v
InboxNode.v
InboxInv.v
InboxProps.v
InboxFaults.v
Backup.v
BackupRun.v
BackupPrune.v
BackupProps.v
BackupNames.v
NodeIdentity.v
IdentityProps.v
Join.v
JoinInv.v
JoinProps.v
HaManifest.v
HaStore.v
HaMonitor.v
HaFocus.v
HaTiming.v
HaProps.v
