(* ===== verification/Prelude.v ===== *)
(** * WolfStack: its cluster core, verified

    WolfStack (src/src/, Rust) is a server-management agent that runs on every
    node of a cluster: it keeps a table of peers, replicates and fails over
    workloads, runs replicated services, logs operators in, applies firewall
    rules, takes backups, watches for faults, and serves tools to language
    models.  This library models the parts whose mistakes lose data, start a
    workload twice, let the wrong caller in, or hide a fault.  Each part is a state
    record, one definition per operation of the code, and theorems in the
    files whose names end in -Props (their lemmas in -Inv, -Focus, -Pass,
    -Safety, -Timing and the like).

    ** Parts and files

    - Shared: [Prelude] (outcomes of fallible code, byte strings and machine
      integers, iteration orders of hash maps, list lemmas), [F32] and
      [F64] (floats), [Net] (clocks, [str] methods, IP addresses, names of
      nodes), [Digits] (printed numbers read back, [split] and [join]).
    - Block deltas, wolfha/replication/rolling.rs: [Rolling] (signatures,
      delta, application, wire formats); [RollingDelta], [RollingSync],
      [RollingWire] prove that the rolling scan equals a reference, that a
      delta sync rebuilds the file whatever the reads, and what hostile bytes
      do to the decoders.
    - MCP OAuth server, mcp/oauth.rs: [OAuth] ([Inner] is the state behind the
      store's mutex; a token request is two locked phases that interleave with
      others); [OAuthInv] the invariant, [OAuthSafety] the transition system,
      [OAuthProps] single use of codes, confinement of tokens, revocation.
    - Logins, auth/mod.rs: [AuthLimiter] (sessions, reset tokens, the failure
      limiter, kernel blocks), [AuthProps] (thresholds, and that every kernel
      block passed the guard for protected addresses).
    - Membership, agent/mod.rs: [Cluster] (the node table with its two files,
      gossip, bundles, polls, pruning), [ClusterInv] and [ClusterProps]
      (removed nodes stay removed, merges, what a poll overwrites).
    - WolfRun, wolfrun/mod.rs: [WolfRun] (services, tombstones, peer merge,
      leader, placement, back-off), [WolfRunLb] (NAT rules), [WolfRunTick]
      (the leader's pass, failover, standbys); [WolfRunProps] and
      [WolfRunPass] (one leader, deletions last, passes reach the number of
      replicas, failover replaces what was lost).
    - Cluster secret: [AtRest] (at_rest_crypto.rs and the six stores sealed
      under keys derived from the secret), [AtRestProps] (re-keying and
      migration lose nothing); [Rotation] (secret_rotation.rs and the gate of
      auth/mod.rs), [RotationProps] (a rotation refines one atomic step; what
      remains of it when answers are lost or the default secret is replaced).
    - Node identity and joining: [NodeIdentity] (node_identity.rs: signed
      calls, nonces, pinned keys, the gates of api/mod.rs that ask for them),
      [Join] (cluster_join.rs and the handlers of api/mod.rs by which a node
      is asked to join, in stages that interleave, and receives a secret);
      [IdentityProps] shows what a signature that passes proves, once;
      [JoinInv] and [JoinProps] that a one-time token admits one caller, what
      each admission had to present, how a pushed secret is adopted, and that
      strict mode still lets a leaked secret replace the node's own.
    - Backups, backup/mod.rs: [Backup] (targets, destinations, the index,
      names of archives and of their PBS groups, retention), [BackupRun] (when
      a schedule is due, runs and their hooks, every operation that writes the
      index, those that take long as a begin and an end); [BackupPrune]
      compares retention with a reference, [BackupProps] shows what stays in
      the index, how often a schedule fires and what overlapping operations
      erase, [BackupNames] what can be read back from a name and which series
      share a group.
    - Workflows, wolfflow/mod.rs: [Cron] (when an expression matches),
      [Workflow] (data, templates, conditions, the store), [WorkflowHost] (what
      an action does here, in a container or on another node, through the class
      [Host]; the handlers that serve it), [WorkflowRun] (the engine, one
      iteration of its loop per step; scheduler, handlers, restart);
      [CronProps] gives cron expressions a meaning and shows that the matcher
      has it, [WorkflowInv] lifts facts about single runs to every reachable
      node, [WorkflowProps] shows that completed runs passed and that runs
      without backward jumps end, [WorkflowFaults] what templates become and
      how the outcome of another node, the end of a run or a minute's guard
      are lost.
    - Image watcher, containers/image_watcher.rs: [ImageWatch] (settings, slots
      and windows, image references, the registry of running updates),
      [ImageUpdate] (checks against a registry, the rebuilding of a container
      by containers/mod.rs, one update from its inspection to its health check
      and rollback, through the class [Daemon]), [ImageNode] (sweeps, the
      handlers of api/mod.rs, the push of settings and the reconciliation);
      [ImageInv] and [ImageProps] show, under [DockerLaws], what an update that
      ends so or so leaves in a container's place, and that it ends,
      [ImageTiming] when sweeps happen and what they update, [ImageFleet] that
      a container has one update at a time and what makes settings agree,
      [ImageFaults] where a container or a setting is lost.
    - AI agents, wolfagents/: [AgentTools] (tools, access levels, the scope
      of an agent, the glob matcher and command denylist of safety.rs),
      [AgentGate] (dispatch.rs: what each call may do, as an [Effect]; the
      queue of calls that wait for an operator, pending.rs; the registry and
      the chat budget, mod.rs); [AgentProps] shows what no model can do
      whatever it writes, that a decision is final, what name patterns accept,
      and which gates leak.
    - Firewall of the router, networking/router/ and danger.rs: [Firewall]
      (rules compiled to a script, the pre-flight scan, the commands that swap
      it in, whose programs run through the class [Shell]), [Danger] (the dead
      man's switch: pending operations, the threads that undo them),
      [SafeMode] (handlers, the older watcher, start-up); [SafeModeInv] (the
      phases of an operation), [SafeModeLive] (a tick's thread ends);
      [SafeModeProps] shows that an operation is undone at most once and, if
      nobody keeps it, at least once, and where two timers contradict each
      other; [FirewallProps] that the pre-flight scan objects to nothing.
    - Predictive inbox, predictive/: [Inbox] (findings, acknowledgements,
      pages: proposal.rs, ack.rs, notify.rs), [InboxAnalyzers] (the metrics
      history, the disk verdict, the class [Analyzer] with its laws
      [AnalyzerLaws]) and one file per modelled analyzer ([DiskFill],
      [ContainerDisk], [ContainerRestart], [IpConflict]); [InboxNode] is the
      tick of orchestrator.rs, a stage per lock it takes, with the handlers of
      api/mod.rs and the restart.  [InboxInv] gives what each step does to one
      finding; [InboxProps] shows that dismissals and standing findings stay,
      ghosts leave and restarts lose nothing; [InboxFaults] that the analyzers
      keep their laws and where the inbox says something untrue.
    - WolfHA, wolfha/mod.rs: [HaManifest] (manifests and delta rounds),
      [HaStore] (entries, promotion, demotion, chains of disk deltas),
      [HaMonitor] (boot guard and failover monitor); [HaFocus], [HaTiming] and
      [HaProps] (one copy runs through a clean partition, an isolated primary
      is fenced, roles, refused deletions).

    WolfHA sends what [Rolling] computes; WolfRun's election reads the table
    of [Cluster]; a rotation re-keys the stores of [AtRest] and is accepted or
    refused by the gate in [Rotation], whose constants the others share; a
    node that joins counts failures in [AuthLimiter]'s table, enters [Cluster]'s,
    and adopts the secret that [Rotation] holds; workflows run on the nodes of
    [Cluster] and are scheduled by agents through [AgentGate]'s effects; the
    image watcher pushes its settings along [Cluster]'s table and reads its
    window with [Cron].

    ** Conventions

    Third-party code is a parameter of the definitions that use it: hashes,
    AES-GCM, HKDF and base64 (class [Crypto], with laws in [CryptoLaws]),
    Ed25519 signatures ([Signing], [SigningLaws]), the calendar of chrono
    ([Chrono], [ChronoLaws]), URL and address parsers, regular expressions,
    name resolution, tar, the printing of dates.  What the environment decides (a clock, a random
    token, whether a write succeeds, what a peer answers, in which order a
    hash map is walked) is an argument or a field of a world record such as
    [World], [RunWorld], [RotWorld] or [Env], or the state of a class such as
    [Host] and [Surroundings].  An operation that can panic has
    the outcome [Panic].  Unix times are seconds, [Instant]s nanoseconds;
    integers that can wrap in the code wrap here.  Strings are their bytes;
    where the code counts characters, so does the model.  A write of a whole
    file is a [Write]: stored, not begun, or cut short, which leaves a file
    that loads as empty where the code truncates in place, and the old file
    where it renames; WolfHA's store is taken to be written or left as it was.

    Recursion that is not structural is by fuel that the theorems show to be
    enough: the scan and the signature loop of [Rolling] by the length of the
    data, its decoders by the bytes left, evictions by the number of entries,
    the glob matcher by the product of the lengths of pattern and text.  The
    loop that removes duplicate jumps stops after the code's own 100001 rounds.

    ** Not modelled

    The HTTP handlers and dashboard, and everything whose content is a command
    to an external tool: container and VM runtimes, storage, bridges and
    tunnels, the router's uplinks and DHCP, certificates, databases,
    Kubernetes, hosting panels, scanners.  Of backups, an archive's making,
    storing, fetching and restoring are such commands; of joining, TLS and
    the caller's side of a handshake are left out; of workflows, their
    calls to the image watcher and what models, agents, SQL and mail servers
    answer; of the image watcher, docker, the registries and the making of a
    backup.  Of the predictive inbox, the
    samplers, the analyzers but four, and the remediations are left out.
    Of the modelled files, metrics and displays are left out, as are password
    hashing, TOTP and the audit logs.  Within a part, concurrency is that of
    its lock: whole operations interleave, except where the code unlocks in
    the middle (OAuth token requests, polls, failover monitor against API,
    rollbacks, handshakes, backups, iterations of a workflow), which is
    modelled as separate steps; tasks that a workflow's step runs at the same
    time run in their order, and so do a sweep's updates; applying and confirming
    firewall rules are one step each.  Rotations read one set of
    circumstances per peer and phase. *)
From Stdlib Require Export ZArith Lia Bool Ascii.
From stdpp Require Export base tactics list gmap strings sorting.

#[global] Open Scope Z_scope.

(** ** Outcomes of fallible code

    Rust's [Result] with one more case: an operation that panics (an index or
    a slice out of range, a failed [unwrap]) does not return at all, and the
    theorems about hostile input distinguish that from an error value. *)
Inductive res (E A : Type) : Type :=
| Ok (a : A)
| Err (e : E)
| Panic.
Arguments Ok {E A} a.
Arguments Err {E A} e.
Arguments Panic {E A}.

#[global] Instance res_ret {E} : MRet (res E) := λ A a, Ok a.
#[global] Instance res_bind {E} : MBind (res E) := λ A B f x,
  match x with Ok a => f a | Err e => Err e | Panic => Panic end.
#[global] Instance res_fmap {E} : FMap (res E) := λ A B f x,
  match x with Ok a => Ok (f a) | Err e => Err e | Panic => Panic end.

(** [Option::ok_or]: a missing value becomes the given error. *)
Definition ok_or {E A} (o : option A) (e : E) : res E A :=
  match o with Some a => Ok a | None => Err e end.

(** What a write that replaces a whole file did.  [std::fs::write], and
    paths.rs's [write_secure] too, empty the file before they write to it: one
    that fails can leave it as it was or cut short, and a file cut short does
    not parse any more.  A file that is missing or does not parse is [None]. *)
Inductive Write := Stored | Unwritten | CutShort.
Definition overwrite {A} (w : Write) (a : A) (file : option A) : option A :=
  match w with Stored => Some a | Unwritten => file | CutShort => None end.
Definition is_stored (w : Write) : bool := match w with Stored => true | _ => false end.
(** [None] removes the file. *)
Definition overwrite_or_remove {A} (w : Write) (o file : option A) : option A :=
  match o with Some a => overwrite w a file | None => if is_stored w then None else file end.

Lemma is_stored_spec w : is_stored w = true ↔ w = Stored.
Proof. by destruct w. Qed.

(** Indexing a slice or unwrapping an option: a missing value panics. *)
Definition or_panic {E A} (o : option A) : res E A :=
  match o with Some a => Ok a | None => Panic end.

(** An early return: [if c { return Err(e) }]. *)
Definition guard_err {E} (c : bool) (e : E) : res E () :=
  if c then Err e else Ok ().

Definition is_ok {E A} (r : res E A) : bool :=
  match r with Ok _ => true | _ => false end.

Section res_lemmas.
Context {E : Type}.

Lemma bind_Ok {A B} (f : A → res E B) (x : res E A) b :
  (x ≫= f) = Ok b ↔ ∃ a, x = Ok a ∧ f a = Ok b.
Proof. destruct x; cbn; split; try congruence; eauto; naive_solver. Qed.

Lemma bind_Panic {A B} (f : A → res E B) (x : res E A) :
  (x ≫= f) = Panic ↔ x = Panic ∨ ∃ a, x = Ok a ∧ f a = Panic.
Proof. destruct x; cbn; split; try congruence; eauto; naive_solver. Qed.

Lemma guard_err_Ok (c : bool) (e : E) u : guard_err c e = Ok u ↔ c = false.
Proof. destruct c, u; cbn; split; congruence. Qed.

Lemma guard_pass {A} e (f : () → res E A) : (guard_err false e ≫= f) = f ().
Proof. done. Qed.

Lemma bind_ret {A B} (a : A) (f : A → res E B) : (Ok a ≫= f) = f a.
Proof. done. Qed.

Lemma ok_or_Ok {A} (o : option A) (e : E) a : ok_or o e = Ok a ↔ o = Some a.
Proof. destruct o; cbn; naive_solver. Qed.
End res_lemmas.

(** ** Machine integers

    Unsigned integers are [Z] with the wrap-around and saturation of the
    Rust operation written out. *)
Definition wrap (w z : Z) : Z := z mod 2 ^ w.
Abbreviation wrap32 := (wrap 32).
Abbreviation wrap64 := (wrap 64).
Definition in_width (w z : Z) : Prop := 0 ≤ z < 2 ^ w.
Definition u64_max : Z := 2 ^ 64 - 1.

(** [saturating_sub], [saturating_add], [saturating_mul] on [u64]. *)
Definition sat_sub (a b : Z) : Z := Z.max 0 (a - b).
Definition sat_add (a b : Z) : Z := Z.min u64_max (a + b).
Definition sat_mul (a b : Z) : Z := Z.min u64_max (a * b).

Lemma wrap_range w z : 0 ≤ w → in_width w (wrap w z).
Proof. intros. apply Z.mod_pos_bound. lia. Qed.

Lemma wrap_small w z : in_width w z → wrap w z = z.
Proof. intros [??]. by apply Z.mod_small. Qed.

Lemma sat_sub_nonneg a b : 0 ≤ sat_sub a b.
Proof. unfold sat_sub; lia. Qed.

#[global] Instance in_width_dec w z : Decision (in_width w z).
Proof. unfold in_width. apply _. Defined.

(** ** Little-endian integers over bytes *)
Abbreviation byte := Z (only parsing).
Definition bytes_ok (bs : list byte) : Prop := Forall (in_width 8) bs.

Fixpoint to_le (n : nat) (z : Z) : list byte :=
  match n with
  | O => []
  | S n => z mod 256 :: to_le n (z / 256)
  end.

Fixpoint of_le (bs : list byte) : Z :=
  match bs with
  | [] => 0
  | b :: bs => b + 256 * of_le bs
  end.

Lemma length_to_le n z : length (to_le n z) = n.
Proof. revert z; induction n; intros; cbn; auto. Qed.

Lemma to_le_ok n z : bytes_ok (to_le n z).
Proof.
  revert z; induction n as [|n IH]; intros z; [constructor|].
  constructor; [|apply IH]. unfold in_width. by apply Z.mod_pos_bound.
Qed.

Lemma of_le_to_le n z : of_le (to_le n z) = z mod 256 ^ Z.of_nat n.
Proof.
  revert z; induction n as [|n IH]; intros z; cbn [to_le of_le].
  { by rewrite Z.mod_1_r. }
  rewrite IH, Nat2Z.inj_succ, Z.pow_succ_r by lia.
  rewrite Z.rem_mul_r by (try apply Z.pow_pos_nonneg; lia). lia.
Qed.

Lemma of_le_to_le_small n z : 0 ≤ z < 256 ^ Z.of_nat n → of_le (to_le n z) = z.
Proof. intros. rewrite of_le_to_le. by apply Z.mod_small. Qed.

Lemma of_le_nonneg bs : bytes_ok bs → 0 ≤ of_le bs.
Proof. unfold bytes_ok, in_width. induction 1; cbn; lia. Qed.

Lemma of_le_bound bs : bytes_ok bs → 0 ≤ of_le bs < 256 ^ Z.of_nat (length bs).
Proof.
  unfold bytes_ok, in_width. induction 1; cbn [of_le length]; [lia|].
  rewrite Nat2Z.inj_succ, Z.pow_succ_r by lia. lia.
Qed.

(** Indexing [l[i]] and slicing [l[i..j]]: out of range panics. *)
Definition index {E A} (l : list A) (i : nat) : res E A := or_panic (l !! i).
Definition slice {E A} (l : list A) (i j : nat) : res E (list A) :=
  if decide (i ≤ j ∧ j ≤ length l)%nat then Ok (take (j - i) (drop i l)) else Panic.

Lemma slice_ok {E A} (l : list A) i n :
  (i + n ≤ length l)%nat → @slice E A l i (i + n) = Ok (take n (drop i l)).
Proof. intros. unfold slice. rewrite decide_True by lia. do 2 f_equal. lia. Qed.

Lemma slice_prefix {E A} (l : list A) n :
  (n ≤ length l)%nat → @slice E A l 0 n = Ok (take n l).
Proof. intros. unfold slice. rewrite decide_True by lia. by rewrite drop_0, Nat.sub_0_r. Qed.

(** [iter().enumerate()]. *)
Definition enumerate {A} (l : list A) : list (nat * A) := zip (seq 0 (length l)) l.

Lemma elem_of_enumerate {A} (l : list A) i x : (i, x) ∈ enumerate l ↔ l !! i = Some x.
Proof.
  unfold enumerate. rewrite list_elem_of_lookup. split.
  - intros [j Hj]. rewrite lookup_zip_with_Some in Hj.
    destruct Hj as (a & b & [= -> ->] & Ha & Hb).
    apply lookup_seq in Ha as [-> _]. done.
  - intros Hi. exists i. rewrite lookup_zip_with_Some. exists i, x.
    split_and!; [done| |done]. apply lookup_seq. apply lookup_lt_Some in Hi. lia.
Qed.

(** ** Vectors

    [Vec::retain] is stdpp's [filter] over a boolean test; [iter().find] is
    [List.find]; a mutation through [iter_mut().find(p)] changes the first
    match only. *)
Definition retain {A} (p : A → bool) (l : list A) : list A := List.filter p l.

Fixpoint update_first {A} (p : A → bool) (f : A → A) (l : list A) : list A :=
  match l with
  | [] => []
  | x :: l => if p x then f x :: l else x :: update_first p f l
  end.

Section vec_lemmas.
Context {A : Type}.
Implicit Types (p q : A → bool) (l : list A).

Lemma elem_of_retain p l x : x ∈ retain p l ↔ x ∈ l ∧ p x = true.
Proof. unfold retain. rewrite !list_elem_of_In, filter_In. done. Qed.

Lemma retain_length_le p l : (length (retain p l) ≤ length l)%nat.
Proof. apply List.filter_length_le. Qed.

Lemma retain_all p l : Forall (λ x, p x = true) l → retain p l = l.
Proof. induction 1 as [|x l Hx _ IH]; cbn; [done|]. rewrite Hx. by f_equal. Qed.

Lemma retain_none p l : (∀ x, x ∈ l → p x = false) → retain p l = [].
Proof.
  unfold retain. induction l as [|x l IH]; intros Hp; cbn; [done|].
  rewrite (Hp x) by (by left). apply IH. intros y Hy. apply Hp. by right.
Qed.

Lemma retain_Forall p l (P : A → Prop) : Forall P l → Forall P (retain p l).
Proof. rewrite !Forall_forall. intros H x ?%elem_of_retain. naive_solver. Qed.

Lemma retain_ext p q l : (∀ x, x ∈ l → p x = q x) → retain p l = retain q l.
Proof.
  unfold retain. induction l as [|x l IH]; intros H; cbn; [done|].
  rewrite (H x), IH by set_solver. done.
Qed.

Lemma retain_retain p q l : retain p (retain q l) = retain (λ x, q x && p x) l.
Proof. unfold retain. induction l as [|x l IH]; cbn; [done|]. destruct (q x); cbn; by rewrite IH. Qed.

Lemma retain_app p l1 l2 : retain p (l1 ++ l2) = retain p l1 ++ retain p l2.
Proof. apply List.filter_app. Qed.

Lemma retain_sublist p l : retain p l `sublist_of` l.
Proof. unfold retain. induction l as [|x l IH]; cbn; [constructor|]. destruct (p x); by constructor. Qed.

(** A [retain] that drops nothing. *)
Lemma retain_length_eq p l : (length l ≤ length (retain p l))%nat → retain p l = l.
Proof.
  induction l as [|x l IH]; [done|]. unfold retain in *. cbn. pose proof (retain_length_le p l) as Hle. unfold retain in Hle.
  destruct (p x); cbn; intros H; [f_equal; apply IH; lia|lia].
Qed.

#[global] Instance retain_perm p : Proper ((≡ₚ) ==> (≡ₚ)) (retain p).
Proof.
  unfold retain. induction 1 as [|x l l' _ IH|x y l|]; cbn; [done| | |by etrans].
  - destruct (p x); by rewrite ?IH.
  - destruct (p x), (p y); try done. apply Permutation_swap.
Qed.

Lemma retain_idemp p l : retain p (retain p l) = retain p l.
Proof. apply retain_all, Forall_forall. by intros x []%elem_of_retain. Qed.

Lemma update_first_length p f l : length (update_first p f l) = length l.
Proof. induction l as [|x l IH]; cbn; [done|]. destruct (p x); cbn; lia. Qed.

Lemma update_first_none p f l :
  List.find p l = None → update_first p f l = l.
Proof.
  induction l as [|x l IH]; cbn; [done|]. destruct (p x); [done|].
  intros. by rewrite IH.
Qed.

(** The element [find] returns is the one replaced, in its place. *)
Lemma update_first_split p f l x :
  List.find p l = Some x →
  ∃ l1 l2, l = l1 ++ x :: l2 ∧ p x = true ∧ Forall (λ y, p y = false) l1 ∧
           update_first p f l = l1 ++ f x :: l2.
Proof.
  induction l as [|y l IH]; cbn; [done|]. destruct (p y) eqn:Hy.
  - intros [= ->]. exists [], l. repeat split; auto.
  - intros (l1 & l2 & -> & ? & ? & ->)%IH. exists (y :: l1), l2. auto.
Qed.

Lemma update_first_Forall p f l (P : A → Prop) :
  (∀ x, P x → p x = true → P (f x)) → Forall P l → Forall P (update_first p f l).
Proof.
  intros Hf. induction 1 as [|x l Hx Hl IH]; cbn; [constructor|].
  destruct (p x) eqn:Hp; constructor; auto.
Qed.

Lemma update_first_map {B} (g : A → B) p f l :
  (∀ x, p x = true → g (f x) = g x) → g <$> update_first p f l = g <$> l.
Proof.
  intros Hf. induction l as [|x l IH]; [done|]. cbn [update_first].
  destruct (p x) eqn:Hp; cbn; f_equal; auto.
Qed.

Lemma find_Some_elem p l x : List.find p l = Some x → x ∈ l ∧ p x = true.
Proof. intros H%List.find_some. by rewrite list_elem_of_In. Qed.

Lemma existsb_Forall p l : existsb p l = false ↔ Forall (λ x, p x = false) l.
Proof.
  induction l as [|x l IH]; cbn; [by split|]. by rewrite orb_false_iff, Forall_cons, IH.
Qed.

Lemma find_None_Forall p l : List.find p l = None ↔ Forall (λ x, p x = false) l.
Proof.
  induction l as [|x l IH]; cbn; [by split|]. rewrite Forall_cons.
  destruct (p x) eqn:Hx; naive_solver.
Qed.
End vec_lemmas.

(** [sort_by]: a stable sort; [le x y]: [x] need not come after [y]. *)
Section stable_sort.
Context {A : Type} (le : A → A → bool).

Fixpoint insert_by (x : A) (l : list A) : list A :=
  match l with
  | [] => [x]
  | y :: l' => if le x y then x :: l else y :: insert_by x l'
  end.
Definition sort_by : list A → list A := foldr insert_by [].

Lemma insert_by_perm x l : insert_by x l ≡ₚ x :: l.
Proof.
  induction l as [|y l IH]; cbn; [done|]. destruct (le x y); [done|]. rewrite IH. apply Permutation_swap.
Qed.

Lemma sort_by_perm l : sort_by l ≡ₚ l.
Proof. induction l as [|x l IH]; cbn; [done|]. by rewrite insert_by_perm, IH. Qed.

Context (R : relation A) `{!Transitive R}.
Context (le_R : ∀ x y, if le x y then R x y else R y x).

Lemma sort_by_sorted l : StronglySorted R (sort_by l).
Proof.
  induction l as [|x l IH]; cbn; [constructor|]. revert IH. generalize (sort_by l). clear l.
  induction l as [|y l IH]; intros Hs; cbn; [repeat constructor|].
  apply StronglySorted_inv in Hs as [Hs Hy]. pose proof (le_R x y) as Hle. destruct (le x y).
  - constructor; [by constructor|]. constructor; [done|]. eapply Forall_impl; [exact Hy|]. intros z ?. by etrans.
  - constructor; [by apply IH|]. rewrite insert_by_perm. by constructor.
Qed.
End stable_sort.

(** ** Record update

    [r <| p := v |>] is [r] with its field [p] replaced: a record type gives
    an instance of [Eta] that rebuilds a record from its projections, and the
    setter of a field is derived from it. *)
Class Eta (R : Type) := eta : R → R.
Class Setter {R T : Type} (p : R → T) := setter : (T → T) → R → R.
Arguments setter {R T} p {_} f r.

Ltac derive_setter p :=
  let R := lazymatch type of p with ?R → _ => R end in
  let e := constr:(_ : Eta R) in
  let e := eval hnf in e in
  let s := eval pattern p in e in
  lazymatch s with
  | (λ q, @?body q) _ =>
      exact (λ f r, ltac:(let b := eval cbv beta in (body (λ r, f (p r)) r) in exact b))
  end.
#[export] Hint Extern 0 (Setter ?p) => derive_setter p : typeclass_instances.

Notation "r <| p := v |>" := (setter p (λ _, v) r)
  (at level 12, left associativity, p constr, v at level 99,
   format "r  <| p  :=  v |>").

(** ** Tactics *)
(** Decompose a chain of binds that returned [Ok]. *)
Ltac inv_res :=
  repeat match goal with
  | H : Ok _ = Ok _ |- _ => injection H as H; try subst
  | H : Ok _ = Err _ |- _ => discriminate H
  | H : Err _ = Ok _ |- _ => discriminate H
  | H : Panic = Ok _ |- _ => discriminate H
  | H : (_ ≫= _) = Ok _ |- _ => apply bind_Ok in H as (? & ? & ?)
  | H : guard_err _ _ = Ok _ |- _ => apply guard_err_Ok in H
  | H : ok_or _ _ = Ok _ |- _ => apply ok_or_Ok in H
  end.

(** Split on the outermost guard of the goal, or run one that passes. *)
Ltac split_guard H :=
  match goal with |- context [mbind _ (guard_err ?c _)] => destruct c eqn:H end;
  cbn [guard_err mbind res_bind].
Ltac step := cbn [or_panic ok_or guard_err mbind res_bind fmap res_fmap].

(** Turn boolean tests in hypotheses into propositions. *)
Ltac bool_props :=
  repeat match goal with
  | H : _ && _ = true |- _ => apply andb_true_iff in H as [??]
  | H : _ || _ = false |- _ => apply orb_false_iff in H as [??]
  | H : negb _ = true |- _ => apply negb_true_iff in H
  | H : negb _ = false |- _ => apply negb_false_iff in H
  | H : bool_decide _ = true |- _ => apply bool_decide_eq_true in H
  | H : bool_decide _ = false |- _ => apply bool_decide_eq_false in H
  | H : (_ <? _) = true |- _ => apply Z.ltb_lt in H
  | H : (_ <? _) = false |- _ => apply Z.ltb_ge in H
  | H : (_ <=? _) = true |- _ => apply Z.leb_le in H
  | H : (_ <=? _) = false |- _ => apply Z.leb_gt in H
  | H : (_ =? _) = true |- _ => apply Z.eqb_eq in H
  | H : (_ =? _) = false |- _ => apply Z.eqb_neq in H
  end.

(** ** Hash maps

    A [HashMap] is a [gmap]. Its iteration order is unspecified: code whose
    result could depend on it (the tie of a [min_by_key]) takes the order as
    an argument, a permutation of the map's entries. *)
Class HashOrder (V : Type) := {
  hm_iter : gmap string V → list (string * V);
  hm_iter_perm m : hm_iter m ≡ₚ map_to_list m
}.

(** One order that satisfies the law; the witnesses run on it. *)
Definition canonical_order (V : Type) : HashOrder V :=
  {| hm_iter := map_to_list; hm_iter_perm m := reflexivity (map_to_list m) |}.

(** Selection folds of [Iterator]: the accumulator is replaced by an element
    that is [better]. *)
Definition pick {A} (better : A → A → bool) (l : list A) : option A :=
  foldl (λ acc x, match acc with
                  | None => Some x
                  | Some y => Some (if better x y then x else y)
                  end) None l.

(** [min_by_key] returns the first element of least key, [max_by_key] the last
    one of greatest key. *)
Definition min_by_key {A} (key : A → Z) : list A → option A :=
  pick (λ x y, key x <? key y).
Definition max_by_key {A} (key : A → Z) : list A → option A :=
  pick (λ x y, key y <=? key x).

(** [R x y]: [x] may be preferred to [y]. *)
Section pick_lemmas.
Context {A : Type} (better : A → A → bool) (R : relation A) `{!PreOrder R}.

Lemma pick_acc l acc :
  (∀ x y, x ∈ acc :: l → y ∈ acc :: l → if better x y then R x y else R y x) →
  ∃ x, foldl (λ acc x, match acc with
                | None => Some x
                | Some y => Some (if better x y then x else y)
                end) (Some acc) l = Some x ∧
       x ∈ acc :: l ∧ ∀ y, y ∈ acc :: l → R x y.
Proof.
  revert acc. induction l as [|a l IH]; intros acc Hb; cbn [foldl].
  { exists acc. split_and!; [done|set_solver|]. by intros y ->%list_elem_of_singleton. }
  set (acc' := if better a acc then a else acc).
  assert (Hacc : acc' = a ∨ acc' = acc) by (unfold acc'; destruct (better a acc); auto).
  destruct (IH acc') as (x & -> & Hin & Hmin).
  { intros y z Hy Hz. apply Hb; set_solver. }
  assert (R acc' a ∧ R acc' acc) as [??].
  { pose proof (Hb a acc) as H. unfold acc'. destruct (better a acc); split; try reflexivity; apply H; set_solver. }
  exists x. assert (R x acc') by (apply Hmin; set_solver).
  split_and!; [done|set_solver|].
  intros y Hy. rewrite !elem_of_cons in Hy. destruct Hy as [->|[->|Hy]]; [by etrans|by etrans|].
  apply Hmin. set_solver.
Qed.

Lemma pick_Some l x :
  (∀ x y, x ∈ l → y ∈ l → if better x y then R x y else R y x) →
  pick better l = Some x → x ∈ l ∧ ∀ y, y ∈ l → R x y.
Proof.
  unfold pick. destruct l as [|a l]; cbn; [done|]. intros Hb.
  destruct (pick_acc l a Hb) as (z & -> & ? & ?). by intros [= ->].
Qed.
End pick_lemmas.

Lemma pick_None {A} (better : A → A → bool) l : pick better l = None ↔ l = [].
Proof.
  unfold pick. destruct l as [|a l]; cbn; [done|]. split; [|done]. revert a.
  induction l as [|b l IH]; intros a; cbn; [done|]. by intros ?%IH.
Qed.

#[global] Instance any_preorder A : PreOrder (λ _ _ : A, True).
Proof. by split. Qed.

Lemma pick_elem {A} (better : A → A → bool) l x : pick better l = Some x → x ∈ l.
Proof. intros [H _]%(pick_Some better (λ _ _, True)); [done|]. intros a b _ _. by destruct (better a b). Qed.

#[global] Instance key_preorder {A} (key : A → Z) : PreOrder (λ x y, key x ≤ key y).
Proof. split; [intros x; lia|intros x y z; lia]. Qed.

Section by_key_lemmas.
Context {A : Type} (key : A → Z).

Lemma min_by_key_Some l x :
  min_by_key key l = Some x → x ∈ l ∧ ∀ y, y ∈ l → key x ≤ key y.
Proof.
  apply (pick_Some _ (λ x y, key x ≤ key y)). intros a b _ _. destruct (_ <? _) eqn:E; bool_props; lia.
Qed.

Lemma min_by_key_None l : min_by_key key l = None ↔ l = [].
Proof. apply pick_None. Qed.

Lemma max_by_key_Some l x :
  max_by_key key l = Some x → x ∈ l ∧ ∀ y, y ∈ l → key y ≤ key x.
Proof.
  intros [Hin Hmax]%(pick_Some (λ x y, key y <=? key x) (λ x y, - key x ≤ - key y)).
  - split; [done|]. intros y ?%Hmax. lia.
  - intros a b _ _. destruct (_ <=? _) eqn:E; bool_props; lia.
Qed.

Lemma max_by_key_None l : max_by_key key l = None ↔ l = [].
Proof. apply pick_None. Qed.
End by_key_lemmas.

(** [HashMap::retain]. *)
Definition map_retain `{Countable K} {V} (p : K → V → bool) (m : gmap K V) : gmap K V :=
  filter (λ kv, p kv.1 kv.2 = true) m.

Section map_lemmas.
Context `{Countable K} {V : Type}.
Implicit Types m : gmap K V.

Lemma map_retain_lookup p m k v :
  map_retain p m !! k = Some v ↔ m !! k = Some v ∧ p k v = true.
Proof. unfold map_retain. by rewrite map_lookup_filter_Some. Qed.

Lemma map_retain_lookup_None p m k :
  map_retain p m !! k = None ↔ m !! k = None ∨ ∃ v, m !! k = Some v ∧ p k v = false.
Proof.
  unfold map_retain. rewrite map_lookup_filter_None. cbn. split.
  - destruct (m !! k) as [v|] eqn:E; [|by left]. intros [|Hx]; [done|].
    right. exists v. split; [done|]. specialize (Hx v eq_refl). by destruct (p k v).
  - intros [|(v & Hv & Hp)]; [by left|]. right. intros v' Hv'. rewrite Hv in Hv'.
    injection Hv' as <-. by rewrite Hp.
Qed.

Lemma map_retain_subseteq p m : map_retain p m ⊆ m.
Proof. apply map_filter_subseteq. Qed.

Lemma alter_Some f m k v : m !! k = Some v → alter f k m = <[k := f v]> m.
Proof.
  intros Hk. apply map_eq. intros i. destruct (decide (i = k)) as [->|].
  - by rewrite lookup_alter_eq, lookup_insert_eq, Hk.
  - by rewrite lookup_alter_ne, lookup_insert_ne.
Qed.

Lemma alter_missing (f : V → V) m k : m !! k = None → alter f k m = m.
Proof.
  intros Hk. apply map_eq. intros i. destruct (decide (i = k)) as [->|].
  - by rewrite lookup_alter_eq, Hk.
  - by rewrite lookup_alter_ne.
Qed.

Lemma size_alter (f : V → V) m k : size (alter f k m) = size m.
Proof.
  destruct (m !! k) as [v|] eqn:Hk; [|by rewrite alter_missing].
  rewrite (alter_Some f m k v Hk). by rewrite map_size_insert_Some by eauto.
Qed.

Lemma size_insert_le m k v : (size (<[k := v]> m) ≤ S (size m))%nat.
Proof. rewrite map_size_insert. destruct (m !! k); cbn; lia. Qed.

Lemma map_retain_size p m : (size (map_retain p m) ≤ size m)%nat.
Proof. apply map_subseteq_size, map_retain_subseteq. Qed.
End map_lemmas.

(** ** Automation *)
Create HintDb wolf.
Create Rewrite HintDb wolf_len.

#[export] Hint Rewrite @length_to_le @update_first_length @length_app
  @length_take @length_drop @length_fmap : wolf_len.
#[export] Hint Resolve retain_Forall update_first_Forall to_le_ok : wolf.

(** Case analysis on the tests and matches of the goal. *)
Ltac split_cases := repeat (case_match; simplify_eq/=; try done).
