(* ===== verification/F32.v ===== *)
(** * Single-precision floats

    Rust's [f32], as the Standard Library's specification floats with a
    24-bit mantissa and exponents below 128.  The comparison of two floats
    that are not NaN is a total preorder. *)
From Stdlib Require Import SpecFloat.
From S2P Require Import Prelude.

Abbreviation f32 := spec_float.

Definition f32_add : f32 → f32 → f32 := SFadd 24 128.
Definition f32_mul : f32 → f32 → f32 := SFmul 24 128.
(** [as f32] *)
Definition f32_of_Z (z : Z) : f32 := binary_normalize 24 128 z 0 false.
Definition f32_MAX : f32 := S754_finite false 16777215 104.
(** [partial_cmp]: [None] when one of them is NaN. *)
Definition partial_cmp : f32 → f32 → option comparison := SFcompare.
Definition is_nan (a : f32) : bool := match a with S754_nan => true | _ => false end.
(** [f32::max] ignores a NaN. *)
Definition f32_max (a b : f32) : f32 :=
  match partial_cmp a b with
  | Some Lt => b
  | Some _ => a
  | None => if is_nan a then b else a
  end.

(** The literals the code uses. *)
Definition f32_0_4 : f32 := S754_finite false 13421773 (-25).
Definition f32_0_2 : f32 := S754_finite false 13421773 (-26).
Definition f32_100 : f32 := S754_finite false 13107200 (-17).
Definition f32_0 : f32 := S754_zero false.

(** ** The order *)

(** Class, exponent and mantissa, ordered lexicographically. *)
Definition rank (a : f32) : Z * Z * Z :=
  match a with
  | S754_nan => (0, 0, 0)
  | S754_zero _ => (0, 0, 0)
  | S754_infinity true => (-2, 0, 0)
  | S754_infinity false => (2, 0, 0)
  | S754_finite true m e => (-1, - e, - Z.pos m)
  | S754_finite false m e => (1, e, Z.pos m)
  end.

Definition lex (x y : Z * Z * Z) : comparison :=
  match Z.compare x.1.1 y.1.1 with
  | Eq => match Z.compare x.1.2 y.1.2 with Eq => Z.compare x.2 y.2 | c => c end
  | c => c
  end.

Lemma partial_cmp_rank a b :
  is_nan a = false → is_nan b = false → partial_cmp a b = Some (lex (rank a) (rank b)).
Proof.
  destruct a as [s|s| |s m e], b as [t|t| |t n f]; try done; destruct s; try done; try (by destruct t).
  all: destruct t; try done; intros _ _; unfold partial_cmp, lex; cbn [SFcompare rank fst snd].
  change (-1 ?= -1) with Eq. cbn iota. rewrite !Z.compare_opp, (Z.compare_antisym e f).
  destruct (e ?= f); try done. cbn. by rewrite <-Pos.compare_antisym.
Qed.

(** [a] is not above [b]. *)
Definition f32_le (a b : f32) : Prop := lex (rank a) (rank b) ≠ Gt.

#[global] Instance f32_le_preorder : PreOrder f32_le.
Proof.
  unfold f32_le, lex. split.
  - intros a. by rewrite !Z.compare_refl.
  - intros a b c. generalize (rank a) (rank b) (rank c). intros [[x1 x2] x3] [[y1 y2] y3] [[z1 z2] z3]. cbn.
    destruct (Z.compare_spec x1 y1), (Z.compare_spec y1 z1), (Z.compare_spec x1 z1); try lia; try done;
    destruct (Z.compare_spec x2 y2), (Z.compare_spec y2 z2), (Z.compare_spec x2 z2); try lia; try done;
    destruct (Z.compare_spec x3 y3), (Z.compare_spec y3 z3), (Z.compare_spec x3 z3); try lia; done.
Qed.

Lemma f32_le_total a b : f32_le a b ∨ f32_le b a.
Proof.
  unfold f32_le, lex. rewrite (Z.compare_antisym (rank a).1.1), (Z.compare_antisym (rank a).1.2),
    (Z.compare_antisym (rank a).2).
  destruct (_ ?= _); cbn; [|by left|by right].
  destruct (_ ?= _); cbn; [|by left|by right]. destruct (_ ?= _); cbn; auto.
Qed.
