(* ===== verification/F64.v ===== *)
(** * Double-precision floats

    Rust's [f64] as the Standard Library's specification floats with a 53-bit
    mantissa and exponents below 1024: arithmetic, comparisons, the
    conversions [as] performs, and how [format!] prints one with a fixed
    number of decimals. *)
From Stdlib Require Import SpecFloat.
From stdpp Require Import pretty.
From S2P Require Import Prelude.

Abbreviation f64 := spec_float.

Definition f64_add : f64 → f64 → f64 := SFadd 53 1024.
Definition f64_sub : f64 → f64 → f64 := SFsub 53 1024.
Definition f64_mul : f64 → f64 → f64 := SFmul 53 1024.
Definition f64_div : f64 → f64 → f64 := SFdiv 53 1024.
(** [as f64] of an integer, and [<], [<=], [==]: false on a NaN. *)
Definition f64_of_Z (z : Z) : f64 := binary_normalize 53 1024 z 0 false.
Definition f64_lt : f64 → f64 → bool := SFltb.
Definition f64_le : f64 → f64 → bool := SFleb.
Definition f64_eq : f64 → f64 → bool := SFeqb.
Definition f64_0 : f64 := S754_zero false.
Definition f64_sum (l : list f64) : f64 := foldl f64_add f64_0 l.
(** [f64::max] ignores a NaN. *)
Definition f64_max (a b : f64) : f64 :=
  match SFcompare a b with
  | Some Lt => b
  | Some _ => a
  | None => match a with S754_nan => b | _ => a end
  end.

(** [as u64] and the like: truncation, saturation, 0 for a NaN. *)
Definition f64_to_uint (max : Z) (a : f64) : Z :=
  match a with
  | S754_nan | S754_zero _ | S754_infinity true | S754_finite true _ _ => 0
  | S754_infinity false => max
  | S754_finite false m e => Z.min max (Z.shiftl (Z.pos m) e)
  end.

(** ** Printing *)

(** The integer nearest to [n / d], ties to the even one. *)
Definition div_half_even (n d : Z) : Z :=
  let q := n / d in
  let r := 2 * (n mod d) in
  if (d <? r) || ((d =? r) && Z.odd q) then q + 1 else q.

(** [z] with at least [n] digits. *)
Definition digits (n : nat) (z : Z) : string :=
  let s := pretty z in Nat.iter (n - String.length s) (String "0") s.

Definition print_scaled (prec : nat) (z : Z) : string :=
  let p := 10 ^ Z.of_nat prec in
  pretty (z / p) +:+ match prec with O => "" | _ => "." +:+ digits prec (z mod p) end.

(** [format!("{:.prec$}", a)] *)
Definition fmt_fixed (prec : nat) (a : f64) : string :=
  match a with
  | S754_nan => "NaN"
  | S754_infinity s => (if s then "-" else "") +:+ "inf"
  | S754_zero s => (if s then "-" else "") +:+ print_scaled prec 0
  | S754_finite s m e =>
      let n := Z.pos m * 10 ^ Z.of_nat prec in
      (if s then "-" else "")
      +:+ print_scaled prec (if 0 <=? e then n * 2 ^ e else div_half_even n (2 ^ (- e)))
  end.
(** [format!("{:+.prec$}", a)] *)
Definition fmt_signed (prec : nat) (a : f64) : string :=
  match a with
  | S754_nan | S754_zero true | S754_infinity true | S754_finite true _ _ => fmt_fixed prec a
  | _ => "+" +:+ fmt_fixed prec a
  end.

Example fmt_ties : (fmt_fixed 3 (f64_div (f64_of_Z 5) (f64_of_Z 1000)), fmt_fixed 0 (f64_div (f64_of_Z 5) (f64_of_Z 2)), fmt_fixed 2 (f64_div (f64_of_Z 1) (f64_of_Z 3)),
                    fmt_fixed 1 (f64_div (f64_of_Z 1) (f64_of_Z 20))) = ("0.005", "2", "0.33", "0.1").
Proof. vm_compute. reflexivity. Qed.
