(* ===== verification/Net.v ===== *)
(** * Clocks, text and addresses

    The parts of Rust's standard library that several components share
    (durations of the monotonic clock, [str] methods, [std::net::IpAddr] as
    numbers) and WolfStack's own tests of names and addresses
    (src/src/auth/mod.rs, src/src/agent/mod.rs, src/src/netaddr.rs). *)
From S2P Require Import Prelude.

(** ** The monotonic clock, in nanoseconds *)
Definition SEC : Z := 10 ^ 9.

(** [now.duration_since(t)], saturating at zero. *)
Definition since (now t : Z) : Z := Z.max 0 (now - t).

(** ** Names safe to hand to a shell or a path *)
Definition char_between (lo hi : Z) (c : ascii) : bool :=
  let n := Z.of_nat (nat_of_ascii c) in (lo <=? n) && (n <=? hi).
Definition is_ascii_alphanumeric (c : ascii) : bool :=
  char_between 48 57 c || char_between 65 90 c || char_between 97 122 c.

Fixpoint all_chars (p : ascii → bool) (s : string) : bool :=
  match s with EmptyString => true | String c s => p c && all_chars p s end.

(** [name.contains("..")] *)
Fixpoint has_dotdot (s : string) : bool :=
  match s with
  | String c1 ((String c2 _) as s') => bool_decide (c1 = "."%char ∧ c2 = "."%char) || has_dotdot s'
  | _ => false
  end.

Definition is_safe_name (name : string) : bool :=
  negb (bool_decide (name = "")) && bool_decide (String.length name ≤ 253)%nat
  && all_chars (λ c, is_ascii_alphanumeric c
                     || bool_decide (c ∈ ["-"%char; "_"%char; "."%char])) name
  && negb (has_dotdot name).

(** ** Addresses *)
Inductive IpAddr := V4 (n : Z) | V6 (n : Z).
#[global] Instance IpAddr_eq_dec : EqDecision IpAddr.
Proof. solve_decision. Defined.

Definition ip_ok (a : IpAddr) : Prop :=
  match a with V4 n => in_width 32 n | V6 n => in_width 128 n end.

(** [IpAddr::to_canonical]: ::ffff:a.b.c.d is a.b.c.d. *)
Definition to_canonical (a : IpAddr) : IpAddr :=
  match a with
  | V4 n => V4 n
  | V6 n => if Z.shiftr n 32 =? 0xffff then V4 (Z.land n 0xffffffff) else V6 n
  end.

Definition is_loopback (a : IpAddr) : bool :=
  match a with V4 n => Z.shiftr n 24 =? 127 | V6 n => n =? 1 end.
Definition is_unspecified (a : IpAddr) : bool :=
  match a with V4 n => n =? 0 | V6 n => n =? 0 end.

(** [!0u32 << k] of a [w]-bit word. *)
Definition mask (w k : Z) : Z := Z.land (Z.shiftl (2 ^ w - 1) k) (2 ^ w - 1).

Definition ip_in_cidr (target net : IpAddr) (prefix : Z) : bool :=
  match target, net with
  | V4 t, V4 n =>
      if 32 <? prefix then false else
      let m := if prefix =? 0 then 0 else mask 32 (32 - prefix) in
      Z.land t m =? Z.land n m
  | V6 t, V6 n =>
      if 128 <? prefix then false else
      let m := if prefix =? 0 then 0 else mask 128 (128 - prefix) in
      Z.land t m =? Z.land n m
  | _, _ => false
  end.

(** ** Text *)
Definition is_ascii_space (c : ascii) : bool := char_between 9 13 c || bool_decide (c = " "%char).

Fixpoint trim_start (s : string) : string :=
  match s with
  | String c s' => if is_ascii_space c then trim_start s' else s
  | EmptyString => ""
  end.
Fixpoint trim_end (s : string) : string :=
  match s with
  | EmptyString => ""
  | String c s => match trim_end s with
                  | EmptyString => if is_ascii_space c then "" else String c ""
                  | s' => String c s'
                  end
  end.
(** [str::trim], on the ASCII white space an address file can hold. *)
Definition trim (s : string) : string := trim_end (trim_start s).

(** [split_once('/')] *)
Fixpoint split_once (sep : ascii) (s : string) : option (string * string) :=
  match s with
  | EmptyString => None
  | String c s => if bool_decide (c = sep) then Some ("", s)
                  else '(a, b) ← split_once sep s; Some (String c a, b)
  end.

(** [rsplit_once(sep)] *)
Fixpoint rsplit_once (sep : ascii) (s : string) : option (string * string) :=
  match s with
  | EmptyString => None
  | String c s =>
      match rsplit_once sep s with
      | Some (a, b) => Some (String c a, b)
      | None => if bool_decide (c = sep) then Some ("", s) else None
      end
  end.

(** [str::parse] of an unsigned integer: an optional plus sign, then digits, at
    most [max]. *)
Fixpoint parse_digits (max acc : Z) (s : string) : option Z :=
  match s with
  | EmptyString => Some acc
  | String c s =>
      if char_between 48 57 c then
        let acc := acc * 10 + (Z.of_nat (nat_of_ascii c) - 48) in
        if max <? acc then None else parse_digits max acc s
      else None
  end.
Definition parse_uint (max : Z) (s : string) : option Z :=
  let s := match s with String c s' => if bool_decide (c = "+"%char) then s' else s | _ => s end in
  if bool_decide (s = "") then None else parse_digits max 0 s.
Definition parse_u8 : string → option Z := parse_uint 255.
Definition parse_u16 : string → option Z := parse_uint 65535.

(** ** More of [str] *)
Definition to_lower (c : ascii) : ascii :=
  if char_between 65 90 c then ascii_of_nat (nat_of_ascii c + 32) else c.
Fixpoint to_ascii_lowercase (s : string) : string :=
  match s with EmptyString => "" | String c s => String (to_lower c) (to_ascii_lowercase s) end.
Definition eq_ignore_ascii_case (a b : string) : bool :=
  bool_decide (to_ascii_lowercase a = to_ascii_lowercase b).

Fixpoint contains_char (x : ascii) (s : string) : bool :=
  match s with EmptyString => false | String c s => bool_decide (c = x) || contains_char x s end.

(** [strip_prefix('[')] and [strip_suffix(']')]. *)
Definition strip_prefix_char (x : ascii) (s : string) : option string :=
  match s with String c s => if bool_decide (c = x) then Some s else None | EmptyString => None end.
Fixpoint strip_suffix_char (x : ascii) (s : string) : option string :=
  match s with
  | EmptyString => None
  | String c EmptyString => if bool_decide (c = x) then Some "" else None
  | String c s => String c <$> strip_suffix_char x s
  end.

(** [split(sep)]: the pieces between the separators, at least one. *)
Fixpoint split_on (sep : ascii) (s : string) : list string :=
  match s with
  | EmptyString => [""]
  | String c s =>
      if bool_decide (c = sep) then "" :: split_on sep s else
      match split_on sep s with
      | p :: ps => String c p :: ps
      | [] => [String c ""]
      end
  end.

(** [split_whitespace] *)
Fixpoint pieces (s : string) : list string :=
  match s with
  | EmptyString => [""]
  | String c s => if is_ascii_space c then "" :: pieces s else
                  match pieces s with p :: ps => String c p :: ps | [] => [String c ""] end
  end.
Definition split_whitespace (s : string) : list string := filter (λ p, p ≠ "") (pieces s).

(** [join(sep)] *)
Fixpoint join (sep : string) (l : list string) : string :=
  match l with
  | [] => ""
  | [x] => x
  | x :: l => x +:+ sep +:+ join sep l
  end.

(** [str::lines]: the pieces between line feeds, without a carriage return at
    their end; nothing follows the last line feed. *)
Definition LF : ascii := "010"%char.
Definition CR : ascii := "013"%char.
Definition strip_cr (s : string) : string := default s (strip_suffix_char CR s).
Fixpoint drop_last_empty (l : list string) : list string :=
  match l with
  | [] => []
  | [x] => if bool_decide (x = "") then [] else [x]
  | x :: l => x :: drop_last_empty l
  end.
Definition lines (s : string) : list string := strip_cr <$> drop_last_empty (split_on LF s).

(** [&s[..n]] and [&s[n..]] *)
Fixpoint str_take (n : nat) (s : string) : string :=
  match n, s with S n, String c s => String c (str_take n s) | _, _ => "" end.
Fixpoint str_drop (n : nat) (s : string) : string :=
  match n, s with S n, String _ s => str_drop n s | _, _ => s end.

(** [s.is_char_boundary(n)]: a byte 10xxxxxx continues a character. *)
Definition continues (c : ascii) : bool := char_between 128 191 c.
Definition is_char_boundary (n : nat) (s : string) : bool :=
  match n with
  | O => true
  | _ => match String.get n s with
         | Some c => negb (continues c)
         | None => bool_decide (n = String.length s)
         end
  end.
(** [&s[..n]] *)
Definition slice_to {E} (n : nat) (s : string) : res E string :=
  if is_char_boundary n s then Ok (str_take n s) else Panic.

(** The text after the first [needle], which [find] locates. *)
Fixpoint after_first (needle hay : string) : option string :=
  if String.prefix needle hay then Some (str_drop (String.length needle) hay) else
  match hay with EmptyString => None | String _ hay => after_first needle hay end.

(** [hay.contains(needle)] *)
Fixpoint contains_str (needle hay : string) : bool :=
  String.prefix needle hay
  || match hay with EmptyString => false | String _ hay => contains_str needle hay end.

Lemma string_app_assoc (a b c : string) : (a +:+ b) +:+ c = a +:+ b +:+ c.
Proof. induction a as [|x a IH]; [done|]. by apply (f_equal (String x)) in IH. Qed.

Lemma prefix_app a b : String.prefix a (a +:+ b) = true.
Proof.
  induction a as [|c a IH]; [by destruct b|]. change (String c a +:+ b) with (String c (a +:+ b)).
  cbn [String.prefix]. by destruct (ascii_dec c c).
Qed.

Lemma prefix_spec a b : String.prefix a b = true ↔ ∃ r, b = a +:+ r.
Proof.
  split; [|intros [r ->]; apply prefix_app]. revert b. induction a as [|c a IH]; intros b; [by exists b|].
  destruct b as [|d b]; [done|]. cbn. destruct (ascii_dec c d) as [->|]; [|done].
  intros (r & ->)%IH. by exists r.
Qed.

Lemma contains_prefix a b : contains_str a (a +:+ b) = true.
Proof. pose proof (prefix_app a b) as H. destruct (a +:+ b); cbn [contains_str]; by rewrite H. Qed.

Lemma str_take_app a b : str_take (String.length a) (a +:+ b) = a.
Proof. induction a as [|c a IH]; [by destruct b|]. cbn. f_equal. apply IH. Qed.

Lemma str_drop_app a b : str_drop (String.length a) (a +:+ b) = b.
Proof. induction a as [|c a IH]; [by destruct b|]. apply IH. Qed.

Lemma length_str_app a b : String.length (a +:+ b) = (String.length a + String.length b)%nat.
Proof.
  induction a as [|c a IH]; [done|]. change (String c a +:+ b) with (String c (a +:+ b)).
  cbn [String.length]. by rewrite IH.
Qed.

(** [split(sep).next()]: what comes before the first [sep]. *)
Fixpoint before (sep s : string) : string :=
  if String.prefix sep s then "" else
  match s with EmptyString => "" | String c s => String c (before sep s) end.

(** [replace(' ', "-")] and the like. *)
Fixpoint replace_char (x y : ascii) (s : string) : string :=
  match s with
  | EmptyString => ""
  | String c s => String (if bool_decide (c = x) then y else c) (replace_char x y s)
  end.

(** ** Kinds of address *)

(** [Ipv4Addr::is_private], [is_link_local]. *)
Definition v4_private (n : Z) : bool :=
  (Z.shiftr n 24 =? 10) || (Z.shiftr n 20 =? 172 * 16 + 1) || (Z.shiftr n 16 =? 192 * 256 + 168).
Definition v4_link_local (n : Z) : bool := Z.shiftr n 16 =? 169 * 256 + 254.
(** [Ipv6Addr::segments()[0]] *)
Definition segment0 (n : Z) : Z := Z.shiftr n 112.
Definition v6_link_local (n : Z) : bool := Z.land (segment0 n) 0xffc0 =? 0xfe80.

Section Parse.
Context (parse_ip : string → option IpAddr).

Definition is_private_address (addr : string) : bool :=
  match to_canonical <$> parse_ip addr with
  | Some (V4 n) => v4_private n || is_loopback (V4 n) || v4_link_local n
  | Some (V6 n) => is_loopback (V6 n) || (Z.land (segment0 n) 0xfe00 =? 0xfc00) || v6_link_local n
  | None => true
  end.

(** The first three octets of a private IPv4 address. *)
Definition lan24_prefix (addr : string) : option Z :=
  match parse_ip addr with
  | Some (V4 n) => if v4_private n then Some (Z.shiftr n 8) else None
  | _ => None
  end.

Definition strip_brackets (a : string) : string :=
  default a (s ← strip_prefix_char "["%char a; strip_suffix_char "]"%char s).

Definition is_usable_addr (addr : string) : bool :=
  let a := trim addr in
  if bool_decide (a ∈ [""; "0.0.0.0"; "::"; "[::]"; "0.0.0.0/0"])
     || String.prefix "0.0.0.0:" a || String.prefix "[::]:" a then false else
  let bare := strip_brackets a in
  let junk_v6 := match parse_ip bare with
                 | Some (V6 n) => v6_link_local n || (Z.shiftr n 32 =? 0xffff)
                 | _ => false
                 end in
  if junk_v6 then false else
  let lower := to_ascii_lowercase bare in
  negb ((String.prefix "fe8" lower || String.prefix "fe9" lower
         || String.prefix "fea" lower || String.prefix "feb" lower)
        && contains_char ":"%char lower).
End Parse.
