(* ===== verification/Digits.v ===== *)
(** * Numbers in decimal

    What [to_string] prints, [str::parse] reads back; and the text is plain. *)
From stdpp Require Import pretty.
From S2P Require Import Prelude Net.

Definition is_digit : ascii → bool := char_between 48 57.

Lemma contains_char_app x a b : contains_char x (a +:+ b) = contains_char x a || contains_char x b.
Proof.
  induction a as [|c a IH]; [done|]. change (String c a +:+ b) with (String c (a +:+ b)).
  cbn [contains_char]. by rewrite IH, orb_assoc.
Qed.
Lemma all_chars_app p a b : all_chars p (a +:+ b) = all_chars p a && all_chars p b.
Proof.
  induction a as [|c a IH]; [done|]. change (String c a +:+ b) with (String c (a +:+ b)).
  cbn [all_chars]. by rewrite IH, andb_assoc.
Qed.

Lemma pretty_N_char_digit d :
  (d < 10)%N → is_digit (pretty_N_char d) = true ∧ Z.of_nat (nat_of_ascii (pretty_N_char d)) - 48 = Z.of_N d.
Proof.
  intros Hd. assert (d = 0 ∨ d = 1 ∨ d = 2 ∨ d = 3 ∨ d = 4 ∨ d = 5 ∨ d = 6 ∨ d = 7 ∨ d = 8 ∨ d = 9)%N as Hs by lia.
  by repeat destruct Hs as [->|Hs]; [..|subst].
Qed.

Lemma pretty_N_go_digits x s : all_chars is_digit s = true → all_chars is_digit (pretty_N_go x s) = true.
Proof.
  revert s. induction (N.lt_wf_0 x) as [x _ IH]; intros s Hs.
  assert (x = 0 ∨ 0 < x)%N as [->|Hx] by lia; [done|].
  rewrite pretty_N_go_step by done. apply IH; [by apply N.div_lt|]. cbn [all_chars]. rewrite Hs.
  by destruct (pretty_N_char_digit (x `mod` 10)) as [-> _]; [apply N.mod_lt|].
Qed.

Lemma pretty_digits (z : Z) : 0 ≤ z → all_chars is_digit (pretty z) = true.
Proof. destruct z as [|p|p]; intros Hz; [done| |lia]. by apply (pretty_N_go_digits (N.pos p)). Qed.

Lemma parse_digits_go max x s :
  Z.of_N x ≤ max → parse_digits max 0 (pretty_N_go x s) = parse_digits max (Z.of_N x) s.
Proof.
  revert s. induction (N.lt_wf_0 x) as [x _ IH]; intros s Hx.
  assert (x = 0 ∨ 0 < x)%N as [->|H0] by lia; [done|].
  rewrite pretty_N_go_step by done. pose proof (N.div_mod x 10 ltac:(done)) as Hdm.
  assert (x `mod` 10 < 10)%N as Hm by by apply N.mod_lt.
  assert (x `div` 10 < x)%N as Hlt by by apply N.div_lt.
  rewrite (IH (x `div` 10)%N Hlt) by (clear Hdm Hm; lia). cbn [parse_digits].
  destruct (pretty_N_char_digit (x `mod` 10) Hm) as [Hd Hv]. unfold is_digit in Hd. rewrite Hd, Hv.
  replace (Z.of_N (x `div` 10) * 10 + Z.of_N (x `mod` 10)) with (Z.of_N x) by lia.
  destruct (Z.ltb_spec max (Z.of_N x)); [lia|done].
Qed.

Lemma pretty_cons (z : Z) : 0 ≤ z → ∃ c s, pretty z = String c s ∧ is_digit c = true.
Proof.
  intros Hz. pose proof (pretty_digits z Hz) as Hd. destruct (pretty z) as [|c s] eqn:E.
  - exfalso. destruct z as [|p|p]; [done| |lia].
    assert (Hne : ∀ x s, s ≠ "" ∨ (0 < x)%N → pretty_N_go x s ≠ "").
    { intros x. induction (N.lt_wf_0 x) as [x _ IH]. intros s [Hs|Hx].
      - destruct (decide (0 < x)%N); [|by replace x with 0%N by lia].
        rewrite pretty_N_go_step by done. apply IH; [by apply N.div_lt|by left].
      - rewrite pretty_N_go_step by done. apply IH; [by apply N.div_lt|by left]. }
    apply (Hne (N.pos p) ""); [right; lia|exact E].
  - exists c, s. cbn in Hd. by apply andb_true_iff in Hd as [? _].
Qed.

Lemma parse_pretty max (z : Z) : 0 ≤ z ≤ max → parse_uint max (pretty z) = Some z.
Proof.
  intros Hz. destruct (pretty_cons z) as (c & s & Hp & Hc); [lia|]. unfold parse_uint. rewrite Hp.
  rewrite (bool_decide_false (c = "+"%char)) by (intros ->; by vm_compute in Hc).
  rewrite (bool_decide_false (String c s = "")) by done.
  rewrite <-Hp. destruct z as [|p|p]; [|clear Hp Hc|lia].
  - by destruct max; [done..|lia].
  - exact (parse_digits_go max (N.pos p) "" (proj2 Hz)).
Qed.

(** ** Characters of a text *)
Lemma all_chars_impl (p q : ascii → bool) s : (∀ c, p c = true → q c = true) → all_chars p s = true → all_chars q s = true.
Proof.
  intros Hpq. induction s as [|c s IH]; cbn; [done|]. intros [H1 H2]%andb_true_iff. by rewrite (Hpq c H1), IH.
Qed.

Lemma trim_end_visible s : all_chars (λ c, negb (is_ascii_space c)) s = true → trim_end s = s.
Proof.
  induction s as [|c s IH]; cbn; [done|]. intros [Hc Hs]%andb_true_iff. rewrite IH by done.
  destruct s; [|done]. apply negb_true_iff in Hc. by rewrite Hc.
Qed.

Lemma trim_visible s : all_chars (λ c, negb (is_ascii_space c)) s = true → trim s = s.
Proof.
  intros Hs. unfold trim. assert (trim_start s = s) as ->; [|by apply trim_end_visible].
  destruct s as [|c s]; [done|]. cbn in *. apply andb_true_iff in Hs as [Hc _]. apply negb_true_iff in Hc. by rewrite Hc.
Qed.
Lemma all_chars_without (p : ascii → bool) x s : p x = false → all_chars p s = true → contains_char x s = false.
Proof.
  intros Hx. induction s as [|c s IH]; [done|]. cbn. rewrite andb_true_iff. intros [Hc Hs].
  rewrite IH by done. rewrite bool_decide_false; [done|]. by intros ->; rewrite Hx in Hc.
Qed.

(** A text is cut at the first separator in one way. *)
Lemma first_cut x a a' b b' :
  contains_char x a = false → contains_char x a' = false →
  a +:+ String x b = a' +:+ String x b' → a = a' ∧ b = b'.
Proof.
  revert a'. induction a as [|c a IH]; intros [|c' a'] Ha Ha' Heq; cbn in *.
  - by injection Heq as <-.
  - exfalso. injection Heq as <- _. by rewrite bool_decide_true in Ha'.
  - exfalso. injection Heq as -> _. by rewrite bool_decide_true in Ha.
  - apply orb_false_iff in Ha as [_ Ha], Ha' as [_ Ha']. injection Heq as <- Heq.
    by destruct (IH a' Ha Ha' Heq) as [-> ->].
Qed.

Lemma trim_plain s : all_chars (char_between 33 126) s = true → trim s = s.
Proof.
  intros Hs. apply trim_visible. eapply all_chars_impl; [|exact Hs]. intros c Hc. unfold is_ascii_space.
  apply negb_true_iff, orb_false_iff. split; [unfold char_between in *; lia|]. apply bool_decide_eq_false. by intros ->.
Qed.

(** ** Splitting *)
Lemma split_on_not_nil sep s : split_on sep s ≠ [].
Proof. destruct s as [|c s]; [done|]. cbn. repeat case_match; done. Qed.
Lemma split_on_app sep a b :
  contains_char sep a = false → split_on sep (a +:+ String sep b) = a :: split_on sep b.
Proof.
  induction a as [|c a IH]; intros Ha.
  - change ("" +:+ String sep b) with (String sep b). cbn [split_on]. by rewrite bool_decide_true.
  - cbn [contains_char] in Ha. apply orb_false_iff in Ha as [Hc Ha].
    change (String c a +:+ String sep b) with (String c (a +:+ String sep b)). cbn [split_on]. by rewrite Hc, IH.
Qed.
Lemma split_on_none sep b : contains_char sep b = false → split_on sep b = [b].
Proof.
  induction b as [|c b IH]; [done|]. cbn [contains_char split_on]. intros [Hc Hb]%orb_false_iff. by rewrite Hc, IH.
Qed.
Lemma split_on_suffix sep a b : ∃ x l, split_on sep (a +:+ String sep b) = (x :: l) ++ split_on sep b.
Proof.
  induction a as [|c a (x & l & IH)].
  - exists "", []. change ("" +:+ String sep b) with (String sep b). cbn [split_on]. by rewrite bool_decide_true.
  - change (String c a +:+ String sep b) with (String c (a +:+ String sep b)). cbn [split_on]. rewrite IH. cbn [app].
    case_bool_decide; [by exists "", (x :: l)|by exists (String c x), l].
Qed.
Lemma split_on_concat sep a b : split_on sep (a +:+ String sep b) = split_on sep a ++ split_on sep b.
Proof.
  induction a as [|c a IH].
  - change ("" +:+ String sep b) with (String sep b). cbn [split_on]. by rewrite bool_decide_true.
  - change (String c a +:+ String sep b) with (String c (a +:+ String sep b)). cbn [split_on]. rewrite IH.
    case_bool_decide; [done|]. pose proof (split_on_not_nil sep a). by destruct (split_on sep a).
Qed.
Lemma join_split_on sep s : join (String sep "") (split_on sep s) = s.
Proof.
  induction s as [|c s IH]; [done|]. cbn [split_on]. case_bool_decide as Hc.
  - subst. pose proof (split_on_not_nil sep s) as Hn. destruct (split_on sep s) as [|x l]; [done|].
    change (join (String sep "") ("" :: x :: l)) with ("" +:+ String sep "" +:+ join (String sep "") (x :: l)). by rewrite IH.
  - pose proof (split_on_not_nil sep s) as Hn. destruct (split_on sep s) as [|x l]; [done|].
    destruct l as [|y l]; [by cbn in IH |- *; rewrite IH|].
    change (join (String sep "") (String c x :: y :: l)) with (String c (x +:+ String sep "" +:+ join (String sep "") (y :: l))).
    f_equal. exact IH.
Qed.
