(* ===== verification/Rolling.v ===== *)
(** * Rolling-checksum block deltas (src/src/wolfha/replication/rolling.rs)

    The rsync algorithm WolfHA uses to ship changed blocks: the weak rolling
    checksum, signatures of a replica's file, the delta computed against them,
    its application, and the binary wire formats.  Files are the byte strings
    they hold; [sha256] (crate [sha2]) is a parameter of the section. *)
From S2P Require Import Prelude.

(** ** Weak checksum: rsync's [get_checksum1] and its incremental form *)
Definition weak_checksum (buf : list byte) : Z :=
  let '(s1, s2) := foldl (λ '(s1, s2) b,
    let s1 := wrap32 (s1 + b) in (s1, wrap32 (s2 + s1))) (0, 0) buf in
  Z.lor (Z.land s1 0xffff) (wrap32 (Z.shiftl s2 16)).

Record Roll := mk_roll { r_s1 : Z; r_s2 : Z; r_len : Z }.

Definition roll_new (buf : list byte) : Roll :=
  let '(s1, s2) := foldl (λ '(s1, s2) b,
    let s1 := Z.land (s1 + b) 0xffff in (s1, Z.land (s2 + s1) 0xffff)) (0, 0) buf in
  mk_roll s1 s2 (wrap32 (Z.of_nat (length buf))).

Definition digest (r : Roll) : Z :=
  Z.lor (Z.land (r_s1 r) 0xffff) (wrap32 (Z.shiftl (r_s2 r) 16)).

(** Slide the window: [out] leaves the front, [inb] joins the back. *)
Definition roll_step (r : Roll) (out inb : byte) : Roll :=
  let s1 := Z.land (wrap32 (wrap32 (r_s1 r - out) + inb)) 0xffff in
  let s2 := Z.land (wrap32 (wrap32 (r_s2 r - wrap32 (r_len r * out)) + s1)) 0xffff in
  mk_roll s1 s2 (r_len r).

(** ** Signatures *)
Definition STRONG_LEN : nat := 16.

Record BlockSig := mk_block_sig { bs_weak : Z; bs_strong : list byte }.

Record FileSignature := mk_file_sig {
  fs_block_size : nat;
  fs_base_len : Z;
  fs_blocks : list BlockSig
}.

(** Length of block [i], accounting for a short final block. *)
Definition block_len (sig : FileSignature) (i : nat) : nat :=
  let start := Z.of_nat i * Z.of_nat (fs_block_size sig) in
  let remaining := sat_sub (fs_base_len sig) start in
  Z.to_nat (Z.min remaining (Z.of_nat (fs_block_size sig))).

Inductive DeltaOp :=
| Copy (index count : Z)
| Literal (bytes : list byte).

#[global] Instance DeltaOp_eq_dec : EqDecision DeltaOp.
Proof. solve_decision. Defined.

(** ** File I/O

    [File::read] returns any positive number of the bytes that are left, 0
    only at the end; a schedule says how much each call returns, or that the
    call fails.  An exhausted schedule succeeds and returns what fits. *)
Inductive IoEvent := Chunk (n : nat) | IoFails.
Record Reader := mk_reader { rd_rest : list byte; rd_sched : list IoEvent }.

Inductive RollingError :=
| EReadFails | ESeekFails | EWriteFails
| EPastEnd (block : Z)
| ESigTruncated | ESigZeroBlock | ESigOverflow
| ECopyTruncated | EZeroCopy | ELiteralHeader | ELiteralBody | EUnknownTag (tag : byte)
| EPathHeader | EPathTruncated | ENonUtf8 | EOpsHeader | EOpsTruncated.

Definition read (rd : Reader) (space : nat) : res RollingError (list byte * Reader) :=
  match rd_sched rd with
  | IoFails :: _ => Err EReadFails
  | Chunk n :: sched =>
      let n := (S n `min` space)%nat in
      Ok (take n (rd_rest rd), mk_reader (drop n (rd_rest rd)) sched)
  | [] => Ok (take space (rd_rest rd), mk_reader (drop space (rd_rest rd)) [])
  end.

(** The inner loop of [signatures] and [apply_delta]: fill one block, stopping
    at the end of the file.  Each read fills at least one byte, so the initial
    [space] bounds the calls. *)
Fixpoint fill (fuel : nat) (rd : Reader) (space : nat) (buf : list byte) :
    res RollingError (list byte * Reader) :=
  match fuel with
  | O => Ok (buf, rd)
  | S fuel =>
      if decide (space = 0)%nat then Ok (buf, rd) else
      '(bytes, rd) ← read rd space;
      match bytes with
      | [] => Ok (buf, rd)
      | _ => fill fuel rd (space - length bytes) (buf ++ bytes)
      end
  end.

Definition fill_block (rd : Reader) (block_size : nat) : res RollingError (list byte * Reader) :=
  fill block_size rd block_size [].

(** [write_all], [flush] and [sync_all] use one event of the schedule each. *)
Definition io_step (sched : list IoEvent) : res RollingError (list IoEvent) :=
  match sched with
  | [] => Ok []
  | Chunk _ :: sched => Ok sched
  | IoFails :: _ => Err EWriteFails
  end.

Section Hashing.
(** [Sha256::digest] of crate [sha2]. *)
Variable sha256 : list byte → list byte.

Definition strong_hash (buf : list byte) : list byte := take STRONG_LEN (sha256 buf).

(** ** [signatures]: the outer loop, over what is left of the file *)
Fixpoint sig_loop (fuel block_size : nat) (rd : Reader) (base_len : Z)
    (blocks : list BlockSig) : res RollingError FileSignature :=
  match fuel with
  | O => Panic
  | S fuel =>
      '(block, rd) ← fill_block rd block_size;
      if decide (length block = 0)%nat
      then Ok (mk_file_sig block_size base_len blocks)
      else
        let blocks := blocks ++ [mk_block_sig (weak_checksum block) (strong_hash block)] in
        let base_len := wrap64 (base_len + Z.of_nat (length block)) in
        if decide (length block < block_size)%nat
        then Ok (mk_file_sig block_size base_len blocks)
        else sig_loop fuel block_size rd base_len blocks
  end.

(** A turn that goes on consumed a whole block, so the file's length bounds
    the turns. *)
Definition signatures (rd : Reader) (block_size : nat) : res RollingError FileSignature :=
  sig_loop (S (length (rd_rest rd))) block_size rd 0 [].

(** ** [delta_from_bytes] *)
Definition flush_literal (ops : list DeltaOp) (literal : list byte) : list DeltaOp :=
  match literal with [] => ops | _ => ops ++ [Literal literal] end.

(** Merge with the previous op when this block directly follows it. *)
Definition push_copy (ops : list DeltaOp) (index : Z) : list DeltaOp :=
  match last ops with
  | Some (Copy pi count) =>
      if wrap32 (pi + count) =? index
      then take (pred (length ops)) ops ++ [Copy pi (wrap32 (count + 1))]
      else ops ++ [Copy index 1]
  | _ => ops ++ [Copy index 1]
  end.

(** Only the full-length blocks are indexed, weak checksum to candidates. *)
Definition build_table (sig : FileSignature) : gmap Z (list Z) :=
  foldl (λ table '(i, bs),
    if decide (block_len sig i = fs_block_size sig)
    then <[bs_weak bs := default [] (table !! bs_weak bs) ++ [wrap32 (Z.of_nat i)]]> table
    else table) ∅ (enumerate (fs_blocks sig)).

Definition tail_block (sig : FileSignature) : option (Z * nat) :=
  match length (fs_blocks sig) with
  | O => None
  | S last =>
      let len := block_len sig last in
      if decide (0 < len ∧ len < fs_block_size sig)%nat
      then Some (wrap32 (Z.of_nat last), len) else None
  end.

(** [for &ci in cands]: the first candidate whose strong hash agrees. *)
Fixpoint find_candidate (sigs : list BlockSig) (strong : list byte) (cands : list Z) :
    res RollingError (option Z) :=
  match cands with
  | [] => Ok None
  | ci :: cands =>
      s ← index sigs (Z.to_nat ci);
      if decide (bs_strong s = strong) then Ok (Some ci)
      else find_candidate sigs strong cands
  end.

(** The scan loop, from the window at [pos] whose checksum state is [roll]. *)
Fixpoint scan (fuel : nat) (data : list byte) (sig : FileSignature)
    (table : gmap Z (list Z)) (pos : nat) (roll : Roll)
    (ops : list DeltaOp) (literal : list byte) :
    res RollingError (nat * list DeltaOp * list byte) :=
  match fuel with
  | O => Panic
  | S fuel =>
      let block_size := fs_block_size sig in
      matched ← match table !! digest roll with
                | Some cands =>
                    window ← slice data pos (pos + block_size);
                    find_candidate (fs_blocks sig) (strong_hash window) cands
                | None => Ok None
                end;
      match matched with
      | Some ci =>
          let ops := push_copy (flush_literal ops literal) ci in
          let pos := (pos + block_size)%nat in
          if decide (length data < pos + block_size)%nat then Ok (pos, ops, []) else
          window ← slice data pos (pos + block_size);
          scan fuel data sig table pos (roll_new window) ops []
      | None =>
          out ← index data pos;
          let literal := literal ++ [out] in
          if decide (length data ≤ pos + block_size)%nat then Ok (S pos, ops, literal) else
          inb ← index data (pos + block_size);
          scan fuel data sig table (S pos) (roll_step roll out inb) ops literal
      end
  end.

Definition delta_from_bytes (data : list byte) (sig : FileSignature) :
    res RollingError (list DeltaOp) :=
  let block_size := fs_block_size sig in
  if decide (block_size = 0%nat ∨ fs_blocks sig = []) then
    Ok (match data with [] => [] | _ => [Literal data] end)
  else
    let table := build_table sig in
    '(pos, ops, literal) ←
      (if decide (block_size ≤ length data)%nat then
         window ← slice data 0 block_size;
         scan (S (length data)) data sig table 0 (roll_new window) [] []
       else Ok (0%nat, [], []));
    let rest := drop (pos `min` length data) data in
    let no_tail := Ok (flush_literal ops (literal ++ rest)) in
    match tail_block sig with
    | Some (idx, len) =>
        if decide (length rest = len) then
          s ← index (fs_blocks sig) (Z.to_nat idx);
          if decide (strong_hash rest = bs_strong s)
          then Ok (push_copy (flush_literal ops literal) idx)
          else no_tail
        else no_tail
    | None => no_tail
    end.

End Hashing.
Arguments strong_hash : simpl never.

(** ** [apply_delta]

    [base] and [out] are file contents.  An offset of 2^63 or more is refused
    by [lseek]. *)
Definition seek (base : list byte) (sched : list IoEvent) (off : Z) :
    res RollingError Reader :=
  if off <? 2 ^ 63 then Ok (mk_reader (drop (Z.to_nat off) base) sched)
  else Err ESeekFails.

Fixpoint apply_copy (count : nat) (base : list byte) (block_size : nat) (index k : Z)
    (sched : list IoEvent) (out : list byte) : res RollingError (list byte * list IoEvent) :=
  match count with
  | O => Ok (out, sched)
  | S count =>
      rd ← seek base sched (wrap64 ((index + k) * Z.of_nat block_size));
      '(block, rd) ← fill_block rd block_size;
      guard_err (bool_decide (length block = 0)%nat) (EPastEnd (wrap32 (index + k)));;
      sched ← io_step (rd_sched rd);
      apply_copy count base block_size index (k + 1) sched (out ++ block)
  end.

Fixpoint apply_ops (base : list byte) (ops : list DeltaOp) (block_size : nat)
    (sched : list IoEvent) (out : list byte) : res RollingError (list byte * list IoEvent) :=
  match ops with
  | [] => Ok (out, sched)
  | Literal bytes :: ops =>
      sched ← io_step sched;
      apply_ops base ops block_size sched (out ++ bytes)
  | Copy index count :: ops =>
      '(out, sched) ← apply_copy (Z.to_nat count) base block_size index 0 sched out;
      apply_ops base ops block_size sched out
  end.

(** The content of [out_path] once the call has returned. *)
Definition apply_delta (base : list byte) (ops : list DeltaOp) (block_size : nat)
    (sched : list IoEvent) : res RollingError (list byte) :=
  '(out, sched) ← apply_ops base ops block_size sched [];
  sched ← io_step sched;
  _ ← io_step sched;
  Ok out.

(** ** Wire encoding of integers and records, little-endian *)
Definition encode_signatures (sig : FileSignature) : list byte :=
  to_le 4 (wrap32 (Z.of_nat (fs_block_size sig)))
  ++ to_le 8 (fs_base_len sig)
  ++ to_le 4 (wrap32 (Z.of_nat (length (fs_blocks sig))))
  ++ concat ((λ b, to_le 4 (bs_weak b) ++ bs_strong b) <$> fs_blocks sig).

(** [u32::from_le_bytes([buf[o], .., buf[o+3]])] and its 8-byte form. *)
Definition le_at (n : nat) (buf : list byte) (o : nat) : res RollingError Z :=
  of_le <$> slice buf o (o + n).

Fixpoint decode_blocks (count : nat) (buf : list byte) (o : nat) :
    res RollingError (list BlockSig) :=
  match count with
  | O => Ok []
  | S count =>
      weak ← le_at 4 buf o;
      strong ← slice buf (o + 4) (o + 4 + STRONG_LEN);
      blocks ← decode_blocks count buf (o + 4 + STRONG_LEN);
      Ok (mk_block_sig weak strong :: blocks)
  end.

Definition decode_signatures (buf : list byte) : res RollingError FileSignature :=
  let HDR := (4 + 8 + 4)%nat in
  guard_err (bool_decide (length buf < HDR)%nat) ESigTruncated;;
  block_size ← le_at 4 buf 0;
  base_len ← le_at 8 buf 4;
  count ← le_at 4 buf 12;
  guard_err (block_size =? 0) ESigZeroBlock;;
  let rec := Z.of_nat (4 + STRONG_LEN) in
  (* [checked_mul] and [checked_add] on a 64-bit [usize] *)
  guard_err (bool_decide (u64_max < Z.of_nat HDR + count * rec)) ESigOverflow;;
  guard_err (bool_decide (Z.of_nat (length buf) < Z.of_nat HDR + count * rec)) ESigTruncated;;
  blocks ← decode_blocks (Z.to_nat count) buf HDR;
  Ok (mk_file_sig (Z.to_nat block_size) base_len blocks).

Definition encode_op (op : DeltaOp) : list byte :=
  match op with
  | Copy index count => 0 :: to_le 4 index ++ to_le 4 count
  | Literal bytes => 1 :: to_le 4 (wrap32 (Z.of_nat (length bytes))) ++ bytes
  end.

Definition encode_delta (ops : list DeltaOp) : list byte := concat (encode_op <$> ops).

(** One turn of the [decode_delta] loop at [i], returning the op and the next
    position.  [i + len] is a [usize] addition: it wraps at 64 bits, which a
    32-bit [len] cannot reach. *)
Definition decode_op (buf : list byte) (i : nat) : res RollingError (DeltaOp * nat) :=
  tag ← index buf i;
  let i := S i in
  if tag =? 0 then
    guard_err (bool_decide (length buf < i + 8)%nat) ECopyTruncated;;
    idx ← le_at 4 buf i;
    count ← le_at 4 buf (i + 4);
    guard_err (count =? 0) EZeroCopy;;
    Ok (Copy idx count, (i + 8)%nat)
  else if tag =? 1 then
    guard_err (bool_decide (length buf < i + 4)%nat) ELiteralHeader;;
    len ← le_at 4 buf i;
    let i := (i + 4)%nat in
    guard_err (bool_decide (Z.of_nat (length buf) < wrap64 (Z.of_nat i + len))) ELiteralBody;;
    bytes ← slice buf i (Z.to_nat (wrap64 (Z.of_nat i + len)));
    Ok (Literal bytes, (i + length bytes)%nat)
  else Err (EUnknownTag tag).

(** The loop consumes at least one byte a turn; running out of fuel is
    reported as [Panic], so a theorem that excludes [Panic] covers it. *)
Fixpoint decode_loop (fuel : nat) (buf : list byte) (i : nat) :
    res RollingError (list DeltaOp) :=
  match fuel with
  | O => Panic
  | S fuel =>
      if decide (i < length buf)%nat then
        '(op, i) ← decode_op buf i;
        ops ← decode_loop fuel buf i;
        Ok (op :: ops)
      else Ok []
  end.

Definition decode_delta (buf : list byte) : res RollingError (list DeltaOp) :=
  decode_loop (S (length buf)) buf 0.

(** ** Bundles of per-file deltas *)

(** [String::from_utf8]: the well-formed byte sequences of UTF-8. *)
Definition in_range (lo hi b : Z) : bool := (lo <=? b) && (b <=? hi).
Fixpoint utf8_valid (bs : list byte) : bool :=
  match bs with
  | [] => true
  | a :: bs1 =>
      if in_range 0 0x7f a then utf8_valid bs1 else
      match bs1 with
      | [] => false
      | b :: bs2 =>
          if in_range 0xc2 0xdf a && in_range 0x80 0xbf b then utf8_valid bs2 else
          match bs2 with
          | [] => false
          | c :: bs3 =>
              if ((a =? 0xe0) && in_range 0xa0 0xbf b
                  || in_range 0xe1 0xec a && in_range 0x80 0xbf b
                  || (a =? 0xed) && in_range 0x80 0x9f b
                  || in_range 0xee 0xef a && in_range 0x80 0xbf b)
                 && in_range 0x80 0xbf c then utf8_valid bs3 else
              match bs3 with
              | [] => false
              | d :: bs4 =>
                  if ((a =? 0xf0) && in_range 0x90 0xbf b
                      || in_range 0xf1 0xf3 a && in_range 0x80 0xbf b
                      || (a =? 0xf4) && in_range 0x80 0x8f b)
                     && in_range 0x80 0xbf c && in_range 0x80 0xbf d
                  then utf8_valid bs4 else false
              end
          end
      end
  end.

(** The path is the UTF-8 content of a Rust [String]. *)
Record FileDelta := mk_file_delta { fd_path : list byte; fd_ops : list DeltaOp }.

Definition pack_file_delta (it : FileDelta) : list byte :=
  let ops := encode_delta (fd_ops it) in
  to_le 4 (wrap32 (Z.of_nat (length (fd_path it)))) ++ fd_path it
  ++ to_le 8 (Z.of_nat (length ops)) ++ ops.

Definition pack_file_deltas (items : list FileDelta) : list byte :=
  concat (pack_file_delta <$> items).

(** One turn of the [unpack_file_deltas] loop at [i].  The additions are on
    [usize] and wrap in a release build; [buf[i..end]] panics when the end
    lies before the start. *)
Definition unpack_one (buf : list byte) (i : nat) : res RollingError (FileDelta * nat) :=
  guard_err (bool_decide (length buf < i + 4)%nat) EPathHeader;;
  plen ← le_at 4 buf i;
  let i := (i + 4)%nat in
  guard_err (bool_decide (Z.of_nat (length buf) < wrap64 (Z.of_nat i + plen))) EPathTruncated;;
  path ← slice buf i (Z.to_nat (wrap64 (Z.of_nat i + plen)));
  guard_err (negb (utf8_valid path)) ENonUtf8;;
  let i := (i + length path)%nat in
  guard_err (bool_decide (length buf < i + 8)%nat) EOpsHeader;;
  olen ← le_at 8 buf i;
  let i := (i + 8)%nat in
  guard_err (bool_decide (Z.of_nat (length buf) < wrap64 (Z.of_nat i + olen))) EOpsTruncated;;
  body ← slice buf i (Z.to_nat (wrap64 (Z.of_nat i + olen)));
  ops ← decode_delta body;
  Ok (mk_file_delta path ops, Z.to_nat (wrap64 (Z.of_nat i + olen))).

Fixpoint unpack_loop (fuel : nat) (buf : list byte) (i : nat) :
    res RollingError (list FileDelta) :=
  match fuel with
  | O => Panic
  | S fuel =>
      if decide (i < length buf)%nat then
        '(item, i) ← unpack_one buf i;
        items ← unpack_loop fuel buf i;
        Ok (item :: items)
      else Ok []
  end.

Definition unpack_file_deltas (buf : list byte) : res RollingError (list FileDelta) :=
  unpack_loop (S (length buf)) buf 0.
