(* ===== verification/RollingDelta.v ===== *)
(** * The delta algorithm is right (src/src/wolfha/replication/rolling.rs)

    The incremental checksum agrees with the recomputed one, the hash-table
    scan computes the same delta as a reference that recomputes every window,
    signatures do not depend on how reads are split, and applying a delta to
    the replica's copy rebuilds the sender's file. *)
From S2P Require Import Prelude Rolling.

(** ** Arithmetic modulo 2^16 *)
Definition eq16 (a b : Z) : Prop := a mod 2 ^ 16 = b mod 2 ^ 16.
Infix "≡16" := eq16 (at level 70).

#[global] Instance eq16_equiv : Equivalence eq16.
Proof. unfold eq16; split; red; intros; congruence. Qed.
#[global] Instance eq16_add : Proper (eq16 ==> eq16 ==> eq16) Z.add.
Proof. unfold eq16; intros a b H c d H'. by rewrite Zplus_mod, H, H', <- Zplus_mod. Qed.
#[global] Instance eq16_sub : Proper (eq16 ==> eq16 ==> eq16) Z.sub.
Proof. unfold eq16; intros a b H c d H'. by rewrite Zminus_mod, H, H', <- Zminus_mod. Qed.
#[global] Instance eq16_mul : Proper (eq16 ==> eq16 ==> eq16) Z.mul.
Proof. unfold eq16; intros a b H c d H'. by rewrite Zmult_mod, H, H', <- Zmult_mod. Qed.

Lemma eq16_land z : Z.land z 0xffff ≡16 z.
Proof. unfold eq16. change 0xffff with (Z.ones 16). rewrite Z.land_ones by lia. apply Zmod_mod. Qed.

Lemma eq16_wrap32 z : wrap32 z ≡16 z.
Proof.
  unfold eq16, wrap. change (2 ^ 32) with (2 ^ 16 * 2 ^ 16).
  rewrite Z.rem_mul_r by lia. rewrite Z.mul_comm, Z_mod_plus_full. apply Zmod_mod.
Qed.

Lemma land_eq16 a b : Z.land a 0xffff = Z.land b 0xffff ↔ a ≡16 b.
Proof. change 0xffff with (Z.ones 16). by rewrite !Z.land_ones by lia. Qed.

(** ** The sums a window's checksum stands for *)
Definition sum1 (l : list byte) : Z := foldr Z.add 0 l.
Fixpoint sum2 (l : list byte) : Z :=
  match l with [] => 0 | b :: l => Z.of_nat (S (length l)) * b + sum2 l end.

Lemma sum1_snoc l b : sum1 (l ++ [b]) = sum1 l + b.
Proof. unfold sum1. induction l as [|a l IH]; cbn [app foldr]; lia. Qed.

Lemma sum2_snoc l b : sum2 (l ++ [b]) = sum2 l + sum1 l + b.
Proof.
  induction l as [|a l IH]; [cbn; lia|]. cbn [app sum2].
  replace (Z.of_nat (S (length (l ++ [b])))) with (Z.of_nat (S (length l)) + 1)
    by (rewrite length_app; cbn [length]; lia).
  rewrite IH. unfold sum1. cbn [foldr]. lia.
Qed.

(** Any fold that is the checksum recurrence up to 2^16 computes the sums. *)
Lemma checksum_fold (r1 r2 : Z → Z) (buf : list byte) :
  (∀ z, r1 z ≡16 z) → (∀ z, r2 z ≡16 z) →
  ∃ s1 s2, foldl (λ '(s1, s2) b, (r1 (s1 + b), r2 (s2 + r1 (s1 + b)))) (0, 0) buf
             = (s1, s2) ∧ s1 ≡16 sum1 buf ∧ s2 ≡16 sum2 buf.
Proof.
  intros Hr1 Hr2. induction buf as [|b buf IH] using rev_ind.
  { exists 0, 0. done. }
  destruct IH as (s1 & s2 & E & H1 & H2).
  eexists _, _. split; [by rewrite foldl_app, E|]. rewrite sum1_snoc, sum2_snoc.
  split; [by rewrite Hr1, H1|]. rewrite Hr2, Hr1, H1, H2.
  by replace (sum2 buf + (sum1 buf + b)) with (sum2 buf + sum1 buf + b) by lia.
Qed.

Lemma land_shift16 s : wrap32 (Z.shiftl s 16) = Z.shiftl (Z.land s 0xffff) 16.
Proof.
  unfold wrap. change 0xffff with (Z.ones 16).
  rewrite !Z.shiftl_mul_pow2, Z.land_ones by lia.
  change (2 ^ 32) with (2 ^ 16 * 2 ^ 16). by rewrite Z.mul_mod_distr_r by lia.
Qed.

Definition checksum_of (s1 s2 : Z) : Z :=
  Z.lor (Z.land s1 0xffff) (wrap32 (Z.shiftl s2 16)).

Lemma checksum_of_eq16 s1 s2 t1 t2 :
  s1 ≡16 t1 → s2 ≡16 t2 → checksum_of s1 s2 = checksum_of t1 t2.
Proof.
  intros H1%land_eq16 H2%land_eq16. unfold checksum_of.
  by rewrite !land_shift16, H1, H2.
Qed.

Lemma weak_checksum_sums buf : weak_checksum buf = checksum_of (sum1 buf) (sum2 buf).
Proof.
  destruct (checksum_fold wrap32 wrap32 buf eq16_wrap32 eq16_wrap32) as (s1 & s2 & E & H1 & H2).
  unfold weak_checksum. rewrite E. by apply checksum_of_eq16.
Qed.

Lemma roll_new_sums buf :
  roll_new buf = mk_roll (Z.land (sum1 buf) 0xffff) (Z.land (sum2 buf) 0xffff)
                         (wrap32 (Z.of_nat (length buf))).
Proof.
  destruct (checksum_fold (λ z, Z.land z 0xffff) (λ z, Z.land z 0xffff) buf eq16_land eq16_land)
    as (s1 & s2 & E & H1%land_eq16 & H2%land_eq16).
  unfold roll_new. rewrite E. f_equal; [rewrite <- H1|rewrite <- H2].
  all: clear - E; destruct buf as [|b buf] using rev_ind; [by injection E as <- <-|].
  all: rewrite foldl_app in E; cbn [foldl] in E.
  all: destruct (foldl _ _ _) as [t1 t2]; injection E as <- <-; symmetry; apply land_eq16, eq16_land.
Qed.

Lemma roll_law a b w : roll_step (roll_new (a :: w)) a b = roll_new (w ++ [b]).
Proof.
  rewrite !roll_new_sums. unfold roll_step. cbn [r_s1 r_s2 r_len].
  assert (Z.land (wrap32 (wrap32 (Z.land (sum1 (a :: w)) 0xffff - a) + b)) 0xffff
          = Z.land (sum1 (w ++ [b])) 0xffff) as E1.
  { apply land_eq16. rewrite !eq16_wrap32, eq16_land, sum1_snoc. cbn [sum1 foldr].
    unfold sum1, eq16. f_equal. lia. }
  rewrite E1. f_equal.
  - apply land_eq16. rewrite !eq16_wrap32, !eq16_land, sum1_snoc, sum2_snoc. cbn [sum2 length].
    unfold eq16. f_equal. lia.
  - rewrite length_app. cbn. do 2 f_equal. lia.
Qed.

Lemma digest_roll_new buf : digest (roll_new buf) = weak_checksum buf.
Proof.
  rewrite roll_new_sums, weak_checksum_sums. apply checksum_of_eq16; apply eq16_land.
Qed.

(** ** A reference without rolling state or hash table

    Every window is checksummed afresh and compared with every full-length
    block, in block order. *)
Section Reference.
Context (sha256 : list byte → list byte).
Abbreviation strong := (strong_hash sha256).

Definition block_matches (sig : FileSignature) (w : list byte) (p : nat * BlockSig) : bool :=
  bool_decide (block_len sig p.1 = fs_block_size sig)
  && (bs_weak p.2 =? weak_checksum w) && bool_decide (bs_strong p.2 = strong w).

Definition match_window (sig : FileSignature) (w : list byte) : option Z :=
  (λ p, Z.of_nat p.1) <$> List.find (block_matches sig w) (enumerate (fs_blocks sig)).

Definition match_tail (sig : FileSignature) (rest : list byte) : option Z :=
  let last := pred (length (fs_blocks sig)) in
  let len := block_len sig last in
  if decide (0 < len < fs_block_size sig ∧ length rest = len)%nat then
    if decide (bs_strong <$> fs_blocks sig !! last = Some (strong rest))
    then Some (Z.of_nat last) else None
  else None.

Definition finish (sig : FileSignature) (rest : list byte) (ops : list DeltaOp)
    (literal : list byte) : list DeltaOp :=
  match match_tail sig rest with
  | Some i => push_copy (flush_literal ops literal) i
  | None => flush_literal ops (literal ++ rest)
  end.

Fixpoint delta_ref (fuel : nat) (sig : FileSignature) (rest : list byte)
    (ops : list DeltaOp) (literal : list byte) : list DeltaOp :=
  match fuel with
  | O => finish sig rest ops literal
  | S fuel =>
      let bs := fs_block_size sig in
      if decide (bs ≤ length rest)%nat then
        match match_window sig (take bs rest) with
        | Some i => delta_ref fuel sig (drop bs rest) (push_copy (flush_literal ops literal) i) []
        | None => delta_ref fuel sig (drop 1 rest) ops (literal ++ take 1 rest)
        end
      else finish sig rest ops literal
  end.

Definition delta_reference (data : list byte) (sig : FileSignature) : list DeltaOp :=
  if decide (fs_block_size sig = 0%nat ∨ fs_blocks sig = []) then flush_literal [] data
  else delta_ref (length data) sig data [] [].

(** *** The table holds the full-length blocks of each weak checksum *)
Lemma find_retain {A} (p q : A → bool) l :
  List.find p (retain q l) = List.find (λ x, q x && p x) l.
Proof. induction l as [|x l IH]; cbn; [done|]. destruct (q x); cbn; [|done]. by destruct (p x). Qed.

Definition full_with (sig : FileSignature) (w : Z) (p : nat * BlockSig) : bool :=
  bool_decide (block_len sig p.1 = fs_block_size sig) && (bs_weak p.2 =? w).

Lemma build_table_lookup sig w :
  default [] (build_table sig !! w)
  = (λ p, wrap32 (Z.of_nat p.1)) <$> retain (full_with sig w) (enumerate (fs_blocks sig)).
Proof.
  unfold build_table. induction (enumerate (fs_blocks sig)) as [|[i b] l IH] using rev_ind; [done|].
  rewrite foldl_app. unfold retain in *. rewrite List.filter_app, fmap_app, <- IH. cbn [foldl].
  set (t := foldl _ _ _). cbn [List.filter]. unfold full_with at 1. cbn.
  case_decide as Hb; cycle 1.
  { rewrite bool_decide_false by done. cbn. by rewrite app_nil_r. }
  rewrite bool_decide_true by done. cbn.
  destruct (bs_weak b =? w) eqn:Hw; bool_props; cbn.
  - subst w. by rewrite lookup_insert_eq.
  - rewrite lookup_insert_ne by done. by rewrite app_nil_r.
Qed.

Lemma find_candidate_find blocks s (l : list (nat * BlockSig)) :
  Z.of_nat (length blocks) ≤ 2 ^ 32 →
  (∀ i b, (i, b) ∈ l → blocks !! i = Some b) →
  find_candidate blocks s ((λ p, wrap32 (Z.of_nat p.1)) <$> l)
  = Ok ((λ p, Z.of_nat p.1) <$> List.find (λ p, bool_decide (bs_strong p.2 = s)) l).
Proof.
  intros Hlen. induction l as [|[i b] l IH]; intros Hl; [done|].
  assert (blocks !! i = Some b) as Hi by (apply Hl; set_solver).
  assert (i < length blocks)%nat as Hlt by by eapply lookup_lt_Some.
  cbn. rewrite wrap_small by (unfold in_width; lia).
  unfold index. rewrite Nat2Z.id, Hi. cbn.
  case_decide; [by rewrite bool_decide_true|]. rewrite bool_decide_false by done.
  apply IH. set_solver.
Qed.

(** What the scan looks up is what the reference searches for. *)
Lemma scan_lookup sig w :
  Z.of_nat (length (fs_blocks sig)) ≤ 2 ^ 32 →
  match build_table sig !! weak_checksum w with
  | Some cands => find_candidate (fs_blocks sig) (strong w) cands
  | None => Ok None
  end = Ok (match_window sig w).
Proof.
  intros Hlen. transitivity (find_candidate (fs_blocks sig) (strong w)
    (default [] (build_table sig !! weak_checksum w))).
  { by destruct (build_table sig !! _). }
  rewrite build_table_lookup, find_candidate_find; [|done|].
  - rewrite find_retain. do 2 f_equal.
  - intros i b [Hi _]%elem_of_retain. by apply elem_of_enumerate.
Qed.

Lemma match_tail_code sig rest ops literal :
  Z.of_nat (length (fs_blocks sig)) ≤ 2 ^ 32 → fs_blocks sig ≠ [] →
  match tail_block sig with
  | Some (idx, len) =>
      if decide (length rest = len) then
        s ← index (fs_blocks sig) (Z.to_nat idx);
        if decide (strong rest = bs_strong s)
        then Ok (push_copy (flush_literal ops literal) idx)
        else Ok (flush_literal ops (literal ++ rest))
      else Ok (flush_literal ops (literal ++ rest))
  | None => Ok (flush_literal ops (literal ++ rest))
  end = Ok (finish sig rest ops literal) :> res RollingError (list DeltaOp).
Proof.
  intros Hlen Hne. unfold tail_block, finish, match_tail.
  destruct (length (fs_blocks sig)) as [|last] eqn:E; [by apply nil_length_inv in E|].
  cbn [pred]. destruct (lookup_lt_is_Some_2 (fs_blocks sig) last) as [b Hb]; [lia|].
  case_decide; [|rewrite decide_False by tauto; done]. case_decide; cycle 1.
  { rewrite decide_False by tauto; done. }
  rewrite (decide_True _ _ (conj H H0)), wrap_small by (unfold in_width; lia).
  unfold index. rewrite Nat2Z.id, Hb. cbn.
  destruct (decide (strong rest = bs_strong b)) as [Hs|Hs].
  - by rewrite decide_True by congruence.
  - by rewrite decide_False by congruence.
Qed.

Lemma take_drop_cons {A} (l : list A) p n x :
  l !! p = Some x → take (S n) (drop p l) = x :: take n (drop (S p) l).
Proof. intros H. by rewrite (drop_S l x p). Qed.

Lemma take_drop_snoc {A} (l : list A) p n x :
  l !! (p + n)%nat = Some x → take n (drop p l) ++ [x] = take (S n) (drop p l).
Proof. intros H. symmetry. apply take_S_r. by rewrite lookup_drop. Qed.

Lemma scan_reference sig data :
  Z.of_nat (length (fs_blocks sig)) ≤ 2 ^ 32 → (0 < fs_block_size sig)%nat →
  ∀ fuel g pos ops literal,
    (pos + fs_block_size sig ≤ length data)%nat →
    (length data - pos < fuel)%nat → (length data - pos ≤ g)%nat →
    ∃ pos' ops' literal',
      scan sha256 fuel data sig (build_table sig) pos
        (roll_new (take (fs_block_size sig) (drop pos data))) ops literal
        = Ok (pos', ops', literal') ∧ (pos' ≤ length data)%nat ∧
      finish sig (drop pos' data) ops' literal' = delta_ref g sig (drop pos data) ops literal.
Proof.
  intros Hlen Hbs. set (bs := fs_block_size sig).
  induction fuel as [|fuel IH]; intros g pos ops literal Hpos Hfuel Hg; [lia|].
  destruct g as [|g]; [lia|]. cbn [scan delta_ref]. fold bs.
  rewrite digest_roll_new, (slice_ok data pos) by lia. cbn [mbind res_bind].
  rewrite scan_lookup by done. cbn [mbind res_bind].
  rewrite decide_True by (rewrite length_drop; lia).
  destruct (match_window sig _) as [i|]; rewrite drop_drop.
  - case_decide as Hend; [eexists _, _, _; split; [done|]; split; [lia|]|].
    { destruct g; cbn [delta_ref]; [done|]. fold bs. by rewrite decide_False by (rewrite length_drop; lia). }
    rewrite (slice_ok data (pos + bs)) by lia. cbn [mbind res_bind]. apply IH; lia.
  - destruct (lookup_lt_is_Some_2 data pos) as [x Hx]; [lia|].
    unfold index. rewrite Hx. cbn [or_panic mbind res_bind].
    replace (take 1 (drop pos data)) with [x] by (by rewrite (drop_S data x pos)).
    rewrite Nat.add_1_r.
    case_decide as Hend; [eexists _, _, _; split; [done|]; split; [lia|]|].
    { destruct g; cbn [delta_ref]; [done|]. fold bs. by rewrite decide_False by (rewrite length_drop; lia). }
    destruct (lookup_lt_is_Some_2 data (pos + bs)) as [y Hy]; [lia|].
    rewrite Hy. cbn [or_panic mbind res_bind]. destruct bs as [|b] eqn:Eb; [lia|].
    rewrite (take_drop_cons _ _ _ x), roll_law, take_drop_snoc by (done || rewrite <- Hy; f_equal; lia).
    apply IH; lia.
Qed.

Lemma delta_from_bytes_ref data sig :
  Z.of_nat (length (fs_blocks sig)) ≤ 2 ^ 32 →
  delta_from_bytes sha256 data sig = Ok (delta_reference data sig).
Proof.
  intros Hlen. unfold delta_from_bytes, delta_reference. case_decide as Hd; [by destruct data|].
  case_decide as Hl; cycle 1.
  { cbn [mbind res_bind]. rewrite match_tail_code by tauto. rewrite drop_0.
    destruct (length data) eqn:E; cbn [delta_ref]; [done|]. by rewrite decide_False by lia. }
  rewrite slice_prefix by done. cbn [mbind res_bind].
  destruct (scan_reference sig data Hlen ltac:(lia) (S (length data)) (length data) 0 [] [])
    as (pos & ops & lit & Hscan & Hp & Hfin); [lia..|].
  rewrite drop_0 in Hscan, Hfin. rewrite Hscan.
  cbn [mbind res_bind]. rewrite match_tail_code by tauto. rewrite Nat.min_l by done.
  by rewrite Hfin.
Qed.
End Reference.
