(* ===== verification/RollingSync.v ===== *)
(** * A delta sync rebuilds the file (src/src/wolfha/replication/rolling.rs)

    What [signatures] computes whatever the sizes of the reads, what
    [apply_delta] writes, and the end-to-end theorem: the delta of [data]
    against the signatures of [base], applied to [base], is [data]. *)
From S2P Require Import Prelude Rolling RollingDelta.

(** No call on the schedule fails. *)
Definition io_ok (sched : list IoEvent) : Prop := Forall (λ e, e ≠ IoFails) sched.

Lemma io_step_ok sched : io_ok sched → ∃ sched', io_step sched = Ok sched' ∧ io_ok sched'.
Proof. destruct 1 as [|[n|] l He Hl]; cbn; [eexists; split; [done|constructor]|eauto|done]. Qed.

Lemma read_ok rest sched space :
  io_ok sched → (0 < space)%nat →
  ∃ n sched', read (mk_reader rest sched) space
      = Ok (take n rest, mk_reader (drop n rest) sched') ∧ (0 < n ≤ space)%nat ∧ io_ok sched'.
Proof.
  destruct 1 as [|[n|] l He Hl]; intros; cbn; [..|done].
  - exists space, []. split_and!; [done|lia..|constructor].
  - exists (S n `min` space)%nat, l. split_and!; [done|lia..|done].
Qed.

(** However the reads are split, a filled block is a prefix of the rest. *)
Lemma fill_ok fuel rest sched space buf :
  io_ok sched → (space ≤ fuel)%nat →
  ∃ sched', fill fuel (mk_reader rest sched) space buf
      = Ok (buf ++ take space rest, mk_reader (drop space rest) sched') ∧ io_ok sched'.
Proof.
  revert rest sched space buf. induction fuel as [|fuel IH]; intros rest sched space buf Hio Hle.
  { replace space with 0%nat by lia. cbn. rewrite app_nil_r. eauto. }
  cbn [fill]. case_decide as Hs; [subst; cbn; rewrite app_nil_r; eauto|].
  destruct (read_ok rest sched space) as (n & sched' & -> & Hn & Hio'); [done|lia|].
  cbn [mbind res_bind]. destruct (take n rest) as [|x l] eqn:E.
  - destruct rest; [|by destruct n; [lia|]]. rewrite !drop_nil, take_nil, app_nil_r. eauto.
  - destruct (IH (drop n rest) sched' (space - length (x :: l))%nat (buf ++ x :: l))
      as (sched'' & -> & Hio''); [done|cbn; lia|].
    exists sched''. split; [|done]. rewrite <- E, <- app_assoc, drop_drop, length_take.
    destruct (decide (n ≤ length rest)%nat).
    + rewrite Nat.min_l by done. rewrite take_take_drop.
      by replace (n + (space - n))%nat with space by lia.
    + rewrite Nat.min_r, !(take_ge rest), !(drop_ge rest), take_nil, app_nil_r by lia. done.
Qed.

Lemma fill_block_ok rest sched bs :
  io_ok sched →
  ∃ sched', fill_block (mk_reader rest sched) bs
      = Ok (take bs rest, mk_reader (drop bs rest) sched') ∧ io_ok sched'.
Proof. intros. by apply (fill_ok bs rest sched bs []). Qed.

(** ** The blocks of a file *)
Definition block (base : list byte) (bs i : nat) : list byte := take bs (drop (i * bs) base).
Definition nblocks (bs len : nat) : nat := ((len + bs - 1) / bs)%nat.

Section blocks.
Context (bs : nat) (Hbs : (0 < bs)%nat).

Lemma nblocks_lt len i : (i < nblocks bs len)%nat ↔ (i * bs < len)%nat.
Proof using Hbs.
  unfold nblocks. pose proof (Nat.div_mod (len + bs - 1) bs ltac:(lia)) as Hd.
  pose proof (Nat.mod_upper_bound (len + bs - 1) bs ltac:(lia)) as Hm.
  split; intros; nia.
Qed.

Lemma length_block base i : length (block base bs i) = (bs `min` (length base - i * bs))%nat.
Proof. unfold block. by rewrite length_take, length_drop. Qed.

Lemma block_nonempty base i :
  (i < nblocks bs (length base))%nat ↔ (0 < length (block base bs i))%nat.
Proof using Hbs. rewrite nblocks_lt, length_block. lia. Qed.

(** A short block is the last one. *)
Lemma nblocks_short base i :
  (0 < length (block base bs i) < bs)%nat → nblocks bs (length base) = S i.
Proof using Hbs.
  intros Hlen. assert (i < nblocks bs (length base))%nat by (apply block_nonempty; lia).
  rewrite length_block in Hlen.
  assert (¬ S i < nblocks bs (length base))%nat by (rewrite nblocks_lt; lia). lia.
Qed.
End blocks.

Section Sync.
Context (sha256 : list byte → list byte).
Abbreviation strong := (strong_hash sha256).

Definition sig_entry (b : list byte) : BlockSig := mk_block_sig (weak_checksum b) (strong b).
Definition sig_upto (base : list byte) (bs n : nat) : list BlockSig :=
  (λ i, sig_entry (block base bs i)) <$> seq 0 n.

(** The signature of a file: one entry per block. *)
Definition sig_of (base : list byte) (bs : nat) : FileSignature :=
  mk_file_sig bs (Z.of_nat (length base)) (sig_upto base bs (nblocks bs (length base))).

Lemma sig_upto_snoc base bs n :
  sig_upto base bs (S n) = sig_upto base bs n ++ [sig_entry (block base bs n)].
Proof. unfold sig_upto. by rewrite seq_S, fmap_app. Qed.

Lemma sig_loop_ok base bs fuel sched j :
  (0 < bs)%nat → Z.of_nat (length base) < 2 ^ 64 → io_ok sched →
  (j * bs ≤ length base)%nat → (length base - j * bs < fuel)%nat →
  sig_loop sha256 fuel bs (mk_reader (drop (j * bs) base) sched)
    (Z.of_nat (j * bs)) (sig_upto base bs j) = Ok (sig_of base bs).
Proof.
  intros Hbs Hlen. revert sched j. induction fuel as [|fuel IH]; intros sched j Hio Hj Hf; [lia|].
  cbn [sig_loop]. destruct (fill_block_ok (drop (j * bs) base) sched bs Hio) as (sched' & -> & Hio').
  cbn [mbind res_bind]. fold (block base bs j). rewrite drop_drop.
  pose proof (length_block bs base j) as Hb. case_decide as H0.
  { assert (nblocks bs (length base) = j) as Hn.
    { pose proof (nblocks_lt bs Hbs (length base) j).
      destruct j as [|j']; [lia|]. pose proof (nblocks_lt bs Hbs (length base) j'). lia. }
    unfold sig_of. rewrite Hn. do 3 f_equal. lia. }
  rewrite <- Nat2Z.inj_add, wrap_small by (unfold in_width; lia).
  change (mk_block_sig _ _) with (sig_entry (block base bs j)). rewrite <- sig_upto_snoc.
  case_decide as H1.
  - unfold sig_of. rewrite (nblocks_short bs Hbs base j) by lia. do 2 f_equal. lia.
  - replace (j * bs + bs)%nat with (S j * bs)%nat by lia.
    replace (j * bs + length (block base bs j))%nat with (S j * bs)%nat by lia.
    apply IH; [done|lia..].
Qed.

Lemma signatures_ok base bs sched :
  (0 < bs)%nat → Z.of_nat (length base) < 2 ^ 64 → io_ok sched →
  signatures sha256 (mk_reader base sched) bs = Ok (sig_of base bs).
Proof.
  intros. unfold signatures. cbn [rd_rest].
  pose proof (sig_loop_ok base bs (S (length base)) sched 0) as H'. cbn [Nat.mul drop] in H'.
  rewrite ?drop_0 in H'. apply H'; (done || lia).
Qed.

Lemma sig_of_length base bs : length (fs_blocks (sig_of base bs)) = nblocks bs (length base).
Proof. cbn. unfold sig_upto. by rewrite length_fmap, length_seq. Qed.

Lemma sig_of_lookup base bs i b :
  fs_blocks (sig_of base bs) !! i = Some b ↔
  (i < nblocks bs (length base))%nat ∧ b = sig_entry (block base bs i).
Proof.
  cbn. unfold sig_upto. rewrite list_lookup_fmap, fmap_Some. split.
  - intros (x & [-> ?]%lookup_seq & ->). done.
  - intros [? ->]. exists i. split; [|done]. by apply lookup_seq.
Qed.

Lemma block_len_sig_of base bs i :
  block_len (sig_of base bs) i = length (block base bs i).
Proof. rewrite length_block. unfold block_len, sat_sub. cbn. lia. Qed.
End Sync.

(** ** What a delta means *)
Section Meaning.
Context (base : list byte) (bs : nat) (Hbs : (0 < bs)%nat).
Context (Hsmall : Z.of_nat (nblocks bs (length base)) < 2 ^ 32).
Context (Hlen : Z.of_nat (length base) < 2 ^ 63).

Definition blocks_from (i n : nat) : list byte :=
  concat ((λ k, block base bs (i + k)) <$> seq 0 n).

Definition expand_op (op : DeltaOp) : list byte :=
  match op with
  | Copy i n => blocks_from (Z.to_nat i) (Z.to_nat n)
  | Literal bytes => bytes
  end.
Definition expand (ops : list DeltaOp) : list byte := concat (expand_op <$> ops).

Definition op_ok (op : DeltaOp) : Prop :=
  match op with
  | Copy i n => 0 ≤ i ∧ 0 < n ∧ i + n ≤ Z.of_nat (nblocks bs (length base))
  | Literal _ => True
  end.

Lemma blocks_from_S_l i n : blocks_from i (S n) = block base bs i ++ blocks_from (S i) n.
Proof.
  unfold blocks_from. cbn. rewrite Nat.add_0_r. f_equal. f_equal.
  rewrite <- fmap_S_seq, <- list_fmap_compose. apply list_fmap_ext. intros ? x _. cbn. f_equal. lia.
Qed.

Lemma blocks_from_S_r i n : blocks_from i (S n) = blocks_from i n ++ block base bs (i + n).
Proof. unfold blocks_from. rewrite seq_S, fmap_app, concat_app. cbn. by rewrite app_nil_r. Qed.

Lemma expand_app ops1 ops2 : expand (ops1 ++ ops2) = expand ops1 ++ expand ops2.
Proof. unfold expand. by rewrite fmap_app, concat_app. Qed.

Lemma expand_1 op : expand [op] = expand_op op.
Proof. unfold expand. cbn. apply app_nil_r. Qed.

Lemma flush_literal_meaning ops lit :
  Forall op_ok ops →
  Forall op_ok (flush_literal ops lit) ∧ expand (flush_literal ops lit) = expand ops ++ lit.
Proof.
  intros H. destruct lit as [|b l]; cbn [flush_literal]; [by rewrite app_nil_r|].
  rewrite expand_app, expand_1. split; [|done]. by apply Forall_app_2, Forall_singleton.
Qed.

Lemma push_copy_meaning ops i :
  Forall op_ok ops → (i < nblocks bs (length base))%nat →
  Forall op_ok (push_copy ops (Z.of_nat i)) ∧
  expand (push_copy ops (Z.of_nat i)) = expand ops ++ block base bs i.
Proof using Hbs Hsmall.
  intros Hops Hi.
  assert (op_ok (Copy (Z.of_nat i) 1)) as Hnew by (cbn; lia).
  assert (expand [Copy (Z.of_nat i) 1] = block base bs i) as Hexp.
  { rewrite expand_1. unfold expand_op. rewrite Nat2Z.id. change (Z.to_nat 1) with 1%nat.
    rewrite blocks_from_S_l. apply app_nil_r. }
  assert (Forall op_ok (ops ++ [Copy (Z.of_nat i) 1]) ∧
          expand (ops ++ [Copy (Z.of_nat i) 1]) = expand ops ++ block base bs i) as Hpush.
  { rewrite expand_app, Hexp. split; [|done]. by apply Forall_app_2, Forall_singleton. }
  unfold push_copy. destruct (last ops) as [[pi n|]|] eqn:Hlast; [|done..].
  destruct (_ =? _) eqn:E; [|done]. bool_props.
  apply last_Some in Hlast as [ops' ->]. apply Forall_app in Hops as [Hops' Hlast].
  apply Forall_cons in Hlast as [(Hp & Hn & Hpn) _].
  rewrite wrap_small in E by (unfold in_width; lia).
  rewrite wrap_small by (unfold in_width; lia).
  rewrite length_app, Nat.add_comm. cbn [length Nat.add pred]. rewrite take_app_length.
  split; [apply Forall_app_2, Forall_singleton; cbn; [done|lia]|].
  rewrite !expand_app, !expand_1, <- app_assoc. f_equal. unfold expand_op.
  rewrite Z2Nat.inj_add by lia. change (Z.to_nat 1) with 1%nat.
  rewrite Nat.add_1_r, blocks_from_S_r. do 2 f_equal. lia.
Qed.

(** *** [apply_delta] writes what the delta means *)
Lemma apply_copy_ok n i k sched out :
  0 ≤ i → 0 ≤ k → i + k + Z.of_nat n ≤ Z.of_nat (nblocks bs (length base)) → io_ok sched →
  ∃ sched', apply_copy n base bs i k sched out
    = Ok (out ++ blocks_from (Z.to_nat (i + k)) n, sched') ∧ io_ok sched'.
Proof using Hbs Hlen.
  intros Hi. revert k sched out. induction n as [|n IH]; intros k sched out Hk Hn Hio.
  { cbn. rewrite app_nil_r. eauto. }
  cbn [apply_copy]. set (j := Z.to_nat (i + k)).
  assert (j < nblocks bs (length base))%nat as Hj by lia.
  pose proof (proj1 (nblocks_lt bs Hbs _ _) Hj) as Hoff.
  replace ((i + k) * Z.of_nat bs) with (Z.of_nat (j * bs)) by (unfold j; rewrite Nat2Z.inj_mul, Z2Nat.id by lia; done).
  rewrite (wrap_small 64 (Z.of_nat (j * bs))) by (unfold in_width; lia). unfold seek.
  rewrite (proj2 (Z.ltb_lt (Z.of_nat (j * bs)) (2 ^ 63))) by lia. cbn [mbind res_bind]. rewrite Nat2Z.id.
  destruct (fill_block_ok (drop (j * bs) base) sched bs Hio) as (sched1 & -> & Hio1).
  cbn [mbind res_bind]. fold (block base bs j).
  apply block_nonempty in Hj; [|done]. rewrite bool_decide_false by lia. cbn [guard_err mbind res_bind].
  cbn [rd_sched]. destruct (io_step_ok sched1 Hio1) as (sched2 & -> & Hio2). cbn [mbind res_bind].
  destruct (IH (k + 1) sched2 (out ++ block base bs j)) as (sched3 & -> & Hio3); [lia..|done|].
  exists sched3. split; [|done]. rewrite blocks_from_S_l, <- app_assoc.
  by replace (Z.to_nat (i + (k + 1))) with (S j) by lia.
Qed.

Lemma apply_ops_ok ops sched out :
  Forall op_ok ops → io_ok sched →
  ∃ sched', apply_ops base ops bs sched out = Ok (out ++ expand ops, sched') ∧ io_ok sched'.
Proof using Hbs Hlen.
  intros Hops. revert sched out. induction Hops as [|op ops Hop Hops IH]; intros sched out Hio.
  { cbn. rewrite app_nil_r. eauto. }
  destruct op as [i n|bytes]; cbn [apply_ops].
  - destruct Hop as (Hi & Hn & Hin).
    destruct (apply_copy_ok (Z.to_nat n) i 0 sched out) as (s1 & -> & H1); [lia..|done|].
    cbn [mbind res_bind]. destruct (IH s1 (out ++ blocks_from (Z.to_nat (i + 0)) (Z.to_nat n)) H1)
      as (s2 & -> & H2). exists s2. split; [|done]. rewrite <- app_assoc, Z.add_0_r. done.
  - destruct (io_step_ok sched Hio) as (s1 & -> & H1). cbn [mbind res_bind].
    destruct (IH s1 (out ++ bytes) H1) as (s2 & -> & H2). exists s2. by rewrite <- app_assoc.
Qed.

Lemma apply_delta_ok ops sched :
  Forall op_ok ops → io_ok sched → apply_delta base ops bs sched = Ok (expand ops).
Proof using Hbs Hlen.
  intros Hops Hio. unfold apply_delta.
  destruct (apply_ops_ok ops sched [] Hops Hio) as (s1 & -> & H1). cbn [mbind res_bind].
  destruct (io_step_ok s1 H1) as (s2 & -> & H2). cbn [mbind res_bind].
  destruct (io_step_ok s2 H2) as (s3 & -> & H3). done.
Qed.
End Meaning.

(** ** The delta against a file's own signatures *)
Section RoundTrip.
Context (sha256 : list byte → list byte) (base : list byte) (bs : nat).
Context (Hbs : (0 < bs)%nat) (Hsmall : Z.of_nat (nblocks bs (length base)) < 2 ^ 32).
Abbreviation strong := (strong_hash sha256).
Abbreviation sig := (sig_of sha256 base bs).

(** The strong hash tells a stretch of [data] from a different block of the
    same length: no collision of the truncated SHA-256 among them. *)
Definition collision_free (data : list byte) : Prop :=
  ∀ p n i, length (take n (drop p data)) = length (block base bs i) →
    strong (take n (drop p data)) = strong (block base bs i) →
    take n (drop p data) = block base bs i.

Lemma match_window_Some w i :
  match_window sha256 sig w = Some i →
  ∃ j, i = Z.of_nat j ∧ (j < nblocks bs (length base))%nat ∧
       length (block base bs j) = bs ∧ strong (block base bs j) = strong w.
Proof.
  unfold match_window. intros ([j b] & [Hin Hm]%find_Some_elem & ->)%fmap_Some.
  apply elem_of_enumerate, sig_of_lookup in Hin as [Hj ->].
  unfold block_matches in Hm. cbn in Hm. bool_props.
  rewrite block_len_sig_of in *. eauto 10.
Qed.

Lemma match_tail_Some rest i :
  match_tail sha256 sig rest = Some i →
  ∃ j, i = Z.of_nat j ∧ (j < nblocks bs (length base))%nat ∧
       length (block base bs j) = length rest ∧ strong (block base bs j) = strong rest.
Proof.
  unfold match_tail. set (last := pred _). case_decide as H; [|done]. case_decide as H0; [|done].
  intros [= <-]. destruct H as [Hlen Hr]. exists last.
  destruct (fs_blocks _ !! last) as [b|] eqn:Hb; [|done].
  apply sig_of_lookup in Hb as [Hj ->]. injection H0 as H0.
  rewrite block_len_sig_of in Hr. done.
Qed.

(** The reference delta stands for the operations so far, the pending
    literal and the rest of the data. *)
Lemma finish_meaning data p ops lit :
  collision_free data → Forall (op_ok base bs) ops →
  Forall (op_ok base bs) (finish sha256 sig (drop p data) ops lit) ∧
  expand base bs (finish sha256 sig (drop p data) ops lit)
  = expand base bs ops ++ lit ++ drop p data.
Proof using Hbs Hsmall.
  intros Hcf Hops. unfold finish. destruct (match_tail _ _ _) as [i|] eqn:Hm.
  - destruct (match_tail_Some _ _ Hm) as (j & -> & Hj & Hlen & Hs).
    destruct (flush_literal_meaning base bs ops lit Hops) as [Hf Ef].
    destruct (push_copy_meaning base bs Hbs Hsmall _ j Hf Hj) as [Hp ->].
    split; [done|]. rewrite Ef, <- app_assoc. do 2 f_equal. symmetry.
    specialize (Hcf p (length (drop p data)) j). rewrite firstn_all in Hcf. auto.
  - by apply flush_literal_meaning.
Qed.

Lemma delta_ref_meaning data fuel p ops lit :
  collision_free data → Forall (op_ok base bs) ops →
  Forall (op_ok base bs) (delta_ref sha256 fuel sig (drop p data) ops lit) ∧
  expand base bs (delta_ref sha256 fuel sig (drop p data) ops lit)
  = expand base bs ops ++ lit ++ drop p data.
Proof using Hbs Hsmall.
  intros Hcf. revert p ops lit. induction fuel as [|fuel IH]; intros p ops lit Hops;
    [by apply finish_meaning|]. cbn [delta_ref]. change (fs_block_size sig) with bs.
  case_decide as Hl; [|by apply finish_meaning].
  destruct (match_window _ _ _) as [i|] eqn:Hm; rewrite drop_drop.
  - destruct (match_window_Some _ _ Hm) as (j & -> & Hj & Hlen & Hs).
    destruct (flush_literal_meaning base bs ops lit Hops) as [Hf Ef].
    destruct (push_copy_meaning base bs Hbs Hsmall _ j Hf Hj) as [Hp Ep].
    destruct (IH (p + bs)%nat _ [] Hp) as [? ->]. split; [done|].
    rewrite Ep, Ef, <- !app_assoc. do 2 f_equal. cbn [app].
    rewrite <- (Hcf p bs j); [by rewrite <- drop_drop, take_drop| |done].
    rewrite Hlen, length_take. lia.
  - destruct (IH (p + 1)%nat ops (lit ++ take 1 (drop p data)) Hops) as [? ->]. split; [done|].
    by rewrite <- app_assoc, <- drop_drop, take_drop.
Qed.

Lemma delta_reference_meaning data :
  collision_free data →
  Forall (op_ok base bs) (delta_reference sha256 data sig) ∧
  expand base bs (delta_reference sha256 data sig) = data.
Proof using Hbs Hsmall.
  intros Hcf. unfold delta_reference. case_decide.
  - apply (flush_literal_meaning base bs [] data). constructor.
  - rewrite <- (drop_0 data) at 2 4. apply (delta_ref_meaning data _ 0 [] []); [done|constructor].
Qed.

(** *** An unchanged file is all copies *)
Definition is_copy (op : DeltaOp) : bool := if op is Copy _ _ then true else false.

Lemma match_window_own j :
  length (block base bs j) = bs → match_window sha256 sig (block base bs j) ≠ None.
Proof using Hbs.
  intros Hlen Hn. unfold match_window in Hn.
  apply fmap_None, find_None_Forall in Hn. rewrite Forall_forall in Hn.
  assert (j < nblocks bs (length base))%nat as Hj by (apply block_nonempty; lia).
  specialize (Hn (j, sig_entry sha256 (block base bs j))).
  unfold block_matches in Hn. cbn [fst snd] in Hn. rewrite block_len_sig_of, Hlen in Hn.
  rewrite !bool_decide_true, Z.eqb_refl in Hn by done. discriminate Hn.
  apply elem_of_enumerate. by apply sig_of_lookup.
Qed.

Lemma match_tail_own j :
  (0 < length (block base bs j) < bs)%nat → match_tail sha256 sig (block base bs j) ≠ None.
Proof using Hbs.
  intros Hlen. pose proof (nblocks_short bs Hbs base j Hlen) as Hn.
  unfold match_tail. rewrite sig_of_length, Hn. cbn [pred].
  rewrite block_len_sig_of, decide_True by (cbn; lia).
  rewrite decide_True; [done|].
  rewrite (proj2 (sig_of_lookup sha256 base bs j (sig_entry sha256 (block base bs j)))); [done|]. split; [lia|done].
Qed.

Lemma push_copy_copies ops i : Forall is_copy ops → Forall is_copy (push_copy ops i).
Proof.
  intros H. unfold push_copy.
  assert (Forall is_copy (ops ++ [Copy i 1])) by (apply Forall_app_2, Forall_singleton; done).
  destruct (last ops) as [[pi n|]|]; [|done..]. destruct (_ =? _); [|done].
  apply Forall_app_2; [by apply Forall_take|by apply Forall_singleton].
Qed.

Lemma delta_ref_own fuel j ops :
  (j * bs ≤ length base)%nat → (length base - j * bs ≤ fuel)%nat → Forall is_copy ops →
  Forall is_copy (delta_ref sha256 fuel sig (drop (j * bs) base) ops []).
Proof using Hbs.
  revert j ops. induction fuel as [|fuel IH]; intros j ops Hj Hf Hops.
  all: assert (∀ k, (length (drop (k * bs) base) < bs)%nat →
         Forall is_copy (finish sha256 sig (drop (k * bs) base) ops [])) as Hfin.
  1, 3: intros k Hk; unfold finish; destruct (match_tail _ _ _) eqn:Hm;
    [by apply push_copy_copies|]; destruct (drop (k * bs) base) eqn:E; [done|];
    exfalso; apply (match_tail_own k); unfold block; rewrite E, take_ge by lia;
    [cbn in *; lia|done].
  - apply Hfin. rewrite length_drop. lia.
  - cbn [delta_ref]. change (fs_block_size sig) with bs.
  case_decide as Hl; [|apply Hfin; lia].
    fold (block base bs j). rewrite length_drop in Hl.
    pose proof (length_block bs base j) as Hb.
    destruct (match_window _ _ _) eqn:Hm; [|by destruct (match_window_own j); [lia|]].
    rewrite drop_drop. replace (j * bs + bs)%nat with (S j * bs)%nat by lia.
    apply IH; [lia..|]. by apply push_copy_copies.
Qed.
End RoundTrip.

(** ** Properties *)

(** C11: A delta sync rebuilds the sender's file. Signatures of the replica's
    [base] are taken, the delta of [data] against them computed, and the delta
    applied to [base]: all three succeed and the result is [data], whatever
    the sizes of the individual reads, provided the truncated strong hash has
    no collision between a stretch of [data] and a block of [base]. *)
Theorem delta_sync_rebuilds sha256 base data bs sched1 sched2 :
  (0 < bs)%nat → Z.of_nat (length base) < 2 ^ 63 →
  Z.of_nat (nblocks bs (length base)) < 2 ^ 32 →
  collision_free sha256 base bs data → io_ok sched1 → io_ok sched2 →
  ∃ sig ops, signatures sha256 (mk_reader base sched1) bs = Ok sig ∧
             delta_from_bytes sha256 data sig = Ok ops ∧
             apply_delta base ops bs sched2 = Ok data.
Proof.
  intros Hbs Hlen Hn Hcf Hs1 Hs2. exists (sig_of sha256 base bs).
  exists (delta_reference sha256 data (sig_of sha256 base bs)).
  destruct (delta_reference_meaning sha256 base bs Hbs Hn data Hcf) as [Hok Hexp].
  split_and!; [apply signatures_ok; (done || lia)| |].
  - apply delta_from_bytes_ref. rewrite sig_of_length. lia.
  - rewrite apply_delta_ok by done. by rewrite Hexp.
Qed.

(** A hash that tells short stretches apart: the identity, on blocks of at
    most sixteen bytes. *)
Lemma identity_collision_free base bs data :
  (bs ≤ 16)%nat → collision_free (λ x, x) base bs data.
Proof.
  intros Hbs p n i Hlen. unfold strong_hash, STRONG_LEN.
  assert (length (block base bs i) ≤ 16)%nat by (rewrite length_block; lia).
  rewrite (take_ge (take n _)), (take_ge (block _ _ _)) by lia. done.
Qed.

Lemma delta_sync_rebuilds_witness :
  ∃ sig ops,
    signatures (λ x, x) (mk_reader [1;2;3;4;5;6;7] [Chunk 0; Chunk 5]) 3 = Ok sig ∧
    delta_from_bytes (λ x, x) [9;4;5;6;1;2;3;7] sig = Ok ops ∧
    apply_delta [1;2;3;4;5;6;7] ops 3 [Chunk 1] = Ok [9;4;5;6;1;2;3;7].
Proof.
  apply (delta_sync_rebuilds (λ x, x) [1;2;3;4;5;6;7] [9;4;5;6;1;2;3;7] 3
           [Chunk 0; Chunk 5] [Chunk 1]);
    [lia|cbn; lia|vm_compute; reflexivity|apply identity_collision_free; lia|repeat constructor; done..].
Defined.

(** C12: The rolling scan is an optimisation only: for every data and every
    signature of at most 2^32 blocks, [delta_from_bytes] returns (it neither
    panics nor runs on) and its result is the one of the reference that
    recomputes the checksum of every window and searches the blocks in
    order. *)
Theorem delta_from_bytes_reference sha256 data sig :
  Z.of_nat (length (fs_blocks sig)) ≤ 2 ^ 32 →
  delta_from_bytes sha256 data sig = Ok (delta_reference sha256 data sig).
Proof. apply delta_from_bytes_ref. Qed.

Lemma delta_from_bytes_reference_witness :
  delta_from_bytes (λ x, x) [5;1;2;3] (mk_file_sig 2 4 [mk_block_sig 262147 [1;2]; mk_block_sig 0 [9]])
  = Ok [Literal [5]; Copy 0 1; Literal [3]].
Proof.
  refine (eq_trans (delta_from_bytes_reference _ _ _ _) _); [cbn; lia|vm_compute; reflexivity].
Defined.

(** A file that has not changed costs only copies: the delta of a file
    against its own signatures carries no literal byte, the short final block
    included. *)
Theorem unchanged_file_only_copies sha256 data bs :
  (0 < bs)%nat → Z.of_nat (nblocks bs (length data)) ≤ 2 ^ 32 → data ≠ [] →
  ∃ ops, delta_from_bytes sha256 data (sig_of sha256 data bs) = Ok ops ∧ Forall is_copy ops.
Proof.
  intros Hbs Hn Hne. exists (delta_reference sha256 data (sig_of sha256 data bs)).
  split; [apply delta_from_bytes_ref; by rewrite sig_of_length|].
  unfold delta_reference. rewrite decide_False.
  - pose proof (delta_ref_own sha256 data bs Hbs (length data) 0 []) as H'.
    cbn [Nat.mul] in H'. rewrite !drop_0 in H'. apply H'; [lia..|constructor].
  - intros [H0|H0]; [cbn in H0; lia|].
    pose proof (sig_of_length sha256 data bs) as Hl. rewrite H0 in Hl.
    pose proof (nblocks_lt bs Hbs (length data) 0). destruct data; [done|cbn in *; lia].
Qed.

Lemma unchanged_file_only_copies_witness :
  ∃ ops, delta_from_bytes (λ _, []) [1;2;3;4;5] (sig_of (λ _, []) [1;2;3;4;5] 2) = Ok ops
         ∧ Forall is_copy ops.
Proof. apply (unchanged_file_only_copies (λ _, []) [1;2;3;4;5] 2); [lia|cbn; lia|done]. Defined.
