(* ===== verification/RollingWire.v ===== *)
(** * The delta wire formats (src/src/wolfha/replication/rolling.rs)

    Round trips of signatures, deltas and bundles, what the decoders do on
    arbitrary bytes, and two inputs the formats do not survive. *)
From S2P Require Import Prelude Rolling.

#[local] Opaque to_le of_le.

(** ** Reading back what was written at a position *)
Lemma slice_mid {E} (pre mid post : list byte) :
  @slice E _ (pre ++ mid ++ post) (length pre) (length pre + length mid) = Ok mid.
Proof.
  rewrite slice_ok by (rewrite !length_app; lia).
  by rewrite drop_app_length, take_app_length.
Qed.

Lemma slice_at (pre mid post : list byte) i n :
  i = length pre → n = length mid →
  @slice RollingError _ (pre ++ mid ++ post) i (i + n) = Ok mid.
Proof. intros -> ->. apply slice_mid. Qed.

Lemma le_at_written n z (pre post : list byte) i :
  i = length pre → 0 ≤ z < 256 ^ Z.of_nat n → le_at n (pre ++ to_le n z ++ post) i = Ok z.
Proof.
  intros -> Hz. unfold le_at.
  rewrite (slice_at pre (to_le n z) post) by (by rewrite ?length_to_le). cbn.
  by rewrite of_le_to_le_small.
Qed.

Lemma le_at_start n z (post : list byte) :
  0 ≤ z < 256 ^ Z.of_nat n → le_at n (to_le n z ++ post) 0 = Ok z.
Proof. by apply (le_at_written n z []). Qed.

Lemma le_at_ok n (buf : list byte) i :
  bytes_ok buf → (i + n ≤ length buf)%nat →
  ∃ z, le_at n buf i = Ok z ∧ 0 ≤ z < 256 ^ Z.of_nat n.
Proof.
  intros Hb Hi. unfold le_at. rewrite slice_ok by done. cbn. eexists; split; [done|].
  pose proof (of_le_bound (take n (drop i buf))) as Hz.
  rewrite length_take, length_drop, Nat.min_l in Hz by lia.
  apply Hz. by apply Forall_take, Forall_drop.
Qed.

(** The lengths a Rust [Vec] can have. *)
Definition vec_len {A} (l : list A) : Prop := Z.of_nat (length l) < 2 ^ 63.

(** ** Signatures *)
Definition block_sig_ok (b : BlockSig) : Prop :=
  in_width 32 (bs_weak b) ∧ length (bs_strong b) = STRONG_LEN.

Definition sig_ok (sig : FileSignature) : Prop :=
  (0 < fs_block_size sig)%nat ∧ Z.of_nat (fs_block_size sig) < 2 ^ 32 ∧
  in_width 64 (fs_base_len sig) ∧ Z.of_nat (length (fs_blocks sig)) < 2 ^ 32 ∧
  Forall block_sig_ok (fs_blocks sig).

Definition encode_block (b : BlockSig) : list byte := to_le 4 (bs_weak b) ++ bs_strong b.

Lemma encode_blocks_cons b l :
  concat (encode_block <$> b :: l)
  = to_le 4 (bs_weak b) ++ bs_strong b ++ concat (encode_block <$> l).
Proof. rewrite fmap_cons. cbn [concat]. unfold encode_block at 1. by rewrite <- app_assoc. Qed.

Lemma length_encode_blocks l :
  Forall block_sig_ok l → length (concat (encode_block <$> l)) = (20 * length l)%nat.
Proof.
  induction 1 as [|b l [_ Hb] _ IH]; [done|]. rewrite encode_blocks_cons. cbn [length].
  rewrite !length_app, length_to_le, Hb, IH. unfold STRONG_LEN. lia.
Qed.

Lemma decode_blocks_written l pre post :
  Forall block_sig_ok l →
  decode_blocks (length l) (pre ++ concat (encode_block <$> l) ++ post) (length pre) = Ok l.
Proof.
  intros Hl. revert pre. induction Hl as [|b l [Hw Hs] Hl IH]; intros pre; [done|].
  cbn [length decode_blocks]. rewrite encode_blocks_cons, <- !app_assoc. rewrite le_at_written by done. step.
  rewrite (app_assoc pre). rewrite slice_at; [|by rewrite length_app, length_to_le|done].
  step. rewrite (app_assoc _ (bs_strong b)).
  specialize (IH ((pre ++ to_le 4 (bs_weak b)) ++ bs_strong b)).
  rewrite !length_app, length_to_le, Hs in IH. rewrite IH. cbn. by destruct b.
Qed.

Lemma decode_signatures_written sig :
  sig_ok sig → decode_signatures (encode_signatures sig) = Ok sig.
Proof.
  destruct sig as [bs len blocks]. intros (Hbs & Hbs32 & Hlen & Hn & Hblocks). cbn in *.
  unfold encode_signatures. cbn [fs_block_size fs_base_len fs_blocks].
  change (λ b, to_le 4 (bs_weak b) ++ bs_strong b) with encode_block.
  rewrite !wrap_small by (unfold in_width; lia). set (body := concat _).
  assert (length body = 20 * length blocks)%nat as Hbody by by apply length_encode_blocks.
  unfold decode_signatures. rewrite !length_app, !length_to_le, bool_decide_false by lia.
  step.
  rewrite le_at_start by lia. step.
  rewrite (le_at_written 8) by (rewrite ?length_to_le; done). step.
  rewrite (app_assoc (to_le 4 _)), (le_at_written 4)
    by (rewrite ?length_app, ?length_to_le; (done || lia)). step.
  rewrite (proj2 (Z.eqb_neq _ _)) by lia.
  unfold u64_max, STRONG_LEN. rewrite !bool_decide_false by lia. step.
  pose proof (decode_blocks_written blocks
    ((to_le 4 (Z.of_nat bs) ++ to_le 8 len) ++ to_le 4 (Z.of_nat (length blocks))) [] Hblocks) as Hd.
  rewrite !length_app, !length_to_le, app_nil_r, <- !app_assoc in Hd.
  rewrite !Nat2Z.id, <- !app_assoc. unfold body. rewrite Hd. done.
Qed.

Lemma decode_blocks_no_panic n buf o :
  bytes_ok buf → (o + n * 20 ≤ length buf)%nat →
  ∃ l, decode_blocks n buf o = Ok l ∧ Forall block_sig_ok l ∧ length l = n.
Proof.
  intros Hb. revert o. induction n as [|n IH]; intros o Ho; cbn [decode_blocks]; [by exists []|].
  destruct (le_at_ok 4 buf o Hb) as (w & -> & Hw); [lia|]. step.
  rewrite (slice_ok buf (o + 4)) by (unfold STRONG_LEN; lia). step.
  destruct (IH (o + 4 + STRONG_LEN)%nat) as (l & -> & Hl & Hlen); [unfold STRONG_LEN; lia|].
  step. eexists; split; [done|]. split; [|cbn; lia]. constructor; [|done].
  split; [done|]. cbn. rewrite length_take, length_drop. unfold STRONG_LEN. lia.
Qed.

(** On any bytes: an error, or a signature the encoder accepts. *)
Lemma decode_signatures_total buf :
  bytes_ok buf →
  (∃ e, decode_signatures buf = Err e) ∨ (∃ sig, decode_signatures buf = Ok sig ∧ sig_ok sig).
Proof.
  intros Hb. unfold decode_signatures. split_guard H1; [left; by eexists|]. bool_props.
  destruct (le_at_ok 4 buf 0 Hb) as (bs & -> & Hbs); [lia|]. step.
  destruct (le_at_ok 8 buf 4 Hb) as (len & -> & Hlen); [lia|]. step.
  destruct (le_at_ok 4 buf 12 Hb) as (n & -> & Hn); [lia|]. step.
  split_guard H2; [left; by eexists|]. split_guard H3; [left; by eexists|].
  split_guard H4; [left; by eexists|]. bool_props. unfold STRONG_LEN in H4.
  destruct (decode_blocks_no_panic (Z.to_nat n) buf (4 + 8 + 4) Hb) as (l & -> & Hok & Hlen'); [lia|].
  right. eexists. split; [done|]. unfold sig_ok; cbn. unfold in_width.
  split_and!; try lia. done.
Qed.

(** ** Deltas *)
Definition op_wire_ok (op : DeltaOp) : Prop :=
  match op with
  | Copy i n => in_width 32 i ∧ in_width 32 n ∧ n ≠ 0
  | Literal bytes => Z.of_nat (length bytes) < 2 ^ 32
  end.

Lemma wrap64_add i n : 0 ≤ i < 2 ^ 63 → 0 ≤ n < 2 ^ 32 → wrap64 (i + n) = i + n.
Proof. intros. apply wrap_small. unfold in_width. lia. Qed.

Lemma index_snoc (pre post : list byte) x :
  @index RollingError _ ((pre ++ [x]) ++ post) (length pre) = Ok x.
Proof. unfold index. rewrite <- app_assoc. cbn. by rewrite list_lookup_middle. Qed.

Lemma decode_op_written op pre post :
  op_wire_ok op → vec_len (pre ++ encode_op op ++ post) →
  decode_op (pre ++ encode_op op ++ post) (length pre)
  = Ok (op, length pre + length (encode_op op))%nat.
Proof.
  intros Hop Hlen. unfold decode_op, vec_len in *.
  destruct op as [i n|bytes]; cbn [encode_op] in *; cbn in Hop.
  - unfold in_width in Hop. destruct Hop as (Hi & Hn & Hn0).
    replace (pre ++ _) with ((pre ++ [0]) ++ to_le 4 i ++ to_le 4 n ++ post)
      by (cbn; by rewrite <- !app_assoc).
    rewrite index_snoc. step. cbn [Z.eqb Pos.eqb].
    rewrite bool_decide_false by (rewrite !length_app, !length_to_le; cbn; lia). step.
    rewrite (le_at_written 4 i _ _ (S (length pre))) by (rewrite ?length_app; cbn; lia). step.
    rewrite app_assoc, le_at_written
      by (rewrite ?length_app, ?length_to_le; cbn; lia). step.
    rewrite (proj2 (Z.eqb_neq n 0)) by done. step.
    do 2 f_equal. rewrite length_cons, length_app, !length_to_le. lia.
  - rewrite wrap_small in * by (unfold in_width; lia).
    assert (pre ++ (1 :: to_le 4 (Z.of_nat (length bytes)) ++ bytes) ++ post
            = (pre ++ [1]) ++ to_le 4 (Z.of_nat (length bytes)) ++ bytes ++ post) as E
      by (cbn; by rewrite <- !app_assoc).
    rewrite E in *. rewrite index_snoc. step. cbn [Z.eqb Pos.eqb].
    rewrite !length_app, length_to_le in Hlen.
    rewrite bool_decide_false by (rewrite !length_app, !length_to_le; cbn; lia). step.
    rewrite le_at_written by (rewrite ?length_app; cbn; lia). step.
    rewrite wrap64_add by (cbn in Hlen; lia).
    rewrite bool_decide_false by (rewrite !length_app, !length_to_le; cbn; lia). step.
    replace (Z.to_nat _) with (S (length pre) + 4 + length bytes)%nat by lia.
    rewrite (app_assoc (pre ++ [1])), slice_at
      by (rewrite ?length_app, ?length_to_le; cbn; lia). step.
    do 2 f_equal. rewrite length_cons, length_app, !length_to_le. lia.
Qed.

Lemma encode_delta_cons op ops : encode_delta (op :: ops) = encode_op op ++ encode_delta ops.
Proof. done. Qed.

Lemma encode_op_nonempty op : (0 < length (encode_op op))%nat.
Proof. destruct op; cbn; lia. Qed.

Lemma decode_loop_written ops pre fuel :
  Forall op_wire_ok ops → vec_len (pre ++ encode_delta ops) →
  (length (encode_delta ops) < fuel)%nat →
  decode_loop fuel (pre ++ encode_delta ops) (length pre) = Ok ops.
Proof.
  intros Hops. revert pre fuel.
  induction Hops as [|op ops Hop Hops IH]; intros pre fuel Hlen Hf; (destruct fuel as [|fuel]; [lia|]);
    cbn [decode_loop].
  { rewrite decide_False; [done|]. unfold encode_delta. cbn. rewrite app_nil_r. lia. }
  rewrite encode_delta_cons in *. pose proof (encode_op_nonempty op).
  rewrite length_app in Hf. rewrite decide_True by (rewrite !length_app; lia).
  rewrite decode_op_written by done. step.
  rewrite <- length_app. rewrite app_assoc in Hlen |- *. rewrite IH by (done || lia). done.
Qed.

Lemma decode_delta_written ops :
  Forall op_wire_ok ops → vec_len (encode_delta ops) → decode_delta (encode_delta ops) = Ok ops.
Proof. intros. apply (decode_loop_written ops []); [done..|cbn; lia]. Qed.

(** On any bytes, a turn fails or moves on within the buffer. *)
Lemma decode_op_total buf i :
  bytes_ok buf → vec_len buf → (i < length buf)%nat →
  (∃ e, decode_op buf i = Err e) ∨
  (∃ op j, decode_op buf i = Ok (op, j) ∧ op_wire_ok op ∧ (i < j ≤ length buf)%nat).
Proof.
  intros Hb Hv Hi. unfold vec_len in Hv. unfold decode_op.
  destruct (lookup_lt_is_Some_2 buf i Hi) as [tag Ht]. unfold index. rewrite Ht. step.
  destruct (tag =? 0).
  { split_guard H1; [left; by eexists|]. bool_props.
    destruct (le_at_ok 4 buf (S i) Hb) as (idx & -> & Hidx); [lia|]. step.
    destruct (le_at_ok 4 buf (S i + 4) Hb) as (n & -> & Hn); [lia|]. step.
    split_guard H2; [left; by eexists|]. bool_props.
    right. eexists _, _. split; [done|]. split; [by split_and!|lia]. }
  destruct (tag =? 1); [|left; by eexists].
  split_guard H1; [left; by eexists|]. bool_props.
  destruct (le_at_ok 4 buf (S i) Hb) as (n & -> & Hn); [lia|]. step.
  split_guard H2; [left; by eexists|]. bool_props.
  rewrite wrap64_add in * by lia.
  replace (Z.to_nat _) with (S i + 4 + Z.to_nat n)%nat by lia.
  rewrite slice_ok by lia. step.
  right. eexists _, _. split; [done|]. cbn. rewrite length_take, length_drop. lia.
Qed.

Lemma decode_loop_total buf fuel i :
  bytes_ok buf → vec_len buf → (length buf - i < fuel)%nat →
  (∃ e, decode_loop fuel buf i = Err e) ∨
  (∃ ops, decode_loop fuel buf i = Ok ops ∧ Forall op_wire_ok ops).
Proof.
  intros Hb Hv. revert i. induction fuel as [|fuel IH]; intros i Hf; [lia|]. cbn [decode_loop].
  case_decide as Hi; [|by right; exists []].
  destruct (decode_op_total buf i Hb Hv Hi) as [[e ->]|(op & j & -> & Hop & Hj)]; [by left; exists e|].
  step. destruct (IH j) as [[e ->]|(ops & -> & Hops)]; [lia|by left; exists e|].
  right. exists (op :: ops). by split; [|constructor].
Qed.

Lemma decode_delta_total buf :
  bytes_ok buf → vec_len buf →
  (∃ e, decode_delta buf = Err e) ∨
  (∃ ops, decode_delta buf = Ok ops ∧ Forall op_wire_ok ops).
Proof. intros. apply decode_loop_total; [done..|lia]. Qed.

(** ** Bundles *)
Definition file_delta_ok (it : FileDelta) : Prop :=
  utf8_valid (fd_path it) = true ∧ Z.of_nat (length (fd_path it)) < 2 ^ 32 ∧
  Forall op_wire_ok (fd_ops it).

Lemma unpack_one_written it pre post :
  file_delta_ok it → vec_len (pre ++ pack_file_delta it ++ post) →
  unpack_one (pre ++ pack_file_delta it ++ post) (length pre)
  = Ok (it, length pre + length (pack_file_delta it))%nat.
Proof.
  destruct it as [path ops]. intros (Hutf & Hpath & Hops) Hlen. cbn in *.
  unfold unpack_one, pack_file_delta, vec_len in *. cbn [fd_path fd_ops] in *.
  rewrite wrap_small in * by (unfold in_width; lia).
  set (body := encode_delta ops) in *. set (P := Z.of_nat (length path)) in *.
  replace (pre ++ _) with (pre ++ to_le 4 P ++ path ++ to_le 8 (Z.of_nat (length body)) ++ body ++ post)
    in * by (by rewrite <- !app_assoc).
  rewrite !length_app, !length_to_le in Hlen.
  rewrite bool_decide_false by (rewrite !length_app, !length_to_le; lia). step.
  rewrite (le_at_written 4 P pre _ (length pre)) by (cbn; lia). step.
  rewrite wrap64_add by lia.
  rewrite bool_decide_false by (rewrite !length_app, !length_to_le; lia). step.
  replace (Z.to_nat (Z.of_nat (length pre + 4) + P)) with (length pre + 4 + length path)%nat by lia.
  rewrite (app_assoc pre), (slice_at (pre ++ to_le 4 P) path)
    by (rewrite ?length_app, ?length_to_le; lia). step.
  rewrite Hutf. cbn [negb]. step. rewrite bool_decide_false by (rewrite !length_app, !length_to_le; lia). step.
  rewrite (app_assoc (pre ++ _)), (le_at_written 8 _ _ _ (length pre + 4 + length path))
    by (rewrite ?length_app, ?length_to_le; cbn; lia). step.
  rewrite wrap_small by (unfold in_width; lia).
  rewrite bool_decide_false by (rewrite !length_app, !length_to_le; lia). step.
  replace (Z.to_nat (Z.of_nat (length pre + 4 + length path + 8) + Z.of_nat (length body)))
    with (length pre + 4 + length path + 8 + length body)%nat by lia.
  rewrite (app_assoc ((pre ++ _) ++ _)), slice_at
    by (rewrite ?length_app, ?length_to_le; lia). step.
  assert (decode_delta body = Ok ops) as ->
    by (apply decode_delta_written; [done|unfold vec_len; fold body; lia]). step.
  do 2 f_equal. rewrite !length_app, !length_to_le. lia.
Qed.

Lemma unpack_loop_written items pre fuel :
  Forall file_delta_ok items → vec_len (pre ++ pack_file_deltas items) →
  (length (pack_file_deltas items) < fuel)%nat →
  unpack_loop fuel (pre ++ pack_file_deltas items) (length pre) = Ok items.
Proof.
  intros Hops. revert pre fuel.
  induction Hops as [|it items Hit Hits IH]; intros pre fuel Hlen Hf;
    (destruct fuel as [|fuel]; [lia|]); cbn [unpack_loop].
  { rewrite decide_False; [done|]. unfold pack_file_deltas. cbn. rewrite app_nil_r. lia. }
  change (pack_file_deltas (it :: items)) with (pack_file_delta it ++ pack_file_deltas items) in *.
  assert (4 ≤ length (pack_file_delta it))%nat.
  { unfold pack_file_delta. rewrite !length_app, !length_to_le. lia. }
  rewrite length_app in Hf. rewrite decide_True by (rewrite !length_app; lia).
  rewrite unpack_one_written by done. step.
  rewrite <- length_app. rewrite app_assoc in Hlen |- *. rewrite IH by (done || lia). done.
Qed.

(** A literal of 2^32 zero bytes: its length field is 0. *)
Lemma long_literal n :
  Z.of_nat n = 2 ^ 32 → decode_delta (encode_delta [Literal (replicate n 0)]) = Err EZeroCopy.
Proof.
  intros Hn. assert (∃ m, n = 9 + m)%nat as [m ->] by (exists (n - 9)%nat; lia).
  unfold encode_delta. cbn [fmap list_fmap encode_op concat].
  rewrite length_replicate, Hn. change (wrap32 (2 ^ 32)) with 0. change (to_le 4 0) with [0;0;0;0].
  rewrite app_nil_r. cbn [Nat.add replicate app].
  unfold decode_delta. cbn [length]. set (k := length (replicate m 0)).
  change (decode_loop (S ?a) ?b ?c) with
    (if decide (c < length b)%nat then '(op, i) ← decode_op b c; ops ← decode_loop a b i; Ok (op :: ops) else Ok []).
  set (buf := 1 :: _). assert (length buf = 14 + k)%nat as Hbuf by done.
  assert (decode_op buf 0 = Ok (Literal [], 5%nat)) as E0.
  { unfold decode_op. change (index buf 0) with (@Ok RollingError _ 1). step. cbn [Z.eqb Pos.eqb].
    rewrite bool_decide_false by lia. step. unfold le_at. rewrite (slice_ok buf 1 4) by lia. step.
    change (of_le _) with 0. change (wrap64 (Z.of_nat (1 + 4) + 0)) with 5.
    rewrite bool_decide_false by lia. step. change (Z.to_nat 5) with (5 + 0)%nat.
    rewrite slice_ok by lia. done. }
  assert (decode_op buf 5 = Err EZeroCopy) as E5.
  { unfold decode_op. change (index buf 5) with (@Ok RollingError _ 0). step. cbn [Z.eqb Pos.eqb].
    rewrite bool_decide_false by lia. step. unfold le_at.
    rewrite (slice_ok buf 6 4), (slice_ok buf (6 + 4) 4) by lia. done. }
  rewrite decide_True by lia. rewrite E0. step. cbn [decode_loop].
  rewrite decide_True by lia. by rewrite E5.
Qed.

(** ** Properties *)

(** A bundle of per-file deltas survives the wire: unpacking what
    [pack_file_deltas] wrote gives the files back, paths and operations, in
    order, when every path is UTF-8 below 2^32 bytes, every copy is non-empty,
    and every literal is below 2^32 bytes. *)
Theorem bundle_roundtrip items :
  Forall file_delta_ok items → vec_len (pack_file_deltas items) →
  unpack_file_deltas (pack_file_deltas items) = Ok items.
Proof. intros. apply (unpack_loop_written items []); [done..|cbn; lia]. Qed.

Lemma bundle_roundtrip_witness :
  unpack_file_deltas (pack_file_deltas
    [mk_file_delta [118; 195; 169] [Copy 3 2; Literal [7; 255]]; mk_file_delta [97] []])
  = Ok [mk_file_delta [118; 195; 169] [Copy 3 2; Literal [7; 255]]; mk_file_delta [97] []].
Proof.
  apply bundle_roundtrip; [|vm_compute; reflexivity].
  repeat constructor; cbn; try lia; vm_compute; done.
Defined.

(** A file signature survives the wire. *)
Theorem signatures_roundtrip sig :
  sig_ok sig → decode_signatures (encode_signatures sig) = Ok sig.
Proof. apply decode_signatures_written. Qed.

Lemma signatures_roundtrip_witness :
  decode_signatures (encode_signatures (mk_file_sig 4 6
    [mk_block_sig 77 (replicate 16 1); mk_block_sig 4000000000 (replicate 16 2)]))
  = Ok (mk_file_sig 4 6 [mk_block_sig 77 (replicate 16 1); mk_block_sig 4000000000 (replicate 16 2)]).
Proof.
  apply signatures_roundtrip. unfold sig_ok, in_width; cbn.
  split_and!; try lia. repeat constructor; vm_compute; (done || lia).
Defined.

(** The decoders of signatures and of deltas are total on hostile bytes:
    any buffer a [Vec] can hold gives an error or a value that satisfies the
    encoder's precondition (no zero block size, no empty copy, no index out of
    its width); neither panics nor fails to return. *)
Theorem decoders_total buf :
  bytes_ok buf → vec_len buf →
  ((∃ e, decode_signatures buf = Err e) ∨ (∃ sig, decode_signatures buf = Ok sig ∧ sig_ok sig)) ∧
  ((∃ e, decode_delta buf = Err e) ∨ (∃ ops, decode_delta buf = Ok ops ∧ Forall op_wire_ok ops)).
Proof. intros. split; [by apply decode_signatures_total|by apply decode_delta_total]. Qed.

Lemma decoders_total_witness :
  let buf := [1; 2; 0; 0; 0; 9; 8; 0; 1] in
  ((∃ e, decode_signatures buf = Err e) ∨ (∃ sig, decode_signatures buf = Ok sig ∧ sig_ok sig)) ∧
  ((∃ e, decode_delta buf = Err e) ∨ (∃ ops, decode_delta buf = Ok ops ∧ Forall op_wire_ok ops)).
Proof. apply decoders_total; [repeat constructor|]; vm_compute; done. Defined.

(** Two inputs the formats do not survive. A twelve-byte bundle whose ops
    length is 2^64-1 makes the 64-bit end position wrap below its start:
    [unpack_file_deltas] panics instead of returning an error. And a literal
    of 2^32 bytes is written with its length truncated to zero: the receiver
    reads an empty literal and takes the bytes for operations. *)
Theorem wire_format_limits :
  unpack_file_deltas ([0; 0; 0; 0] ++ replicate 8 255) = Panic ∧
  decode_delta (encode_delta [Literal (replicate (Z.to_nat (2 ^ 32)) 0)]) = Err EZeroCopy.
Proof. split; [vm_compute; reflexivity|]. apply long_literal. apply Z2Nat.id. lia. Qed.
