(* ===== verification/OAuth.v ===== *)
(** * The MCP OAuth authorization server (src/src/mcp/oauth.rs)

    Clients, grants, codes and tokens.  [Inner] is the state behind the
    store's mutex; every operation of [OAuthStore] is one definition that
    takes the state and returns the new one with its result.  The code's
    [now()], the random tokens it draws, whether the state file could be
    written, and the iteration order of its hash maps are arguments.  SHA-256,
    base64 and the URL parser are parameters of the sections that use them. *)
From Stdlib Require Strings.String.
From S2P Require Import Prelude.

(** Text whose characters matter: a list of Unicode scalar values. *)
Definition ustring := list Z.

(** ** Constants *)
Definition ALL_SCOPES : list string := ["read"; "logs"; "containers"; "vms"; "backup"].
Definition READ_ONLY_SCOPES : list string := ["read"; "logs"].
Definition CODE_TTL_SECS : Z := 60.
Definition ACCESS_TTL_SECS : Z := 15 * 60.
Definition REFRESH_TTL_SECS : Z := 30 * 24 * 3600.
Definition GRANT_MAX_LIFETIME_SECS : Z := 90 * 24 * 3600.
Definition PENDING_TTL_SECS : Z := 10 * 60.
Definition UNUSED_CLIENT_TTL_SECS : Z := 24 * 3600.
Definition REFRESH_RETRY_GRACE_SECS : Z := 10.
Definition USED_CODE_MEMORY_SECS : Z := 10 * 60.
Definition MAX_CLIENTS : nat := 200.
Definition MAX_GRANTS : nat := 1000.
Definition MAX_PENDING : nat := 500.
Definition MAX_PENDING_PER_CLIENT : nat := 10.
Definition MAX_PENDING_PER_SOURCE : nat := 20.
Definition MAX_CODES : nat := 500.
Definition MAX_ACCESS_TOKENS : nat := 5000.
Definition MAX_REDIRECT_URIS : nat := 5.
Definition MAX_REDIRECT_URI_LEN : nat := 512.
Definition MAX_CLIENT_NAME_LEN : nat := 80.
Definition MAX_STATE_LEN : nat := 512.
Definition RETIRED_REFRESH_KEEP : nat := 20.

(** ** Characters *)
Definition between (lo hi c : Z) : bool := (lo <=? c) && (c <=? hi).

(** [char::is_control]: the general category Cc. *)
Definition is_control (c : Z) : bool := between 0 0x1f c || between 0x7f 0x9f c.

(** [char::is_whitespace]: the property White_Space. *)
Definition is_whitespace (c : Z) : bool :=
  between 9 13 c || (c =? 0x20) || (c =? 0x85) || (c =? 0xa0) || (c =? 0x1680)
  || between 0x2000 0x200a c || between 0x2028 0x2029 c || (c =? 0x202f)
  || (c =? 0x205f) || (c =? 0x3000).

(** [str::len]: bytes of the UTF-8 encoding. *)
Definition utf8_width (c : Z) : nat :=
  if c <? 0x80 then 1%nat else if c <? 0x800 then 2%nat else if c <? 0x10000 then 3%nat else 4%nat.
Definition utf8_len (s : ustring) : nat := sum_list (utf8_width <$> s).

Definition is_spoofing_char (c : Z) : bool :=
  (c =? 0x061c) || between 0x200b 0x200f c || between 0x202a 0x202e c
  || between 0x2060 0x2069 c || (c =? 0xfeff).

(** [str::split_whitespace]: the maximal runs without white space. *)
Fixpoint split_whitespace_from (word : ustring) (s : ustring) : list ustring :=
  match s with
  | [] => match word with [] => [] | _ => [word] end
  | c :: s =>
      if is_whitespace c
      then match word with [] => split_whitespace_from [] s
           | _ => word :: split_whitespace_from [] s end
      else split_whitespace_from (word ++ [c]) s
  end.
Definition split_whitespace (s : ustring) : list ustring := split_whitespace_from [] s.

Fixpoint join_with (sep : ustring) (l : list ustring) : ustring :=
  match l with
  | [] => []
  | [w] => w
  | w :: l => w ++ sep ++ join_with sep l
  end.

(** "Unnamed client" *)
Definition unnamed_client : ustring :=
  [85;110;110;97;109;101;100;32;99;108;105;101;110;116].

Definition sanitize_client_name (raw : option ustring) : ustring :=
  let cleaned :=
    join_with [32] (split_whitespace
      ((λ c, if is_control c then 32 else c)
         <$> retain (λ c, negb (is_spoofing_char c)) (default [] raw))) in
  let truncated := take MAX_CLIENT_NAME_LEN cleaned in
  match truncated with [] => unnamed_client | _ => truncated end.

(** ** Redirect URIs *)

(** What [url::Url::parse] yields, as far as it is looked at. *)
Record Url := mk_url {
  url_fragment : option string;
  url_username : string;
  url_password : option string;
  url_host_str : option string;
  url_scheme : string
}.

Definition is_loopback_host (host : string) : bool :=
  bool_decide (host ∈ ["localhost"; "127.0.0.1"; "[::1]"; "::1"]).

Section Url.
(** [url::Url::parse] of crate [url]. *)
Variable url_parse : ustring → option Url.

Definition validate_redirect_uri (raw : ustring) : res string () :=
  guard_err (bool_decide (raw = []) || bool_decide (MAX_REDIRECT_URI_LEN < utf8_len raw)%nat)
    "redirect_uri must be 1-512 characters";;
  guard_err (existsb (λ c, is_control c || is_whitespace c) raw)
    "redirect_uri must not contain whitespace or control characters";;
  url ← ok_or (url_parse raw) "redirect_uri is not a valid URL";
  guard_err (bool_decide (is_Some (url_fragment url)))
    "redirect_uri must not contain a fragment";;
  guard_err (bool_decide (url_username url ≠ "") || bool_decide (is_Some (url_password url)))
    "redirect_uri must not contain credentials";;
  let host := default "" (url_host_str url) in
  guard_err (bool_decide (host = "")) "redirect_uri must have a host";;
  if bool_decide (url_scheme url = "https") then Ok ()
  else if bool_decide (url_scheme url = "http") then
    if is_loopback_host host then Ok ()
    else Err "http redirect URIs are only allowed for localhost / 127.0.0.1 / [::1]"
  else Err ("redirect URI scheme '" +:+ url_scheme url +:+ "' is not allowed (https or loopback http only)").

(** [for u in redirect_uris { validate_redirect_uri(u)?; }] *)
Fixpoint validate_redirect_uris (uris : list ustring) : res string () :=
  match uris with
  | [] => Ok ()
  | u :: uris => validate_redirect_uri u;; validate_redirect_uris uris
  end.
End Url.

(** ** Scopes *)

(** [raw.split(' ').filter(|s| !s.is_empty())] *)
Fixpoint split_spaces_from (word s : string) : list string :=
  match s with
  | EmptyString => if bool_decide (word = "") then [] else [word]
  | String c s =>
      if bool_decide (c = " "%char)
      then (if bool_decide (word = "") then [] else [word]) ++ split_spaces_from "" s
      else split_spaces_from (word +:+ String c "") s
  end.

Definition normalize_scopes (scopes : list string) : list string :=
  retain (λ s, bool_decide (s ∈ scopes)) ALL_SCOPES.
Arguments normalize_scopes : simpl never.

Fixpoint collect_scopes (words out : list string) : res string (list string) :=
  match words with
  | [] => Ok out
  | s :: words =>
      guard_err (bool_decide (s ∉ ALL_SCOPES)) ("unknown scope '" +:+ s +:+ "'");;
      collect_scopes words (if bool_decide (s ∈ out) then out else out ++ [s])
  end.

Definition parse_scopes (raw : option string) : res string (list string) :=
  out ← collect_scopes (split_spaces_from "" (default "" raw)) [];
  Ok (normalize_scopes (if bool_decide (out = []) then ["read"] else out)).

(** [scopes.join(" ")] *)
Fixpoint scopes_string (scopes : list string) : string :=
  match scopes with
  | [] => ""
  | [s] => s
  | s :: scopes => s +:+ " " +:+ scopes_string scopes
  end.

(** ** PKCE *)
Definition unreserved (c : ascii) : bool :=
  let n := Z.of_nat (nat_of_ascii c) in
  between 48 57 n || between 65 90 n || between 97 122 n
  || (n =? 45) || (n =? 46) || (n =? 95) || (n =? 126).

Definition valid_code_verifier (v : string) : bool :=
  bool_decide (43 ≤ String.length v ≤ 128)%nat && forallb unreserved (Stdlib.Strings.String.list_ascii_of_string v).

Definition base64url (c : ascii) : bool :=
  let n := Z.of_nat (nat_of_ascii c) in
  between 48 57 n || between 65 90 n || between 97 122 n || (n =? 45) || (n =? 95).

Definition valid_code_challenge (c : string) : bool :=
  bool_decide (String.length c = 43)%nat && forallb base64url (Stdlib.Strings.String.list_ascii_of_string c).

(** ** Data *)
Inductive AuthSource := WolfStack | Linux.
#[global] Instance AuthSource_eq_dec : EqDecision AuthSource.
Proof. solve_decision. Defined.

Record Client := mk_client {
  cl_client_id : string;
  cl_client_name : ustring;
  cl_redirect_uris : list ustring;
  cl_created_at : Z;
  cl_approved_at : option Z;
  cl_registered_from : ustring
}.

Record Grant := mk_grant {
  g_id : string;
  g_client_id : string;
  g_client_name : ustring;
  g_username : string;
  g_source : AuthSource;
  g_scopes : list string;
  g_resource : string;
  g_created_at : Z;
  g_last_used_at : Z;
  g_refresh_hash : string;
  g_refresh_expires_at : Z;
  g_retired_refresh_hashes : list string;
  g_last_rotated_at : Z;
  g_credential_fp : string
}.

Record PendingAuth := mk_pending {
  p_client_id : string;
  p_client_name : ustring;
  p_redirect_uri : ustring;
  p_state : option ustring;
  p_code_challenge : string;
  p_scopes : list string;
  p_resource : string;
  p_created_at : Z;
  p_from : ustring
}.

Record AuthCode := mk_code {
  ac_client_id : string;
  ac_redirect_uri : ustring;
  ac_code_challenge : string;
  ac_scopes : list string;
  ac_resource : string;
  ac_username : string;
  ac_source : AuthSource;
  ac_expires_at : Z
}.

Record AccessInfo := mk_access {
  a_credential_fp : string;
  a_grant_id : string;
  a_client_id : string;
  a_username : string;
  a_source : AuthSource;
  a_scopes : list string;
  a_resource : string;
  a_expires_at : Z
}.

Record TokenSet := mk_tokens {
  t_access_token : string;
  t_token_type : string;
  t_expires_in : Z;
  t_refresh_token : string;
  t_scope : string
}.

Inductive TokenError :=
| InvalidRequest (d : string) | InvalidClient (d : string) | InvalidGrant (d : string)
| InvalidScope (d : string) | InvalidTarget (d : string) | ServerError (d : string).

(** [TokenError::code]: the RFC 6749 error code. *)
Definition code (e : TokenError) : string :=
  match e with
  | InvalidRequest _ => "invalid_request"
  | InvalidClient _ => "invalid_client"
  | InvalidGrant _ => "invalid_grant"
  | InvalidScope _ => "invalid_scope"
  | InvalidTarget _ => "invalid_target"
  | ServerError _ => "server_error"
  end.

Definition description (e : TokenError) : string :=
  match e with
  | InvalidRequest d | InvalidClient d | InvalidGrant d
  | InvalidScope d | InvalidTarget d | ServerError d => d
  end.

Record UserAuthority := mk_authority {
  ua_allowed_scopes : list string;
  ua_credential_fp : string
}.

Record GrantView := mk_view {
  v_id : string; v_client_id : string; v_client_name : ustring; v_username : string;
  v_scopes : list string; v_created_at : Z; v_last_used_at : Z; v_expires_at : Z
}.

Record Persisted := mk_persisted { ps_clients : list Client; ps_grants : list Grant }.

Record Inner := mk_inner {
  clients : gmap string Client;
  grants : gmap string Grant;
  refresh_index : gmap string string;
  retired_index : gmap string string;
  codes : gmap string AuthCode;
  used_codes : gmap string (string * Z);
  access : gmap string AccessInfo;
  pending : gmap string PendingAuth
}.

Definition inner_default : Inner := mk_inner ∅ ∅ ∅ ∅ ∅ ∅ ∅ ∅.

(** Updates of one field. *)
Definition set_clients f s := mk_inner (f (clients s)) (grants s) (refresh_index s)
  (retired_index s) (codes s) (used_codes s) (access s) (pending s).
Definition set_grants f s := mk_inner (clients s) (f (grants s)) (refresh_index s)
  (retired_index s) (codes s) (used_codes s) (access s) (pending s).
Definition set_refresh_index f s := mk_inner (clients s) (grants s) (f (refresh_index s))
  (retired_index s) (codes s) (used_codes s) (access s) (pending s).
Definition set_retired_index f s := mk_inner (clients s) (grants s) (refresh_index s)
  (f (retired_index s)) (codes s) (used_codes s) (access s) (pending s).
Definition set_codes f s := mk_inner (clients s) (grants s) (refresh_index s)
  (retired_index s) (f (codes s)) (used_codes s) (access s) (pending s).
Definition set_used_codes f s := mk_inner (clients s) (grants s) (refresh_index s)
  (retired_index s) (codes s) (f (used_codes s)) (access s) (pending s).
Definition set_access f s := mk_inner (clients s) (grants s) (refresh_index s)
  (retired_index s) (codes s) (used_codes s) (f (access s)) (pending s).
Definition set_pending f s := mk_inner (clients s) (grants s) (refresh_index s)
  (retired_index s) (codes s) (used_codes s) (access s) (f (pending s)).

(** ** Operations on the locked state *)
Section Inner.
Context `{!HashOrder Grant} `{!HashOrder Client}.

(** [self.grants.values()], [self.clients.values()]. *)
Definition grant_values (s : Inner) : list Grant := (hm_iter (grants s)).*2.
Definition client_values (s : Inner) : list Client := (hm_iter (clients s)).*2.

Definition index_grant (g : Grant) (s : Inner) : Inner :=
  foldl (λ s r, set_retired_index <[r := g_id g]> s)
    (set_refresh_index <[g_refresh_hash g := g_id g]> s) (g_retired_refresh_hashes g).

Definition rebuild_indexes (s : Inner) : Inner :=
  foldl (λ s g, index_grant g s)
    (set_retired_index (λ _, ∅) (set_refresh_index (λ _, ∅) s)) (grant_values s).

Definition remove_grant (grant_id : string) (s : Inner) : option Grant * Inner :=
  match grants s !! grant_id with
  | None => (None, s)
  | Some g =>
      let s := set_grants (delete grant_id) s in
      let s := set_refresh_index (delete (g_refresh_hash g)) s in
      let s := foldl (λ s r, set_retired_index (delete r) s) s (g_retired_refresh_hashes g) in
      let s := set_access (map_retain (λ _ a, bool_decide (a_grant_id a ≠ grant_id))) s in
      (Some g, s)
  end.

(** [for id in ids { self.remove_grant(&id); }] *)
Definition remove_grants (ids : list string) (s : Inner) : Inner :=
  foldl (λ s id, (remove_grant id s).2) s ids.

Definition in_use (s : Inner) (client_id : string) : bool :=
  bool_decide (client_id ∈ g_client_id <$> grant_values s).

Definition prune (t : Z) (s : Inner) : Inner :=
  let s := set_codes (map_retain (λ _ c, t <? ac_expires_at c)) s in
  let s := set_used_codes (map_retain (λ _ u, t <? u.2)) s in
  let s := set_access (map_retain (λ _ a, t <? a_expires_at a)) s in
  let s := set_pending (map_retain (λ _ p, t <? p_created_at p + PENDING_TTL_SECS)) s in
  let expired := g_id <$> retain (λ g, g_refresh_expires_at g <=? t) (grant_values s) in
  let s := remove_grants expired s in
  let stale := cl_client_id <$>
    retain (λ c, bool_decide (cl_approved_at c = None)
                 && (cl_created_at c + UNUSED_CLIENT_TTL_SECS <=? t)
                 && negb (in_use s (cl_client_id c))) (client_values s) in
  foldl (λ s id, set_clients (delete id) s) s stale.

(** Ascending by creation time, then by id: [sort_by] is a stable sort. *)
Definition by_age {A} (created : A → Z) (id : A → string) (a b : A) : Prop :=
  created a < created b ∨ created a = created b ∧ String.le (id a) (id b).
#[global] Instance by_age_dec {A} created id (a b : A) : Decision (by_age created id a b).
Proof. unfold by_age, String.le. apply _. Defined.

Definition snapshot (s : Inner) : Persisted :=
  mk_persisted (merge_sort (by_age cl_created_at cl_client_id) (client_values s))
               (merge_sort (by_age g_created_at g_id) (grant_values s)).

(** [OAuthStore::load], on the file's content. *)
Definition load (p : Persisted) : Inner :=
  let s := foldl (λ s c, set_clients <[cl_client_id c := c]> s) inner_default (ps_clients p) in
  let s := foldl (λ s g, set_grants <[g_id g := g]> s) s (ps_grants p) in
  rebuild_indexes s.

(** Drop the oldest never-approved client without grants, if any. *)
Definition evict_unapproved_client (s : Inner) : bool * Inner :=
  let victim := min_by_key cl_created_at
    (retain (λ c, bool_decide (cl_approved_at c = None) && negb (in_use s (cl_client_id c)))
       (client_values s)) in
  match victim with
  | Some c => (true, set_clients (delete (cl_client_id c)) s)
  | None => (false, s)
  end.

(** The token itself is drawn by the caller; its hash is stored. *)
Definition issue_access (token_hash : string) (g : Grant) (scopes : list string) (t : Z)
    (s : Inner) : Inner :=
  set_access <[token_hash :=
    mk_access (g_credential_fp g) (g_id g) (g_client_id g) (g_username g) (g_source g)
      scopes (g_resource g) (t + ACCESS_TTL_SECS)]> s.

(** Apply [f] to a copy, write the copy, and only then make it live. *)
Definition commit {R E} (from_string : string → E) (disk_ok : bool)
    (f : Inner → res E (R * Inner)) (s : Inner) : Inner * res E R :=
  match f s with
  | Ok (r, draft) => if disk_ok then (draft, Ok r) else (s, Err (from_string "write failed"))
  | Err e => (s, Err e)
  | Panic => (s, Panic)
  end.

(** ** Clients and pending authorizations *)
Definition register_client (url_parse : ustring → option Url) (t : Z) (disk_ok : bool)
    (client_id : string) (client_name : option ustring) (redirect_uris : list ustring)
    (from : ustring) (s : Inner) : Inner * res string Client :=
  match (guard_err (bool_decide (redirect_uris = [])) "redirect_uris is required";;
         guard_err (bool_decide (MAX_REDIRECT_URIS < length redirect_uris)%nat) "at most 5 redirect_uris";;
         validate_redirect_uris url_parse redirect_uris) with
  | Err e => (s, Err e)
  | Panic => (s, Panic)
  | Ok _ =>
      let s := prune t s in
      let client := mk_client client_id (sanitize_client_name client_name) redirect_uris t
                      None (take 64 from) in
      commit (λ e, e) disk_ok (λ d,
        let '(room, d) :=
          if bool_decide (MAX_CLIENTS ≤ size (clients d))%nat
          then evict_unapproved_client d else (true, d) in
        if room then Ok (client, set_clients <[client_id := client]> d)
        else Err "too many registered clients — remove unused ones in Settings → AI Agents (MCP)") s
  end.

Definition get_client (client_id : string) (s : Inner) : option Client := clients s !! client_id.

Definition list_clients (t : Z) (s : Inner) : Inner * list Client :=
  let s := prune t s in (s, ps_clients (snapshot s)).

Definition delete_client (disk_ok : bool) (client_id : string) (s : Inner) :
    Inner * res string bool :=
  commit (λ e, e) disk_ok (λ d,
    let existed := bool_decide (is_Some (clients d !! client_id)) in
    let d := set_clients (delete client_id) d in
    let grant_ids := g_id <$> retain (λ g, bool_decide (g_client_id g = client_id)) (grant_values d) in
    Ok (existed || negb (bool_decide (grant_ids = [])), remove_grants grant_ids d)) s.

Definition begin_pending (t : Z) (id : string) (p : PendingAuth) (s : Inner) :
    Inner * res string string :=
  if match p_state p with Some st => bool_decide (MAX_STATE_LEN < utf8_len st)%nat | None => false end
  then (s, Err "state is too long") else
  let s := prune t s in
  let count f := size (map_retain (λ _ x, f x) (pending s)) in
  if bool_decide (MAX_PENDING ≤ size (pending s))%nat
  then (s, Err "too many authorizations in progress — try again shortly")
  else if bool_decide (MAX_PENDING_PER_CLIENT ≤ count (λ x, bool_decide (p_client_id x = p_client_id p)))%nat
  then (s, Err "too many authorizations in progress for this app — try again shortly")
  else if bool_decide (MAX_PENDING_PER_SOURCE ≤ count (λ x, bool_decide (p_from x = p_from p)))%nat
  then (s, Err "too many authorizations in progress from your address — try again shortly")
  else (set_pending <[id := p]> s, Ok id).

Definition peek_pending (t : Z) (id : string) (s : Inner) : Inner * option PendingAuth :=
  let s := prune t s in (s, pending s !! id).

Definition take_pending (t : Z) (id : string) (s : Inner) : Inner * option PendingAuth :=
  let s := prune t s in (set_pending (delete id) s, pending s !! id).
End Inner.

(** ** Codes and tokens *)
Section Tokens.
Context `{!HashOrder Grant} `{!HashOrder Client}.

(** [hex::encode(Sha256::digest(..))] and
    [URL_SAFE_NO_PAD.encode(Sha256::digest(..))] of crates [sha2], [hex] and
    [base64]. *)
Variable sha256_hex : string → string.
Variable sha256_b64url : string → string.

Definition NUL : string := String (ascii_of_nat 0) "".
Definition secret_hash (kind secret : string) : string :=
  sha256_hex ("wolfstack-mcp-oauth" +:+ NUL +:+ kind +:+ NUL +:+ secret).

Definition pkce_s256_matches (verifier challenge : string) : bool :=
  if negb (valid_code_verifier verifier) then false
  else bool_decide (sha256_b64url verifier = challenge).

Definition issue_code (t : Z) (disk_ok : bool) (code : string) (p : PendingAuth)
    (username : string) (source : AuthSource) (granted : list string) (s : Inner) :
    Inner * res string string :=
  let s := prune t s in
  if bool_decide (MAX_CODES ≤ size (codes s))%nat
  then (s, Err "too many authorizations in progress — try again shortly") else
  let ac := mk_code (p_client_id p) (p_redirect_uri p) (p_code_challenge p)
              (normalize_scopes granted) (p_resource p) username source (t + CODE_TTL_SECS) in
  commit (λ e, e) disk_ok (λ d,
    let d := set_clients (alter (λ c,
      mk_client (cl_client_id c) (cl_client_name c) (cl_redirect_uris c) (cl_created_at c)
        (Some (default t (cl_approved_at c))) (cl_registered_from c)) (p_client_id p)) d in
    Ok (code, set_codes <[secret_hash "code" code := ac]> d)) s.

(** *** [exchange_code]

    Phase 1, under the lock: the code is consumed and checked. *)
Definition exchange_phase1 (t : Z) (disk_ok : bool) (code client_id : string)
    (redirect_uri : ustring) (code_verifier : string) (resource : option string) (s : Inner) :
    Inner * res TokenError AuthCode :=
  let code_hash := secret_hash "code" code in
  let s := prune t s in
  match codes s !! code_hash with
  | None =>
      let s := match used_codes s !! code_hash with
               | Some (grant_id, _) =>
                   (commit (λ e, e) disk_ok (λ d, Ok (remove_grant grant_id d)) s).1
               | None => s
               end in
      (s, Err (InvalidGrant "authorization code is invalid, expired or already used"))
  | Some ac =>
      let s := set_codes (delete code_hash) s in
      (s, guard_err (bool_decide (ac_client_id ac ≠ client_id))
            (InvalidGrant "code was issued to a different client");;
          guard_err (bool_decide (ac_redirect_uri ac ≠ redirect_uri))
            (InvalidGrant "redirect_uri does not match the authorization request");;
          guard_err (negb (pkce_s256_matches code_verifier (ac_code_challenge ac)))
            (InvalidGrant "PKCE verification failed");;
          guard_err (if resource is Some r then bool_decide (r ≠ ac_resource ac) else false)
            (InvalidTarget "resource does not match the authorization request");;
          Ok ac)
  end.

(** Phase 2, unlocked: who the approving user is now. *)
Definition exchange_phase2 (ac : AuthCode) (auth : option UserAuthority) :
    res TokenError (UserAuthority * list string) :=
  auth ← ok_or auth (InvalidGrant "the approving user no longer exists or may not use MCP");
  let scopes := retain (λ s, bool_decide (s ∈ ua_allowed_scopes auth)) (ac_scopes ac) in
  guard_err (bool_decide (scopes = []))
    (InvalidScope "the approving user may no longer hold any of the granted scopes");;
  Ok (auth, scopes).

(** The random values a token request draws. *)
Record Draw := mk_draw { dr_refresh : string; dr_grant_id : string; dr_access : string }.

(** Phase 3, under the lock again: the grant is created. *)
Definition exchange_phase3 (t : Z) (disk_ok : bool) (code client_id : string) (ac : AuthCode)
    (auth : UserAuthority) (scopes : list string) (draw : Draw) (s : Inner) :
    Inner * res TokenError TokenSet :=
  match clients s !! client_id with
  | None => (s, Err (InvalidClient "client is no longer registered"))
  | Some c =>
      if bool_decide (MAX_GRANTS ≤ size (grants s))%nat then
        (s, Err (ServerError "too many active MCP grants — revoke unused ones in Settings → AI Agents (MCP)"))
      else if bool_decide (MAX_ACCESS_TOKENS ≤ size (access s))%nat then
        (s, Err (ServerError "too many active access tokens"))
      else
        let grant := mk_grant (dr_grant_id draw) client_id (cl_client_name c) (ac_username ac)
          (ac_source ac) (normalize_scopes scopes) (ac_resource ac) t t
          (secret_hash "refresh" (dr_refresh draw)) (t + REFRESH_TTL_SECS) [] t
          (ua_credential_fp auth) in
        let '(s, r) := commit ServerError disk_ok (λ d,
          let d := issue_access (secret_hash "access" (dr_access draw)) grant (g_scopes grant) t d in
          let d := set_refresh_index <[g_refresh_hash grant := g_id grant]> d in
          let d := set_used_codes <[secret_hash "code" code := (g_id grant, t + USED_CODE_MEMORY_SECS)]> d in
          let d := set_grants <[g_id grant := grant]> d in
          Ok (dr_access draw, d)) s in
        (s, access ← r;
            Ok (mk_tokens access "Bearer" ACCESS_TTL_SECS (dr_refresh draw) (scopes_string (g_scopes grant))))
  end.

(** Without another request in between. *)
Definition exchange_code (t : Z) (disk_ok : bool) (code client_id : string)
    (redirect_uri : ustring) (code_verifier : string) (resource : option string)
    (authority : string → AuthSource → option UserAuthority) (draw : Draw) (s : Inner) :
    Inner * res TokenError TokenSet :=
  let '(s, r1) := exchange_phase1 t disk_ok code client_id redirect_uri code_verifier resource s in
  match (ac ← r1; '(auth, scopes) ← exchange_phase2 ac (authority (ac_username ac) (ac_source ac));
         Ok (ac, auth, scopes)) with
  | Ok (ac, auth, scopes) => exchange_phase3 t disk_ok code client_id ac auth scopes draw s
  | Err e => (s, Err e)
  | Panic => (s, Panic)
  end.

(** *** [refresh]

    Phase 1, under the lock: find the grant, handle a retired token. *)
Definition refresh_phase1 (t : Z) (disk_ok : bool) (refresh_token client_id : string)
    (resource : option string) (s : Inner) : Inner * res TokenError Grant :=
  let h := secret_hash "refresh" refresh_token in
  let s := prune t s in
  let '(s, found) :=
    match retired_index s !! h with
    | Some grant_id =>
        let retry_of :=
          g ← grants s !! grant_id;
          if bool_decide (last (g_retired_refresh_hashes g) = Some h)
             && (t - g_last_rotated_at g <=? REFRESH_RETRY_GRACE_SECS)
          then Some g else None in
        match retry_of with
        | Some g => (s, Ok g)
        | None =>
            let '(s, r) := commit ServerError disk_ok (λ d, Ok (remove_grant grant_id d)) s in
            (s, r;; Err (InvalidGrant "refresh token was already used; the grant has been revoked"))
        end
    | None =>
        (s, ok_or (id ← refresh_index s !! h; grants s !! id)
              (InvalidGrant "refresh token is invalid or expired"))
    end in
  (s, g ← found;
      guard_err (bool_decide (g_client_id g ≠ client_id))
        (InvalidGrant "refresh token was issued to a different client");;
      guard_err (if resource is Some r then bool_decide (r ≠ g_resource g) else false)
        (InvalidTarget "resource does not match the grant");;
      Ok g).

(** The rotation of a grant's refresh token. *)
Definition rotate (t : Z) (new_hash : string) (g : Grant) : Grant :=
  let retired := g_retired_refresh_hashes g ++ [g_refresh_hash g] in
  mk_grant (g_id g) (g_client_id g) (g_client_name g) (g_username g) (g_source g) (g_scopes g)
    (g_resource g) (g_created_at g) t new_hash
    (Z.min (t + REFRESH_TTL_SECS) (g_created_at g + GRANT_MAX_LIFETIME_SECS))
    (drop (length retired - RETIRED_REFRESH_KEEP) retired) t (g_credential_fp g).

(** Phase 3, under the lock again, with the authority phase 2 read. *)
Definition refresh_phase3 (t : Z) (disk_ok : bool) (grant : Grant)
    (requested_scopes : option (list string)) (auth : option UserAuthority) (draw : Draw)
    (s : Inner) : Inner * res TokenError TokenSet :=
  if bool_decide (refresh_index s !! g_refresh_hash grant ≠ Some (g_id grant))
  then (s, Err (InvalidGrant "refresh token was already used")) else
  match auth with
  | None => (s, Err (InvalidGrant "the user cannot be confirmed (no longer exists, or may not use MCP)"))
  | Some auth =>
      if bool_decide (ua_credential_fp auth ≠ g_credential_fp grant) then
        let '(s, r) := commit ServerError disk_ok (λ d, Ok (remove_grant (g_id grant) d)) s in
        (s, r;; Err (InvalidGrant
               "the user's password or two-factor setup changed; the grant has been revoked"))
      else
        let checked :=
          base ← match requested_scopes with
                 | Some req =>
                     guard_err (existsb (λ s, bool_decide (s ∉ g_scopes grant)) req)
                       (InvalidScope "a refresh cannot add scopes the user did not approve");;
                     Ok req
                 | None => Ok (g_scopes grant)
                 end;
          let scopes := normalize_scopes
            (retain (λ s, bool_decide (s ∈ ua_allowed_scopes auth)) base) in
          guard_err (bool_decide (scopes = []))
            (InvalidScope "the user may no longer hold any of the granted scopes");;
          guard_err (bool_decide (MAX_ACCESS_TOKENS ≤ size (access s))%nat)
            (ServerError "too many active access tokens");;
          Ok scopes in
        match checked with
        | Err e => (s, Err e)
        | Panic => (s, Panic)
        | Ok scopes =>
            let '(s, r) := commit ServerError disk_ok (λ d,
              g ← ok_or (grants d !! g_id grant) (InvalidGrant "refresh token is invalid or expired");
              let g := rotate t (secret_hash "refresh" (dr_refresh draw)) g in
              let d := rebuild_indexes (set_grants <[g_id grant := g]> d) in
              Ok (dr_access draw, issue_access (secret_hash "access" (dr_access draw)) g scopes t d)) s in
            (s, access ← r;
                Ok (mk_tokens access "Bearer" ACCESS_TTL_SECS (dr_refresh draw) (scopes_string scopes)))
        end
  end.

Definition refresh (t : Z) (disk_ok : bool) (refresh_token client_id : string)
    (resource : option string) (requested_scopes : option (list string))
    (authority : string → AuthSource → option UserAuthority) (draw : Draw) (s : Inner) :
    Inner * res TokenError TokenSet :=
  let '(s, r1) := refresh_phase1 t disk_ok refresh_token client_id resource s in
  match r1 with
  | Ok grant =>
      refresh_phase3 t disk_ok grant requested_scopes (authority (g_username grant) (g_source grant)) draw s
  | Err e => (s, Err e)
  | Panic => (s, Panic)
  end.

(** ** The resource-server check and revocation *)
Definition touch_grant (t : Z) (g : Grant) : Grant :=
  mk_grant (g_id g) (g_client_id g) (g_client_name g) (g_username g) (g_source g) (g_scopes g)
    (g_resource g) (g_created_at g) t (g_refresh_hash g) (g_refresh_expires_at g)
    (g_retired_refresh_hashes g) (g_last_rotated_at g) (g_credential_fp g).

Definition validate_access (t : Z) (token resource : string) (s : Inner) :
    Inner * option AccessInfo :=
  let h := secret_hash "access" token in
  match access s !! h with
  | None => (s, None)
  | Some info =>
      if a_expires_at info <=? t then (set_access (delete h) s, None)
      else if bool_decide (a_resource info ≠ resource)
              || bool_decide (grants s !! a_grant_id info = None)
      then (s, None)
      else (set_grants (alter (touch_grant t) (a_grant_id info)) s, Some info)
  end.

Definition revoke_token (disk_ok : bool) (token : string) (client_id : option string) (s : Inner) :
    Inner * res string () :=
  let by_access := a_grant_id <$> access s !! secret_hash "access" token in
  let grant_id := match by_access with
                  | Some id => Some id
                  | None => refresh_index s !! secret_hash "refresh" token
                  end in
  match grant_id with
  | None => (s, Ok ())
  | Some grant_id =>
      if match client_id, grants s !! grant_id with
         | Some cid, Some g => bool_decide (g_client_id g ≠ cid)
         | _, _ => false
         end
      then (s, Ok ())
      else commit (λ e, e) disk_ok (λ d, Ok ((), (remove_grant grant_id d).2)) s
  end.

Definition revoke_grant (disk_ok : bool) (grant_id : string) (s : Inner) : Inner * res string bool :=
  if bool_decide (grants s !! grant_id = None) then (s, Ok false)
  else commit (λ e, e) disk_ok (λ d,
         let '(g, d) := remove_grant grant_id d in Ok (bool_decide (is_Some g), d)) s.

(** Shared by [revoke_user] and [revoke_all]. *)
Definition revoke_ids (disk_ok : bool) (ids : list string) (s : Inner) : Inner * res string nat :=
  if bool_decide (ids = []) then (s, Ok 0%nat)
  else commit (λ e, e) disk_ok (λ d, Ok (length ids, remove_grants ids d)) s.

Definition revoke_user (disk_ok : bool) (username : string) (s : Inner) : Inner * res string nat :=
  revoke_ids disk_ok
    (g_id <$> retain (λ g, bool_decide (g_username g = username)) (grant_values s)) s.

Definition revoke_all (disk_ok : bool) (s : Inner) : Inner * res string nat :=
  revoke_ids disk_ok (hm_iter (grants s)).*1 s.

Definition list_grants (t : Z) (s : Inner) : Inner * list GrantView :=
  let s := prune t s in
  (s, (λ g, mk_view (g_id g) (g_client_id g) (g_client_name g) (g_username g) (g_scopes g)
              (g_created_at g) (g_last_used_at g) (g_refresh_expires_at g)) <$> ps_grants (snapshot s)).
End Tokens.
