(* ===== verification/OAuthInv.v ===== *)
(** * The invariant of the OAuth store (src/src/mcp/oauth.rs)

    The indexes are exactly the inverse of the grants, every access token
    belongs to a live grant and carries no more than it, and the pools are
    bounded; every operation keeps this, whatever the iteration orders, the
    clock and the disk do. *)
From S2P Require Import Prelude OAuth.

(** What an access token may carry of its grant. *)
Definition token_of (g : Grant) (a : AccessInfo) : Prop :=
  a_client_id a = g_client_id g ∧ a_username a = g_username g ∧ a_source a = g_source g ∧
  a_resource a = g_resource g ∧ a_credential_fp a = g_credential_fp g ∧
  a_scopes a ⊆ g_scopes g.

Definition grant_ok (g : Grant) : Prop :=
  g_scopes g ⊆ ALL_SCOPES ∧
  (length (g_retired_refresh_hashes g) ≤ RETIRED_REFRESH_KEEP)%nat ∧
  g_refresh_expires_at g ≤ g_created_at g + GRANT_MAX_LIFETIME_SECS.

Record wf (s : Inner) : Prop := {
  wf_keyed : ∀ id g, grants s !! id = Some g → g_id g = id;
  wf_clients : ∀ id c, clients s !! id = Some c → cl_client_id c = id;
  wf_refresh : ∀ h id, refresh_index s !! h = Some id ↔
    ∃ g, grants s !! id = Some g ∧ g_refresh_hash g = h;
  wf_retired : ∀ h id, retired_index s !! h = Some id ↔
    ∃ g, grants s !! id = Some g ∧ h ∈ g_retired_refresh_hashes g;
  wf_disjoint : ∀ h, refresh_index s !! h = None ∨ retired_index s !! h = None;
  wf_access : ∀ h a, access s !! h = Some a →
    ∃ g, grants s !! a_grant_id a = Some g ∧ token_of g a;
  wf_grants : ∀ id g, grants s !! id = Some g → grant_ok g
}.

Definition bounded (s : Inner) : Prop :=
  (size (clients s) ≤ MAX_CLIENTS ∧ size (grants s) ≤ MAX_GRANTS ∧
   size (codes s) ≤ MAX_CODES ∧ size (pending s) ≤ MAX_PENDING ∧
   size (access s) ≤ MAX_ACCESS_TOKENS)%nat.

Lemma elem_of_normalize x l : x ∈ normalize_scopes l ↔ x ∈ ALL_SCOPES ∧ x ∈ l.
Proof. unfold normalize_scopes. by rewrite elem_of_retain, bool_decide_eq_true. Qed.

Lemma normalize_scopes_sub l : normalize_scopes l ⊆ ALL_SCOPES.
Proof. intros x. rewrite elem_of_normalize. tauto. Qed.

(** ** States that forget *)

(** [s'] is [s] less some clients, codes, tokens and pending requests. *)
Record forgets (s s' : Inner) : Prop := {
  fg_clients : clients s' ⊆ clients s;
  fg_grants : grants s' = grants s;
  fg_refresh : refresh_index s' = refresh_index s;
  fg_retired : retired_index s' = retired_index s;
  fg_codes : codes s' ⊆ codes s;
  fg_used : used_codes s' ⊆ used_codes s;
  fg_access : access s' ⊆ access s;
  fg_pending : pending s' ⊆ pending s
}.

#[global] Instance forgets_preorder : PreOrder forgets.
Proof.
  split.
  - intros s. by split.
  - intros s1 s2 s3 [] []. split; first [by etrans | congruence].
Qed.

Lemma forgets_wf s s' : forgets s s' → wf s → wf s'.
Proof.
  intros [Hc Hg Hr Ht _ _ Ha _] [].
  split; rewrite ?Hg, ?Hr, ?Ht; try done; intros ?? H.
  - eauto using lookup_weaken.
  - eapply wf_access0, lookup_weaken; eauto.
Qed.

Lemma forgets_bounded s s' : forgets s s' → bounded s → bounded s'.
Proof.
  intros [Hc Hg _ _ Hco _ Ha Hp] (?&?&?&?&?). unfold bounded. rewrite Hg.
  apply map_subseteq_size in Hc, Hco, Ha, Hp. lia.
Qed.

(** Records whose fields are computed: a goal about [forgets] is one
    inclusion per map. *)
Ltac solve_forgets :=
  split; cbn; try done;
  first [apply map_retain_subseteq | apply delete_subseteq | apply map_filter_subseteq].

(** ** Removing a grant *)
Lemma delete_retired_eq l s :
  foldl (λ s r, set_retired_index (delete r) s) s l
  = set_retired_index (λ m, foldl (λ m r, delete r m) m l) s.
Proof. revert s. induction l as [|r l IH]; intros s; cbn [foldl]; [by destruct s|]. by rewrite IH. Qed.

Lemma lookup_delete_list (l : list string) (m : gmap string string) h :
  foldl (λ m r, delete r m) m l !! h = if decide (h ∈ l) then None else m !! h.
Proof.
  revert m. induction l as [|r l IH]; intros m; cbn [foldl]; [by rewrite decide_False by set_solver|].
  rewrite IH. destruct (decide (h = r)) as [->|].
  - rewrite lookup_delete_eq, (decide_True (P := r ∈ r :: l)) by set_solver. by case_decide.
  - rewrite lookup_delete_ne by done. do 2 case_decide; (done || set_solver).
Qed.

Section remove.
Context (id : string) (s : Inner) (g : Grant).
Context (Hwf : wf s) (Hg : grants s !! id = Some g).

Lemma remove_grant_eq :
  remove_grant id s = (Some g, mk_inner (clients s) (delete id (grants s))
    (delete (g_refresh_hash g) (refresh_index s))
    (foldl (λ m r, delete r m) (retired_index s) (g_retired_refresh_hashes g))
    (codes s) (used_codes s)
    (map_retain (λ _ a, bool_decide (a_grant_id a ≠ id)) (access s)) (pending s)).
Proof using Hg. unfold remove_grant. rewrite Hg. by rewrite delete_retired_eq. Qed.

Lemma remove_grant_wf : wf (remove_grant id s).2.
Proof using Hwf Hg.
  rewrite remove_grant_eq. cbn [snd]. destruct Hwf. split; cbn.
  - intros ? ? [? ?]%lookup_delete_Some. eauto.
  - done.
  - intros h id'. rewrite lookup_delete_Some, wf_refresh0. setoid_rewrite lookup_delete_Some.
    split.
    + intros (Hne & g' & Hg' & <-). exists g'. split; [|done]. split; [|done]. congruence.
    + intros (g' & [Hne Hg'] & <-). split; [|eauto]. intros Heq.
      assert (refresh_index s !! g_refresh_hash g = Some id) as E1 by (apply wf_refresh0; eauto).
      assert (refresh_index s !! g_refresh_hash g' = Some id') as E2 by (apply wf_refresh0; eauto).
      congruence.
  - intros h id'. rewrite lookup_delete_list. setoid_rewrite lookup_delete_Some. split.
    + case_decide as Hin; [done|]. intros (g' & Hg' & Hin')%wf_retired0. exists g'.
      split; [|done]. split; [|done]. congruence.
    + intros (g' & [Hne Hg'] & Hin'). case_decide as Hin; [|by apply wf_retired0; eauto].
      assert (retired_index s !! h = Some id) as E1 by (apply wf_retired0; eauto).
      assert (retired_index s !! h = Some id') as E2 by (apply wf_retired0; eauto). congruence.
  - intros h. rewrite lookup_delete_None, lookup_delete_list. case_decide; [by right|].
    destruct (wf_disjoint0 h); auto.
  - intros h a [Ha Hne]%map_retain_lookup. bool_props.
    destruct (wf_access0 h a Ha) as (g' & Hg' & Ht). exists g'. split; [|done].
    by rewrite lookup_delete_ne by done.
  - intros ? ? [? ?]%lookup_delete_Some. eauto.
Qed.
End remove.

(** ** States that only lose *)
Record shrinks (s s' : Inner) : Prop := {
  sh_clients : clients s' ⊆ clients s;
  sh_grants : grants s' ⊆ grants s;
  sh_codes : codes s' ⊆ codes s;
  sh_used : used_codes s' ⊆ used_codes s;
  sh_access : access s' ⊆ access s;
  sh_pending : pending s' ⊆ pending s
}.

#[global] Instance shrinks_preorder : PreOrder shrinks.
Proof.
  split.
  - intros s. by split.
  - intros s1 s2 s3 [] []. split; by etrans.
Qed.

Lemma forgets_shrinks s s' : forgets s s' → shrinks s s'.
Proof. intros []. split; try done. by rewrite fg_grants0. Qed.

Lemma shrinks_bounded s s' : shrinks s s' → bounded s → bounded s'.
Proof.
  intros [Hc Hg Hco _ Ha Hp] (?&?&?&?&?). unfold bounded.
  apply map_subseteq_size in Hc, Hg, Hco, Ha, Hp. lia.
Qed.

Lemma remove_grant_shrinks id s : shrinks s (remove_grant id s).2.
Proof.
  unfold remove_grant. destruct (grants s !! id) as [g|]; [|done].
  rewrite delete_retired_eq. split; cbn; try done; [apply delete_subseteq|apply map_retain_subseteq].
Qed.

Lemma remove_grant_wf_any id s : wf s → wf (remove_grant id s).2.
Proof.
  intros Hwf. destruct (grants s !! id) as [g|] eqn:Hg; [by eapply remove_grant_wf|].
  unfold remove_grant. by rewrite Hg.
Qed.

Lemma remove_grant_grants id s : grants (remove_grant id s).2 = delete id (grants s).
Proof.
  unfold remove_grant. destruct (grants s !! id) as [g|] eqn:Hg.
  - by rewrite delete_retired_eq.
  - by rewrite delete_id.
Qed.

Lemma remove_grant_others id s :
  let s' := (remove_grant id s).2 in
  clients s' = clients s ∧ codes s' = codes s ∧ used_codes s' = used_codes s ∧
  pending s' = pending s.
Proof.
  unfold remove_grant. destruct (grants s !! id); [|done]. by rewrite delete_retired_eq.
Qed.

(** No token of a removed grant is left. *)
Lemma remove_grant_access id s h a :
  wf s → access (remove_grant id s).2 !! h = Some a ↔ access s !! h = Some a ∧ a_grant_id a ≠ id.
Proof.
  intros Hwf. destruct (grants s !! id) as [g|] eqn:Hg.
  - erewrite remove_grant_eq by done. cbn. by rewrite map_retain_lookup, bool_decide_eq_true.
  - unfold remove_grant. rewrite Hg. cbn. split; [|tauto]. intros Ha. split; [done|].
    intros <-. destruct (wf_access s Hwf h a Ha) as (g & Hg' & _). congruence.
Qed.

Lemma remove_grants_app ids1 ids2 s :
  remove_grants (ids1 ++ ids2) s = remove_grants ids2 (remove_grants ids1 s).
Proof. apply foldl_app. Qed.

Lemma remove_grants_wf ids s : wf s → wf (remove_grants ids s).
Proof.
  revert s. induction ids as [|id ids IH]; intros s Hwf; [done|].
  apply IH. by apply remove_grant_wf_any.
Qed.

Lemma remove_grants_shrinks ids s : shrinks s (remove_grants ids s).
Proof.
  revert s. induction ids as [|id ids IH]; intros s; [done|].
  etrans; [apply (remove_grant_shrinks id)|apply IH].
Qed.

Lemma remove_grants_grants ids s id :
  grants (remove_grants ids s) !! id = if decide (id ∈ ids) then None else grants s !! id.
Proof.
  revert s. induction ids as [|i ids IH]; intros s; [by rewrite decide_False by set_solver|].
  cbn. fold (remove_grants ids (remove_grant i s).2). rewrite IH, remove_grant_grants.
  destruct (decide (id = i)) as [->|].
  - rewrite lookup_delete_eq, (decide_True (P := i ∈ i :: ids)) by set_solver. by case_decide.
  - rewrite lookup_delete_ne by done. do 2 case_decide; (done || set_solver).
Qed.

Lemma remove_grants_others ids s :
  let s' := remove_grants ids s in
  clients s' = clients s ∧ codes s' = codes s ∧ used_codes s' = used_codes s ∧
  pending s' = pending s.
Proof.
  revert s. induction ids as [|i ids IH]; intros s; [done|]. cbn.
  destruct (remove_grant_others i s) as (<-&<-&<-&<-). apply IH.
Qed.

(** ** Pruning *)
Section prune.
Context `{!HashOrder Grant} `{!HashOrder Client}.

Lemma elem_of_grant_values s g : g ∈ grant_values s ↔ ∃ id, grants s !! id = Some g.
Proof.
  unfold grant_values. rewrite hm_iter_perm, list_elem_of_fmap.
  split; [intros ([id ?] & -> & H%elem_of_map_to_list)|intros [id H%elem_of_map_to_list]];
    [by eexists|by exists (id, g)].
Qed.

Lemma delete_clients_forgets ids s : forgets s (foldl (λ s id, set_clients (delete id) s) s ids).
Proof.
  revert s. induction ids as [|id ids IH]; intros s; [done|].
  cbn [foldl]. etrans; [|apply IH]. solve_forgets.
Qed.

(** What [prune] does before it looks at the clients. *)
Definition expire (t : Z) (s : Inner) : Inner :=
  set_pending (map_retain (λ _ p, t <? p_created_at p + PENDING_TTL_SECS))
   (set_access (map_retain (λ _ a, t <? a_expires_at a))
    (set_used_codes (map_retain (λ _ u, t <? u.2))
     (set_codes (map_retain (λ _ c, t <? ac_expires_at c)) s))).

Lemma expire_forgets t s : forgets s (expire t s).
Proof. split; cbn; (done || apply map_retain_subseteq). Qed.

Definition expired_ids (t : Z) (s : Inner) : list string :=
  g_id <$> retain (λ g, g_refresh_expires_at g <=? t) (grant_values s).

Lemma prune_split t s : forgets (remove_grants (expired_ids t s) (expire t s)) (prune t s).
Proof.
  unfold prune. apply (delete_clients_forgets _ (remove_grants (expired_ids t s) (expire t s))).
Qed.

Lemma prune_wf t s : wf s → wf (prune t s).
Proof.
  intros Hwf. eapply forgets_wf; [apply prune_split|]. apply remove_grants_wf.
  eapply forgets_wf, Hwf. apply expire_forgets.
Qed.

Lemma prune_shrinks t s : shrinks s (prune t s).
Proof.
  etrans; [apply forgets_shrinks, (expire_forgets t)|].
  etrans; [|apply forgets_shrinks, prune_split]. apply remove_grants_shrinks.
Qed.

Lemma elem_of_expired t s id :
  wf s → id ∈ expired_ids t s ↔ ∃ g, grants s !! id = Some g ∧ g_refresh_expires_at g ≤ t.
Proof.
  intros Hwf. unfold expired_ids. rewrite list_elem_of_fmap. split.
  - intros (g & -> & [[i Hg]%elem_of_grant_values Ht]%elem_of_retain). bool_props.
    rewrite (wf_keyed s Hwf i g Hg). eauto.
  - intros (g & Hg & Ht). exists g. split; [by rewrite (wf_keyed s Hwf id g Hg)|].
    apply elem_of_retain. split; [apply elem_of_grant_values; eauto|]. by apply Z.leb_le.
Qed.

(** Exactly the grants past their expiry go. *)
Lemma prune_grants t s id g :
  wf s → grants (prune t s) !! id = Some g ↔ grants s !! id = Some g ∧ t < g_refresh_expires_at g.
Proof.
  intros Hwf. rewrite (fg_grants _ _ (prune_split t s)), remove_grants_grants.
  pose proof (elem_of_expired t s id Hwf) as He. case_decide as Hin.
  - split; [done|]. intros [Hg Ht]. destruct (proj1 He Hin) as (g' & Hg' & ?).
    assert (g = g') as -> by congruence. lia.
  - cbn. split; [|tauto]. intros Hg. split; [done|]. destruct (decide (g_refresh_expires_at g ≤ t)); [|lia].
    destruct Hin. apply He. eauto.
Qed.

Lemma delete_clients_others ids s :
  let s' := foldl (λ s id, set_clients (delete id) s) s ids in
  codes s' = codes s ∧ used_codes s' = used_codes s ∧ access s' = access s ∧ pending s' = pending s.
Proof. revert s. induction ids as [|id ids IH]; intros s; [done|]. apply (IH (set_clients _ s)). Qed.

Lemma prune_codes t s : codes (prune t s) = map_retain (λ _ c, t <? ac_expires_at c) (codes s).
Proof.
  unfold prune. match goal with |- context [foldl _ ?x ?l] =>
    destruct (delete_clients_others l x) as (-> & _) end.
  change (codes (remove_grants (expired_ids t s) (expire t s)) = map_retain (λ _ c, t <? ac_expires_at c) (codes s)).
  by destruct (remove_grants_others (expired_ids t s) (expire t s)) as (_ & -> & _).
Qed.

Lemma prune_used t s : used_codes (prune t s) = map_retain (λ _ u, t <? u.2) (used_codes s).
Proof.
  unfold prune. match goal with |- context [foldl _ ?x ?l] =>
    destruct (delete_clients_others l x) as (_ & -> & _) end.
  change (used_codes (remove_grants (expired_ids t s) (expire t s)) = map_retain (λ _ u, t <? u.2) (used_codes s)).
  by destruct (remove_grants_others (expired_ids t s) (expire t s)) as (_ & _ & -> & _).
Qed.

Lemma prune_indexes t s h id :
  wf s →
  (refresh_index (prune t s) !! h = Some id ↔
     ∃ g, grants s !! id = Some g ∧ t < g_refresh_expires_at g ∧ g_refresh_hash g = h) ∧
  (retired_index (prune t s) !! h = Some id ↔
     ∃ g, grants s !! id = Some g ∧ t < g_refresh_expires_at g ∧ h ∈ g_retired_refresh_hashes g).
Proof.
  intros Hwf. pose proof (prune_wf t s Hwf) as Hwf'.
  rewrite (wf_refresh _ Hwf'), (wf_retired _ Hwf').
  pose proof (λ g, prune_grants t s id g Hwf) as Hp.
  split; (split; [intros (g & Hg%Hp & Hh)|intros (g & Hg & Ht & Hh)]; exists g; rewrite ?Hp; tauto).
Qed.
End prune.

(** ** Rebuilding the indexes *)
Definition refresh_of (gs : list Grant) (m : gmap string string) : gmap string string :=
  foldl (λ m g, <[g_refresh_hash g := g_id g]> m) m gs.
Definition retired_of_grant (g : Grant) (m : gmap string string) : gmap string string :=
  foldl (λ m r, <[r := g_id g]> m) m (g_retired_refresh_hashes g).
Definition retired_of (gs : list Grant) (m : gmap string string) : gmap string string :=
  foldl (λ m g, retired_of_grant g m) m gs.

Lemma index_grant_eq g s :
  index_grant g s = mk_inner (clients s) (grants s) (<[g_refresh_hash g := g_id g]> (refresh_index s))
    (retired_of_grant g (retired_index s)) (codes s) (used_codes s) (access s) (pending s).
Proof.
  unfold index_grant, retired_of_grant. set (s0 := set_refresh_index _ s).
  change (retired_index s) with (retired_index s0).
  transitivity (mk_inner (clients s0) (grants s0) (refresh_index s0)
    (foldl (λ m r, <[r := g_id g]> m) (retired_index s0) (g_retired_refresh_hashes g))
    (codes s0) (used_codes s0) (access s0) (pending s0)); [|done].
  generalize s0. clear s0.
  induction (g_retired_refresh_hashes g) as [|r l IH]; intros s0; [by destruct s0|].
  cbn [foldl]. by rewrite IH.
Qed.

(** Inserting [f x ↦ v x] for all of a list: a lookup finds one of them, and
    finds something for each. *)
Lemma foldl_insert_lookup {A} (f : A → list string) (v : A → string) l (m : gmap string string) h :
  let m' := foldl (λ m x, foldl (λ m k, <[k := v x]> m) m (f x)) m l in
  (∀ id, m' !! h = Some id → m !! h = Some id ∨ ∃ x, x ∈ l ∧ h ∈ f x ∧ v x = id) ∧
  (m !! h ≠ None ∨ (∃ x, x ∈ l ∧ h ∈ f x) → m' !! h ≠ None).
Proof.
  assert (∀ ks w (m : gmap string string),
    (∀ id, foldl (λ m k, <[k := w]> m) m ks !! h = Some id → m !! h = Some id ∨ h ∈ ks ∧ w = id) ∧
    (m !! h ≠ None ∨ h ∈ ks → foldl (λ m k, <[k := w]> m) m ks !! h ≠ None)) as Hks.
  { clear. induction ks as [|k ks IH]; intros w m; cbn [foldl]; [set_solver|].
    destruct (IH w (<[k := w]> m)) as [IH1 IH2]. destruct (decide (h = k)) as [->|Hne].
    - split; [|intros _; apply IH2; left; by rewrite lookup_insert_eq].
      intros id Hid. right. destruct (IH1 id Hid) as [Hm|[? ?]]; [|set_solver].
      rewrite lookup_insert_eq in Hm. injection Hm. set_solver.
    - rewrite lookup_insert_ne in IH1, IH2 by done. split.
      + intros id Hid. destruct (IH1 id Hid); set_solver.
      + intros [?|?%elem_of_cons]; apply IH2; naive_solver. }
  revert m. induction l as [|x l IH]; intros m; cbn [foldl]; [set_solver|].
  destruct (IH (foldl (λ m k, <[k := v x]> m) m (f x))) as [IH1 IH2].
  destruct (Hks (f x) (v x) m) as [H1 H2]. split.
  - intros id Hid. destruct (IH1 id Hid) as [Hm|(y & ? & ? & ?)]; [|set_solver].
    destruct (H1 id Hm); set_solver.
  - intros [?|(y & [->|Hy]%elem_of_cons & ?)]; apply IH2; eauto.
Qed.

Section rebuild.
Context `{!HashOrder Grant} `{!HashOrder Client}.

Lemma rebuild_indexes_eq s :
  rebuild_indexes s = mk_inner (clients s) (grants s)
    (refresh_of (grant_values s) ∅) (retired_of (grant_values s) ∅)
    (codes s) (used_codes s) (access s) (pending s).
Proof.
  unfold rebuild_indexes. set (s0 := set_retired_index _ _).
  transitivity (mk_inner (clients s0) (grants s0) (refresh_of (grant_values s) (refresh_index s0))
    (retired_of (grant_values s) (retired_index s0)) (codes s0) (used_codes s0) (access s0) (pending s0));
    [|done].
  generalize s0. induction (grant_values s) as [|g l IH]; intros s1; [by destruct s1|].
  cbn [foldl]. by rewrite IH, index_grant_eq.
Qed.

(** Grants under their own ids, no hash in use twice. *)
Definition grants_distinct (m : gmap string Grant) : Prop :=
  (∀ id g, m !! id = Some g → g_id g = id) ∧
  (∀ i j g g' h, m !! i = Some g → m !! j = Some g' →
     h ∈ g_refresh_hash g :: g_retired_refresh_hashes g →
     h ∈ g_refresh_hash g' :: g_retired_refresh_hashes g' → i = j) ∧
  (∀ i g, m !! i = Some g → g_refresh_hash g ∉ g_retired_refresh_hashes g).

Lemma rebuild_refresh s h id :
  grants_distinct (grants s) →
  refresh_index (rebuild_indexes s) !! h = Some id ↔
    ∃ g, grants s !! id = Some g ∧ g_refresh_hash g = h.
Proof.
  intros (Hk & Hu & _). rewrite rebuild_indexes_eq. cbn.
  destruct (foldl_insert_lookup (λ g, [g_refresh_hash g]) g_id (grant_values s) ∅ h) as [H1 H2].
  cbn [foldl] in H1, H2. fold (refresh_of (grant_values s) ∅) in H1, H2. split.
  - intros [|(g & [i Hg]%elem_of_grant_values & ->%list_elem_of_singleton & <-)]%H1; [done|].
    exists g. split; [|done]. by rewrite (Hk i g Hg).
  - intros (g & Hg & <-). destruct (refresh_of _ _ !! _) as [j|] eqn:Hj.
    + destruct (H1 j eq_refl) as [|(g' & [i Hg']%elem_of_grant_values & Hh%list_elem_of_singleton & <-)]; [done|].
      rewrite (Hk i g' Hg'). f_equal. apply (Hu i id g' g (g_refresh_hash g)); [done..|rewrite Hh; set_solver|set_solver].
    + destruct H2; [|done]. right. exists g. split; [|set_solver]. apply elem_of_grant_values. eauto.
Qed.

Lemma rebuild_retired s h id :
  grants_distinct (grants s) →
  retired_index (rebuild_indexes s) !! h = Some id ↔
    ∃ g, grants s !! id = Some g ∧ h ∈ g_retired_refresh_hashes g.
Proof.
  intros (Hk & Hu & _). rewrite rebuild_indexes_eq. cbn.
  destruct (foldl_insert_lookup g_retired_refresh_hashes g_id (grant_values s) ∅ h) as [H1 H2].
  fold (retired_of (grant_values s) ∅) in H1, H2. split.
  - intros [|(g & [i Hg]%elem_of_grant_values & Hin & <-)]%H1; [done|].
    exists g. split; [|done]. by rewrite (Hk i g Hg).
  - intros (g & Hg & Hin). destruct (retired_of _ _ !! _) as [j|] eqn:Hj.
    + destruct (H1 j Hj) as [|(g' & [i Hg']%elem_of_grant_values & Hh & <-)]; [done|].
      rewrite (Hk i g' Hg'). f_equal. apply (Hu i id g' g h); [done..|set_solver|set_solver].
    + destruct H2; [|done]. right. exists g. split; [|done]. apply elem_of_grant_values. eauto.
Qed.

Lemma wf_distinct s : wf s → grants_distinct (grants s).
Proof.
  intros Hwf. assert (∀ i g h, grants s !! i = Some g → h ∈ g_refresh_hash g :: g_retired_refresh_hashes g →
    refresh_index s !! h = Some i ∨ retired_index s !! h = Some i) as Hh.
  { intros i g h Hg [->|Hin]%elem_of_cons; [left; apply wf_refresh|right; apply wf_retired]; eauto. }
  split_and!; [apply (wf_keyed s Hwf)| |].
  - intros i j g g' h Hg Hg' H1 H2. destruct (wf_disjoint s Hwf h) as [E|E];
      destruct (Hh i g h Hg H1), (Hh j g' h Hg' H2); congruence.
  - intros i g Hg Hin. assert (refresh_index s !! g_refresh_hash g = Some i) by (apply wf_refresh; eauto).
    assert (retired_index s !! g_refresh_hash g = Some i) by (apply wf_retired; eauto).
    destruct (wf_disjoint s Hwf (g_refresh_hash g)); congruence.
Qed.

(** The indexes do not depend on the iteration order. *)
Lemma rebuild_disjoint s h :
  grants_distinct (grants s) →
  refresh_index (rebuild_indexes s) !! h = None ∨ retired_index (rebuild_indexes s) !! h = None.
Proof.
  intros Hd. destruct (refresh_index (rebuild_indexes s) !! h) as [i|] eqn:E1; [|by left].
  destruct (retired_index (rebuild_indexes s) !! h) as [j|] eqn:E2; [|by right].
  apply (rebuild_refresh s h i Hd) in E1 as (g & Hg & <-).
  apply (rebuild_retired s _ j Hd) in E2 as (g' & Hg' & Hin).
  destruct Hd as (_ & Hu & Hn).
  assert (i = j) as <- by (apply (Hu i j g g' (g_refresh_hash g)); [done..|set_solver|set_solver]).
  assert (g = g') as <- by congruence. by destruct (Hn i g).
Qed.
End rebuild.

(** ** Changes of a grant *)

(** Two grants agree on what never changes after approval. *)
Definition same_approval (g g' : Grant) : Prop :=
  g_id g = g_id g' ∧ g_client_id g = g_client_id g' ∧ g_username g = g_username g' ∧
  g_source g = g_source g' ∧ g_scopes g = g_scopes g' ∧ g_resource g = g_resource g' ∧
  g_created_at g = g_created_at g' ∧ g_credential_fp g = g_credential_fp g'.

Lemma token_of_same g g' a : same_approval g g' → token_of g a → token_of g' a.
Proof.
  intros (_&?&?&?&Hs&?&_&?) (?&?&?&?&?&Hsub). rewrite Hs in Hsub.
  split_and!; (done || congruence).
Qed.

(** Replacing one grant by another of the same approval keeps the tokens'
    grants. *)
Lemma access_after_replace s id g g' m h a :
  wf s → grants s !! id = Some g → same_approval g g' → m = <[id := g']> (grants s) →
  access s !! h = Some a → ∃ g0, m !! a_grant_id a = Some g0 ∧ token_of g0 a.
Proof.
  intros Hwf Hg Hs -> Ha. destruct (wf_access s Hwf h a Ha) as (g0 & Hg0 & Ht).
  destruct (decide (a_grant_id a = id)) as [E|]; [rewrite E in *|].
  - exists g'. assert (g0 = g) as -> by congruence.
    split; [by rewrite lookup_insert_eq|]. by apply (token_of_same g).
  - exists g0. by rewrite lookup_insert_ne.
Qed.

Lemma issue_access_wf h g scopes t s :
  wf s → grants s !! g_id g = Some g → scopes ⊆ g_scopes g → wf (issue_access h g scopes t s).
Proof.
  intros [] Hg Hsub. split; cbn; try done. intros h' a [[<- <-]|[? ?]]%lookup_insert_Some; [|eauto].
  exists g. cbn. split; [done|]. by split_and!.
Qed.

Lemma touch_grant_wf t id s : wf s → wf (set_grants (alter (touch_grant t) id) s).
Proof.
  intros Hwf. destruct (grants s !! id) as [g|] eqn:Hg; cycle 1.
  { unfold set_grants. rewrite alter_missing by done. by destruct s. }
  unfold set_grants. rewrite (alter_Some _ _ _ _ Hg).
  assert (∀ i g0 (P : Grant → Prop), (∀ t g, P g → P (touch_grant t g)) →
    <[id := touch_grant t g]> (grants s) !! i = Some g0 → (∀ g1, grants s !! i = Some g1 → P g1) → P g0) as Hall.
  { intros i g0 P HP [[<- <-]|[? ?]]%lookup_insert_Some HPs; auto. }
  assert (∀ i (P : Grant → Prop), (∀ g, P (touch_grant t g) ↔ P g) →
    (∃ g0, <[id := touch_grant t g]> (grants s) !! i = Some g0 ∧ P g0) ↔
    (∃ g0, grants s !! i = Some g0 ∧ P g0)) as Hex.
  { intros i P HP. destruct (decide (i = id)) as [->|].
    - rewrite lookup_insert_eq, Hg. split; intros (g0 & [= <-] & H); eexists; (split; [done|]); by apply HP.
    - by rewrite lookup_insert_ne. }
  destruct (Hwf). split; cbn; try done.
  - intros i g0 Hi. apply (Hall i g0 (λ g, g_id g = i)); auto.
  - intros h i. rewrite (Hex i (λ g, g_refresh_hash g = h)) by done. apply wf_refresh0.
  - intros h i. rewrite (Hex i (λ g, h ∈ g_retired_refresh_hashes g)) by done. apply wf_retired0.
  - intros h a Ha. eapply access_after_replace; [done|exact Hg| |done|done]. by split_and!.
  - intros i g0 Hi. apply (Hall i g0 grant_ok); eauto.
Qed.

(** A new grant with an unused id and an unused refresh hash. *)
Lemma add_grant_wf g s :
  wf s → grants s !! g_id g = None → refresh_index s !! g_refresh_hash g = None →
  retired_index s !! g_refresh_hash g = None → g_retired_refresh_hashes g = [] → grant_ok g →
  wf (set_grants <[g_id g := g]> (set_refresh_index <[g_refresh_hash g := g_id g]> s)).
Proof.
  intros [] Hid Hr Ht Hn Hok. split; cbn.
  - intros i g0 [[<- <-]|[? ?]]%lookup_insert_Some; eauto.
  - done.
  - intros h i. rewrite lookup_insert_Some. split.
    + intros [[<- <-]|[Hne (g0 & Hg0 & <-)%wf_refresh0]].
      * exists g. by rewrite lookup_insert_eq.
      * exists g0. rewrite lookup_insert_ne by congruence. done.
    + intros (g0 & [[<- <-]|[Hne Hg0]]%lookup_insert_Some & <-); [by left|right].
      assert (refresh_index s !! g_refresh_hash g0 = Some i) as E by (apply wf_refresh0; eauto).
      split; [congruence|done].
  - intros h i. rewrite wf_retired0. split.
    + intros (g0 & Hg0 & Hin). exists g0. by rewrite lookup_insert_ne by congruence.
    + intros (g0 & [[<- <-]|[Hne Hg0]]%lookup_insert_Some & Hin); [|eauto].
      rewrite Hn in Hin. set_solver.
  - intros h. rewrite lookup_insert_None. destruct (decide (g_refresh_hash g = h)) as [<-|]; [auto|].
    destruct (wf_disjoint0 h); auto.
  - intros h a Ha. destruct (wf_access0 h a Ha) as (g0 & Hg0 & ?). exists g0.
    by rewrite lookup_insert_ne by congruence.
  - intros i g0 [[<- <-]|[? ?]]%lookup_insert_Some; eauto.
Qed.

Section rotate.
Context `{!HashOrder Grant} `{!HashOrder Client}.

Lemma rotate_distinct t nh id g s :
  wf s → grants s !! id = Some g → refresh_index s !! nh = None → retired_index s !! nh = None →
  grants_distinct (<[id := rotate t nh g]> (grants s)).
Proof.
  intros Hwf Hg Hr Ht. destruct (wf_distinct s Hwf) as (Hk & Hu & Hn).
  assert (∀ h, h ∈ g_retired_refresh_hashes (rotate t nh g) →
               h ∈ g_refresh_hash g :: g_retired_refresh_hashes g) as Hsub.
  { cbn. intros h H. apply subseteq_drop in H. set_solver. }
  assert (∀ i g' h, grants s !! i = Some g' → h ∈ g_refresh_hash g' :: g_retired_refresh_hashes g' →
            h ≠ nh) as Hnew.
  { intros i g' h Hg' Hin ->. apply elem_of_cons in Hin as [E|Hin].
    - assert (refresh_index s !! g_refresh_hash g' = Some i) by (apply wf_refresh; eauto). congruence.
    - assert (retired_index s !! nh = Some i) by (apply wf_retired; eauto). congruence. }
  assert (∀ j g' h, id ≠ j → grants s !! j = Some g' →
    h ∈ g_refresh_hash (rotate t nh g) :: g_retired_refresh_hashes (rotate t nh g) →
    h ∈ g_refresh_hash g' :: g_retired_refresh_hashes g' → False) as Hdis.
  { intros j g' h Hne Hg' [->|Hin%Hsub]%elem_of_cons H2; [by eapply Hnew|].
    apply Hne. by eapply (Hu id j g g' h). }
  split_and!.
  - intros i g0 [[<- <-]|[? ?]]%lookup_insert_Some; [cbn|]; eauto.
  - intros i j g1 g2 h [[<- <-]|[? H1]]%lookup_insert_Some [[<- <-]|[? H2]]%lookup_insert_Some Hh1 Hh2;
      [done|destruct (Hdis j g2 h)|destruct (Hdis i g1 h)|]; eauto.
  - intros i g0 [[<- <-]|[? ?]]%lookup_insert_Some; [|eauto]. intros Hin%Hsub. by eapply Hnew.
Qed.

Lemma rotate_same t nh g : same_approval g (rotate t nh g).
Proof. by split_and!. Qed.

Lemma rotate_ok t nh g : grant_ok g → grant_ok (rotate t nh g).
Proof.
  intros (Hs & Hl & He). split_and!; cbn; [done| |lia].
  rewrite length_drop, length_app. lia.
Qed.

Lemma rotate_wf t nh id g s :
  wf s → grants s !! id = Some g → refresh_index s !! nh = None → retired_index s !! nh = None →
  wf (rebuild_indexes (set_grants <[id := rotate t nh g]> s)).
Proof.
  intros Hwf Hg Hr Ht. pose proof (rotate_distinct t nh id g s Hwf Hg Hr Ht) as Hd.
  set (s1 := set_grants _ s). change (grants_distinct (grants s1)) in Hd.
  pose proof (rebuild_refresh s1) as H1. pose proof (rebuild_retired s1) as H2.
  pose proof (rebuild_disjoint s1) as H3. rewrite rebuild_indexes_eq in *.
  split; cbn in *; [by destruct Hd|apply Hwf|auto..| |].
  - intros h a Ha. eapply access_after_replace; [done|exact Hg|apply rotate_same|done|done].
  - intros i g0 [[<- <-]|[? ?]]%lookup_insert_Some; [apply rotate_ok|]; by eapply wf_grants.
Qed.
End rotate.
