(* ===== verification/OAuthSafety.v ===== *)
(** * What the OAuth server guarantees (src/src/mcp/oauth.rs)

    The server as a transition system whose token requests interleave at
    their unlocked phase, the invariant over its reachable states, and the
    properties of codes, tokens and grants. *)
From S2P Require Import Prelude OAuth OAuthInv.

Section Commit.
Context {R E : Type} (from_string : string → E) (disk_ok : bool).

(** A committed operation leaves the state it started from or the one its
    draft produced. *)
Lemma commit_cases (f : Inner → res E (R * Inner)) s s' r :
  commit from_string disk_ok f s = (s', r) →
  (s' = s ∧ is_ok r = false) ∨ (∃ x, f s = Ok (x, s') ∧ disk_ok = true ∧ r = Ok x).
Proof.
  unfold commit. destruct (f s) as [[x d]|e|]; [|intros [= <- <-]; auto..].
  destruct disk_ok; intros [= <- <-]; eauto.
Qed.
End Commit.

Ltac commit_inv H :=
  apply commit_cases in H as [[-> ?]|(? & H & ? & ->)].

Section Safety.
Context `{!HashOrder Grant} `{!HashOrder Client}.
Context (sha256_hex sha256_b64url : string → string) (url_parse : ustring → option Url).
Abbreviation hash := (secret_hash sha256_hex).

(** ** Operations keep the invariant *)
Definition inv (s : Inner) : Prop := wf s ∧ bounded s.

Lemma prune_inv t s : inv s → inv (prune t s).
Proof. intros []. split; [by apply prune_wf|]. eapply shrinks_bounded; [apply prune_shrinks|done]. Qed.

Lemma forgets_inv s s' : forgets s s' → inv s → inv s'.
Proof. intros ? []. split; [by eapply forgets_wf|by eapply forgets_bounded]. Qed.

Lemma remove_grant_inv id s : inv s → inv (remove_grant id s).2.
Proof.
  intros []. split; [by apply remove_grant_wf_any|].
  eapply shrinks_bounded; [apply remove_grant_shrinks|done].
Qed.

Lemma remove_grants_inv ids s : inv s → inv (remove_grants ids s).
Proof.
  intros []. split; [by apply remove_grants_wf|].
  eapply shrinks_bounded; [apply remove_grants_shrinks|done].
Qed.

Lemma evict_size s s' :
  wf s → evict_unapproved_client s = (true, s') →
  forgets s s' ∧ (size (clients s') < size (clients s))%nat.
Proof.
  intros Hwf. unfold evict_unapproved_client.
  destruct (min_by_key _ _) as [c|] eqn:Hv; intros [= <-].
  apply min_by_key_Some in Hv as [[Hc _]%elem_of_retain _].
  unfold client_values in Hc. rewrite hm_iter_perm in Hc.
  apply list_elem_of_fmap in Hc as ([id ?] & -> & Hc%elem_of_map_to_list). cbn [snd].
  rewrite (wf_clients s Hwf _ _ Hc). split; [solve_forgets|]. cbn.
  rewrite map_size_delete_Some by eauto.
  assert (size (clients s) ≠ 0%nat); [|lia]. intros H0%map_size_empty_inv. by rewrite H0 in Hc.
Qed.

Lemma add_client_wf c s : wf s → wf (set_clients <[cl_client_id c := c]> s).
Proof. intros []. split; cbn; try done. intros i c' [[<- <-]|[? ?]]%lookup_insert_Some; eauto. Qed.

Lemma register_client_inv t ok id name uris from s :
  inv s → inv (register_client url_parse t ok id name uris from s).1.
Proof.
  intros Hi. unfold register_client. destruct (guard_err _ _ ≫= _); [|done..].
  apply (prune_inv t) in Hi. destruct (commit _ _ _ _) as [s' r] eqn:Hc. commit_inv Hc; [done|].
  set (c := mk_client _ _ _ _ _ _) in Hc. cbn [fst].
  assert (∃ d, s' = set_clients <[cl_client_id c := c]> d ∧ forgets (prune t s) d ∧
               (size (clients d) < MAX_CLIENTS)%nat) as (d & -> & Hf & Hlt).
  { case_bool_decide as Hfull; [|injection Hc as <- <-; exists (prune t s); split_and!; (done || lia)].
    destruct (evict_unapproved_client _) as [room d] eqn:He. destruct room; [|done].
    injection Hc as <- <-. exists d. destruct (evict_size _ _ (proj1 Hi) He) as [? ?].
    split_and!; [done..|]. destruct Hi as [_ (? & _)]. lia. }
  destruct (forgets_inv _ _ Hf Hi) as [Hwf Hb]. split; [by apply add_client_wf|].
  pose proof (size_insert_le (clients d) (cl_client_id c) c).
  destruct Hb as (? & ? & ? & ? & ?). split_and!; cbn in *; lia.
Qed.

Lemma delete_client_inv ok id s : inv s → inv (delete_client ok id s).1.
Proof.
  intros Hi. unfold delete_client. destruct (commit _ _ _ _) as [s' r] eqn:Hc.
  commit_inv Hc; [done|]. injection Hc as <- <-. apply remove_grants_inv.
  eapply forgets_inv, Hi. solve_forgets.
Qed.

Lemma begin_pending_inv t id p s : inv s → inv (begin_pending t id p s).1.
Proof.
  intros Hi. unfold begin_pending. case_match; [done|]. apply (prune_inv t) in Hi.
  do 3 (case_bool_decide; [done|]). destruct Hi as [Hwf (? & ? & ? & ? & ?)]. split.
  - by destruct Hwf.
  - pose proof (size_insert_le (pending (prune t s)) id p). split_and!; cbn in *; lia.
Qed.

Lemma take_pending_inv t id s : inv s → inv (take_pending t id s).1.
Proof. intros Hi. eapply forgets_inv, (prune_inv t), Hi. solve_forgets. Qed.

Lemma validate_access_inv t tok rs s : inv s → inv (validate_access sha256_hex t tok rs s).1.
Proof.
  intros Hi. unfold validate_access. destruct (access s !! _) as [info|]; [|done].
  destruct (_ <=? _); [eapply forgets_inv, Hi; solve_forgets|]. destruct (_ || _); [done|].
  destruct Hi as [Hwf Hb]. split; [by apply touch_grant_wf|].
  unfold bounded in *. cbn. by rewrite size_alter.
Qed.

Lemma revoke_ids_inv ok ids s : inv s → inv (revoke_ids ok ids s).1.
Proof.
  intros Hi. unfold revoke_ids. case_bool_decide; [done|].
  destruct (commit _ _ _ _) as [s' r] eqn:Hc. commit_inv Hc; [done|].
  injection Hc as <- <-. by apply remove_grants_inv.
Qed.

Lemma revoke_grant_inv ok id s : inv s → inv (revoke_grant ok id s).1.
Proof.
  intros Hi. unfold revoke_grant. case_bool_decide; [done|].
  destruct (commit _ _ _ _) as [s' r] eqn:Hc. commit_inv Hc; [done|].
  pose proof (remove_grant_inv id s Hi). destruct (remove_grant id s). by injection Hc as <- <-.
Qed.

Lemma revoke_token_inv ok tok cid s : inv s → inv (revoke_token sha256_hex ok tok cid s).1.
Proof.
  intros Hi. unfold revoke_token. destruct (match _ <$> _ with Some _ => _ | None => _ end); [|done].
  destruct (match cid with Some _ => _ | None => _ end); [done|].
  destruct (commit _ _ _ _) as [s' r] eqn:Hc. commit_inv Hc; [done|].
  injection Hc as <- <-. by apply remove_grant_inv.
Qed.

Lemma issue_code_inv t ok c p user src granted s :
  inv s → inv (issue_code sha256_hex t ok c p user src granted s).1.
Proof.
  intros Hi. unfold issue_code. apply (prune_inv t) in Hi. case_bool_decide; [done|].
  destruct (commit _ _ _ _) as [s' r] eqn:Hc. commit_inv Hc; [done|]. injection Hc as <- <-.
  destruct Hi as [Hwf (? & ? & ? & ? & ?)]. cbn [fst]. split.
  - destruct Hwf. split; cbn; try done. intros i cl. destruct (decide (i = p_client_id p)) as [->|].
    + rewrite lookup_alter_eq, fmap_Some. intros (c0 & Hc0 & ->). cbn. eauto.
    + rewrite lookup_alter_ne by done. eauto.
  - set (ac := mk_code _ _ _ _ _ _ _ _).
    pose proof (size_insert_le (codes (prune t s)) (hash "code" c) ac).
    split_and!; cbn in *; try lia. by rewrite size_alter.
Qed.

(** ** Token requests, phase by phase *)

(** The grants of [s'] are grants of [s], rotated or touched at most. *)
Definition older (s s' : Inner) : Prop :=
  ∀ id g', grants s' !! id = Some g' → ∃ g, grants s !! id = Some g ∧ same_approval g g'.

Lemma same_approval_refl g : same_approval g g.
Proof. by split_and!. Qed.

Lemma shrinks_older s s' : shrinks s s' → older s s'.
Proof.
  intros Hs id g Hg. exists g. split; [|apply same_approval_refl].
  eapply lookup_weaken; [done|apply Hs].
Qed.

Lemma older_trans s1 s2 s3 : older s1 s2 → older s2 s3 → older s1 s3.
Proof.
  intros H12 H23 id g3 (g2 & (g1 & Hg1 & S12)%H12 & S23)%H23. exists g1. split; [done|].
  destruct S12 as (?&?&?&?&?&?&?&?), S23 as (?&?&?&?&?&?&?&?). split_and!; congruence.
Qed.

(** What every step but the issue of a code does. *)
Definition tame (s s' : Inner) : Prop := inv s' ∧ codes s' ⊆ codes s.

Lemma exchange_phase1_tame t ok c cid uri v rs s s' r :
  exchange_phase1 sha256_hex sha256_b64url t ok c cid uri v rs s = (s', r) → inv s →
  tame s s' ∧ older s s' ∧ codes s' !! hash "code" c = None.
Proof.
  intros He Hi. unfold exchange_phase1 in He. pose proof (prune_shrinks t s) as Hp.
  apply (prune_inv t) in Hi. destruct (codes (prune t s) !! _) as [ac|] eqn:Hc.
  - injection He as <- <-. set (s1 := set_codes _ _).
    assert (forgets (prune t s) s1) as Hf by solve_forgets.
    assert (shrinks s s1) as Hs by (etrans; [done|by apply forgets_shrinks]).
    split_and!; [split; [by eapply forgets_inv|apply Hs]|by apply shrinks_older|].
    cbn. apply lookup_delete_eq.
  - set (s1 := match used_codes _ !! _ with Some _ => _ | None => _ end) in He. injection He as <- <-.
    assert (s1 = prune t s ∨ ∃ id, s1 = (remove_grant id (prune t s)).2) as Hs1.
    { unfold s1. destruct (used_codes _ !! _) as [[id ?]|]; [|by left].
      destruct (commit _ _ _ _) as [s2 r2] eqn:Hcm. commit_inv Hcm; [by left|]. right. exists id.
      destruct (remove_grant id _). cbn. by injection Hcm as _ ->. }
    destruct Hs1 as [->|[id ->]].
    + split_and!; [split; [done|apply Hp]|by apply shrinks_older|done].
    + pose proof (remove_grant_shrinks id (prune t s)) as Hr.
      assert (shrinks s (remove_grant id (prune t s)).2) as Hs by (by etrans).
      split_and!; [split; [by apply remove_grant_inv|apply Hs]|by apply shrinks_older|].
      destruct (remove_grant_others id (prune t s)) as (_ & -> & _). done.
Qed.

(** The random values are new: no grant has the id, no token has the hash. *)
Definition unused (d : Draw) (s : Inner) : Prop :=
  grants s !! dr_grant_id d = None ∧ refresh_index s !! hash "refresh" (dr_refresh d) = None ∧
  retired_index s !! hash "refresh" (dr_refresh d) = None.

Lemma exchange_phase3_tame t ok c cid ac auth scopes d s s' r :
  exchange_phase3 sha256_hex t ok c cid ac auth scopes d s = (s', r) → inv s → unused d s →
  tame s s' ∧ ∀ id, id ≠ dr_grant_id d → grants s' !! id = grants s !! id.
Proof.
  intros He [Hwf Hb] (Hid & Hr & Ht). unfold exchange_phase3 in He.
  destruct (clients s !! cid) as [cl|]; [|by injection He as <- <-].
  do 2 (case_bool_decide; [by injection He as <- <-|]).
  set (g := mk_grant _ _ _ _ _ _ _ _ _ _ _ _ _ _) in He.
  destruct (commit _ _ _ _) as [s1 r1] eqn:Hc. injection He as <- <-.
  commit_inv Hc; [done|]. injection Hc as <- <-.
  set (s1 := set_grants _ _).
  assert (s1 = issue_access (hash "access" (dr_access d)) g (g_scopes g) t
    (set_used_codes <[hash "code" c := (g_id g, t + USED_CODE_MEMORY_SECS)]>
      (set_grants <[g_id g := g]> (set_refresh_index <[g_refresh_hash g := g_id g]> s)))) as -> by done.
  split; [split; [split|done]|intros id Hne; cbn; by rewrite lookup_insert_ne].
  - apply issue_access_wf; [|apply lookup_insert_eq|done].
    assert (wf (set_grants <[g_id g := g]> (set_refresh_index <[g_refresh_hash g := g_id g]> s))) as [].
    { apply add_grant_wf; try done. split_and!; [apply normalize_scopes_sub|cbn; lia|].
      cbn. unfold GRANT_MAX_LIFETIME_SECS, REFRESH_TTL_SECS. lia. }
    split; done.
  - destruct Hb as (? & ? & ? & ? & ?). unfold bounded. cbn.
    pose proof (size_insert_le (grants s) (dr_grant_id d) g).
    match goal with |- context [size (<[?k := ?a]> (access s))] =>
      pose proof (size_insert_le (access s) k a) end.
    lia.
Qed.

Lemma refresh_phase1_tame t ok tok cid rs s s' r :
  refresh_phase1 sha256_hex t ok tok cid rs s = (s', r) → inv s →
  tame s s' ∧ older s s' ∧ ∀ g, r = Ok g → grants s' !! g_id g = Some g.
Proof.
  intros He Hi. unfold refresh_phase1 in He. pose proof (prune_shrinks t s) as Hp.
  apply (prune_inv t) in Hi.
  assert (tame s (prune t s) ∧ older s (prune t s)) as Hbase.
  { split; [split; [done|apply Hp]|by apply shrinks_older]. }
  assert (∀ (x : res TokenError Grant) g (c1 c2 : Grant → bool) e1 e2,
    (g0 ← x; guard_err (c1 g0) e1;; guard_err (c2 g0) e2;; Ok g0) = Ok g → x = Ok g) as Hchk.
  { intros x g c1 c2 e1 e2 Hg. by inv_res. }
  destruct (retired_index (prune t s) !! _) as [id|].
  - destruct (grants (prune t s) !! id ≫= _) as [g|] eqn:Hretry.
    + injection He as <- <-. split_and!; [apply Hbase..|]. intros g' Hg'. inv_res.
      apply bind_Some in Hretry as (g1 & Hg1 & Hif). destruct (_ && _); [|done]. injection Hif as <-.
      by rewrite (wf_keyed _ (proj1 Hi) id g1 Hg1).
    + destruct (commit _ _ _ _) as [s1 r1] eqn:Hc. injection He as <- <-. commit_inv Hc.
      * split_and!; [apply Hbase..|]. intros g Hg%Hchk. by destruct r1.
      * destruct (remove_grant id _) as [o s2] eqn:Hr. injection Hc as -> <-.
        pose proof (remove_grant_shrinks id (prune t s)) as Hs. rewrite Hr in Hs.
        pose proof (remove_grant_inv id _ Hi) as Hi2. rewrite Hr in Hi2. cbn in *.
        assert (shrinks s s2) by (by etrans).
        split_and!; [split; [done|by apply sh_codes]|by apply shrinks_older|done].
  - injection He as <- <-. split_and!; [apply Hbase..|]. intros g Hg%Hchk%ok_or_Ok.
    apply bind_Some in Hg as (id & _ & Hid).
    by rewrite (wf_keyed _ (proj1 Hi) id _ Hid).
Qed.

(** A grant read in phase 1 still describes what is stored under its id. *)
Definition current (g : Grant) (s : Inner) : Prop :=
  ∀ g', grants s !! g_id g = Some g' → same_approval g g'.

Lemma refresh_phase3_tame t ok g req auth d s s' r :
  refresh_phase3 sha256_hex t ok g req auth d s = (s', r) → inv s → unused d s → current g s →
  tame s s' ∧ older s s'.
Proof.
  intros He Hi (_ & Hr & Ht) Hcur. unfold refresh_phase3 in He.
  assert (tame s s ∧ older s s) as Hbase.
  { split; [by split|]. intros id g' Hg'. exists g'. split; [done|apply same_approval_refl]. }
  case_bool_decide as Hidx; [by injection He as <- <-|].
  destruct auth as [auth|]; [|by injection He as <- <-]. case_bool_decide.
  { destruct (commit _ _ _ _) as [s1 r1] eqn:Hc. injection He as <- <-. commit_inv Hc; [done|].
    destruct (remove_grant _ _) as [o s2] eqn:Hrm. injection Hc as -> <-.
    pose proof (remove_grant_shrinks (g_id g) s) as Hs. rewrite Hrm in Hs.
    pose proof (remove_grant_inv (g_id g) s Hi) as Hi2. rewrite Hrm in Hi2.
    split; [split; [done|apply Hs]|by apply shrinks_older]. }
  destruct (mbind _ _) as [scopes|e|] eqn:Hchk; [|by injection He as <- <-..].
  destruct (commit _ _ _ _) as [s1 r1] eqn:Hc. injection He as <- <-. commit_inv Hc; [done|].
  inv_res. rename x0 into g1, H1 into Hg1, x into base. bool_props.
  set (scopes := normalize_scopes _) in *.
  destruct Hi as [Hwf Hb]. pose proof (Hcur g1 Hg1) as Hsame.
  assert (scopes ⊆ g_scopes g1) as Hsub.
  { destruct Hsame as (_&_&_&_&<-&_). assert (base ⊆ g_scopes g) as Hbase'.
    { destruct req as [req|]; inv_res; [|done]. intros y Hy. apply dec_stable. intros Hn.
      match goal with H : existsb _ _ = false |- _ => apply not_true_iff_false in H; apply H end.
      apply existsb_exists. exists y. rewrite <- list_elem_of_In, bool_decide_eq_true. done. }
    intros y [_ [Hy _]%elem_of_retain]%elem_of_normalize. auto. }
  set (g2 := rotate _ _ g1).
  pose proof (rotate_wf t _ (g_id g) g1 s Hwf Hg1 Hr Ht) as Hwf2. fold g2 in Hwf2.
  split; [split; [split|]|].
  - apply issue_access_wf; [done| |done]. rewrite rebuild_indexes_eq. cbn.
    rewrite (wf_keyed s Hwf _ _ Hg1). apply lookup_insert_eq.
  - unfold issue_access. rewrite rebuild_indexes_eq. unfold bounded in *. cbn.
    rewrite map_size_insert_Some by eauto.
    match goal with |- context [size (<[?k := ?a]> (access s))] =>
      pose proof (size_insert_le (access s) k a) end. lia.
  - unfold issue_access. by rewrite rebuild_indexes_eq.
  - unfold issue_access. rewrite rebuild_indexes_eq. intros id g'. cbn.
    intros [[<- <-]|[? Hg']]%lookup_insert_Some.
    + exists g1. split; [done|apply rotate_same].
    + exists g'. split; [done|apply same_approval_refl].
Qed.

(** ** The server as a transition system

    A configuration is the store, the codes redeemed and the grants read by
    requests now between their locked phases, and the hashes of all the codes
    ever issued.  Random values are new. *)
Record Config := mk_config {
  store : Inner;
  redeeming : list (string * string * AuthCode);
  rotating : list Grant;
  issued : gset string
}.

Inductive op_step (s : Inner) : Inner → Prop :=
| op_register t ok id name uris from :
    op_step s (register_client url_parse t ok id name uris from s).1
| op_list_clients t : op_step s (list_clients t s).1
| op_delete_client ok id : op_step s (delete_client ok id s).1
| op_begin_pending t id p : op_step s (begin_pending t id p s).1
| op_peek_pending t id : op_step s (peek_pending t id s).1
| op_take_pending t id : op_step s (take_pending t id s).1
| op_validate_access t tok rs : op_step s (validate_access sha256_hex t tok rs s).1
| op_revoke_token ok tok cid : op_step s (revoke_token sha256_hex ok tok cid s).1
| op_revoke_grant ok id : op_step s (revoke_grant ok id s).1
| op_revoke_user ok user : op_step s (revoke_user ok user s).1
| op_revoke_all ok : op_step s (revoke_all ok s).1
| op_list_grants t : op_step s (list_grants t s).1.

Inductive step (c : Config) : Config → Prop :=
| step_op s' : op_step (store c) s' →
    step c (mk_config s' (redeeming c) (rotating c) (issued c))
| step_issue t ok code p user src granted : hash "code" code ∉ issued c →
    step c (mk_config (issue_code sha256_hex t ok code p user src granted (store c)).1
              (redeeming c) (rotating c) ({[hash "code" code]} ∪ issued c))
| step_exchange1 t ok code cid uri v rs s' r :
    exchange_phase1 sha256_hex sha256_b64url t ok code cid uri v rs (store c) = (s', r) →
    step c (mk_config s' (if r is Ok ac then (code, cid, ac) :: redeeming c else redeeming c)
              (rotating c) (issued c))
| step_exchange3 t ok code cid ac l1 l2 authority auth scopes d s' r :
    redeeming c = l1 ++ (code, cid, ac) :: l2 →
    exchange_phase2 ac authority = Ok (auth, scopes) →
    unused d (store c) → Forall (λ g, g_id g ≠ dr_grant_id d) (rotating c) →
    exchange_phase3 sha256_hex t ok code cid ac auth scopes d (store c) = (s', r) →
    step c (mk_config s' (l1 ++ l2) (rotating c) (issued c))
| step_refresh1 t ok tok cid rs s' r :
    refresh_phase1 sha256_hex t ok tok cid rs (store c) = (s', r) →
    step c (mk_config s' (redeeming c) (if r is Ok g then g :: rotating c else rotating c) (issued c))
| step_refresh3 t ok g l1 l2 req auth d s' r :
    rotating c = l1 ++ g :: l2 → unused d (store c) →
    refresh_phase3 sha256_hex t ok g req auth d (store c) = (s', r) →
    step c (mk_config s' (redeeming c) (l1 ++ l2) (issued c)).

Definition initial : Config := mk_config inner_default [] [] ∅.
Definition reachable (c : Config) : Prop := rtc step initial c.

(** ** The invariant holds of every reachable configuration *)
Lemma fewer_older s s' : grants s' ⊆ grants s → older s s'.
Proof.
  intros Hg id g Hid. exists g. split; [by eapply lookup_weaken|apply same_approval_refl].
Qed.

Definition fewer (s s' : Inner) : Prop := codes s' ⊆ codes s ∧ grants s' ⊆ grants s.

Lemma shrinks_fewer s s' : shrinks s s' → fewer s s'.
Proof. intros []. by split. Qed.

#[local] Instance fewer_preorder : PreOrder fewer.
Proof. split; [by split|]. intros ??? [] []. split; by etrans. Qed.

(** A commit of a draft that has fewer codes and grants. *)
Lemma commit_fewer {R E} (from_string : string → E) ok (f : Inner → res E (R * Inner)) s :
  (∀ x d, f s = Ok (x, d) → fewer s d) → fewer s (commit from_string ok f s).1.
Proof.
  intros Hf. destruct (commit _ _ _ _) as [s' r] eqn:Hc. commit_inv Hc; [done|]. eauto.
Qed.

Lemma evict_fewer s : fewer s (evict_unapproved_client s).2.
Proof. unfold evict_unapproved_client. by destruct (min_by_key _ _). Qed.

Lemma remove_grants_fewer ids s : fewer s (remove_grants ids s).
Proof. apply shrinks_fewer, remove_grants_shrinks. Qed.

Lemma revoke_ids_fewer ok ids s : fewer s (revoke_ids ok ids s).1.
Proof.
  unfold revoke_ids. case_bool_decide; [done|]. apply commit_fewer. intros x d [= <- <-].
  apply remove_grants_fewer.
Qed.

Lemma register_client_fewer t ok id name uris from s :
  fewer s (register_client url_parse t ok id name uris from s).1.
Proof.
  unfold register_client. destruct (guard_err _ _ ≫= _); [|done..].
  etrans; [apply shrinks_fewer, (prune_shrinks t)|]. apply commit_fewer. intros x d.
  case_bool_decide; [|by intros [= <- <-]].
  pose proof (evict_fewer (prune t s)) as Hf. destruct (evict_unapproved_client _) as [[] d'];
    intros [= <- <-]. exact Hf.
Qed.

Lemma op_step_tame s s' : op_step s s' → inv s → tame s s' ∧ older s s'.
Proof.
  intros Hop Hi. pose proof (λ t, prune_inv t s Hi) as Hpi.
  pose proof (λ t, shrinks_fewer _ _ (prune_shrinks t s)) as Hpf.
  assert (∀ s', inv s' → fewer s s' → tame s s' ∧ older s s') as Hdone.
  { intros s1 Hi1 [Hc Hg]. split; [by split|by apply fewer_older]. }
  destruct Hop.
  - apply Hdone; [by apply register_client_inv|apply register_client_fewer].
  - apply Hdone; [apply Hpi|apply Hpf].
  - apply Hdone; [by apply delete_client_inv|]. apply commit_fewer. intros x d [= <- <-].
    apply (remove_grants_fewer _ (set_clients _ s)).
  - apply Hdone; [by apply begin_pending_inv|]. unfold begin_pending.
    case_match; [done|]. do 3 (case_bool_decide; [by apply Hpf|]). apply (Hpf t).
  - apply Hdone; [apply Hpi|apply Hpf].
  - apply Hdone; [by apply take_pending_inv|]. apply (Hpf t).
  - split; [split; [by apply validate_access_inv|]|]; unfold validate_access;
      destruct (access s !! _) as [a|]; try done.
    + destruct (_ <=? _); [done|]. by destruct (_ || _).
    + destruct (_ <=? _); [by apply fewer_older|]. destruct (_ || _); [by apply fewer_older|].
      intros id g'. cbn. rewrite lookup_alter_Some.
      intros [(E & g & Hg & ->)|[_ Hg]]; eexists; (split; [done|]); by split_and!.
    + by apply fewer_older.
  - apply Hdone; [by apply revoke_token_inv|]. unfold revoke_token.
    destruct (match _ <$> _ with Some _ => _ | None => _ end); [|done].
    destruct (match cid with Some _ => _ | None => _ end); [done|].
    apply commit_fewer. intros x d [= <- <-]. apply shrinks_fewer, remove_grant_shrinks.
  - apply Hdone; [by apply revoke_grant_inv|]. unfold revoke_grant. case_bool_decide; [done|].
    apply commit_fewer. intros x d. pose proof (remove_grant_shrinks id s) as Hs.
    destruct (remove_grant id s). intros [= <- <-]. by apply shrinks_fewer.
  - apply Hdone; [by apply revoke_ids_inv|apply revoke_ids_fewer].
  - apply Hdone; [by apply revoke_ids_inv|apply revoke_ids_fewer].
  - apply Hdone; [apply Hpi|apply Hpf].
Qed.

Lemma issue_code_codes t ok c p user src granted s :
  let s' := (issue_code sha256_hex t ok c p user src granted s).1 in
  older s s' ∧ ∀ h, is_Some (codes s' !! h) → h = hash "code" c ∨ is_Some (codes s !! h).
Proof.
  unfold issue_code. pose proof (prune_shrinks t s) as Hp.
  assert (∀ h, is_Some (codes (prune t s) !! h) → is_Some (codes s !! h)) as Hc.
  { intros h [x Hx]. exists x. eapply lookup_weaken; [done|apply Hp]. }
  case_bool_decide; [split; [by apply shrinks_older|auto]|].
  destruct (commit _ _ _ _) as [s' r] eqn:Hcm. commit_inv Hcm.
  { split; [by apply shrinks_older|auto]. }
  injection Hcm as <- <-. cbn. split; [by apply fewer_older, Hp|].
  intros h. destruct (decide (h = hash "code" c)) as [->|]; [auto|].
  rewrite lookup_insert_ne by done. auto.
Qed.

Definition config_inv (c : Config) : Prop :=
  inv (store c) ∧ Forall (λ g, current g (store c)) (rotating c) ∧
  ∀ h, is_Some (codes (store c) !! h) → h ∈ issued c.

Lemma current_older g s s' : current g s → older s s' → current g s'.
Proof.
  intros Hc Ho g2 (g1 & Hg1%Hc & S2)%Ho.
  destruct Hg1 as (?&?&?&?&?&?&?&?), S2 as (?&?&?&?&?&?&?&?). split_and!; congruence.
Qed.

Lemma rotating_older l s s' :
  older s s' → Forall (λ g, current g s) l → Forall (λ g, current g s') l.
Proof. intros Ho Hl. eapply Forall_impl; [exact Hl|]. intros g Hg. by apply (current_older g s). Qed.

Lemma codes_weaken s s' (i : gset string) :
  codes s' ⊆ codes s → (∀ h, is_Some (codes s !! h) → h ∈ i) →
  ∀ h, is_Some (codes s' !! h) → h ∈ i.
Proof. intros Hc Hi h [x Hx]. apply Hi. exists x. by eapply lookup_weaken. Qed.

Lemma step_inv c c' : step c c' → config_inv c → config_inv c'.
Proof.
  intros Hstep (Hi & Hrot & Hco). destruct Hstep.
  - destruct (op_step_tame _ _ H Hi) as [[Hi' Hc] Ho]. split_and!; cbn; [done|..].
    + by eapply rotating_older.
    + by eapply codes_weaken.
  - destruct (issue_code_codes t ok code p user src granted (store c)) as [Ho Hc].
    split_and!; cbn; [by apply issue_code_inv|by eapply rotating_older|].
    intros h [->|Hh%Hco]%Hc; set_solver.
  - destruct (exchange_phase1_tame _ _ _ _ _ _ _ _ _ _ H Hi) as ([Hi' Hc] & Ho & _).
    split_and!; cbn; [done|by eapply rotating_older|by eapply codes_weaken].
  - destruct (exchange_phase3_tame _ _ _ _ _ _ _ _ _ _ _ H3 Hi H1) as ([Hi' Hc] & Hsame).
    split_and!; cbn; [done| |by eapply codes_weaken].
    apply Forall_forall. intros g Hg g' Hg'. rewrite Forall_forall in H2, Hrot.
    apply (Hrot g Hg). rewrite <- Hsame; [done|]. by apply H2.
  - destruct (refresh_phase1_tame _ _ _ _ _ _ _ _ H Hi) as ([Hi' Hc] & Ho & Hcur).
    split_and!; cbn; [done| |by eapply codes_weaken].
    assert (Forall (λ g, current g s') (rotating c)) by by eapply rotating_older.
    destruct r as [g| |]; [constructor; [|done]|done..].
    intros g' Hg'. rewrite (Hcur g eq_refl) in Hg'. injection Hg' as <-. apply same_approval_refl.
  - assert (current g (store c) ∧ Forall (λ g, current g (store c)) (l1 ++ l2)) as [Hg Hl].
    { rewrite H in Hrot. apply Forall_app in Hrot as [? [? ?]%Forall_cons]. split; [done|by apply Forall_app_2]. }
    destruct (refresh_phase3_tame _ _ _ _ _ _ _ _ _ H1 Hi H0 Hg) as ([Hi' Hc] & Ho).
    split_and!; cbn; [done|by eapply rotating_older|by eapply codes_weaken].
Qed.

Lemma initial_inv : config_inv initial.
Proof.
  split_and!; [split|constructor|by intros h []]. 2: { repeat split; cbn; rewrite map_size_empty; lia. }
  split; cbn; try done; try (intros h id; split; [done|by intros (? & ? & ?)]). by left.
Qed.

Lemma steps_inv c c' : rtc step c c' → config_inv c → config_inv c'.
Proof. induction 1; eauto using step_inv. Qed.

Lemma reachable_inv c : reachable c → config_inv c.
Proof. intros Hr. eapply steps_inv; [done|apply initial_inv]. Qed.

(** A code that is no longer stored stays that way. *)
Definition spent (h : string) (c : Config) : Prop := codes (store c) !! h = None ∧ h ∈ issued c.

Lemma spent_step h c c' : step c c' → config_inv c → spent h c → spent h c'.
Proof.
  intros Hstep Hci [Hn Hin]. pose proof Hci as (Hi & Hrot & Hco).
  assert (∀ s' : Inner, codes s' ⊆ codes (store c) → codes s' !! h = None) as Hsub.
  { intros s' Hs. by eapply lookup_weaken_None. }
  destruct Hstep; (split; [cbn|done || set_solver]).
  - apply Hsub. apply (op_step_tame _ _ H Hi).
  - destruct (issue_code_codes t ok code p user src granted (store c)) as [_ Hc].
    apply eq_None_not_Some. intros [->|Hs]%Hc; [done|]. rewrite Hn in Hs. by destruct Hs.
  - apply Hsub. by eapply (exchange_phase1_tame _ _ _ _ _ _ _ _ _ _ H Hi).
  - apply Hsub. by eapply (exchange_phase3_tame _ _ _ _ _ _ _ _ _ _ _ H3 Hi H1).
  - apply Hsub. by eapply (refresh_phase1_tame _ _ _ _ _ _ _ _ H Hi).
  - apply Hsub. rewrite H in Hrot. apply Forall_app in Hrot as [_ [Hg _]%Forall_cons].
    by eapply (refresh_phase3_tame _ _ _ _ _ _ _ _ _ H1 Hi H0 Hg).
Qed.

Lemma spent_steps h c c' : rtc step c c' → config_inv c → spent h c → spent h c'.
Proof. induction 1; eauto using step_inv, spent_step. Qed.
End Safety.
