(* ===== verification/OAuthProps.v ===== *)
(** * Properties of the OAuth server (src/src/mcp/oauth.rs)

    Each is stated for any hash functions and any map order; the witnesses
    run a concrete server: a client registers, a user approves, the client
    redeems the code and refreshes. *)
From S2P Require Import Prelude OAuth OAuthInv OAuthSafety.

(** ** A concrete run *)
#[local] Instance grant_order : HashOrder Grant := canonical_order Grant.
#[local] Instance client_order : HashOrder Client := canonical_order Client.

Definition demo_parse (_ : ustring) : option Url :=
  Some (mk_url None "" None (Some "localhost") "http").
Definition demo_hex (s : string) : string := s.
Definition demo_b64 (s : string) : string := s.
Definition demo_verifier : string := "aaaaaaaaaaaaaaaaaaaaaaaaaaaaaaaaaaaaaaaaaaa".
Definition demo_pending : PendingAuth :=
  mk_pending "c1" [] [104; 116] None demo_verifier ["read"; "logs"] "https://h/mcp" 1000 [].
Definition demo_authority (_ : string) (_ : AuthSource) : option UserAuthority :=
  Some (mk_authority ["read"] "fp").
Definition demo_draw (n : string) : Draw := mk_draw ("r" +:+ n) ("g" +:+ n) ("a" +:+ n).

Definition demo1 : Inner :=
  (register_client demo_parse 1000 true "c1" None [[104; 116]] [] inner_default).1.
Definition demo2 : Inner :=
  (issue_code demo_hex 1010 true "k1" demo_pending "alice" WolfStack ["logs"; "read"] demo1).1.
Definition demo3 : Inner :=
  (exchange_phase1 demo_hex demo_b64 1020 true "k1" "c1" [104; 116] demo_verifier None demo2).1.
Definition demo_code : AuthCode :=
  mk_code "c1" [104; 116] demo_verifier ["read"; "logs"] "https://h/mcp" "alice" WolfStack 1070.
Definition demo4 : Inner :=
  (exchange_phase3 demo_hex 1020 true "k1" "c1" demo_code (mk_authority ["read"] "fp") ["read"]
     (demo_draw "1") demo3).1.
(** The token is refreshed at 1100. *)
Definition demo5 : Inner :=
  (refresh demo_hex 1100 true "r1" "c1" None None demo_authority (demo_draw "2") demo4).1.

Definition demo_issued : gset string := {[secret_hash demo_hex "code" "k1"]} ∪ ∅.
Definition demo_config2 : Config := mk_config demo2 [] [] demo_issued.
Definition demo_config4 : Config := mk_config demo4 [] [] demo_issued.

Lemma demo_reachable2 : reachable demo_hex demo_b64 demo_parse demo_config2.
Proof.
  eapply rtc_l; [apply step_op; eapply (op_register _ _ _ 1000 true "c1" None [[104; 116]] [])|].
  apply rtc_once. apply (step_issue _ _ _ (mk_config demo1 [] [] ∅) 1010 true "k1" demo_pending
    "alice" WolfStack ["logs"; "read"]). cbn. set_solver.
Qed.

Lemma demo_step3 : step demo_hex demo_b64 demo_parse demo_config2
  (mk_config demo3 [("k1", "c1", demo_code)] [] demo_issued).
Proof.
  eapply (step_exchange1 _ _ _ demo_config2 1020 true "k1" "c1" [104; 116] demo_verifier None
    demo3 (Ok demo_code)). vm_compute. reflexivity.
Qed.

Lemma demo_reachable4 : reachable demo_hex demo_b64 demo_parse demo_config4.
Proof.
  eapply rtc_r; [eapply rtc_r; [apply demo_reachable2|apply demo_step3]|].
  eapply (step_exchange3 _ _ _ (mk_config demo3 [("k1", "c1", demo_code)] [] demo_issued)
    1020 true "k1" "c1" demo_code [] [] (demo_authority "" Linux) (mk_authority ["read"] "fp")
    ["read"] (demo_draw "1") demo4); [done|vm_compute; reflexivity|repeat split; vm_compute; reflexivity|
    constructor|vm_compute; reflexivity].
Qed.

Definition demo_grant : Grant :=
  mk_grant "g1" "c1" (sanitize_client_name None) "alice" WolfStack ["read"] "https://h/mcp" 1020
    1020 (secret_hash demo_hex "refresh" "r1") 2593020 [] 1020 "fp".

Lemma demo5_inv : inv demo5.
Proof.
  assert (refresh_phase3 demo_hex 1100 true demo_grant None (demo_authority "" Linux) (demo_draw "2")
    (prune 1100 demo4) = (demo5, Ok (mk_tokens "a2" "Bearer" 900 "r2" "read"))) as E by (vm_compute; reflexivity).
  assert (grants (prune 1100 demo4) !! "g1" = Some demo_grant) as Hg by (vm_compute; reflexivity).
  destruct (refresh_phase3_tame _ _ _ _ _ _ _ _ _ _ E) as [[Hi _] _]; [| | |exact Hi].
  - apply prune_inv. exact (proj1 (reachable_inv _ _ _ _ demo_reachable4)).
  - split_and!; vm_compute; reflexivity.
  - intros g Hg'. change (g_id demo_grant) with "g1" in Hg'. rewrite Hg in Hg'. injection Hg' as <-.
    by split_and!.
Qed.

Definition demo_grant5 : Grant := rotate 1100 (secret_hash demo_hex "refresh" "r2") demo_grant.

Lemma demo5_grant : grants demo5 !! "g1" = Some demo_grant5.
Proof. vm_compute. reflexivity. Qed.

Lemma demo_retired : secret_hash demo_hex "refresh" "r1" ∈ g_retired_refresh_hashes demo_grant5.
Proof. by apply list_elem_of_singleton. Qed.

Lemma demo_grace : REFRESH_RETRY_GRACE_SECS < 1111 - g_last_rotated_at demo_grant5.
Proof. by vm_compute. Qed.

(** The hash rotated out is kept among the retired ones. *)
Lemma rotate_retires t nh g : g_refresh_hash g ∈ g_retired_refresh_hashes (rotate t nh g).
Proof.
  cbn. rewrite length_app. cbn. rewrite drop_app_le by (unfold RETIRED_REFRESH_KEEP; lia).
  set_solver.
Qed.

Section Props.
Context `{!HashOrder Grant} `{!HashOrder Client}.
Context (sha256_hex sha256_b64url : string → string) (url_parse : ustring → option Url).
Abbreviation hash := (secret_hash sha256_hex).

(** ** Refreshing *)

(** What phase 1 finds for a token, in a well-formed store. *)
Lemma refresh_phase1_retired t ok tok cid rs s id g :
  inv s → grants s !! id = Some g → t < g_refresh_expires_at g →
  hash "refresh" tok ∈ g_retired_refresh_hashes g →
  refresh_phase1 sha256_hex t ok tok cid rs s =
  if bool_decide (last (g_retired_refresh_hashes g) = Some (hash "refresh" tok))
     && (t - g_last_rotated_at g <=? REFRESH_RETRY_GRACE_SECS)
  then (prune t s,
        guard_err (bool_decide (g_client_id g ≠ cid))
          (InvalidGrant "refresh token was issued to a different client");;
        guard_err (if rs is Some r then bool_decide (r ≠ g_resource g) else false)
          (InvalidTarget "resource does not match the grant");;
        Ok g)
  else if ok then ((remove_grant id (prune t s)).2,
                   Err (InvalidGrant "refresh token was already used; the grant has been revoked"))
  else (prune t s, Err (ServerError "write failed")).
Proof.
  intros [Hwf _] Hg Ht Hin. unfold refresh_phase1.
  assert (retired_index (prune t s) !! hash "refresh" tok = Some id) as ->.
  { apply (prune_indexes t s); eauto. }
  assert (grants (prune t s) !! id = Some g) as Hg' by by apply prune_grants.
  rewrite Hg'. cbn [mbind option_bind]. destruct (_ && _); [done|].
  unfold commit. destruct (remove_grant id (prune t s)) as [o d]. by destruct ok.
Qed.

Lemma refresh_phase1_current t ok tok cid rs s id g :
  inv s → grants s !! id = Some g → t < g_refresh_expires_at g →
  hash "refresh" tok = g_refresh_hash g →
  refresh_phase1 sha256_hex t ok tok cid rs s =
    (prune t s,
     guard_err (bool_decide (g_client_id g ≠ cid))
       (InvalidGrant "refresh token was issued to a different client");;
     guard_err (if rs is Some r then bool_decide (r ≠ g_resource g) else false)
       (InvalidTarget "resource does not match the grant");;
     Ok g).
Proof.
  intros [Hwf _] Hg Ht Hh. unfold refresh_phase1.
  assert (refresh_index (prune t s) !! hash "refresh" tok = Some id) as Hi.
  { apply (prune_indexes t s); eauto. }
  destruct (wf_disjoint _ (prune_wf t s Hwf) (hash "refresh" tok)) as [E|E]; [congruence|].
  rewrite E, Hi. cbn [mbind option_bind].
  assert (grants (prune t s) !! id = Some g) as -> by by apply prune_grants. done.
Qed.

Lemma refresh_phase3_ok t g auth d scopes s :
  scopes = normalize_scopes
    (retain (λ x, bool_decide (x ∈ ua_allowed_scopes auth)) (g_scopes g)) →
  wf s → grants s !! g_id g = Some g → ua_credential_fp auth = g_credential_fp g → scopes ≠ [] →
  (size (access s) < MAX_ACCESS_TOKENS)%nat →
  refresh_phase3 sha256_hex t true g None (Some auth) d s =
    (issue_access (hash "access" (dr_access d)) (rotate t (hash "refresh" (dr_refresh d)) g) scopes t
       (rebuild_indexes (set_grants <[g_id g := rotate t (hash "refresh" (dr_refresh d)) g]> s)),
     Ok (mk_tokens (dr_access d) "Bearer" ACCESS_TTL_SECS (dr_refresh d) (scopes_string scopes))).
Proof.
  intros Hsc Hwf Hg Hfp Hne Hsize. unfold refresh_phase3.
  assert (refresh_index s !! g_refresh_hash g = Some (g_id g)) as -> by (apply wf_refresh; eauto).
  rewrite bool_decide_false by tauto. rewrite bool_decide_false by tauto.
  rewrite bind_ret, <- Hsc. rewrite (bool_decide_false (scopes = [])) by done.
  rewrite guard_pass. rewrite (bool_decide_false (_ ≤ _)%nat) by by apply Nat.lt_nge.
  rewrite guard_pass. unfold commit. by rewrite Hg.
Qed.

(** What a removed grant leaves behind: nothing. *)
Lemma removed_grant_gone id s :
  wf s →
  let s' := (remove_grant id s).2 in
  grants s' !! id = None ∧ (∀ h a, access s' !! h = Some a → a_grant_id a ≠ id) ∧
  (∀ h, refresh_index s' !! h ≠ Some id) ∧ (∀ h, retired_index s' !! h ≠ Some id).
Proof.
  intros Hwf. cbn. pose proof (remove_grant_wf_any id s Hwf) as Hwf'.
  assert (grants (remove_grant id s).2 !! id = None) as Hn
    by (rewrite remove_grant_grants; apply lookup_delete_eq).
  split_and!; [done| | |].
  - intros h a Ha. by apply remove_grant_access in Ha as [_ ?].
  - intros h (g & Hg & _)%wf_refresh; [congruence|done].
  - intros h (g & Hg & _)%wf_retired; [congruence|done].
Qed.
End Props.

(** ** Properties *)

(** C27: The store is sound in every reachable configuration, under any
    interleaving of requests at their unlocked phase, any clock, any disk
    failure and any map order: the refresh indexes are exactly the inverse of
    the grants' current and retired hashes and are disjoint, every access
    token belongs to a live grant and carries at most its scopes, every grant
    has known scopes, at most twenty retired hashes and at most ninety days,
    and the pools stay within their caps. *)
Theorem oauth_invariant `{!HashOrder Grant} `{!HashOrder Client} hex b64 parse c :
  reachable hex b64 parse c → wf (store c) ∧ bounded (store c).
Proof. intros Hr. by apply (reachable_inv hex b64 parse c Hr). Qed.

Lemma oauth_invariant_witness : wf demo4 ∧ bounded demo4.
Proof. apply (oauth_invariant demo_hex demo_b64 demo_parse demo_config4 demo_reachable4). Defined.

(** C28: An authorization code is good for one presentation. Once a code has
    been presented, rightly or wrongly, every later presentation is refused,
    whatever happens in between. *)
Theorem code_single_use `{!HashOrder Grant} `{!HashOrder Client} hex b64 parse
    c t ok code cid uri v rs s1 r c2 :
  reachable hex b64 parse c → secret_hash hex "code" code ∈ issued c →
  exchange_phase1 hex b64 t ok code cid uri v rs (store c) = (s1, r) →
  rtc (step hex b64 parse)
    (mk_config s1 (if r is Ok ac then (code, cid, ac) :: redeeming c else redeeming c)
       (rotating c) (issued c)) c2 →
  ∀ t' ok' cid' uri' v' rs',
    (exchange_phase1 hex b64 t' ok' code cid' uri' v' rs' (store c2)).2
    = Err (InvalidGrant "authorization code is invalid, expired or already used").
Proof.
  intros Hr Hin He Hsteps t' ok' cid' uri' v' rs'.
  pose proof (reachable_inv _ _ _ _ Hr) as Hci.
  pose proof (step_inv hex b64 parse _ _ (step_exchange1 hex b64 parse _ _ _ _ _ _ _ _ _ _ He) Hci) as Hci1.
  edestruct exchange_phase1_tame as (_ & _ & Hn); [exact He|apply Hci|].
  destruct (spent_steps hex b64 parse _ _ _ Hsteps Hci1 (conj Hn Hin)) as [Hn2 _].
  unfold exchange_phase1. rewrite prune_codes.
  destruct (map_retain _ _ !! _) eqn:E; [|done]. apply map_retain_lookup in E as [E _]. congruence.
Qed.

Lemma code_single_use_witness :
  (exchange_phase1 demo_hex demo_b64 1030 true "k1" "c1" [104; 116] demo_verifier None demo4).2
  = Err (InvalidGrant "authorization code is invalid, expired or already used").
Proof.
  apply (code_single_use demo_hex demo_b64 demo_parse demo_config2 1020 true "k1" "c1" [104; 116]
    demo_verifier None demo3 (Ok demo_code) demo_config4 demo_reachable2).
  - set_solver.
  - vm_compute. reflexivity.
  - apply rtc_once.
    apply (step_exchange3 _ _ _ (mk_config demo3 [("k1", "c1", demo_code)] [] demo_issued)
      1020 true "k1" "c1" demo_code [] [] (demo_authority "" Linux) (mk_authority ["read"] "fp")
      ["read"] (demo_draw "1") demo4 (Ok (mk_tokens "a1" "Bearer" 900 "r1" "read")));
      [done|vm_compute; reflexivity|repeat split; vm_compute; reflexivity|constructor|
       vm_compute; reflexivity].
Defined.

(** C35: A token that validates is what a user approved: it is unexpired, was
    issued for exactly the resource asked, and its grant is alive, belongs to
    the same client and user, and was approved with at least its scopes. *)
Theorem token_confinement `{!HashOrder Grant} `{!HashOrder Client} hex b64 parse c t tok rs s' a :
  reachable hex b64 parse c → validate_access hex t tok rs (store c) = (s', Some a) →
  a_resource a = rs ∧ t < a_expires_at a ∧
  ∃ g, grants (store c) !! a_grant_id a = Some g ∧ token_of g a ∧ grant_ok g.
Proof.
  intros Hr Hv. destruct (reachable_inv _ _ _ _ Hr) as [[Hwf _] _]. unfold validate_access in Hv.
  destruct (access (store c) !! _) as [a'|] eqn:Ha; [|done].
  destruct (_ <=? _) eqn:Ht; [done|]. destruct (_ || _) eqn:Hd; [done|].
  injection Hv as <- ->. bool_props. apply dec_stable in H.
  destruct (wf_access _ Hwf _ _ Ha) as (g & Hg & Htok). split_and!; [done|lia|].
  exists g. split_and!; [done..|]. by eapply wf_grants.
Qed.

Lemma token_confinement_witness :
  ∃ s' a, validate_access demo_hex 1200 "a1" "https://h/mcp" demo4 = (s', Some a) ∧
  a_resource a = "https://h/mcp" ∧ 1200 < a_expires_at a ∧
  ∃ g, grants demo4 !! a_grant_id a = Some g ∧ token_of g a ∧ grant_ok g.
Proof.
  eexists _, _. split; [vm_compute; reflexivity|].
  eapply (token_confinement demo_hex demo_b64 demo_parse demo_config4 1200 "a1" "https://h/mcp" _ _
    demo_reachable4). vm_compute. reflexivity.
Defined.

(** Reuse of a rotated refresh token revokes the grant. When a token that
    was rotated away is presented again, and it is not the last one retired
    within the ten-second grace, the request is refused and the grant is gone:
    no refresh token leads to it and no access token of it is left. *)
Theorem retired_refresh_revokes `{!HashOrder Grant} `{!HashOrder Client} hex
    s id g t tok cid rs req authority d s' r :
  wf s → bounded s → grants s !! id = Some g → t < g_refresh_expires_at g →
  secret_hash hex "refresh" tok ∈ g_retired_refresh_hashes g →
  last (g_retired_refresh_hashes g) ≠ Some (secret_hash hex "refresh" tok) ∨
    REFRESH_RETRY_GRACE_SECS < t - g_last_rotated_at g →
  refresh hex t true tok cid rs req authority d s = (s', r) →
  r = Err (InvalidGrant "refresh token was already used; the grant has been revoked") ∧
  grants s' !! id = None ∧ (∀ h a, access s' !! h = Some a → a_grant_id a ≠ id) ∧
  (∀ h, refresh_index s' !! h ≠ Some id) ∧ (∀ h, retired_index s' !! h ≠ Some id).
Proof.
  intros Hwf Hb Hg Ht Hin Hnot. unfold refresh.
  rewrite (refresh_phase1_retired hex t true tok cid rs s id g) by (done || by split).
  destruct (_ && _) eqn:E; [bool_props; destruct Hnot; [done|lia]|].
  intros [= <- <-]. split; [done|]. by apply removed_grant_gone, prune_wf.
Qed.

Lemma retired_refresh_revokes_witness :
  (refresh demo_hex 1111 true "r1" "c1" None None demo_authority (demo_draw "3") demo5).2
    = Err (InvalidGrant "refresh token was already used; the grant has been revoked") ∧
  grants (refresh demo_hex 1111 true "r1" "c1" None None demo_authority (demo_draw "3") demo5).1
    !! "g1" = None.
Proof.
  destruct (refresh demo_hex 1111 true "r1" "c1" None None demo_authority (demo_draw "3") demo5)
    as [s' r] eqn:E. cbn [fst snd].
  pose proof (retired_refresh_revokes demo_hex demo5 "g1" demo_grant5 1111 "r1" "c1" None None
    demo_authority (demo_draw "3") s' r (proj1 demo5_inv) (proj2 demo5_inv) demo5_grant
    ltac:(vm_compute; reflexivity) demo_retired (or_intror demo_grace) E) as Hall.
  exact (conj (proj1 Hall) (proj1 (proj2 Hall))).
Defined.

(** A refresh rotates. A live grant's current token, or the token retired
    last less than ten seconds ago (the client that lost the answer), gives a
    new access token with the approved scopes the user may still hold, and a
    new refresh token; the grant keeps its approval, its old current hash is
    retired, and its expiry never passes ninety days from approval. *)
Theorem refresh_rotates `{!HashOrder Grant} `{!HashOrder Client} hex
    s id g t tok rs authority auth d :
  wf s → bounded s → grants s !! id = Some g → t < g_refresh_expires_at g →
  secret_hash hex "refresh" tok = g_refresh_hash g ∨
    (last (g_retired_refresh_hashes g) = Some (secret_hash hex "refresh" tok) ∧
     t - g_last_rotated_at g ≤ REFRESH_RETRY_GRACE_SECS) →
  (rs = None ∨ rs = Some (g_resource g)) →
  authority (g_username g) (g_source g) = Some auth → ua_credential_fp auth = g_credential_fp g →
  let scopes := normalize_scopes
    (retain (λ x, bool_decide (x ∈ ua_allowed_scopes auth)) (g_scopes g)) in
  scopes ≠ [] → (size (access (prune t s)) < MAX_ACCESS_TOKENS)%nat → unused hex d (prune t s) →
  ∃ s', refresh hex t true tok (g_client_id g) rs None authority d s
      = (s', Ok (mk_tokens (dr_access d) "Bearer" ACCESS_TTL_SECS (dr_refresh d) (scopes_string scopes))) ∧
    grants s' !! id = Some (rotate t (secret_hash hex "refresh" (dr_refresh d)) g) ∧
    access s' !! secret_hash hex "access" (dr_access d)
      = Some (mk_access (g_credential_fp g) id (g_client_id g) (g_username g) (g_source g)
                scopes (g_resource g) (t + ACCESS_TTL_SECS)) ∧
    retired_index s' !! g_refresh_hash g = Some id ∧ wf s' ∧
    g_refresh_expires_at (rotate t (secret_hash hex "refresh" (dr_refresh d)) g)
      ≤ g_created_at g + GRANT_MAX_LIFETIME_SECS.
Proof.
  intros Hwf Hb Hg Ht Htok Hrs Hauth Hfp scopes Hne Hsize Hun.
  assert (refresh_phase1 hex t true tok (g_client_id g) rs s = (prune t s, Ok g)) as Hp1.
  { transitivity (prune t s,
      guard_err (bool_decide (g_client_id g ≠ g_client_id g))
        (InvalidGrant "refresh token was issued to a different client");;
      guard_err (if rs is Some r then bool_decide (r ≠ g_resource g) else false)
        (InvalidTarget "resource does not match the grant");; Ok g).
    - destruct Htok as [Htok|[Hlast Hgrace]]; [by apply (refresh_phase1_current hex t true tok _ rs s id)|].
      rewrite (refresh_phase1_retired hex t true tok _ rs s id g);
        [|by split|done..|by apply last_Some_elem_of].
      by rewrite bool_decide_true, (proj2 (Z.leb_le _ _)) by done.
    - rewrite bool_decide_false by tauto. destruct Hrs as [->| ->]; [done|].
      by rewrite bool_decide_false by tauto. }
  assert (grants (prune t s) !! id = Some g) as Hg' by by apply prune_grants.
  rewrite <- (wf_keyed s Hwf id g Hg) in Hg' |- *.
  unfold refresh. rewrite Hp1, Hauth.
  rewrite (refresh_phase3_ok hex t g auth d scopes) by (done || by apply prune_wf).
  eexists. split; [done|].
  destruct Hun as (_ & Hr & Hrt). pose proof (prune_wf t s Hwf) as Hwf'.
  set (nh := secret_hash hex "refresh" (dr_refresh d)) in *.
  pose proof (rotate_wf t nh _ g _ Hwf' Hg' Hr Hrt) as Hwf2.
  set (s1 := rebuild_indexes _) in *.
  assert (grants s1 !! g_id g = Some (rotate t nh g)) as Hg1.
  { unfold s1. rewrite rebuild_indexes_eq. apply lookup_insert_eq. }
  split_and!; [done|apply lookup_insert_eq| | |cbn; lia].
  - apply (wf_retired _ Hwf2). exists (rotate t nh g). split; [done|]. apply rotate_retires.
  - apply issue_access_wf; [done|done|]. intros x [_ [? _]%elem_of_retain]%elem_of_normalize. done.
Qed.

Lemma refresh_rotates_witness :
  ∃ s', refresh demo_hex 1100 true "r1" "c1" None None demo_authority (demo_draw "2") demo4
          = (s', Ok (mk_tokens "a2" "Bearer" 900 "r2" "read")) ∧
        retired_index s' !! secret_hash demo_hex "refresh" "r1" = Some "g1" ∧ wf s'.
Proof.
  assert (grants demo4 !! "g1" = Some demo_grant) as Hg by (vm_compute; reflexivity).
  assert (unused demo_hex (demo_draw "2") (prune 1100 demo4)) as Hun
    by (split_and!; vm_compute; reflexivity).
  assert (size (access (prune 1100 demo4)) < MAX_ACCESS_TOKENS)%nat as Hsize
    by (apply Nat.leb_le; vm_compute; reflexivity).
  destruct (reachable_inv _ _ _ _ demo_reachable4) as [[Hwf Hb] _].
  destruct (refresh_rotates demo_hex demo4 "g1" demo_grant 1100 "r1" None demo_authority
    (mk_authority ["read"] "fp") (demo_draw "2") Hwf Hb Hg ltac:(vm_compute; reflexivity)
    (or_introl eq_refl) (or_introl eq_refl) eq_refl eq_refl ltac:(vm_compute; discriminate) Hsize Hun)
    as (s' & E & _ & _ & Hr & Hwf' & _).
  exists s'. exact (conj E (conj Hr Hwf')).
Defined.

(** ** A restart *)
Lemma foldl_insert_keyed {A} (key : A → string) (l : list A) (m : gmap string A) :
  (∀ k x, m !! k = Some x ↔ x ∈ l ∧ key x = k) →
  foldl (λ m x, <[key x := x]> m) (∅ : gmap string A) l = m.
Proof.
  intros Hm. assert (∀ k,
    (∀ x, foldl (λ m x, <[key x := x]> m) (∅ : gmap string A) l !! k = Some x → x ∈ l ∧ key x = k) ∧
    (∀ x, x ∈ l → key x = k → is_Some (foldl (λ m x, <[key x := x]> m) (∅ : gmap string A) l !! k))) as Hf.
  { clear Hm. intros k. induction l as [|y l [IH1 IH2]] using rev_ind; [by split; [|set_solver]|].
    rewrite foldl_app. cbn. split.
    - intros x [[<- <-]|[? H%IH1]]%lookup_insert_Some; set_solver.
    - intros x Hx <-. destruct (decide (key y = key x)) as [->|]; [by rewrite lookup_insert_eq|].
      rewrite lookup_insert_ne by done. apply (IH2 x); [set_solver|done]. }
  apply map_eq. intros k. destruct (Hf k) as [H1 H2]. apply option_eq. intros x. rewrite Hm.
  split; [apply H1|]. intros [Hin Hk]. destruct (H2 x Hin Hk) as [y Hy]. rewrite Hy.
  assert (m !! k = Some y) as Hmy by (apply Hm, H1, Hy).
  assert (m !! k = Some x) as Hmx by (by apply Hm). congruence.
Qed.

Lemma load_maps p :
  let s := foldl (λ s g, set_grants <[g_id g := g]> s)
    (foldl (λ s c, set_clients <[cl_client_id c := c]> s) inner_default (ps_clients p)) (ps_grants p) in
  s = mk_inner (foldl (λ m c, <[cl_client_id c := c]> m) ∅ (ps_clients p))
        (foldl (λ m g, <[g_id g := g]> m) ∅ (ps_grants p)) ∅ ∅ ∅ ∅ ∅ ∅.
Proof.
  assert (∀ l s, foldl (λ s c, set_clients <[cl_client_id c := c]> s) s l
    = set_clients (λ m, foldl (λ m c, <[cl_client_id c := c]> m) m l) s) as Hc.
  { induction l as [|c l IH]; intros s; [by destruct s|]. cbn. by rewrite IH. }
  assert (∀ l s, foldl (λ s g, set_grants <[g_id g := g]> s) s l
    = set_grants (λ m, foldl (λ m g, <[g_id g := g]> m) m l) s) as Hg.
  { induction l as [|c l IH]; intros s; [by destruct s|]. cbn. by rewrite IH. }
  cbn zeta. by rewrite Hg, Hc.
Qed.

Lemma snapshot_grants `{!HashOrder Grant} `{!HashOrder Client} s k g :
  wf s → grants s !! k = Some g ↔ g ∈ ps_grants (snapshot s) ∧ g_id g = k.
Proof.
  intros Hwf. cbn. rewrite merge_sort_Permutation, elem_of_grant_values. split.
  - intros Hg. by rewrite (wf_keyed s Hwf k g Hg); eauto.
  - intros [[i Hg] <-]. by rewrite (wf_keyed s Hwf i g Hg).
Qed.

Lemma snapshot_clients `{!HashOrder Grant} `{!HashOrder Client} s k c :
  wf s → clients s !! k = Some c ↔ c ∈ ps_clients (snapshot s) ∧ cl_client_id c = k.
Proof.
  intros Hwf. cbn. rewrite merge_sort_Permutation. unfold client_values. rewrite hm_iter_perm.
  rewrite list_elem_of_fmap. split.
  - intros Hc. split; [|by apply (wf_clients s Hwf)]. exists (k, c). by rewrite elem_of_map_to_list.
  - intros [([i ?] & -> & Hc%elem_of_map_to_list) <-]. cbn. by rewrite (wf_clients s Hwf i _ Hc).
Qed.

(** A restart forgets only what was in flight. Loading what [persist]
    wrote gives back the clients, the grants and both refresh indexes exactly;
    codes, access tokens and pending authorizations are gone. *)
Theorem restart_roundtrip `{!HashOrder Grant} `{!HashOrder Client} s :
  wf s →
  load (snapshot s) =
  mk_inner (clients s) (grants s) (refresh_index s) (retired_index s) ∅ ∅ ∅ ∅.
Proof.
  intros Hwf. unfold load. rewrite load_maps.
  rewrite (foldl_insert_keyed cl_client_id _ (clients s)) by (intros; by apply snapshot_clients).
  rewrite (foldl_insert_keyed g_id _ (grants s)) by (intros; by apply snapshot_grants).
  set (s0 := mk_inner _ _ _ _ _ _ _ _).
  pose proof (wf_distinct s Hwf) as Hd. change (grants s) with (grants s0) in Hd.
  pose proof (rebuild_refresh s0) as H1. pose proof (rebuild_retired s0) as H2.
  rewrite rebuild_indexes_eq in *. cbn in *. f_equal.
  - apply map_eq. intros h. apply option_eq. intros i. rewrite (H1 h i Hd). symmetry. apply (wf_refresh s Hwf).
  - apply map_eq. intros h. apply option_eq. intros i. rewrite (H2 h i Hd). symmetry. apply (wf_retired s Hwf).
Qed.

Lemma restart_roundtrip_witness :
  load (snapshot demo4) =
  mk_inner (clients demo4) (grants demo4) (refresh_index demo4) (retired_index demo4) ∅ ∅ ∅ ∅.
Proof. exact (restart_roundtrip demo4 (proj1 (proj1 (reachable_inv _ _ _ _ demo_reachable4)))). Defined.

(** A replay that arrives while the code is being redeemed goes unseen.
    The used code is recorded only when the grant is made: a second
    presentation between the two locked phases is refused, but it revokes
    nothing, and the first one still ends with a live grant and token. *)
Theorem concurrent_replay_unseen :
  let '(s1, r1) := exchange_phase1 demo_hex demo_b64 1020 true "k1" "c1" [104; 116] demo_verifier None demo2 in
  let '(s2, r2) := exchange_phase1 demo_hex demo_b64 1020 true "k1" "evil" [] "" None s1 in
  let '(s3, r3) := exchange_phase3 demo_hex 1020 true "k1" "c1" demo_code
                     (mk_authority ["read"] "fp") ["read"] (demo_draw "1") s2 in
  is_ok r1 = true ∧ is_ok r2 = false ∧ is_ok r3 = true ∧
  is_Some (grants s3 !! "g1") ∧
  is_Some (validate_access demo_hex 1021 "a1" "https://h/mcp" s3).2.
Proof. vm_compute. split_and!; eauto. Qed.
