(* ===== verification/AuthLimiter.v ===== *)
(** * Login sessions, lockouts and kernel blocks (src/src/auth/mod.rs)

    Sessions and password-reset tokens, the per-IP failure limiter with its
    hard lockouts, the guard that keeps WolfStack's own addresses out of the
    kernel's block set, and the persisted lockouts.  [Instant]s are
    nanoseconds of the monotonic clock, unix times are seconds; both are
    arguments.  Parsing and printing of an IP address ([FromStr] and
    [Display] of [std::net::IpAddr]) are parameters, and a kernel block is
    membership of a set of address strings. *)
From stdpp Require Import pretty.
From S2P Require Import Prelude Net.

(** ** Sessions *)
Definition SESSION_LIFETIME : Z := 8 * 3600 * SEC.

Record Session := mk_session { se_username : string; se_created : Z; se_read_only : bool }.
Record SessionInfo := mk_session_info { si_username : string; si_read_only : bool }.
Abbreviation SessionManager := (gmap string Session).

Definition role_is_read_only (role : string) : bool := bool_decide (role ≠ "admin").

(** [token] is the UUID drawn. *)
Definition create_session (now : Z) (token username : string) (read_only : bool)
    (m : SessionManager) : SessionManager :=
  <[token := mk_session username now read_only]> m.

Definition validate_info (now : Z) (token : string) (m : SessionManager) : option SessionInfo :=
  match m !! token with
  | Some s => if since now (se_created s) <? SESSION_LIFETIME
              then Some (mk_session_info (se_username s) (se_read_only s)) else None
  | None => None
  end.

Definition validate (now : Z) (token : string) (m : SessionManager) : option string :=
  si_username <$> validate_info now token m.

Definition destroy (token : string) (m : SessionManager) : SessionManager := delete token m.
Definition destroy_all (m : SessionManager) : SessionManager := ∅.
Definition cleanup_sessions (now : Z) (m : SessionManager) : SessionManager :=
  map_retain (λ _ s, since now (se_created s) <? SESSION_LIFETIME) m.

(** ** Password-reset tokens *)
Definition RESET_TOKEN_LIFETIME : Z := 30 * 60 * SEC.
Record ResetToken := mk_reset { rt_username : string; rt_created : Z }.
Abbreviation ResetTokens := (gmap string ResetToken).

Definition invalidate_user (username : string) (m : ResetTokens) : ResetTokens :=
  map_retain (λ _ t, bool_decide (rt_username t ≠ username)) m.

Definition create_reset (now : Z) (token username : string) (m : ResetTokens) : ResetTokens :=
  <[token := mk_reset username now]>
    (map_retain (λ _ t, bool_decide (rt_username t ≠ username)) m).

Definition validate_and_consume (now : Z) (token : string) (m : ResetTokens) :
    option string * ResetTokens :=
  match m !! token with
  | Some rt =>
      (if since now (rt_created rt) <? RESET_TOKEN_LIFETIME then Some (rt_username rt) else None,
       delete token m)
  | None => (None, m)
  end.

Definition cleanup_resets (now : Z) (m : ResetTokens) : ResetTokens :=
  map_retain (λ _ t, since now (rt_created t) <? RESET_TOKEN_LIFETIME) m.

(** ** The lockout policy *)
Record LoginLockoutConfig := mk_lockout_config {
  max_failures : Z;
  window_seconds : Z;
  lockout_seconds : Z;
  trusted_ips : list string;
  enabled : bool
}.

Definition default_max_failures : Z := 3.
Definition default_window_seconds : Z := 300.
Definition default_lockout_seconds : Z := 48 * 3600.
Definition default_config : LoginLockoutConfig :=
  mk_lockout_config default_max_failures default_window_seconds default_lockout_seconds [] true.

(** [LoginLockoutConfig::load], on what the file parsed to: the old default
    threshold of ten is brought down once. *)
Definition load_config (parsed : option LoginLockoutConfig) : LoginLockoutConfig :=
  let cfg := default default_config parsed in
  if max_failures cfg =? 10
  then mk_lockout_config 3 (window_seconds cfg) (lockout_seconds cfg) (trusted_ips cfg) (enabled cfg)
  else cfg.

(** ** The limiter's state *)
Record AttemptRecord := mk_attempt {
  failures : list Z;
  locked_until : option Z;
  last_username : string
}.
Definition attempt_default : AttemptRecord := mk_attempt [] None "".

Record AuthLogEntry := mk_log {
  al_timestamp : Z; al_ip : string; al_username : string;
  al_success : bool; al_reason : string; al_was_locked : bool
}.
Definition AUDIT_LOG_MAX : nat := 500.

Record PersistedLockout := mk_persisted_lockout {
  pl_ip : string; pl_locked_at : Z; pl_lockout_seconds : Z
}.

Record ProtectedBlockEvent := mk_event { pe_id : Z; pe_ip : string; pe_at : Z }.
Definition MAX_PROTECTED_EVENTS : nat := 50.

(** What must never be blocked in the kernel. *)
Record Protected := mk_protected {
  node_ips : gset string;
  workload : list (IpAddr * Z);
  events : list ProtectedBlockEvent
}.

(** The hooks the limiter fires: propagation to the fleet, operator alerts. *)
Inductive Hook :=
| PropagateBlock (ip : string) (seconds : Z)
| PropagateUnblock (ip : string)
| SecurityAlert (ip : string).

Record Limiter := mk_limiter {
  attempts : gmap string AttemptRecord;
  audit : list AuthLogEntry;
  config : LoginLockoutConfig;
  kernel : gset string;
  lock_file : list PersistedLockout;
  protected : Protected;
  fired : list Hook
}.

Definition set_attempts f l := mk_limiter (f (attempts l)) (audit l) (config l) (kernel l)
  (lock_file l) (protected l) (fired l).
Definition set_kernel f l := mk_limiter (attempts l) (audit l) (config l) (f (kernel l))
  (lock_file l) (protected l) (fired l).
Definition set_protected p l := mk_limiter (attempts l) (audit l) (config l) (kernel l)
  (lock_file l) p (fired l).
Definition fire h l := mk_limiter (attempts l) (audit l) (config l) (kernel l)
  (lock_file l) (protected l) (fired l ++ [h]).

(** Append an audit row; the oldest is dropped when full. *)
Definition audit_push (e : AuthLogEntry) (l : Limiter) : Limiter :=
  let log := if bool_decide (AUDIT_LOG_MAX ≤ length (audit l))%nat then tail (audit l) else audit l in
  mk_limiter (attempts l) (log ++ [e]) (config l) (kernel l) (lock_file l) (protected l) (fired l).

Definition audit_log (l : Limiter) : list AuthLogEntry := reverse (audit l).

(** Now, on the monotonic and on the wall clock. *)
Record Clock := mk_clock { now : Z; now_secs : Z }.

Section Limiter.
Context `{!HashOrder AttemptRecord}.
(** [str::parse::<IpAddr>] and [IpAddr::to_string]. *)
Variable parse_addr : string → option IpAddr.
Variable show_addr : IpAddr → string.

Definition entry_trusts (target : IpAddr) (entry : string) : bool :=
  match split_once "/"%char entry with
  | Some (net_str, prefix_str) =>
      match parse_addr net_str, parse_u8 prefix_str with
      | Some net, Some prefix => ip_in_cidr target net prefix
      | _, _ => false
      end
  | None => bool_decide (parse_addr entry = Some target)
  end.

Definition is_trusted (cfg : LoginLockoutConfig) (ip : string) : bool :=
  match parse_addr ip with
  | Some a => existsb (entry_trusts (to_canonical a)) (trusted_ips cfg)
  | None => false
  end.

(** *** The guard on kernel blocks *)
Definition canonical_ip_str (s : string) : string :=
  match parse_addr (trim s) with
  | Some a => if bool_decide (to_canonical a = a) then s else show_addr (to_canonical a)
  | None => s
  end.

Definition is_protected_workload_ip (p : Protected) (a : IpAddr) : bool :=
  existsb (λ '(net, prefix), ip_in_cidr a net prefix) (workload p).

Definition is_protected_address (p : Protected) (ip : string) : bool :=
  let ip := canonical_ip_str ip in
  bool_decide (ip ∈ node_ips p)
  || match parse_addr ip with Some a => is_protected_workload_ip p a | None => false end.

(** A rapid repeat of the last event only moves its time. *)
Definition record_protected_block (clock : Clock) (ip : string) (p : Protected) : Protected :=
  let t := now_secs clock in
  let evs := events p in
  let evs' :=
    match last evs with
    | Some e =>
        if bool_decide (pe_ip e = ip) && (sat_sub t (pe_at e) <? 5)
        then take (pred (length evs)) evs ++ [mk_event (pe_id e) (pe_ip e) t]
        else let evs := evs ++ [mk_event (pe_id e + 1) ip t] in
             drop (length evs - MAX_PROTECTED_EVENTS) evs
    | None => [mk_event 1 ip t]
    end in
  mk_protected (node_ips p) (workload p) evs'.

Definition kernel_block_ip (clock : Clock) (ip : string) (l : Limiter) : Limiter :=
  match parse_addr ip with
  | None => l
  | Some a =>
      let ip := show_addr (to_canonical a) in
      if is_protected_address (protected l) ip
      then set_protected (record_protected_block clock ip (protected l)) l
      else set_kernel (λ k, {[ip]} ∪ k) l
  end.

Definition kernel_unblock_ip (ip : string) (l : Limiter) : Limiter :=
  match parse_addr ip with
  | None => l
  | Some a => set_kernel (λ k, k ∖ {[show_addr (to_canonical a)]}) l
  end.

Definition parse_workload_cidr (cidr : string) : option (IpAddr * Z) :=
  '(ip_s, pfx_s) ← split_once "/"%char cidr;
  ip ← parse_addr (trim ip_s);
  prefix ← parse_u8 (trim pfx_s);
  let max := match ip with V4 _ => 32 | V6 _ => 128 end in
  if (prefix =? 0) || (max <? prefix) then None else Some (ip, prefix).

(** *** Persisted lockouts *)
Definition persist_lockouts (clock : Clock) (l : Limiter) : Limiter :=
  let total := lockout_seconds (config l) in
  let snapshot := omap (λ '(ip, rec),
    until ← locked_until rec;
    if now clock <? until then
      let remaining := since until (now clock) / SEC in
      Some (mk_persisted_lockout ip (sat_sub (now_secs clock) (sat_sub total remaining)) total)
    else None) (hm_iter (attempts l)) in
  mk_limiter (attempts l) (audit l) (config l) (kernel l) snapshot (protected l) (fired l).

Definition restore_entry (clock : Clock) (l : Limiter) (entry : PersistedLockout) : Limiter :=
  if is_trusted (config l) (pl_ip entry) then l else
  let expires_at := sat_add (pl_locked_at entry) (pl_lockout_seconds entry) in
  if expires_at <=? now_secs clock then kernel_unblock_ip (pl_ip entry) l else
  let remaining := expires_at - now_secs clock in
  let l := if is_protected_address (protected l) (pl_ip entry)
           then kernel_unblock_ip (pl_ip entry) l
           else kernel_block_ip clock (pl_ip entry) l in
  let rec := default attempt_default (attempts l !! pl_ip entry) in
  set_attempts <[pl_ip entry :=
    mk_attempt (failures rec) (Some (now clock + remaining * SEC)) (last_username rec)]> l.

Definition restore_persisted_lockouts (clock : Clock) (l : Limiter) : Limiter :=
  foldl (restore_entry clock) l (lock_file l).

(** Compares canonical spellings; [None] when nothing matched. *)
Definition prune_lockout_snapshot (snapshot : list PersistedLockout) (ip : string) :
    option (list PersistedLockout) :=
  let canon s := match parse_addr s with Some a => show_addr (to_canonical a) | None => s end in
  let kept := retain (λ e, negb (bool_decide (canon (pl_ip e) = canon ip))) snapshot in
  if bool_decide (length kept = length snapshot) then None else Some kept.

(** *** The limiter *)
Definition log_row (clock : Clock) (ip username : string) (success : bool) (reason : string)
    (was_locked : bool) : AuthLogEntry :=
  mk_log (now_secs clock) ip username success reason was_locked.

Definition record_failure_with (clock : Clock) (ip username : string) (l : Limiter) :
    bool * Limiter :=
  let cfg := config l in
  let row reason := log_row clock ip username false reason false in
  if is_trusted cfg ip
  then (false, audit_push (row "bad password (trusted IP — no lockout)") l)
  else if negb (enabled cfg)
  then (false, audit_push (row "bad password (lockout disabled in config)") l)
  else
    let window := window_seconds cfg * SEC in
    let lockout := lockout_seconds cfg * SEC in
    let entry := default attempt_default (attempts l !! ip) in
    let fails := retain (λ t, since (now clock) t <? window) (failures entry) ++ [now clock] in
    let just_locked := (max_failures cfg <=? Z.of_nat (length fails))
                       && bool_decide (locked_until entry = None) in
    let until := if just_locked then Some (now clock + lockout) else locked_until entry in
    let l := set_attempts <[ip := mk_attempt fails until username]> l in
    let l := if just_locked
             then fire (SecurityAlert ip) (fire (PropagateBlock ip (lockout_seconds cfg))
                    (persist_lockouts clock (kernel_block_ip clock ip l)))
             else l in
    (just_locked,
     audit_push (row (if just_locked then "bad password — threshold hit, IP locked"
                      else "bad password")) l).

Definition record_failure (clock : Clock) (ip : string) (l : Limiter) : bool * Limiter :=
  record_failure_with clock ip "" l.

Definition force_lockout (clock : Clock) (ip source : string) (l : Limiter) : bool * Limiter :=
  let cfg := config l in
  if is_trusted cfg ip then (false, l) else
  if negb (enabled cfg) then (false, l) else
  let entry := default attempt_default (attempts l !! ip) in
  if match locked_until entry with Some until => now clock <? until | None => false end
  then (false, set_attempts <[ip := entry]> l)
  else
    let l := set_attempts <[ip :=
      mk_attempt (failures entry) (Some (now clock + lockout_seconds cfg * SEC)) source]> l in
    let l := persist_lockouts clock (kernel_block_ip clock ip l) in
    let l := fire (SecurityAlert ip) (fire (PropagateBlock ip (lockout_seconds cfg)) l) in
    (true, audit_push (log_row clock ip "" false "auto-block" true) l).

Definition add_propagated_lockout (clock : Clock) (ip : string) (seconds : Z)
    (source_node : string) (l : Limiter) : Limiter :=
  if is_trusted (config l) ip then
    audit_push (log_row clock ip "" false
      ("propagated lockout from " +:+ source_node +:+ " REFUSED — IP is trusted here") false) l
  else
    let rec := default attempt_default (attempts l !! ip) in
    let new_until := now clock + seconds * SEC in
    let until := match locked_until rec with
                 | Some existing => if new_until <? existing then existing else new_until
                 | None => new_until
                 end in
    let l := set_attempts <[ip := mk_attempt (failures rec) (Some until) (last_username rec)]> l in
    let l := persist_lockouts clock (kernel_block_ip clock ip l) in
    audit_push (log_row clock ip "" false
      ("kernel-blocked via fleet propagation from " +:+ source_node) false) l.

Definition unblock_local (clock : Clock) (ip : string) (l : Limiter) : Limiter :=
  let l := kernel_unblock_ip ip (set_attempts (delete ip) l) in
  audit_push (log_row clock ip "" false "manually unblocked by operator" false)
    (persist_lockouts clock l).

Definition unblock (clock : Clock) (ip : string) (l : Limiter) : Limiter :=
  fire (PropagateUnblock ip) (unblock_local clock ip l).

Definition is_locked_out (clock : Clock) (ip : string) (l : Limiter) : bool :=
  if is_trusted (config l) ip || negb (enabled (config l)) then false else
  match attempts l !! ip with
  | Some rec => match locked_until rec with Some until => now clock <? until | None => false end
  | None => false
  end.

Definition lockout_remaining (clock : Clock) (ip : string) (l : Limiter) : Z :=
  match attempts l !! ip ≫= locked_until with
  | Some until => if now clock <? until then since until (now clock) / SEC else 0
  | None => 0
  end.

Definition current_lockouts (clock : Clock) (l : Limiter) : list (string * Z * string) :=
  omap (λ '(ip, rec),
    until ← locked_until rec;
    if now clock <? until
    then Some (ip, since until (now clock) / SEC, last_username rec) else None)
  (hm_iter (attempts l)).

Definition clear_with (clock : Clock) (ip username : string) (l : Limiter) : Limiter :=
  audit_push (log_row clock ip username true "ok" false) (set_attempts (delete ip) l).

Definition audit_blocked (clock : Clock) (ip username : string) (l : Limiter) : Limiter :=
  audit_push (log_row clock ip username false
    ("rejected — IP locked for " +:+ pretty (lockout_remaining clock ip l) +:+ "s more") true) l.

(** One record under [cleanup]: its recent failures, and whether it stays. *)
Definition clean_record (window t : Z) (rec : AttemptRecord) : AttemptRecord :=
  mk_attempt (retain (λ f, since t f <? window) (failures rec)) (locked_until rec)
    (last_username rec).
Definition still_locked (t : Z) (rec : AttemptRecord) : bool :=
  match locked_until rec with Some u => t <? u | None => false end.
Definition just_expired (t : Z) (rec : AttemptRecord) : bool :=
  match locked_until rec with Some u => u <=? t | None => false end.

Definition cleanup (clock : Clock) (l : Limiter) : Limiter :=
  let window := window_seconds (config l) * SEC in
  let to_unblock := (hm_iter (map_retain (λ _ r, just_expired (now clock) r) (attempts l))).*1 in
  let kept := map_retain (λ _ r, negb (bool_decide (failures r = [])) || still_locked (now clock) r)
                (clean_record window (now clock) <$> attempts l) in
  let l := set_attempts (λ _, kept) l in
  let l := foldl (λ l ip, kernel_unblock_ip ip l) l to_unblock in
  if bool_decide (attempts l = ∅) then l else persist_lockouts clock l.

(** ** Addresses remembered across restarts

    Two stores of "address, last seen", each a sorted map bounded in age and
    in size: the administrators' addresses and the cluster peers'. *)
Definition KNOWN_ADMIN_IPS_MAX : nat := 64.
Definition KNOWN_ADMIN_IP_TTL_SECS : Z := 30 * 24 * 3600.
Definition KNOWN_PEER_IPS_MAX : nat := 128.
Definition KNOWN_PEER_IP_TTL_SECS : Z := 30 * 24 * 3600.
Definition KNOWN_PEER_REFRESH_SECS : Z := 24 * 3600.

(** [BTreeMap::iter]: ascending keys. *)
Definition by_key (a b : string * Z) : Prop := String.le a.1 b.1.
#[local] Instance by_key_dec a b : Decision (by_key a b).
Proof. unfold by_key, String.le. apply _. Defined.
Definition btree_iter (m : gmap string Z) : list (string * Z) := merge_sort by_key (map_to_list m).

(** [while map.len() > max] drop the entry seen least recently. *)
Fixpoint evict_oldest (fuel max : nat) (m : gmap string Z) : gmap string Z :=
  match fuel with
  | O => m
  | S fuel =>
      if bool_decide (max < size m)%nat then
        match min_by_key snd (btree_iter m) with
        | Some (oldest, _) => evict_oldest fuel max (delete oldest m)
        | None => m
        end
      else m
  end.

Definition load_known_admin_ips (t : Z) (file : gmap string Z) : gmap string Z :=
  map_retain (λ _ ts, sat_sub t ts <? KNOWN_ADMIN_IP_TTL_SECS) file.

Definition record_admin_ip (t : Z) (ip : string) (file : gmap string Z) : gmap string Z :=
  match parse_addr (trim ip) with
  | None => file
  | Some a =>
      let a := to_canonical a in
      if is_loopback a || is_unspecified a then file else
      let m := <[show_addr a := t]> (load_known_admin_ips t file) in
      evict_oldest (size m) KNOWN_ADMIN_IPS_MAX m
  end.

Definition valid_protectable_ip (s : string) : bool :=
  match parse_addr s with
  | Some a => negb (is_unspecified a) && negb (is_loopback a)
  | None => false
  end.

Definition load_known_peer_ips (t : Z) (file : gmap string Z) : gmap string Z :=
  map_retain (λ ip ts, (sat_sub t ts <? KNOWN_PEER_IP_TTL_SECS) && valid_protectable_ip ip) file.

Definition evict_oldest_peers (m : gmap string Z) : gmap string Z :=
  evict_oldest (size m) KNOWN_PEER_IPS_MAX m.

Definition record_known_peer_ip (t : Z) (ip : string) (file : gmap string Z) (p : Protected) :
    gmap string Z * Protected :=
  match parse_addr (trim ip) with
  | None => (file, p)
  | Some a =>
      let canon := show_addr (to_canonical a) in
      if negb (valid_protectable_ip canon) then (file, p) else
      (evict_oldest_peers (<[canon := t]> (load_known_peer_ips t file)),
       mk_protected ({[canon]} ∪ node_ips p) (workload p) (events p))
  end.

Definition forget_known_peer_ip (t : Z) (ip : string) (file : gmap string Z) (p : Protected) :
    gmap string Z * Protected :=
  match parse_addr (trim ip) with
  | None => (file, p)
  | Some a =>
      let canon := show_addr (to_canonical a) in
      let stored := load_known_peer_ips t file in
      match stored !! canon with
      | None => (file, p)
      | Some _ => (delete canon stored,
                   mk_protected (node_ips p ∖ {[canon]}) (workload p) (events p))
      end
  end.

(** Live members refresh their time at most daily; returns the addresses newly
    protected, the file and the guard. *)
Definition set_protected_node_ips (t : Z) (ips : list string) (file : gmap string Z)
    (p : Protected) : gset string * gmap string Z * Protected :=
  let live : gset string := list_to_set (retain valid_protectable_ip ips) in
  let stored := load_known_peer_ips t file in
  let needs_refresh ip :=
    match stored !! ip with
    | None => true
    | Some ts => KNOWN_PEER_REFRESH_SECS <=? sat_sub t ts
    end in
  let refreshed := retain needs_refresh (elements live) in
  let stored' := foldl (λ m ip, <[ip := t]> m) stored refreshed in
  let full := bool_decide (KNOWN_PEER_IPS_MAX < size stored')%nat in
  let stored'' := if full then evict_oldest_peers stored' else stored' in
  let dirty := negb (bool_decide (refreshed = [])) || full in
  let set := live ∪ dom stored'' in
  (set ∖ node_ips p, if dirty then stored'' else file,
   mk_protected set (workload p) (events p)).
End Limiter.
