(* ===== verification/AuthProps.v ===== *)
(** * Properties of logins, lockouts and blocks (src/src/auth/mod.rs) *)
From S2P Require Import Prelude Net AuthLimiter.

Section Limits.
Context `{!HashOrder AttemptRecord}.
Context (parse_addr : string → option IpAddr) (show_addr : IpAddr → string).
Abbreviation fail c ip l := (record_failure_with parse_addr show_addr c ip "" l).
Abbreviation trusted := (is_trusted parse_addr).

(** ** What the side effects leave alone *)
Lemma kernel_block_frame c ip l :
  let l' := kernel_block_ip parse_addr show_addr c ip l in
  attempts l' = attempts l ∧ config l' = config l.
Proof. unfold kernel_block_ip. destruct (parse_addr ip); [|done]. by case_match. Qed.

Lemma kernel_unblock_frame ip l :
  let l' := kernel_unblock_ip parse_addr show_addr ip l in
  attempts l' = attempts l ∧ config l' = config l.
Proof. unfold kernel_unblock_ip. by destruct (parse_addr ip). Qed.

Lemma kernel_unblocks_frame ips l :
  let l' := foldl (λ l ip, kernel_unblock_ip parse_addr show_addr ip l) l ips in
  attempts l' = attempts l ∧ config l' = config l.
Proof.
  revert l. induction ips as [|ip ips IH]; intros l; [done|]. cbn.
  destruct (IH (kernel_unblock_ip parse_addr show_addr ip l)) as [-> ->]. apply kernel_unblock_frame.
Qed.

(** ** One failure, where the limiter counts it *)
Section counting.
Context (ip : string) (cfg : LoginLockoutConfig).
Context (Hen : enabled cfg = true) (Htr : trusted cfg ip = false).

Definition recent (t : Z) (fs : list Z) : list Z :=
  retain (λ f, since t f <? window_seconds cfg * SEC) fs.

Lemma fail_spec c l :
  config l = cfg →
  let rec := default attempt_default (attempts l !! ip) in
  let fails := recent (now c) (failures rec) ++ [now c] in
  let hit := (max_failures cfg <=? Z.of_nat (length fails)) && bool_decide (locked_until rec = None) in
  (fail c ip l).1 = hit ∧ config (fail c ip l).2 = cfg ∧
  attempts (fail c ip l).2 !! ip = Some (mk_attempt fails
    (if hit then Some (now c + lockout_seconds cfg * SEC) else locked_until rec) "").
Proof using Hen Htr.
  intros Hc rec fails hit. unfold record_failure_with. rewrite Hc, Htr, Hen. cbn [negb].
  fold rec. fold (recent (now c) (failures rec)). fold fails. fold hit.
  destruct hit; cbn [fst snd]; (split; [done|]); cbn.
  - match goal with |- context [kernel_block_ip _ _ _ _ ?x] =>
      destruct (kernel_block_frame c ip x) as [-> ->] end. cbn. by rewrite lookup_insert_eq.
  - by rewrite lookup_insert_eq.
Qed.

(** ** The threshold *)
Definition fail_all (cs : list Clock) (l : Limiter) : Limiter :=
  foldl (λ l c, (fail c ip l).2) l cs.

(** Failures at non-decreasing times, the last within a window of the first. *)
Definition burst (cs : list Clock) : Prop :=
  StronglySorted (λ a b, now a ≤ now b) cs ∧
  ∀ a b, a ∈ cs → b ∈ cs → now b - now a < window_seconds cfg * SEC.

Lemma burst_snoc cs c :
  burst (cs ++ [c]) → burst cs ∧ recent (now c) (now <$> cs) = now <$> cs.
Proof.
  intros [Hs Hw]. split; [split|].
  - by apply StronglySorted_app_1_l in Hs.
  - intros a b ??. apply Hw; set_solver.
  - apply retain_all, Forall_forall. intros f (a & -> & Ha)%list_elem_of_fmap.
    assert (now c - now a < window_seconds cfg * SEC) by (apply Hw; set_solver).
    assert (now c - now c < window_seconds cfg * SEC) by (apply Hw; set_solver).
    apply Z.ltb_lt. unfold since. lia.
Qed.

Lemma fail_all_spec cs l :
  config l = cfg → attempts l !! ip = None → 1 ≤ max_failures cfg → burst cs → cs ≠ [] →
  config (fail_all cs l) = cfg ∧
  ∃ until, attempts (fail_all cs l) !! ip = Some (mk_attempt (now <$> cs) until "") ∧
    (if max_failures cfg <=? Z.of_nat (length cs)
     then ∃ c, c ∈ cs ∧ until = Some (now c + lockout_seconds cfg * SEC)
     else until = None).
Proof using Hen Htr.
  intros Hc Hn Hmax. induction cs as [|c cs IH] using rev_ind; [done|]. intros Hb _.
  apply burst_snoc in Hb as [Hb Hrec]. unfold fail_all in *. rewrite foldl_app. cbn [foldl].
  set (l1 := foldl _ l cs) in *.
  assert (config l1 = cfg ∧ ∃ until,
    default attempt_default (attempts l1 !! ip) = mk_attempt (now <$> cs) until "" ∧
    (if max_failures cfg <=? Z.of_nat (length cs)
     then ∃ c, c ∈ cs ∧ until = Some (now c + lockout_seconds cfg * SEC) else until = None))
    as (Hc1 & until & Hrec1 & Hu).
  { destruct cs as [|c0 cs0] eqn:E.
    - unfold l1. cbn. rewrite Hn. split; [done|]. exists None. split; [done|].
      by rewrite (proj2 (Z.leb_gt _ _)) by lia.
    - destruct (IH Hb ltac:(done)) as (? & u & -> & ?). eauto. }
  destruct (fail_spec c l1 Hc1) as (_ & Hcfg & Hat). rewrite Hrec1 in Hat. cbn [failures locked_until] in Hat.
  rewrite Hrec in Hat. split; [done|]. rewrite fmap_app. eexists. split; [exact Hat|].
  rewrite !length_app, length_fmap. cbn [length].
  destruct (max_failures cfg <=? Z.of_nat (length cs)) eqn:Hm.
  - destruct Hu as (c0 & Hc0 & ->). bool_props.
    rewrite (proj2 (Z.leb_le _ _)) by lia. exists c0. split; [set_solver|].
    by rewrite bool_decide_false, andb_false_r by done.
  - subst until. bool_props. rewrite bool_decide_true by done. rewrite andb_true_r.
    destruct (max_failures cfg <=? Z.of_nat (length cs + 1)); [exists c; split; [set_solver|done]|done].
Qed.

(** ** A lock that has expired *)

(** The record of [ip] under [cleanup]. *)
Lemma cleanup_spec c l rec :
  config l = cfg → attempts l !! ip = Some rec → recent (now c) (failures rec) ≠ [] →
  config (cleanup parse_addr show_addr c l) = cfg ∧
  attempts (cleanup parse_addr show_addr c l) !! ip
    = Some (clean_record (window_seconds cfg * SEC) (now c) rec).
Proof.
  intros Hc Hr Hne. unfold cleanup. rewrite Hc.
  set (l0 := set_attempts _ l).
  match goal with |- context [foldl _ l0 ?ips] =>
    destruct (kernel_unblocks_frame ips l0) as [Ha Hcfg]; set (l1 := foldl _ l0 ips) in * end.
  assert (attempts l1 !! ip = Some (clean_record (window_seconds cfg * SEC) (now c) rec)) as Hat.
  { rewrite Ha. unfold l0. cbn [attempts set_attempts]. apply map_retain_lookup.
    rewrite lookup_fmap, Hr. split; [done|]. cbn. apply orb_true_iff. left.
    by rewrite bool_decide_false. }
  case_bool_decide; (split; [cbn; by rewrite Hcfg|done]).
Qed.

(** Failures and cleanups at non-decreasing times, each less than a window
    after the failure before it. *)
Fixpoint paced (prev : Z) (evs : list (bool * Clock)) : Prop :=
  match evs with
  | [] => True
  | (is_failure, c) :: evs =>
      prev ≤ now c ∧ now c - prev < window_seconds cfg * SEC ∧
      paced (if is_failure then now c else prev) evs
  end.

(** The verdicts of the failures, and the final state. *)
Fixpoint run (evs : list (bool * Clock)) (l : Limiter) : list bool * Limiter :=
  match evs with
  | [] => ([], l)
  | (true, c) :: evs =>
      let '(hit, l) := record_failure_with parse_addr show_addr c ip "" l in
      let '(hits, l) := run evs l in (hit :: hits, l)
  | (false, c) :: evs => run evs (cleanup parse_addr show_addr c l)
  end.

Lemma recent_keeps t prev fs :
  prev ∈ fs → prev ≤ t → t - prev < window_seconds cfg * SEC → prev ∈ recent t fs.
Proof.
  intros Hin Hle Hw. apply elem_of_retain. split; [done|]. apply Z.ltb_lt. unfold since. lia.
Qed.

Lemma never_relocks evs l prev u rec :
  config l = cfg → attempts l !! ip = Some rec → locked_until rec = Some u →
  prev ∈ failures rec → paced prev evs →
  Forall (λ hit, hit = false) (run evs l).1 ∧ config (run evs l).2 = cfg ∧
  ∃ rec', attempts (run evs l).2 !! ip = Some rec' ∧ locked_until rec' = Some u.
Proof using Hen Htr.
  revert l prev rec. induction evs as [|[[] c] evs IH]; intros l prev rec Hc Hr Hu Hin Hp; [by eauto|..].
  - destruct Hp as (Hle & Hw & Hp). cbn [run].
    destruct (fail_spec c l Hc) as (Hhit & Hc' & Hat). rewrite Hr in Hhit, Hat.
    change (default attempt_default (Some rec)) with rec in *. rewrite Hu in Hhit, Hat.
    rewrite (bool_decide_false (Some u = None)), andb_false_r in Hhit, Hat by done.
    destruct (record_failure_with _ _ _ _ _ _) as [hit l1]. cbn [fst snd] in *. subst hit.
    specialize (IH l1 (now c) _ Hc' Hat eq_refl ltac:(set_solver) Hp).
    destruct (run evs l1). cbn in *. destruct IH as (? & ? & ?). auto.
  - destruct Hp as (Hle & Hw & Hp). cbn [run].
    pose proof (recent_keeps (now c) prev (failures rec) Hin Hle Hw) as Hk.
    destruct (cleanup_spec c l rec Hc Hr) as [Hc' Hat]; [intros E; rewrite E in Hk; set_solver|].
    by apply (IH _ prev _ Hc' Hat Hu Hk Hp).
Qed.
End counting.
End Limits.

(** ** Blocks never hit a protected address *)
Create HintDb guarded.

Section Guard.
Context `{!HashOrder AttemptRecord}.
Context (parse_addr : string → option IpAddr) (show_addr : IpAddr → string).

(** The operations that can reach the kernel, on one limiter. *)
Inductive LimiterOp :=
| OpFailure (c : Clock) (ip username : string)
| OpForce (c : Clock) (ip source : string)
| OpPropagated (c : Clock) (ip : string) (seconds : Z) (source_node : string)
| OpUnblock (c : Clock) (ip : string)
| OpClear (c : Clock) (ip username : string)
| OpCleanup (c : Clock)
| OpRestore (c : Clock).

Definition apply_op (op : LimiterOp) (l : Limiter) : Limiter :=
  match op with
  | OpFailure c ip user => (record_failure_with parse_addr show_addr c ip user l).2
  | OpForce c ip source => (force_lockout parse_addr show_addr c ip source l).2
  | OpPropagated c ip secs node => add_propagated_lockout parse_addr show_addr c ip secs node l
  | OpUnblock c ip => unblock parse_addr show_addr c ip l
  | OpClear c ip user => clear_with c ip user l
  | OpCleanup c => cleanup parse_addr show_addr c l
  | OpRestore c => restore_persisted_lockouts parse_addr show_addr c l
  end.

(** Nothing is newly blocked but unprotected addresses, and what is protected
    does not change. *)
Definition guarded (l l' : Limiter) : Prop :=
  node_ips (protected l') = node_ips (protected l) ∧ workload (protected l') = workload (protected l) ∧
  ∀ k, k ∈ kernel l' → k ∈ kernel l ∨ is_protected_address parse_addr show_addr (protected l) k = false.

Lemma protected_same p p' k :
  node_ips p' = node_ips p → workload p' = workload p →
  is_protected_address parse_addr show_addr p' k = is_protected_address parse_addr show_addr p k.
Proof. intros Hn Hw. unfold is_protected_address, is_protected_workload_ip. by rewrite Hn, Hw. Qed.

#[local] Instance guarded_preorder : PreOrder guarded.
Proof.
  split; [intros l; split_and!; auto|]. intros l1 l2 l3 (N1 & W1 & K1) (N2 & W2 & K2).
  split_and!; [congruence..|]. intros k [Hk|Hk]%K2; [by apply K1|right].
  by rewrite (protected_same _ _ _ N1 W1) in Hk.
Qed.

(** Steps that touch neither the kernel set nor the guard. *)
Lemma guarded_frame l l' : kernel l' = kernel l → protected l' = protected l → guarded l l'.
Proof. intros Hk Hp. unfold guarded. rewrite Hk, Hp. split_and!; auto. Qed.

Lemma guarded_block c ip l : guarded l (kernel_block_ip parse_addr show_addr c ip l).
Proof.
  unfold kernel_block_ip. destruct (parse_addr ip); [|done].
  destruct (is_protected_address _ _ _ _) eqn:Hp; (split_and!; [done..|]); cbn; [auto|].
  intros k [->%elem_of_singleton|Hk]%elem_of_union; auto.
Qed.

Lemma guarded_unblock ip l : guarded l (kernel_unblock_ip parse_addr show_addr ip l).
Proof.
  unfold kernel_unblock_ip. destruct (parse_addr ip); [|done]. split_and!; [done..|].
  cbn. intros k [Hk _]%elem_of_difference. auto.
Qed.

Lemma guarded_fold {A} (f : Limiter → A → Limiter) xs l :
  (∀ l x, guarded l (f l x)) → guarded l (foldl f l xs).
Proof.
  intros Hf. revert l. induction xs as [|x xs IH]; intros l; [done|]. cbn.
  etrans; [apply Hf|apply IH].
Qed.

Lemma guarded_audit e l x : guarded l x → guarded l (audit_push e x).
Proof. intros. etrans; [done|by apply guarded_frame]. Qed.
Lemma guarded_fire h l x : guarded l x → guarded l (fire h x).
Proof. intros. etrans; [done|by apply guarded_frame]. Qed.
Lemma guarded_attempts f l x : guarded l x → guarded l (set_attempts f x).
Proof. intros. etrans; [done|by apply guarded_frame]. Qed.
Lemma guarded_persist c l x : guarded l x → guarded l (persist_lockouts c x).
Proof. intros. etrans; [done|by apply guarded_frame]. Qed.
Lemma guarded_block_after c ip l x :
  guarded l x → guarded l (kernel_block_ip parse_addr show_addr c ip x).
Proof. intros. etrans; [done|apply guarded_block]. Qed.
Lemma guarded_unblock_after ip l x :
  guarded l x → guarded l (kernel_unblock_ip parse_addr show_addr ip x).
Proof. intros. etrans; [done|apply guarded_unblock]. Qed.
Lemma guarded_refl l : guarded l l.
Proof. done. Qed.

#[local] Hint Resolve guarded_audit guarded_fire guarded_attempts guarded_persist
  guarded_block_after guarded_unblock_after guarded_refl : guarded.

Lemma guarded_restore_entry c l e : guarded l (restore_entry parse_addr show_addr c l e).
Proof.
  unfold restore_entry. case_match; [done|]. case_match; [auto with guarded|].
  case_match; auto with guarded.
Qed.

Lemma guarded_op op l : guarded l (apply_op op l).
Proof.
  destruct op; cbn [apply_op].
  - unfold record_failure_with. case_match; [cbn; auto with guarded|].
    case_match; [cbn; auto with guarded|]. destruct (_ && _); cbn [snd]; auto 10 with guarded.
  - unfold force_lockout. case_match; [done|]. case_match; [done|].
    destruct (match locked_until _ with Some _ => _ | None => _ end); cbn [snd]; auto 10 with guarded.
  - unfold add_propagated_lockout. case_match; auto 10 with guarded.
  - unfold unblock, unblock_local. auto 10 with guarded.
  - unfold clear_with. auto with guarded.
  - unfold cleanup. match goal with |- context [foldl ?f ?x ?ips] =>
      assert (guarded l (foldl f x ips)) as Hf end.
    { etrans; [|apply guarded_fold; intros; apply guarded_unblock]. auto with guarded. }
    case_bool_decide; auto with guarded.
  - apply guarded_fold. intros. apply guarded_restore_entry.
Qed.
End Guard.

(** ** Properties *)

(** The threshold locks, and nothing below it does. For an untrusted
    address without a record, a burst of failures inside one window leaves it
    locked out exactly when the burst has reached [max_failures] (and the lock
    outlasts the window, as the defaults have it). *)
Theorem lockout_threshold `{!HashOrder AttemptRecord} parse show ip cfg cs c l :
  enabled cfg = true → is_trusted parse cfg ip = false → 1 ≤ max_failures cfg →
  window_seconds cfg ≤ lockout_seconds cfg → config l = cfg → attempts l !! ip = None →
  burst cfg (cs ++ [c]) →
  is_locked_out parse c ip (fail_all parse show ip (cs ++ [c]) l)
  = (max_failures cfg <=? Z.of_nat (length (cs ++ [c]))).
Proof.
  intros Hen Htr Hmax Hwin Hc Hn Hb.
  destruct (fail_all_spec parse show ip cfg Hen Htr (cs ++ [c]) l Hc Hn Hmax Hb) as (Hc' & until & Hat & Hu);
    [by destruct cs|].
  unfold is_locked_out. rewrite Hc', Htr, Hen, Hat. cbn [orb negb locked_until].
  destruct (_ <=? _); [|by subst]. destruct Hu as (c0 & Hin & ->). apply Z.ltb_lt.
  destruct Hb as [_ Hw]. assert (now c - now c0 < window_seconds cfg * SEC) by (apply Hw; set_solver).
  unfold SEC in *. nia.
Qed.

(** Addresses for the witnesses: "4" is 10.0.0.9, and nothing else parses. *)
Definition demo_parse_addr (s : string) : option IpAddr :=
  if bool_decide (s = "4") then Some (V4 167772169) else None.
Definition demo_show_addr (a : IpAddr) : string := "4".
Definition attempt_order : HashOrder AttemptRecord := canonical_order AttemptRecord.
Definition demo_limiter (nodes : gset string) : Limiter :=
  mk_limiter ∅ [] default_config ∅ [] (mk_protected nodes [] []) [].

Lemma lockout_threshold_witness :
  @is_locked_out demo_parse_addr (mk_clock (9 * SEC) 9) "4"
    (@fail_all attempt_order demo_parse_addr demo_show_addr "4"
       [mk_clock 0 0; mk_clock (5 * SEC) 5; mk_clock (9 * SEC) 9] (demo_limiter ∅)) = true.
Proof.
  apply (@lockout_threshold attempt_order demo_parse_addr demo_show_addr "4" default_config
    [mk_clock 0 0; mk_clock (5 * SEC) 5] (mk_clock (9 * SEC) 9) (demo_limiter ∅)); try done.
  split; [repeat constructor; cbn; done|].
  intros a b Ha Hb. repeat (apply elem_of_cons in Ha as [->|Ha]); [..|set_solver];
    (repeat (apply elem_of_cons in Hb as [->|Hb]); [..|set_solver]); done.
Defined.

(** An expired lock shields its address. While failures keep coming less
    than a window apart, a record whose lock has expired is never dropped by
    [cleanup] and its lock is never renewed: no failure reports a hit and the
    address is not locked out at any later time, however many failures there
    are. *)
Theorem expired_lock_never_relocks `{!HashOrder AttemptRecord} parse show ip cfg evs l prev u rec c :
  enabled cfg = true → is_trusted parse cfg ip = false → config l = cfg →
  attempts l !! ip = Some rec → locked_until rec = Some u → prev ∈ failures rec →
  paced cfg prev evs → u ≤ now c →
  Forall (λ hit, hit = false) (run parse show ip evs l).1 ∧
  is_locked_out parse c ip (run parse show ip evs l).2 = false.
Proof.
  intros Hen Htr Hc Hr Hu Hin Hp Hle.
  destruct (never_relocks parse show ip cfg Hen Htr evs l prev u rec Hc Hr Hu Hin Hp)
    as (Hall & Hc' & rec' & Hat & Hu').
  split; [done|]. unfold is_locked_out. rewrite Hc', Htr, Hen, Hat, Hu'. apply Z.ltb_ge. done.
Qed.

Definition demo_expired : Limiter :=
  set_attempts (λ _, {["4" := mk_attempt [1000 * SEC] (Some (900 * SEC)) ""]}) (demo_limiter ∅).
Definition demo_events : list (bool * Clock) :=
  [(true, mk_clock (1001 * SEC) 1001); (true, mk_clock (1002 * SEC) 1002);
   (false, mk_clock (1003 * SEC) 1003); (true, mk_clock (1004 * SEC) 1004);
   (true, mk_clock (1005 * SEC) 1005)].

Lemma expired_lock_never_relocks_witness :
  Forall (λ hit, hit = false) (@run attempt_order demo_parse_addr demo_show_addr "4" demo_events demo_expired).1 ∧
  is_locked_out demo_parse_addr (mk_clock (1005 * SEC) 1005) "4"
    (@run attempt_order demo_parse_addr demo_show_addr "4" demo_events demo_expired).2 = false.
Proof.
  apply (@expired_lock_never_relocks attempt_order demo_parse_addr demo_show_addr "4" default_config
    demo_events demo_expired (1000 * SEC) (900 * SEC) (mk_attempt [1000 * SEC] (Some (900 * SEC)) ""));
    try done.
  by apply list_elem_of_singleton.
Defined.

(** No block goes around the guard: after any sequence of failures, forced and
    propagated lockouts, unblocks, cleanups and restores, every address in the
    kernel's block set was there before or is one the code does not take for
    protected. *)
Theorem protected_never_blocked `{!HashOrder AttemptRecord} parse show ops l k :
  k ∈ kernel (foldl (λ l op, apply_op parse show op l) l ops) →
  k ∈ kernel l ∨ is_protected_address parse show (protected l) k = false.
Proof.
  intros Hk. apply (guarded_fold parse show (λ l op, apply_op parse show op l) ops l); [|done].
  intros. apply guarded_op.
Qed.

Lemma protected_never_blocked_witness :
  "4" ∈ (∅ : gset string) ∨
  is_protected_address demo_parse_addr demo_show_addr (mk_protected {["10.9.9.9"]} [] []) "4" = false.
Proof.
  apply (@protected_never_blocked attempt_order demo_parse_addr demo_show_addr
    [OpForce (mk_clock 0 0) "4" "scan"; OpCleanup (mk_clock 5 0)] (demo_limiter {["10.9.9.9"]}) "4").
  vm_compute. reflexivity.
Defined.

(** ** Masks are prefixes *)
Lemma land_mask w k t :
  0 ≤ k ≤ w → in_width w t → Z.land t (mask w k) = Z.shiftl (Z.shiftr t k) k.
Proof.
  intros Hk [Ht0 Ht]. unfold mask. apply Z.bits_inj_iff'. intros i Hi.
  assert (2 ^ w - 1 = Z.ones w) as -> by (rewrite Z.ones_equiv; lia).
  rewrite !Z.land_spec. destruct (decide (i < k)).
  - rewrite !Z.shiftl_spec_low by lia. by rewrite andb_false_r.
  - rewrite !Z.shiftl_spec, Z.shiftr_spec by lia. replace (i - k + k) with i by lia.
    destruct (decide (i < w)).
    + rewrite !Z.ones_spec_low by lia. by rewrite !andb_true_r.
    + rewrite (Z.ones_spec_high w i) by lia. rewrite !andb_false_r.
      destruct (decide (t = 0)) as [->|]; [by rewrite Z.bits_0|].
      symmetry. apply Z.bits_above_log2; [lia|]. apply Z.log2_lt_pow2; [lia|].
      assert (2 ^ w ≤ 2 ^ i) by (apply Z.pow_le_mono_r; lia). lia.
Qed.

Lemma land_mask_eq w k t n :
  0 ≤ k ≤ w → in_width w t → in_width w n →
  (Z.land t (mask w k) =? Z.land n (mask w k)) = (Z.shiftr t k =? Z.shiftr n k).
Proof.
  intros Hk Ht Hn. rewrite !land_mask by done. apply eq_true_iff_eq. rewrite !Z.eqb_eq.
  split; [|by intros ->]. intros H. rewrite !Z.shiftl_mul_pow2 in H by lia.
  eapply Z.mul_cancel_r; [|exact H]. apply Z.pow_nonzero; lia.
Qed.

(** CIDR membership is agreement on the prefix. Two addresses of the same
    family match under a prefix length exactly when it is within the family's
    width and their leading bits are equal; a length of zero matches all, a
    length over the width and a family mismatch match nothing. *)
Theorem ip_in_cidr_prefix target net prefix :
  ip_ok target → ip_ok net → 0 ≤ prefix →
  ip_in_cidr target net prefix =
  match target, net with
  | V4 t, V4 n => (prefix <=? 32) && (Z.shiftr t (32 - prefix) =? Z.shiftr n (32 - prefix))
  | V6 t, V6 n => (prefix <=? 128) && (Z.shiftr t (128 - prefix) =? Z.shiftr n (128 - prefix))
  | _, _ => false
  end.
Proof.
  assert (∀ w t n, 0 < w → in_width w t → in_width w n → 0 ≤ prefix →
    (if w <? prefix then false else
     let m := if prefix =? 0 then 0 else mask w (w - prefix) in Z.land t m =? Z.land n m)
    = (prefix <=? w) && (Z.shiftr t (w - prefix) =? Z.shiftr n (w - prefix))) as Hgen.
  { intros w t n Hw Ht Hn Hp. rewrite Z.leb_antisym. destruct (w <? prefix) eqn:E; [done|].
    bool_props. cbn [negb andb]. destruct (prefix =? 0) eqn:E0; bool_props.
    - subst prefix. rewrite !Z.land_0_r, Z.sub_0_r. cbn [Z.eqb].
      rewrite !Z.shiftr_div_pow2 by lia. destruct Ht, Hn. by rewrite !Z.div_small.
    - apply land_mask_eq; [lia|done..]. }
  intros Ht Hn Hp. destruct target, net; cbn in Ht, Hn; [| |done|..]; try done; by apply Hgen.
Qed.

Lemma ip_in_cidr_prefix_witness :
  ip_in_cidr (V4 3232235777) (V4 3232235776) 24 = true ∧
  ip_in_cidr (V4 3232235777) (V4 3232235776) 33 = false.
Proof.
  assert (ip_ok (V4 3232235777) ∧ ip_ok (V4 3232235776)) as [H1 H2] by (split; done).
  split; (rewrite ip_in_cidr_prefix; [vm_compute; reflexivity|done..]).
Defined.

(** ** Password-reset tokens *)
Inductive ResetOp :=
| RCreate (now : Z) (token username : string)
| RConsume (now : Z) (token : string)
| RCleanup (now : Z)
| RInvalidate (username : string).

Definition reset_op (m : ResetTokens) (op : ResetOp) : ResetTokens :=
  match op with
  | RCreate t tok user => create_reset t tok user m
  | RConsume t tok => (validate_and_consume t tok m).2
  | RCleanup t => cleanup_resets t m
  | RInvalidate user => invalidate_user user m
  end.

Definition creates (tok : string) (op : ResetOp) : Prop :=
  match op with RCreate _ t _ => t = tok | _ => False end.

Definition one_per_user (m : ResetTokens) : Prop :=
  ∀ t1 t2 r1 r2, m !! t1 = Some r1 → m !! t2 = Some r2 → rt_username r1 = rt_username r2 → t1 = t2.

Lemma one_per_user_sub m m' : m' ⊆ m → one_per_user m → one_per_user m'.
Proof. intros Hs H t1 t2 r1 r2 H1 H2. eapply H; by eapply lookup_weaken. Qed.

Lemma reset_op_sub m op :
  (∃ t tok user, op = RCreate t tok user) ∨ reset_op m op ⊆ m.
Proof.
  destruct op; [left; eauto|right..]; cbn; try apply map_retain_subseteq.
  unfold validate_and_consume. destruct (m !! token); [apply delete_subseteq|done].
Qed.

Lemma reset_op_one m op : one_per_user m → one_per_user (reset_op m op).
Proof.
  intros H. destruct (reset_op_sub m op) as [(t & tok & user & ->)|Hs]; [|by eapply one_per_user_sub].
  cbn. unfold create_reset. set (m0 := map_retain _ m).
  assert (one_per_user m0) as H0 by (eapply one_per_user_sub, H; apply map_retain_subseteq).
  assert (∀ k r, m0 !! k = Some r → rt_username r ≠ user) as Hn.
  { intros k r [_ Hb]%map_retain_lookup. by bool_props. }
  intros t1 t2 r1 r2 [[<- <-]|[? L1]]%lookup_insert_Some [[<- <-]|[? L2]]%lookup_insert_Some Hu;
    cbn in *; [done|..].
  - by destruct (Hn t2 r2 L2).
  - by destruct (Hn t1 r1 L1).
  - by eapply H0.
Qed.

Lemma reset_absent tok ops m :
  m !! tok = None → Forall (λ op, ¬ creates tok op) ops → foldl reset_op m ops !! tok = None.
Proof.
  intros Hn Hops. revert m Hn. induction Hops as [|op ops Hop _ IH]; intros m Hn; [done|].
  cbn. apply IH. destruct (reset_op_sub m op) as [(t & tok' & user & ->)|Hs];
    [|by eapply lookup_weaken_None].
  cbn [creates] in Hop. change (create_reset t tok' user m !! tok = None).
  unfold create_reset. rewrite lookup_insert_ne by done.
  apply map_retain_lookup_None. auto.
Qed.

(** A reset token works once, for half an hour, and a user has one at a
    time. Over any sequence of operations from an empty store no two tokens
    belong to the same user; a token that was presented, accepted or not,
    gives nothing when presented again, unless it was issued again; and what
    is accepted was created less than thirty minutes before. *)
Theorem reset_token_once ops1 ops2 t1 t2 tok :
  Forall (λ op, ¬ creates tok op) ops2 →
  let m1 := foldl reset_op ∅ ops1 in
  let '(user, m2) := validate_and_consume t1 tok m1 in
  one_per_user m1 ∧
  (∀ u, user = Some u → ∃ r, m1 !! tok = Some r ∧ rt_username r = u ∧
     since t1 (rt_created r) < RESET_TOKEN_LIFETIME) ∧
  (validate_and_consume t2 tok (foldl reset_op m2 ops2)).1 = None.
Proof.
  intros Hops m1. destruct (validate_and_consume t1 tok m1) as [user m2] eqn:E.
  assert (one_per_user m1) as Hone.
  { unfold m1. assert (∀ ops m, one_per_user m → one_per_user (foldl reset_op m ops)) as Hf.
    { induction ops as [|op ops IH]; intros m Hm; [done|]. apply IH. by apply reset_op_one. }
    apply Hf. by intros ????. }
  assert (m2 !! tok = None) as Hn.
  { unfold validate_and_consume in E. destruct (m1 !! tok) eqn:Hm; injection E as _ <-;
      [apply lookup_delete_eq|done]. }
  split_and!; [done| |].
  - intros u ->. unfold validate_and_consume in E. destruct (m1 !! tok) as [r|]; [|done].
    destruct (_ <? _) eqn:Hlt; [|done]. injection E as <- _. exists r. bool_props. auto.
  - unfold validate_and_consume. by rewrite (reset_absent tok ops2 m2 Hn Hops).
Qed.

Lemma reset_token_once_witness :
  let m1 := foldl reset_op ∅ [RCreate 0 "a" "ann"; RCreate 5 "b" "ann"; RCreate 6 "c" "bob"] in
  let '(user, m2) := validate_and_consume (60 * SEC) "b" m1 in
  one_per_user m1 ∧
  (∀ u, user = Some u → ∃ r, m1 !! "b" = Some r ∧ rt_username r = u ∧
     since (60 * SEC) (rt_created r) < RESET_TOKEN_LIFETIME) ∧
  (validate_and_consume (61 * SEC) "b" (foldl reset_op m2 [RCleanup (61 * SEC); RConsume 0 "c"])).1 = None.
Proof.
  apply (reset_token_once [RCreate 0 "a" "ann"; RCreate 5 "b" "ann"; RCreate 6 "c" "bob"]
    [RCleanup (61 * SEC); RConsume 0 "c"] (60 * SEC) (61 * SEC) "b").
  repeat constructor; by intros [].
Defined.
