(* ===== verification/Cluster.v ===== *)
(** * Cluster membership (src/src/agent/mod.rs)

    The table of known nodes, the tombstones of removed ones, and the merges
    that gossip, control-plane bundles and polls make into them.  A node's
    metrics, component list and workload counts are carried by the code and
    never looked at here; they are left out.  The two files (nodes.json,
    deleted_nodes.json) are fields of the state, and each write to them
    succeeds or not as the host says. *)
From S2P Require Import Prelude Net.

(** ** Poll cadence *)
Definition DEFAULT_POLL_INTERVAL_SECS : Z := 10.
Definition POLL_INTERVAL_CHOICES : list Z := [DEFAULT_POLL_INTERVAL_SECS; 30; 60; 120].

Definition normalize_poll_interval (secs : option Z) : option Z :=
  s ← secs;
  if bool_decide (s ≠ DEFAULT_POLL_INTERVAL_SECS) && bool_decide (s ∈ POLL_INTERVAL_CHOICES)
  then Some s else None.

Definition online_window_secs (poll_interval_secs : Z) : Z :=
  Z.max (poll_interval_secs * 2 + 30) 60.

Definition effective_poll_interval (self_interval peer_interval : option Z) : Z :=
  Z.max (default DEFAULT_POLL_INTERVAL_SECS (normalize_poll_interval self_interval))
        (default DEFAULT_POLL_INTERVAL_SECS (normalize_poll_interval peer_interval)).

(** [elapsed] in nanoseconds. *)
Definition poll_due (elapsed : option Z) (interval_secs : Z) : bool :=
  if interval_secs <=? DEFAULT_POLL_INTERVAL_SECS then true else
  match elapsed with
  | None => true
  | Some e => interval_secs <=? e / SEC + DEFAULT_POLL_INTERVAL_SECS / 2
  end.

(** ** Cluster names *)
Definition cluster_eq (a b : option string) : bool :=
  match a, b with
  | Some x, Some y => eq_ignore_ascii_case x y
  | None, None => true
  | _, _ => false
  end.

Definition cluster_rename_member_matches (node_cluster : option string) (old_name : string) : bool :=
  cluster_eq node_cluster (Some old_name)
  || (bool_decide (node_cluster = None) && eq_ignore_ascii_case old_name "WolfStack").

Definition is_default_group (c : option string) : bool :=
  match c with
  | None => true
  | Some s => bool_decide (trim s = "") || eq_ignore_ascii_case (trim s) "WolfStack"
  end.

Definition same_display_cluster (a b : option string) : bool :=
  if is_default_group a && is_default_group b then true else
  match a, b with
  | Some x, Some y => eq_ignore_ascii_case (trim x) (trim y)
  | _, _ => false
  end.

(** ** Nodes *)
Inductive NodeRole := Dns | Mail | MailRelay | Ingress | HostRole | Database | UnknownRole.
#[global] Instance NodeRole_eq_dec : EqDecision NodeRole.
Proof. solve_decision. Defined.

Record Node := mk_node {
  n_id : string; n_hostname : string; n_address : string; n_port : Z;
  n_migration_address : option string;
  n_last_seen : Z; n_online : bool; n_is_self : bool;
  n_public_ip : option string; n_node_type : string;
  n_pve_token : option string; n_pve_fingerprint : option string;
  n_pve_node_name : option string; n_pve_cluster_name : option string;
  n_cluster_name : option string; n_join_verified : bool;
  n_has_docker : bool; n_has_lxc : bool; n_has_kvm : bool;
  n_login_disabled : bool; n_tls : bool; n_update_script : option string;
  n_self_id : option string; n_pubkey : option string; n_manager : bool;
  n_workload_subnets : list string; n_site : option string;
  n_display_name : option string; n_roles : list NodeRole;
  n_poll_interval_secs : option Z
}.
#[global] Instance Node_eq_dec : EqDecision Node.
Proof. solve_decision. Defined.
#[global] Instance Node_eta : Eta Node := λ n,
  mk_node (n_id n) (n_hostname n) (n_address n) (n_port n) (n_migration_address n)
    (n_last_seen n) (n_online n) (n_is_self n) (n_public_ip n) (n_node_type n)
    (n_pve_token n) (n_pve_fingerprint n) (n_pve_node_name n) (n_pve_cluster_name n)
    (n_cluster_name n) (n_join_verified n) (n_has_docker n) (n_has_lxc n) (n_has_kvm n)
    (n_login_disabled n) (n_tls n) (n_update_script n) (n_self_id n) (n_pubkey n)
    (n_manager n) (n_workload_subnets n) (n_site n) (n_display_name n) (n_roles n)
    (n_poll_interval_secs n).

Definition is_self_alias (n : Node) (self_id self_hostname : string) (self_port : Z) : bool :=
  if n_is_self n || bool_decide (n_id n = self_id) || bool_decide (n_node_type n ≠ "wolfstack")
  then false
  else bool_decide (n_self_id n = Some self_id)
       || (bool_decide (n_hostname n = self_hostname) && bool_decide (n_port n = self_port)).

(** (is self, is self by a global id) *)
Definition gossip_identity_match (known_id : string) (known_self_id : option string)
    (known_address self_id : string) (local_ips : gset string) : bool * bool :=
  let strong := bool_decide (known_id = self_id) || bool_decide (known_self_id = Some self_id) in
  let weak := bool_decide (known_address ≠ "") && bool_decide (known_address ∈ local_ips) in
  (strong || weak, strong).

Definition persistent_peer_fields_changed (old new : Node) : bool :=
  bool_decide (n_hostname old ≠ n_hostname new) || bool_decide (n_pubkey old ≠ n_pubkey new)
  || bool_decide (n_manager old ≠ n_manager new) || bool_decide (n_self_id old ≠ n_self_id new)
  || bool_decide (n_public_ip old ≠ n_public_ip new)
  || bool_decide (n_workload_subnets old ≠ n_workload_subnets new)
  || bool_decide (n_site old ≠ n_site new)
  || bool_decide (n_display_name old ≠ n_display_name new)
  || bool_decide (n_roles old ≠ n_roles new)
  || bool_decide (n_poll_interval_secs old ≠ n_poll_interval_secs new)
  || bool_decide (n_tls old ≠ n_tls new) || bool_decide (n_has_docker old ≠ n_has_docker new)
  || bool_decide (n_has_lxc old ≠ n_has_lxc new) || bool_decide (n_has_kvm old ≠ n_has_kvm new).

(** ** The state *)

(** The files that hold this node's own settings; [None]: missing or not
    parseable. *)
Record SelfFiles := mk_self_files {
  f_cluster_name : option string; f_site : option string; f_display_name : option string;
  f_roles : option (list NodeRole); f_poll_interval : option Z; f_login_disabled : option bool
}.
#[global] Instance SelfFiles_eta : Eta SelfFiles := λ f,
  mk_self_files (f_cluster_name f) (f_site f) (f_display_name f) (f_roles f)
    (f_poll_interval f) (f_login_disabled f).

Record ClusterState := mk_cluster {
  nodes : gmap string Node;
  self_id : string;
  self_address : string;
  port : Z;
  deleted_ids : gset string;
  (** [None]: the file is missing or does not parse *)
  nodes_file : option (list Node);
  deleted_file : option (gset string);
  self_files : SelfFiles
}.
#[global] Instance ClusterState_eta : Eta ClusterState := λ c,
  mk_cluster (nodes c) (self_id c) (self_address c) (port c) (deleted_ids c)
    (nodes_file c) (deleted_file c) (self_files c).

(** What the code asks of its host. *)
Record Host := mk_host {
  os_hostname : string;
  local_ips : gset string;
  now_unix : Z;
  (** what becomes of each file written *)
  file_write : Write;
  backup_ok : bool;
  self_pubkey : option string;
  collect_workload_subnets : list string
}.

Section Ops.
Context (parse_ip : string → option IpAddr) {O : HashOrder Node}.
Implicit Types c : ClusterState.

Definition values c : list Node := (hm_iter (nodes c)).*2.

(** ** The files *)
Definition save_nodes (h : Host) c : ClusterState :=
  c <| nodes_file := overwrite (file_write h) (retain (λ n, negb (n_is_self n)) (values c)) (nodes_file c) |>.

Definition load_nodes c : ClusterState :=
  match nodes_file c with
  | Some saved =>
      c <| nodes := foldl (λ m n, <[n_id n := n <| n_online := false |> <| n_is_self := false |>]> m)
                      (nodes c) saved |>
  | None => c
  end.

Definition save_deleted_ids (h : Host) c : ClusterState :=
  c <| deleted_file := overwrite (file_write h) (deleted_ids c) (deleted_file c) |>.

Definition load_deleted_ids c : ClusterState :=
  match deleted_file c with
  | Some ids => c <| deleted_ids := deleted_ids c ∪ ids |>
  | None => c
  end.

Definition nonempty (o : option string) : option string :=
  s ← o; if bool_decide (s = "") then None else Some s.
Definition load_self_cluster_name c : option string := nonempty (f_cluster_name (self_files c)).
Definition load_self_site c : option string := nonempty (f_site (self_files c)).
Definition load_self_display_name c : option string := nonempty (f_display_name (self_files c)).
Definition load_self_roles c : list NodeRole := default [] (f_roles (self_files c)).
Definition load_self_poll_interval c : option Z := normalize_poll_interval (f_poll_interval (self_files c)).
Definition load_self_login_disabled c : option bool := f_login_disabled (self_files c).

Definition write_self (h : Host) (f : Write → SelfFiles → SelfFiles) c : ClusterState :=
  c <| self_files := f (file_write h) (self_files c) |>.
Definition save_self_cluster_name (h : Host) (name : string) : ClusterState → ClusterState :=
  write_self h (λ w f, f <| f_cluster_name := overwrite w name (f_cluster_name f) |>).
(** Saving the empty string removes the file. *)
Definition save_self_site (h : Host) (s : string) : ClusterState → ClusterState :=
  write_self h (λ w f, f <| f_site := overwrite_or_remove w (nonempty (Some s)) (f_site f) |>).
Definition save_self_display_name (h : Host) (s : string) : ClusterState → ClusterState :=
  write_self h (λ w f, f <| f_display_name := overwrite_or_remove w (nonempty (Some s)) (f_display_name f) |>).
Definition save_self_roles (h : Host) (rs : list NodeRole) : ClusterState → ClusterState :=
  write_self h (λ w f, f <| f_roles := overwrite_or_remove w
    (if bool_decide (rs = []) then None else Some rs) (f_roles f) |>).
Definition save_login_disabled_file (h : Host) (b : bool) : ClusterState → ClusterState :=
  write_self h (λ w f, f <| f_login_disabled := overwrite w b (f_login_disabled f) |>).

(** [for id in ids { nodes.remove(id) }] *)
Definition remove_ids (ids : list string) (m : gmap string Node) : gmap string Node :=
  foldl (λ m id, delete id m) m ids.

(** ** Reading the table *)
Definition self_poll_interval c : option Z :=
  n ← nodes c !! self_id c; n_poll_interval_secs n.

Definition online_window_for c (n : Node) : Z :=
  online_window_secs (effective_poll_interval (self_poll_interval c) (n_poll_interval_secs n)).

Definition get_all_nodes (now : Z) c : list Node :=
  let self_hostname := default "" (n_hostname <$> nodes c !! self_id c) in
  (λ n, if n_is_self n then n else
        let window := online_window_secs
          (effective_poll_interval (self_poll_interval c) (n_poll_interval_secs n)) in
        n <| n_online := sat_sub now (n_last_seen n) <? window |>)
  <$> retain (λ n, negb (is_self_alias n (self_id c) self_hostname (port c))) (values c).

Definition nodes_with_role (now : Z) (role : NodeRole) c : list Node :=
  retain (λ n, bool_decide (n_node_type n = "wolfstack") && bool_decide (role ∈ n_roles n))
    (get_all_nodes now c).

(** By the local key, or else by the peer's own id. *)
Definition get_node c (id : string) : option Node :=
  match nodes c !! id with
  | Some n => Some n
  | None => List.find (λ n, bool_decide (n_self_id n = Some id)) (values c)
  end.

Definition get_self_cluster_name c : string :=
  default "WolfStack" (n ← nodes c !! self_id c; n_cluster_name n).

(** The addresses [wolfstack_node_ips] collects, before its sort and dedup. *)
Definition trusted_node_ips (now : Z) c : list string :=
  (if bool_decide (self_address c = "") then [] else [self_address c])
  ++ concat ((λ n,
       if bool_decide (n_node_type n ≠ "wolfstack") then []
       else if negb (n_join_verified n) && negb (n_is_self n) then []
       else (if bool_decide (n_address n = "") then [] else [n_address n])
            ++ match n_public_ip n with
               | Some p => if bool_decide (p = "") then [] else [p]
               | None => []
               end) <$> get_all_nodes now c).
(** [sort] then [dedup]: the elements, each once, ascending. *)
Definition wolfstack_node_ips (now : Z) c : list string :=
  merge_sort String.le (remove_dups (trusted_node_ips now c)).

(** ** Tombstones and removal *)
Definition is_tombstoned c (id : string) : bool := bool_decide (id ∈ deleted_ids c).

Definition add_tombstone (h : Host) (id : string) c : ClusterState :=
  save_deleted_ids h (c <| deleted_ids := {[id]} ∪ deleted_ids c |>).

Definition remove_server (h : Host) (id : string) c : bool * ClusterState :=
  match nodes c !! id with
  | Some _ => (true, add_tombstone h id (save_nodes h (c <| nodes := delete id (nodes c) |>)))
  | None => (false, c)
  end.

Definition forget_self_alias (h : Host) (id : string) c : ClusterState :=
  match nodes c !! id with
  | Some _ => save_nodes h (c <| nodes := delete id (nodes c) |>)
  | None => c
  end.

(** One remote tombstone: the set and whether it changed. *)
Definition tombstone_fold (self : string) (acc : gset string * bool) (id : string) : gset string * bool :=
  let '(d, ch) := acc in
  if bool_decide (id ≠ self) && bool_decide (id ∉ d) then ({[id]} ∪ d, true) else (d, ch).

Definition merge_tombstones (h : Host) (remote_deleted : list string) c : ClusterState :=
  let '(deleted, changed) := foldl (tombstone_fold (self_id c)) (deleted_ids c, false) remote_deleted in
  let c := c <| deleted_ids := deleted |> in
  if negb changed then c else
  let to_remove := retain (λ k, bool_decide (k ∈ deleted)) (hm_iter (nodes c)).*1 in
  let c := save_deleted_ids h (c <| nodes := remove_ids to_remove (nodes c) |>) in
  if bool_decide (to_remove = []) then c else save_nodes h c.

(** ** Adding *)
Definition update_remote (n : Node) c : ClusterState := c <| nodes := <[n_id n := n]> (nodes c) |>.

Definition mark_verified (h : Host) (id : string) c : ClusterState :=
  save_nodes h (c <| nodes := alter (λ n, n <| n_join_verified := true |>) id (nodes c) |>).

Record ServerOptions := mk_server_options {
  so_address : string; so_port : Z; so_node_type : string; so_pve_token : option string;
  so_pve_fingerprint : option string; so_pve_node_name : option string;
  so_pve_cluster_name : option string; so_cluster_name : option string
}.

(** [fresh] is "node-" and the first eight characters of a new UUID. *)
Definition add_server_full (h : Host) (fresh : string) (o : ServerOptions) c : string * ClusterState :=
  match List.find (λ n, bool_decide (n_address n = so_address o) && bool_decide (n_port n = so_port o)
                        && bool_decide (n_node_type n = so_node_type o)
                        && bool_decide (n_pve_node_name n = so_pve_node_name o)) (values c) with
  | Some existing => (n_id existing, c)
  | None =>
      let n := mk_node fresh (so_address o) (so_address o) (so_port o) None (now_unix h) false false
        None (so_node_type o) (so_pve_token o) (so_pve_fingerprint o) (so_pve_node_name o)
        (so_pve_cluster_name o) (so_cluster_name o) false false false false false false None
        None None true [] None None [] None in
      (fresh, save_nodes h (c <| nodes := <[fresh := n]> (nodes c) |>))
  end.

Definition add_server (h : Host) (fresh address : string) (port : Z) (cluster_name : option string) c :
    string * ClusterState :=
  let '(id, c) := add_server_full h fresh
    (mk_server_options address port "wolfstack" None None None None cluster_name) c in
  (id, mark_verified h id c).

Definition add_proxmox_server (h : Host) (fresh address : string) (port : Z) (token : string)
    (fingerprint : option string) (node_name : string) (pve_cluster_name : option string) c :
    string * ClusterState :=
  let '(id, c) := add_server_full h fresh
    (mk_server_options address port "proxmox" (Some token) fingerprint (Some node_name)
       pve_cluster_name pve_cluster_name) c in
  (id, mark_verified h id c).

(** ** Merging a peer's member list *)

(** The self id under which an advertised member may be seeded; [None] skips it. *)
Definition seedable (h : Host) c (current : list Node) (added : gset string) (m : Node) : option string :=
  if bool_decide (n_node_type m ≠ "wolfstack") then None else
  if negb (is_usable_addr parse_ip (n_address m)) then None else
  match n_self_id m with
  | None => None
  | Some sid =>
      if bool_decide (sid = "") then None else
      if bool_decide (n_id m = self_id c) then None else
      if bool_decide (sid = self_id c) then None else
      if bool_decide (n_hostname m = os_hostname h) && bool_decide (n_port m = port c) then None else
      if bool_decide (n_address m = self_address c) && bool_decide (n_port m = port c) then None else
      if bool_decide (n_address m ∈ local_ips h) then None else
      if bool_decide (sid ∈ added) then None else
      if is_tombstoned c (n_id m) then None else
      let already_known := existsb (λ n,
        bool_decide (n_self_id n = Some sid) || bool_decide (n_id n = n_id m)
        || (bool_decide (n_address n = n_address m) && bool_decide (n_port n = n_port m)
            && bool_decide (n_pve_node_name n = n_pve_node_name m))
        || (bool_decide (n_hostname n = n_hostname m) && bool_decide (n_port n = n_port m)
            && bool_decide (n_node_type n = n_node_type m))) current in
      if already_known then None else
      if negb (is_private_address parse_ip (n_address m)) then None else Some sid
  end.

(** How a seeded record is stored: offline, its key never relayed. *)
Definition as_seeded (m : Node) : Node :=
  m <| n_online := false |> <| n_is_self := false |> <| n_pubkey := None |> <| n_manager := true |>.

Definition merge_member (h : Host) (current : list Node) (st : gset string * ClusterState) (m : Node) :
    gset string * ClusterState :=
  let '(added, c) := st in
  match seedable h c current added m with
  | None => (added, c)
  | Some sid => ({[sid]} ∪ added, save_nodes h (update_remote (as_seeded m) c))
  end.

Definition merge_member_refs (h : Host) (members : list Node) c : ClusterState :=
  (foldl (merge_member h (get_all_nodes (now_unix h) c)) (∅, c) members).2.

(** ** Duplicates, ghosts, unverified records *)

(** The sort key of [plan_prune]: four flags (false first), then the id. *)
Definition prune_rank (n : Node) : Z :=
  8 * Z.b2z (negb (n_is_self n)) + 4 * Z.b2z (negb (n_join_verified n))
  + 2 * Z.b2z (negb (n_online n)) + Z.b2z (negb (is_usable_addr parse_ip (n_address n))).
Definition prune_le (a b : Node) : Prop :=
  prune_rank a < prune_rank b ∨ prune_rank a = prune_rank b ∧ String.le (n_id a) (n_id b).
#[local] Instance prune_le_dec a b : Decision (prune_le a b).
Proof. unfold prune_le, String.le. apply _. Defined.

Definition prune_sid (n : Node) : option string :=
  s ← n_self_id n; if bool_decide (s = "") then None else Some s.
Definition prune_addr (n : Node) : option (string * Z) :=
  if is_usable_addr parse_ip (n_address n) then Some (n_address n, n_port n) else None.

Record PruneState := mk_prune {
  seen_self_ids : gset string; seen_addrs : gset (string * Z); to_prune : list string
}.

Definition prune_step (st : PruneState) (n : Node) : PruneState :=
  if n_is_self n then st else
  let dup_sid := match prune_sid n with Some s => bool_decide (s ∈ seen_self_ids st) | None => false end in
  let dup_addr := match prune_addr n with Some a => bool_decide (a ∈ seen_addrs st) | None => false end in
  if dup_sid || dup_addr then mk_prune (seen_self_ids st) (seen_addrs st) (to_prune st ++ [n_id n])
  else mk_prune (match prune_sid n with Some s => {[s]} ∪ seen_self_ids st | None => seen_self_ids st end)
                (match prune_addr n with Some a => {[a]} ∪ seen_addrs st | None => seen_addrs st end)
                (to_prune st).

Definition plan_prune (entries : list Node) : list string :=
  to_prune (foldl prune_step (mk_prune ∅ ∅ []) (merge_sort prune_le entries)).

Definition prune_duplicate_nodes (h : Host) c : nat * ClusterState :=
  let before := size (nodes c) in
  let c' := c <| nodes := remove_ids (plan_prune (values c)) (nodes c) |> in
  let removed := (before - size (nodes c'))%nat in
  (removed, if bool_decide (0 < removed)%nat then save_nodes h c' else c').

Definition cleanup_ghosts (h : Host) c : ClusterState :=
  let ghosts := n_id <$> retain (λ n, is_self_alias n (self_id c) (os_hostname h) (port c)) (values c) in
  let c := c <| nodes := remove_ids ghosts (nodes c) |> in
  if bool_decide (ghosts = []) then c else save_nodes h c.

Definition purge_unverified (h : Host) c : ClusterState :=
  let unverified := n_id <$> retain (λ n, negb (n_is_self n) && bool_decide (n_node_type n = "wolfstack")
                                          && negb (n_join_verified n)) (values c) in
  let c := c <| nodes := remove_ids unverified (nodes c) |> in
  if bool_decide (unverified = []) then c else save_nodes h c.

(** Records of the retired Proxmox integration, dropped and tombstoned once
    nodes.json has been backed up. *)
Definition cleanup_proxmox_legacy (h : Host) c : ClusterState :=
  let entries := n_id <$> retain (λ n, bool_decide (n_node_type n = "proxmox")) (values c) in
  if bool_decide (entries = []) || negb (backup_ok h) then c else
  save_deleted_ids h (save_nodes h
    (c <| nodes := remove_ids entries (nodes c) |>
       <| deleted_ids := list_to_set entries ∪ deleted_ids c |>)).

(** [ClusterState::new] on the files of an earlier run. *)
Definition new (h : Host) (sid saddr : string) (sport : Z)
    (nf : option (list Node)) (df : option (gset string)) (sf : SelfFiles) : ClusterState :=
  let c := mk_cluster ∅ sid saddr sport ∅ nf df sf in
  (prune_duplicate_nodes h (purge_unverified h (cleanup_ghosts h
     (cleanup_proxmox_legacy h (load_nodes (load_deleted_ids c)))))).2.

Definition clear_membership_in_memory c : ClusterState :=
  c <| nodes := match nodes c !! self_id c with
                | Some s => {[self_id c := s]}
                | None => ∅
                end |>
    <| deleted_ids := ∅ |>.

(** ** The self entry *)
Definition self_registry_address (h : Host) (ip_order : list string) c : string :=
  let already := match to_canonical <$> parse_ip (self_address c) with
                 | Some (V4 n) => v4_private n | _ => false end in
  if already then self_address c else
  let prefixes := omap (λ n, lan24_prefix parse_ip (n_address n))
    (retain (λ n, negb (n_is_self n) && bool_decide (n_node_type n = "wolfstack")) (values c)) in
  if bool_decide (prefixes = []) then self_address c else
  default (self_address c)
    (List.find (λ ip, match lan24_prefix parse_ip ip with
                      | Some p => bool_decide (p ∈ prefixes) | None => false end) ip_order).

(** What the agent measured of its own host. *)
Record SelfStatus := mk_self_status {
  ss_hostname : string; ss_public_ip : option string;
  ss_has_docker : bool; ss_has_lxc : bool; ss_has_kvm : bool; ss_tls_enabled : bool
}.

(** [ip_order]: the iteration order of the host's address set. *)
Definition update_self (h : Host) (ip_order : list string) (s : SelfStatus) c : ClusterState :=
  let addr := self_registry_address h ip_order c in
  let prev := nodes c !! self_id c in
  let me := mk_node (self_id c) (ss_hostname s) addr (port c) None (now_unix h) true true
    (ss_public_ip s) "wolfstack" None None None None
    (match p ← prev; n_cluster_name p with
     | Some x => Some x
     | None => match load_self_cluster_name c with Some x => Some x | None => Some "WolfStack" end
     end)
    true (ss_has_docker s) (ss_has_lxc s) (ss_has_kvm s)
    (match prev with
     | Some p => n_login_disabled p | None => default false (load_self_login_disabled c) end)
    (ss_tls_enabled s) (p ← prev; n_update_script p) None (self_pubkey h)
    (match prev with Some p => n_manager p | None => true end)
    (collect_workload_subnets h)
    (match p ← prev; n_site p with Some x => Some x | None => load_self_site c end)
    (match p ← prev; n_display_name p with Some x => Some x | None => load_self_display_name c end)
    (match n_roles <$> prev with
     | Some (r :: rs) => r :: rs | _ => load_self_roles c end)
    (match p ← prev; n_poll_interval_secs p with
     | Some x => Some x | None => load_self_poll_interval c end) in
  let m := <[self_id c := me]> (nodes c) in
  let kept := map_retain (λ id n, bool_decide (id = self_id c) || n_is_self n
                || bool_decide (n_address n = "") || bool_decide (n_address n ∉ local_ips h)) m in
  let c := c <| nodes := kept |> in
  if bool_decide (size kept < size m)%nat then save_nodes h c else c.

(** ** Settings *)
Definition set_self_poll_interval (h : Host) (secs : option Z) c : bool * ClusterState :=
  let secs := normalize_poll_interval secs in
  let c := c <| nodes := alter (λ n, n <| n_poll_interval_secs := secs |>) (self_id c) (nodes c) |> in
  (is_stored (file_write h),
   write_self h (λ w f, f <| f_poll_interval := overwrite_or_remove w secs (f_poll_interval f) |>) c).

Record NodeSettings := mk_settings {
  s_hostname : option string; s_address : option string; s_port : option Z;
  s_pve_token : option string; s_pve_fingerprint : option (option string);
  s_cluster_name : option string; s_login_disabled : option bool;
  s_update_script : option string; s_site : option string; s_display_name : option string;
  s_migration_address : option string; s_manager : option bool
}.

Definition when {A B} (o : option A) (f : A → B → B) (b : B) : B :=
  match o with Some a => f a b | None => b end.

Definition apply_settings (s : NodeSettings) (n : Node) : Node :=
  let n := when (s_manager s) (λ x n, n <| n_manager := x |>) n in
  let n := when (s_hostname s) (λ x n, n <| n_hostname := x |>) n in
  let n := when (s_address s) (λ x n, n <| n_address := x |>) n in
  let n := when (s_port s) (λ x n, n <| n_port := x |>) n in
  let n := when (s_migration_address s)
             (λ x n, n <| n_migration_address := nonempty (Some (trim x)) |>) n in
  let n := when (s_pve_token s) (λ x n, n <| n_pve_token := Some x |>) n in
  let n := when (s_pve_fingerprint s) (λ x n, n <| n_pve_fingerprint := x |>) n in
  let n := when (s_login_disabled s) (λ x n, n <| n_login_disabled := x |>) n in
  let n := when (s_update_script s) (λ x n, n <| n_update_script := nonempty (Some x) |>) n in
  let n := when (s_site s) (λ x n, n <| n_site := nonempty (Some x) |>) n in
  let n := when (s_display_name s) (λ x n, n <| n_display_name := nonempty (Some x) |>) n in
  when (s_cluster_name s) (λ x n,
    let n := n <| n_cluster_name := Some x |> in
    if bool_decide (n_node_type n = "proxmox") then n <| n_pve_cluster_name := Some x |> else n) n.

Definition update_node_settings (h : Host) (id : string) (s : NodeSettings) c : bool * ClusterState :=
  match nodes c !! id with
  | None => (false, c)
  | Some old =>
      let n := apply_settings s old in
      let c := save_nodes h (c <| nodes := <[id := n]> (nodes c) |>) in
      (true,
       if negb (n_is_self n) then c else
       let c := when (n_cluster_name n) (save_self_cluster_name h) c in
       let c := when (s_site s) (λ _, save_self_site h (default "" (n_site n))) c in
       let c := when (s_display_name s)
                  (λ _, save_self_display_name h (default "" (n_display_name n))) c in
       when (s_login_disabled s) (save_login_disabled_file h) c)
  end.

(** ** A poll *)

(** The parts of a peer's status report that reach the table. *)
Record StatusReport := mk_report {
  sr_node_id : string; sr_hostname : string; sr_public_ip : option string;
  sr_known_nodes : list Node; sr_deleted_ids : list string;
  sr_has_docker : bool; sr_has_lxc : bool; sr_has_kvm : bool;
  sr_workload_subnets : list string; sr_site : option string;
  sr_display_name : option string; sr_roles : list NodeRole;
  sr_poll_interval_secs : option Z; sr_pubkey : option string
}.

(** The key kept for a peer: its first one, whatever it says later. *)
Definition pin_key (live advertised : option string) : option string :=
  match nonempty live, nonempty advertised with
  | None, Some k => Some k
  | Some old, _ => Some old
  | None, None => None
  end.

(** The record a report turns [snapshot], the peer's record when the cycle
    began, into. *)
Definition polled_node (h : Host) (tls : bool) (snapshot : Node) (r : StatusReport) c : Node :=
  let live := get_node c (n_id snapshot) in
  let live_pubkey := match live with Some n => n_pubkey n | None => n_pubkey snapshot end in
  let live_manager := match live with Some n => n_manager n | None => n_manager snapshot end in
  mk_node (n_id snapshot) (sr_hostname r) (n_address snapshot) (n_port snapshot)
    (n_migration_address snapshot) (now_unix h) true false (sr_public_ip r) "wolfstack"
    None None None None (n_cluster_name snapshot) (n_join_verified snapshot)
    (sr_has_docker r) (sr_has_lxc r) (sr_has_kvm r) (n_login_disabled snapshot) tls
    (n_update_script snapshot)
    (if bool_decide (sr_node_id r = "") then n_self_id snapshot else Some (sr_node_id r))
    (pin_key live_pubkey (sr_pubkey r)) live_manager (sr_workload_subnets r) (sr_site r)
    (sr_display_name r) (sr_roles r) (normalize_poll_interval (sr_poll_interval_secs r)).

(** An operator's edit that its owner has not confirmed. *)
Record IdentityIntent := mk_intent { in_display_name : option string; in_cluster_name : option string; in_ts : Z }.

(** One gossiped record; [current] is the table when the report arrived. *)
Definition merge_known (h : Host) (intents : gmap string IdentityIntent) (current : list Node)
    c (known : Node) : ClusterState :=
  let '(is_self, strong) := gossip_identity_match (n_id known) (n_self_id known) (n_address known)
                              (self_id c) (local_ips h) in
  if is_self then
    match strong, n_display_name known with
    | true, Some name =>
        let want := nonempty (Some name) in
        let cur := n ← nodes c !! self_id c; n_display_name n in
        if bool_decide (cur = want) then c else
        save_self_display_name h (default "" want)
          (c <| nodes := alter (λ n, n <| n_display_name := want |>) (self_id c) (nodes c) |>)
    | _, _ => c
    end
  else if bool_decide (n_node_type known = "wolfstack") && bool_decide (n_hostname known = os_hostname h)
          && bool_decide (n_port known = port c) then c
  else if is_tombstoned c (n_id known) then c
  else match List.find (λ n, bool_decide (n_id n = n_id known)) current with
  | Some existing =>
      let intent := intents !! n_id known in
      let eff_cluster := match i ← intent; in_cluster_name i with
                         | Some _ => n_cluster_name existing | None => n_cluster_name known end in
      let eff_display := match i ← intent; in_display_name i with
                         | Some _ => n_display_name existing | None => n_display_name known end in
      let usable := is_usable_addr parse_ip (n_address known) in
      if (usable && bool_decide (n_address existing ≠ n_address known))
         || bool_decide (n_hostname existing ≠ n_hostname known)
         || bool_decide (n_port existing ≠ n_port known)
         || bool_decide (n_pve_token existing ≠ n_pve_token known)
         || bool_decide (n_pve_fingerprint existing ≠ n_pve_fingerprint known)
         || negb (cluster_eq (n_cluster_name existing) eff_cluster)
         || (bool_decide (eff_display ≠ None) && bool_decide (n_display_name existing ≠ eff_display))
      then (update_node_settings h (n_id known)
              (mk_settings (Some (n_hostname known))
                 (Some (if usable then n_address known else n_address existing))
                 (Some (n_port known)) (n_pve_token known)
                 (match n_pve_fingerprint known, n_pve_fingerprint existing with
                  | None, None => None | fp, _ => Some fp end)
                 eff_cluster None None None eff_display None None) c).2
      else c
  | None =>
      let sid := nonempty (n_self_id known) in
      let already_known := existsb (λ n,
        (bool_decide (sid ≠ None) && bool_decide (n_self_id n = sid))
        || (bool_decide (n_address n = n_address known) && bool_decide (n_port n = n_port known)
            && bool_decide (n_pve_node_name n = n_pve_node_name known))
        || (bool_decide (n_hostname n = n_hostname known) && bool_decide (n_port n = n_port known)
            && bool_decide (n_node_type n = n_node_type known))) current in
      if negb already_known && bool_decide (sid ≠ None) && is_private_address parse_ip (n_address known)
      then save_nodes h (update_remote (as_seeded known) c) else c
  end.

(** The failure counts of [POLL_FAIL_COUNTS] and whether the cycle has to
    flush nodes.json. *)
Record PollState := mk_poll { ps_fails : gmap string Z; ps_persist : bool; ps_cluster : ClusterState }.

Definition poll_answered (h : Host) (intents : gmap string IdentityIntent) (tls : bool)
    (snapshot : Node) (r : StatusReport) (p : PollState) : PollState :=
  let c := ps_cluster p in
  if bool_decide (sr_node_id r ≠ "") && bool_decide (sr_node_id r = self_id c)
  then mk_poll (ps_fails p) (ps_persist p) (forget_self_alias h (n_id snapshot) c) else
  let updated := polled_node h tls snapshot r c in
  let c := merge_tombstones h (sr_deleted_ids r) (update_remote updated c) in
  let current := get_all_nodes (now_unix h) c in
  mk_poll (delete (n_id snapshot) (ps_fails p))
    (ps_persist p || persistent_peer_fields_changed snapshot updated)
    (foldl (merge_known h intents current) c (sr_known_nodes r)).

Definition poll_failed (h : Host) (snapshot : Node) (p : PollState) : PollState :=
  let count := default 0 (ps_fails p !! n_id snapshot) + 1 in
  mk_poll (<[n_id snapshot := count]> (ps_fails p)) (ps_persist p)
    (if count <? 2 then
       ps_cluster p <| nodes := alter (λ n, n <| n_last_seen := now_unix h |>) (n_id snapshot)
                                  (nodes (ps_cluster p)) |>
     else ps_cluster p).

Definition poll_finish (h : Host) (p : PollState) : ClusterState :=
  if ps_persist p then save_nodes h (ps_cluster p) else ps_cluster p.

(** ** A control-plane bundle *)
Record Bundle := mk_bundle { b_from_id : string; b_members : list Node; b_deleted_ids : list string }.

Definition repair_sender (from_id addr : string) (m : Node) : Node :=
  if (bool_decide (n_id m = from_id) || bool_decide (n_self_id m = Some from_id))
     && negb (is_usable_addr parse_ip (n_address m))
  then m <| n_address := addr |> else m.

Definition apply_control_plane_bundle (h : Host) (b : Bundle) (sender_addr : option string) c : ClusterState :=
  let c := merge_tombstones h (b_deleted_ids b) c in
  let members := match sender_addr with
                 | Some a => if is_usable_addr parse_ip a
                             then repair_sender (b_from_id b) a <$> b_members b else b_members b
                 | None => b_members b
                 end in
  merge_member_refs h members c.
End Ops.
