(* ===== verification/ClusterInv.v ===== *)
(** * Cluster membership: the tombstone invariant

    No watched id is both in the table and tombstoned, and the two files agree
    with memory well enough that a restart keeps it so; every operation
    preserves this, except a poll of a watched peer that was removed while the
    poll was in flight: hence the choice of which ids are watched. *)
From stdpp Require Import relations.
From S2P Require Import Prelude Net Cluster.

(** The ids the invariant speaks of. *)
Class Watched := watched : string → Prop.

Section Inv.
Context {W : Watched} {O : HashOrder Node}.
Implicit Types c : ClusterState.

Lemma elem_of_values c n : n ∈ values c ↔ ∃ k, nodes c !! k = Some n.
Proof.
  unfold values. rewrite hm_iter_perm, list_elem_of_fmap. split.
  - intros ([k m] & -> & H%elem_of_map_to_list). eauto.
  - intros [k H]. exists (k, n). by rewrite elem_of_map_to_list.
Qed.

Lemma elem_of_hm_keys (m : gmap string Node) k : k ∈ (hm_iter m).*1 ↔ is_Some (m !! k).
Proof.
  rewrite hm_iter_perm, list_elem_of_fmap. split.
  - intros ([k' n] & -> & H%elem_of_map_to_list). eauto.
  - intros [n H]. exists (k, n). by rewrite elem_of_map_to_list.
Qed.

Lemma remove_ids_lookup ids (m : gmap string Node) k :
  remove_ids ids m !! k = if decide (k ∈ ids) then None else m !! k.
Proof.
  unfold remove_ids. revert m. induction ids as [|i ids IH]; intros m; cbn [foldl].
  { by rewrite decide_False by set_solver. }
  rewrite IH. destruct (decide (k = i)) as [->|].
  - rewrite lookup_delete_eq. by repeat case_decide; set_solver.
  - rewrite lookup_delete_ne by done. by repeat case_decide; set_solver.
Qed.

Lemma remove_ids_subseteq ids (m : gmap string Node) : remove_ids ids m ⊆ m.
Proof.
  apply map_subseteq_spec. intros k n. rewrite remove_ids_lookup. by case_decide.
Qed.

(** ** The part that only speaks of memory *)
Record core c : Prop := {
  keyed k n : nodes c !! k = Some n → n_id n = k;
  not_tombstoned k : watched k → is_Some (nodes c !! k) → k ∉ deleted_ids c;
  self_kept : self_id c ∉ deleted_ids c;
  peers_not_self k n : nodes c !! k = Some n → n_is_self n = false → k ≠ self_id c
}.

(** ** The part that speaks of the files *)
Record synced c : Prop := {
  file_known l n : nodes_file c = Some l → n ∈ l →
    (watched (n_id n) → is_Some (nodes c !! n_id n)) ∧ n_id n ≠ self_id c;
  file_deleted : default ∅ (deleted_file c) = deleted_ids c
}.

Definition cinv c : Prop := core c ∧ synced c.

(** [d] has the table's state of [c] except perhaps for its files. *)
Lemma core_same c d :
  nodes d = nodes c → deleted_ids d = deleted_ids c → self_id d = self_id c → core c → core d.
Proof. intros Hn Hd Hs [????]; split; rewrite ?Hn, ?Hd, ?Hs; eauto. Qed.

Lemma synced_same c d :
  dom (nodes c) ⊆ dom (nodes d) → deleted_ids d = deleted_ids c → self_id d = self_id c →
  nodes_file d = nodes_file c → deleted_file d = deleted_file c → synced c → synced d.
Proof.
  intros Hn Hd Hs Hf Hg [Hk Hdel]. split; rewrite ?Hd, ?Hs, ?Hf, ?Hg; [|done].
  intros l n Hl Hin. destruct (Hk l n Hl Hin) as [Hx ?]. split; [|done].
  intros Hw. apply elem_of_dom, Hn. by apply elem_of_dom, Hx.
Qed.

Lemma core_sub c m : core c → m ⊆ nodes c → core (c <| nodes := m |>).
Proof.
  intros [Hk Ht Hs Hp] Hm. split; cbn [nodes deleted_ids self_id setter].
  - intros k n H. eapply Hk, lookup_weaken; eauto.
  - intros k Hw [n H]. eapply Ht; [done|]. eexists. by eapply lookup_weaken.
  - done.
  - intros k n H. eapply Hp, lookup_weaken; eauto.
Qed.

Lemma core_insert c n :
  core c → (watched (n_id n) → n_id n ∉ deleted_ids c) → (n_is_self n = false → n_id n ≠ self_id c) →
  core (c <| nodes := <[n_id n := n]> (nodes c) |>).
Proof.
  intros [Hk Ht Hs Hp] Hn Hself. split; cbn [nodes deleted_ids self_id setter]; [|..|done|].
  - intros k x. rewrite lookup_insert_Some. naive_solver.
  - intros k Hw. rewrite lookup_insert_is_Some. intros [<-|[??]]; eauto.
  - intros k x. rewrite lookup_insert_Some. naive_solver.
Qed.

Lemma core_alter c f k :
  (∀ n, n_id (f n) = n_id n) → (∀ n, n_is_self (f n) = n_is_self n) →
  core c → core (c <| nodes := alter f k (nodes c) |>).
Proof.
  intros Hid Hself Hc. destruct (nodes c !! k) as [n|] eqn:Hk.
  - rewrite (alter_Some _ _ _ _ Hk).
    assert (Hn : n_id (f n) = k) by (rewrite Hid; by eapply keyed).
    rewrite <-Hn. apply core_insert; [done|..]; rewrite Hn.
    + intros Hw. eapply not_tombstoned; eauto.
    + intros Hf. rewrite Hself in Hf. by apply (peers_not_self c Hc k n).
  - rewrite (alter_missing f _ _ Hk). by apply (core_same c).
Qed.

Lemma dom_alter_node (f : Node → Node) k (m : gmap string Node) : dom (alter f k m) = dom m.
Proof.
  destruct (m !! k) as [n|] eqn:Hk; [|by rewrite alter_missing].
  rewrite (alter_Some _ _ _ _ Hk), dom_insert_L.
  assert (k ∈ dom m) by (by apply elem_of_dom_2 in Hk). set_solver.
Qed.

(** ** Writing the files *)
Section Writes.
Context (h : Host).

Lemma nodes_save_nodes c : nodes (save_nodes h c) = nodes c.
Proof. unfold save_nodes. by destruct (file_write h). Qed.
Lemma deleted_save_nodes c : deleted_ids (save_nodes h c) = deleted_ids c.
Proof. unfold save_nodes. by destruct (file_write h). Qed.
Lemma self_save_nodes c : self_id (save_nodes h c) = self_id c.
Proof. unfold save_nodes. by destruct (file_write h). Qed.
Lemma deleted_file_save_nodes c : deleted_file (save_nodes h c) = deleted_file c.
Proof. unfold save_nodes. by destruct (file_write h). Qed.

Lemma core_save_nodes c : core c → core (save_nodes h c).
Proof. apply core_same; auto using nodes_save_nodes, deleted_save_nodes, self_save_nodes. Qed.

Lemma core_save_deleted c : core c → core (save_deleted_ids h c).
Proof. unfold save_deleted_ids. by apply core_same. Qed.

Context (Hok : file_write h = Stored).

(** Writing nodes.json brings it in step with any table. *)
Lemma save_nodes_synced c :
  core c → default ∅ (deleted_file c) = deleted_ids c → cinv (save_nodes h c).
Proof using Hok.
  intros Hc Hd. split; [by apply core_save_nodes|].
  split; [|by rewrite deleted_file_save_nodes, deleted_save_nodes].
  intros l n. rewrite nodes_save_nodes, self_save_nodes. unfold save_nodes. rewrite Hok.
  cbn [nodes_file setter]. intros [= <-] [[k Hk]%elem_of_values Hself]%elem_of_retain.
  apply negb_true_iff in Hself. pose proof (keyed _ Hc _ _ Hk) as ->.
  split; [eauto|]. eapply peers_not_self; eauto.
Qed.

(** Drop some ids and save. *)
Lemma remove_save_cinv c ids :
  cinv c → cinv (save_nodes h (c <| nodes := remove_ids ids (nodes c) |>)).
Proof using Hok.
  intros [Hc [_ Hd]]. apply save_nodes_synced; [|done].
  apply core_sub; [done|]. apply remove_ids_subseteq.
Qed.

Lemma insert_save_cinv c n :
  cinv c → (watched (n_id n) → n_id n ∉ deleted_ids c) → (n_is_self n = false → n_id n ≠ self_id c) →
  cinv (save_nodes h (update_remote n c)).
Proof using Hok.
  intros [Hc [_ Hd]] ??. apply save_nodes_synced; [|done]. by apply core_insert.
Qed.

(** Replace the tombstones by more of them, and the table by a part of it that
    has none of those watched. *)
Lemma core_tombstone c (D : gset string) (m : gmap string Node) :
  core c → m ⊆ nodes c → (∀ k, watched k → k ∈ D → m !! k = None) → self_id c ∉ D →
  core (c <| nodes := m |> <| deleted_ids := D |>).
Proof.
  intros Hc Hm HD Hself. destruct (core_sub c m Hc Hm) as [Hk Ht Hs Hp].
  split; [exact Hk| |exact Hself|exact Hp].
  cbn [nodes deleted_ids setter]. intros k Hw Hx Hin. rewrite (HD _ Hw Hin) in Hx. by destruct Hx.
Qed.

(** With the tombstones written too, nodes.json may stay as it is when no
    record was dropped. *)
Lemma tombstone_cinv c (D : gset string) (m : gmap string Node) (saved : bool) :
  cinv c → m ⊆ nodes c → (∀ k, watched k → k ∈ D → m !! k = None) → self_id c ∉ D →
  (saved = false → m = nodes c) →
  let d := save_deleted_ids h (c <| nodes := m |> <| deleted_ids := D |>) in
  cinv (if saved then save_nodes h d else d).
Proof using Hok.
  intros [Hc Hs] Hm HD Hself Hsame d.
  assert (Hd : core d) by (apply core_save_deleted; by apply core_tombstone).
  assert (Hf : default ∅ (deleted_file d) = deleted_ids d)
    by (unfold d, save_deleted_ids; by rewrite Hok).
  destruct saved; [by apply save_nodes_synced|]. split; [done|]. split; [|done].
  unfold d, save_deleted_ids. rewrite Hok. cbn [nodes_file nodes self_id setter].
  rewrite Hsame by done. apply Hs.
Qed.
End Writes.
End Inv.

(** ** The operations *)
Section Ops.
Context {W : Watched} {O : HashOrder Node}.
Context (h : Host).
Implicit Types c : ClusterState.

Lemma tombstone_fold_spec self ids d ch d' ch' :
  foldl (tombstone_fold self) (d, ch) ids = (d', ch') → self ∉ d →
  d' = d ∪ (list_to_set ids ∖ {[self]}) ∧ (ch' = false → ch = false ∧ d' = d).
Proof.
  revert d ch. induction ids as [|i ids IH]; intros d ch; cbn [foldl].
  { intros [= <- <-] ?. split; [set_solver|done]. }
  unfold tombstone_fold at 2. destruct (_ && _) eqn:Hb; intros Hf Hself; bool_props.
  - destruct (IH _ _ Hf) as [-> Hch]; [set_solver|]. split; [set_solver|]. by intros [??]%Hch.
  - apply andb_false_iff in Hb. destruct (IH _ _ Hf Hself) as [-> Hch]. split.
    + destruct Hb as [Hb|Hb]; apply bool_decide_eq_false in Hb; [|apply dec_stable in Hb]; set_solver.
    + intros [??]%Hch. done.
Qed.

Lemma merge_tombstones_unfold c remote D ch :
  foldl (tombstone_fold (self_id c)) (deleted_ids c, false) remote = (D, ch) →
  let gone := retain (λ k, bool_decide (k ∈ D)) (hm_iter (nodes c)).*1 in
  merge_tombstones h remote c =
    if ch then
      let d := save_deleted_ids h (c <| nodes := remove_ids gone (nodes c) |> <| deleted_ids := D |>) in
      if bool_decide (gone = []) then d else save_nodes h d
    else c <| deleted_ids := D |>.
Proof. intros H gone. unfold merge_tombstones. rewrite H. by destruct ch. Qed.

Lemma merge_tombstones_deleted c remote :
  self_id c ∉ deleted_ids c →
  deleted_ids (merge_tombstones h remote c) = deleted_ids c ∪ (list_to_set remote ∖ {[self_id c]}).
Proof.
  intros Hself. destruct (foldl (tombstone_fold (self_id c)) (deleted_ids c, false) remote) as [D ch] eqn:HD.
  rewrite (merge_tombstones_unfold _ _ _ _ HD).
  destruct (tombstone_fold_spec _ _ _ _ _ _ HD Hself) as [<- _].
  destruct ch; [|done]. case_bool_decide; rewrite ?deleted_save_nodes; unfold save_deleted_ids;
    by destruct (file_write h).
Qed.

Context (Hok : file_write h = Stored).

Lemma remove_server_cinv c id :
  cinv c → id ≠ self_id c → cinv (remove_server h id c).2.
Proof using Hok.
  intros [Hc [Hf Hd]] Hid. unfold remove_server. destruct (nodes c !! id) eqn:Hn; [|done].
  cbn [snd]. set (d := c <| nodes := delete id (nodes c) |>).
  assert (Hsub : nodes d ⊆ nodes c) by apply delete_subseteq.
  destruct (save_nodes_synced h Hok d) as [Hc' [Hk' Hd']]; [by apply core_sub|done|].
  unfold add_tombstone, save_deleted_ids. rewrite Hok. split.
  - eapply core_same; [..|apply (core_tombstone (save_nodes h d)
      ({[id]} ∪ deleted_ids (save_nodes h d)) (nodes (save_nodes h d)) Hc')]; [done..| |].
    + intros k Hw. rewrite nodes_save_nodes, deleted_save_nodes. intros [->%elem_of_singleton|Hin]%elem_of_union.
      * apply lookup_delete_eq.
      * destruct (nodes d !! k) eqn:Hx; [|done].
        destruct (not_tombstoned _ Hc k Hw); [|done]. eexists. by eapply lookup_weaken.
    + rewrite self_save_nodes, deleted_save_nodes. pose proof (self_kept _ Hc). cbn in *. set_solver.
  - split; [exact Hk'|done].
Qed.

Lemma forget_self_alias_cinv c id : cinv c → cinv (forget_self_alias h id c).
Proof using Hok.
  intros Hi. unfold forget_self_alias. destruct (nodes c !! id); [|exact Hi].
  destruct Hi as [Hc [_ Hd]]. apply save_nodes_synced; [done| |done]. apply core_sub; [done|]. apply delete_subseteq.
Qed.

Lemma merge_tombstones_cinv c remote : cinv c → cinv (merge_tombstones h remote c).
Proof using Hok.
  intros Hi. pose proof Hi as [Hc _]. pose proof (self_kept _ Hc) as Hself.
  destruct (foldl (tombstone_fold (self_id c)) (deleted_ids c, false) remote) as [D ch] eqn:HD.
  rewrite (merge_tombstones_unfold _ _ _ _ HD).
  destruct (tombstone_fold_spec _ _ _ _ _ _ HD Hself) as [HD' Hch]. destruct ch.
  - set (gone := retain _ _). cbv zeta.
    assert (Hself' : self_id c ∉ D) by (rewrite HD'; set_solver +Hself).
    assert (Hgone : ∀ k, watched k → k ∈ D → remove_ids gone (nodes c) !! k = None).
    { intros k _ Hk. rewrite remove_ids_lookup. case_decide as Hin; [done|].
      destruct (nodes c !! k) eqn:Hx; [|done]. destruct Hin. apply elem_of_retain.
      rewrite elem_of_hm_keys, bool_decide_true by done. eauto. }
    pose proof (tombstone_cinv h Hok c D (remove_ids gone (nodes c)) (negb (bool_decide (gone = [])))
                  Hi (remove_ids_subseteq _ _) Hgone Hself') as Hgoal. cbv zeta in Hgoal.
    case_bool_decide as Hg; cbn [negb] in Hgoal; apply Hgoal; [|done]. intros _. by rewrite Hg.
  - destruct (Hch eq_refl) as [_ ->]. destruct Hi as [Hi1 Hi2]. split.
    + by apply (core_same c).
    + by apply (synced_same c).
Qed.
End Ops.

Section Merge.
Context (parse_ip : string → option IpAddr) {W : Watched} {O : HashOrder Node}.
Context (h : Host).
Implicit Types c : ClusterState.

Lemma seedable_Some c current added m sid :
  seedable parse_ip h c current added m = Some sid →
  n_self_id m = Some sid ∧ (n_id m ≠ self_id c) ∧ (sid ≠ self_id c) ∧ (sid ∉ added) ∧
  (n_id m ∉ deleted_ids c) ∧ is_private_address parse_ip (n_address m) = true ∧
  is_usable_addr parse_ip (n_address m) = true ∧ (n_address m ∉ local_ips h) ∧
  Forall (λ n, (n_id n ≠ n_id m) ∧ (n_self_id n ≠ Some sid)) current.
Proof.
  unfold seedable, is_tombstoned. intros Hs.
  repeat match type of Hs with
  | (if ?b then _ else _) = _ => destruct b eqn:?; [done|]
  | match ?x with _ => _ end = _ => destruct x eqn:?; [|done]
  | match ?b with _ => _ end = _ => destruct b eqn:?; [done|]
  end.
  injection Hs as <-. bool_props. split_and!; try done.
  match goal with H : existsb _ _ = false |- _ => apply existsb_Forall in H as Hall end.
  eapply Forall_impl; [exact Hall|]. cbn. intros n Hn. bool_props. auto.
Qed.

Lemma as_seeded_id m : n_id (as_seeded m) = n_id m.
Proof. done. Qed.

Section Written.
Context (Hok : file_write h = Stored).

Lemma merge_member_cinv current added c m :
  cinv c → cinv (merge_member parse_ip h current (added, c) m).2.
Proof using Hok.
  intros Hi. unfold merge_member. destruct (seedable _ _ _ _ _ _) as [sid|] eqn:Hs; [|exact Hi].
  destruct (seedable_Some _ _ _ _ _ Hs) as (_ & Hself & _ & _ & Hdel & _).
  cbn [snd]. by apply insert_save_cinv.
Qed.

Lemma merge_member_refs_cinv members c : cinv c → cinv (merge_member_refs parse_ip h members c).
Proof using Hok.
  unfold merge_member_refs. generalize (get_all_nodes (now_unix h) c) as current. generalize (∅ : gset string) as added.
  intros added current. revert added c. induction members as [|m ms IH]; intros added c Hi; [exact Hi|].
  cbn [foldl]. pose proof (merge_member_cinv current added c m Hi) as Hm.
  destruct (merge_member _ _ _ _ _) as [added' c']. by apply IH.
Qed.

Lemma alter_save_cinv c f k :
  (∀ n, n_id (f n) = n_id n) → (∀ n, n_is_self (f n) = n_is_self n) →
  cinv c → cinv (save_nodes h (c <| nodes := alter f k (nodes c) |>)).
Proof using Hok.
  intros ?? [Hc [_ Hd]]. apply save_nodes_synced; [done|by apply core_alter|done].
Qed.

Lemma add_server_cinv fresh address p name c :
  cinv c → fresh ∉ deleted_ids c → fresh ≠ self_id c →
  cinv (add_server h fresh address p name c).2.
Proof using Hok.
  intros Hi Hdel Hself. unfold add_server, add_server_full.
  destruct (List.find _ _) as [n|]; cbn [snd]; apply alter_save_cinv; try done.
  by apply (insert_save_cinv h Hok c (mk_node fresh address address p None (now_unix h) false false
    None "wolfstack" None None None None name false false false false false false None
    None None true [] None None [] None)).
Qed.

Lemma alter_cinv c f k :
  (∀ n, n_id (f n) = n_id n) → (∀ n, n_is_self (f n) = n_is_self n) →
  cinv c → cinv (c <| nodes := alter f k (nodes c) |>).
Proof.
  intros ?? [Hc Hs]. split; [by apply core_alter|].
  apply (synced_same c); [|done..]. cbn [nodes setter]. by rewrite dom_alter_node.
Qed.

Lemma write_self_cinv f c : cinv c → cinv (write_self h f c).
Proof.
  unfold write_self. intros [Hc Hs].
  split; [by apply (core_same c)|by apply (synced_same c)].
Qed.

Lemma when_cinv {A} (o : option A) f c :
  (∀ a c, cinv c → cinv (f a c)) → cinv c → cinv (when o f c).
Proof. destruct o; cbn; auto. Qed.

Lemma when_keeps {A B C} (g : B → C) (o : option A) f b :
  (∀ a b, g (f a b) = g b) → g (when o f b) = g b.
Proof. intros H. by destruct o; cbn. Qed.

Lemma apply_settings_id s n : n_id (apply_settings s n) = n_id n.
Proof.
  unfold apply_settings. rewrite !(when_keeps n_id); try done. intros a b. by case_bool_decide.
Qed.

Lemma apply_settings_self s n : n_is_self (apply_settings s n) = n_is_self n.
Proof.
  unfold apply_settings. rewrite !(when_keeps n_is_self); try done. intros a b. by case_bool_decide.
Qed.

Lemma update_node_settings_cinv id s c :
  cinv c → cinv (update_node_settings h id s c).2.
Proof using Hok.
  intros Hi. unfold update_node_settings. destruct (nodes c !! id) as [old|] eqn:Hold; [|exact Hi].
  cbn [snd]. rewrite <-(alter_Some (apply_settings s) _ _ _ Hold).
  pose proof (alter_save_cinv c (apply_settings s) id (apply_settings_id s)
                (apply_settings_self s) Hi) as Hsave.
  destruct (negb _); [done|].
  unfold save_login_disabled_file, save_self_display_name, save_self_site, save_self_cluster_name.
  repeat (apply when_cinv; [auto using write_self_cinv|]). exact Hsave.
Qed.

Lemma merge_known_cinv intents current c known :
  cinv c → cinv (merge_known parse_ip h intents current c known).
Proof using Hok.
  intros Hi. unfold merge_known, gossip_identity_match.
  destruct (bool_decide (n_id known = self_id c)) eqn:Hself; cbn [orb].
  - destruct (n_display_name known) as [name|]; [|done].
    destruct (bool_decide (_ = nonempty _)); [done|]. apply write_self_cinv. by apply alter_cinv.
  - destruct (bool_decide (n_self_id known = Some (self_id c)) || _).
    { repeat case_match; try exact Hi; apply write_self_cinv; by apply alter_cinv. }
    destruct (bool_decide (n_node_type _ = _) && _ && _); [done|]. unfold is_tombstoned.
    destruct (bool_decide (n_id known ∈ deleted_ids c)) eqn:Hdel; [done|].
    destruct (List.find _ _) as [e|].
    + destruct (_ || _); [|done]. by apply update_node_settings_cinv.
    + destruct (_ && _ && _); [|done]. bool_props. by apply insert_save_cinv.
Qed.

Lemma merge_known_all_cinv intents current ks c :
  cinv c → cinv (foldl (merge_known parse_ip h intents current) c ks).
Proof using Hok. revert c. induction ks as [|k ks IH]; cbn [foldl]; intros c Hi; [done|]. by apply IH, merge_known_cinv. Qed.

(** A peer that is not watched may be put back whether it is there or not. *)
Lemma update_remote_cinv c n :
  cinv c → ¬ watched (n_id n) → n_id n ≠ self_id c → cinv (update_remote n c).
Proof.
  intros [Hc Hs] Hw Hn. split; [by apply core_insert|].
  apply (synced_same c); [|done..]. cbn [nodes setter update_remote]. rewrite dom_insert_L. set_solver.
Qed.

Lemma poll_answered_cinv intents tls snapshot r p :
  cinv (ps_cluster p) → ¬ watched (n_id snapshot) → n_id snapshot ≠ self_id (ps_cluster p) →
  cinv (ps_cluster (poll_answered parse_ip h intents tls snapshot r p)).
Proof using Hok.
  intros Hi Hw Hn. unfold poll_answered. destruct (_ && _); cbn [ps_cluster].
  - by apply forget_self_alias_cinv.
  - apply merge_known_all_cinv, merge_tombstones_cinv; [done|]. by apply update_remote_cinv.
Qed.

Lemma poll_failed_cinv snapshot p :
  cinv (ps_cluster p) → cinv (ps_cluster (poll_failed h snapshot p)).
Proof. intros Hi. unfold poll_failed. cbn [ps_cluster]. case_match; [|done]. by apply alter_cinv. Qed.

Lemma save_cinv c : cinv c → cinv (save_nodes h c).
Proof using Hok. intros [Hc [_ Hd]]. by apply save_nodes_synced. Qed.

Lemma poll_finish_cinv p : cinv (ps_cluster p) → cinv (poll_finish h p).
Proof using Hok. unfold poll_finish. destruct (ps_persist p); [apply save_cinv|done]. Qed.

Lemma shrink_cinv c m (saved : bool) :
  cinv c → m ⊆ nodes c → (saved = false → m = nodes c) →
  cinv (if saved then save_nodes h (c <| nodes := m |>) else c <| nodes := m |>).
Proof using Hok.
  intros [Hc [Hf Hd]] Hm Hs. destruct saved.
  - apply save_nodes_synced; [done|by apply core_sub|done].
  - rewrite Hs by done. split; [by apply (core_same c)|by apply (synced_same c)].
Qed.

Lemma remove_ids_cinv c ids :
  cinv c → let d := c <| nodes := remove_ids ids (nodes c) |> in
  cinv (if bool_decide (ids = []) then d else save_nodes h d).
Proof using Hok.
  intros Hi d. pose proof (shrink_cinv c (remove_ids ids (nodes c)) (negb (bool_decide (ids = []))) Hi
    (remove_ids_subseteq _ _)) as Hs.
  case_bool_decide as E; cbn [negb] in Hs; apply Hs; [|done]. intros _. by rewrite E.
Qed.

Lemma subseteq_size_eq (m m' : gmap string Node) : m ⊆ m' → (size m' ≤ size m)%nat → m = m'.
Proof.
  intros Hsub Hsize. apply map_subseteq_size_eq; done.
Qed.

Lemma prune_cinv c : cinv c → cinv (prune_duplicate_nodes parse_ip h c).2.
Proof using Hok.
  intros Hi. unfold prune_duplicate_nodes. cbn [snd nodes setter].
  set (m := remove_ids _ _).
  assert (Hm : m ⊆ nodes c) by apply remove_ids_subseteq.
  pose proof (shrink_cinv c m (bool_decide (0 < size (nodes c) - size m)%nat) Hi Hm) as Hs.
  case_bool_decide; apply Hs; [done|]. intros _. apply subseteq_size_eq; [done|lia].
Qed.

Lemma cleanup_ghosts_cinv c : cinv c → cinv (cleanup_ghosts h c).
Proof using Hok. apply remove_ids_cinv. Qed.
Lemma purge_unverified_cinv c : cinv c → cinv (purge_unverified h c).
Proof using Hok. apply remove_ids_cinv. Qed.

Lemma update_self_cinv order s c : cinv c → cinv (update_self parse_ip h order s c).
Proof using Hok.
  intros Hi. unfold update_self. set (me := mk_node _ _ _ _ _ _ _ _ _ _ _ _ _ _ _ _ _ _ _ _ _ _ _ _ _ _ _ _ _ _).
  set (m := <[self_id c := me]> (nodes c)). set (kept := map_retain _ m). cbv zeta.
  assert (Hm : cinv (c <| nodes := m |>)).
  { destruct Hi as [Hc Hs]. split.
    - apply (core_insert c me Hc); [intros _; by apply self_kept|done].
    - apply (synced_same c); [|done..]. cbn [nodes setter]. unfold m. rewrite dom_insert_L. set_solver. }
  pose proof (shrink_cinv (c <| nodes := m |>) kept (bool_decide (size kept < size m)%nat) Hm
    (map_retain_subseteq _ _)) as Hs.
  case_bool_decide; apply Hs; [done|]. intros _. apply subseteq_size_eq; [apply map_retain_subseteq|cbn [nodes setter]; lia].
Qed.

(** ** A restart *)
Definition load_fold (m : gmap string Node) (saved : list Node) : gmap string Node :=
  foldl (λ m n, <[n_id n := n <| n_online := false |> <| n_is_self := false |>]> m) m saved.

Lemma load_fold_dom saved m k :
  is_Some (load_fold m saved !! k) ↔ is_Some (m !! k) ∨ ∃ n, n ∈ saved ∧ n_id n = k.
Proof.
  unfold load_fold. revert m. induction saved as [|n l IH]; intros m; cbn [foldl].
  { split; [by left|]. intros [?|(x & Hx%not_elem_of_nil & _)]; done. }
  rewrite IH, lookup_insert_is_Some'. split.
  - intros [[<-|?]|(x & ? & ?)]; [right|by left|right]; eauto using list_elem_of_here, list_elem_of_further.
  - intros [?|(x & [->|?]%elem_of_cons & <-)]; eauto.
Qed.

Lemma load_fold_peer saved m k n :
  (∀ k n, m !! k = Some n → n_id n = k ∧ n_is_self n = false) →
  load_fold m saved !! k = Some n → n_id n = k ∧ n_is_self n = false.
Proof.
  unfold load_fold. revert m. induction saved as [|x l IH]; intros m Hm; cbn [foldl]; [by apply Hm|].
  apply IH. intros k' n'. rewrite lookup_insert_Some. intros [[<- <-]|[_ ?]]; [done|by apply Hm].
Qed.

Lemma load_cinv c saddr sport :
  cinv c →
  let d := load_nodes (load_deleted_ids
             (mk_cluster ∅ (self_id c) saddr sport ∅ (nodes_file c) (deleted_file c) (self_files c))) in
  cinv d ∧ nodes d !! self_id d = None ∧ deleted_ids d = deleted_ids c ∧ self_id d = self_id c.
Proof.
  intros [Hc [Hf Hd]] d.
  assert (nodes d = load_fold ∅ (default [] (nodes_file c)) ∧ self_id d = self_id c ∧
               deleted_ids d = deleted_ids c ∧ nodes_file d = nodes_file c ∧
               deleted_file d = deleted_file c) as (Hn & Hs & Hdel & Hnf & Hdf).
  { unfold d, load_nodes, load_deleted_ids. rewrite <-Hd. cbn [nodes_file deleted_file].
    destruct (deleted_file c), (nodes_file c) eqn:E; cbn; rewrite ?E, ?(left_id_L ∅ (∪)); done. }
  assert (Hpeer : ∀ k, is_Some (nodes d !! k) → (watched k → is_Some (nodes c !! k)) ∧ k ≠ self_id c).
  { intros k. rewrite Hn, load_fold_dom, lookup_empty. intros [[? [=]]|(n & Hin & <-)].
    destruct (nodes_file c) as [l|] eqn:E; [exact (Hf l n eq_refl Hin)|by apply not_elem_of_nil in Hin]. }
  assert (Hid : ∀ k n, nodes d !! k = Some n → n_id n = k ∧ n_is_self n = false).
  { intros k n. rewrite Hn. apply load_fold_peer. intros ??. by rewrite lookup_empty. }
  assert (Hnone : nodes d !! self_id d = None).
  { destruct (nodes d !! self_id d) eqn:E; [|done].
    destruct (Hpeer (self_id d)) as [_ Hne]; [by eauto|]. by rewrite Hs in Hne. }
  split_and!; [|done..].
  split; split; rewrite ?Hdel, ?Hs, ?Hnf, ?Hdf.
  - intros k n Hk. by apply Hid.
  - intros k Hw [Hk _]%Hpeer. eapply not_tombstoned; eauto.
  - by apply self_kept.
  - intros k n Hk _. apply Hpeer. eauto.
  - intros l n Hl Hin. split; [intros _|by destruct (Hf l n Hl Hin)]. rewrite Hn, Hl. apply load_fold_dom. right. eauto.
  - done.
Qed.

Lemma cleanup_proxmox_cinv c :
  cinv c → nodes c !! self_id c = None → cinv (cleanup_proxmox_legacy h c).
Proof using Hok.
  intros Hi Hself. unfold cleanup_proxmox_legacy. set (ids := n_id <$> _).
  destruct (bool_decide (ids = []) || _); [done|].
  set (d := _ <| deleted_ids := _ |>).
  assert (E : save_deleted_ids h (save_nodes h d) = save_nodes h (save_deleted_ids h d))
    by (unfold save_deleted_ids, save_nodes; by rewrite Hok).
  rewrite E. pose proof Hi as [Hc _].
  assert (Hids : ∀ k, k ∈ ids → is_Some (nodes c !! k)).
  { intros k (n & -> & [[k' Hk]%elem_of_values _]%elem_of_retain)%list_elem_of_fmap.
    rewrite (keyed _ Hc _ _ Hk). eauto. }
  apply (tombstone_cinv h Hok c (list_to_set ids ∪ deleted_ids c) (remove_ids ids (nodes c)) true Hi
           (remove_ids_subseteq _ _)); [| |done].
  - intros k Hw Hk. rewrite remove_ids_lookup. case_decide; [done|].
    apply elem_of_union in Hk as [?%elem_of_list_to_set|?]; [done|].
    destruct (nodes c !! k) eqn:Hx; [|done]. destruct (not_tombstoned _ Hc k Hw); eauto.
  - rewrite elem_of_union, elem_of_list_to_set. intros [Hin%Hids|Hin].
    + rewrite Hself in Hin. by destruct Hin.
    + by apply (self_kept _ Hc).
Qed.

Lemma restart_cinv c saddr sport :
  cinv c → cinv (new parse_ip h (self_id c) saddr sport (nodes_file c) (deleted_file c) (self_files c)).
Proof using Hok.
  intros Hi. unfold new. destruct (load_cinv c saddr sport Hi) as (Hl & Hs & _).
  apply prune_cinv, purge_unverified_cinv, cleanup_ghosts_cinv. by apply cleanup_proxmox_cinv.
Qed.
End Written.

(** ** What each operation does to the tombstones *)
Definition grows c d : Prop := deleted_ids c ⊆ deleted_ids d ∧ self_id d = self_id c.
#[global] Instance grows_pre : PreOrder grows.
Proof.
  split; [by split|]. intros c d e [? Hs] [? Ht]. split; [by etrans|by rewrite Ht].
Qed.

(** Changes of the table or of the files alone. *)
Lemma grows_same c d : deleted_ids d = deleted_ids c → self_id d = self_id c → grows c d.
Proof. by intros Hd Hs; split; rewrite ?Hd. Qed.
Lemma grows_save c d : grows c d → grows c (save_nodes h d).
Proof. intros H. etrans; [exact H|]. apply grows_same; [apply deleted_save_nodes|apply self_save_nodes]. Qed.
Lemma grows_write f c d : grows c d → grows c (write_self h f d).
Proof. intros H. etrans; [exact H|]. unfold write_self. destruct (file_write h); by apply grows_same. Qed.
Lemma grows_nodes m c d : grows c d → grows c (d <| nodes := m |>).
Proof. intros H. etrans; [exact H|]. by apply grows_same. Qed.
Lemma grows_when {A} (o : option A) f c d :
  (∀ a e, grows c e → grows c (f a e)) → grows c d → grows c (when o f d).
Proof. destruct o; cbn; auto. Qed.
Lemma grows_fold {A} (f : ClusterState → A → ClusterState) l c :
  (∀ d a, grows d (f d a)) → grows c (foldl f c l).
Proof. intros Hf. revert c. induction l as [|a l IH]; intros c; cbn [foldl]; [done|]. etrans; eauto. Qed.

#[local] Hint Resolve grows_save grows_write grows_nodes grows_when : core.
#[local] Hint Extern 0 (grows ?c ?c) => reflexivity : core.

Lemma remove_server_grows id c : grows c (remove_server h id c).2.
Proof.
  unfold remove_server. destruct (nodes c !! id); [|done]. cbn [snd]. unfold add_tombstone, save_deleted_ids.
  destruct (file_write h); split; cbn [deleted_ids self_id setter]; rewrite ?deleted_save_nodes, ?self_save_nodes;
    cbn [deleted_ids self_id setter]; set_solver +.
Qed.

Lemma merge_tombstones_grows remote c : self_id c ∉ deleted_ids c → grows c (merge_tombstones h remote c).
Proof.
  intros Hs. split; [rewrite merge_tombstones_deleted by done; set_solver +|].
  destruct (foldl (tombstone_fold (self_id c)) (deleted_ids c, false) remote) as [D ch] eqn:HD.
  rewrite (merge_tombstones_unfold _ _ _ _ _ HD). destruct ch; [|done]. cbv zeta.
  case_bool_decide; rewrite ?self_save_nodes; unfold save_deleted_ids; by destruct (file_write h).
Qed.

Lemma forget_self_alias_grows id c : grows c (forget_self_alias h id c).
Proof. unfold forget_self_alias. destruct (nodes c !! id); auto. Qed.

Lemma merge_member_refs_grows members c : grows c (merge_member_refs parse_ip h members c).
Proof.
  unfold merge_member_refs. generalize (get_all_nodes (now_unix h) c) as current.
  generalize (∅ : gset string) as added. intros added current. revert added c.
  induction members as [|m ms IH]; intros added c; [done|]. cbn [foldl].
  unfold merge_member at 2. destruct (seedable _ _ _ _ _ _); [|done].
  etrans; [|apply IH]. unfold update_remote. auto.
Qed.

Lemma add_server_grows fresh address p name c : grows c (add_server h fresh address p name c).2.
Proof.
  unfold add_server, add_server_full. destruct (List.find _ _); cbn [snd]; unfold mark_verified; auto.
Qed.

Lemma update_node_settings_grows id s c : grows c (update_node_settings h id s c).2.
Proof.
  unfold update_node_settings. destruct (nodes c !! id); [|done]. cbn [snd]. destruct (negb _); [auto|].
  unfold save_login_disabled_file, save_self_display_name, save_self_site, save_self_cluster_name.
  repeat (apply grows_when; [by auto|]). auto.
Qed.

Lemma merge_known_grows intents current c k : grows c (merge_known parse_ip h intents current c k).
Proof.
  unfold merge_known, save_self_display_name, update_remote. destruct (gossip_identity_match _ _ _ _ _).
  repeat case_match; auto using update_node_settings_grows.
Qed.

Lemma poll_answered_grows intents tls s r p :
  self_id (ps_cluster p) ∉ deleted_ids (ps_cluster p) →
  grows (ps_cluster p) (ps_cluster (poll_answered parse_ip h intents tls s r p)).
Proof.
  intros Hs. unfold poll_answered. destruct (_ && _); cbn [ps_cluster]; [apply forget_self_alias_grows|].
  etrans; [|apply grows_fold; intros; apply merge_known_grows].
  etrans; [|by apply merge_tombstones_grows]. by apply grows_same.
Qed.

Lemma poll_failed_grows s p : grows (ps_cluster p) (ps_cluster (poll_failed h s p)).
Proof. unfold poll_failed. cbn [ps_cluster]. case_match; auto. Qed.

Lemma prune_grows c : grows c (prune_duplicate_nodes parse_ip h c).2.
Proof. unfold prune_duplicate_nodes. cbn [snd]. case_bool_decide; auto. Qed.

Lemma update_self_grows order s c : grows c (update_self parse_ip h order s c).
Proof. unfold update_self. case_bool_decide; auto. Qed.

Lemma restart_grows c saddr sport :
  cinv c → grows c (new parse_ip h (self_id c) saddr sport (nodes_file c) (deleted_file c) (self_files c)).
Proof.
  intros Hi. destruct (load_cinv c saddr sport Hi) as (_ & _ & Hd & Hs). cbv zeta in Hd, Hs.
  unfold new. etrans; [apply grows_same; [exact Hd|exact Hs]|]. set (d := load_nodes _). clearbody d.
  etrans; [|apply prune_grows].
  transitivity (cleanup_proxmox_legacy h d).
  - unfold cleanup_proxmox_legacy. destruct (_ || _); [done|]. unfold save_deleted_ids.
    destruct (file_write h); split; cbn [deleted_ids self_id setter];
      rewrite ?deleted_save_nodes, ?self_save_nodes; cbn [deleted_ids self_id setter]; set_solver.
  - set (e := cleanup_proxmox_legacy h d). clearbody e. transitivity (cleanup_ghosts h e).
    + unfold cleanup_ghosts. case_bool_decide; auto.
    + unfold purge_unverified. case_bool_decide; auto.
Qed.
End Merge.
