(* ===== verification/ClusterProps.v ===== *)
(** * Cluster membership: the properties *)
From stdpp Require Import relations.
From S2P Require Import Prelude Net Cluster ClusterInv.

(** ** Runs of one node

    A poll cycle copies the table when it begins and asks one peer after the
    other; what a peer answered is written back to the copy's id, whatever the
    table has become meanwhile.  So a run has the table and the copies that
    cycles under way still hold. *)
Section Steps.
Context (parse_ip : string → option IpAddr) {W : Watched} {O : HashOrder Node}.

(** One operation on the membership, every write to disk succeeding. *)
Inductive cstep (c : ClusterState) : ClusterState → Prop :=
| step_add h fresh address p name :
    file_write h = Stored → fresh ∉ deleted_ids c → fresh ≠ self_id c →
    cstep c (add_server h fresh address p name c).2
| step_remove h id : file_write h = Stored → id ≠ self_id c → cstep c (remove_server h id c).2
| step_forget h id : file_write h = Stored → cstep c (forget_self_alias h id c)
| step_bundle h b sender :
    file_write h = Stored → cstep c (apply_control_plane_bundle parse_ip h b sender c)
| step_settings h id s : file_write h = Stored → cstep c (update_node_settings h id s c).2
| step_cadence h secs : file_write h = Stored → cstep c (set_self_poll_interval h secs c).2
| step_prune h : file_write h = Stored → cstep c (prune_duplicate_nodes parse_ip h c).2
| step_self h order s : file_write h = Stored → cstep c (update_self parse_ip h order s c)
| step_flush h fails persist : file_write h = Stored → cstep c (poll_finish h (mk_poll fails persist c)).

(** The table and the copies that are still to be polled. *)
Definition Member : Type := ClusterState * list Node.

Inductive mstep : Member → Member → Prop :=
| m_op c d fl : cstep c d → mstep (c, fl) (d, fl)
| m_cycle now c fl : mstep (c, fl) (c, fl ++ retain (λ n, negb (n_is_self n)) (get_all_nodes now c))
| m_answer c h intents tls s r fails persist fl fl' :
    file_write h = Stored →
    mstep (c, fl ++ s :: fl')
      (ps_cluster (poll_answered parse_ip h intents tls s r (mk_poll fails persist c)), fl ++ fl')
| m_failed c h s fails persist fl fl' :
    mstep (c, fl ++ s :: fl') (ps_cluster (poll_failed h s (mk_poll fails persist c)), fl ++ fl')
| m_skipped c s fl fl' : mstep (c, fl ++ s :: fl') (c, fl ++ fl')
| m_restart c h addr p fl :
    file_write h = Stored →
    mstep (c, fl) (new parse_ip h (self_id c) addr p (nodes_file c) (deleted_file c) (self_files c), []).

Definition first_start (h : Host) (sid addr : string) (p : Z) (sf : SelfFiles) : Member :=
  (new parse_ip h sid addr p None None sf, []).

(** The watched ids are tombstoned, and no copy of them is held. *)
Record minv (m : Member) : Prop := {
  mi_cinv : cinv m.1;
  mi_gone k : watched k → k ∈ deleted_ids m.1;
  mi_flying : Forall (λ s, ¬ watched (n_id s) ∧ n_id s ≠ self_id m.1) m.2
}.

Lemma cstep_inv c d : cinv c → cstep c d → cinv d ∧ grows c d.
Proof.
  intros Hi Hs. pose proof (self_kept _ (proj1 Hi)) as Hself. destruct Hs.
  - split; [by apply add_server_cinv|apply add_server_grows].
  - split; [by apply remove_server_cinv|apply remove_server_grows].
  - split; [by apply forget_self_alias_cinv|apply forget_self_alias_grows].
  - unfold apply_control_plane_bundle.
    split; [by apply merge_member_refs_cinv, merge_tombstones_cinv|].
    etrans; [by apply merge_tombstones_grows|apply merge_member_refs_grows].
  - split; [by apply update_node_settings_cinv|apply update_node_settings_grows].
  - split; [|by apply grows_same]. apply write_self_cinv. by apply alter_cinv.
  - split; [by apply prune_cinv|by apply prune_grows].
  - split; [by apply update_self_cinv|apply update_self_grows].
  - split; [by apply (poll_finish_cinv h)|].
    unfold poll_finish. destruct (ps_persist _); [|done]. by apply grows_save.
Qed.

Lemma copied_flying now c :
  cinv c → (∀ k, watched k → k ∈ deleted_ids c) →
  Forall (λ s, ¬ watched (n_id s) ∧ n_id s ≠ self_id c)
    (retain (λ n, negb (n_is_self n)) (get_all_nodes now c)).
Proof.
  intros [Hc _] Hg. apply Forall_forall. intros s [Hs Hns%negb_true_iff]%elem_of_retain.
  unfold get_all_nodes in Hs. apply list_elem_of_fmap in Hs as (n & -> & [[k Hn]%elem_of_values _]%elem_of_retain).
  assert (E : ∀ w, n_id (if n_is_self n then n else n <| n_online := w |>) = k ∧
            n_is_self (if n_is_self n then n else n <| n_online := w |>) = n_is_self n).
  { intros w. rewrite <-(keyed _ Hc _ _ Hn). by destruct (n_is_self n) eqn:?. }
  cbv beta in Hns |- *. rewrite (proj2 (E _)) in Hns. rewrite (proj1 (E _)).
  split; [|by eapply peers_not_self]. intros Hw. apply (not_tombstoned _ Hc k Hw); eauto.
Qed.

Lemma mstep_inv m m' : minv m → mstep m m' → minv m' ∧ grows m.1 m'.1.
Proof.
  assert (Hkeep : ∀ c fl d fl', minv (c, fl) → cinv d → grows c d → (∀ s, s ∈ fl' → s ∈ fl) →
            minv (d, fl') ∧ grows c d).
  { intros c fl d fl' [_ Hg Hf] Hd [Hdel Hsid] Hsub. split; [|by split].
    split; cbn [fst snd] in *; [done|naive_solver|].
    rewrite Forall_forall in *. intros s Hs. rewrite Hsid. auto. }
  intros Hi Hs. pose proof Hi as [Hc Hg Hf].
  pose proof (self_kept _ (proj1 Hc)) as Hself. destruct Hs; cbn [fst snd] in *.
  - destruct (cstep_inv _ _ Hc H). by apply (Hkeep c fl).
  - split; [|done]. split; [done..|]. apply Forall_app. split; [done|by apply copied_flying].
  - apply Forall_app in Hf as Hs. destruct Hs as [_ [[Hw Hn] _]%Forall_cons].
    apply (Hkeep c (fl ++ s :: fl')); [done|by apply poll_answered_cinv| |set_solver].
    by apply (poll_answered_grows parse_ip h intents tls s r (mk_poll fails persist c)).
  - apply (Hkeep c (fl ++ s :: fl')); [done|by apply (poll_failed_cinv h s (mk_poll fails persist c))| |set_solver].
    apply (poll_failed_grows h s (mk_poll fails persist c)).
  - apply (Hkeep c (fl ++ s :: fl')); [done..|set_solver].
  - apply (Hkeep c fl); [done|by apply restart_cinv|exact (restart_grows parse_ip h c addr p Hc)|set_solver].
Qed.

Lemma msteps_inv m m' : minv m → rtc mstep m m' → minv m' ∧ grows m.1 m'.1.
Proof.
  intros Hi. induction 1 as [m|m m1 m2 H _ IH]; [by split|].
  destruct (mstep_inv _ _ Hi H) as [Hd Hg]. destruct (IH Hd). split; [done|by etrans].
Qed.

Lemma first_start_cinv h sid addr p sf : file_write h = Stored → cinv (first_start h sid addr p sf).1.
Proof.
  intros Hok. apply (restart_cinv parse_ip h Hok (mk_cluster ∅ sid addr p ∅ None None sf)).
  split; split; cbn; try done; intros *; rewrite ?lookup_empty; try done; by intros ? [].
Qed.
End Steps.

Section Removed.
Context (parse_ip : string → option IpAddr) {O : HashOrder Node}.

(** Before a removal nothing is watched, after it the removed id. *)
Definition nobody : Watched := λ _, False.
Definition only (id : string) : Watched := λ k, k = id.

Lemma removed_watched h id c fl n :
  file_write h = Stored → id ≠ self_id c → nodes c !! id = Some n → Forall (λ s, n_id s ≠ id) fl →
  minv (W := nobody) (c, fl) → minv (W := only id) ((remove_server h id c).2, fl).
Proof.
  intros Hok Hid Hn Hfl [Hc _ Hf]. cbn [fst snd] in *.
  pose proof (remove_server_cinv (W := nobody) h Hok c id Hc Hid) as Hr.
  pose proof (remove_server_grows h id c) as [_ Hsid].
  destruct Hr as [[Hk _ Hs Hp] [Hfk Hfd]].
  assert (Hgone : nodes (remove_server h id c).2 !! id = None ∧ id ∈ deleted_ids (remove_server h id c).2 ∧
                  ∀ l m, nodes_file (remove_server h id c).2 = Some l → m ∈ l → n_id m ≠ id).
  { unfold remove_server, add_tombstone, save_deleted_ids, save_nodes. rewrite Hn, Hok.
    cbn [snd overwrite nodes deleted_ids nodes_file setter]. rewrite lookup_delete_eq.
    split_and!; [done|set_solver|]. intros l m [= <-] [[k Hm]%elem_of_values _]%elem_of_retain.
    cbn [nodes setter] in Hm. rewrite lookup_delete_Some in Hm. destruct Hm as [Hne Hm].
    by rewrite (keyed _ (proj1 Hc) _ _ Hm). }
  destruct Hgone as (Hnone & Hdel & Hfile). split; cbn [fst snd].
  - split; split; try done.
    + intros k ->. rewrite Hnone. by intros [].
    + intros l m Hl Hin. split; [|by eapply Hfk]. intros E. by destruct (Hfile l m Hl Hin).
  - by intros k ->.
  - rewrite Hsid. apply Forall_and in Hf as [_ Hf]. apply Forall_and. by split.
Qed.

(** C4: A node an operator removes while no poll cycle still holds a copy of
    it stays out of the table for good, as long as writes to disk succeed and
    no new node is given its id: whatever peers gossip, bundles advertise,
    polls of other nodes report (removed ones whose polls were under way
    included) and operators add or edit afterwards, and across restarts, its
    id never comes back and stays in the tombstones. *)
Theorem removed_stays_removed h h' sid addr p sf c fl d fl' id n :
  file_write h = Stored → file_write h' = Stored →
  rtc (mstep parse_ip) (first_start parse_ip h sid addr p sf) (c, fl) →
  id ≠ self_id c → nodes c !! id = Some n → Forall (λ s, n_id s ≠ id) fl →
  rtc (mstep parse_ip) ((remove_server h' id c).2, fl) (d, fl') →
  nodes d !! id = None ∧ id ∈ deleted_ids d.
Proof.
  intros Hok Hok' Hc Hid Hn Hfl Hd.
  assert (H0 : minv (W := nobody) (first_start parse_ip h sid addr p sf)).
  { split; [by apply first_start_cinv|by intros k []|constructor]. }
  destruct (msteps_inv parse_ip _ _ H0 Hc) as [Hci _].
  pose proof (removed_watched h' id c fl n Hok' Hid Hn Hfl Hci) as Hri.
  destruct (msteps_inv parse_ip _ _ Hri Hd) as [[[Hdc _] Hg _] _]. cbn [fst] in *.
  assert (Hin : id ∈ deleted_ids d) by by apply Hg.
  split; [|done]. destruct (nodes d !! id) eqn:E; [|done].
  destruct (not_tombstoned _ Hdc id); eauto. done.
Qed.
End Removed.

(** ** Pinned keys *)
Section Pins.
Context (parse_ip : string → option IpAddr) {W : Watched} {O : HashOrder Node} (h : Host).
Context (k key : string).
Implicit Types c : ClusterState.

Definition pinned c : Prop := ∀ n, nodes c !! k = Some n → n_pubkey n = Some key.

Lemma pinned_sub c d : nodes d ⊆ nodes c → pinned c → pinned d.
Proof. intros Hs Hp n Hn. eapply Hp, lookup_weaken; eauto. Qed.
Lemma pinned_same c d : nodes d = nodes c → pinned c → pinned d.
Proof. intros E. apply pinned_sub. by rewrite E. Qed.

Lemma apply_settings_pubkey s n : n_pubkey (apply_settings s n) = n_pubkey n.
Proof.
  unfold apply_settings. rewrite !(when_keeps n_pubkey); try done. intros a b. by case_bool_decide.
Qed.

Lemma nodes_write_self f c : nodes (write_self h f c) = nodes c.
Proof. unfold write_self. by destruct (file_write h). Qed.

Lemma nodes_settings id s c :
  nodes (update_node_settings h id s c).2 = alter (apply_settings s) id (nodes c).
Proof.
  unfold update_node_settings. destruct (nodes c !! id) as [old|] eqn:Hold;
    [|by rewrite alter_missing].
  cbn [snd]. rewrite (alter_Some (apply_settings s) _ _ _ Hold).
  destruct (negb _); [by rewrite nodes_save_nodes|].
  unfold save_login_disabled_file, save_self_display_name, save_self_site, save_self_cluster_name.
  rewrite !(when_keeps nodes) by (intros; apply nodes_write_self). by rewrite nodes_save_nodes.
Qed.

Lemma pinned_alter c f i : (∀ n, n_pubkey (f n) = n_pubkey n) → pinned c →
  pinned (c <| nodes := alter f i (nodes c) |>).
Proof.
  intros Hf Hp n. cbn [nodes setter]. rewrite lookup_alter_Some.
  intros [(-> & n' & Hn' & ->)|[_ Hn]]; [rewrite Hf|]; by apply Hp.
Qed.

Lemma pinned_merge_known intents current c x :
  (∃ y, y ∈ current ∧ n_id y = k) ∨ k ∈ deleted_ids c → k ≠ self_id c →
  pinned c → pinned (merge_known parse_ip h intents current c x).
Proof.
  intros Hk Hself Hp. unfold merge_known. destruct (gossip_identity_match _ _ _ _ _) as [[] strong].
  { destruct strong, (n_display_name x); try done. destruct (bool_decide _); [done|].
    unfold save_self_display_name. eapply pinned_same; [apply nodes_write_self|].
    by apply pinned_alter. }
  destruct (_ && _ && _); [done|]. unfold is_tombstoned.
  destruct (bool_decide (n_id x ∈ _)) eqn:Ht; [done|]. bool_props.
  destruct (List.find _ _) as [e|] eqn:Hfind.
  - destruct (_ || _ || _); [|done].
    eapply (pinned_same (c <| nodes := alter _ (n_id x) (nodes c) |>));
      [by rewrite nodes_settings|]. apply pinned_alter; [apply apply_settings_pubkey|done].
  - destruct (_ && _); [|done].
    eapply (pinned_same (update_remote (as_seeded x) c)); [by rewrite nodes_save_nodes|].
    intros n. unfold update_remote. cbn [nodes setter]. rewrite lookup_insert_Some.
    intros [[Hx _]|[_ Hn]]; [|by apply Hp]. rewrite as_seeded_id in Hx. rewrite Hx in Ht.
    apply find_None_Forall in Hfind. rewrite Forall_forall in Hfind.
    destruct Hk as [(y & Hy & Hyx)|]; [|done]. apply Hfind in Hy. bool_props. congruence.
Qed.

Lemma pinned_merge_all intents current xs c :
  (∃ y, y ∈ current ∧ n_id y = k) ∨ k ∈ deleted_ids c → k ≠ self_id c →
  pinned c → pinned (foldl (merge_known parse_ip h intents current) c xs).
Proof.
  revert c. induction xs as [|x xs IH]; intros c Hk Hs Hp; cbn [foldl]; [done|].
  destruct (merge_known_grows parse_ip h intents current c x) as [Hd Hsid].
  apply IH; [destruct Hk; [by left|right; set_solver]|congruence|by apply pinned_merge_known].
Qed.

Lemma merge_tombstones_lookup remote c i :
  self_id c ∉ deleted_ids c →
  nodes (merge_tombstones h remote c) !! i = nodes c !! i ∨
  (nodes (merge_tombstones h remote c) !! i = None ∧ i ∈ deleted_ids (merge_tombstones h remote c)).
Proof.
  intros Hs. destruct (foldl (tombstone_fold (self_id c)) (deleted_ids c, false) remote) as [D ch] eqn:HD.
  rewrite (merge_tombstones_deleted h c remote Hs).
  destruct (tombstone_fold_spec _ _ _ _ _ _ HD Hs) as [HD' _].
  rewrite (merge_tombstones_unfold h _ _ _ _ HD). destruct ch; [|by left]. cbv zeta.
  set (d := save_deleted_ids _ _).
  assert (Hd : nodes d = remove_ids (retain (λ k, bool_decide (k ∈ D)) (hm_iter (nodes c)).*1) (nodes c))
    by (unfold d, save_deleted_ids; by destruct (file_write h)).
  assert (E : nodes (if bool_decide (retain (λ k, bool_decide (k ∈ D)) (hm_iter (nodes c)).*1 = [])
               then d else save_nodes h d) = nodes d) by (case_bool_decide; by rewrite ?nodes_save_nodes).
  rewrite E, Hd, remove_ids_lookup. case_decide as Hin; [|by left]. right. split; [done|].
  apply elem_of_retain in Hin as [_ ?%bool_decide_eq_true]. by rewrite <-HD'.
Qed.

Lemma merge_tombstones_port remote c : port (merge_tombstones h remote c) = port c.
Proof.
  unfold merge_tombstones. destruct (foldl _ _ _) as [D []]; cbn [negb]; [|done]. unfold save_deleted_ids, save_nodes.
  case_bool_decide; by destruct (file_write h).
Qed.

(** What a poll leaves of the table apart from its gossip. *)
Definition after_report (tls : bool) (snapshot : Node) (r : StatusReport) c : ClusterState :=
  merge_tombstones h (sr_deleted_ids r) (update_remote (polled_node h tls snapshot r c) c).

Lemma poll_answered_after intents tls snapshot r p :
  sr_node_id r ≠ self_id (ps_cluster p) →
  ps_cluster (poll_answered parse_ip h intents tls snapshot r p) =
    let c := after_report tls snapshot r (ps_cluster p) in
    foldl (merge_known parse_ip h intents (get_all_nodes (now_unix h) c)) c (sr_known_nodes r).
Proof.
  intros Hne. unfold poll_answered. rewrite (bool_decide_false (sr_node_id r = _)) by done.
  by rewrite andb_false_r.
Qed.

Lemma get_all_nodes_has c n :
  nodes c !! k = Some n → n_id n = k →
  is_self_alias n (self_id c) (default "" (n_hostname <$> nodes c !! self_id c)) (port c) = false →
  ∃ y, y ∈ get_all_nodes (now_unix h) c ∧ n_id y = k.
Proof.
  intros Hn Hk Ha. unfold get_all_nodes. eexists. split.
  - apply list_elem_of_fmap_2, elem_of_retain. split; [apply elem_of_values; eauto|]. by rewrite Ha.
  - cbv beta. by destruct (n_is_self n).
Qed.

(** A peer's pinned identity key survives a poll: whatever any peer
    reports, gossips and tombstones, the record of [k] afterwards still has
    the key it was pinned with, provided the answering peer does not claim
    this node's own identity (id, or hostname and port). *)
Theorem pinned_key_kept intents tls snapshot r p n :
  let c := ps_cluster p in
  cinv c → k ≠ self_id c → key ≠ "" →
  nodes c !! k = Some n → n_pubkey n = Some key →
  n_id snapshot ≠ self_id c → sr_node_id r ≠ self_id c →
  (∀ m, nodes (update_remote (polled_node h tls snapshot r c) c) !! k = Some m →
    is_self_alias m (self_id c) (default "" (n_hostname <$> nodes c !! self_id c)) (port c) = false) →
  ∀ m, nodes (ps_cluster (poll_answered parse_ip h intents tls snapshot r p)) !! k = Some m →
  n_pubkey m = Some key.
Proof.
  intros c Hi Hks Hkey Hn Hpin Hsnap Hid Hal. rewrite poll_answered_after by done. cbv zeta. fold c.
  pose proof Hi as [Hc _].
  set (c1 := update_remote (polled_node h tls snapshot r c) c) in *.
  assert (Hp1 : ∃ m, nodes c1 !! k = Some m ∧ n_id m = k ∧ n_pubkey m = Some key).
  { unfold c1, update_remote. cbn [nodes setter].
    destruct (decide (n_id snapshot = k)) as [Hs|Hs].
    - exists (polled_node h tls snapshot r c). rewrite <-Hs at 1. rewrite lookup_insert_eq.
      split_and!; [done|done|]. unfold polled_node, get_node. rewrite Hs, Hn. cbn [n_pubkey].
      unfold pin_key. rewrite Hpin. unfold nonempty. cbn. by rewrite bool_decide_false.
    - exists n. rewrite lookup_insert_ne by done. split_and!; [done|by eapply keyed|done]. }
  destruct Hp1 as (m & Hm & Hmk & Hmp).
  assert (Hself1 : nodes c1 !! self_id c = nodes c !! self_id c)
    by (unfold c1, update_remote; cbn [nodes setter]; by rewrite lookup_insert_ne).
  assert (Hs1 : self_id c1 ∉ deleted_ids c1) by (apply (self_kept _ Hc)).
  change (after_report tls snapshot r c) with (merge_tombstones h (sr_deleted_ids r) c1).
  set (c2 := merge_tombstones h (sr_deleted_ids r) c1).
  destruct (merge_tombstones_grows h (sr_deleted_ids r) c1 Hs1) as [_ Hsid2]. fold c2 in Hsid2.
  assert (Hk2 : nodes c2 !! k = Some m ∨ nodes c2 !! k = None ∧ k ∈ deleted_ids c2)
    by (rewrite <-Hm; apply (merge_tombstones_lookup _ _ k Hs1)).
  apply pinned_merge_all.
  - destruct Hk2 as [Hk2|[_ ?]]; [left|by right]. apply (get_all_nodes_has c2 m Hk2 Hmk).
    assert (port c2 = port c) as -> by (etrans; [apply merge_tombstones_port|done]).
    rewrite Hsid2. change (self_id c1) with (self_id c).
    destruct (merge_tombstones_lookup (sr_deleted_ids r) c1 (self_id c) Hs1) as [E|[_ E]].
    + fold c2 in E. rewrite E, Hself1. by apply Hal.
    + rewrite merge_tombstones_deleted in E by done. exfalso.
      apply elem_of_union in E as [E|[_ E]%elem_of_difference]; [done|set_solver +E].
  - rewrite Hsid2. done.
  - intros m' Hm'. destruct Hk2 as [Hk2|[Hk2 _]]; congruence.
Qed.
End Pins.

(** ** Duplicates *)
Section Prune.
Context (parse_ip : string → option IpAddr).

(** Two records of one machine: the same global id, or the same usable address
    and port. *)
Definition shares (x y : Node) : Prop :=
  (∃ s, prune_sid x = Some s ∧ prune_sid y = Some s) ∨
  (∃ a, prune_addr parse_ip x = Some a ∧ prune_addr parse_ip y = Some a).

Definition kept_in (l : list Node) (st : PruneState) (x : Node) : Prop :=
  x ∈ l ∧ n_is_self x = false ∧ n_id x ∉ to_prune st.

Record prune_ok (l : list Node) (st : PruneState) : Prop := {
  po_sids s : s ∈ seen_self_ids st ↔ ∃ x, kept_in l st x ∧ prune_sid x = Some s;
  po_addrs a : a ∈ seen_addrs st ↔ ∃ x, kept_in l st x ∧ prune_addr parse_ip x = Some a;
  po_dropped i : i ∈ to_prune st → ∃ x y, x ∈ l ∧ n_id x = i ∧ n_is_self x = false ∧
    kept_in l st y ∧ shares x y ∧ prune_rank parse_ip y ≤ prune_rank parse_ip x;
  po_distinct x y : kept_in l st x → kept_in l st y → shares x y → x = y
}.

Lemma prune_step_ok l st x :
  NoDup (n_id <$> l ++ [x]) → (∀ y, y ∈ l → prune_le parse_ip y x) →
  prune_ok l st → prune_ok (l ++ [x]) (prune_step parse_ip st x).
Proof.
  rewrite fmap_app. intros (_ & Hnew & _)%NoDup_app Hle [Hs Ha Hd Hu].
  assert (Hx : n_id x ∉ n_id <$> l) by (intros H; apply (Hnew _ H); cbn; by left).
  assert (Hl : ∀ y, y ∈ l → n_id y ≠ n_id x).
  { intros y Hy E. apply Hx. rewrite <-E. by apply list_elem_of_fmap_2. }
  assert (Hxp : n_id x ∉ to_prune st) by (intros (a & b & Hal & E & _)%Hd; by apply (Hl a)).
  unfold prune_step. destruct (n_is_self x) eqn:Hself.
  { assert (Hk : ∀ y, kept_in (l ++ [x]) st y ↔ kept_in l st y).
    { intros y. unfold kept_in. rewrite elem_of_app, list_elem_of_singleton. naive_solver congruence. }
    split; setoid_rewrite Hk; [done..| |done].
    intros i (a & b & ? & ?)%Hd. exists a, b. rewrite elem_of_app. naive_solver. }
  set (dup_sid := match prune_sid x with Some _ => _ | None => _ end).
  set (dup_addr := match prune_addr parse_ip x with Some _ => _ | None => _ end).
  destruct (dup_sid || dup_addr) eqn:Hdup; cbn [seen_self_ids seen_addrs to_prune].
  - set (st' := mk_prune _ _ _).
    assert (Hk : ∀ y, kept_in (l ++ [x]) st' y ↔ kept_in l st y).
    { intros y. unfold kept_in. cbn [st' to_prune].
      rewrite !elem_of_app, !list_elem_of_singleton. naive_solver. }
    split; setoid_rewrite Hk; [done..| |done].
    intros i [Hi|Hi%list_elem_of_singleton]%elem_of_app.
    { destruct (Hd i Hi) as (a & b & ? & ?). exists a, b. rewrite elem_of_app. naive_solver. }
    assert (∃ y, kept_in l st y ∧ shares x y) as (y & Hy & Hsh).
    { unfold dup_sid, dup_addr in Hdup. apply orb_true_iff in Hdup as [Hdup|Hdup].
      - destruct (prune_sid x) as [s|] eqn:E; [|done]. bool_props.
        apply Hs in Hdup as (y & ? & ?). exists y. split; [done|]. left. eauto.
      - destruct (prune_addr parse_ip x) as [a|] eqn:E; [|done]. bool_props.
        apply Ha in Hdup as (y & ? & ?). exists y. split; [done|]. right. eauto. }
    exists x, y. rewrite elem_of_app, list_elem_of_singleton. split_and!; auto.
    destruct Hy as [Hy _]. apply Hle in Hy. unfold prune_le in Hy. lia.
  - apply orb_false_iff in Hdup as [Hns Hna]. set (st' := mk_prune _ _ _).
    assert (Hk : ∀ y, kept_in (l ++ [x]) st' y ↔ kept_in l st y ∨ y = x).
    { intros y. unfold kept_in. cbn [st' to_prune].
      rewrite !elem_of_app, !list_elem_of_singleton. naive_solver. }
    assert (Hnx : ∀ y, kept_in l st y → ¬ shares x y).
    { intros y Hy [(s & Ex & Ey)|(a & Ex & Ey)].
      - unfold dup_sid in Hns. rewrite Ex in Hns. bool_props. apply Hns, Hs. eauto.
      - unfold dup_addr in Hna. rewrite Ex in Hna. bool_props. apply Hna, Ha. eauto. }
    assert (Hsym : ∀ a b, shares a b → shares b a) by (unfold shares; naive_solver).
    split.
    + intros s. cbn [st' seen_self_ids]. setoid_rewrite Hk.
      destruct (prune_sid x) as [sx|] eqn:E; rewrite ?elem_of_union, ?elem_of_singleton, Hs; naive_solver.
    + intros a. cbn [st' seen_addrs]. setoid_rewrite Hk.
      destruct (prune_addr parse_ip x) as [ax|] eqn:E; rewrite ?elem_of_union, ?elem_of_singleton, Ha; naive_solver.
    + intros i (a & b & ? & ? & ? & ? & ?)%Hd. exists a, b. rewrite Hk, elem_of_app. naive_solver.
    + intros a b [Hka| ->]%Hk [Hkb| ->]%Hk Hsh; [by apply Hu| | |done].
      * by destruct (Hnx a Hka); apply Hsym.
      * by destruct (Hnx b Hkb).
Qed.

Lemma prune_fold_ok l :
  NoDup (n_id <$> l) → StronglySorted (prune_le parse_ip) l →
  prune_ok l (foldl (prune_step parse_ip) (mk_prune ∅ ∅ []) l).
Proof.
  induction l as [|x l IH] using rev_ind; intros Hn Hs.
  - cbn. split; unfold kept_in; cbn; [set_solver..|].
    intros x y (Hx%not_elem_of_nil & _); done.
  - rewrite foldl_snoc. apply StronglySorted_app in Hs as (Hle & Hs & _).
    apply prune_step_ok; [done|set_solver|]. apply IH; [|done].
    rewrite fmap_app in Hn. by apply NoDup_app in Hn as [? _].
Qed.

#[local] Instance prune_le_trans : Transitive (prune_le parse_ip).
Proof.
  unfold prune_le. intros a b c [?|[? H1]] [?|[? H2]]; [left; lia..|].
  right. split; [lia|]. by etrans.
Qed.
#[local] Instance prune_le_total : Total (prune_le parse_ip).
Proof.
  intros a b. unfold prune_le. destruct (String.le_total (n_id a) (n_id b));
    destruct (Z.lt_trichotomy (prune_rank parse_ip a) (prune_rank parse_ip b)) as [|[|]]; naive_solver.
Qed.

(** Collapsing duplicates keeps one record per machine: no two peers that
    survive share a global id or a usable address and port, this node's own
    record survives, and every dropped record shares one of them with a
    survivor that is at least as trustworthy. *)
Theorem prune_keeps_one_per_machine entries :
  NoDup (n_id <$> entries) →
  let kept x := x ∈ entries ∧ n_id x ∉ plan_prune parse_ip entries in
  (∀ x y, kept x → kept y → n_is_self x = false → n_is_self y = false → shares x y → x = y) ∧
  (∀ x, x ∈ entries → n_is_self x = true → kept x) ∧
  (∀ x, x ∈ entries → ¬ kept x →
    ∃ y, kept y ∧ shares x y ∧ prune_rank parse_ip y ≤ prune_rank parse_ip x).
Proof.
  intros Hn kept. unfold plan_prune in kept. set (sorted := merge_sort _ entries) in kept.
  assert (Hp : sorted ≡ₚ entries) by apply merge_sort_Permutation.
  destruct (prune_fold_ok sorted) as [_ _ Hd Hu].
  { by rewrite Hp. }
  { apply (StronglySorted_merge_sort _ _). }
  assert (Hin : ∀ x, x ∈ sorted ↔ x ∈ entries) by (intros x; by rewrite Hp).
  unfold kept_in in *. setoid_rewrite Hin in Hd. setoid_rewrite Hin in Hu.
  assert (Hinj : ∀ x y, x ∈ entries → y ∈ entries → n_id x = n_id y → x = y).
  { intros x y [i Hi]%list_elem_of_lookup [j Hj]%list_elem_of_lookup E.
    assert (i = j) as ->; [|congruence]. eapply (NoDup_lookup _ i j (n_id x) Hn);
      rewrite list_lookup_fmap, ?Hi, ?Hj; cbn; congruence. }
  split_and!.
  - intros x y [??] [??] ???. by apply Hu.
  - intros x Hx Hself. split; [done|]. intros (a & b & Ha & E & Hna & _)%Hd.
    rewrite (Hinj a x Ha Hx E) in Hna. congruence.
  - intros x Hx Hk. destruct (decide (n_id x ∈ to_prune (foldl (prune_step parse_ip)
      (mk_prune ∅ ∅ []) sorted))) as [Hi|Hi]; [|by destruct Hk].
    destruct (Hd _ Hi) as (a & b & Ha & E & Hna & (Hb & _ & Hbk) & Hsh & Hr).
    rewrite (Hinj a x Ha Hx E) in *. exists b. done.
Qed.
End Prune.

(** ** Seeding from a member list *)
Section Seed.
Context (parse_ip : string → option IpAddr) {O : HashOrder Node} (h : Host).
Implicit Types c : ClusterState.

(** A record that [merge_member_refs] may create under [k]. *)
Definition seeded_from (members : list Node) c (sid k : string) (n : Node) : Prop :=
  ∃ m, m ∈ members ∧ n = as_seeded m ∧ n_id m = k ∧ n_self_id m = Some sid ∧
       (k ≠ self_id c) ∧ (sid ≠ self_id c) ∧ (k ∉ deleted_ids c) ∧ (n_address m ∉ local_ips h) ∧
       is_private_address parse_ip (n_address m) = true ∧
       is_usable_addr parse_ip (n_address m) = true ∧
       ∀ y, y ∈ get_all_nodes (now_unix h) c → (n_id y ≠ k) ∧ (n_self_id y ≠ Some sid).

Record seed_ok (members : list Node) c (added : gset string) d : Prop := {
  so_deleted : deleted_ids d = deleted_ids c;
  so_self : self_id d = self_id c;
  so_new k n : nodes d !! k = Some n →
    nodes c !! k = Some n ∨ ∃ sid, seeded_from members c sid k n ∧ sid ∈ added;
  so_old k n : nodes c !! k = Some n → (∃ y, y ∈ get_all_nodes (now_unix h) c ∧ n_id y = k) →
    nodes d !! k = Some n;
  so_unique k k' n n' : nodes c !! k = None → nodes c !! k' = None →
    nodes d !! k = Some n → nodes d !! k' = Some n' → n_self_id n = n_self_id n' → k = k'
}.

Lemma seeded_from_self members c sid k n : seeded_from members c sid k n → n_self_id n = Some sid.
Proof. by intros (m & _ & -> & _ & ? & _). Qed.

Lemma seed_step members c added d m :
  m ∈ members → seed_ok members c added d →
  let st := merge_member parse_ip h (get_all_nodes (now_unix h) c) (added, d) m in
  seed_ok members c st.1 st.2.
Proof.
  intros Hm [Hd Hs Hnew Hold Huniq]. unfold merge_member.
  destruct (seedable _ _ _ _ _ _) as [sid|] eqn:Hsd; [|by split]. cbn [fst snd].
  destruct (seedable_Some _ _ _ _ _ _ _ Hsd) as (Hsid & H1 & H2 & Hadd & H3 & H4 & H5 & H6 & H7).
  rewrite Hd in H3. rewrite Hs in H1, H2. rewrite Forall_forall in H7.
  assert (Hfrom : seeded_from members c sid (n_id m) (as_seeded m)) by (exists m; split_and!; eauto).
  assert (Hfresh : ∀ k n, nodes c !! k = None → nodes d !! k = Some n → n_self_id n ≠ Some sid).
  { intros k n Hc [Hx|(s & Hf & Hin)]%Hnew E; [congruence|].
    rewrite (seeded_from_self _ _ _ _ _ Hf) in E. congruence. }
  split; rewrite ?deleted_save_nodes, ?self_save_nodes, ?nodes_save_nodes; [done|done|..];
    unfold update_remote; cbn [nodes setter]; rewrite as_seeded_id.
  - intros k n. rewrite lookup_insert_Some. intros [[<- <-]|[_ Hn]].
    + right. exists sid. split; [done|set_solver +].
    + destruct (Hnew _ _ Hn) as [?|(s & ? & ?)]; [by left|]. right. exists s. split; [done|set_solver].
  - intros k n Hn Hy. rewrite lookup_insert_ne; [by apply Hold|].
    intros <-. destruct Hy as (y & [??]%H7 & ?). done.
  - intros k k' n n' Hk Hk' [[<- <-]|[_ Hn]]%lookup_insert_Some [[<- <-]|[_ Hn']]%lookup_insert_Some E;
      [done|..|by eapply Huniq].
    + destruct (Hfresh _ _ Hk' Hn'). by rewrite <-E.
    + destruct (Hfresh _ _ Hk Hn). by rewrite E.
Qed.

(** Membership learned from a peer's list is safe: a visible record is
    never changed, a new record is a member of the list that is not this node,
    not removed by an operator, reachable only at a private address that is
    not one of ours, and unknown until now by id and global id; and one list
    creates at most one record per global id. *)
Theorem merge_members_safe members c d :
  d = merge_member_refs parse_ip h members c →
  (∀ k n, nodes c !! k = Some n → (∃ y, y ∈ get_all_nodes (now_unix h) c ∧ n_id y = k) →
     nodes d !! k = Some n) ∧
  (∀ k n, nodes d !! k = Some n → nodes c !! k = Some n ∨ ∃ sid, seeded_from members c sid k n) ∧
  (∀ k k' n n', nodes c !! k = None → nodes c !! k' = None → nodes d !! k = Some n →
     nodes d !! k' = Some n' → n_self_id n = n_self_id n' → k = k').
Proof.
  intros ->. unfold merge_member_refs.
  assert (Hall : ∀ ms added d, ms ⊆ members → seed_ok members c added d →
    let st := foldl (merge_member parse_ip h (get_all_nodes (now_unix h) c)) (added, d) ms in
    seed_ok members c st.1 st.2).
  { induction ms as [|m ms IH]; intros added d Hsub Hok; cbn [foldl]; [done|].
    pose proof (seed_step members c added d m ltac:(set_solver) Hok) as Hstep. cbv zeta in Hstep.
    destruct (merge_member _ _ _ _ _) as [added' d']. apply IH; [set_solver|done]. }
  destruct (Hall members ∅ c) as [_ _ Hnew Hold Huniq]; [done|split; naive_solver|].
  split_and!; [done| |done]. intros k n Hn. destruct (Hnew k n Hn) as [?|(s & ? & _)]; eauto.
Qed.
End Seed.

(** ** The display group *)

(** The group a node is listed under. *)
Definition display_group (c : option string) : string :=
  if is_default_group c then "wolfstack" else to_ascii_lowercase (trim (default "" c)).

Lemma display_group_default c : display_group c = "wolfstack" ↔ is_default_group c = true.
Proof.
  unfold display_group, is_default_group. destruct c as [s|]; cbn [default]; [|done].
  case_bool_decide as Ht; cbn [orb]; [done|]. unfold eq_ignore_ascii_case.
  case_bool_decide as He; [done|]. split; [|done]. intros E. by destruct (He E).
Qed.

(** Two nodes are in the same display cluster, the test that decides where
    settings and secrets may be pushed, exactly when they are listed under the
    same group; so the test is an equivalence and leaks nothing across groups. *)
Theorem same_display_cluster_group a b :
  same_display_cluster a b = bool_decide (display_group a = display_group b).
Proof.
  unfold same_display_cluster. destruct (is_default_group a) eqn:Ha, (is_default_group b) eqn:Hb; cbn [andb].
  - apply display_group_default in Ha, Hb. by rewrite Ha, Hb, bool_decide_true.
  - rewrite bool_decide_false.
    2:{ intros E. apply display_group_default in Ha. rewrite Ha in E. symmetry in E.
        apply display_group_default in E. congruence. }
    unfold is_default_group in Ha, Hb. destruct a as [x|], b as [y|]; try done.
    apply orb_false_iff in Hb as [Hy1 Hy2]. unfold eq_ignore_ascii_case in *. bool_props.
    apply bool_decide_eq_false. intros E. apply orb_true_iff in Ha as [Hx|Hx]; bool_props; [|congruence].
    rewrite Hx in E. by destruct (trim y).
  - rewrite bool_decide_false.
    2:{ intros E. apply display_group_default in Hb. rewrite Hb in E.
        apply display_group_default in E. congruence. }
    unfold is_default_group in Ha, Hb. destruct a as [x|], b as [y|]; try done.
    apply orb_false_iff in Ha as [Hy1 Hy2]. unfold eq_ignore_ascii_case in *. bool_props.
    apply bool_decide_eq_false. intros E. apply orb_true_iff in Hb as [Hx|Hx]; bool_props; [|congruence].
    rewrite Hx in E. by destruct (trim x).
  - unfold display_group. rewrite Ha, Hb. destruct a, b; try done.
Qed.

(** A peer stays online for at least one missed poll and thirty seconds
    more, never less than a minute, and always under the 300 seconds that the
    fan-out endpoints treat as fresh, whatever intervals both ends report. *)
Theorem online_window_bounds c n :
  let i := effective_poll_interval (self_poll_interval c) (n_poll_interval_secs n) in
  i ∈ POLL_INTERVAL_CHOICES ∧ 2 * i + 30 ≤ online_window_for c n ∧
  60 ≤ online_window_for c n ≤ 270 ∧ online_window_for c n < 300.
Proof.
  assert (Hn : ∀ s, default DEFAULT_POLL_INTERVAL_SECS (normalize_poll_interval s) ∈ POLL_INTERVAL_CHOICES).
  { intros [s|]; cbn; [|by apply list_elem_of_here]. case_match; [by bool_props|by apply list_elem_of_here]. }
  assert (Hi : ∀ a b, effective_poll_interval a b ∈ POLL_INTERVAL_CHOICES).
  { intros a b. unfold effective_poll_interval.
    destruct (Z.max_spec (default DEFAULT_POLL_INTERVAL_SECS (normalize_poll_interval a))
                         (default DEFAULT_POLL_INTERVAL_SECS (normalize_poll_interval b)))
      as [[_ ->]|[_ ->]]; apply Hn. }
  intros i. specialize (Hi (self_poll_interval c) (n_poll_interval_secs n)). fold i in Hi.
  unfold online_window_for, online_window_secs. fold i. split; [done|]. revert Hi. clearbody i.
  unfold POLL_INTERVAL_CHOICES, DEFAULT_POLL_INTERVAL_SECS. rewrite !elem_of_cons, elem_of_nil. lia.
Qed.

(** ** What a poll in flight overwrites *)
Section Races.
Context (parse_ip : string → option IpAddr) {O : HashOrder Node} (h : Host).
Implicit Types c : ClusterState.

Lemma merge_tombstones_nothing remote c :
  (∀ i, i ∈ remote → i = self_id c ∨ i ∈ deleted_ids c) → nodes (merge_tombstones h remote c) = nodes c.
Proof.
  intros Hr. unfold merge_tombstones.
  assert (foldl (tombstone_fold (self_id c)) (deleted_ids c, false) remote = (deleted_ids c, false)) as ->; [|done].
  induction remote as [|i js IH]; [done|]. cbn [foldl]. unfold tombstone_fold at 2.
  assert (bool_decide (i ≠ self_id c) && bool_decide (i ∉ deleted_ids c) = false) as ->.
  { destruct (Hr i) as [Hi|Hi]; [by left| |]; apply andb_false_iff; [left|right];
      apply bool_decide_eq_false; naive_solver. }
  apply IH. intros j Hj. apply Hr. by right.
Qed.

(** A poll writes its peer's record back from the copy taken when the
    cycle began: settings an operator changed while the request was in flight
    are undone, and a node removed meanwhile is back in the table although its
    id is tombstoned. *)
Theorem poll_writes_back_snapshot intents tls snapshot r p :
  let c := ps_cluster p in
  sr_node_id r ≠ self_id c → sr_known_nodes r = [] →
  (∀ i, i ∈ sr_deleted_ids r → i = self_id c ∨ i ∈ deleted_ids c) →
  ∃ n, nodes (ps_cluster (poll_answered parse_ip h intents tls snapshot r p)) !! n_id snapshot = Some n ∧
    n_migration_address n = n_migration_address snapshot ∧
    n_login_disabled n = n_login_disabled snapshot ∧
    n_cluster_name n = n_cluster_name snapshot ∧
    n_update_script n = n_update_script snapshot ∧
    n_address n = n_address snapshot ∧ n_port n = n_port snapshot.
Proof.
  intros c Hid Hk Hd. rewrite poll_answered_after, Hk by done. cbn [foldl]. unfold after_report.
  rewrite merge_tombstones_nothing by done. unfold update_remote. cbn [nodes setter].
  exists (polled_node h tls snapshot r c).
  change (n_id snapshot) with (n_id (polled_node h tls snapshot r c)) at 1.
  by rewrite lookup_insert_eq.
Qed.
End Races.

(** ** Witnesses *)
Module Demo.
Definition order : HashOrder Node := canonical_order Node.
#[local] Existing Instance order.
Definition no_ip (s : string) : option IpAddr := None.
Definition host : Host := mk_host "me" ∅ 1000 Stored true None [].
Definition files : SelfFiles := mk_self_files None None None None None None.

(** A peer's record, pinned to [key]. *)
Definition peer (id sid name : string) (key : option string) : Node :=
  mk_node id name name 8553 None 0 true false None "wolfstack" None None None None (Some "A") true
    true true true false true None (Some sid) key true [] None None [] None.
Definition me : Node := peer "ws-me" "ws-me" "me" None <| n_is_self := true |>.

Definition state (k : option string) : ClusterState :=
  mk_cluster (<["ws-me" := me]> (<["node-1" := peer "node-1" "ws-1" "one" k]> ∅)) "ws-me" "0.0.0.0" 8553 ∅
    None None files.
Definition report (name : string) (key : option string) (known : list Node) (deleted : list string) :
    StatusReport :=
  mk_report "ws-1" name None known deleted true true true [] None None [] None key.
Definition poll (r : StatusReport) (c : ClusterState) : ClusterState :=
  ps_cluster (poll_answered no_ip host ∅ true (peer "node-1" "ws-1" "one" (Some "old")) r
    (mk_poll ∅ false c)).

Definition members : list Node :=
  [peer "n2" "ws-2" "two" (Some "k"); peer "n3" "ws-2" "three" None; peer "x" "ws-me" "other" None].

(** Every id is watched. *)
Definition everybody : Watched := λ _, True.
Lemma state_cinv k : cinv (W := everybody) (state k).
Proof.
  split; split; cbn [state nodes deleted_ids self_id nodes_file deleted_file]; try done.
  - intros i n. rewrite !lookup_insert_Some, lookup_empty. naive_solver.
  - intros i n. rewrite !lookup_insert_Some, lookup_empty. intros Hn Hs -> . naive_solver.
Qed.
End Demo.

(** The key pinned for a peer can be replaced by that peer's endpoint alone.
    A report that claims this node's hostname (the port is the same by
    default) hides the record, so the gossip in the same report re-creates it
    without a key; the next report then pins a new one. *)
Theorem repin_by_impersonation :
  ∃ parse_ip (O : HashOrder Node) h snapshot r1 r2 c n1 n2,
    cinv (W := Demo.everybody) c ∧ nodes c !! n_id snapshot = Some n1 ∧ n_pubkey n1 = Some "old" ∧
    n_join_verified n1 = true ∧ sr_node_id r1 ≠ self_id c ∧ sr_node_id r2 ≠ self_id c ∧
    let poll r c := ps_cluster (poll_answered parse_ip h ∅ true snapshot r (mk_poll ∅ false c)) in
    nodes (poll r2 (poll r1 c)) !! n_id snapshot = Some n2 ∧ n_pubkey n2 = Some "new".
Proof.
  set (snap := Demo.peer "node-1" "ws-1" "one" (Some "old")).
  set (r1 := Demo.report "me" (Some "new") [Demo.peer "node-1" "ws-9" "x" None] []).
  set (r2 := Demo.report "one" (Some "new") [] []).
  set (c := Demo.state (Some "old")).
  destruct (nodes (Demo.poll r2 (Demo.poll r1 c)) !! n_id snap) as [n2|] eqn:E2.
  2:{ exfalso. revert E2. vm_compute. discriminate. }
  exists Demo.no_ip, Demo.order, Demo.host, snap, r1, r2, c, snap, n2. cbv zeta.
  split_and!; [apply Demo.state_cinv|by vm_compute..|exact E2|].
  revert E2. vm_compute. by intros [= <-].
Qed.

Lemma pinned_key_kept_witness :
  nodes (Demo.poll (Demo.report "one" (Some "evil") [] []) (Demo.state (Some "old"))) !! "node-1"
    ≫= n_pubkey = Some "old".
Proof.
  destruct (nodes (Demo.poll (Demo.report "one" (Some "evil") [] []) (Demo.state (Some "old"))) !! "node-1")
    as [m|] eqn:E; [|revert E; vm_compute; discriminate].
  refine (pinned_key_kept (W := Demo.everybody) Demo.no_ip Demo.host "node-1" "old" ∅ true _ _ (mk_poll ∅ false (Demo.state (Some "old")))
    (Demo.peer "node-1" "ws-1" "one" (Some "old")) (Demo.state_cinv _) _ _ _ eq_refl _ _ _ m E).
  - by vm_compute.
  - done.
  - by vm_compute.
  - by vm_compute.
  - by vm_compute.
  - intros n Hn. revert Hn. vm_compute. by intros [= <-].
Defined.

Lemma poll_writes_back_snapshot_witness :
  let c := (remove_server (O := Demo.order) Demo.host "node-1" (Demo.state None)).2 in
  "node-1" ∈ deleted_ids c ∧
  ∃ n, nodes (Demo.poll (Demo.report "one" None [] ["node-1"]) c) !! "node-1" = Some n.
Proof.
  cbv zeta. set (c := (remove_server _ _ _).2).
  assert (Hd : "node-1" ∈ deleted_ids c) by (refine (bool_decide_unpack _ _); by vm_compute).
  split; [exact Hd|].
  destruct (poll_writes_back_snapshot (O := Demo.order) Demo.no_ip Demo.host ∅ true
    (Demo.peer "node-1" "ws-1" "one" (Some "old")) (Demo.report "one" None [] ["node-1"])
    (mk_poll ∅ false c)) as (n & Hn & _).
  - by vm_compute.
  - done.
  - intros i ->%list_elem_of_singleton. right. exact Hd.
  - exists n. exact Hn.
Defined.

Lemma prune_keeps_one_per_machine_witness :
  let l := [Demo.me; Demo.peer "a" "s1" "h1" None; Demo.peer "b" "s1" "h2" None; Demo.peer "c" "s2" "h1" None] in
  plan_prune Demo.no_ip l = ["b"; "c"] ∧
  ∃ y, y ∈ l ∧ shares Demo.no_ip (Demo.peer "c" "s2" "h1" None) y.
Proof.
  cbv zeta. split; [by vm_compute|].
  set (l := [_; _; _; _]). assert (Hn : NoDup (n_id <$> l)) by (refine (bool_decide_unpack _ _); by vm_compute).
  destruct (prune_keeps_one_per_machine Demo.no_ip l Hn) as (_ & _ & H).
  destruct (H (Demo.peer "c" "s2" "h1" None)) as (y & [Hy _] & Hs & _).
  - refine (bool_decide_unpack _ _); by vm_compute.
  - intros [_ Hk]. apply Hk. refine (bool_decide_unpack _ _); by vm_compute.
  - by exists y.
Defined.

Lemma merge_members_safe_witness :
  let d := merge_member_refs (O := Demo.order) Demo.no_ip Demo.host Demo.members (Demo.state None) in
  is_Some (nodes d !! "n2") ∧ nodes d !! "n3" = None ∧ nodes d !! "x" = None ∧
  ∀ n, nodes d !! "n2" = Some n → nodes (Demo.state None) !! "n2" = Some n ∨
    ∃ sid, seeded_from (O := Demo.order) Demo.no_ip Demo.host Demo.members (Demo.state None) sid "n2" n.
Proof.
  cbv zeta. split_and!; [by vm_compute; eauto|by vm_compute|by vm_compute|].
  destruct (merge_members_safe (O := Demo.order) Demo.no_ip Demo.host Demo.members (Demo.state None) _ eq_refl)
    as (_ & H & _). apply H.
Defined.

Lemma removed_stays_removed_witness :
  let c := (first_start (O := Demo.order) Demo.no_ip Demo.host "ws-me" "0.0.0.0" 8553 Demo.files).1 in
  let c1 := (add_server (O := Demo.order) Demo.host "node-1" "one" 8553 None c).2 in
  let c2 := (remove_server (O := Demo.order) Demo.host "node-1" c1).2 in
  let c3 := new (O := Demo.order) Demo.no_ip Demo.host (self_id c2) "0.0.0.0" 8553 (nodes_file c2)
              (deleted_file c2) (self_files c2) in
  let c4 := apply_control_plane_bundle (O := Demo.order) Demo.no_ip Demo.host
              (mk_bundle "ws-2" [Demo.peer "node-1" "ws-1" "one" None] []) None c3 in
  is_Some (nodes c1 !! "node-1") ∧ nodes c4 !! "node-1" = None ∧ "node-1" ∈ deleted_ids c4.
Proof.
  intros c c1 c2 c3 c4.
  destruct (nodes c1 !! "node-1") as [n|] eqn:E; [|revert E; vm_compute; discriminate].
  split; [eauto|].
  refine (removed_stays_removed (O := Demo.order) Demo.no_ip Demo.host Demo.host "ws-me" "0.0.0.0" 8553
    Demo.files c1 [] c4 [] "node-1" n eq_refl eq_refl _ _ E _ _).
  - apply rtc_once. unfold first_start. apply m_op, step_add; [done| |by vm_compute].
    refine (bool_decide_unpack _ _); by vm_compute.
  - by vm_compute.
  - constructor.
  - apply (rtc_l _ _ (c3, [])); [by apply (m_restart Demo.no_ip c2 Demo.host "0.0.0.0" 8553)|].
    apply rtc_once. by apply m_op, step_bundle.
Defined.
