(* ===== verification/WolfRun.v ===== *)
(** * WolfRun: services and their store (src/src/wolfrun/mod.rs)

    The service table with its deletion tombstones and failover history, the
    three files it is kept in, the merge of a peer's table, the election of
    the leader, the choice of a node for a new container, and the restart
    back-off. *)
From S2P Require Import Prelude F32 Net Cluster.

Inductive Runtime := Docker | Lxc.
#[global] Instance Runtime_eq_dec : EqDecision Runtime.
Proof. solve_decision. Defined.

Inductive Placement := AnyNode | PreferNode (id : string) | RequireNode (id : string).
Inductive RestartPolicy := Always | OnFailure | Never.

Record ServiceInstance := mk_instance {
  i_node_id : string;
  i_container_name : string;
  i_wolfnet_ip : option string;
  i_status : string;
  i_last_seen : Z;
  i_standby : bool
}.
#[global] Instance ServiceInstance_eq_dec : EqDecision ServiceInstance.
Proof. solve_decision. Defined.
#[global] Instance ServiceInstance_eta : Eta ServiceInstance := λ i,
  mk_instance (i_node_id i) (i_container_name i) (i_wolfnet_ip i) (i_status i) (i_last_seen i) (i_standby i).

Record FailoverEvent := mk_event {
  fe_timestamp : Z; fe_service_id : string; fe_service_name : string;
  fe_from_node : string; fe_to_node : string; fe_container_name : string; fe_detail : string
}.

Record LxcConfig := mk_lxc { lx_distribution : string; lx_release : string; lx_architecture : string }.

Record WolfRunService := mk_service {
  sv_id : string; sv_name : string; sv_image : string;
  sv_replicas : Z; sv_min_replicas : Z; sv_max_replicas : Z;
  sv_runtime : Runtime; sv_lxc_config : option LxcConfig;
  sv_env : list string; sv_ports : list string; sv_volumes : list string;
  sv_cluster_name : string; sv_placement : Placement; sv_restart_policy : RestartPolicy;
  sv_instances : list ServiceInstance; sv_service_ip : option string; sv_lb_policy : string;
  sv_allowed_nodes : list string; sv_failover : bool; sv_created_at : Z; sv_updated_at : Z
}.
#[global] Instance WolfRunService_eta : Eta WolfRunService := λ s,
  mk_service (sv_id s) (sv_name s) (sv_image s) (sv_replicas s) (sv_min_replicas s)
    (sv_max_replicas s) (sv_runtime s) (sv_lxc_config s) (sv_env s) (sv_ports s) (sv_volumes s)
    (sv_cluster_name s) (sv_placement s) (sv_restart_policy s) (sv_instances s) (sv_service_ip s)
    (sv_lb_policy s) (sv_allowed_nodes s) (sv_failover s) (sv_created_at s) (sv_updated_at s).

Definition TOMBSTONE_RETENTION_SECS : Z := 30 * 24 * 3600.
Definition TOMBSTONE_MAX : nat := 500.
Definition MAX_FAILOVER_EVENTS : nat := 100.

(** [None]: the file is missing or does not parse. *)
Record WolfRunState := mk_wolfrun {
  services : list WolfRunService;
  failover_events : list FailoverEvent;
  deleted : gmap string Z;
  services_file : option (list WolfRunService);
  events_file : option (list FailoverEvent);
  tombstones_file : option (gmap string Z)
}.
#[global] Instance WolfRunState_eta : Eta WolfRunState := λ s,
  mk_wolfrun (services s) (failover_events s) (deleted s) (services_file s) (events_file s)
    (tombstones_file s).

Definition node_matches_id (n : Node) (id : string) : bool :=
  bool_decide (n_id n = id) || bool_decide (n_self_id n = Some id).

Definition has_id (id : string) (s : WolfRunService) : bool := bool_decide (sv_id s = id).

(** [svcs.remove(position)] *)
Fixpoint remove_first {A} (p : A → bool) (l : list A) : list A :=
  match l with [] => [] | x :: l => if p x then l else x :: remove_first p l end.

(** ** The store *)
Section Store.
Context {HO : HashOrder Z}.
(** The wall clock, and what becomes of a file that is written. *)
Context (now : Z) (write : Write).
Implicit Types s : WolfRunState.

Definition save s : WolfRunState :=
  s <| services_file := overwrite write (services s) (services_file s) |>.
Definition save_failover_events s : WolfRunState :=
  s <| events_file := overwrite write (failover_events s) (events_file s) |>.
Definition save_tombstones s : WolfRunState :=
  s <| tombstones_file := overwrite write (deleted s) (tombstones_file s) |>.

(** [while del.len() > TOMBSTONE_MAX] drop an oldest one. *)
Fixpoint drop_oldest (fuel : nat) (del : gmap string Z) : gmap string Z :=
  match fuel with
  | O => del
  | S fuel =>
      if bool_decide (TOMBSTONE_MAX < size del)%nat then
        match min_by_key snd (hm_iter del) with
        | Some (oldest, _) => drop_oldest fuel (delete oldest del)
        | None => del
        end
      else del
  end.

Definition prune_tombstones (del : gmap string Z) : gmap string Z :=
  let del := map_retain (λ _ ts, sat_sub now ts <? TOMBSTONE_RETENTION_SECS) del in
  drop_oldest (size del) del.

(** The state that [new] reads from the files. *)
Definition load s : WolfRunState :=
  mk_wolfrun (default [] (services_file s)) (default [] (events_file s))
    (match tombstones_file s with Some m => prune_tombstones m | None => ∅ end)
    (services_file s) (events_file s) (tombstones_file s).

Definition record_tombstone (id : string) s : WolfRunState :=
  save_tombstones (s <| deleted := prune_tombstones (<[id := now]> (deleted s)) |>).

Definition add_failover_event (e : FailoverEvent) s : WolfRunState :=
  let evts := failover_events s ++ [e] in
  save_failover_events (s <| failover_events := drop (length evts - MAX_FAILOVER_EVENTS) evts |>).

Definition get_failover_events (id : option string) s : list FailoverEvent :=
  match id with
  | Some id => retain (λ e, bool_decide (fe_service_id e = id)) (failover_events s)
  | None => failover_events s
  end.

Definition map_instances (f : ServiceInstance → ServiceInstance) (v : WolfRunService) : WolfRunService :=
  v <| sv_instances := f <$> sv_instances v |>.

Definition remap_node_id (old new : string) s : nat * WolfRunState :=
  if bool_decide (old = new) || bool_decide (old = "") then (0%nat, s) else
  let hit i := bool_decide (i_node_id i = old) in
  let moved := length (retain hit (mjoin (sv_instances <$> services s))) in
  let s := s <| services := map_instances (λ i, if hit i then i <| i_node_id := new |> else i)
                              <$> services s |> in
  (moved, if bool_decide (0 < moved)%nat then save s else s).

Definition rename_cluster (old new : string) s : nat * WolfRunState :=
  let hit v := eq_ignore_ascii_case (sv_cluster_name v) old in
  let count := length (retain hit (services s)) in
  let s := s <| services := (λ v, if hit v then v <| sv_cluster_name := new |> else v) <$> services s |> in
  (count, if bool_decide (0 < count)%nat then save s else s).

Definition list_services (cluster : option string) s : list WolfRunService :=
  match cluster with
  | Some c => retain (λ v, bool_decide (sv_cluster_name v = c)) (services s)
  | None => services s
  end.

Definition get (id : string) s : option WolfRunService := List.find (has_id id) (services s).

(** [iter_mut().find(..)], then [save]: whether the service exists. *)
Definition update (id : string) (f : WolfRunService → WolfRunService) s : bool * WolfRunState :=
  match get id s with
  | Some _ => (true, save (s <| services := update_first (has_id id) f (services s) |>))
  | None => (false, s)
  end.

Record CreateService := mk_create {
  cr_name : string; cr_image : string; cr_replicas : Z; cr_cluster_name : string;
  cr_env : list string; cr_ports : list string; cr_volumes : list string;
  cr_placement : Placement; cr_restart_policy : RestartPolicy; cr_runtime : Runtime;
  cr_lxc_config : option LxcConfig; cr_failover : bool
}.

(** [id] is fresh; [service_ip] is the next free WolfNet address, if any. *)
Definition create (id : string) (service_ip : option string) (r : CreateService) s :
    WolfRunService * WolfRunState :=
  let v := mk_service id (cr_name r) (cr_image r) (cr_replicas r) 0 10 (cr_runtime r)
             (cr_lxc_config r) (cr_env r) (cr_ports r) (cr_volumes r) (cr_cluster_name r)
             (cr_placement r) (cr_restart_policy r) [] service_ip "round_robin" []
             (cr_failover r) now now in
  (v, save (s <| services := services s ++ [v] |>)).

Definition delete_service (id : string) s : option WolfRunService * WolfRunState :=
  match get id s with
  | Some v => (Some v, record_tombstone id (save (s <| services := remove_first (has_id id) (services s) |>)))
  | None => (None, s)
  end.

Definition scale (id : string) (replicas : Z) s : bool * WolfRunState :=
  update id (λ v,
    let v := if sv_max_replicas v <? replicas then v <| sv_max_replicas := replicas |> else v in
    v <| sv_replicas := Z.min (Z.max replicas (sv_min_replicas v)) (sv_max_replicas v) |>
      <| sv_updated_at := now |>) s.

Record ServiceSettingsUpdate := mk_settings {
  su_min : option Z; su_max : option Z; su_desired : option Z;
  su_lb_policy : option string; su_allowed_nodes : option (list string); su_failover : option bool
}.

Definition apply_settings (u : ServiceSettingsUpdate) (v : WolfRunService) : WolfRunService :=
  let v := match su_min u with Some m => v <| sv_min_replicas := m |> | None => v end in
  let v := match su_max u with Some m => v <| sv_max_replicas := m |> | None => v end in
  let v := match su_desired u with Some d => v <| sv_replicas := d |> | None => v end in
  let v := match su_lb_policy u with
           | Some p => if bool_decide (p = "ip_hash") || bool_decide (p = "round_robin")
                       then v <| sv_lb_policy := p |> else v
           | None => v
           end in
  let v := match su_allowed_nodes u with Some ns => v <| sv_allowed_nodes := ns |> | None => v end in
  let v := match su_failover u with Some f => v <| sv_failover := f |> | None => v end in
  let v := if sv_max_replicas v <? sv_min_replicas v
           then v <| sv_min_replicas := sv_max_replicas v |> else v in
  v <| sv_replicas := Z.min (Z.max (sv_replicas v) (sv_min_replicas v)) (sv_max_replicas v) |>
    <| sv_updated_at := now |>.

Definition update_settings (id : string) (u : ServiceSettingsUpdate) s : bool * WolfRunState :=
  update id (apply_settings u) s.

Definition update_image (id image : string) s : bool * WolfRunState :=
  update id (λ v, v <| sv_image := image |> <| sv_updated_at := now |>) s.

(** These two save whether or not the service exists. *)
Definition update_instances (id : string) (l : list ServiceInstance) s : WolfRunState :=
  save (s <| services := update_first (has_id id)
               (λ v, v <| sv_instances := l |> <| sv_updated_at := now |>) (services s) |>).

Definition change_instances (id : string) (f : list ServiceInstance → list ServiceInstance) s : WolfRunState :=
  save (s <| services := update_first (has_id id)
               (λ v, v <| sv_instances := f (sv_instances v) |>) (services s) |>).

Definition add_instance (id : string) (i : ServiceInstance) : WolfRunState → WolfRunState :=
  change_instances id (λ l, l ++ [i]).

Definition called (name : string) (i : ServiceInstance) : bool := bool_decide (i_container_name i = name).

Definition remove_instance (id name : string) : WolfRunState → WolfRunState :=
  change_instances id (retain (λ i, negb (called name i))).

Record AdoptService := mk_adopt {
  ad_name : string; ad_container_name : string; ad_node_id : string; ad_image : string;
  ad_runtime : Runtime; ad_cluster_name : string;
  ad_env : list string; ad_ports : list string; ad_volumes : list string
}.

Definition adopt (id arch : string) (service_ip : option string) (r : AdoptService) s :
    WolfRunService * WolfRunState :=
  let i := mk_instance (ad_node_id r) (ad_container_name r) None "running" now false in
  let lxc := match ad_runtime r with
             | Docker => None
             | Lxc => Some match split_once " "%char (ad_image r) with
                           | Some (d, rel) => mk_lxc d rel arch
                           | None => mk_lxc (ad_image r) "24.04" arch
                           end
             end in
  let v := mk_service id (ad_name r) (ad_image r) 1 1 10 (ad_runtime r) lxc (ad_env r) (ad_ports r)
             (ad_volumes r) (ad_cluster_name r) AnyNode Always [i] service_ip "round_robin" []
             false now now in
  (v, save (s <| services := services s ++ [v] |>)).

Definition services_managing (name : string) s : list (string * string) :=
  (λ v, (sv_id v, sv_name v)) <$> retain (λ v, existsb (called name) (sv_instances v)) (services s).

(** The rejected ids, and the merged state. *)
Definition merge_from_peer (peer : list WolfRunService) s : list string * WolfRunState :=
  if bool_decide (peer = []) then ([], s) else
  let peer_clusters : gset string := list_to_set (sv_cluster_name <$> peer) in
  let dead v := bool_decide (is_Some (deleted s !! sv_id v)) in
  (sv_id <$> retain dead peer,
   save (s <| services := retain (λ v, bool_decide (sv_cluster_name v ∉ peer_clusters)) (services s)
                            ++ retain (λ v, negb (dead v)) peer |>)).

Definition remove_if_exists (id : string) s : bool * WolfRunState :=
  let kept := retain (λ v, negb (has_id id v)) (services s) in
  let removed := bool_decide (length kept < length (services s))%nat in
  let s := s <| services := kept |> in
  (removed, record_tombstone id (if removed then save s else s)).
End Store.
#[global] Arguments save : simpl never.
#[global] Arguments save_failover_events : simpl never.
#[global] Arguments save_tombstones : simpl never.
#[global] Arguments change_instances : simpl never.

(** ** The leader *)
Definition cluster_of (n : Node) : string := default "WolfStack" (n_cluster_name n).
Definition canonical_id (n : Node) : string := default (n_id n) (n_self_id n).

Definition self_cluster (ns : list Node) : string :=
  default "WolfStack" (n ← List.find n_is_self ns; n_cluster_name n).

Definition is_leader_among (ns : list Node) (self_id : string) : bool :=
  let ids := canonical_id <$>
    retain (λ n, n_online n && bool_decide (cluster_of n = self_cluster ns)) ns in
  match merge_sort String.le ids with
  | leader :: _ => bool_decide (leader = self_id)
  | [] => true
  end.

Definition is_leader {O : HashOrder Node} (now : Z) (c : ClusterState) : bool :=
  is_leader_among (get_all_nodes now c) (self_id c).

(** ** Choosing a node *)

(** Usage in percent: CPU, memory, and each disk. *)
Record Metrics := mk_metrics { mt_cpu : f32; mt_memory : f32; mt_disks : list f32 }.

Section Schedule.
Context {O : HashOrder Node}.
(** The last metrics of a node, and whether a runtime is installed here. *)
Context (metrics : Node → option Metrics) (installed : Runtime → bool).

Definition node_score (n : Node) : f32 :=
  match metrics n with
  | None => f32_MAX
  | Some m =>
      let disk := foldl f32_max f32_0 (mt_disks m) in
      f32_add (f32_add (f32_mul (mt_cpu m) f32_0_4) (f32_mul (mt_memory m) f32_0_4))
              (f32_mul disk f32_0_2)
  end.

Definition has_runtime (rt : Runtime) (n : Node) : bool :=
  match rt with Docker => n_has_docker n | Lxc => n_has_lxc n end || (n_is_self n && installed rt).

Definition eligible (v : WolfRunService) (n : Node) : bool :=
  n_online n && has_runtime (sv_runtime v) n && bool_decide (cluster_of n = sv_cluster_name v)
  && (bool_decide (sv_allowed_nodes v = []) || existsb (node_matches_id n) (sv_allowed_nodes v))
  && match sv_placement v with RequireNode id => node_matches_id n id | _ => true end.

(** Instances that run, or are about to, under the registry key of [n]. *)
Definition instance_count (v : WolfRunService) (n : Node) : Z :=
  Z.of_nat (length (retain (λ i,
    (bool_decide (i_status i = "running") || bool_decide (i_status i = "pending"))
    && bool_decide (i_node_id i = n_id n)) (sv_instances v))).

Definition placement_score (v : WolfRunService) (n : Node) : f32 :=
  f32_add (node_score n) (f32_mul (f32_of_Z (instance_count v n)) f32_100).

(** [min_by]: the earlier of two nodes unless it compares greater. *)
Definition scores_below (v : WolfRunService) (b a : Node) : bool :=
  match partial_cmp (placement_score v a) (placement_score v b) with Some Gt => true | _ => false end.

Definition schedule (ns : list Node) (v : WolfRunService) : option string :=
  let es := retain (eligible v) ns in
  let best := n_id <$> pick (scores_below v) es in
  match sv_placement v with
  | PreferNode p =>
      match List.find (λ n, node_matches_id n p) es with
      | Some n => if n_online n then Some (n_id n) else best
      | None => best
      end
  | _ => best
  end.
End Schedule.

(** ** Restart back-off *)
Record RestartRecord := mk_restart { rr_attempts : Z; rr_last_attempt : Z; rr_gave_up : bool }.

Definition MAX_RESTART_ATTEMPTS : Z := 8.
Definition RESTART_BACKOFF_BASE_SECS : Z := 15.
Definition RESTART_BACKOFF_MAX_SECS : Z := 600.

Definition restart_backoff_delay (attempts : Z) : Z :=
  Z.min (sat_mul RESTART_BACKOFF_BASE_SECS (Z.shiftl 1 (Z.min (sat_sub attempts 1) 31)))
        RESTART_BACKOFF_MAX_SECS.

Abbreviation Backoff := (gmap string RestartRecord).

Definition should_attempt_restart (now : Z) (c : string) (m : Backoff) : bool * Backoff :=
  let r := default (mk_restart 0 0 false) (m !! c) in
  if MAX_RESTART_ATTEMPTS <=? rr_attempts r
  then (false, <[c := mk_restart (rr_attempts r) (rr_last_attempt r) true]> m)
  else if (0 <? rr_attempts r)
          && (sat_sub now (rr_last_attempt r) <? restart_backoff_delay (rr_attempts r))
  then (false, <[c := r]> m)
  else (true, <[c := mk_restart (rr_attempts r + 1) now (rr_gave_up r)]> m).

Definition clear_restart_backoff (c : string) (m : Backoff) : Backoff := delete c m.
Definition prune_restart_backoff (live : gset string) (m : Backoff) : Backoff :=
  map_retain (λ c _, bool_decide (c ∈ live)) m.
