(* ===== verification/WolfRunLb.v ===== *)
(** * WolfRun: the load balancer's NAT rules (src/src/wolfrun/mod.rs)

    The rules that send a service's virtual address to its backends, their
    removal by comment, and where the connections of a chain end up. *)
From S2P Require Import Prelude Net.

(** A rule that [rebuild_lb_rules] appends. *)
Inductive Share := Always | Random (remaining : nat) | Nth (every packet : nat).
Inductive Target := Dnat (dest : string) | Masquerade.
Record NatRule := mk_rule {
  r_daddr : string;
  r_dports : list string;
  r_share : Share;
  r_target : Target;
  r_comment : string
}.

(** The chains of the nat table. *)
Abbreviation Nat := (gmap string (list NatRule)).
Definition chain_of (c : string) (t : Nat) : list NatRule := default [] (t !! c).

Definition lb_comment (vip : string) : string := "wolfrun-lb-" +:+ vip.

(** The line numbers, from one, of the listed rules whose line contains the
    comment (nothing else on a line does). *)
Definition matching_lines (vip : string) (l : list NatRule) : list nat :=
  (λ ir, S ir.1) <$> retain (λ ir, contains_str (lb_comment vip) (r_comment ir.2)) (enumerate l).

(** [iptables -D chain num] *)
Definition delete_line (l : list NatRule) (num : nat) : list NatRule :=
  take (pred num) l ++ drop num l.

(** From the highest line number down. *)
Definition remove_chain (vip : string) (l : list NatRule) : list NatRule :=
  foldl delete_line l (reverse (merge_sort le (matching_lines vip l))).

(** [listed c]: the chain could be listed. *)
Definition remove_lb_rules_for_vip (listed : string → bool) (vip : string) (t : Nat) : Nat :=
  foldl (λ t c, if listed c then <[c := remove_chain vip (chain_of c t)]> t else t) t
    ["PREROUTING"; "POSTROUTING"; "OUTPUT"].

(** "host:container" or "port" *)
Definition lb_port (p : string) : string :=
  match split_once ":"%char p with Some (_, c) => c | None => p end.

Definition lb_rule (vip policy : string) (ports : list string) (n i : nat) (backend : string) : NatRule :=
  let remaining := (n - i)%nat in
  mk_rule vip ports
    (if bool_decide (1 < remaining)%nat
     then if bool_decide (policy = "ip_hash") then Random remaining else Nth remaining 0
     else Always)
    (Dnat match ports with [] => backend | p :: _ => backend +:+ ":" +:+ p end)
    (lb_comment vip).

Definition append (c : string) (rs : list NatRule) (t : Nat) : Nat := <[c := chain_of c t ++ rs]> t.

(** [accepted r]: the command that appends [r] succeeds. *)
Definition rebuild_lb_rules (listed : string → bool) (accepted : NatRule → bool)
    (vip : string) (backends ports : list string) (policy : string) (t : Nat) : Nat :=
  let t := remove_lb_rules_for_vip listed vip t in
  if bool_decide (backends = []) then t else
  let ps := lb_port <$> ports in
  let dnat := retain accepted ((λ ib, lb_rule vip policy ps (length backends) ib.1 ib.2)
                                 <$> enumerate backends) in
  let back := retain accepted ((λ b, mk_rule b [] Always Masquerade (lb_comment vip)) <$> backends) in
  append "POSTROUTING" back (append "OUTPUT" dnat (append "PREROUTING" dnat t)).

(** The addresses whose rules are in PREROUTING. *)
Definition vips_with_lb_rules (listed : string → bool) (t : Nat) : option (gset string) :=
  if listed "PREROUTING" then
    Some (list_to_set (omap (λ r,
      if String.prefix "wolfrun-lb-" (r_comment r)
      then let vip := String.substring 11 (String.length (r_comment r) - 11) (r_comment r) in
           if bool_decide (vip = "") then None else Some vip
      else None) (chain_of "PREROUTING" t)))
  else None.

(** ** Deleting by line number *)

Lemma delete_middle a x b : delete_line (a ++ x :: b) (S (length a)) = a ++ b.
Proof.
  unfold delete_line. cbn [pred]. rewrite take_app_length.
  change (x :: b) with ([x] ++ b). rewrite (assoc_L (++)).
  by rewrite drop_app_length' by (rewrite length_app; cbn; lia).
Qed.

Definition lines_from (p : NatRule → bool) (k : nat) (l : list NatRule) : list nat :=
  (λ ir, S ir.1) <$> retain (λ ir, p ir.2) (zip (seq k (length l)) l).

Lemma lines_from_cons p k r l :
  lines_from p k (r :: l) = (if p r then [S k] else []) ++ lines_from p (S k) l.
Proof. unfold lines_from, retain. cbn. by destruct (p r). Qed.

Lemma lines_from_bound p k l : Forall (λ n, (k < n)%nat) (lines_from p k l).
Proof.
  revert k. induction l as [|r l IH]; intros k; [constructor|]. rewrite lines_from_cons.
  apply Forall_app. split; [destruct (p r); repeat constructor|].
  eapply Forall_impl; [apply IH|]. cbn. lia.
Qed.

Lemma lines_from_sorted p k l : StronglySorted le (lines_from p k l).
Proof.
  revert k. induction l as [|r l IH]; intros k; [constructor|]. rewrite lines_from_cons.
  destruct (p r); [|apply IH]. constructor; [apply IH|].
  eapply Forall_impl; [apply lines_from_bound|]. cbn. lia.
Qed.

Lemma delete_lines p a l :
  foldl delete_line (a ++ l) (reverse (lines_from p (length a) l)) = a ++ retain (λ r, negb (p r)) l.
Proof.
  revert a. induction l as [|r l IH]; intros a; [done|]. rewrite lines_from_cons, reverse_app, foldl_app.
  specialize (IH (a ++ [r])). rewrite <-!(assoc_L (++)), length_app in IH. cbn [app length] in IH.
  replace (length a + 1)%nat with (S (length a)) in IH by lia.
  rewrite IH. unfold retain. cbn [List.filter]. destruct (p r); cbn [negb].
  - rewrite reverse_singleton. cbn [foldl]. by rewrite delete_middle.
  - done.
Qed.

(** Deleting the listed lines from the last to the first removes exactly the
    rules that were listed. *)
Lemma remove_chain_retain vip l :
  remove_chain vip l = retain (λ r, negb (contains_str (lb_comment vip) (r_comment r))) l.
Proof.
  unfold remove_chain, matching_lines. set (p := λ r, contains_str (lb_comment vip) (r_comment r)).
  change ((λ ir : nat * NatRule, S ir.1) <$> _) with (lines_from p 0 l).
  assert (merge_sort le (lines_from p 0 l) = lines_from p 0 l) as ->.
  { apply (StronglySorted_unique le); [|apply lines_from_sorted|apply merge_sort_Permutation].
    apply StronglySorted_merge_sort; [intros x y z|intros x y]; lia. }
  apply (delete_lines p [] l).
Qed.

(** ** Where connections go

    [hits s k]: a rule with share [s] takes the connection that reaches it
    after [k] others (netfilter's statistic match). *)
Section Routing.
Context (hits : Share → nat → bool).
Context (hits_always : ∀ k, hits Always k = true).
Context (hits_nth : ∀ every packet k, (0 < every)%nat → hits (Nth every packet) k = bool_decide (k mod every = packet)%nat).

(** One new connection through the rules of a chain: where it goes, and how
    many connections have reached each rule since. *)
Fixpoint route (rs : list NatRule) (cs : list nat) : option Target * list nat :=
  match rs, cs with
  | r :: rs, k :: cs =>
      if hits (r_share r) k then (Some (r_target r), S k :: cs)
      else let '(t, cs) := route rs cs in (t, S k :: cs)
  | _, _ => (None, cs)
  end.

(** [m] connections, one after the other, through new rules. *)
Definition after (rs : list NatRule) (m : nat) : list nat :=
  Nat.iter m (λ cs, (route rs cs).2) (repeat 0%nat (length rs)).
Definition nth_target (rs : list NatRule) (m : nat) : option Target := (route rs (after rs m)).1.

Definition rules_from (vip policy : string) (ps : list string) (k : nat) (bs : list string) : list NatRule :=
  (λ ib, lb_rule vip policy ps (k + length bs) ib.1 ib.2) <$> zip (seq k (length bs)) bs.

Lemma rules_from_cons vip policy ps k b bs :
  rules_from vip policy ps k (b :: bs) =
    lb_rule vip policy ps (k + S (length bs)) k b :: rules_from vip policy ps (S k) bs.
Proof.
  unfold rules_from. cbn [length seq zip zip_with fmap list_fmap]. f_equal.
  by replace (k + S (length bs))%nat with (S k + length bs)%nat by lia.
Qed.

(** How many of [m] connections reach each of [r] rules. *)
Fixpoint reached (r m : nat) : list nat :=
  match r with O => [] | S r' => m :: reached r' (m - (m + r') / S r') end.

Definition dnat_to (ps : list string) (b : string) : Target :=
  Dnat match ps with [] => b | p :: _ => b +:+ ":" +:+ p end.

Lemma share_first vip policy ps k b (r' m : nat) :
  policy ≠ "ip_hash" →
  hits (r_share (lb_rule vip policy ps (k + S r') k b)) m = bool_decide (m mod S r' = 0)%nat.
Proof using hits_always hits_nth.
  intros Hp. unfold lb_rule. cbn [r_share]. replace (k + S r' - k)%nat with (S r') by lia.
  rewrite (bool_decide_false (policy = "ip_hash")) by done. case_bool_decide as Hr.
  - by rewrite hits_nth by lia.
  - rewrite hits_always. assert (r' = 0%nat) as -> by lia. symmetry. apply bool_decide_eq_true. apply Nat.mod_1_r.
Qed.

Lemma reached_step (r' m : nat) :
  (if bool_decide (m mod S r' = 0) then S m - (S m + r') / S r' = m - (m + r') / S r'
   else S m - (S m + r') / S r' = S (m - (m + r') / S r') ∧
        (m - (m + r') / S r') mod r' = m mod S r' - 1 ∧ 0 < r')%nat.
Proof.
  pose proof (Nat.div_mod_eq m (S r')) as Hm. pose proof (Nat.mod_upper_bound m (S r') ltac:(lia)) as Hs.
  set (q := (m / S r')%nat) in *. set (s := (m mod S r')%nat) in *.
  assert (Hc : ∀ x, (x < S r')%nat → ((q * S r' + x) / S r' = q)%nat)
    by (intros x Hx; symmetry; apply (Nat.div_unique _ _ _ x); lia).
  assert (H1 : ((S m + r') / S r' = S q)%nat)
    by (symmetry; apply (Nat.div_unique _ _ _ s); lia).
  case_bool_decide as H0.
  - assert (((m + r') / S r')%nat = q) as -> by (replace (m + r')%nat with (q * S r' + r')%nat by lia; apply Hc; lia).
    rewrite H1. lia.
  - assert (((m + r') / S r')%nat = S q) as -> by (symmetry; apply (Nat.div_unique _ _ _ (s - 1)); lia).
    rewrite H1. split_and!; [lia| |lia]. symmetry. apply (Nat.mod_unique _ _ q); lia.
Qed.

Lemma route_round_robin vip policy ps k bs m :
  policy ≠ "ip_hash" → bs ≠ [] →
  route (rules_from vip policy ps k bs) (reached (length bs) m) =
    (dnat_to ps <$> bs !! (m mod length bs)%nat, reached (length bs) (S m)).
Proof using hits_always hits_nth.
  intros Hp. revert k m. induction bs as [|b bs IH]; intros k m Hne; [done|].
  rewrite rules_from_cons. cbn [length reached route]. rewrite share_first by done.
  pose proof (reached_step (length bs) m) as Hs. case_bool_decide as H0.
  - rewrite H0. by rewrite Hs.
  - destruct Hs as (H1 & H2 & H3). rewrite IH by (by destruct bs; cbn in H3; [lia|]).
    rewrite H1, H2. f_equal. assert (m mod S (length bs) ≠ 0)%nat as Hm by done.
    destruct (m mod S (length bs))%nat as [|x]; [done|]. cbn. by rewrite Nat.sub_0_r.
Qed.

Lemma reached_0 r : reached r 0 = repeat 0%nat r.
Proof. induction r as [|r IH]; [done|]. cbn [reached repeat]. by rewrite Nat.sub_0_l, IH. Qed.

Lemma length_rules_from vip policy ps k bs : length (rules_from vip policy ps k bs) = length bs.
Proof. unfold rules_from. rewrite length_fmap, length_zip_with, length_seq. lia. Qed.

Lemma after_reached vip policy ps bs m :
  policy ≠ "ip_hash" → bs ≠ [] →
  after (rules_from vip policy ps 0 bs) m = reached (length bs) m.
Proof using hits_always hits_nth.
  intros Hp Hb. induction m as [|m IH].
  - unfold after. cbn. by rewrite length_rules_from, reached_0.
  - change (after _ (S m)) with ((route (rules_from vip policy ps 0 bs) (after (rules_from vip policy ps 0 bs) m)).2).
    rewrite IH. by rewrite route_round_robin.
Qed.
End Routing.
