(* ===== verification/WolfRunTick.v ===== *)
(** * WolfRun: the leader's pass (src/src/wolfrun/mod.rs)

    One pass of the reconciliation loop over the services of the leader's
    cluster, the promotion of standbys, their creation, and what the leader
    does with the deletions its peers report.  What a pass asks of its
    surroundings is a [RunWorld]; its commands to the container runtimes are
    kept as a log. *)
From S2P Require Import Prelude F32 Net Cluster WolfRun WolfRunLb.

(** A listed container; [c_ip]: the address the code picks from its text. *)
Record ContainerInfo := mk_container { c_name : string; c_state : string; c_ip : option string }.

Inductive Command :=
| Deploy (node name : string)
| StartContainer (node name : string)
| Destroy (node name : string).

Record RunWorld := mk_run_world {
  rw_now : Z;
  rw_write : Write;
  rw_cluster : ClusterState;
  rw_metrics : Node → option Metrics;
  rw_installed : Runtime → bool;
  rw_local : Runtime → list ContainerInfo;
  (** [None]: unreachable, or an error *)
  rw_remote : string → Runtime → option (list ContainerInfo);
  rw_uuid : nat → string;
  (** the next free WolfNet address (src/src/containers/mod.rs) *)
  rw_free_ip : WolfRunState → option string;
  rw_deploy_ok : Node → string → bool;
  rw_start_ok : Node → string → bool;
  rw_destroy_ok : Node → string → bool;
  rw_listed : string → bool;
  rw_accepted : NatRule → bool
}.

Record Pass := mk_pass {
  p_run : WolfRunState;
  p_backoff : Backoff;
  p_lb_cache : gmap string (list string);
  p_nat : Nat;
  p_uuids : nat;
  p_log : list Command
}.
#[global] Instance Pass_eta : Eta Pass := λ p,
  mk_pass (p_run p) (p_backoff p) (p_lb_cache p) (p_nat p) (p_uuids p) (p_log p).

Definition MAX_CREATES_PER_TICK : Z := 2.

Section Tick.
Context {HZ : HashOrder Z} {HN : HashOrder Node} (w : RunWorld).
Implicit Types (p : Pass) (v : WolfRunService) (i : ServiceInstance).
Let now := rw_now w.
Let ok := rw_write w.
Let ns : list Node := get_all_nodes (rw_now w) (rw_cluster w).

Definition on_run (f : WolfRunState → WolfRunState) p : Pass := p <| p_run := f (p_run p) |>.
Definition command (c : Command) p : Pass := p <| p_log := p_log p ++ [c] |>.

Definition short_id p : string * Pass := (rw_uuid w (p_uuids p), p <| p_uuids := S (p_uuids p) |>).

(** ** What is there *)
Definition offline i : ServiceInstance :=
  if bool_decide (i_status i = "pending") then i else i <| i_status := "offline" |>.

Definition seen_in (l : list ContainerInfo) i : ServiceInstance :=
  match List.find (λ c, bool_decide (c_name c = i_container_name i)) l with
  | Some c => mk_instance (i_node_id i) (i_container_name i) (c_ip c) (to_ascii_lowercase (c_state c))
                now (i_standby i)
  | None => if bool_decide (i_status i = "pending") then i
            else i <| i_wolfnet_ip := None |> <| i_status := "lost" |>
  end.

Definition observe (rt : Runtime) i : ServiceInstance :=
  match List.find (λ n, node_matches_id n (i_node_id i)) ns with
  | Some n =>
      if negb (n_online n) then offline i
      else if n_is_self n then
        if has_runtime (rw_installed w) rt n then seen_in (rw_local w rt) i else offline i
      else match rw_remote w (n_id n) rt with Some l => seen_in l i | None => offline i end
  | None => offline i
  end.

(** ** The load balancer *)
Definition backend_ips (live : list ServiceInstance) : list string :=
  merge_sort String.le (remove_dups (omap i_wolfnet_ip
    (retain (λ i, bool_decide (i_status i = "running") && negb (i_standby i)) live))).

Definition balance (present : option (gset string)) v (live : list ServiceInstance) p : Pass :=
  match sv_service_ip v with
  | None => p
  | Some vip =>
      let ips := backend_ips live in
      let changed := negb (bool_decide (p_lb_cache p !! vip = Some ips)) in
      let p := p <| p_lb_cache := <[vip := ips]> (p_lb_cache p) |> in
      let missing := negb (bool_decide (ips = []))
                     && match present with Some s => bool_decide (vip ∉ s) | None => false end in
      if changed || missing
      then p <| p_nat := rebuild_lb_rules (rw_listed w) (rw_accepted w) vip ips (sv_ports v)
                           (sv_lb_policy v) (p_nat p) |>
      else p
  end.

(** ** Scaling up *)
Definition exists_still i : bool := negb (i_standby i) && negb (bool_decide (i_status i = "lost")).
Definition existing (l : list ServiceInstance) : Z := Z.of_nat (length (retain exists_still l)).

Definition new_instance (node name : string) (ip : option string) (status : string) (standby : bool) :
    ServiceInstance := mk_instance node name ip status now standby.

Definition slug (name : string) : string := replace_char " "%char "-"%char (to_ascii_lowercase name).

(** The instance a clone is made of. *)
Definition clone_source v (live : list ServiceInstance) : option ServiceInstance :=
  match List.find (λ i, bool_decide (i_status i = "running")) live with
  | Some i => Some i
  | None => match head live with Some i => Some i | None => head (sv_instances v) end
  end.

Definition deploy_docker v (node : Node) p : Pass :=
  let '(u, p) := short_id p in
  let name := slug (sv_name v) +:+ "-wolfrun-" +:+ u in
  let ip := rw_free_ip w (p_run p) in
  let p := command (Deploy (n_id node) name) p in
  if rw_deploy_ok w node name
  then on_run (add_instance ok (sv_id v) (new_instance (n_id node) name ip "running" false)) p else p.

Definition clone_lxc v (live : list ServiceInstance) (node : Node) p : Pass :=
  let src := clone_source v live in
  let template := match src with Some i => i_container_name i | None => sv_name v end in
  let source := get_node (rw_cluster w) (match src with Some i => i_node_id i | None => n_id node end) in
  let '(u, p) := short_id p in
  let name := template +:+ "-wolfrun-" +:+ u in
  match source with
  | Some sn =>
      if bool_decide (n_id sn = n_id node) then
        let p := command (Deploy (n_id node) name) p in
        if rw_deploy_ok w node name
        then on_run (add_instance ok (sv_id v) (new_instance (n_id node) name None "running" false)) p
        else p
      else
        let ip := rw_free_ip w (p_run p) in
        let p := on_run (add_instance ok (sv_id v) (new_instance (n_id node) name ip "pending" false)) p in
        let p := command (Deploy (n_id node) name) p in
        if rw_deploy_ok w node name then p else on_run (remove_instance ok (sv_id v) name) p
  | None =>
      (* registered as pending, and removed again: there is nothing to clone *)
      let ip := rw_free_ip w (p_run p) in
      let p := on_run (add_instance ok (sv_id v) (new_instance (n_id node) name ip "pending" false)) p in
      on_run (remove_instance ok (sv_id v) name) p
  end.

Fixpoint create_loop (count : nat) v (live : list ServiceInstance) p : Pass :=
  match count with
  | O => p
  | S count =>
      let current := default v (get (sv_id v) (p_run p)) in
      match schedule (rw_metrics w) (rw_installed w) ns current with
      | None => p
      | Some id =>
          match get_node (rw_cluster w) id with
          | None => create_loop count v live p
          | Some node =>
              create_loop count v live
                (match sv_runtime v with
                 | Docker => deploy_docker v node p
                 | Lxc => clone_lxc v live node p
                 end)
          end
      end
  end.

Definition needed v (live : list ServiceInstance) : Z :=
  let ceiling := Z.max (sv_max_replicas v) (sv_replicas v) in
  let room := sat_sub ceiling (existing live) in
  Z.min (Z.min (sv_replicas v - existing live) room) MAX_CREATES_PER_TICK.

Definition scale_up v (live : list ServiceInstance) p : Pass :=
  if existing live <? sv_replicas v then create_loop (Z.to_nat (needed v live)) v live p else p.

(** ** Scaling down *)
Definition crowd (live : list ServiceInstance) (node : string) : nat :=
  length (retain (λ i, exists_still i && bool_decide (i_node_id i = node)) live).

(** Not running before running, then the most crowded node first. *)
Definition released_before (live : list ServiceInstance) (a b : ServiceInstance) : bool :=
  let ra := bool_decide (i_status a = "running") in
  let rb := bool_decide (i_status b = "running") in
  if eqb ra rb then bool_decide (crowd live (i_node_id b) ≤ crowd live (i_node_id a))%nat else rb.

Definition scale_down v (live : list ServiceInstance) p : Pass :=
  if sv_replicas v <? existing live then
    let excess := Z.to_nat (existing live - sv_replicas v) in
    let victims := take excess (sort_by (released_before live) (retain exists_still live)) in
    foldl (λ p i, on_run (remove_instance ok (sv_id v) (i_container_name i)) p) p victims
  else p.

(** ** Restarting *)
Definition restart_one (rt : Runtime) p i : Pass :=
  if i_standby i then p else
  if bool_decide (i_status i = "running")
  then p <| p_backoff := clear_restart_backoff (i_container_name i) (p_backoff p) |> else
  if negb (bool_decide (i_status i ∈ ["exited"; "dead"; "stopped"; "created"])) then p else
  match get_node (rw_cluster w) (i_node_id i) with
  | None => p
  | Some n =>
      let '(due, m) := should_attempt_restart now (i_container_name i) (p_backoff p) in
      let p := p <| p_backoff := m |> in
      if due then command (StartContainer (n_id n) (i_container_name i)) p else p
  end.

Definition restart_stopped v (live : list ServiceInstance) p : Pass :=
  match sv_restart_policy v with
  | WolfRun.Always => foldl (restart_one (sv_runtime v)) p live
  | _ => p
  end.

(** ** Lost instances, and standbys of a service without failover

    The age is a difference of [u64]s. *)
Definition long_lost i : bool :=
  bool_decide (i_status i = "lost") && (300 <? wrap64 (now - i_last_seen i)).

Definition drop_lost v (live : list ServiceInstance) p : Pass :=
  foldl (λ p i, on_run (remove_instance ok (sv_id v) (i_container_name i)) p) p (retain long_lost live).

Definition drop_standby v p i : Pass :=
  let p := match List.find (λ n, node_matches_id n (i_node_id i)) ns with
           | Some n => if n_is_self n || n_online n
                       then command (Destroy (n_id n) (i_container_name i)) p else p
           | None => p
           end in
  on_run (remove_instance ok (sv_id v) (i_container_name i)) p.

Definition drop_standbys v (live : list ServiceInstance) p : Pass :=
  if sv_failover v then p else foldl (drop_standby v) p (retain i_standby live).

(** ** One service, one pass *)
Definition reconcile_service (present : option (gset string)) p v : Pass :=
  let live := observe (sv_runtime v) <$> sv_instances v in
  let p := on_run (update_instances now ok (sv_id v) live) p in
  let p := balance present v live p in
  let p := scale_up v live p in
  let p := scale_down v live p in
  let p := restart_stopped v live p in
  let p := drop_lost v live p in
  drop_standbys v live p.

Definition reconcile p : Pass :=
  let vs := list_services (Some (self_cluster ns)) (p_run p) in
  let names : gset string := list_to_set (i_container_name <$> mjoin (sv_instances <$> vs)) in
  let p := p <| p_backoff := prune_restart_backoff names (p_backoff p) |> in
  if bool_decide (vs = []) then p
  else foldl (reconcile_service (vips_with_lb_rules (rw_listed w) (p_nat p))) p vs.

(** ** Failover *)
Definition node_online (id : string) : bool :=
  match List.find (λ n, node_matches_id n id) ns with Some n => n_online n | None => false end.

Definition failed_instances v : list ServiceInstance :=
  retain (λ i, negb (i_standby i)
               && (bool_decide (i_status i = "offline") || bool_decide (i_status i = "lost"))
               && negb (node_online (i_node_id i))) (sv_instances v).

(** [standby] runs in place of [failed]. *)
Definition promote_instance v (standby failed : ServiceInstance) p : Pass :=
  let activate i := i <| i_standby := false |> <| i_status := "running" |> <| i_last_seen := now |> in
  let p := on_run (change_instances ok (sv_id v) (λ l,
             retain (λ i, negb (called (i_container_name failed) i))
               (update_first (called (i_container_name standby)) activate l))) p in
  let host id := match List.find (λ n, node_matches_id n id) ns with Some n => n_hostname n | None => id end in
  let e := mk_event now (sv_id v) (sv_name v) (host (i_node_id failed)) (host (i_node_id standby))
             (i_container_name standby)
             ("Standby '" +:+ i_container_name standby +:+ "' promoted — replacing failed '"
              +:+ i_container_name failed +:+ "'") in
  on_run (add_failover_event ok e) p.

(** The standbys that are left, and the pass. *)
Definition replace_failed v (acc : list ServiceInstance * Pass) (failed : ServiceInstance) :
    list ServiceInstance * Pass :=
  let '(pool, p) := acc in
  match List.find (λ s, node_online (i_node_id s)) pool with
  | None => acc
  | Some s =>
      let pool := remove_first (λ s, node_online (i_node_id s)) pool in
      match List.find (λ n, node_matches_id n (i_node_id s)) ns with
      | None => (pool, p)
      | Some n =>
          let p := command (StartContainer (n_id n) (i_container_name s)) p in
          (pool, if rw_start_ok w n (i_container_name s) then promote_instance v s failed p else p)
      end
  end.

Definition fail_over_service p v : Pass :=
  if sv_failover v then
    (foldl (replace_failed v)
      (retain (λ i, i_standby i && negb (bool_decide (i_status i = "lost"))) (sv_instances v), p)
      (failed_instances v)).2
  else p.

Definition check_failover p : Pass :=
  foldl fail_over_service p (list_services (Some (self_cluster ns)) (p_run p)).

(** ** Standbys *)
Definition occupied v : gset string :=
  list_to_set (i_node_id <$> retain (λ i, negb (bool_decide (i_status i = "lost"))) (sv_instances v)).

Definition standby_hosts v : list Node :=
  retain (λ n, n_online n && bool_decide (cluster_of n = sv_cluster_name v)
    && (bool_decide (sv_allowed_nodes v = []) || existsb (node_matches_id n) (sv_allowed_nodes v))
    && has_runtime (rw_installed w) (sv_runtime v) n && negb (bool_decide (n_id n ∈ occupied v))) ns.

Definition standby_source v : option ServiceInstance :=
  match List.find (λ i, bool_decide (i_status i = "running") && negb (i_standby i)) (sv_instances v) with
  | Some i => Some i
  | None => List.find (λ i, bool_decide (i_status i = "running")) (sv_instances v)
  end.

Definition make_standby v (source : ServiceInstance) p (target : Node) : Pass :=
  let '(u, p) := short_id p in
  let name := before "-wolfrun-" (i_container_name source) +:+ "-standby-" +:+ u in
  let ip := rw_free_ip w (p_run p) in
  let p := on_run (add_instance ok (sv_id v) (new_instance (n_id target) name ip "standby" true)) p in
  let found := match sv_runtime v with
               | Docker => true
               | Lxc => existsb (λ n, node_matches_id n (i_node_id source)) ns
               end in
  if negb found then on_run (remove_instance ok (sv_id v) name) p else
  let p := command (Deploy (n_id target) name) p in
  if rw_deploy_ok w target name then p else on_run (remove_instance ok (sv_id v) name) p.

Definition standby_service p v : Pass :=
  if sv_failover v then
    match standby_source v with
    | Some src => foldl (make_standby v src) p (standby_hosts v)
    | None => p
    end
  else p.

Definition manage_standby p : Pass :=
  foldl standby_service p (list_services (Some (self_cluster ns)) (p_run p)).

(** ** Deletions a peer reports in answer to a broadcast *)
Definition destroy_instance v p i : Pass :=
  if negb (contains_str "wolfrun" (i_container_name i)) && negb (i_standby i) then p else
  match get_node (rw_cluster w) (i_node_id i) with
  | Some n => command (Destroy (n_id n) (i_container_name i)) p
  | None => p
  end.

Definition learn_deletion p (id : string) : Pass :=
  match get id (p_run p) with
  | Some v =>
      let p := match sv_service_ip v with
               | Some vip => p <| p_nat := remove_lb_rules_for_vip (rw_listed w) vip (p_nat p) |>
               | None => p
               end in
      let p := foldl (destroy_instance v) p (sv_instances v) in
      on_run (λ s, (delete_service now ok id s).2) p
  | None => on_run (record_tombstone now ok id) p
  end.

(** [replies]: what each peer that was reached answered. *)
Definition broadcast_to_cluster (replies : list WolfRunService → list (list string)) p : Pass :=
  if bool_decide (services (p_run p) = []) then p
  else foldl learn_deletion p (remove_dups (mjoin (replies (services (p_run p))))).

(** The loop of main.rs: a pass of the leader, or nothing. *)
Definition leader_pass (replies : list WolfRunService → list (list string)) p : Pass :=
  if is_leader now (rw_cluster w)
  then broadcast_to_cluster replies (manage_standby (check_failover (reconcile p)))
  else p.
End Tick.
