(* ===== verification/WolfRunProps.v ===== *)
(** * WolfRun: the store, the leader and placement

    What holds of the service table under any sequence of operations, of the
    election, of the choice of a node, of the restart back-off, and of the
    load balancer's rules. *)
From S2P Require Import Prelude F32 Net Cluster WolfRun WolfRunLb.

(** ** The leader *)

(** The canonical ids of the online nodes of this node's cluster. *)
Definition members (ns : list Node) : list string :=
  canonical_id <$> retain (λ n, n_online n && bool_decide (cluster_of n = self_cluster ns)) ns.

Lemma leader_least ns id :
  is_leader_among ns id = true ↔
    members ns = [] ∨ (id ∈ members ns ∧ ∀ x, x ∈ members ns → String.le id x).
Proof.
  unfold is_leader_among. fold (members ns). pose proof (merge_sort_Permutation String.le (members ns)) as Hp.
  pose proof (StronglySorted_merge_sort String.le (members ns)) as Hs.
  destruct (merge_sort String.le (members ns)) as [|y l] eqn:E.
  { split; [|done]. intros _. left. by apply Permutation_nil_l in Hp. }
  apply StronglySorted_inv in Hs as [_ Hy]. rewrite Forall_forall in Hy.
  assert (Hmin : ∀ x, x ∈ members ns → String.le y x).
  { intros x. rewrite <-Hp, elem_of_cons. intros [->|?]; [reflexivity|by apply Hy]. }
  assert (Hin : y ∈ members ns) by (rewrite <-Hp; by left).
  rewrite bool_decide_eq_true. split.
  - intros ->. right. by split.
  - intros [Hn|[Hi Hle]]; [rewrite Hn in Hin; by apply not_elem_of_nil in Hin|].
    apply (anti_symm String.le); [by apply Hmin|by apply Hle].
Qed.

(** C26: One leader: when the nodes of a cluster agree on who is online, exactly
    one of them considers itself the leader, under whatever registry keys each
    knows the others and in whatever order it lists them. *)
Theorem one_leader (view : string → list Node) (S : gset string) :
  S ≠ ∅ → (∀ id, id ∈ S → (list_to_set (members (view id)) : gset string) = S) →
  ∃ l, l ∈ S ∧ is_leader_among (view l) l = true ∧
    ∀ id, id ∈ S → is_leader_among (view id) id = true → id = l.
Proof.
  intros Hne Hview.
  assert (Hm : ∀ id x, id ∈ S → x ∈ members (view id) ↔ x ∈ S)
    by (intros id x Hid; by rewrite <-(elem_of_list_to_set (C := gset string)), (Hview id Hid)).
  assert (Hlead : ∀ id, id ∈ S → is_leader_among (view id) id = true ↔ ∀ x, x ∈ S → String.le id x).
  { intros id Hid. rewrite leader_least. split.
    - intros H x Hx%(Hm id x Hid). destruct H as [Hn|[_ Hle]]; [|by apply Hle].
      rewrite Hn in Hx. by apply not_elem_of_nil in Hx.
    - intros Hle. right. split; [by apply Hm|]. intros x Hx%(Hm id x Hid). by apply Hle. }
  destruct (merge_sort String.le (elements S)) as [|l ls] eqn:E.
  { destruct Hne. apply leibniz_equiv, elements_empty_inv, Permutation_nil_r.
    rewrite <-E. by rewrite merge_sort_Permutation. }
  pose proof (StronglySorted_merge_sort String.le (elements S)) as Hs. rewrite E in Hs.
  apply StronglySorted_inv in Hs as [_ Hls]. rewrite Forall_forall in Hls.
  assert (Hin : ∀ x, x ∈ S ↔ x = l ∨ x ∈ ls)
    by (intros x; rewrite <-elem_of_elements, <-(merge_sort_Permutation String.le (elements S)), E; apply elem_of_cons).
  assert (HlS : l ∈ S) by (apply Hin; by left).
  assert (Hle : ∀ x, x ∈ S → String.le l x) by (intros x [->|?]%Hin; [reflexivity|by apply Hls]).
  exists l. split; [done|]. split; [by apply Hlead|]. intros id Hid Hi.
  apply (anti_symm String.le); [by apply Hlead|by apply Hle].
Qed.

(** ** Choosing a node *)
Section Schedule.
Context (metrics : Node → option Metrics) (installed : Runtime → bool).

(** [a] scores no higher than [b]. *)
Definition no_worse (v : WolfRunService) (a b : Node) : Prop :=
  f32_le (placement_score metrics v a) (placement_score metrics v b).

#[local] Instance no_worse_preorder v : PreOrder (no_worse v).
Proof. unfold no_worse. split; [by intros a|]. intros a b c H1 H2. by etrans. Qed.

(** A new container goes to a node that is online, has the runtime, is in
    the service's cluster and is allowed; to the preferred one if it qualifies,
    else to one that no other qualifying node beats on load plus instances
    already there.  There is no choice exactly when no node qualifies. *)
Theorem schedule_spec ns v :
  (∀ n, n ∈ ns → is_nan (placement_score metrics v n) = false) →
  let ok n := n ∈ ns ∧ eligible installed v n = true in
  match schedule metrics installed ns v with
  | None => ∀ n, ¬ ok n
  | Some id => ∃ n, n_id n = id ∧ ok n ∧
      ((∃ p, sv_placement v = PreferNode p ∧ node_matches_id n p = true) ∨
       (∀ p, sv_placement v = PreferNode p → ∀ m, ok m → node_matches_id m p = false) ∧
       ∀ m, ok m → no_worse v n m)
  end.
Proof.
  intros Hnan ok. set (es := retain (eligible installed v) ns).
  assert (Hes : ∀ n, n ∈ es ↔ ok n) by (intros n; apply elem_of_retain).
  assert (Hbest : match pick (scores_below metrics v) es with
                  | None => ∀ n, ¬ ok n
                  | Some n => ok n ∧ ∀ m, ok m → no_worse v n m end).
  { destruct (pick _ es) as [n|] eqn:Hp.
    - apply (pick_Some _ (no_worse v)) in Hp as [Hn Hmin].
      + split; [by apply Hes|]. intros m Hm. by apply Hmin, Hes.
      + intros a b Ha Hb. apply Hes in Ha as [Ha _]. apply Hes in Hb as [Hb _].
        unfold scores_below, no_worse, f32_le. rewrite partial_cmp_rank by auto.
        destruct (lex _ _) eqn:E; [congruence|congruence|].
        destruct (f32_le_total (placement_score metrics v a) (placement_score metrics v b)) as [H|H];
          [done|]. by destruct (H E).
    - apply pick_None in Hp. intros n Hn%Hes. rewrite Hp in Hn. by apply not_elem_of_nil in Hn. }
  assert (Hdone : (∀ p, sv_placement v = PreferNode p → ∀ m, ok m → node_matches_id m p = false) →
    match n_id <$> pick (scores_below metrics v) es with
    | None => ∀ n, ¬ ok n
    | Some id => ∃ n, n_id n = id ∧ ok n ∧
      ((∃ p, sv_placement v = PreferNode p ∧ node_matches_id n p = true) ∨
       (∀ p, sv_placement v = PreferNode p → ∀ m, ok m → node_matches_id m p = false) ∧
       ∀ m, ok m → no_worse v n m)
    end).
  { intros Hno. destruct (pick _ es) as [n|]; cbn; [|done]. destruct Hbest. exists n. auto. }
  unfold schedule. fold es. destruct (sv_placement v) as [|p|p] eqn:Hpl; try (apply Hdone; congruence).
  destruct (List.find _ es) as [n|] eqn:Hf.
  - apply find_Some_elem in Hf as [[Hn He]%Hes Hm].
    assert (n_online n = true) as -> by (unfold eligible in He; by bool_props).
    exists n. split_and!; [done..|]. left. by exists p.
  - apply find_None_Forall in Hf. rewrite Forall_forall in Hf.
    apply Hdone. intros q [= <-] m Hm. by apply Hf, Hes.
Qed.
End Schedule.

(** ** Operations of the store *)
Inductive StoreOp :=
| OpCreate (id : string) (ip : option string) (r : CreateService)
| OpAdopt (id arch : string) (ip : option string) (r : AdoptService)
| OpDelete (id : string)
| OpScale (id : string) (replicas : Z)
| OpSettings (id : string) (u : ServiceSettingsUpdate)
| OpImage (id image : string)
| OpInstances (id : string) (l : list ServiceInstance)
| OpAddInstance (id : string) (i : ServiceInstance)
| OpRemoveInstance (id name : string)
| OpRemap (old new : string)
| OpRename (old new : string)
| OpMerge (peer : list WolfRunService)
| OpRemoveIf (id : string)
| OpTombstone (id : string)
| OpEvent (e : FailoverEvent)
| OpRestart.

Section Exec.
Context {HZ : HashOrder Z}.
Implicit Types (s : WolfRunState) (v : WolfRunService).

(** An operation at a time, with what becomes of the files it writes. *)
Definition exec (at_ : Z * Write * StoreOp) s : WolfRunState :=
  let '(now, ok, op) := at_ in
  match op with
  | OpCreate id ip r => (create now ok id ip r s).2
  | OpAdopt id arch ip r => (adopt now ok id arch ip r s).2
  | OpDelete id => (delete_service now ok id s).2
  | OpScale id n => (scale now ok id n s).2
  | OpSettings id u => (update_settings now ok id u s).2
  | OpImage id i => (update_image now ok id i s).2
  | OpInstances id l => update_instances now ok id l s
  | OpAddInstance id i => add_instance ok id i s
  | OpRemoveInstance id n => remove_instance ok id n s
  | OpRemap old new => (remap_node_id ok old new s).2
  | OpRename old new => (rename_cluster ok old new s).2
  | OpMerge peer => (merge_from_peer ok peer s).2
  | OpRemoveIf id => (remove_if_exists now ok id s).2
  | OpTombstone id => record_tombstone now ok id s
  | OpEvent e => add_failover_event ok e s
  | OpRestart => load now s
  end.

Definition run (l : list (Z * Write * StoreOp)) s : WolfRunState := foldl (λ s o, exec o s) s l.

(** The ids an operation buries or brings into the world. *)
Definition buried (op : StoreOp) : list string :=
  match op with OpDelete id | OpRemoveIf id | OpTombstone id => [id] | _ => [] end.
Definition born (op : StoreOp) : list string :=
  match op with OpCreate id _ _ | OpAdopt id _ _ _ => [id] | _ => [] end.

(** ** Pruning *)
Lemma drop_oldest_small fuel m : (size m ≤ TOMBSTONE_MAX)%nat → drop_oldest fuel m = m.
Proof. intros. destruct fuel; [done|]. cbn [drop_oldest]. by rewrite bool_decide_false by lia. Qed.

Lemma drop_oldest_sub fuel m : drop_oldest fuel m ⊆ m.
Proof.
  revert m. induction fuel as [|fuel IH]; intros m; [done|]. cbn [drop_oldest].
  case_bool_decide; [|done]. destruct (min_by_key _ _) as [[k x]|]; [|done].
  etrans; [apply IH|apply delete_subseteq].
Qed.

Lemma prune_tombstones_sub now m : prune_tombstones now m ⊆ m.
Proof. etrans; [apply drop_oldest_sub|apply map_retain_subseteq]. Qed.

Lemma prune_keeps now m (K : gset string) id ts :
  dom m ⊆ K → (size K ≤ TOMBSTONE_MAX)%nat → m !! id = Some ts → now - ts < TOMBSTONE_RETENTION_SECS →
  prune_tombstones now m !! id = Some ts.
Proof.
  intros Hd Hs Hm Ht. unfold prune_tombstones. rewrite drop_oldest_small.
  - apply map_retain_lookup. split; [done|]. apply Z.ltb_lt. unfold sat_sub.
    assert (0 < TOMBSTONE_RETENTION_SECS) by done. lia.
  - etrans; [apply map_retain_size|]. rewrite <-size_dom. etrans; [by apply subseteq_size|done].
Qed.

(** The oldest goes, when one must. *)
Lemma oldest_some (m : gmap string Z) :
  (0 < size m)%nat → ∃ k x, min_by_key snd (hm_iter m) = Some (k, x) ∧ m !! k = Some x ∧
    ∀ id ts, m !! id = Some ts → x ≤ ts.
Proof.
  intros Hs. destruct (min_by_key _ _) as [[k x]|] eqn:Hk.
  - apply min_by_key_Some in Hk as [Hk Hmin]. rewrite hm_iter_perm, elem_of_map_to_list in Hk.
    exists k, x. split_and!; [done..|]. intros id ts Hid.
    apply (Hmin (id, ts)). by rewrite hm_iter_perm, elem_of_map_to_list.
  - apply min_by_key_None in Hk. pose proof (hm_iter_perm m) as Hp. rewrite Hk in Hp.
    apply Permutation_nil_l in Hp. symmetry in Hp. apply map_to_list_empty_iff in Hp. subst m.
    rewrite map_size_empty in Hs. lia.
Qed.

(** The loop ends, at the cap if it started above it. *)
Lemma drop_oldest_size fuel m :
  (size m ≤ fuel)%nat → size (drop_oldest fuel m) = Nat.min (size m) TOMBSTONE_MAX.
Proof.
  revert m. induction fuel as [|fuel IH]; intros m Hm; [cbn; lia|]. cbn [drop_oldest].
  case_bool_decide as Hs; [|lia]. destruct (oldest_some m) as (k & x & -> & Hk & _); [lia|].
  assert (size (delete k m) = pred (size m)) as E by (rewrite map_size_delete_Some by eauto; lia).
  rewrite IH, E; lia.
Qed.

Lemma drop_oldest_order fuel m id ts id' ts' :
  m !! id = Some ts → drop_oldest fuel m !! id = None → drop_oldest fuel m !! id' = Some ts' → ts ≤ ts'.
Proof.
  revert m. induction fuel as [|fuel IH]; intros m Hm; cbn [drop_oldest]; [congruence|].
  case_bool_decide as Hs; [|congruence]. destruct (oldest_some m) as (k & x & -> & Hk & Hmin); [lia|].
  intros H1 H2. destruct (decide (k = id)) as [->|]; [|apply (IH (delete k m)); [by rewrite lookup_delete_ne|done..]].
  assert (x = ts) as -> by congruence. apply (Hmin id').
  by apply (lookup_weaken _ _ _ _ H2), (transitivity (drop_oldest_sub fuel _)), delete_subseteq.
Qed.

(** Pruning ends with the tombstones of the last thirty days, or, when there
    are more than 500 of those, with 500 of them, none older than one that was
    dropped. *)
Theorem tombstones_pruned now m :
  let fresh := map_retain (λ _ ts, sat_sub now ts <? TOMBSTONE_RETENTION_SECS) m in
  let m' := prune_tombstones now m in
  m' ⊆ fresh ∧ size m' = Nat.min (size fresh) 500 ∧
  ∀ id ts id' ts', fresh !! id = Some ts → m' !! id = None → m' !! id' = Some ts' → ts ≤ ts'.
Proof.
  intros fresh m'. split_and!.
  - apply drop_oldest_sub.
  - by apply drop_oldest_size.
  - intros id ts id' ts'. apply drop_oldest_order.
Qed.

(** ** Looking a service up after an edit *)
Lemma find_update_first id f (vs : list WolfRunService) :
  (∀ v, sv_id (f v) = sv_id v) →
  List.find (has_id id) (update_first (has_id id) f vs) = f <$> List.find (has_id id) vs.
Proof.
  intros Hf. induction vs as [|v vs IH]; cbn; [done|]. destruct (has_id id v) eqn:E; cbn.
  - assert (has_id id (f v) = true) as -> by (unfold has_id in *; by rewrite Hf). done.
  - by rewrite E, IH.
Qed.

Lemma services_save ok s : services (save ok s) = services s.
Proof. unfold save. by destruct ok. Qed.

Lemma get_update ok id f s :
  (∀ v, sv_id (f v) = sv_id v) → get id (update ok id f s).2 = f <$> get id s.
Proof.
  intros Hf. unfold update. destruct (get id s) as [v|] eqn:E; [|done]. unfold get in *. cbn [snd].
  rewrite services_save. change (services (setter services _ s)) with (update_first (has_id id) f (services s)).
  by rewrite find_update_first, E.
Qed.

(** The number asked for is within the service's limits. *)
Definition well_sized (v : WolfRunService) : Prop :=
  sv_min_replicas v ≤ sv_replicas v ≤ sv_max_replicas v.

(** C37: An edit of the settings leaves the number of instances asked for within
    the limits, whatever numbers it carries; so does scaling a service whose
    limits are in order, which sets exactly the number given unless it is
    below the minimum. *)
Theorem edits_well_sized now ok id s v :
  get id s = Some v →
  (∀ u, ∃ v', get id (update_settings now ok id u s).2 = Some v' ∧ well_sized v') ∧
  (∀ n, sv_min_replicas v ≤ sv_max_replicas v →
    ∃ v', get id (scale now ok id n s).2 = Some v' ∧ well_sized v' ∧
      sv_replicas v' = Z.max n (sv_min_replicas v) ∧ sv_max_replicas v' = Z.max n (sv_max_replicas v)).
Proof.
  intros Hv. split.
  - intros u. eexists. unfold update_settings. rewrite get_update, Hv.
    + split; [done|]. unfold apply_settings.
      match goal with |- context [if sv_max_replicas ?x <? _ then _ else _] => generalize x end.
      intros x. unfold well_sized. cbn. destruct (_ <? _) eqn:E; bool_props; cbn; lia.
    + intros x. unfold apply_settings. by repeat case_match.
  - intros n Hle. eexists. unfold scale. rewrite get_update, Hv.
    + split; [done|]. unfold well_sized. destruct (_ <? _) eqn:E; bool_props; cbn; lia.
    + intros x. by destruct (_ <? _).
Qed.

(** ** A deleted service *)
Definition absent (id : string) (l : list WolfRunService) : Prop := Forall (λ v, sv_id v ≠ id) l.

Lemma absent_first id vs : NoDup (sv_id <$> vs) → absent id (remove_first (has_id id) vs).
Proof.
  unfold absent. induction vs as [|x vs IH]; cbn; [constructor|].
  intros [Hx Hl]%NoDup_cons. unfold has_id at 1. case_bool_decide as E.
  - apply Forall_forall. intros y Hy <-. destruct Hx. rewrite E. by apply list_elem_of_fmap_2.
  - constructor; [done|by apply IH].
Qed.

Section Deleted.
Context (id : string) (t0 : Z) (K : gset string) (HK : (size K ≤ TOMBSTONE_MAX)%nat).

Definition entombed (m : gmap string Z) : Prop :=
  dom m ⊆ K ∧ ∃ ts, m !! id = Some ts ∧ t0 ≤ ts.

Record gone s : Prop := {
  gone_table : absent id (services s);
  gone_file l : services_file s = Some l → absent id l;
  gone_tombstone : entombed (deleted s);
  gone_tombstone_file : ∃ m, tombstones_file s = Some m ∧ entombed m
}.

Lemma entombed_prune now m :
  now - t0 < TOMBSTONE_RETENTION_SECS → entombed m → entombed (prune_tombstones now m).
Proof using HK.
  intros Ht (Hd & ts & Hm & Hts). split.
  - etrans; [apply subseteq_dom, prune_tombstones_sub|done].
  - exists ts. split; [|done]. eapply prune_keeps; [done..|lia].
Qed.

Lemma absent_update i f l :
  (∀ v, sv_id (f v) = sv_id v) → absent id l → absent id (update_first (has_id i) f l).
Proof. intros Hf. apply update_first_Forall. intros v Hv _. by rewrite Hf. Qed.

Lemma absent_remove_first p l : absent id l → absent id (remove_first p l).
Proof.
  unfold absent. induction 1 as [|v l Hv Hl IH]; cbn; [constructor|]. destruct (p v); [done|by constructor].
Qed.

(** Replacing the table by one without the service, saved or not. *)
Lemma gone_services ok l s :
  gone s → absent id l → gone (s <| services := l |>) ∧ gone (save ok (s <| services := l |>)).
Proof.
  intros [H1 H2 H3 H4] Hl. split; [by split|]. unfold save. destruct ok; split; cbn; try done.
  by intros ? [= <-].
Qed.

Lemma gone_record now ok i s :
  now - t0 < TOMBSTONE_RETENTION_SECS → t0 ≤ now → ok ≠ CutShort → i ∈ K → gone s →
  gone (record_tombstone now ok i s).
Proof using HK.
  intros Ht Hle Hok Hi [H1 H2 H3 H4].
  assert (He : entombed (prune_tombstones now (<[i := now]> (deleted s)))).
  { apply entombed_prune; [done|]. destruct H3 as (Hd & ts & Hm & Hts). split.
    - rewrite dom_insert. set_solver.
    - destruct (decide (i = id)) as [->|]; [exists now; by rewrite lookup_insert_eq|].
      exists ts. by rewrite lookup_insert_ne. }
  unfold record_tombstone, save_tombstones. destruct ok; split; try done; cbn; by eexists.
Qed.

Lemma gone_update ok i f s :
  (∀ v, sv_id (f v) = sv_id v) → gone s → gone (update ok i f s).2.
Proof.
  intros Hf Hg. unfold update. destruct (get i s); [|done].
  apply gone_services; [done|]. apply absent_update; [done|apply Hg].
Qed.

Lemma absent_merge peer s :
  gone s → absent id (retain (λ v, negb (bool_decide (is_Some (deleted s !! sv_id v)))) peer).
Proof.
  intros [_ _ (_ & ts & Hm & _) _]. apply Forall_forall. intros v [_ Hv]%elem_of_retain Hid.
  subst id. bool_props. apply Hv. by eexists.
Qed.

Lemma exec_gone now ok op s :
  t0 ≤ now → now - t0 < TOMBSTONE_RETENTION_SECS → ok ≠ CutShort →
  list_to_set (buried op) ⊆ K → id ∉ born op → gone s → gone (exec (now, ok, op) s).
Proof using HK.
  intros Hle Ht Hok Hb Hf Hg. pose proof (gone_table _ Hg) as Ha.
  destruct op; cbn [exec buried born] in *.
  - apply gone_services; [done|]. apply Forall_app. split; [done|]. repeat constructor. cbn. set_solver.
  - apply gone_services; [done|]. apply Forall_app. split; [done|]. repeat constructor. cbn. set_solver.
  - unfold delete_service. destruct (get _ s); [|done]. cbn [snd].
    apply gone_record; [done..|set_solver|]. apply gone_services; [done|by apply absent_remove_first].
  - apply gone_update; [|done]. intros v. by destruct (_ <? _).
  - apply gone_update; [|done]. intros v. unfold apply_settings. repeat case_match; done.
  - by apply gone_update.
  - apply gone_services; [done|by apply absent_update].
  - apply gone_services; [done|by apply absent_update].
  - apply gone_services; [done|by apply absent_update].
  - unfold remap_node_id. destruct (_ || _); [done|]. cbn [snd].
    assert (absent id (map_instances (λ i, if bool_decide (i_node_id i = old) then i <| i_node_id := new |> else i)
              <$> services s)) by (by apply Forall_fmap).
    case_bool_decide; by apply gone_services.
  - unfold rename_cluster. cbn [snd].
    assert (absent id ((λ v, if eq_ignore_ascii_case (sv_cluster_name v) old
                             then v <| sv_cluster_name := new |> else v) <$> services s)).
    { apply Forall_fmap. eapply Forall_impl; [exact Ha|]. intros v Hv. cbn. by destruct (eq_ignore_ascii_case _ _). }
    case_bool_decide; by apply gone_services.
  - unfold merge_from_peer. case_bool_decide; [done|]. cbn [snd]. apply gone_services; [done|].
    apply Forall_app. split; [by apply retain_Forall|by apply absent_merge].
  - unfold remove_if_exists. cbn [snd]. apply gone_record; [done..|set_solver|].
    destruct (bool_decide _); apply (gone_services ok); try done; by apply retain_Forall.
  - apply gone_record; [done..|set_solver|done].
  - unfold add_failover_event, save_failover_events. destruct Hg. by destruct ok.
  - destruct Hg as [_ Hfile _ (m & Hm & He)]. split; cbn.
    + destruct (services_file s) as [l|]; [by apply Hfile|constructor].
    + done.
    + rewrite Hm. by apply entombed_prune.
    + exists m. by split.
Qed.

Lemma run_gone l s :
  gone s →
  Forall (λ o, t0 ≤ o.1.1 ∧ o.1.1 - t0 < TOMBSTONE_RETENTION_SECS ∧ o.1.2 ≠ CutShort ∧
               list_to_set (buried o.2) ⊆ K ∧ id ∉ born o.2) l →
  gone (run l s).
Proof using HK.
  intros Hg Hl. revert s Hg. induction Hl as [|[[now ok] op] l (?&?&?&?&?) _ IH]; intros s Hg; [done|].
  cbn. apply IH. by apply exec_gone.
Qed.

Lemma deleted_gone op s :
  dom (deleted s) ⊆ K → id ∈ K → NoDup (sv_id <$> services s) → is_Some (get id s) →
  op = OpDelete id ∨ op = OpRemoveIf id → gone (exec (t0, Stored, op) s).
Proof using HK.
  intros Hd Hi Hn [v Hv] Hop.
  assert (He : entombed (prune_tombstones t0 (<[id := t0]> (deleted s)))).
  { apply entombed_prune; [unfold TOMBSTONE_RETENTION_SECS; lia|]. split; [rewrite dom_insert; set_solver|].
    exists t0. by rewrite lookup_insert_eq. }
  assert (Ha : absent id (retain (λ v, negb (has_id id v)) (services s))).
  { apply Forall_forall. intros x [_ Hx]%elem_of_retain. unfold has_id in Hx. by bool_props. }
  assert (Hf : absent id (remove_first (has_id id) (services s))) by (by apply absent_first).
  destruct Hop as [-> | ->]; cbn [exec].
  - unfold delete_service. rewrite Hv. cbn. split; cbn; try done; [by intros ? [= <-]|by eexists].
  - unfold remove_if_exists. cbn [snd].
    assert ((length (retain (λ v, negb (has_id id v)) (services s)) < length (services s))%nat) as Hlt.
    { apply find_Some_elem in Hv as [Hv Hid]. revert Hv Hid. clear. unfold retain.
      induction (services s) as [|x l IH]; [by intros ?%not_elem_of_nil|].
      pose proof (retain_length_le (λ v, negb (has_id id v)) l) as Hle. unfold retain in Hle.
      intros [->|Hv]%elem_of_cons Hid; cbn [List.filter].
      - rewrite Hid. cbn. lia.
      - specialize (IH Hv Hid). destruct (negb _); cbn; lia. }
    rewrite bool_decide_true by done. cbn. split; cbn; try done; [by intros ? [= <-]|by eexists].
Qed.

(** C25: A deleted service never comes back within the thirty days a deletion
    is remembered, provided the deletion was saved, no more than 500 different
    services are deleted meanwhile (with those remembered before), no later
    write is cut short and no new service is given its id: whatever peers
    send, whatever is edited, renamed or restarted, no service with its id
    appears in the table or in the file. *)
Theorem deleted_service_stays_deleted op l s :
  dom (deleted s) ⊆ K → id ∈ K → NoDup (sv_id <$> services s) → is_Some (get id s) →
  op = OpDelete id ∨ op = OpRemoveIf id →
  Forall (λ o, t0 ≤ o.1.1 ∧ o.1.1 - t0 < TOMBSTONE_RETENTION_SECS ∧ o.1.2 ≠ CutShort ∧
               list_to_set (buried o.2) ⊆ K ∧ id ∉ born o.2) l →
  let s' := run l (exec (t0, Stored, op) s) in
  absent id (services s') ∧ get id s' = None ∧ ∀ f, services_file s' = Some f → absent id f.
Proof using HK.
  intros Hd Hi Hn Hs Hop Hl s'. assert (gone s') as [H1 H2 _ _] by (apply run_gone; [by apply deleted_gone|done]).
  split_and!; [done| |done]. apply find_None_Forall. eapply Forall_impl; [exact H1|].
  intros v Hv. by apply bool_decide_eq_false.
Qed.
End Deleted.

(** The files are written in place: a write of the deletions that is cut short
    (on a full disk, say) makes the next start forget every one of them, and
    the next peer that still lists the services brings them back. *)
Theorem cut_write_forgets_deletions t t' t'' ok ok' id peer s :
  peer ≠ [] →
  let s' := run [(t, CutShort, OpTombstone id); (t', ok, OpRestart); (t'', ok', OpMerge peer)] s in
  deleted s' = ∅ ∧ ∀ v, v ∈ peer → v ∈ services s'.
Proof.
  intros Hp. cbn. unfold merge_from_peer. rewrite bool_decide_false by done. cbn. split; [done|].
  intros v Hv. apply elem_of_app. right. apply elem_of_retain. split; [done|]. apply negb_true_iff.
  apply bool_decide_eq_false. intros [x Hx]. change ((∅ : gmap string Z) !! sv_id v = Some x) in Hx. by rewrite lookup_empty in Hx.
Qed.
End Exec.

(** ** Restart back-off *)

(** When a container that is found stopped at each of the times [ts], and
    never running in between, is started. *)
Fixpoint restarts (c : string) (ts : list Z) (m : Backoff) : list Z :=
  match ts with
  | [] => []
  | t :: ts => let '(due, m) := should_attempt_restart t c m in
               if due then t :: restarts c ts m else restarts c ts m
  end.

Lemma backoff_delay k :
  1 ≤ k ≤ MAX_RESTART_ATTEMPTS → restart_backoff_delay k = Z.min (15 * 2 ^ (k - 1)) 600.
Proof.
  unfold MAX_RESTART_ATTEMPTS. intros Hk.
  assert (k = 1 ∨ k = 2 ∨ k = 3 ∨ k = 4 ∨ k = 5 ∨ k = 6 ∨ k = 7 ∨ k = 8) as Hc by lia.
  by repeat destruct Hc as [->|Hc]; try subst k; vm_compute.
Qed.

Lemma attempt_first t c m :
  m !! c = None → should_attempt_restart t c m = (true, <[c := mk_restart 1 t false]> m).
Proof. intros Hm. unfold should_attempt_restart. by rewrite Hm. Qed.

Lemma attempt_again t c m k last g :
  0 < k → m !! c = Some (mk_restart k last g) →
  should_attempt_restart t c m =
    if MAX_RESTART_ATTEMPTS <=? k then (false, <[c := mk_restart k last true]> m)
    else if sat_sub t last <? restart_backoff_delay k then (false, <[c := mk_restart k last g]> m)
    else (true, <[c := mk_restart (k + 1) t g]> m).
Proof.
  intros Hk Hm. unfold should_attempt_restart. rewrite Hm. cbv [default from_option id rr_attempts rr_last_attempt rr_gave_up].
  by rewrite (proj2 (Z.ltb_lt 0 k) Hk).
Qed.

Lemma restarts_from c ts m k last :
  0 < k ≤ MAX_RESTART_ATTEMPTS → (∃ g, m !! c = Some (mk_restart k last g)) →
  k + Z.of_nat (length (restarts c ts m)) ≤ MAX_RESTART_ATTEMPTS ∧
  ∀ j a b, (last :: restarts c ts m) !! j = Some a → restarts c ts m !! j = Some b →
    a + Z.min (15 * 2 ^ (k + Z.of_nat j - 1)) 600 ≤ b.
Proof.
  revert m k last. induction ts as [|t ts IH]; intros m k last Hk [g Hm]; cbn [restarts].
  { cbn. split; [lia|done]. }
  rewrite (attempt_again t c m k last g) by (lia || done).
  destruct (MAX_RESTART_ATTEMPTS <=? k) eqn:Hmax; bool_props.
  { eapply IH; [done|]. eexists. by rewrite lookup_insert_eq. }
  destruct (sat_sub t last <? restart_backoff_delay k) eqn:Hd; bool_props.
  { eapply IH; [done|]. eexists. by rewrite lookup_insert_eq. }
  rewrite backoff_delay in Hd by lia. unfold sat_sub in Hd.
  destruct (IH (<[c := mk_restart (k + 1) t g]> m) (k + 1) t) as [H1 H2];
    [lia|eexists; by rewrite lookup_insert_eq|].
  cbn [length]. split; [lia|]. intros [|j] a b; cbn [lookup list_lookup].
  - intros [= <-] [= <-]. rewrite Z.add_0_r. assert (0 < 2 ^ (k - 1)) by (apply Z.pow_pos_nonneg; lia). lia.
  - intros Ha Hb. specialize (H2 j a b Ha Hb). by replace (k + Z.of_nat (S j) - 1) with (k + 1 + Z.of_nat j - 1) by lia.
Qed.

(** A container that keeps dying is started at once, then after gaps that
    double from 15 seconds up to ten minutes, and at most eight times in all
    until it is seen running again. *)
Theorem restarts_back_off c t ts m :
  m !! c = None →
  let l := restarts c (t :: ts) m in
  head l = Some t ∧ (length l ≤ 8)%nat ∧
  ∀ j a b, l !! j = Some a → l !! S j = Some b → a + Z.min (15 * 2 ^ Z.of_nat j) 600 ≤ b.
Proof.
  intros Hm l. unfold l. cbn [restarts]. rewrite !attempt_first by done.
  destruct (restarts_from c ts (<[c := mk_restart 1 t false]> m) 1 t) as [H1 H2];
    [done|eexists; by rewrite lookup_insert_eq|].
  unfold MAX_RESTART_ATTEMPTS in H1. split_and!; [done|cbn [length]; lia|]. intros j a b Ha Hb.
  specialize (H2 j a b Ha Hb). by replace (1 + Z.of_nat j - 1) with (Z.of_nat j) in H2 by lia.
Qed.

(** ** The load balancer *)

Lemma removed_chain c vip t :
  c ∈ ["PREROUTING"; "POSTROUTING"; "OUTPUT"] →
  chain_of c (remove_lb_rules_for_vip (λ _, true) vip t) =
    retain (λ r, negb (contains_str (lb_comment vip) (r_comment r))) (chain_of c t).
Proof.
  rewrite !elem_of_cons, elem_of_nil, <-remove_chain_retain. unfold remove_lb_rules_for_vip, chain_of. cbn [foldl].
  intros [->|[->|[->|[]]]]; by repeat (rewrite lookup_insert_eq || rewrite lookup_insert_ne by done).
Qed.

Lemma in_append r c d rs t :
  r ∈ chain_of c (append d rs t) → r ∈ chain_of c t ∨ r ∈ rs.
Proof.
  unfold append, chain_of. destruct (decide (d = c)) as [->|].
  - rewrite lookup_insert_eq. cbn. by rewrite elem_of_app.
  - rewrite lookup_insert_ne by done. by left.
Qed.

(** A rule after a rebuild was there after the removal, or is a new one. *)
Lemma rebuilt_chain r c listed accepted vip backends ports policy t :
  r ∈ chain_of c (rebuild_lb_rules listed accepted vip backends ports policy t) →
  r ∈ chain_of c (remove_lb_rules_for_vip listed vip t) ∨ r_comment r = lb_comment vip.
Proof.
  unfold rebuild_lb_rules. case_bool_decide; [by left|]. set (t0 := remove_lb_rules_for_vip listed vip t).
  intros [[[Hi|Hi]%in_append|Hi]%in_append|Hi]%in_append; [by left| | |]; right;
    apply elem_of_retain in Hi as [Hi _]; apply list_elem_of_fmap in Hi as (? & -> & _); done.
Qed.

(** Round robin: with the rules of a service, in order and none refused, the
    (k+1)-th new connection goes to backend number k modulo their count. *)
Theorem round_robin_fair hits vip policy ports backends k :
  (∀ k, hits Always k = true) →
  (∀ every packet k, (0 < every)%nat → hits (Nth every packet) k = bool_decide (k mod every = packet)%nat) →
  policy ≠ "ip_hash" → backends ≠ [] →
  let rules := chain_of "PREROUTING" (rebuild_lb_rules (λ _, true) (λ _, true) vip backends ports policy ∅) in
  nth_target hits rules k = dnat_to (lb_port <$> ports) <$> backends !! (k mod length backends)%nat.
Proof.
  intros Ha Hn Hp Hb rules.
  assert (rules = rules_from vip policy (lb_port <$> ports) 0 backends) as ->.
  { unfold rules, rebuild_lb_rules. rewrite (bool_decide_false (backends = [])) by done.
    assert (Hc : ∀ c d rs t, d ≠ c → chain_of c (append d rs t) = chain_of c t)
      by (intros c d rs t ?; unfold chain_of, append; by rewrite lookup_insert_ne).
    rewrite !Hc by done. unfold append. unfold chain_of at 1. rewrite lookup_insert_eq. cbv [default from_option id].
    rewrite removed_chain by set_solver. change (chain_of "PREROUTING" ∅) with (@nil NatRule). by rewrite (retain_all (λ _, true)) by (by apply Forall_forall). }
  unfold nth_target. rewrite (after_reached hits Ha Hn) by done. by rewrite (route_round_robin hits Ha Hn).
Qed.

(** Removal is not exact: rebuilding the rules of one virtual address
    removes those of every address that continues its digits (10.10.10.5 and
    10.10.10.50), whose service answers nothing until a later pass finds its
    rules missing. *)
Theorem rebuild_drops_longer_vip accepted vip backends ports policy t c r rest :
  rest ≠ "" → c ∈ ["PREROUTING"; "POSTROUTING"; "OUTPUT"] →
  r_comment r = lb_comment (vip +:+ rest) →
  r ∉ chain_of c (rebuild_lb_rules (λ _, true) accepted vip backends ports policy t).
Proof.
  intros Hrest Hc Hr Hin.
  assert (Hnew : r_comment r ≠ lb_comment vip).
  { rewrite Hr. unfold lb_comment. intros E. apply Hrest. clear -E.
    assert (H : ∀ a b : string, a +:+ b = a → b = "") by (induction a as [|x a IH]; cbn; [done|]; intros b [= ?]; by apply IH).
    apply (H ("wolfrun-lb-" +:+ vip)). rewrite <-E at 2. cbn. repeat f_equal. }
  assert (Hgone : contains_str (lb_comment vip) (r_comment r) = true).
  { rewrite Hr. unfold lb_comment. rewrite <-string_app_assoc. apply contains_prefix. }
  assert (Hold : r ∉ chain_of c (remove_lb_rules_for_vip (λ _, true) vip t)).
  { rewrite removed_chain by done. intros [_ Hn]%elem_of_retain. by rewrite Hgone in Hn. }
  apply rebuilt_chain in Hin as [?|?]; done.
Qed.

(** ** The statements above at concrete inputs *)
Module Demo.
Definition any_order : HashOrder Z := canonical_order Z.
#[export] Existing Instance any_order.
Definition node_order : HashOrder Node := canonical_order Node.
#[export] Existing Instance node_order.

(** A Docker host of cluster "A", known as [id], which calls itself [sid]. *)
Definition host (id sid : string) (self : bool) : Node :=
  mk_node id sid "10.0.0.1" 8553 None 0 true self None "wolfstack" None None None None (Some "A") true
    true true true false true None (Some sid) None true [] None None [] None.
Definition view (id : string) : list Node :=
  if bool_decide (id = "ws-1") then [host "ws-1" "ws-1" true; host "node-9" "ws-2" false]
  else [host "node-3" "ws-1" false; host "ws-2" "ws-2" true].

Definition request (replicas : Z) : CreateService :=
  mk_create "web" "nginx" replicas "A" [] ["80:8080"] [] AnyNode WolfRun.Always Docker None true.
Definition web (replicas : Z) (l : list ServiceInstance) : WolfRunService :=
  mk_service "s1" "web" "nginx" replicas 0 10 Docker None [] ["80:8080"] [] "A" AnyNode WolfRun.Always l
    (Some "10.10.10.5") "round_robin" [] true 0 0.
Definition store (l : list WolfRunService) : WolfRunState := mk_wolfrun l [] ∅ (Some l) None None.

Lemma one_leader_witness :
  ∃ l, l ∈ ({["ws-1"]} ∪ {["ws-2"]} : gset string) ∧ is_leader_among (view l) l = true ∧
    ∀ id, id ∈ ({["ws-1"]} ∪ {["ws-2"]} : gset string) → is_leader_among (view id) id = true → id = l.
Proof.
  apply one_leader; [set_solver|]. intros id [H|H]%elem_of_union; apply elem_of_singleton in H as ->; by vm_compute.
Defined.

Lemma edits_well_sized_witness :
  get "s1" (store [web 2 []]) = Some (web 2 []) ∧
  ∃ v', get "s1" (scale 5 Stored "s1" 12 (store [web 2 []])).2 = Some v' ∧ sv_replicas v' = 12 ∧ sv_max_replicas v' = 12.
Proof.
  split; [by vm_compute|].
  destruct (edits_well_sized 5 Stored "s1" (store [web 2 []]) (web 2 []) ltac:(by vm_compute)) as [_ H].
  destruct (H 12) as (v' & ? & _ & ? & ?); [by cbn|]. by exists v'.
Defined.

Definition idle (n : Node) : option Metrics := Some (mk_metrics f32_0 f32_0 []).
Lemma schedule_spec_witness :
  let ns := view "ws-1" in
  (∀ n, n ∈ ns → is_nan (placement_score idle (web 2 []) n) = false) ∧
  schedule idle (λ _, false) ns (web 2 []) = Some "ws-1" ∧
  ∃ n, n_id n = "ws-1" ∧ n ∈ ns ∧ eligible (λ _, false) (web 2 []) n = true.
Proof.
  intros ns.
  assert (Hn : ∀ n, n ∈ ns → is_nan (placement_score idle (web 2 []) n) = false).
  { apply Forall_forall. change ns with [host "ws-1" "ws-1" true; host "node-9" "ws-2" false].
    repeat constructor; by vm_compute. }
  split; [done|]. split; [by vm_compute|].
  pose proof (schedule_spec idle (λ _, false) ns (web 2 []) Hn) as H.
  assert (E : schedule idle (λ _, false) ns (web 2 []) = Some "ws-1") by (by vm_compute).
  rewrite E in H. destruct H as (n & ? & [? ?] & _). by exists n.
Defined.

Lemma deleted_service_stays_deleted_witness :
  let l := [(100, Unwritten, OpMerge [web 2 []]); (200, Stored, OpRestart); (300, Stored, OpMerge [web 5 []])] in
  let s := run l (exec (0, Stored, OpDelete "s1") (store [web 2 []])) in
  services s = [] ∧ absent "s1" (services s) ∧ get "s1" s = None ∧
    ∀ f, services_file s = Some f → absent "s1" f.
Proof.
  intros l s. split; [by vm_compute|].
  apply (deleted_service_stays_deleted "s1" 0 {["s1"]} ltac:(by rewrite size_singleton; unfold TOMBSTONE_MAX; lia)
           (OpDelete "s1") l (store [web 2 []])).
  - set_solver.
  - set_solver.
  - repeat constructor. set_solver.
  - by eexists.
  - by left.
  - unfold l, TOMBSTONE_RETENTION_SECS. repeat constructor; cbn; try lia; set_solver.
Defined.

Lemma cut_write_forgets_deletions_witness :
  let s := run [(100, CutShort, OpTombstone "s2"); (200, Stored, OpRestart); (300, Stored, OpMerge [web 2 []])]
             (exec (0, Stored, OpDelete "s1") (store [web 2 []])) in
  web 2 [] ∈ services s.
Proof. apply cut_write_forgets_deletions; [done|by left]. Defined.

Lemma restarts_back_off_witness :
  restarts "c" [0; 10; 20; 40; 50; 100] ∅ = [0; 20; 50] ++ [] ++ [] ∧
  let l := restarts "c" [0; 10; 20; 40; 50; 100] ∅ in head l = Some 0 ∧ (length l ≤ 8)%nat.
Proof.
  split; [by vm_compute|]. intros l. edestruct (restarts_back_off "c" 0 [10; 20; 40; 50; 100] ∅) as (? & ? & _); [done|by split].
Defined.

Definition hits (s : Share) (k : nat) : bool :=
  match s with Nth every packet => bool_decide (k mod every = packet)%nat | _ => true end.
Definition nat_rules : list NatRule :=
  chain_of "PREROUTING" (rebuild_lb_rules (λ _, true) (λ _, true) "10.10.10.5" ["a"; "b"; "c"] ["80:8080"] "round_robin" ∅).

Lemma round_robin_fair_witness :
  nth_target hits nat_rules 4 = Some (Dnat "b:8080") ∧
  nth_target hits nat_rules 4 = dnat_to (lb_port <$> ["80:8080"]) <$> ["a"; "b"; "c"] !! (4 mod 3)%nat.
Proof. split; [by vm_compute|]. apply (round_robin_fair hits "10.10.10.5"); done. Defined.

Lemma rebuild_drops_longer_vip_witness :
  let t := rebuild_lb_rules (λ _, true) (λ _, true) "10.10.10.50" ["a"] [] "round_robin" ∅ in
  let r := lb_rule "10.10.10.50" "round_robin" [] 1 0 "a" in
  r ∈ chain_of "PREROUTING" t ∧
  r ∉ chain_of "PREROUTING" (rebuild_lb_rules (λ _, true) (λ _, true) "10.10.10.5" ["b"] [] "round_robin" t).
Proof.
  split; [apply (list_elem_of_lookup_2 _ 0%nat); by vm_compute|].
  by apply rebuild_drops_longer_vip with (rest := "0"); [|set_solver|].
Defined.
End Demo.
