(* ===== verification/WolfRunPass.v ===== *)
(** * WolfRun: what the leader's passes achieve

    How much one pass creates, that passes bring a service to the number of
    replicas asked for, what a failover leaves behind, and how a service that
    a peer has deleted leaves the leader too. *)
From S2P Require Import Prelude F32 Net Cluster WolfRun WolfRunLb WolfRunTick WolfRunProps.

Definition is_deploy (c : Command) : bool := match c with Deploy _ _ => true | _ => false end.

(** The containers a pass has created so far. *)
Definition deploys (p : Pass) : Z := Z.of_nat (length (retain is_deploy (p_log p))).

(** The service [v], with instances [l], as the table holds it. *)
Definition holds (v : WolfRunService) (l : list ServiceInstance) (p : Pass) : Prop :=
  ∃ t, get (sv_id v) (p_run p) = Some (v <| sv_instances := l |> <| sv_updated_at := t |>).

Lemma NoDup_key {A B} (f : A → B) l x y : NoDup (f <$> l) → x ∈ l → y ∈ l → f x = f y → x = y.
Proof.
  induction l as [|z l IH]; cbn; [by intros _ ?%not_elem_of_nil|]. intros [Hz Hl]%NoDup_cons.
  rewrite !elem_of_cons. intros [->|Hx] [->|Hy] E; [done|..|by apply IH]; destruct Hz; [rewrite E|rewrite <-E];
    by apply list_elem_of_fmap_2.
Qed.

Section Pass.
Context {HZ : HashOrder Z} {HN : HashOrder Node} (w : RunWorld).
Implicit Types (p : Pass) (v : WolfRunService) (i : ServiceInstance) (l live : list ServiceInstance).

(** ** The table *)
Lemma get_change ok id f s :
  get id (change_instances ok id f s) = (λ v, v <| sv_instances := f (sv_instances v) |>) <$> get id s.
Proof. unfold get, change_instances. rewrite services_save. by apply find_update_first. Qed.

Lemma get_update_instances now ok id l s :
  get id (update_instances now ok id l s) =
    (λ v, v <| sv_instances := l |> <| sv_updated_at := now |>) <$> get id s.
Proof. unfold get, update_instances. rewrite services_save. by apply find_update_first. Qed.

Lemma holds_change v l f ok p :
  holds v l p → holds v (f l) (on_run (change_instances ok (sv_id v) f) p).
Proof. intros [t Ht]. exists t. cbn. by rewrite get_change, Ht. Qed.

Lemma holds_run v l p q : p_run q = p_run p → holds v l p → holds v l q.
Proof. unfold holds. by intros ->. Qed.

(** ** What is created *)
Lemma deploys_on_run f p : deploys (on_run f p) = deploys p.
Proof. done. Qed.

Lemma deploys_command c p :
  deploys (command c p) = deploys p + if is_deploy c then 1 else 0.
Proof.
  unfold deploys, command, retain. cbn. rewrite List.filter_app, length_app. cbn.
  destruct (is_deploy c); cbn; lia.
Qed.

Lemma deploys_foldl {A} (f : Pass → A → Pass) xs p :
  (∀ p x, deploys (f p x) = deploys p) → deploys (foldl f p xs) = deploys p.
Proof. intros Hf. revert p. induction xs as [|x xs IH]; intros p; cbn; [done|]. by rewrite IH, Hf. Qed.

Lemma deploys_balance present v live p : deploys (balance w present v live p) = deploys p.
Proof. unfold balance. by repeat case_match. Qed.

Lemma deploys_scale_down v live p : deploys (scale_down w v live p) = deploys p.
Proof. unfold scale_down. case_match; [|done]. by apply deploys_foldl. Qed.

Lemma deploys_restart v live p : deploys (restart_stopped w v live p) = deploys p.
Proof.
  unfold restart_stopped. case_match; try done. apply deploys_foldl. intros q i. unfold restart_one.
  repeat case_match; rewrite ?deploys_command; cbn; try done; unfold deploys, retain; cbn; lia.
Qed.

Lemma deploys_drop_lost v live p : deploys (drop_lost w v live p) = deploys p.
Proof. unfold drop_lost. by apply deploys_foldl. Qed.

Lemma deploys_drop_standbys v live p : deploys (drop_standbys w v live p) = deploys p.
Proof.
  unfold drop_standbys. case_match; [done|]. apply deploys_foldl. intros q i. unfold drop_standby.
  rewrite deploys_on_run. repeat case_match; rewrite ?deploys_command; cbn; lia.
Qed.

Lemma deploys_one_docker v n p : deploys (deploy_docker w v n p) = deploys p + 1.
Proof.
  unfold deploy_docker, short_id. case_match; rewrite ?deploys_on_run, deploys_command; done.
Qed.

Lemma deploys_one_lxc v live n p : deploys p ≤ deploys (clone_lxc w v live n p) ≤ deploys p + 1.
Proof.
  unfold clone_lxc, short_id.
  repeat case_match; rewrite ?deploys_on_run, ?deploys_command, ?deploys_on_run; unfold deploys, retain; cbn; lia.
Qed.

Lemma deploys_create k v live p :
  deploys p ≤ deploys (create_loop w k v live p) ≤ deploys p + Z.of_nat k.
Proof.
  revert p. induction k as [|k IH]; intros p; cbn [create_loop]; [lia|].
  case_match; [|lia]. case_match; [|specialize (IH p); lia].
  case_match; [pose proof (deploys_one_docker v n p)|pose proof (deploys_one_lxc v live n p)];
    match goal with |- context [create_loop w k v live ?q] => specialize (IH q) end; lia.
Qed.

Lemma deploys_scale_up v live p :
  deploys (scale_up w v live p) ≤
    deploys p + Z.max 0 (Z.min (sv_replicas v - existing live) MAX_CREATES_PER_TICK).
Proof.
  unfold scale_up. destruct (_ <? _) eqn:E; bool_props; [|lia].
  pose proof (deploys_create (Z.to_nat (needed v live)) v live p) as H.
  unfold needed, sat_sub in *. lia.
Qed.

(** Growth is paced: a pass over a service creates at most two containers,
    and never more than the service is short of, whatever the nodes answer. *)
Theorem creates_bounded present p v :
  deploys (reconcile_service w present p v) ≤
    deploys p + Z.max 0 (Z.min (sv_replicas v - existing (observe w (sv_runtime v) <$> sv_instances v)) 2).
Proof.
  unfold reconcile_service. rewrite deploys_drop_standbys, deploys_drop_lost, deploys_restart, deploys_scale_down.
  etrans; [apply deploys_scale_up|]. by rewrite deploys_balance, deploys_on_run.
Qed.

(** ** Towards the number asked for *)
Definition active l : nat := length (retain (λ i, negb (i_standby i)) l).

Lemma active_app l1 l2 : active (l1 ++ l2) = (active l1 + active l2)%nat.
Proof. unfold active. by rewrite retain_app, length_app. Qed.

#[local] Instance active_perm : Proper ((≡ₚ) ==> (=)) active.
Proof. intros l l' H. unfold active. by rewrite H. Qed.

(** [l] after the removal of the instances with these names. *)
Definition without (names : list string) l : list ServiceInstance :=
  retain (λ i, bool_decide (i_container_name i ∉ names)) l.

Lemma holds_removes v l ok vs p :
  holds v l p →
  holds v (without (i_container_name <$> vs) l)
    (foldl (λ p i, on_run (remove_instance ok (sv_id v) (i_container_name i)) p) p vs).
Proof.
  revert l p. induction vs as [|x vs IH]; intros l p Hp; cbn.
  { unfold without. rewrite retain_all; [done|]. apply Forall_forall. intros i _. apply bool_decide_eq_true. set_solver. }
  apply (holds_change v l (retain (λ i, negb (called (i_container_name x) i))) ok), IH in Hp.
  revert Hp. unfold without. rewrite retain_retain. unfold called. by rewrite (retain_ext _ (λ i, bool_decide (i_container_name i ∉ i_container_name x :: (i_container_name <$> vs))))
    by (intros i; repeat case_bool_decide; cbn; set_solver).
Qed.

Lemma elem_of_without names l i : i ∈ without names l ↔ i ∈ l ∧ i_container_name i ∉ names.
Proof. unfold without. by rewrite elem_of_retain, bool_decide_eq_true. Qed.

(** Removing some of the instances by name removes exactly those. *)
Lemma active_without vs l :
  NoDup (i_container_name <$> l) → vs ⊆+ l →
  (active (without (i_container_name <$> vs) l) + active vs = active l)%nat.
Proof.
  intros Hn [rest Hl]%submseteq_Permutation. unfold without. rewrite Hl in *. rewrite fmap_app in Hn.
  apply NoDup_app in Hn as (_ & Hd & _). rewrite retain_app, retain_none, retain_all, !active_app; [cbn; lia| |].
  - apply Forall_forall. intros i Hi. apply bool_decide_eq_true. intros Hx. by apply (Hd _ Hx), list_elem_of_fmap_2.
  - intros i Hi. apply bool_decide_eq_false. intros Hx. by apply Hx, list_elem_of_fmap_2.
Qed.

Lemma active_without_standby names l :
  (∀ i, i ∈ l → i_container_name i ∈ names → i_standby i = true) → active (without names l) = active l.
Proof.
  intros Hs. unfold active, without. rewrite retain_retain. f_equal. apply retain_ext. intros i Hi.
  case_bool_decide as Hc; [done|]. cbn. rewrite Hs; [done..|]. by destruct (decide (i_container_name i ∈ names)).
Qed.

Definition docker_name v (k : nat) : string := slug (sv_name v) +:+ "-wolfrun-" +:+ rw_uuid w k.

Let ns : list Node := get_all_nodes (rw_now w) (rw_cluster w).

(** A pass in which nothing stands in the way: some host qualifies, the
    runtime does what it is told, the containers that should be there are, and
    the two names a pass can need are unused. *)
Record favourable v l p : Prop := {
  fv_docker : sv_runtime v = Docker;
  fv_host : existsb (eligible (rw_installed w) v) ns = true;
  fv_known : ∀ n, n ∈ ns → is_Some (get_node (rw_cluster w) (n_id n));
  fv_deploys : ∀ n name, rw_deploy_ok w n name = true;
  fv_seen : ∀ i, i ∈ l → i_standby i = false → exists_still (observe w Docker i) = true;
  fv_names : NoDup ((i_container_name <$> l) ++ (docker_name v <$> seq (p_uuids p) 2))
}.

Lemma schedule_some metrics installed v (hs : list Node) :
  existsb (eligible installed v) hs = true →
  ∃ n, n ∈ hs ∧ schedule metrics installed hs v = Some (n_id n).
Proof.
  intros [h [Hh He]]%existsb_exists.
  assert (Hin : ∀ n, n ∈ retain (eligible installed v) hs → n ∈ hs) by (by intros n [? _]%elem_of_retain).
  assert (∃ n, n ∈ hs ∧ n_id <$> pick (scores_below metrics v) (retain (eligible installed v) hs) = Some (n_id n)) as (b & Hb & Hbest).
  { destruct (pick _ _) as [n|] eqn:E; [exists n; split; [by eapply Hin, pick_elem|done]|].
    apply pick_None in E. assert (h ∈ retain (eligible installed v) hs) as Hx
      by (apply elem_of_retain; split; [by apply list_elem_of_In|done]).
    rewrite E in Hx. by apply not_elem_of_nil in Hx. }
  unfold schedule. destruct (sv_placement v); [by exists b|..|by exists b].
  destruct (List.find _ _) as [n|] eqn:Hf; [|by exists b]. destruct (n_online n); [|by exists b].
  apply find_Some_elem in Hf as [Hf _]. exists n. auto.
Qed.

(** What [k] rounds of the creation loop add. *)
Lemma create_docker k v live l p :
  sv_runtime v = Docker → existsb (eligible (rw_installed w) v) ns = true →
  (∀ n, n ∈ ns → is_Some (get_node (rw_cluster w) (n_id n))) → (∀ n name, rw_deploy_ok w n name = true) →
  holds v l p →
  ∃ new, holds v (l ++ new) (create_loop w k v live p) ∧ active new = k ∧
    i_container_name <$> new = docker_name v <$> seq (p_uuids p) k.
Proof.
  intros Hr He Hg Hd. revert l p. induction k as [|k IH]; intros l p Hp.
  { exists []. rewrite app_nil_r. done. }
  cbn [create_loop]. fold ns. destruct Hp as [t Ht].
  set (cur := v <| sv_instances := l |> <| sv_updated_at := t |>) in *. rewrite Ht. change (default v (Some cur)) with cur.
  destruct (schedule_some (rw_metrics w) (rw_installed w) cur ns He) as (n & Hn & ->).
  destruct (Hg n Hn) as [node ->]. rewrite Hr. unfold deploy_docker, short_id. rewrite Hd.
  match goal with |- context [add_instance _ _ ?i] => set (x := i) end.
  match goal with |- context [create_loop w k v live ?q] => destruct (IH (l ++ [x]) q) as (new & H1 & H2 & H3) end.
  { apply (holds_change v l (λ l, l ++ [x])). by exists t. }
  exists (x :: new). split_and!.
  - by rewrite <-(assoc_L (++)) in H1.
  - change (x :: new) with ([x] ++ new). rewrite active_app, H2. done.
  - cbn [fmap list_fmap seq]. f_equal. exact H3.
Qed.

Lemma observe_same rt i :
  i_container_name (observe w rt i) = i_container_name i ∧ i_standby (observe w rt i) = i_standby i.
Proof. unfold observe, offline, seen_in. by repeat case_match. Qed.

Lemma active_observe rt l : active (observe w rt <$> l) = active l.
Proof.
  induction l as [|i l IH]; [done|]. rewrite fmap_cons. unfold active, retain in *. cbn [List.filter].
  rewrite (proj2 (observe_same rt i)). destruct (i_standby i); cbn; by rewrite IH.
Qed.

Lemma balance_run present v live p : p_run (balance w present v live p) = p_run p.
Proof. unfold balance. by repeat case_match. Qed.

Lemma restart_run v live p : p_run (restart_stopped w v live p) = p_run p.
Proof.
  unfold restart_stopped. case_match; try done. revert p. induction live as [|i live IH]; intros p; cbn; [done|].
  rewrite IH. unfold restart_one. by repeat case_match.
Qed.

Lemma holds_drop_standbys v live l p :
  holds v l p → ∃ vs, holds v (without (i_container_name <$> vs) l) (drop_standbys w v live p) ∧
    ∀ i, i ∈ vs → i ∈ live ∧ i_standby i = true.
Proof.
  intros Hp. unfold drop_standbys. destruct (sv_failover v).
  { exists []. split; [|by intros i ?%not_elem_of_nil]. unfold without.
    rewrite retain_all; [done|]. apply Forall_forall. intros i _. apply bool_decide_eq_true. set_solver. }
  exists (retain i_standby live). split; [|intros i; by rewrite elem_of_retain].
  pose proof (holds_removes v l (rw_write w) (retain i_standby live) p Hp) as H. revert H.
  generalize (retain i_standby live) as vs. intros vs. generalize (without (i_container_name <$> vs) l) as l'. clear Hp.
  assert (Hrun : ∀ p q, p_run p = p_run q →
    p_run (foldl (drop_standby w v) p vs) =
    p_run (foldl (λ p i, on_run (remove_instance (rw_write w) (sv_id v) (i_container_name i)) p) q vs)).
  { induction vs as [|x vs IH]; intros p0 q0 E; cbn; [done|]. apply IH. unfold drop_standby.
    repeat case_match; cbn; by rewrite E. }
  intros l'. apply holds_run. by apply Hrun.
Qed.

(** In the listing of a favourable pass, exactly the standbys do not count. *)
Definition settled live : Prop := ∀ i, i ∈ live → exists_still i = negb (i_standby i).

Lemma existing_active live : settled live → existing live = Z.of_nat (active live).
Proof. intros Hs. unfold existing, active. do 2 f_equal. by apply retain_ext. Qed.

Lemma scale_up_adds v l live p q :
  favourable v l p → settled live → i_container_name <$> live = i_container_name <$> l →
  p_uuids q = p_uuids p → holds v live q →
  ∃ new, holds v (live ++ new) (scale_up w v live q) ∧
    Z.of_nat (active new) = Z.max 0 (Z.min (sv_replicas v - Z.of_nat (active live)) 2) ∧
    NoDup (i_container_name <$> live ++ new).
Proof.
  intros [Hr He Hk Hd _ Hn] Hs Hnames Hu Hq. rewrite <-Hnames in Hn. unfold scale_up.
  rewrite existing_active by done. destruct (_ <? _) eqn:E; bool_props.
  - destruct (create_docker (Z.to_nat (needed v live)) v live live _ Hr He Hk Hd Hq) as (new & ? & Hc & Hnm).
    assert (Z.of_nat (active new) = Z.max 0 (Z.min (sv_replicas v - Z.of_nat (active live)) 2)) as Hz
      by (rewrite Hc; unfold needed, sat_sub, MAX_CREATES_PER_TICK; rewrite existing_active by done; lia).
    exists new. split_and!; [done..|]. rewrite fmap_app, Hnm, Hu. eapply sublist_NoDup; [exact Hn|].
    apply sublist_app; [done|]. rewrite <-Hc.
    destruct (active new) as [|[|[|k]]]; cbn; [apply sublist_nil_l|repeat constructor..|lia].
  - exists []. rewrite app_nil_r. split_and!; [done|cbn; lia|]. by apply NoDup_app in Hn as [? _].
Qed.

Lemma scale_down_releases v live new p :
  settled live → 0 ≤ sv_replicas v → holds v (live ++ new) p →
  ∃ vs, holds v (without (i_container_name <$> vs) (live ++ new)) (scale_down w v live p) ∧
    vs ⊆+ live ++ new ∧ Z.of_nat (active vs) = Z.max 0 (Z.of_nat (active live) - sv_replicas v).
Proof.
  intros Hs H0 Hp. pose proof (existing_active live Hs) as Hex. unfold scale_down.
  destruct (_ <? _) eqn:E; bool_props.
  - set (vs := take _ _). exists vs.
    assert (Hin : vs ⊆+ retain exists_still live)
      by (etrans; [apply sublist_submseteq, sublist_take|]; by rewrite sort_by_perm).
    split_and!; [by apply holds_removes|..].
    + etrans; [exact Hin|]. etrans; [apply sublist_submseteq, retain_sublist|]. by apply submseteq_inserts_r.
    + assert (active vs = length vs) as ->.
      { unfold active. rewrite retain_all; [done|]. apply Forall_forall. intros i Hi.
        pose proof (elem_of_submseteq _ _ _ Hi Hin) as [Hi' Hx]%elem_of_retain. by rewrite <-Hs. }
      unfold vs. rewrite length_take, (Permutation_length (sort_by_perm _ _)). unfold existing in *. lia.
  - exists []. unfold without at 1. rewrite retain_all by (apply Forall_forall; intros; apply bool_decide_eq_true; set_solver).
    split_and!; [done|apply submseteq_nil_l|cbn; lia].
Qed.

(** One pass in favourable conditions: two instances nearer, or there. *)
Lemma pass_progress present p v :
  get (sv_id v) (p_run p) = Some v → favourable v (sv_instances v) p → 0 ≤ sv_replicas v →
  let a := Z.of_nat (active (sv_instances v)) in
  ∃ l, holds v l (reconcile_service w present p v) ∧
    Z.of_nat (active l) = if a <? sv_replicas v then Z.min (a + 2) (sv_replicas v) else sv_replicas v.
Proof.
  intros Hg Hfv H0 a. set (live := observe w (sv_runtime v) <$> sv_instances v).
  assert (Hnames : i_container_name <$> live = i_container_name <$> sv_instances v).
  { unfold live. rewrite <-list_fmap_compose. apply list_fmap_ext. intros _ i _. apply observe_same. }
  assert (Hs : settled live).
  { unfold live. intros i (j & -> & Hj)%list_elem_of_fmap. destruct (observe_same (sv_runtime v) j) as [_ E].
    destruct (i_standby j) eqn:Ej; [unfold exists_still; by rewrite E|].
    rewrite (fv_docker _ _ _ Hfv) in *. by rewrite (fv_seen _ _ _ Hfv), E. }
  assert (Ha : active live = active (sv_instances v)) by apply active_observe.
  set (p1 := on_run (update_instances (rw_now w) (rw_write w) (sv_id v) live) p).
  assert (H1 : holds v live (balance w present v live p1)).
  { eapply holds_run; [apply balance_run|]. exists (rw_now w). cbn. by rewrite get_update_instances, Hg. }
  destruct (scale_up_adds v (sv_instances v) live p (balance w present v live p1) Hfv Hs Hnames ltac:(unfold balance; by repeat case_match) H1)
    as (new & H2 & Hnew & Hnd).
  destruct (scale_down_releases v live new _ Hs H0 H2) as (vs & H3 & Hsub & Hcount). rewrite Ha in *. fold a in Hnew, Hcount.
  set (p2 := scale_up w v live _) in *.
  (* what is lost, and idle standbys *)
  assert (H4 := holds_removes v _ (rw_write w) (retain (long_lost w) live)
                  (restart_stopped w v live (scale_down w v live p2)) (holds_run _ _ _ _ (restart_run _ _ _) H3)).
  fold (drop_lost w v live (restart_stopped w v live (scale_down w v live p2))) in H4.
  destruct (holds_drop_standbys v live _ _ H4) as (ss & H5 & Hss).
  eexists. split; [exact H5|].
  assert (Hsame : ∀ i j, i ∈ live ++ new → j ∈ live → i_container_name i = i_container_name j → i = j).
  { intros i j Hi Hj. apply (NoDup_key _ _ _ _ Hnd); [done|set_solver]. }
  rewrite 2!active_without_standby.
  - pose proof (active_without vs (live ++ new) Hnd Hsub) as Hw. rewrite active_app, Ha in Hw.
    destruct (a <? sv_replicas v) eqn:E; bool_props; lia.
  - intros i [Hi _]%elem_of_without (j & Hij & Hj)%list_elem_of_fmap. apply elem_of_retain in Hj as [Hj Hl].
    rewrite (Hsame i j Hi Hj Hij). unfold long_lost in Hl. specialize (Hs j Hj).
    destruct (i_standby j) eqn:Ej; [done|]. unfold exists_still in Hs. bool_props. rewrite Ej in Hs.
    by rewrite bool_decide_true in Hs.
  - intros i [[Hi _]%elem_of_without _]%elem_of_without (j & Hij & [Hj Hl]%Hss)%list_elem_of_fmap.
    by rewrite (Hsame i j Hi Hj Hij).
Qed.
End Pass.

(** ** Many passes *)
Section Passes.
Context {HZ : HashOrder Z} {HN : HashOrder Node}.

(** A pass's share for one service. *)
Definition tend (id : string) (p : Pass) (w : RunWorld) : Pass :=
  match get id (p_run p) with
  | Some v => reconcile_service w (vips_with_lb_rules (rw_listed w) (p_nat p)) p v
  | None => p
  end.

Fixpoint all_favourable (id : string) (p : Pass) (ws : list RunWorld) : Prop :=
  match ws with
  | [] => True
  | w :: ws => (∀ v, get id (p_run p) = Some v → favourable w v (sv_instances v) p) ∧
               all_favourable id (tend id p w) ws
  end.

(** C24: The replicas asked for are reached: after as many favourable passes as
    half of what is missing, rounded up (one when there are too many), the
    service has exactly its number of instances, and the service is otherwise
    as it was. *)
Theorem replicas_reached id v p w ws :
  get id (p_run p) = Some v → 0 ≤ sv_replicas v → all_favourable id p (w :: ws) →
  sv_replicas v - Z.of_nat (active (sv_instances v)) ≤ 2 * Z.of_nat (length (w :: ws)) →
  ∃ l t, get id (p_run (foldl (tend id) p (w :: ws))) = Some (v <| sv_instances := l |> <| sv_updated_at := t |>) ∧
    Z.of_nat (active l) = sv_replicas v.
Proof.
  revert v p w. induction ws as [|w' ws IH]; intros v p w Hg H0 [Hw Hws] Hlen.
  all: assert (Hid : sv_id v = id) by (apply find_Some_elem in Hg as [_ H]; unfold has_id in H; by bool_props).
  all: destruct (pass_progress w (vips_with_lb_rules (rw_listed w) (p_nat p)) p v) as (l & [t Hl] & Hc);
    [by rewrite Hid|by apply Hw|done|].
  all: rewrite Hid in Hl; unfold tend in *; cbn [foldl length] in *; rewrite Hg in *.
  - exists l, t. split; [done|]. rewrite Hc. destruct (_ <? _) eqn:E; bool_props; lia.
  - set (v1 := v <| sv_instances := l |> <| sv_updated_at := t |>) in *.
    destruct (IH v1 (reconcile_service w (vips_with_lb_rules (rw_listed w) (p_nat p)) p v) w' Hl H0 Hws)
      as (l' & t' & Hl' & Hc').
    { cbn [sv_replicas sv_instances v1]. change (sv_replicas v1) with (sv_replicas v). change (sv_instances v1) with l.
      rewrite Hc. destruct (_ <? _) eqn:E; bool_props; lia. }
    exists l', t'. by split.
Qed.
End Passes.

(** ** Failover *)
Section Failover.
Context {HZ : HashOrder Z} {HN : HashOrder Node} (w : RunWorld).
Context (starts : ∀ n name, rw_start_ok w n name = true).
Implicit Types (p : Pass) (v : WolfRunService) (i : ServiceInstance) (l pool failed : list ServiceInstance).

Definition is_serving i : bool := negb (i_standby i) && node_online w (i_node_id i).

(** The instances that are not standbys and whose node is online. *)
Definition serving l : nat := length (retain is_serving l).

Lemma serving_app l1 l2 : serving (l1 ++ l2) = (serving l1 + serving l2)%nat.
Proof. unfold serving. by rewrite retain_app, length_app. Qed.

Lemma serving_cons i l : serving (i :: l) = ((if is_serving i then 1 else 0) + serving l)%nat.
Proof. unfold serving, retain. cbn. by destruct (is_serving i). Qed.

(** What a promotion leaves of the instances. *)
Definition promoted (s f : ServiceInstance) l : list ServiceInstance :=
  retain (λ i, negb (called (i_container_name f) i))
    (update_first (called (i_container_name s))
       (λ i, i <| i_standby := false |> <| i_status := "running" |> <| i_last_seen := rw_now w |>) l).

Lemma holds_promote v l s f p : holds v l p → holds v (promoted s f l) (promote_instance w v s f p).
Proof.
  intros Hp. destruct (holds_change v l (promoted s f) (rw_write w) p Hp) as [t Ht]. exists t. rewrite <-Ht.
  unfold promote_instance, get. cbn. unfold add_failover_event, save_failover_events. by destruct (rw_write w).
Qed.

Lemma update_first_called l s g :
  NoDup (i_container_name <$> l) → s ∈ l →
  ∃ a b, l = a ++ s :: b ∧ update_first (called (i_container_name s)) g l = a ++ g s :: b.
Proof.
  intros Hn Hs. destruct (List.find (called (i_container_name s)) l) as [x|] eqn:E.
  - assert (x = s) as ->.
    { pose proof (find_Some_elem _ _ _ E) as [Hx Hc]. unfold called in Hc. bool_props. by apply (NoDup_key _ _ _ _ Hn). }
    destruct (update_first_split _ g _ _ E) as (a & b & ? & _ & _ & ?). by exists a, b.
  - apply find_None_Forall in E. rewrite Forall_forall in E. specialize (E s Hs). unfold called in E. by bool_props.
Qed.

(** A standby on a live node in place of an instance whose node is gone. *)
Lemma promoted_spec l s f :
  NoDup (i_container_name <$> l) → s ∈ l → f ∈ l → i_standby s = true → node_online w (i_node_id s) = true →
  i_standby f = false → node_online w (i_node_id f) = false →
  let l' := promoted s f l in
  serving l' = S (serving l) ∧ NoDup (i_container_name <$> l') ∧
  (i_container_name f ∉ i_container_name <$> l') ∧
  (i_container_name <$> l') `sublist_of` (i_container_name <$> l) ∧
  ∀ x, x ∈ l → x ≠ s → x ≠ f → x ∈ l'.
Proof.
  intros Hn Hs Hf Hss Hso Hfs Hfo l'. unfold l', promoted. set (g := λ i, _ <| i_last_seen := _ |>).
  destruct (update_first_called l s g Hn Hs) as (a & b & Hl & Hu). rewrite Hu.
  assert (Hm : i_container_name <$> a ++ g s :: b = i_container_name <$> l) by (by rewrite Hl, !fmap_app).
  assert (Hin : ∀ x, x ∈ l → x ≠ s → x ∈ a ++ g s :: b) by (rewrite Hl; set_solver).
  assert (f ≠ s) as Hfs' by (intros ->; congruence).
  assert (Hsub : i_container_name <$> retain (λ i, negb (called (i_container_name f) i)) (a ++ g s :: b)
                 `sublist_of` i_container_name <$> l) by (rewrite <-Hm; apply fmap_sublist, retain_sublist).
  split_and!.
  - unfold serving at 1. rewrite retain_retain, (retain_ext _ is_serving).
    + change (serving (a ++ g s :: b) = S (serving l)). rewrite Hl, !serving_app, !serving_cons.
      assert (is_serving (g s) = true) as -> by (unfold is_serving; change (negb false && node_online w (i_node_id s) = true); by rewrite Hso).
      assert (is_serving s = false) as -> by (unfold is_serving; by rewrite Hss). lia.
    + intros x Hx. unfold called. case_bool_decide as Hc; cbn; [|done].
      rewrite (NoDup_key i_container_name (a ++ g s :: b) x f); [|by rewrite Hm|done|by apply Hin|done].
      unfold is_serving. by rewrite Hfo, andb_false_r.
  - eapply sublist_NoDup; [exact Hn|done].
  - intros (x & Hx & [_ Hc]%elem_of_retain)%list_elem_of_fmap. unfold called in Hc. bool_props. congruence.
  - done.
  - intros x Hx Hxs Hxf. apply elem_of_retain. split; [by apply Hin|]. unfold called. apply negb_true_iff, bool_decide_eq_false.
    intros E. apply Hxf. by apply (NoDup_key _ _ _ _ Hn).
Qed.

Definition usable pool : nat := length (retain (λ s, node_online w (i_node_id s)) pool).

(** [pool]: standbys of [l]; [failed]: instances of [l] whose nodes are gone. *)
Record failing l pool failed : Prop := {
  fl_names : NoDup (i_container_name <$> l);
  fl_pool : NoDup pool ∧ ∀ s, s ∈ pool → s ∈ l ∧ i_standby s = true;
  fl_failed : NoDup failed ∧ ∀ f, f ∈ failed → f ∈ l ∧ i_standby f = false ∧ node_online w (i_node_id f) = false
}.

Lemma remove_first_split {A} (q : A → bool) (xs : list A) x :
  List.find q xs = Some x → ∃ a b, xs = a ++ x :: b ∧ remove_first q xs = a ++ b ∧ q x = true ∧ Forall (λ y, q y = false) a.
Proof.
  induction xs as [|y xs IH]; cbn; [done|]. destruct (q y) eqn:E.
  - intros [= ->]. by exists [], xs.
  - intros (a & b & -> & -> & ? & ?)%IH. exists (y :: a), b. split_and!; [done..|by constructor].
Qed.

Lemma replace_all v l pool failed p :
  failing l pool failed → holds v l p →
  let k := Nat.min (length failed) (usable pool) in
  ∃ l', holds v l' (foldl (replace_failed w v) (pool, p) failed).2 ∧
    serving l' = (serving l + k)%nat ∧
    (∀ x, x ∈ l → i_standby x = false → x ∉ failed → x ∈ l') ∧
    (∀ f, f ∈ take k failed → i_container_name f ∉ i_container_name <$> l') ∧
    i_container_name <$> l' ⊆ i_container_name <$> l.
Proof using starts.
  revert l pool p. induction failed as [|f failed IH]; intros l pool p Hf Hp k.
  { exists l. unfold k. rewrite Nat.add_0_r. split_and!; [done..|by intros ? ?%not_elem_of_nil|done]. }
  cbn [foldl replace_failed]. destruct Hf as [Hn [Hpn Hpl] [[Hfn Hfns]%NoDup_cons Hfl]].
  destruct (Hfl f) as (Hfin & Hfs & Hfo); [by left|].
  destruct (List.find _ pool) as [s|] eqn:E.
  - apply remove_first_split in E as (a & b & -> & -> & Hon & Ha).
    assert (∃ n, List.find (λ n, node_matches_id n (i_node_id s)) (get_all_nodes (rw_now w) (rw_cluster w)) = Some n)
      as [n Hfind] by (unfold node_online in Hon; destruct (List.find _ _); [by eexists|done]).
    rewrite Hfind, starts. destruct (Hpl s) as [Hsl Hss]; [set_solver|].
    destruct (promoted_spec l s f Hn Hsl Hfin Hss Hon Hfs Hfo) as (H1 & H2 & H3 & H4 & H5).
    destruct (IH (promoted s f l) (a ++ b) (promote_instance w v s f (command (StartContainer (n_id n) (i_container_name s)) p)))
      as (l' & G1 & G2 & G3 & G4 & G5).
    + split; [done| |split; [done|]].
      * apply NoDup_app in Hpn as (? & Hx & [Hsb ?]%NoDup_cons). split; [apply NoDup_app; set_solver|].
        intros x Hx'. destruct (Hpl x) as [? ?]; [set_solver|]. split; [|done]. apply H5; [done|set_solver|congruence].
      * intros x Hx. destruct (Hfl x) as (? & ? & ?); [by right|]. split; [|done]. apply H5; [done|congruence|congruence].
    + apply holds_promote. by eapply holds_run; [|exact Hp].
    + exists l'. split; [done|].
      assert (k = S (Nat.min (length failed) (usable (a ++ b)))) as ->.
      { unfold k, usable, retain. rewrite !List.filter_app, !length_app. cbn [List.filter]. rewrite Hon. cbn [length]. lia. }
      split_and!.
      * rewrite G2, H1. lia.
      * intros x Hx Hxs [Hxf Hxr]%not_elem_of_cons. apply G3; [|done..]. apply H5; [done|congruence|done].
      * intros x [->|Hx]%elem_of_cons; [by intros ?%G5|by apply G4].
      * etrans; [exact G5|]. by apply sublist_subseteq.
  - apply find_None_Forall in E. assert (usable pool = 0%nat) as Hz.
    { unfold usable. rewrite retain_none; [done|]. by apply Forall_forall. }
    destruct (IH l pool p) as (l' & G1 & G2 & G3 & G4 & G5); [|done|].
    + split; [done..|]. split; [done|]. intros; apply Hfl; by right.
    + exists l'. unfold k. rewrite Hz, Nat.min_0_r in *. split_and!; [done..| |by intros ? ?%not_elem_of_nil|done].
      intros x Hx Hxs Hxf. apply G3; [done..|]. by apply not_elem_of_cons in Hxf as [_ ?].
Qed.

(** Failover replaces what it can: with containers that start, each of the
    instances lost with their nodes, in order, is replaced by a standby of its
    own on a live node, for as long as there are such standbys.  As many more
    instances serve, the replaced ones are gone from the service, and every
    other one stays. *)
Theorem failover_replaces p v :
  sv_failover v = true → get (sv_id v) (p_run p) = Some v → NoDup (i_container_name <$> sv_instances v) →
  let standbys := retain (λ i, i_standby i && negb (bool_decide (i_status i = "lost"))) (sv_instances v) in
  let failed := failed_instances w v in
  let k := Nat.min (length failed) (usable standbys) in
  ∃ l, holds v l (fail_over_service w p v) ∧ serving l = (serving (sv_instances v) + k)%nat ∧
    (∀ x, x ∈ sv_instances v → i_standby x = false → x ∉ failed → x ∈ l) ∧
    ∀ f, f ∈ take k failed → i_container_name f ∉ i_container_name <$> l.
Proof using starts.
  intros Hv Hg Hn standbys failed k.
  destruct (replace_all v (sv_instances v) standbys failed p) as (l & H1 & H2 & H3 & H4 & _).
  - assert (Hnd : NoDup (sv_instances v)) by (by apply NoDup_fmap_1 in Hn).
    split; [done|split|split]; try (eapply sublist_NoDup; [exact Hnd|apply retain_sublist]).
    + intros s [? ?]%elem_of_retain. by bool_props.
    + intros f [? ?]%elem_of_retain. by bool_props.
  - exists (sv_updated_at v). rewrite Hg. by destruct v.
  - exists l. unfold fail_over_service. rewrite Hv. by split_and!.
Qed.
End Failover.

(** ** Deletions learnt from peers *)
Section Ghosts.
Context {HZ : HashOrder Z} {HN : HashOrder Node} (w : RunWorld).
Implicit Types (p : Pass) (v : WolfRunService) (i : ServiceInstance).

Lemma destroy_run v l p : p_run (foldl (destroy_instance w v) p l) = p_run p.
Proof.
  revert p. induction l as [|i l IH]; intros p; cbn; [done|]. rewrite IH. unfold destroy_instance.
  by repeat case_match.
Qed.

Lemma remove_first_none {A} (q : A → bool) xs : List.find q xs = None → remove_first q xs = xs.
Proof. induction xs as [|x xs IH]; cbn; [done|]. destruct (q x); [done|]. intros. by rewrite IH. Qed.

Lemma p_run_on_run f p : p_run (on_run f p) = f (p_run p).
Proof. done. Qed.

Lemma learn_services p id :
  services (p_run (learn_deletion w p id)) = remove_first (has_id id) (services (p_run p)).
Proof.
  assert (Hs : ∀ s, services (record_tombstone (rw_now w) (rw_write w) id s) = services s)
    by (intros s; unfold record_tombstone, save_tombstones; by destruct (rw_write w)).
  unfold learn_deletion. destruct (get id (p_run p)) as [v|] eqn:E; rewrite p_run_on_run.
  - unfold delete_service. rewrite destroy_run.
    assert (p_run (match sv_service_ip v with
                   | Some vip => p <| p_nat := remove_lb_rules_for_vip (rw_listed w) vip (p_nat p) |>
                   | None => p
                   end) = p_run p) as -> by (by destruct (sv_service_ip v)).
    rewrite E. cbn [snd]. by rewrite Hs, services_save.
  - rewrite Hs. symmetry. by apply remove_first_none.
Qed.

Lemma remove_first_sublist {A} (q : A → bool) xs : remove_first q xs `sublist_of` xs.
Proof. induction xs as [|x xs IH]; cbn; [done|]. destruct (q x); by constructor. Qed.

Lemma learn_all ids p :
  NoDup (sv_id <$> services (p_run p)) →
  let vs := services (p_run (foldl (learn_deletion w) p ids)) in
  vs `sublist_of` services (p_run p) ∧ ∀ id, id ∈ ids → absent id vs.
Proof.
  revert p. induction ids as [|x ids IH]; intros p Hn vs; [split; [done|by intros ? ?%not_elem_of_nil]|].
  pose proof (learn_services p x) as Hx. pose proof (remove_first_sublist (has_id x) (services (p_run p))) as Hs.
  rewrite <-Hx in Hs. destruct (IH (learn_deletion w p x)) as [H1 H2].
  { eapply sublist_NoDup; [exact Hn|]. by apply fmap_sublist. }
  split; [by etrans|]. intros id [->|Hi]%elem_of_cons; [|by apply H2].
  assert (Ha : absent x (services (p_run (learn_deletion w p x)))) by (rewrite Hx; by apply absent_first).
  unfold absent in *. rewrite Forall_forall in *. intros y Hy. apply Ha. by eapply sublist_subseteq.
Qed.

(** A ghost goes: when a peer that has deleted a service answers the
    leader's broadcast of its table, no service with that id is left in the
    leader's table, and no other service is added or reordered. *)
Theorem ghost_cleared id p replies peer ok :
  NoDup (sv_id <$> services (p_run p)) → id ∈ sv_id <$> services (p_run p) → is_Some (deleted peer !! id) →
  (merge_from_peer ok (services (p_run p)) peer).1 ∈ replies (services (p_run p)) →
  let vs := services (p_run (broadcast_to_cluster w replies p)) in
  absent id vs ∧ vs `sublist_of` services (p_run p).
Proof.
  intros Hn Hi Hd Hr vs. unfold vs, broadcast_to_cluster. rewrite bool_decide_false.
  2: { intros E. rewrite E in Hi. by apply not_elem_of_nil in Hi. }
  destruct (learn_all (remove_dups (mjoin (replies (services (p_run p))))) p Hn) as [H1 H2]. split; [|done].
  apply H2, elem_of_remove_dups, list_elem_of_join. eexists. split; [|exact Hr].
  unfold merge_from_peer. rewrite bool_decide_false by (intros E; rewrite E in Hi; by apply not_elem_of_nil in Hi).
  apply list_elem_of_fmap in Hi as (v & -> & Hv). apply list_elem_of_fmap_2. apply elem_of_retain.
  split; [done|]. by apply bool_decide_eq_true.
Qed.

(** The age of a lost instance is an unsigned difference: one last seen
    even a second in the future is dropped at once instead of after the five
    minutes that are meant to pass. *)
Theorem future_instance_dropped v l p i :
  i ∈ l → i_status i = "lost" → 0 ≤ rw_now w < i_last_seen i → i_last_seen i < 2 ^ 63 →
  (∃ l0, holds v l0 p) → ∃ l', holds v l' (drop_lost w v l p) ∧ i_container_name i ∉ i_container_name <$> l'.
Proof.
  intros Hi Hs Ht Hb [l0 H0]. eexists. split; [by apply holds_removes|].
  intros (x & Hx & [_ Hn]%elem_of_without)%list_elem_of_fmap. apply Hn. rewrite <-Hx. apply list_elem_of_fmap_2.
  apply elem_of_retain. split; [done|]. unfold long_lost. rewrite Hs, bool_decide_true by done. apply Z.ltb_lt.
  unfold wrap64, wrap. replace (rw_now w - i_last_seen i) with (rw_now w - i_last_seen i + 2 ^ 64 + (-1) * 2 ^ 64) by lia.
  rewrite Z.mod_add, Z.mod_small by lia. lia.
Qed.
End Ghosts.

(** ** The statements above at concrete inputs *)
Module Cases.
Import Demo.

(** A node that runs Docker, alone in its cluster or with a second node,
    online or not. *)
Definition files : SelfFiles := mk_self_files None None None None None None.
Definition self_node : Node := host "ws-1" "ws-1" true.
Definition other (seen : Z) : Node := host "node-9" "ws-2" false <| n_last_seen := seen |>.
Definition cluster (l : list (string * Node)) : ClusterState :=
  mk_cluster (list_to_map l) "ws-1" "10.0.0.1" 8553 ∅ None None files.

Definition unary (k : nat) : string := Nat.iter k (String "u") "".
Definition world (now : Z) (l : list (string * Node)) (there : list string) : RunWorld :=
  mk_run_world now Stored (cluster l) (λ _, None) (λ _, true)
    (λ _, (λ c, mk_container c "Running" (Some c)) <$> there) (λ _ _, None) unary (λ _, None)
    (λ _ _, true) (λ _ _, true) (λ _ _, true) (λ _, true) (λ _, true).
Definition start (v : WolfRunService) : Pass := mk_pass (store [v]) ∅ ∅ ∅ 0 [].
Definition alone : RunWorld := world 1000 [("ws-1", self_node)] ["web-wolfrun-"; "web-wolfrun-u"; "web-wolfrun-uu"].

Lemma alone_favourable v l p :
  sv_runtime v = Docker → existsb (eligible (λ _, true) v) [self_node] = true →
  forallb (λ i, i_standby i || exists_still (observe alone Docker i)) l = true →
  NoDup ((i_container_name <$> l) ++ (docker_name alone v <$> seq (p_uuids p) 2)) → favourable alone v l p.
Proof.
  intros Hr He Hs Hn.
  assert (Hns : get_all_nodes (rw_now alone) (rw_cluster alone) = [self_node]) by (by vm_compute).
  split; [done|by rewrite Hns|rewrite Hns|done| |done].
  - intros n ->%list_elem_of_singleton. by eexists.
  - intros i Hi Hst. rewrite forallb_forall in Hs. specialize (Hs i). rewrite <-list_elem_of_In, Hst in Hs. by apply Hs.
Qed.

Lemma replicas_reached_witness :
  ∃ l t, get "s1" (p_run (foldl (tend "s1") (start (web 3 [])) [alone; alone])) =
           Some (web 3 [] <| sv_instances := l |> <| sv_updated_at := t |>) ∧ Z.of_nat (active l) = 3.
Proof.
  apply (replicas_reached "s1" (web 3 [])); [by vm_compute|done| |done].
  assert (H : ∀ v p, get "s1" (p_run p) = Some v → favourable alone v (sv_instances v) p →
            ∀ v', get "s1" (p_run p) = Some v' → favourable alone v' (sv_instances v') p) by (intros v p Hg Hf v' Hg'; rewrite Hg in Hg'; by injection Hg' as <-).
  split; [|split; [|done]].
  - apply (H (web 3 [])); [by vm_compute|]. apply alone_favourable; [by vm_compute..|].
    refine (bool_decide_unpack _ _). by vm_compute.
  - set (p := tend "s1" (start (web 3 [])) alone).
    assert (∃ v, get "s1" (p_run p) = Some v ∧ sv_runtime v = Docker ∧ existsb (eligible (λ _, true) v) [self_node] = true ∧
       forallb (λ i, i_standby i || exists_still (observe alone Docker i)) (sv_instances v) = true ∧
       bool_decide (NoDup ((i_container_name <$> sv_instances v) ++ (docker_name alone v <$> seq (p_uuids p) 2))) = true)
      as (v & H1 & H2 & H3 & H4 & H5) by (eexists; split_and!; by vm_compute).
    apply (H v); [done|]. apply alone_favourable; [done..|]. by apply bool_decide_eq_true in H5.
Defined.

(** The second node has gone; its instance has a standby here. *)
Definition gone_world : RunWorld := world 1000 [("ws-1", self_node); ("node-9", other 0)] [].
Definition pair : WolfRunService :=
  web 1 [mk_instance "node-9" "web-1" None "offline" 10 false; mk_instance "ws-1" "web-standby-2" None "running" 10 true].

Lemma failover_replaces_witness :
  sv_instances <$> get "s1" (p_run (fail_over_service gone_world (start pair) pair)) =
    Some [mk_instance "ws-1" "web-standby-2" None "running" 1000 false] ∧
  ∃ l, holds pair l (fail_over_service gone_world (start pair) pair) ∧
    serving gone_world l = (serving gone_world (sv_instances pair) + 1)%nat.
Proof.
  split; [by vm_compute|].
  destruct (failover_replaces gone_world (λ _ _, eq_refl) (start pair) pair) as (l & H1 & H2 & _);
    [done|by vm_compute|refine (bool_decide_unpack _ _); by vm_compute|].
  exists l. split; [done|]. rewrite H2. f_equal.
Defined.

Definition tombs : WolfRunState := store [] <| deleted := {["s1" := 900]} |>.
Lemma ghost_cleared_witness :
  let replies vs := [(merge_from_peer Stored vs tombs).1] in
  absent "s1" (services (p_run (broadcast_to_cluster alone replies (start (web 3 []))))).
Proof.
  intros replies. apply (ghost_cleared alone "s1" (start (web 3 [])) replies tombs Stored).
  - repeat constructor. set_solver.
  - by left.
  - by eexists.
  - by left.
Defined.

Lemma future_instance_dropped_witness :
  let i := mk_instance "ws-1" "web-1" None "lost" 1001 false in
  ∃ l', holds (web 1 [i]) l' (drop_lost alone (web 1 [i]) [i] (start (web 1 [i]))) ∧
    i_container_name i ∉ i_container_name <$> l'.
Proof.
  intros i. apply (future_instance_dropped alone); [by left|done|by cbn|done|].
  exists [i], 0. by vm_compute.
Defined.
End Cases.
