(* ===== verification/AtRest.v ===== *)
(** * Credentials at rest (src/src/at_rest_crypto.rs and the stores that use it)

    The fields of six stores that are sealed under keys derived from the
    cluster secret, their legacy obfuscation, its migration, and the pass that
    re-keys every store when the secret is rotated.  Text is its bytes. *)
From S2P Require Import Prelude Net.

(** ** What the code takes from ring and base64 *)
Class Crypto := {
  (** HKDF-SHA256: salt, secret, info *)
  hkdf : string → string → string → string;
  (** AES-256-GCM under a key and a nonce: the ciphertext with its tag *)
  seal : string → string → string → string;
  open_sealed : string → string → string → option string;
  b64 : string → string;
  unb64 : string → option string
}.

(** What is documented of them, with their probabilities taken as certain. *)
Class CryptoLaws `{Crypto} : Prop := {
  open_seal k n p : open_sealed k n (seal k n p) = Some p;
  open_other k k' n p : k ≠ k' → open_sealed k' n (seal k n p) = None;
  hkdf_inj salt info s s' : hkdf salt s info = hkdf salt s' info → s = s';
  tag_length k n p : (16 ≤ String.length (seal k n p))%nat;
  unb64_b64 x : unb64 (b64 x) = Some x;
  b64_alphabet x : contains_char ":"%char (b64 x) = false
}.

(** ** at_rest_crypto.rs *)
Section Fields.
Context `{Crypto}.
(** The bytes of a fresh nonce, if the system gives any. *)
Implicit Types (nonce : option string) (stored purpose : string).

Definition V2_PREFIX : string := "v2:".
Definition HKDF_DOMAIN : string := "wolfstack-at-rest-v2".
Definition is_v2_format stored : bool := String.prefix V2_PREFIX stored.

Definition derive_key_from (secret purpose : string) : string := hkdf HKDF_DOMAIN secret purpose.

Definition seal_with_key_bytes nonce (plaintext key : string) : option string :=
  n ← nonce; Some (V2_PREFIX +:+ b64 (n +:+ seal key n plaintext)).

(** The last step of the three schemes: nonce, then ciphertext and tag. *)
Definition open_payload (key payload : string) : option string :=
  if bool_decide (String.length payload < 12 + 16)%nat then None
  else open_sealed key (str_take 12 payload) (str_drop 12 payload).

Definition open_with_key_bytes stored (key : string) : option string :=
  if is_v2_format stored
  then payload ← unb64 (str_drop (String.length V2_PREFIX) stored); open_payload key payload
  else None.

Definition encrypt_with_secret nonce (plaintext purpose secret : string) : option string :=
  seal_with_key_bytes nonce plaintext (derive_key_from secret purpose).
Definition decrypt_v2_with_secret stored purpose (secret : string) : option string :=
  open_with_key_bytes stored (derive_key_from secret purpose).

(** The secret cached at start-up, and the one on disk. *)
Record KeyState := mk_keys { ks_cached : option string; ks_disk : string }.

Definition init (secret : string) (k : KeyState) : KeyState :=
  match ks_cached k with Some _ => k | None => mk_keys (Some secret) (ks_disk k) end.

Definition is_key_stale (k : KeyState) : bool :=
  match ks_cached k with Some c => negb (bool_decide (c = ks_disk k)) | None => false end.

Definition encrypt (k : KeyState) nonce (plaintext purpose : string) : option string :=
  if is_key_stale k then None
  else secret ← ks_cached k; encrypt_with_secret nonce plaintext purpose secret.

Definition decrypt_v2 (k : KeyState) stored purpose : option string :=
  secret ← ks_cached k; decrypt_v2_with_secret stored purpose secret.

Inductive ReencryptOutcome := Rekeyed (v : string) | Skipped | Untouched.

Definition reencrypt_v2_field nonce stored purpose (old new : string) : ReencryptOutcome :=
  if bool_decide (stored = "") || negb (is_v2_format stored) then Untouched else
  match decrypt_v2_with_secret stored purpose old with
  | None => Skipped
  | Some p => match encrypt_with_secret nonce p purpose new with Some v => Rekeyed v | None => Skipped end
  end.

Definition decrypt_or_legacy (k : KeyState) stored purpose (legacy : string → string) : string :=
  if is_v2_format stored then default "" (decrypt_v2 k stored purpose) else legacy stored.

(** ** The DNS, cloud and XO stores *)
Record StoreKind := mk_kind { xor_key : string; at_rest_purpose : string }.
Definition DNS : StoreKind := mk_kind "wolfstack-dns-v1" "dns-providers".
Definition CLOUD : StoreKind := mk_kind "wolfstack-cloud-v1" "cloud-providers".
Definition XO : StoreKind := mk_kind "wolfstack-xo-v1" "xo-tokens".

Definition xor_ascii (a b : ascii) : ascii := ascii_of_N (N.lxor (N_of_ascii a) (N_of_ascii b)).

Fixpoint xor_from (key : string) (i : nat) (s : string) : string :=
  match s with
  | EmptyString => ""
  | String c s =>
      let k := default "000"%char (String.get (i mod String.length key) key) in
      String (xor_ascii c k) (xor_from key (S i) s)
  end.

Definition obfuscate_v1_xor (kind : StoreKind) (plain : string) : string :=
  b64 (xor_from (xor_key kind) 0 plain).
Definition deobfuscate_v1_xor (kind : StoreKind) (encoded : string) : string :=
  match unb64 encoded with Some raw => xor_from (xor_key kind) 0 raw | None => "" end.

Definition obfuscate (kind : StoreKind) (k : KeyState) nonce (plain : string) : string :=
  match encrypt k nonce plain (at_rest_purpose kind) with
  | Some v2 => v2
  | None => obfuscate_v1_xor kind plain
  end.
Definition deobfuscate (kind : StoreKind) (k : KeyState) (encoded : string) : string :=
  decrypt_or_legacy k encoded (at_rest_purpose kind) (deobfuscate_v1_xor kind).

(** (migrated, already, errored), and the fields. *)
Fixpoint migrate_fields (kind : StoreKind) (k : KeyState) (nonces : nat → option string) (i : nat)
    (fields : list string) : (nat * nat * nat) * list string :=
  match fields with
  | [] => ((0, 0, 0)%nat, [])
  | f :: fields =>
      let '((m, a, e), rest) := migrate_fields kind k nonces (S i) fields in
      if is_v2_format f then ((m, S a, e), f :: rest) else
      let plaintext := deobfuscate_v1_xor kind f in
      if bool_decide (plaintext = "") then ((m, a, S e), f :: rest) else
      match encrypt k (nonces i) plaintext (at_rest_purpose kind) with
      | Some v2 => ((S m, a, e), v2 :: rest)
      | None => ((m, a, S e), f :: rest)
      end
  end.

(** A store's file, if there is one that parses, and the copies made before
    migrations. *)
Record StoreFile := mk_file { sf_fields : option (list string); sf_backups : list (list string) }.

Definition migrate_to_v2 (kind : StoreKind) (k : KeyState) (nonces : nat → option string)
    (copy_ok : bool) (w : Write) (f : StoreFile) : option (nat * nat * nat) * StoreFile :=
  let fields := default [] (sf_fields f) in
  let any_v1 := existsb (λ x, negb (is_v2_format x)) fields in
  let backup := any_v1 && bool_decide (is_Some (sf_fields f)) in
  if backup && negb copy_ok then (None, f) else
  let f := if backup then mk_file (sf_fields f) (fields :: sf_backups f) else f in
  let '((m, a, e), fields) := migrate_fields kind k nonces 0 fields in
  if bool_decide (0 < m)%nat then
    (if is_stored w then Some (m, a, e) else None, mk_file (overwrite w fields (sf_fields f)) (sf_backups f))
  else (Some (m, a, e), f).

(** (re-keyed, skipped), and the fields. *)
Fixpoint reencrypt_fields (kind : StoreKind) (old new : string) (nonces : nat → option string) (i : nat)
    (fields : list string) : (nat * nat) * list string :=
  match fields with
  | [] => ((0, 0)%nat, [])
  | f :: fields =>
      let '((r, s), rest) := reencrypt_fields kind old new nonces (S i) fields in
      match reencrypt_v2_field (nonces i) f (at_rest_purpose kind) old new with
      | Rekeyed v => ((S r, s), v :: rest)
      | Skipped => ((r, S s), f :: rest)
      | Untouched => ((r, s), f :: rest)
      end
  end.

(** What a pass over a store reports, the count or an error, and the fields
    its file has then, [None] if it was cut short; a pass that is [None]
    failed, and nothing is saved. *)
Definition keep (w : Write) (pass : option ((nat * nat) * list string)) (fields : list string) :
    option nat * option (list string) :=
  match pass with
  | None => (None, Some fields)
  | Some ((rekeyed, _), fields') =>
      if bool_decide (0 < rekeyed)%nat
      then (if is_stored w then Some rekeyed else None, overwrite w fields' (Some fields))
      else (Some rekeyed, Some fields)
  end.

(** A file that is written beside the old one and then renamed: if the write
    is cut short, the old one stays. *)
Definition renamed (w : Write) : Write := match w with CutShort => Unwritten | _ => w end.

(** Stores whose files load as empty when they do not parse. *)
Definition loaded (r : option nat * option (list string)) : option nat * list string := (r.1, default [] r.2).

Definition reencrypt_store (kind : StoreKind) (old new : string) (nonces : nat → option string)
    (w : Write) (fields : list string) : option nat * list string :=
  if bool_decide (old = new) then (Some 0%nat, fields)
  else loaded (keep w (Some (reencrypt_fields kind old new nonces 0 fields)) fields).

(** ** auth/oidc.rs, and the passwords of sql_connections/mod.rs *)
Definition OIDC_PREFIX : string := "encrypted:aes256:".
Definition oidc_key (cluster_secret : string) : string :=
  hkdf "wolfstack-oidc-secret-encryption" cluster_secret "oidc-client-secret".

Definition encrypt_secret nonce (plaintext cluster_secret : string) : option string :=
  if bool_decide (plaintext = "") then Some "" else
  if String.prefix "encrypted:" plaintext then Some plaintext else
  n ← nonce; Some (OIDC_PREFIX +:+ b64 (n +:+ seal (oidc_key cluster_secret) n plaintext)).

Definition decrypt_secret (ciphertext cluster_secret : string) : option string :=
  if bool_decide (ciphertext = "") then Some "" else
  if negb (String.prefix OIDC_PREFIX ciphertext) then Some ciphertext else
  combined ← unb64 (str_drop (String.length OIDC_PREFIX) ciphertext);
  open_payload (oidc_key cluster_secret) combined.

(** [None]: a re-encryption failed, and nothing is saved. *)
Fixpoint reencrypt_connections (old new : string) (nonces : nat → option string) (i : nat)
    (passwords : list string) : option ((nat * nat) * list string) :=
  match passwords with
  | [] => Some ((0, 0)%nat, [])
  | f :: fs =>
      let skip := '((r, s), rest) ← reencrypt_connections old new nonces (S i) fs; Some ((r, S s), f :: rest) in
      if bool_decide (f = "") then
        '((r, s), rest) ← reencrypt_connections old new nonces (S i) fs; Some ((r, s), f :: rest)
      else if negb (String.prefix "encrypted:" f) then skip else
      match decrypt_secret f old with
      | None => skip
      | Some p =>
          if bool_decide (p = f) then skip else
          v ← encrypt_secret (nonces i) p new;
          '((r, s), rest) ← reencrypt_connections old new nonces (S i) fs; Some ((S r, s), v :: rest)
      end
  end.

Fixpoint reencrypt_providers (old new : string) (nonces : nat → option string) (i : nat)
    (client_secrets : list string) : option ((nat * nat) * list string) :=
  match client_secrets with
  | [] => Some ((0, 0)%nat, [])
  | f :: fs =>
      let skip := '((r, s), rest) ← reencrypt_providers old new nonces (S i) fs; Some ((r, S s), f :: rest) in
      if bool_decide (f = "") then
        '((r, s), rest) ← reencrypt_providers old new nonces (S i) fs; Some ((r, s), f :: rest)
      else if negb (String.prefix OIDC_PREFIX f) then skip else
      match decrypt_secret f old with
      | None => skip
      | Some p =>
          v ← encrypt_secret (nonces i) p new;
          '((r, s), rest) ← reencrypt_providers old new nonces (S i) fs; Some ((S r, s), v :: rest)
      end
  end.

(** ** The vault of integrations/mod.rs *)
Definition derive_vault_key (cluster_secret : string) : string :=
  hkdf "wolfstack-integrations-v1" cluster_secret "credential-encryption".

Definition vault_seal nonce (plaintext key : string) : option string :=
  n ← nonce; Some (n +:+ seal key n plaintext).

Definition reencrypt_vault_blob nonce (encoded old_key new_key : string) : option string :=
  raw ← unb64 encoded;
  plaintext ← open_payload old_key raw;
  resealed ← vault_seal nonce plaintext new_key;
  Some (b64 resealed).

Fixpoint reencrypt_vault (old_key new_key : string) (nonces : nat → option string) (i : nat)
    (blobs : list string) : (nat * nat) * list string :=
  match blobs with
  | [] => ((0, 0)%nat, [])
  | f :: fs =>
      let '((r, s), rest) := reencrypt_vault old_key new_key nonces (S i) fs in
      match reencrypt_vault_blob (nonces i) f old_key new_key with
      | Some v => ((S r, s), v :: rest)
      | None => ((r, S s), f :: rest)
      end
  end.

(** ** Every store of a node (secret_rotation.rs)

    A file that may be missing, or not parse. *)
Inductive JsonFile := Missing | Unparseable | Fields (l : list string).

Record Vaults := mk_vaults {
  v_sql : list string; v_oidc : JsonFile; v_vault : JsonFile;
  v_dns : list string; v_cloud : list string; v_xo : list string
}.

Inductive StoreName := Sql | Oidc | Integrations | Dns | Cloud | Xo.

(** What becomes of each store's save, and the nonces it gets. *)
Record PassIo := mk_pass_io { io_save : StoreName → Write; io_nonces : StoreName → nat → option string }.

Definition keep_json (w : Write) (pass : list string → option ((nat * nat) * list string)) (f : JsonFile) :
    option nat * JsonFile :=
  match f with
  | Missing => (Some 0%nat, f)
  | Unparseable => (None, f)
  | Fields l => let '(r, l') := keep w (pass l) l in
                (r, match l' with Some l' => Fields l' | None => Unparseable end)
  end.

(** What each store reports, and the stores; [None] is an error.  The SQL
    connections, the vault and the XO tokens are saved by a rename, the other
    three in place by paths.rs's [write_secure]. *)
Definition reencrypt_all_at_rest (io : PassIo) (old new : string) (d : Vaults) :
    list (StoreName * option nat) * Vaults :=
  if bool_decide (old = new) then ([], d) else
  let n := io_nonces io in
  let w := io_save io in
  let sql := loaded (keep (renamed (w Sql)) (reencrypt_connections old new (n Sql) 0 (v_sql d)) (v_sql d)) in
  let oidc := keep_json (w Oidc) (reencrypt_providers old new (n Oidc) 0) (v_oidc d) in
  let vault := keep_json (renamed (w Integrations))
    (λ l, Some (reencrypt_vault (derive_vault_key old) (derive_vault_key new) (n Integrations) 0 l)) (v_vault d) in
  let dns := reencrypt_store DNS old new (n Dns) (w Dns) (v_dns d) in
  let cloud := reencrypt_store CLOUD old new (n Cloud) (w Cloud) (v_cloud d) in
  let xo := reencrypt_store XO old new (n Xo) (renamed (w Xo)) (v_xo d) in
  ([(Sql, sql.1); (Oidc, oidc.1); (Integrations, vault.1); (Dns, dns.1); (Cloud, cloud.1); (Xo, xo.1)],
   mk_vaults sql.2 oidc.2 vault.2 dns.2 cloud.2 xo.2).
End Fields.
