(* ===== verification/AtRestProps.v ===== *)
(** * Credentials at rest: nothing is lost

    Obfuscation, migration and re-keying keep every credential readable. *)
From S2P Require Import Prelude Net AtRest.

Section Fields.
Context `{CryptoLaws}.
Implicit Types (nonce : option string) (f p old new : string).

(** Nonces have twelve bytes. *)
Definition nonce_ok nonce : Prop := ∀ n, nonce = Some n → String.length n = 12%nat.

Lemma open_payload_seal k n p :
  String.length n = 12%nat → open_payload k (n +:+ seal k n p) = Some p.
Proof.
  intros Hn. unfold open_payload. rewrite length_str_app, Hn, bool_decide_false.
  - rewrite <-Hn, str_take_app, str_drop_app. apply open_seal.
  - pose proof (tag_length k n p). lia.
Qed.

Lemma open_payload_other k k' n p :
  k ≠ k' → String.length n = 12%nat → open_payload k' (n +:+ seal k n p) = None.
Proof.
  intros Hk Hn. unfold open_payload. case_bool_decide; [done|].
  rewrite <-Hn, str_take_app, str_drop_app. by apply open_other.
Qed.

(** ** The three schemes *)
Lemma open_seal_v2 nonce p k v :
  nonce_ok nonce → seal_with_key_bytes nonce p k = Some v →
  is_v2_format v = true ∧ open_with_key_bytes v k = Some p ∧ ∀ k', k ≠ k' → open_with_key_bytes v k' = None.
Proof.
  unfold seal_with_key_bytes. intros Hn. destruct nonce as [n|]; [|done]. intros [= <-]. specialize (Hn n eq_refl).
  assert (Hp : ∀ x, is_v2_format (V2_PREFIX +:+ x) = true) by (intros x; apply prefix_app).
  split_and!; [apply Hp|..]; [|intros k' Hk]; unfold open_with_key_bytes; rewrite Hp, str_drop_app, unb64_b64; cbn.
  - by apply open_payload_seal.
  - by apply open_payload_other.
Qed.

Lemma decrypt_encrypt nonce p s v :
  nonce_ok nonce → p ≠ "" → String.prefix "encrypted:" p = false → encrypt_secret nonce p s = Some v →
  decrypt_secret v s = Some p.
Proof.
  unfold encrypt_secret. intros Hn Hp Hpre. rewrite bool_decide_false, Hpre by done.
  destruct nonce as [n|]; [|done]. intros [= <-]. unfold decrypt_secret.
  rewrite bool_decide_false by done. rewrite prefix_app, str_drop_app, unb64_b64. cbn.
  apply open_payload_seal. by apply Hn.
Qed.

Lemma v2_not_base64 x : is_v2_format (b64 x) = false.
Proof.
  unfold is_v2_format, V2_PREFIX. destruct (String.prefix "v2:" (b64 x)) eqn:E; [|done].
  apply prefix_spec in E as [r E]. pose proof (b64_alphabet x) as Hc. rewrite E in Hc. by cbn in Hc.
Qed.

(** ** Re-keying a field *)

(** What the code reads back from a field of each scheme under a secret. *)
Definition read_v2 (kind : StoreKind) f (secret : string) : option string :=
  decrypt_v2_with_secret f (at_rest_purpose kind) secret.
Definition read_vault f (secret : string) : option string :=
  raw ← unb64 f; open_payload (derive_vault_key secret) raw.

(** A field is as it was, or is read under the new secret as it was under the
    old one. *)
Definition safe (read : string → string → option string) old new f f' : Prop :=
  f' = f ∨ ∃ p, read f old = Some p ∧ read f' new = Some p.
Definition full (read : string → string → option string) old new f f' : Prop :=
  ∀ p, read f old = Some p → read f' new = Some p.

(** What one field becomes: always safe, and all there when there is a nonce. *)
Definition rekeys (read : string → string → option string) old new nonce f f' : Prop :=
  safe read old new f f' ∧ (is_Some nonce → full read old new f f').

Lemma rekeys_same read old new nonce f : read f old = None → rekeys read old new nonce f f.
Proof. intros Hr. split; [by left|]. intros _ p. by rewrite Hr. Qed.

Lemma rekeys_moved read old new nonce f f' p :
  read f old = Some p → read f' new = Some p → rekeys read old new nonce f f'.
Proof. intros H1 H2. split; [right; by exists p|]. intros _ q. rewrite H1. by intros [= <-]. Qed.

Lemma rekeys_no_nonce read old new f : rekeys read old new None f f.
Proof. split; [by left|]. by intros [? [=]]. Qed.

(** A pass over the fields of a store re-keys each of them, and counts those it
    changes. *)
Definition pass_rekeys (read : string → string → option string) old new (nonces : nat → option string)
    (fields : list string) (count : nat) (fields' : list string) : Prop :=
  Forall2 (safe read old new) fields fields' ∧
  ((∀ i, is_Some (nonces i)) → Forall2 (full read old new) fields fields') ∧
  (count = 0%nat → fields' = fields).

Lemma pass_cons read old new nonces i f f' fs fs' (n n' : nat) :
  rekeys read old new (nonces i) f f' → (f' = f ∧ n' = n) ∨ n' = S n → pass_rekeys read old new nonces fs n fs' →
  pass_rekeys read old new nonces (f :: fs) n' (f' :: fs').
Proof.
  intros [H1 H2] Hc [H3 [H4 H5]]. split_and!.
  - by constructor.
  - intros Hn. constructor; [by apply H2|by apply H4].
  - intros ->. destruct Hc as [[-> <-]|]; [by rewrite H5|done].
Qed.

Lemma pass_nil read old new nonces : pass_rekeys read old new nonces [] 0 [].
Proof. split_and!; by constructor. Qed.

Lemma reencrypt_fields_rekeys kind old new nonces i fields :
  (∀ i, nonce_ok (nonces i)) →
  let '((r, _), fields') := reencrypt_fields kind old new nonces i fields in
  pass_rekeys (read_v2 kind) old new nonces fields r fields'.
Proof.
  intros Hn. revert i. induction fields as [|f fs IH]; intros i; [apply pass_nil|]. cbn [reencrypt_fields].
  specialize (IH (S i)). destruct (reencrypt_fields kind old new nonces (S i) fs) as [[r s] rest].
  assert (match reencrypt_v2_field (nonces i) f (at_rest_purpose kind) old new with
          | Rekeyed v => rekeys (read_v2 kind) old new (nonces i) f v
          | _ => rekeys (read_v2 kind) old new (nonces i) f f
          end) as Hf.
  { unfold reencrypt_v2_field. destruct (bool_decide (f = "") || negb (is_v2_format f)) eqn:E.
    - apply rekeys_same. unfold read_v2, decrypt_v2_with_secret, open_with_key_bytes.
      apply orb_true_iff in E as [->%bool_decide_eq_true|E%negb_true_iff]; [done|by rewrite E].
    - destruct (decrypt_v2_with_secret f (at_rest_purpose kind) old) as [p|] eqn:Ed; [|by apply rekeys_same].
      destruct (encrypt_with_secret _ _ _ _) as [v|] eqn:Ee.
      + apply (rekeys_moved _ _ _ _ _ _ p); [done|]. by apply (open_seal_v2 _ _ _ _ (Hn i)) in Ee as (_ & ? & _).
      + assert (nonces i = None) as -> by (unfold encrypt_with_secret, seal_with_key_bytes in Ee; by destruct (nonces i)).
        apply rekeys_no_nonce. }
  destruct (reencrypt_v2_field _ _ _ _ _); apply (pass_cons _ _ _ _ i _ _ _ _ r); auto.
Qed.

Lemma reencrypt_vault_rekeys old new nonces i blobs :
  (∀ i, nonce_ok (nonces i)) →
  let '((r, _), blobs') := reencrypt_vault (derive_vault_key old) (derive_vault_key new) nonces i blobs in
  pass_rekeys read_vault old new nonces blobs r blobs'.
Proof.
  intros Hn. revert i. induction blobs as [|f fs IH]; intros i; [apply pass_nil|]. cbn [reencrypt_vault].
  specialize (IH (S i)). destruct (reencrypt_vault _ _ nonces (S i) fs) as [[r s] rest].
  destruct (reencrypt_vault_blob _ _ _ _) as [v|] eqn:E; apply (pass_cons _ _ _ _ i _ _ _ _ r); auto;
    unfold reencrypt_vault_blob, read_vault in *.
  - destruct (unb64 f) as [raw|] eqn:Er; [|done]. cbn in E.
    destruct (open_payload (derive_vault_key old) raw) as [p|] eqn:Eo; [|done]. cbn in E. unfold vault_seal in E.
    destruct (nonces i) as [n|] eqn:Ei; [|done]. injection E as <-.
    apply (rekeys_moved _ _ _ _ _ _ p); [by rewrite Er|]. rewrite unb64_b64. cbn. apply open_payload_seal. by apply (Hn i).
  - destruct (unb64 f) as [raw|] eqn:Er; [|apply rekeys_same; by rewrite Er]. cbn in E.
    destruct (open_payload (derive_vault_key old) raw) as [p|] eqn:Eo; [|apply rekeys_same; by rewrite Er].
    cbn in E. unfold vault_seal in E. destruct (nonces i) as [n|] eqn:Ei; [done|]. apply rekeys_no_nonce.
Qed.

(** A text field is sealed at most once: [encrypt_secret] leaves alone what
    looks sealed already. *)
Definition sealed_once old f : Prop :=
  String.prefix OIDC_PREFIX f = true → ∀ p, decrypt_secret f old = Some p → String.prefix OIDC_PREFIX p = false.

Lemma decrypt_plain f s : String.prefix OIDC_PREFIX f = false → decrypt_secret f s = Some f.
Proof. intros Hf. unfold decrypt_secret. case_bool_decide as E; [by rewrite E|]. by rewrite Hf. Qed.

Lemma rekeys_plain old new nonce f : String.prefix OIDC_PREFIX f = false → rekeys decrypt_secret old new nonce f f.
Proof. intros Hf. by apply (rekeys_moved _ _ _ _ _ _ f); apply decrypt_plain. Qed.

Lemma rekeys_text old new nonce f p v :
  nonce_ok nonce → sealed_once old f → decrypt_secret f old = Some p → encrypt_secret nonce p new = Some v →
  rekeys decrypt_secret old new nonce f v.
Proof.
  intros Hn Ho Hd He. apply (rekeys_moved _ _ _ _ _ _ p); [done|].
  assert (Hp : String.prefix OIDC_PREFIX p = false).
  { destruct (String.prefix OIDC_PREFIX f) eqn:E; [by apply Ho|].
    rewrite decrypt_plain in Hd by done. by injection Hd as ->. }
  destruct (decide (p = "")) as [->|Hne]; [by injection He as <-|].
  destruct (String.prefix "encrypted:" p) eqn:E; [|by apply (decrypt_encrypt nonce)].
  unfold encrypt_secret in He. rewrite bool_decide_false, E in He by done. injection He as <-. by apply decrypt_plain.
Qed.

Lemma encrypt_None nonce p s : encrypt_secret nonce p s = None → nonce = None.
Proof. unfold encrypt_secret. repeat case_match; try done. by destruct nonce. Qed.

(** A pass over text fields re-keys them, unless it stops for want of a nonce. *)
Definition text_pass old new nonces (fs : list string) (r : option ((nat * nat) * list string)) : Prop :=
  match r with
  | Some ((n, _), fs') => pass_rekeys decrypt_secret old new nonces fs n fs'
  | None => ∃ i, nonces i = None
  end.

Lemma text_pass_cons old new nonces i f f' fs r g :
  rekeys decrypt_secret old new (nonces i) f f' → (∀ a b, (f' = f ∧ (g a b).1 = a) ∨ (g a b).1 = S a) →
  text_pass old new nonces fs r →
  text_pass old new nonces (f :: fs) ('((a, b), rest) ← r; Some (g a b, f' :: rest)).
Proof.
  intros Hf Hg. destruct r as [[[a b] rest]|]; cbn; [|done]. specialize (Hg a b).
  destruct (g a b) as [a' b']. by apply (pass_cons _ _ _ _ i _ _ _ _ a).
Qed.

Lemma connections_rekey old new nonces i fs :
  (∀ i, nonce_ok (nonces i)) → Forall (sealed_once old) fs →
  text_pass old new nonces fs (reencrypt_connections old new nonces i fs).
Proof.
  intros Hn Ho. revert i. induction Ho as [|f fs Hf Ho IH]; intros i; [apply pass_nil|]. cbn [reencrypt_connections].
  case_bool_decide as Ee; [subst; apply (text_pass_cons _ _ _ i _ _ _ _ (λ r s, (r, s))); [by apply rekeys_plain|by intros; cbn; auto|done]|].
  destruct (String.prefix "encrypted:" f) eqn:Ep; cbn [negb].
  - destruct (decrypt_secret f old) as [p|] eqn:Ed;
      [|apply (text_pass_cons _ _ _ i _ _ _ _ (λ r s, (r, S s))); [by apply rekeys_same|by intros; cbn; auto|done]].
    case_bool_decide as Epf.
    { subst p. apply (text_pass_cons _ _ _ i _ _ _ _ (λ r s, (r, S s))); [|by intros; cbn; auto|done]. apply rekeys_plain.
      destruct (String.prefix OIDC_PREFIX f) eqn:E; [|done]. by rewrite <-(Hf E f Ed). }
    destruct (encrypt_secret (nonces i) p new) as [v|] eqn:Ev; cbn; [|exists i; by apply encrypt_None in Ev].
    apply (text_pass_cons _ _ _ i _ _ _ _ (λ r s, (S r, s))); [by apply (rekeys_text _ _ _ _ p)|by intros; cbn; auto|done].
  - apply (text_pass_cons _ _ _ i _ _ _ _ (λ r s, (r, S s))); [|by intros; cbn; auto|done]. apply rekeys_plain.
    destruct (String.prefix OIDC_PREFIX f) eqn:E; [|done]. apply prefix_spec in E as [r ->].
    pose proof (prefix_app "encrypted:" ("aes256:" +:+ r)) as Ex. change ("encrypted:" +:+ ("aes256:" +:+ r)) with (OIDC_PREFIX +:+ r) in Ex. congruence.
Qed.

Lemma providers_rekey old new nonces i fs :
  (∀ i, nonce_ok (nonces i)) → Forall (sealed_once old) fs →
  text_pass old new nonces fs (reencrypt_providers old new nonces i fs).
Proof.
  intros Hn Ho. revert i. induction Ho as [|f fs Hf Ho IH]; intros i; [apply pass_nil|]. cbn [reencrypt_providers].
  case_bool_decide as Ee; [subst; apply (text_pass_cons _ _ _ i _ _ _ _ (λ r s, (r, s))); [by apply rekeys_plain|by intros; cbn; auto|done]|].
  destruct (String.prefix OIDC_PREFIX f) eqn:Ep; cbn [negb].
  - destruct (decrypt_secret f old) as [p|] eqn:Ed;
      [|apply (text_pass_cons _ _ _ i _ _ _ _ (λ r s, (r, S s))); [by apply rekeys_same|by intros; cbn; auto|done]].
    destruct (encrypt_secret (nonces i) p new) as [v|] eqn:Ev; cbn; [|exists i; by apply encrypt_None in Ev].
    apply (text_pass_cons _ _ _ i _ _ _ _ (λ r s, (S r, s))); [by apply (rekeys_text _ _ _ _ p)|by intros; cbn; auto|done].
  - apply (text_pass_cons _ _ _ i _ _ _ _ (λ r s, (r, S s))); [by apply rekeys_plain|by intros; cbn; auto|done].
Qed.

(** ** Every store of a node *)
Lemma Forall2_same {A} (R : A → A → Prop) (l : list A) : (∀ x, R x x) → Forall2 R l l.
Proof. intros HR. induction l; by constructor. Qed.

(** What a file that was not cut short has. *)
Definition leaves (R : string → string → Prop) (fs : list string) (o : option (list string)) : Prop :=
  ∃ l, o = Some l ∧ Forall2 R fs l.

Lemma leaves_same (R : string → string → Prop) fs : (∀ f, R f f) → leaves R fs (Some fs).
Proof. intros HR. exists fs. split; [done|by apply Forall2_same]. Qed.

Lemma leaves_loaded (R : string → string → Prop) fs (r : option nat * option (list string)) :
  leaves R fs r.2 → Forall2 R fs (loaded r).2.
Proof. intros (l & Hl & HR). unfold loaded. cbn. by rewrite Hl. Qed.

Lemma keep_safe read old new nonces w fs r s fs' :
  w ≠ CutShort → pass_rekeys read old new nonces fs r fs' →
  leaves (safe read old new) fs (keep w (Some ((r, s), fs')) fs).2.
Proof.
  intros Hw [Hs _]. unfold keep. case_bool_decide; [|by apply leaves_same; left].
  destruct w; cbn; [by exists fs'|by apply leaves_same; left|done].
Qed.

Lemma keep_full read old new nonces fs r s fs' :
  (∀ i, is_Some (nonces i)) → pass_rekeys read old new nonces fs r fs' →
  leaves (full read old new) fs (keep Stored (Some ((r, s), fs')) fs).2.
Proof.
  intros Hn (_ & Hf & Hz). exists fs'. split; [|by apply Hf]. unfold keep. case_bool_decide; [done|]. cbn.
  by rewrite (Hz ltac:(lia)).
Qed.

Lemma keep_text_safe old new nonces w fs r :
  w ≠ CutShort → text_pass old new nonces fs r → leaves (safe decrypt_secret old new) fs (keep w r fs).2.
Proof.
  intros Hw. destruct r as [[[n s] fs']|]; [by apply keep_safe|]. intros _. by apply leaves_same; left.
Qed.

Lemma keep_text_full old new nonces fs r :
  (∀ i, is_Some (nonces i)) → text_pass old new nonces fs r →
  leaves (full decrypt_secret old new) fs (keep Stored r fs).2.
Proof.
  intros Hn. destruct r as [[[n s] fs']|]; [by apply keep_full|]. intros [i Hi]. destruct (Hn i). congruence.
Qed.

Definition in_json (R : list string → list string → Prop) (a b : JsonFile) : Prop :=
  match a, b with Fields l, Fields l' => R l l' | _, _ => a = b end.

(** The stores of a node, each with what its fields are read by. *)
Definition vaults_rel (R : (string → string → option string) → string → string → Prop) (d d' : Vaults) : Prop :=
  Forall2 (R decrypt_secret) (v_sql d) (v_sql d') ∧
  in_json (Forall2 (R decrypt_secret)) (v_oidc d) (v_oidc d') ∧
  in_json (Forall2 (R read_vault)) (v_vault d) (v_vault d') ∧
  Forall2 (R (read_v2 DNS)) (v_dns d) (v_dns d') ∧
  Forall2 (R (read_v2 CLOUD)) (v_cloud d) (v_cloud d') ∧
  Forall2 (R (read_v2 XO)) (v_xo d) (v_xo d').

Definition json_fields (f : JsonFile) : list string := match f with Fields l => l | _ => [] end.

(** Text fields are sealed at most once, and the generator's nonces have twelve
    bytes. *)
Definition vaults_ok (io : PassIo) old (d : Vaults) : Prop :=
  Forall (sealed_once old) (v_sql d) ∧ Forall (sealed_once old) (json_fields (v_oidc d)) ∧
  ∀ st i, nonce_ok (io_nonces io st i).

Lemma store_pass kind old new nonces w fs (R : string → string → Prop) :
  old ≠ new → (∀ i, nonce_ok (nonces i)) →
  (∀ r s fs', pass_rekeys (read_v2 kind) old new nonces fs r fs' → leaves R fs (keep w (Some ((r, s), fs')) fs).2) →
  Forall2 R fs (reencrypt_store kind old new nonces w fs).2.
Proof.
  intros Hne Hn HP. unfold reencrypt_store. rewrite bool_decide_false by done.
  pose proof (reencrypt_fields_rekeys kind old new nonces 0 fs Hn) as H'.
  destruct (reencrypt_fields _ _ _ _ _ _) as [[r s] fs']. by apply leaves_loaded, HP.
Qed.

Lemma vault_pass old new nonces w fs (P : option (list string) → Prop) :
  (∀ i, nonce_ok (nonces i)) →
  (∀ r s fs', pass_rekeys read_vault old new nonces fs r fs' → P (keep w (Some ((r, s), fs')) fs).2) →
  P (keep w (Some (reencrypt_vault (derive_vault_key old) (derive_vault_key new) nonces 0 fs)) fs).2.
Proof.
  intros Hn HP. pose proof (reencrypt_vault_rekeys old new nonces 0 fs Hn) as H'.
  destruct (reencrypt_vault _ _ _ _ _) as [[r s] fs']. by apply HP.
Qed.

Lemma json_pass (R : string → string → Prop) w pass (j : JsonFile) :
  (∀ l, j = Fields l → leaves R l (keep w (pass l) l).2) → in_json (Forall2 R) j (keep_json w pass j).2.
Proof.
  intros HR. unfold keep_json. destruct j as [| |l]; [done..|]. specialize (HR l eq_refl).
  destruct (keep w (pass l) l) as [r l']. destruct HR as (l2 & E & HR). cbn in E. by rewrite E.
Qed.

Lemma vaults_same (R : (string → string → option string) → string → string → Prop) d :
  (∀ read f, R read f f) → vaults_rel R d d.
Proof.
  intros HR. unfold vaults_rel, in_json. split_and!; repeat case_match; try done; try (by apply Forall2_same; intros; apply HR).
Qed.

(** The three stores whose files are written in place. *)
Definition in_place (st : StoreName) : bool := match st with Oidc | Dns | Cloud => true | _ => false end.

Lemma renamed_whole w : renamed w ≠ CutShort.
Proof. by destruct w. Qed.

(** C34: Re-keying loses nothing as long as no save of the OIDC, DNS or cloud
    file, which are written in place, is cut short: whatever else fails (a
    save that leaves the old file, a save of the three stores that rename, the
    generator, the parsing of a file), every credential of every store of the
    node is exactly as it was, or reads under the new secret as it did under
    the old one. *)
Theorem rekey_loss_free io old new d :
  vaults_ok io old d → (∀ st, in_place st = true → io_save io st ≠ CutShort) →
  vaults_rel (λ read, safe read old new) d (reencrypt_all_at_rest io old new d).2.
Proof.
  intros (Hs & Ho & Hn) Hw. unfold reencrypt_all_at_rest. case_bool_decide as Hne.
  { apply vaults_same. intros read f. by left. }
  unfold vaults_rel; cbn [snd v_sql v_oidc v_vault v_dns v_cloud v_xo]. split_and!.
  - apply leaves_loaded, (keep_text_safe _ _ (io_nonces io Sql)); [apply renamed_whole|]. by apply connections_rekey.
  - apply json_pass. intros l El. rewrite El in Ho. apply (keep_text_safe _ _ (io_nonces io Oidc)); [by apply Hw|].
    by apply providers_rekey.
  - apply json_pass. intros l _. apply vault_pass; [done|]. intros. eapply keep_safe; [apply renamed_whole|done].
  - apply store_pass; [done..|]. intros. by eapply keep_safe; [apply Hw|].
  - apply store_pass; [done..|]. intros. by eapply keep_safe; [apply Hw|].
  - apply store_pass; [done..|]. intros. eapply keep_safe; [apply renamed_whole|done].
Qed.

(** Re-keying misses nothing: with every file readable and saved and the
    generator at work, every credential that the old secret reads, the new
    secret reads as the same. *)
Theorem rekey_complete io old new d :
  vaults_ok io old d → old ≠ new →
  (∀ st, io_save io st = Stored) → (∀ st i, is_Some (io_nonces io st i)) →
  vaults_rel (λ read, full read old new) d (reencrypt_all_at_rest io old new d).2.
Proof.
  intros (Hs & Ho & Hn) Hne Hok Hsome. unfold reencrypt_all_at_rest. rewrite bool_decide_false by done.
  unfold vaults_rel; cbn [snd v_sql v_oidc v_vault v_dns v_cloud v_xo]. rewrite !Hok. split_and!.
  - apply leaves_loaded, (keep_text_full _ _ (io_nonces io Sql)); [done|]. by apply connections_rekey.
  - apply json_pass. intros l El. rewrite El in Ho. apply (keep_text_full _ _ (io_nonces io Oidc)); [done|]. by apply providers_rekey.
  - apply json_pass. intros l _. apply vault_pass; [done|]. intros. by eapply keep_full.
  - apply store_pass; [done..|]. intros. by eapply keep_full.
  - apply store_pass; [done..|]. intros. by eapply keep_full.
  - apply store_pass; [done..|]. intros. by eapply keep_full.
Qed.

(** ** Writing, reading and migrating a credential *)
Lemma log2_byte (n : N) : (n < 256)%N → (N.log2 n < 8)%N.
Proof.
  intros Hn. destruct (decide (n = 0%N)) as [->|]; [done|]. apply N.log2_lt_pow2; [lia|done].
Qed.

Lemma xor_ascii_twice a b : xor_ascii (xor_ascii a b) b = a.
Proof.
  unfold xor_ascii. rewrite N_ascii_embedding.
  - by rewrite N.lxor_assoc, N.lxor_nilpotent, N.lxor_0_r, ascii_N_embedding.
  - pose proof (log2_byte _ (N_ascii_bounded a)). pose proof (log2_byte _ (N_ascii_bounded b)).
    destruct (decide (N.lxor (N_of_ascii a) (N_of_ascii b) = 0%N)) as [->|]; [done|].
    apply (N.log2_lt_pow2 _ 8); [lia|]. eapply N.le_lt_trans; [apply N.log2_lxor|]. lia.
Qed.

Lemma xor_from_twice key i s : xor_from key i (xor_from key i s) = s.
Proof. revert i. induction s as [|c s IH]; intros i; [done|]. cbn [xor_from]. by rewrite xor_ascii_twice, IH. Qed.

Lemma legacy_roundtrip kind p : deobfuscate_v1_xor kind (obfuscate_v1_xor kind p) = p.
Proof. unfold deobfuscate_v1_xor, obfuscate_v1_xor. by rewrite unb64_b64, xor_from_twice. Qed.

(** The next start caches what is on the disk. *)
Definition restart (k : KeyState) : KeyState := init (ks_disk k) (mk_keys None (ks_disk k)).

(** A credential can be read back as soon as it is written and after the
    next restart, whether the secret is being rotated or not, and whether or
    not the generator works. *)
Theorem written_stays_readable kind k nonce p :
  nonce_ok nonce →
  let f := obfuscate kind k nonce p in
  deobfuscate kind k f = p ∧ deobfuscate kind (restart k) f = p.
Proof.
  intros Hn f. unfold f, obfuscate, deobfuscate, decrypt_or_legacy.
  destruct (encrypt k nonce p (at_rest_purpose kind)) as [v|] eqn:E.
  - unfold encrypt in E. destruct (is_key_stale k) eqn:Es; [done|]. unfold is_key_stale in Es.
    destruct (ks_cached k) as [c|] eqn:Ec; [|done]. bool_props. subst c. cbn in E.
    destruct (open_seal_v2 _ _ _ _ Hn E) as (-> & Ho & _). unfold decrypt_v2, restart, init. rewrite Ec. cbn.
    unfold decrypt_v2_with_secret. by rewrite Ho.
  - unfold obfuscate_v1_xor. rewrite v2_not_base64. split; apply legacy_roundtrip.
Qed.

(** Until a node is restarted after a rotation, the DNS, cloud and XO
    credentials that were re-keyed read as empty on it. *)
Theorem rekeyed_dark_until_restart kind k old nonce f p v :
  nonce_ok nonce → ks_cached k = Some old → ks_disk k ≠ old →
  read_v2 kind f old = Some p → reencrypt_v2_field nonce f (at_rest_purpose kind) old (ks_disk k) = Rekeyed v →
  deobfuscate kind k v = "" ∧ deobfuscate kind (restart k) v = p.
Proof.
  intros Hn Hc Hne Hr He. unfold reencrypt_v2_field in He. destruct (_ || _); [done|].
  unfold read_v2 in Hr. rewrite Hr in He. destruct (encrypt_with_secret _ _ _ _) as [w|] eqn:E; [|done].
  injection He as ->. destruct (open_seal_v2 _ _ _ _ Hn E) as (Hv & Ho & Hx).
  unfold deobfuscate, decrypt_or_legacy, decrypt_v2, restart, init. rewrite Hv, Hc. cbn.
  unfold decrypt_v2_with_secret. rewrite Ho. split; [|done]. rewrite Hx; [done|].
  intros Hk. apply Hne. by eapply hkdf_inj.
Qed.

Lemma migrate_fields_spec kind k nonces i fields :
  (∀ i, nonce_ok (nonces i)) →
  let '((m, a, e), fields') := migrate_fields kind k nonces i fields in
  (m + a + e = length fields)%nat ∧ (m = 0%nat → fields' = fields) ∧
  Forall2 (λ f f', deobfuscate kind k f' = deobfuscate kind k f ∧
                   (f' = f ∨ is_v2_format f' = true)) fields fields'.
Proof.
  intros Hn. revert i. induction fields as [|f fs IH]; intros i; cbn [migrate_fields]; [done|].
  specialize (IH (S i)). destruct (migrate_fields kind k nonces (S i) fs) as [[[m a] e] rest].
  destruct IH as (Hlen & Hm & Hall).
  assert (Hsame : Forall2 (λ f f', deobfuscate kind k f' = deobfuscate kind k f ∧ (f' = f ∨ is_v2_format f' = true))
                    (f :: fs) (f :: rest)) by (constructor; [by split; [|left]|done]).
  destruct (is_v2_format f) eqn:Ef; [split_and!; [cbn; lia|by intros ->%Hm|done]|].
  case_bool_decide as Ep; [split_and!; [cbn; lia|by intros ->%Hm|done]|].
  destruct (encrypt k (nonces i) (deobfuscate_v1_xor kind f) (at_rest_purpose kind)) as [v|] eqn:Ev;
    [|split_and!; [cbn; lia|by intros ->%Hm|done]].
  split_and!; [cbn; lia|done|]. constructor; [|done].
  assert (obfuscate kind k (nonces i) (deobfuscate_v1_xor kind f) = v) as Ho by (unfold obfuscate; by rewrite Ev).
  destruct (written_stays_readable kind k (nonces i) (deobfuscate_v1_xor kind f) (Hn i)) as [Hw _]. rewrite Ho in Hw.
  split; [rewrite Hw; unfold deobfuscate at 1, decrypt_or_legacy; by rewrite Ef|]. right.
  unfold encrypt in Ev. destruct (is_key_stale k); [done|]. destruct (ks_cached k); [|done]. cbn in Ev.
  by apply (open_seal_v2 _ _ _ _ (Hn i)) in Ev as [? _].
Qed.

Lemma migrate_none kind k nonces i fields :
  existsb (λ x, negb (is_v2_format x)) fields = false →
  (migrate_fields kind k nonces i fields).1.1.1 = 0%nat.
Proof.
  revert i. induction fields as [|f fs IH]; intros i; cbn [existsb migrate_fields]; [done|].
  intros [Hf Hfs]%orb_false_iff. specialize (IH (S i) Hfs). apply negb_false_iff in Hf.
  destruct (migrate_fields kind k nonces (S i) fs) as [[[m a] e] rest]. by rewrite Hf.
Qed.

(** Migration away from the legacy format changes no credential: each reads
    as before, whatever fails half-way, unless the write is cut short; and the
    file that is replaced or cut short has been copied first. *)
Theorem migration_loses_nothing kind k nonces copy_ok w file :
  (∀ i, nonce_ok (nonces i)) →
  let file' := (migrate_to_v2 kind k nonces copy_ok w file).2 in
  (w ≠ CutShort →
   Forall2 (λ f f', deobfuscate kind k f' = deobfuscate kind k f ∧ (f' = f ∨ is_v2_format f' = true))
     (default [] (sf_fields file)) (default [] (sf_fields file'))) ∧
  (sf_fields file' = sf_fields file ∨
   ∃ l, sf_fields file = Some l ∧ sf_backups file' = l :: sf_backups file).
Proof.
  intros Hn file'. unfold file', migrate_to_v2.
  pose proof (migrate_fields_spec kind k nonces 0 (default [] (sf_fields file)) Hn) as Hs.
  pose proof (migrate_none kind k nonces 0 (default [] (sf_fields file))) as Hz.
  destruct (migrate_fields kind k nonces 0 (default [] (sf_fields file))) as [[[m a] e] fs'].
  destruct Hs as (_ & Hm & Hall). destruct (existsb _ _) eqn:Ev; cbn [fst] in Hz; [|rewrite Hz by done].
  - destruct (sf_fields file) as [l|] eqn:Ef; [|by destruct fs']. cbn.
    destruct copy_ok; cbn; [|rewrite Ef; split; [intros _; by apply Forall2_same; intros; split; [|left]|by left]].
    case_bool_decide; cbn; [destruct w; cbn|]; (split; [intros Hw|eauto]); try done;
      apply Forall2_same; intros; (split; [done|by left]).
  - cbn. split; [intros _; apply Forall2_same; intros; split; [done|by left]|by left].
Qed.

(** A save in place that is cut short loses the store: the next start loads an
    empty one, although nothing else failed. *)
Theorem cut_save_loses_store io old new d :
  (∀ i, nonce_ok (io_nonces io Dns i)) → (∀ i, is_Some (io_nonces io Dns i)) → io_save io Dns = CutShort →
  old ≠ new → Exists (λ f, ∃ p, read_v2 DNS f old = Some p ∧ f ≠ "" ∧ is_v2_format f = true) (v_dns d) →
  v_dns (reencrypt_all_at_rest io old new d).2 = [].
Proof.
  intros Hn Hs Hw Hne Hex. unfold reencrypt_all_at_rest. rewrite bool_decide_false by done. cbn [snd v_dns].
  rewrite Hw. unfold reencrypt_store. rewrite bool_decide_false by done.
  destruct (reencrypt_fields DNS old new (io_nonces io Dns) 0 (v_dns d)) as [[r s] fs] eqn:E.
  assert (0 < r)%nat as Hr; [|unfold keep; by rewrite bool_decide_true].
  apply Nat.neq_0_lt_0. revert E Hex. generalize (v_dns d) as l. clear -Hn Hs. intros l. generalize 0%nat at 1 as i. intros i.
  revert i r s fs. induction l as [|f l IH]; intros i r s fs; [intros _ Hex; by inversion Hex|].
  cbn [reencrypt_fields]. destruct (reencrypt_fields DNS old new (io_nonces io Dns) (S i) l) as [[r' s'] rest] eqn:El.
  intros E Hex. specialize (IH (S i) r' s' rest El). apply Exists_cons in Hex as [(p & Hp & Hf & Hv)|Hex].
  - unfold reencrypt_v2_field in E. rewrite bool_decide_false, Hv in E by done. cbn [orb negb] in E.
    unfold read_v2 in Hp. rewrite Hp in E. destruct (Hs i) as [n Hi]. rewrite Hi in E.
    unfold encrypt_with_secret, seal_with_key_bytes in E. cbn in E. injection E; intros; lia.
  - specialize (IH Hex). destruct (reencrypt_v2_field _ _ _ _ _); injection E; intros; lia.
Qed.
End Fields.

(** ** A toy cipher with the laws, and the statements above under it *)
Module Toy.
Fixpoint frame (k p : string) : string :=
  match k with EmptyString => String "0" p | String c k => String "1" (String c (frame k p)) end.
Fixpoint unframe (s : string) : option (string * string) :=
  match s with
  | String "0" p => Some ("", p)
  | String "1" (String c s) => '(k, p) ← unframe s; Some (String c k, p)
  | _ => None
  end.
Definition nibble (n : nat) : ascii := ascii_of_nat (97 + n).
Definition value (a : ascii) : nat := nat_of_ascii a - 97.
Fixpoint hex (s : string) : string :=
  match s with
  | EmptyString => ""
  | String c s => String (nibble (nat_of_ascii c / 16)) (String (nibble (nat_of_ascii c mod 16)) (hex s))
  end.
Fixpoint unhex (s : string) : option string :=
  match s with
  | EmptyString => Some ""
  | String a (String b s) => String (ascii_of_nat (value a * 16 + value b)) <$> unhex s
  | _ => None
  end.
Definition TAG : string := "================".

#[export] Instance toy : Crypto := {|
  hkdf salt secret info := salt +:+ info +:+ secret;
  seal k n p := TAG +:+ frame k p;
  open_sealed k n c := '(k', p) ← unframe (str_drop 16 c); if bool_decide (k = k') then Some p else None;
  b64 := hex; unb64 := unhex
|}.

Lemma unframe_frame k p : unframe (frame k p) = Some (k, p).
Proof. induction k as [|c k IH]; [done|]. cbn. by rewrite IH. Qed.

Lemma unhex_hex s : unhex (hex s) = Some s.
Proof.
  induction s as [|c s IH]; [done|]. cbn [hex unhex]. rewrite IH. cbn. do 2 f_equal.
  destruct c as [[] [] [] [] [] [] [] []]; by vm_compute.
Qed.

Lemma hex_alphabet s : contains_char ":"%char (hex s) = false.
Proof.
  induction s as [|c s IH]; [done|]. cbn [hex contains_char]. rewrite IH, orb_false_r.
  destruct c as [[] [] [] [] [] [] [] []]; by vm_compute.
Qed.

#[export] Instance toy_laws : CryptoLaws.
Proof.
  split; intros; cbn [hkdf seal open_sealed b64 unb64 toy].
  - change (str_drop 16 (TAG +:+ frame k p)) with (frame k p). rewrite unframe_frame. cbn. by rewrite bool_decide_true.
  - change (str_drop 16 (TAG +:+ frame k p)) with (frame k p). rewrite unframe_frame. cbn. by rewrite bool_decide_false.
  - cbn in H. induction salt as [|c a IH]; [|by injection H as ?%IH].
    induction info as [|c a IH]; [done|by injection H as ?%IH].
  - rewrite length_str_app. cbn. lia.
  - apply unhex_hex.
  - apply hex_alphabet.
Qed.

Definition old : string := "old".
Definition new : string := "new".
Definition nonces (i : nat) : option string := Some "123456789012".
Definition healthy : PassIo := mk_pass_io (λ _, Stored) (λ _, nonces).
Definition keys (cached : string) : KeyState := mk_keys (Some cached) old.
Definition dns_field (p : string) : string := obfuscate DNS (keys old) (nonces 0) p.
Definition node : Vaults :=
  mk_vaults [default "" (encrypt_secret (nonces 0) "sqlpw" old); "plain"] Missing (Fields ["junk"])
    [dns_field "token"; obfuscate_v1_xor DNS "older"] [] [].

Lemma nonces_ok i : nonce_ok (nonces i).
Proof. by intros n [= <-]. Qed.

Lemma node_ok : vaults_ok healthy old node.
Proof.
  split; [|split; [constructor|intros; apply nonces_ok]].
  constructor; [|by constructor; [|constructor]].
  intros _ p E. vm_compute in E. injection E as <-. done.
Qed.

Lemma rekey_loss_free_witness :
  vaults_rel (λ read, safe read old new) node
    (reencrypt_all_at_rest (mk_pass_io (λ st, if in_place st then Unwritten else CutShort) (λ _, nonces)) old new node).2.
Proof.
  apply rekey_loss_free; [|by intros []]. destruct node_ok as (H1 & H2 & _). split_and!; [exact H1|exact H2|intros; apply nonces_ok].
Defined.

Lemma cut_save_loses_store_witness :
  v_dns node ≠ [] ∧ v_dns (reencrypt_all_at_rest (mk_pass_io (λ _, CutShort) (λ _, nonces)) old new node).2 = [].
Proof.
  split; [done|]. apply cut_save_loses_store; [apply nonces_ok|intros; by eexists|done|done|].
  left. exists "token". split_and!; by vm_compute.
Defined.

Lemma rekey_complete_witness :
  vaults_rel (λ read, full read old new) node (reencrypt_all_at_rest healthy old new node).2 ∧
  read_v2 DNS (dns_field "token") old = Some "token".
Proof.
  split; [|by vm_compute]. apply rekey_complete; [exact node_ok|done|done|]. intros. by eexists.
Defined.

Lemma written_stays_readable_witness :
  deobfuscate DNS (keys old) (dns_field "token") = "token" ∧ is_v2_format (dns_field "token") = true.
Proof.
  destruct (written_stays_readable DNS (keys old) (nonces 0) "token" (nonces_ok 0)) as [H _].
  split; [exact H|by vm_compute].
Defined.

Lemma rekeyed_dark_until_restart_witness :
  let k := mk_keys (Some old) new in
  ∃ v, reencrypt_v2_field (nonces 0) (dns_field "token") (at_rest_purpose DNS) old new = Rekeyed v ∧
    deobfuscate DNS k v = "" ∧ deobfuscate DNS (restart k) v = "token".
Proof.
  intros k. eexists. split; [reflexivity|].
  by apply (rekeyed_dark_until_restart DNS k old (nonces 0) (dns_field "token")); [apply nonces_ok|..].
Defined.

Lemma migration_loses_nothing_witness :
  let file := mk_file (Some [obfuscate_v1_xor DNS "token"]) [] in
  let file' := (migrate_to_v2 DNS (keys old) nonces true Stored file).2 in
  sf_fields file' ≠ sf_fields file ∧
  (sf_fields file' = sf_fields file ∨ ∃ l, sf_fields file = Some l ∧ sf_backups file' = l :: sf_backups file).
Proof.
  intros file file'. split; [by vm_compute|].
  apply (migration_loses_nothing DNS (keys old) nonces true Stored file). apply nonces_ok.
Defined.
End Toy.
