(* ===== verification/Rotation.v ===== *)
(** * Rotation of the cluster secret (src/src/secret_rotation.rs)

    The secret's files and its acceptance (src/src/auth/mod.rs), the handlers
    a peer runs, and the coordinator's run through preflight, receive, commit
    and rollback over calls that may be lost or whose answers may be. *)
From S2P Require Import Prelude Net AtRest.

Definition CLUSTER_SECRET : string :=
  "wsk_a7f3b9e2c1d4f6a8b0e3d5c7f9a1b3d5e7f9a1c3b5d7e9f0a2b4c6d8e0f1a3".
Definition PROTOCOL_VERSION : Z := 1.
Definition BACKUP_RETENTION_COUNT : nat := 5.

(** ** A node

    The secret's file, its .pending and .bak siblings (the latter by the second
    their names spell, which sorts them alike), the secret the process started
    with, and the stores sealed under it. *)
Record RotNode := mk_rot_node {
  active : option string;
  pending : option string;
  backups : gmap Z string;
  memory : string;
  stores : Vaults
}.
#[global] Instance RotNode_eta : Eta RotNode := λ n,
  mk_rot_node (active n) (pending n) (backups n) (memory n) (stores n).

(** What became of a write: done, or failed and the file left as it was
    ([None]) or with some contents. *)
Inductive WriteResult := Written | Failed (left_behind : option string).

Definition write_file (r : WriteResult) (contents : string) (file : option string) : option string :=
  match r with Written => Some contents | Failed None => file | Failed (Some s) => Some s end.
Definition written (r : WriteResult) : bool := match r with Written => true | _ => false end.

(** A node's circumstances: the two variables of its environment, whether the
    caller's address is in its nodes.json and its signature passes the gate,
    its clock, its protocol version and its disk. *)
Record Env := mk_env {
  e_reject_default : bool; e_accept_default : bool; e_peer_recorded : bool; e_signature_ok : bool;
  e_clock : Z; e_version : Z;
  e_write_pending : WriteResult; e_backup : WriteResult; e_rename : bool; e_put_back : WriteResult;
  e_restore : WriteResult; e_unlink : bool; e_unlink_backup : Z → bool; e_pass : PassIo
}.

(** ** The secret and its acceptance (auth/mod.rs) *)
Definition load_cluster_secret (n : RotNode) : string :=
  match active n with
  | Some s => if bool_decide (trim s = "") then CLUSTER_SECRET else trim s
  | None => CLUSTER_SECRET
  end.

Definition has_custom_cluster_secret (n : RotNode) : bool :=
  match active n with
  | Some s => negb (bool_decide (trim s = "")) && negb (bool_decide (trim s = CLUSTER_SECRET))
  | None => false
  end.

Definition byte_at (s : string) (i : nat) : Z :=
  match String.get i s with Some c => Z.of_N (N_of_ascii c) | None => 0 end.

Definition validate_cluster_secret (provided expected : string) : bool :=
  if bool_decide (provided = "") || bool_decide (expected = "") then false else
  let a := String.length provided in
  let b := String.length expected in
  let acc := foldl Z.lor 0 (to_le 8 (Z.lxor (Z.of_nat a) (Z.of_nat b))) in
  foldl (λ acc i, Z.lor acc (Z.lxor (byte_at provided i) (byte_at expected i))) acc (seq 0 (Nat.max a b)) =? 0.

Definition default_secret_accepted_from (e : Env) (n : RotNode) : bool :=
  if e_reject_default e then false
  else if e_accept_default e then true
  else if has_custom_cluster_secret n then false
  else e_peer_recorded e.

Definition validate_inter_node_secret_from (e : Env) (n : RotNode) (provided : string) : bool :=
  if validate_cluster_secret provided CLUSTER_SECRET then default_secret_accepted_from e n
  else validate_cluster_secret provided (memory n) || validate_cluster_secret provided (load_cluster_secret n).

(** A call that carries a secret. *)
Definition require_auth (e : Env) (n : RotNode) (provided : string) : bool :=
  validate_inter_node_secret_from e n provided && e_signature_ok e.

Definition restart (n : RotNode) : RotNode := n <| memory := load_cluster_secret n |>.

(** ** The handlers of a peer *)
Inductive RotError :=
| Forbidden | BadShape | BadFingerprint | WriteFailed | NoPending | FingerprintMismatch
| BackupFailed | RenameFailed | UnlinkFailed | NoBackup | RestoreFailed | BadStage.

Definition lower_hex (c : ascii) : bool := char_between 48 57 c || char_between 97 102 c.

Definition valid_secret_shape (s : string) : bool :=
  String.prefix "wsk_" s
  && bool_decide (String.length (str_drop 4 s) = 64%nat) && all_chars lower_hex (str_drop 4 s).

(** Up to the first line break. *)
Fixpoint first_line (s : string) : string :=
  match s with
  | String c s' => if bool_decide (c = "010"%char) || bool_decide (c = "013"%char) then "" else String c (first_line s')
  | EmptyString => ""
  end.

Section Handlers.
Context `{Crypto} (sha256_hex : string → string).
Implicit Types (e : Env) (n : RotNode) (provided : string).

(** The outcome, and the node. *)
Abbreviation Handled A := (res RotError A * RotNode)%type.

Definition rotate_preflight e provided n : Handled Z :=
  (if require_auth e n provided then Ok (e_version e) else Err Forbidden, n).

(** The initiator keeps a candidate of its own; [None]: not an operator. *)
Definition rotate_propose e (operator : bool) (new_secret : string) n : option (res RotError (string * string)) * RotNode :=
  if negb operator then (None, n) else
  let n := n <| pending := write_file (e_write_pending e) new_secret (pending n) |> in
  (Some (if written (e_write_pending e) then Ok (new_secret, sha256_hex new_secret) else Err WriteFailed), n).

Definition rotate_receive e provided (new_secret fingerprint : string) n : Handled string :=
  if negb (require_auth e n provided) then (Err Forbidden, n) else
  if negb (valid_secret_shape new_secret) then (Err BadShape, n) else
  let local_fp := sha256_hex new_secret in
  if negb (bool_decide (local_fp = fingerprint)) then (Err BadFingerprint, n) else
  let n := n <| pending := write_file (e_write_pending e) new_secret (pending n) |> in
  (if written (e_write_pending e) then Ok local_fp else Err WriteFailed, n).

(** The newest five, and those that cannot be removed. *)
Definition prune_old_backups e n : RotNode :=
  let ts := merge_sort Z.le (elements (dom (backups n))) in
  if bool_decide (length ts ≤ BACKUP_RETENTION_COUNT)%nat then n else
  n <| backups := foldl (λ m t, if e_unlink_backup e t then delete t m else m) (backups n)
                    (take (length ts - BACKUP_RETENTION_COUNT) ts) |>.

(** The copy of the active file, if there is one: whether to go on. *)
Definition back_up e n : bool * RotNode :=
  match active n with
  | Some a =>
      let b := write_file (e_backup e) a (backups n !! e_clock e) in
      (written (e_backup e),
       match b with Some s => n <| backups := <[e_clock e := s]> (backups n) |> | None => n end)
  | None => (true, n)
  end.

Definition rotate_commit e provided (fingerprint : string) n : Handled () :=
  if negb (require_auth e n provided) then (Err Forbidden, n) else
  let old_secret := load_cluster_secret n in
  match pending n with
  | None => (Err NoPending, n)
  | Some pending_bytes =>
      let pending_trimmed := first_line pending_bytes in
      if negb (bool_decide (sha256_hex pending_trimmed = fingerprint)) then (Err FingerprintMismatch, n) else
      let '(ok, n) := back_up e n in
      if negb ok then (Err BackupFailed, n) else
      if negb (e_rename e) then
        (Err RenameFailed,
         match backups n !! e_clock e, active n with
         | Some b, None => n <| active := write_file (e_put_back e) b None |>
         | _, _ => n
         end)
      else
        let n := n <| active := Some pending_bytes |> <| pending := None |> in
        let n := if bool_decide (pending_trimmed = "") then n
                 else n <| stores := (reencrypt_all_at_rest (e_pass e) old_secret pending_trimmed (stores n)).2 |> in
        (Ok (), prune_old_backups e n)
  end.

Definition newest_backup n : option string :=
  t ← last (merge_sort Z.le (elements (dom (backups n)))); backups n !! t.

Definition rotate_rollback e provided (stage : string) n : Handled () :=
  if negb (require_auth e n provided) then (Err Forbidden, n) else
  if bool_decide (stage = "pending") then
    match pending n with
    | Some _ => if e_unlink e then (Ok (), n <| pending := None |>) else (Err UnlinkFailed, n)
    | None => (Ok (), n)
    end
  else if bool_decide (stage = "committed") then
    match newest_backup n with
    | None => (Err NoBackup, n)
    | Some b => (if written (e_restore e) then Ok () else Err RestoreFailed,
                 n <| active := write_file (e_restore e) b (active n) |>)
    end
  else (Err BadStage, n).

(** ** Calls

    What becomes of the request to one URL of a peer. *)
Inductive Delivery := NoRequest | NoReply | Answered.

(** The URLs in turn, until one answers with success: the answer, if any, and
    the peer. *)
Fixpoint call {A} (handler : RotNode → Handled A) (urls : list Delivery) n : option A * RotNode :=
  match urls with
  | [] => (None, n)
  | NoRequest :: urls => call handler urls n
  | NoReply :: urls => call handler urls (handler n).2
  | Answered :: urls =>
      let '(r, n) := handler n in
      match r with Ok a => (Some a, n) | _ => call handler urls n end
  end.

(** One call to each of the peers: who answered with success, who did not. *)
Abbreviation Fleet := (gmap string RotNode).
Definition each {A} (f : string → RotNode → option A * RotNode) (peers : list string) (s : Fleet) :
    list string * list string * Fleet :=
  foldl (λ '(good, bad, s) id,
    match s !! id with
    | None => (good, bad ++ [id], s)
    | Some n => let '(r, n) := f id n in
                match r with
                | Some _ => (good ++ [id], bad, <[id := n]> s)
                | None => (good, bad ++ [id], <[id := n]> s)
                end
    end) ([], [], s) peers.

(** ** The coordinator *)
Inductive Stage := Preflight | Receive | RollbackPending | Commit | RollbackCommitted.
Inductive Outcome :=
| Unauthorised | Busy | StaleCoordinator | PreflightAbort | ReceiveAbort | SelfPendingAbort | CommitAbort
| SelfBackupFailed | SelfRenameFailed | Rotated.

Record RotWorld := mk_rot_world {
  rt_operator : bool; rt_busy : bool;
  rt_peers : list string;
  rt_env : Stage → string → Env;
  rt_urls : Stage → string → list Delivery;
  rt_self : Env;
  rt_secret : string
}.

Definition rollback (w : RotWorld) (stage : Stage) (name secret : string) (ids : list string) (s : Fleet) : Fleet :=
  (each (λ id, call (rotate_rollback (rt_env w stage id) secret name) (rt_urls w stage id)) ids s).2.

Definition compatible (r : option Z * RotNode) : option () * RotNode :=
  (v ← r.1; if v =? PROTOCOL_VERSION then Some () else None, r.2).

(** The coordinator's own commit. *)
Definition self_commit (w : RotWorld) (old_secret : string) (self : RotNode) : Outcome * RotNode :=
  let e := rt_self w in
  let '(ok, self) := back_up e self in
  if negb ok then (SelfBackupFailed, self) else
  match pending self with
  | Some p =>
      if e_rename e then
        let self := prune_old_backups e (self <| active := Some p |> <| pending := None |>) in
        (Rotated, self <| stores := (reencrypt_all_at_rest (e_pass e) old_secret (rt_secret w) (stores self)).2 |>)
      else (SelfRenameFailed, self)
  | None => (SelfRenameFailed, self)
  end.

Definition coordinated_rotate (w : RotWorld) (self : RotNode) (s : Fleet) : Outcome * RotNode * Fleet :=
  if negb (rt_operator w) then (Unauthorised, self, s) else
  if rt_busy w then (Busy, self, s) else
  if negb (bool_decide (load_cluster_secret self = memory self)) then (StaleCoordinator, self, s) else
  let old_secret := memory self in
  let new_secret := rt_secret w in
  let fingerprint := sha256_hex new_secret in
  let '(_, failed, s) :=
    each (λ id n, compatible (call (rotate_preflight (rt_env w Preflight id) old_secret) (rt_urls w Preflight id) n))
      (rt_peers w) s in
  if negb (bool_decide (failed = [])) then (PreflightAbort, self, s) else
  let '(received, failed, s) :=
    each (λ id, call (rotate_receive (rt_env w Receive id) old_secret new_secret fingerprint) (rt_urls w Receive id))
      (rt_peers w) s in
  if negb (bool_decide (failed = [])) then
    (ReceiveAbort, self <| pending := if e_unlink (rt_self w) then None else pending self |>,
     rollback w RollbackPending "pending" old_secret received s) else
  let self := self <| pending := write_file (e_write_pending (rt_self w)) new_secret (pending self) |> in
  if negb (written (e_write_pending (rt_self w))) then
    (SelfPendingAbort, self, rollback w RollbackPending "pending" old_secret received s) else
  let '(committed, failed, s) :=
    each (λ id, call (rotate_commit (rt_env w Commit id) old_secret fingerprint) (rt_urls w Commit id)) (rt_peers w) s in
  if negb (bool_decide (failed = [])) then
    (CommitAbort, self <| pending := if e_unlink (rt_self w) then None else pending self |>,
     rollback w RollbackCommitted "committed" old_secret committed s) else
  let '(o, self) := self_commit w old_secret self in
  (o, self, s).
End Handlers.
