(* ===== verification/RotationProps.v ===== *)
(** * Rotation of the cluster secret: what a run leaves behind *)
From S2P Require Import Prelude Net Digits AtRest AtRestProps Rotation.

(** ** The comparison of secrets *)
Lemma fold_lor_zero {A} (f : A → Z) xs acc :
  foldl (λ acc x, Z.lor acc (f x)) acc xs = 0 ↔ acc = 0 ∧ ∀ x, x ∈ xs → f x = 0.
Proof.
  revert acc. induction xs as [|x xs IH]; intros acc; cbn; [set_solver|].
  rewrite IH, Z.lor_eq_0_iff. set_solver.
Qed.

Lemma get_lt s i : (i < String.length s)%nat → is_Some (String.get i s).
Proof.
  revert i. induction s as [|c s IH]; intros [|i] Hi; cbn in *; [lia|lia|by eexists|]. apply IH. lia.
Qed.

Lemma string_ext a b :
  String.length a = String.length b → (∀ i, (i < String.length a)%nat → String.get i a = String.get i b) → a = b.
Proof.
  revert b. induction a as [|c a IH]; intros [|d b]; cbn [String.length]; try done. intros [= Hl] Hi.
  f_equal; [by injection (Hi 0%nat ltac:(lia))|]. apply IH; [done|]. intros i Hlt. apply (Hi (S i)). lia.
Qed.

Lemma of_le_zero l : (∀ x, x ∈ l → x = 0) → of_le l = 0.
Proof. induction l as [|x l IH]; cbn; [done|]. intros Hl. rewrite IH, (Hl x) by set_solver. done. Qed.

(** The constant-time comparison is equality of non-empty secrets. *)
Lemma compare_exact a b :
  Z.of_nat (String.length a) < 2 ^ 64 → Z.of_nat (String.length b) < 2 ^ 64 →
  validate_cluster_secret a b = true ↔ a = b ∧ a ≠ "".
Proof.
  intros Ha Hb. unfold validate_cluster_secret. case_bool_decide as Ea; [subst; naive_solver|].
  case_bool_decide as Eb; [subst; naive_solver|]. cbn [orb]. rewrite Z.eqb_eq, fold_lor_zero.
  change (foldl Z.lor 0) with (foldl (λ acc x, Z.lor acc (id x)) 0). rewrite fold_lor_zero. unfold id. split.
  - intros [[_ Hlen] Hbytes]. split; [|done].
    assert (String.length a = String.length b) as Hl.
    { apply of_le_zero in Hlen. rewrite of_le_to_le_small in Hlen.
      - apply Z.lxor_eq in Hlen. lia.
      - split; [apply Z.lxor_nonneg; split; lia|]. change (256 ^ Z.of_nat 8) with (2 ^ 64).
        destruct (decide (Z.lxor (Z.of_nat (String.length a)) (Z.of_nat (String.length b)) = 0)) as [->|]; [done|].
        apply Z.log2_lt_cancel. rewrite Z.log2_pow2 by lia. eapply Z.le_lt_trans; [apply Z.log2_lxor; lia|].
        apply Z.max_lub_lt; (eapply Z.le_lt_trans; [apply Z.log2_le_mono, Z.lt_le_pred; eassumption|done]). }
    apply string_ext; [done|]. intros i Hi. specialize (Hbytes i). rewrite elem_of_seq in Hbytes.
    specialize (Hbytes ltac:(lia)). apply Z.lxor_eq in Hbytes. unfold byte_at in Hbytes.
    destruct (get_lt a i Hi) as [x Hx]. destruct (get_lt b i ltac:(lia)) as [y Hy]. rewrite Hx, Hy in *.
    apply N2Z.inj in Hbytes. f_equal. by rewrite <-(ascii_N_embedding x), <-(ascii_N_embedding y), Hbytes.
  - intros [-> _]. rewrite Z.lxor_nilpotent. split; [|intros i _; apply Z.lxor_nilpotent].
    split; [done|]. intros x. cbn. set_solver.
Qed.

Definition secret_ok (s : string) : Prop := s ≠ "" ∧ Z.of_nat (String.length s) < 2 ^ 64.

Lemma validate_same s : secret_ok s → validate_cluster_secret s s = true.
Proof. intros [? ?]. by apply compare_exact. Qed.

Lemma validate_other a b : secret_ok a → secret_ok b → a ≠ b → validate_cluster_secret a b = false.
Proof.
  intros [? ?] [? ?] Hne. destruct (validate_cluster_secret a b) eqn:E; [|done]. by apply compare_exact in E as [? _].
Qed.

Lemma default_ok : secret_ok CLUSTER_SECRET.
Proof. by split. Qed.

(** ** Which secrets a node accepts *)

(** Its own memory, as long as that is not the published default. *)
Lemma accepts_memory e n s :
  secret_ok s → s ≠ CLUSTER_SECRET → memory n = s → e_signature_ok e = true → require_auth e n s = true.
Proof.
  intros Hs Hne Hm He. unfold require_auth, validate_inter_node_secret_from.
  rewrite (validate_other s CLUSTER_SECRET) by (done || apply default_ok). by rewrite Hm, validate_same, He.
Qed.

Lemma refuses_other e n s :
  secret_ok s → s ≠ CLUSTER_SECRET → secret_ok (memory n) → secret_ok (load_cluster_secret n) →
  memory n ≠ s → load_cluster_secret n ≠ s → require_auth e n s = false.
Proof.
  intros Hs Hne Hm Hl H1 H2. unfold require_auth, validate_inter_node_secret_from.
  rewrite (validate_other s CLUSTER_SECRET) by (done || apply default_ok).
  rewrite (validate_other s (memory n)), (validate_other s (load_cluster_secret n)) by (done || congruence). done.
Qed.

Lemma accepts_disk e n :
  secret_ok (load_cluster_secret n) → load_cluster_secret n ≠ CLUSTER_SECRET → e_signature_ok e = true →
  require_auth e n (load_cluster_secret n) = true.
Proof.
  intros Hs Hne He. unfold require_auth, validate_inter_node_secret_from.
  rewrite (validate_other _ CLUSTER_SECRET) by (done || apply default_ok). by rewrite (validate_same _ Hs), orb_true_r, He.
Qed.

Lemma refuses_default e n :
  e_accept_default e = false → has_custom_cluster_secret n = true → require_auth e n CLUSTER_SECRET = false.
Proof.
  intros He Hc. unfold require_auth, validate_inter_node_secret_from. rewrite (validate_same _ default_ok).
  unfold default_secret_accepted_from. rewrite He, Hc. by destruct (e_reject_default e).
Qed.

(** ** Text of a generated secret *)
Lemma first_line_visible s : all_chars (λ c, negb (is_ascii_space c)) s = true → first_line s = s.
Proof.
  induction s as [|c s IH]; cbn [all_chars first_line]; [done|]. intros [Hc Hs]%andb_true_iff. rewrite IH by done.
  case_bool_decide as E1; [by subst|]. by case_bool_decide as E2; [subst|].
Qed.

Lemma shape_visible s : valid_secret_shape s = true → all_chars (λ c, negb (is_ascii_space c)) s = true ∧ secret_ok s.
Proof.
  unfold valid_secret_shape. rewrite !andb_true_iff, bool_decide_eq_true. intros [[Hp Hl] Hh].
  apply prefix_spec in Hp as [r ->]. rewrite (str_drop_app "wsk_") in *. split.
  - change ("wsk_" +:+ r) with (String "w" (String "s" (String "k" (String "_" r)))). cbn [all_chars].
    rewrite (all_chars_impl lower_hex _ r); [done| |done]. intros c. unfold lower_hex, is_ascii_space, char_between.
    intros Hc. rewrite negb_orb. apply andb_true_iff. split.
    + apply negb_true_iff, andb_false_iff. apply orb_true_iff in Hc as [Hc|Hc]; bool_props; right; apply Z.leb_gt; lia.
    + apply negb_true_iff, bool_decide_eq_false. by intros ->.
  - split; [done|]. rewrite length_str_app, Hl. done.
Qed.

Lemma load_active n s :
  active n = Some s → valid_secret_shape s = true → load_cluster_secret n = s.
Proof.
  intros Ha Hs. apply shape_visible in Hs as [Hv [Hne _]]. unfold load_cluster_secret.
  rewrite Ha, (trim_visible s Hv). by rewrite bool_decide_false.
Qed.

Lemma custom_active n s :
  active n = Some s → valid_secret_shape s = true → s ≠ CLUSTER_SECRET → has_custom_cluster_secret n = true.
Proof.
  intros Ha Hs Hne. apply shape_visible in Hs as [Hv [Hnil _]]. unfold has_custom_cluster_secret.
  by rewrite Ha, (trim_visible s Hv), !bool_decide_false.
Qed.

(** ** Calls *)
Section Calls.
Context {A : Type} (handler : RotNode → res RotError A * RotNode).

(** What the handler keeps, a call keeps. *)
Lemma call_keeps (P : RotNode → Prop) urls n :
  (∀ n, P n → P (handler n).2) → P n → P (call handler urls n).2.
Proof.
  intros Hh. revert n. induction urls as [|[] urls IH]; intros n Hn; cbn [call]; [done|by apply IH|by apply IH, Hh|].
  specialize (Hh n Hn). destruct (handler n) as [[a| |] n']; cbn in *; by try apply IH.
Qed.

(** What failures keep, a call whose answers are not lost keeps until it
    succeeds. *)
Lemma call_answered (P : RotNode → Prop) urls n :
  NoReply ∉ urls → (∀ n, P n → match handler n with (Ok _, _) => True | (_, n') => P n' end) → P n →
  match call handler urls n with
  | (None, n') => P n'
  | (Some a, n') => ∃ n0, P n0 ∧ handler n0 = (Ok a, n')
  end.
Proof.
  intros Hu Hh. revert n. induction urls as [|u urls IH]; intros n Hn; cbn [call]; [done|].
  apply not_elem_of_cons in Hu as [Hu Hus]. destruct u; [by apply IH|done|].
  specialize (Hh n Hn). destruct (handler n) as [[a| |] n'] eqn:E; [by exists n|by apply IH|by apply IH].
Qed.

Lemma call_success urls n a n' :
  call handler urls n = (Some a, n') → ∃ n0, handler n0 = (Ok a, n').
Proof.
  revert n. induction urls as [|[] urls IH]; intros n; cbn [call]; [done|by apply IH|by apply IH|].
  destruct (handler n) as [[b| |] n0] eqn:E; [|by apply IH..]. intros [= -> ->]. by exists n.
Qed.

(** A handler that always succeeds has run when an answer got through. *)
Lemma call_gets_through (P Q : RotNode → Prop) urls n :
  Answered ∈ urls → (∀ n, P n → ∃ a n', handler n = (Ok a, n') ∧ P n' ∧ Q n') → P n →
  Q (call handler urls n).2.
Proof.
  intros Hu Hh. revert n. induction urls as [|u urls IH]; intros n Hn; [by apply not_elem_of_nil in Hu|].
  apply elem_of_cons in Hu as [<-|Hu]; cbn [call].
  - destruct (Hh n Hn) as (a & n' & -> & _ & ?). done.
  - destruct u; [by apply IH|..]; destruct (Hh n Hn) as (a & n' & Hr & Hp & ?); rewrite Hr; [by apply IH|done].
Qed.
End Calls.

(** ** One call to each peer *)
Section Each.
Context {A : Type} (f : string → RotNode → option A * RotNode).
Implicit Types (peers : list string) (s : gmap string RotNode).

Lemma each_snoc peers id s :
  each f (peers ++ [id]) s =
  let '(good, bad, s) := each f peers s in
  match s !! id with
  | None => (good, bad ++ [id], s)
  | Some n => match (f id n).1 with
              | Some _ => (good ++ [id], bad, <[id := (f id n).2]> s)
              | None => (good, bad ++ [id], <[id := (f id n).2]> s)
              end
  end.
Proof.
  unfold each. rewrite foldl_snoc. destruct (foldl _ _ peers) as [[good bad] s0].
  destruct (s0 !! id) as [n|]; [|done]. by destruct (f id n) as [[?|] ?].
Qed.

(** What a call makes of a peer, and what it tells of it. *)
Lemma each_spec peers s :
  NoDup peers →
  let '(good, bad, s') := each f peers s in
  (∀ id, s' !! id = if decide (id ∈ peers) then (λ n, (f id n).2) <$> s !! id else s !! id) ∧
  (∀ id, id ∈ good ↔ id ∈ peers ∧ ∃ n a, s !! id = Some n ∧ (f id n).1 = Some a) ∧
  (∀ id, id ∈ bad ↔ id ∈ peers ∧ ∀ n, s !! id = Some n → (f id n).1 = None) ∧
  NoDup good.
Proof.
  induction peers as [|id peers IH] using rev_ind; intros Hnd.
  { cbn. split_and!; [done|set_solver|set_solver|constructor]. }
  rewrite each_snoc. apply NoDup_app in Hnd as (Hnd & Hid & _). specialize (IH Hnd).
  assert (id ∉ peers) as Hfresh by (intros Hin; by apply (Hid id Hin), list_elem_of_singleton).
  destruct (each f peers s) as [[good bad] s'] eqn:E. destruct IH as (Hs & Hgood & Hbad & Hg).
  assert (s' !! id = s !! id) as Hsame by (rewrite Hs; by rewrite decide_False).
  assert (id ∉ good) as Hng by (rewrite Hgood; naive_solver).
  assert (∀ j, j ∈ peers ++ [id] ↔ j ∈ peers ∨ j = id) as Hsnoc by (intros j; rewrite elem_of_app, list_elem_of_singleton; done).
  rewrite Hsame. destruct (s !! id) as [n|] eqn:En.
  - assert (∀ j, <[id:=(f id n).2]> s' !! j = if decide (j ∈ peers ++ [id]) then (λ n, (f j n).2) <$> s !! j else s !! j) as Hmap.
    { intros j. destruct (decide (j = id)) as [->|Hne].
      - rewrite lookup_insert_eq, En, decide_True by (apply Hsnoc; by right). done.
      - rewrite lookup_insert_ne, Hs by done. destruct (decide (j ∈ peers)).
        + by rewrite decide_True by (apply Hsnoc; by left).
        + rewrite decide_False by (rewrite Hsnoc; naive_solver). done. }
    destruct ((f id n).1) as [a|] eqn:Ef.
    + split_and!; [done| | |].
      * intros j. rewrite elem_of_app, list_elem_of_singleton, Hgood, Hsnoc. naive_solver.
      * intros j. rewrite Hbad, Hsnoc. naive_solver.
      * apply NoDup_app. split_and!; [done| |apply NoDup_singleton]. intros j Hj ->%list_elem_of_singleton. done.
    + split_and!; [done| | |done].
      * intros j. rewrite Hgood, Hsnoc. naive_solver.
      * intros j. rewrite elem_of_app, list_elem_of_singleton, Hbad, Hsnoc. naive_solver.
  - split_and!; [| | |done].
    + intros j. rewrite Hs. destruct (decide (j = id)) as [->|Hne].
      * rewrite decide_False, En by done. by destruct (decide _).
      * destruct (decide (j ∈ peers)).
        -- by rewrite decide_True by (apply Hsnoc; by left).
        -- rewrite decide_False by (rewrite Hsnoc; naive_solver). done.
    + intros j. rewrite Hgood, Hsnoc. naive_solver.
    + intros j. rewrite elem_of_app, list_elem_of_singleton, Hbad, Hsnoc. naive_solver.
Qed.

Lemma each_keeps (P : RotNode → Prop) peers s :
  (∀ id n, P n → P (f id n).2) → map_Forall (λ _, P) s → map_Forall (λ _, P) (each f peers s).2.
Proof.
  intros Hf Hs. induction peers as [|id peers IH] using rev_ind; [done|]. rewrite each_snoc.
  destruct (each f peers s) as [[good bad] s']. cbn [snd] in IH. destruct (s' !! id) as [n|] eqn:E; [|done].
  assert (map_Forall (λ _, P) (<[id:=(f id n).2]> s')) by (apply map_Forall_insert_2; [apply Hf, (IH id n E)|done]).
  by destruct ((f id n).1).
Qed.
End Each.

(** ** Backups *)
Lemma last_of_max (n : RotNode) t b :
  backups n !! t = Some b → map_Forall (λ t' _, t' ≤ t) (backups n) →
  last (merge_sort Z.le (elements (dom (backups n)))) = Some t.
Proof.
  intros Ht Hmax. set (ts := merge_sort Z.le _).
  assert (∀ x, x ∈ ts ↔ is_Some (backups n !! x)) as Hts.
  { intros x. unfold ts. rewrite merge_sort_Permutation, elem_of_elements. apply elem_of_dom. }
  assert (Sorted Z.le ts) as Hsort by (apply Sorted_merge_sort; intros x y; lia).
  assert (t ∈ ts) as Hin by (apply Hts; by eexists).
  destruct (last ts) as [x|] eqn:El; [|apply last_None in El; rewrite El in Hin; by apply not_elem_of_nil in Hin].
  f_equal. apply Z.le_antisymm.
  - apply last_Some_elem_of in El. apply Hts in El as [c Hc]. by apply (Hmax x c).
  - apply last_Some in El as [l El]. rewrite El in Hsort, Hin.
    apply Sorted_StronglySorted in Hsort; [|intros x1 y1 z1; lia].
    apply elem_of_app in Hin as [Hin|Hin%list_elem_of_singleton]; [|lia].
    by eapply StronglySorted_app_1_elem_of; [eassumption..|apply list_elem_of_singleton].
Qed.

Lemma newest_max (n : RotNode) t b :
  backups n !! t = Some b → map_Forall (λ t' _, t' ≤ t) (backups n) → newest_backup n = Some b.
Proof. intros Ht Hmax. unfold newest_backup. by erewrite last_of_max by eassumption. Qed.

Lemma unlinks_lookup (u : Z → bool) (m : gmap Z string) ts t :
  foldl (λ m t, if u t then delete t m else m) m ts !! t = if bool_decide (t ∈ ts) && u t then None else m !! t.
Proof.
  induction ts as [|x ts IH] using rev_ind; [done|]. rewrite foldl_snoc.
  destruct (u x) eqn:Ux.
  - destruct (decide (t = x)) as [->|Hne].
    + rewrite lookup_delete_eq, Ux, bool_decide_true by set_solver. done.
    + rewrite lookup_delete_ne, IH by done. do 2 case_bool_decide; set_solver.
  - rewrite IH. do 2 case_bool_decide; try set_solver. assert (t = x) as -> by set_solver. by rewrite Ux.
Qed.

(** The newest stays. *)
Lemma prune_newest e n t b :
  backups n !! t = Some b → map_Forall (λ t' _, t' ≤ t) (backups n) →
  newest_backup (prune_old_backups e n) = Some b.
Proof.
  intros Ht Hmax. unfold prune_old_backups. set (ts := merge_sort Z.le _). case_bool_decide as Hlen; [by eapply newest_max|].
  assert (t ∉ take (length ts - BACKUP_RETENTION_COUNT) ts) as Hkept.
  { intros Hin. assert (NoDup ts) as Hnd by (unfold ts; rewrite merge_sort_Permutation; apply NoDup_elements).
    assert (last ts = Some t) as Hlast by by eapply last_of_max.
    rewrite <-(take_drop (length ts - BACKUP_RETENTION_COUNT) ts) in Hnd, Hlast.
    apply NoDup_app in Hnd as (_ & Hdisj & _). apply (Hdisj t Hin).
    rewrite last_app in Hlast. destruct (last (drop _ ts)) as [y|] eqn:Ey.
    - injection Hlast as ->. by apply last_Some_elem_of.
    - apply last_None, (f_equal length) in Ey. rewrite length_drop in Ey. cbn in Ey, Hlen. unfold BACKUP_RETENTION_COUNT in *. lia. }
  apply (newest_max _ t).
  - change (foldl (λ m t, if e_unlink_backup e t then delete t m else m) (backups n)
      (take (length ts - BACKUP_RETENTION_COUNT) ts) !! t = Some b).
    rewrite unlinks_lookup, bool_decide_false; done.
  - intros t' b' Hb. apply (Hmax t' b').
    change (foldl (λ m t, if e_unlink_backup e t then delete t m else m) (backups n)
      (take (length ts - BACKUP_RETENTION_COUNT) ts) !! t' = Some b') in Hb.
    rewrite unlinks_lookup in Hb. by destruct (_ && _).
Qed.

Lemma prune_fields e n :
  let n' := prune_old_backups e n in
  active n' = active n ∧ pending n' = pending n ∧ memory n' = memory n ∧ stores n' = stores n.
Proof. unfold prune_old_backups. by case_bool_decide. Qed.

(** ** What each handler does *)
Section HandlerLemmas.
Context `{Crypto} (sha256_hex : string → string).
Implicit Types (e : Env) (n : RotNode).

Lemma load_ext n m : active n = active m → load_cluster_secret n = load_cluster_secret m.
Proof. unfold load_cluster_secret. by intros ->. Qed.

Lemma preflight_same e p n : (rotate_preflight e p n).2 = n.
Proof. done. Qed.

Lemma receive_fields e p new fp n :
  let n' := (rotate_receive sha256_hex e p new fp n).2 in
  active n' = active n ∧ memory n' = memory n ∧ backups n' = backups n ∧ stores n' = stores n.
Proof. unfold rotate_receive. by repeat case_match. Qed.

Lemma receive_pending e p new fp n a n' :
  rotate_receive sha256_hex e p new fp n = (Ok a, n') → pending n' = Some new.
Proof.
  unfold rotate_receive. repeat (case_match; [done|]). destruct (e_write_pending e); cbn; [|done]. by intros [= _ <-].
Qed.

Lemma back_up_fields e n :
  let n' := (back_up e n).2 in
  active n' = active n ∧ memory n' = memory n ∧ pending n' = pending n ∧ stores n' = stores n.
Proof. unfold back_up. by repeat case_match. Qed.

Lemma back_up_bounded e n :
  map_Forall (λ t _, t ≤ e_clock e) (backups n) → map_Forall (λ t _, t ≤ e_clock e) (backups (back_up e n).2).
Proof.
  intros Hb. unfold back_up. destruct (active n); [|done]. destruct (write_file _ _ _); [|done].
  change (map_Forall (λ t _, t ≤ e_clock e) (<[e_clock e := s0]> (backups n))). by apply map_Forall_insert_2.
Qed.

Lemma back_up_written e n n' :
  back_up e n = (true, n') → ∀ a, active n = Some a → backups n' !! e_clock e = Some a.
Proof.
  unfold back_up. intros Hb a Ha. rewrite Ha in Hb. destruct (e_backup e); [|done].
  injection Hb as <-. apply lookup_insert_eq.
Qed.

(** A process keeps its secret whatever it is asked. *)
Lemma commit_memory e p fp n : memory (rotate_commit sha256_hex e p fp n).2 = memory n.
Proof.
  unfold rotate_commit. case_match; [done|]. destruct (pending n); [|done]. case_match; [done|].
  pose proof (back_up_fields e n) as Hf. destruct (back_up e n) as [ok n0]. cbn in Hf. destruct Hf as (_ & Hm & _).
  case_match; [done|]. case_match.
  - cbn [snd]. by repeat case_match.
  - cbn [snd]. match goal with |- memory (prune_old_backups e ?m) = _ => destruct (prune_fields e m) as (_ & _ & -> & _) end.
    by case_match.
Qed.

Lemma rollback_memory e p stage n : memory (rotate_rollback e p stage n).2 = memory n.
Proof. unfold rotate_rollback. by repeat case_match. Qed.

Lemma rollback_pending_fields e p n :
  let n' := (rotate_rollback e p "pending" n).2 in
  active n' = active n ∧ memory n' = memory n ∧ backups n' = backups n.
Proof. unfold rotate_rollback. case_match; [done|]. cbn. by repeat case_match. Qed.

(** ** A node before and after its commit *)
Definition idle (clock : Z) (old : string) n : Prop :=
  memory n = old ∧ load_cluster_secret n = old ∧ is_Some (active n) ∧ map_Forall (λ t _, t ≤ clock) (backups n).

Definition restorable (old : string) n : Prop :=
  memory n = old ∧ ∃ b, newest_backup n = Some b ∧ load_cluster_secret (n <| active := Some b |>) = old.

Lemma idle_ext clock old n m :
  active n = active m → memory n = memory m → backups n = backups m → idle clock old n → idle clock old m.
Proof. unfold idle. intros Ha Hm Hb. by rewrite (load_ext n m Ha), Ha, Hm, Hb. Qed.

Lemma commit_step e p fp old new n :
  valid_secret_shape new = true → idle (e_clock e) old n → pending n = Some new →
  match rotate_commit sha256_hex e p fp n with
  | (Ok _, n') => active n' = Some new ∧ restorable old n'
  | (_, n') => idle (e_clock e) old n' ∧ pending n' = Some new
  end.
Proof.
  intros Hs Hi Hp. unfold rotate_commit. destruct (require_auth e n p); cbn [negb]; [|done].
  rewrite Hp. destruct (bool_decide (_ = fp)); cbn [negb]; [|done]. destruct Hi as (Hm & Hl & [a Ha] & Hb).
  pose proof (back_up_fields e n) as (Ha' & Hm' & Hp' & _). pose proof (back_up_bounded e n Hb) as Hb'.
  destruct (back_up e n) as [ok n0] eqn:E. cbn [fst snd] in *.
  assert (idle (e_clock e) old n0) as Hi.
  { unfold idle. rewrite (load_ext n0 n Ha'), Ha', Hm'. by split_and!. }
  destruct ok; cbn [negb]; [|by rewrite Hp'].
  destruct (e_rename e); cbn [negb]; cycle 1.
  - rewrite Ha', Ha. by destruct (_ !! _); rewrite ?Hp'.
  - set (m := if bool_decide _ then _ else _).
    assert (active m = Some new ∧ memory m = old ∧ backups m = backups n0) as (Hma & Hmm & Hmb).
    { unfold m. rewrite <-Hm, <-Hm'. by case_bool_decide. }
    destruct (prune_fields e m) as (-> & _ & Hpm & _). split; [done|]. unfold restorable. rewrite Hpm. split; [done|].
    exists a. split.
    + apply (prune_newest e m (e_clock e)); rewrite Hmb; [|done]. by apply (back_up_written e n).
    + rewrite <-Hl. by apply load_ext.
Qed.

Lemma commit_ok e p fp n n' :
  rotate_commit sha256_hex e p fp n = (Ok (), n') →
  ∃ s, pending n = Some s ∧ active n' = Some s ∧ pending n' = None ∧
    stores n' = if bool_decide (first_line s = "") then stores n
                else (reencrypt_all_at_rest (e_pass e) (load_cluster_secret n) (first_line s) (stores n)).2.
Proof.
  unfold rotate_commit. destruct (require_auth e n p); cbn [negb]; [|done]. destruct (pending n) as [s|]; [|done].
  destruct (bool_decide (_ = fp)); cbn [negb]; [|done].
  pose proof (back_up_fields e n) as (_ & _ & _ & Hst). destruct (back_up e n) as [ok n0]. cbn [snd] in Hst.
  destruct ok; cbn [negb]; [|done]. destruct (e_rename e); cbn [negb]; [|done]. intros [= <-]. exists s.
  match goal with |- context [prune_old_backups e ?m] => destruct (prune_fields e m) as (-> & -> & _ & ->) end.
  case_bool_decide; by rewrite <-Hst.
Qed.

Lemma commit_nothing e p fp n : pending n = None → (rotate_commit sha256_hex e p fp n).2 = n.
Proof. intros Hp. unfold rotate_commit. rewrite Hp. by case_match. Qed.

(** It succeeds when nothing is wrong. *)
Lemma commit_succeeds e fp new n :
  require_auth e n (memory n) = true → pending n = Some new → sha256_hex (first_line new) = fp →
  e_backup e = Written → e_rename e = true →
  ∃ n', rotate_commit sha256_hex e (memory n) fp n = (Ok (), n').
Proof.
  intros Ha Hp Hf Hb Hr. unfold rotate_commit. rewrite Ha, Hp, Hf, bool_decide_true by done. cbn [negb].
  assert ((back_up e n).1 = true) as Hok by (unfold back_up; destruct (active n); [by rewrite Hb|done]).
  destruct (back_up e n) as [ok n0]. cbn in Hok. subst ok. cbn [negb]. rewrite Hr. by eexists.
Qed.

Lemma rollback_step e old n :
  secret_ok old → old ≠ CLUSTER_SECRET → e_signature_ok e = true → e_restore e = Written → restorable old n →
  ∃ n', rotate_rollback e old "committed" n = (Ok (), n') ∧ restorable old n' ∧ load_cluster_secret n' = old.
Proof.
  intros Ho Hne He Hr (Hm & b & Hb & Hl). unfold rotate_rollback. rewrite (accepts_memory e n old) by done. cbn [negb].
  change (bool_decide ("committed" = "pending")) with false. change (bool_decide ("committed" = "committed")) with true.
  cbn match. rewrite Hb, Hr. eexists. split; [done|]. split; [|done]. split; [done|]. by exists b.
Qed.
End HandlerLemmas.

(** ** A run of the coordinator *)
Section Run.
Context `{Crypto} (sha256_hex : string → string) (w : RotWorld).
Implicit Types (s : gmap string RotNode) (self n : RotNode).

Abbreviation run := (coordinated_rotate sha256_hex w).

(** What the handlers keep, the run keeps. *)
Lemma peers_keep (P : RotNode → Prop) self s :
  (∀ e p n, P n → P (rotate_preflight e p n).2) →
  (∀ e p new fp n, P n → P (rotate_receive sha256_hex e p new fp n).2) →
  (∀ e p fp n, P n → P (rotate_commit sha256_hex e p fp n).2) →
  (∀ e p stage n, P n → P (rotate_rollback e p stage n).2) →
  map_Forall (λ _, P) s → map_Forall (λ _, P) (run self s).2.
Proof.
  intros Hpre Hrec Hcom Hrol Hs. unfold coordinated_rotate. do 3 (case_match; [done|]).
  assert (∀ stage name secret ids s, map_Forall (λ _, P) s → map_Forall (λ _, P) (rollback w stage name secret ids s)) as Hroll.
  { intros stage name secret ids s0 Hs0. apply each_keeps; [|done]. intros id n Hn. apply call_keeps; [|done]. intros; by apply Hrol. }
  destruct (each _ _ s) as [[g1 b1] s1] eqn:E1.
  assert (map_Forall (λ _, P) s1) as Hs1.
  { change s1 with (g1, b1, s1).2. rewrite <-E1. apply each_keeps; [|done]. intros id n Hn. cbn [compatible snd]. apply call_keeps; [|done].
    intros; by apply Hpre. }
  case_match; [done|].
  destruct (each _ _ s1) as [[g2 b2] s2] eqn:E2.
  assert (map_Forall (λ _, P) s2) as Hs2.
  { change s2 with (g2, b2, s2).2. rewrite <-E2. apply each_keeps; [|done]. intros id n Hn. apply call_keeps; [|done]. intros; by apply Hrec. }
  case_match; [by apply Hroll|]. case_match; [by apply Hroll|].
  destruct (each _ _ s2) as [[g3 b3] s3] eqn:E3.
  assert (map_Forall (λ _, P) s3) as Hs3.
  { change s3 with (g3, b3, s3).2. rewrite <-E3. apply each_keeps; [|done]. intros id n Hn. apply call_keeps; [|done]. intros; by apply Hcom. }
  case_match; [by apply Hroll|]. by destruct (self_commit _ _ _).
Qed.

(** ** The run as one step

    To whoever sees only the secrets on the disks, the run is one step. *)
Definition secrets self s : string * gmap string string := (load_cluster_secret self, load_cluster_secret <$> s).

Inductive Atomic (new : string) : Outcome → relation (string * gmap string string) :=
| atomic_rotated own m : Atomic new Rotated (own, m) (new, (λ _, new) <$> m)
| atomic_unchanged o a : o ≠ Rotated → Atomic new o a a.

(** The peers distinct and in the fleet, one secret of its own in every file
    and process. *)
Record Prepared self s : Prop := {
  st_peers : NoDup (rt_peers w);
  st_fleet : ∀ id, id ∈ rt_peers w ↔ is_Some (s !! id);
  st_old : secret_ok (memory self) ∧ memory self ≠ CLUSTER_SECRET;
  st_new : valid_secret_shape (rt_secret w) = true;
  st_nodes : ∀ id n, s !! id = Some n → idle (e_clock (rt_env w Commit id)) (memory self) n
}.

(** No answer to a commit lost, a rollback of a commit reached and written, the
    coordinator's own disk working. *)
Record Settled self s : Prop := {
  st_prepared : Prepared self s;
  st_commit : ∀ id, id ∈ rt_peers w → NoReply ∉ rt_urls w Commit id;
  st_rollback : ∀ id, id ∈ rt_peers w →
    Answered ∈ rt_urls w RollbackCommitted id ∧ e_restore (rt_env w RollbackCommitted id) = Written ∧
    e_signature_ok (rt_env w RollbackCommitted id) = true;
  st_self : e_backup (rt_self w) = Written ∧ e_rename (rt_self w) = true
}.

Context {self : RotNode} {s : gmap string RotNode} (Hprep : Prepared self s).
Local Abbreviation old := (memory self).
Local Abbreviation new := (rt_secret w).
Local Abbreviation clock id := (e_clock (rt_env w Commit id)).

(** One phase: what it makes of each peer and what it tells of it. *)
Lemma phase {A} (P : string → RotNode → Prop) (Q : string → option A → RotNode → Prop) f ids s0 :
  NoDup ids → (∀ id n, s0 !! id = Some n → P id n) →
  (∀ id n, id ∈ ids → P id n → Q id (f id n).1 (f id n).2) →
  let '(good, bad, s') := each f ids s0 in
  NoDup good ∧ good ⊆ ids ∧ (∀ id, is_Some (s' !! id) ↔ is_Some (s0 !! id)) ∧
  ∀ id n', s' !! id = Some n' →
    if decide (id ∈ ids) then ∃ r, Q id r n' ∧ (id ∈ good ↔ is_Some r) ∧ (id ∈ bad ↔ r = None) else P id n'.
Proof.
  intros Hids HP HQ. pose proof (each_spec f ids s0 Hids) as He. destruct (each f ids s0) as [[good bad] s'].
  destruct He as (Hs & Hgood & Hbad & Hnd). split_and!; [done| | |].
  - intros id [? _]%Hgood. done.
  - intros id. rewrite Hs. destruct (decide _); [apply fmap_is_Some|done].
  - intros id n' Hn'. rewrite Hs in Hn'. destruct (decide (id ∈ ids)) as [Hin|_]; [|by apply HP].
    apply fmap_Some in Hn' as (n & Hn & ->). exists ((f id n).1). split; [by apply HQ, HP|].
    rewrite Hgood, Hbad. split; split; [intros (_ & n0 & a & ? & ?); simplify_eq; by eexists|intros [a Ha]; split; [done|by exists n, a]
      |intros (_ & Hall); by apply Hall|intros Hnone; split; [done|]; intros n0 ?; by simplify_eq].
Qed.

Lemma secrets_same s1 : (∀ id, is_Some (s1 !! id) ↔ is_Some (s !! id)) →
  (∀ id n, s1 !! id = Some n → load_cluster_secret n = old) → load_cluster_secret <$> s1 = load_cluster_secret <$> s.
Proof.
  intros Hdom Hl. apply map_eq. intros id. rewrite !lookup_fmap. specialize (Hdom id).
  destruct (s1 !! id) as [n1|] eqn:E1, (s !! id) as [n|] eqn:E; cbn; [|by destruct Hdom; naive_solver..|done].
  rewrite (Hl id n1 E1). f_equal. symmetry. by destruct (st_nodes _ _ Hprep id n E) as (_ & ? & _).
Qed.

Lemma rollback_pending_idle secret ids s1 :
  NoDup ids → (∀ id n, s1 !! id = Some n → idle (clock id) old n) →
  let s' := rollback w RollbackPending "pending" secret ids s1 in
  (∀ id, is_Some (s' !! id) ↔ is_Some (s1 !! id)) ∧ ∀ id n, s' !! id = Some n → idle (clock id) old n.
Proof.
  intros Hids Hs1. unfold rollback.
  pose proof (phase (λ id, idle (clock id) old) (λ id _, idle (clock id) old)
    (λ id, call (rotate_rollback (rt_env w RollbackPending id) secret "pending") (rt_urls w RollbackPending id))
    ids s1 Hids Hs1) as Hp.
  destruct (each _ ids s1) as [[g b] s']. cbn [snd].
  destruct Hp as (_ & _ & Hdom & Hs'); [|split; [done|]].
  - intros id n _ Hn. apply call_keeps; [|done]. intros m Hm.
    destruct (rollback_pending_fields (rt_env w RollbackPending id) secret m) as (? & ? & ?). by eapply idle_ext.
  - intros id n Hn. specialize (Hs' id n Hn). destruct (decide _); naive_solver.
Qed.

Lemma rollback_committed_idle ids s1 :
  Settled self s → NoDup ids → ids ⊆ rt_peers w →
  (∀ id n, s1 !! id = Some n → if decide (id ∈ ids) then restorable old n else load_cluster_secret n = old) →
  let s' := rollback w RollbackCommitted "committed" old ids s1 in
  (∀ id, is_Some (s' !! id) ↔ is_Some (s1 !! id)) ∧ ∀ id n, s' !! id = Some n → load_cluster_secret n = old.
Proof.
  intros Hset Hids Hsub Hs1. unfold rollback.
  pose proof (phase (λ id n, if decide (id ∈ ids) then restorable old n else load_cluster_secret n = old)
    (λ id _ n, load_cluster_secret n = old)
    (λ id, call (rotate_rollback (rt_env w RollbackCommitted id) old "committed") (rt_urls w RollbackCommitted id))
    ids s1 Hids Hs1) as Hp.
  destruct (each _ ids s1) as [[g b] s']. cbn [snd].
  destruct Hp as (_ & _ & Hdom & Hs'); [|split; [done|]].
  - intros id n Hin Hn. rewrite decide_True in Hn by done.
    destruct (st_rollback _ _ Hset id (Hsub id Hin)) as (Hu & Hr & He). destruct (st_old _ _ Hprep) as [Ho Hne].
    apply (call_gets_through _ (restorable old)); [done| |done]. intros m Hm.
    destruct (rollback_step (rt_env w RollbackCommitted id) old m Ho Hne He Hr Hm) as (m' & -> & Hm' & Hl). by exists (), m'.
  - intros id n Hn. specialize (Hs' id n Hn). destruct (decide _); naive_solver.
Qed.

Lemma self_commit_new self1 :
  Settled self s → pending self1 = Some new →
  let '(o, self') := self_commit w old self1 in o = Rotated ∧ active self' = Some new.
Proof.
  intros Hset Hp. destruct (st_self _ _ Hset) as [Hb Hr]. unfold self_commit.
  pose proof (back_up_fields (rt_self w) self1) as (Ha & _ & Hp' & _).
  assert ((back_up (rt_self w) self1).1 = true) as Hok.
  { unfold back_up. destruct (active self1); [|done]. by rewrite Hb. }
  destruct (back_up (rt_self w) self1) as [ok self2]. cbn in *. subst ok. rewrite Hp', Hp, Hr. split; [done|].
  by destruct (prune_fields (rt_self w) (self2 <| active := Some new |> <| pending := None |>)) as (? & _).
Qed.

(** The same peers. *)
Definition same_peers (s0 s1 : gmap string RotNode) : Prop := ∀ id, is_Some (s1 !! id) ↔ is_Some (s0 !! id).
Definition all_idle s0 : Prop := ∀ id n, s0 !! id = Some n → idle (clock id) old n.

Lemma idle_same s1 : same_peers s s1 → all_idle s1 → load_cluster_secret <$> s1 = load_cluster_secret <$> s.
Proof. intros Hd Hi. apply secrets_same; [done|]. intros id n Hn. by destruct (Hi id n Hn) as (_ & ? & _). Qed.

Lemma preflight_phase :
  let '(_, _, s1) :=
    each (λ id n, compatible (call (rotate_preflight (rt_env w Preflight id) old) (rt_urls w Preflight id) n))
      (rt_peers w) s in
  same_peers s s1 ∧ all_idle s1.
Proof.
  pose proof (phase (λ id, idle (clock id) old) (λ id _, idle (clock id) old)
    (λ id n, compatible (call (rotate_preflight (rt_env w Preflight id) old) (rt_urls w Preflight id) n))
    (rt_peers w) s (st_peers _ _ Hprep) (st_nodes _ _ Hprep)) as H1.
  destruct (each _ _ s) as [[g1 b1] s1]. destruct H1 as (_ & _ & Hdom1 & H1); [|split; [done|]].
  - intros id n _ Hn. cbn [compatible snd]. by apply call_keeps.
  - intros id n Hn. specialize (H1 id n Hn). destruct (decide _); naive_solver.
Qed.

Lemma receive_phase s1 :
  same_peers s s1 → all_idle s1 →
  let '(good, bad, s2) :=
    each (λ id, call (rotate_receive sha256_hex (rt_env w Receive id) old new (sha256_hex new)) (rt_urls w Receive id))
      (rt_peers w) s1 in
  NoDup good ∧ same_peers s s2 ∧ all_idle s2 ∧ (bad = [] → ∀ id n, s2 !! id = Some n → pending n = Some new).
Proof.
  intros Hdom1 Hs1.
  pose proof (phase (λ id, idle (clock id) old) (λ id r n, idle (clock id) old n ∧ (is_Some r → pending n = Some new))
    (λ id, call (rotate_receive sha256_hex (rt_env w Receive id) old new (sha256_hex new)) (rt_urls w Receive id))
    (rt_peers w) s1 (st_peers _ _ Hprep) Hs1) as H2.
  destruct (each _ _ s1) as [[g2 b2] s2]. destruct H2 as (Hg2 & _ & Hdom2 & H2).
  { intros id n _ Hn. split.
    - apply call_keeps; [|done]. intros m Hm.
      destruct (receive_fields sha256_hex (rt_env w Receive id) old new (sha256_hex new) m) as (? & ? & ? & _).
      by eapply idle_ext.
    - intros [a Ha]. destruct (call _ _ n) as [r n'] eqn:Ec. cbn in Ha. subst r.
      apply call_success in Ec as [n0 Hn0]. by apply receive_pending in Hn0. }
  split_and!; [done|intros id; by rewrite Hdom2| |].
  - intros id n Hn. specialize (H2 id n Hn). destruct (decide _); naive_solver.
  - intros -> id n Hn. specialize (H2 id n Hn). destruct (decide _) as [_|Hni].
    + destruct H2 as (r & [_ Hr] & _ & Hbad). apply Hr. destruct r; [by eexists|].
      by destruct (not_elem_of_nil id); apply Hbad.
    + destruct Hni. apply (st_fleet _ _ Hprep), Hdom1, Hdom2. by eexists.
Qed.

Lemma commit_phase s2 :
  Settled self s → same_peers s s2 → (∀ id n, s2 !! id = Some n → idle (clock id) old n ∧ pending n = Some new) →
  let '(good, bad, s3) :=
    each (λ id, call (rotate_commit sha256_hex (rt_env w Commit id) old (sha256_hex new)) (rt_urls w Commit id))
      (rt_peers w) s2 in
  NoDup good ∧ good ⊆ rt_peers w ∧ same_peers s s3 ∧ (bad = [] → ∀ id, id ∈ rt_peers w → is_Some (s3 !! id) → id ∈ good) ∧
  ∀ id n, s3 !! id = Some n →
    if decide (id ∈ good) then active n = Some new ∧ restorable old n else idle (clock id) old n.
Proof.
  intros Hset Hdom2 Hs2.
  set (handler id := rotate_commit sha256_hex (rt_env w Commit id) old (sha256_hex new)).
  set (ready id n := idle (clock id) old n ∧ pending n = Some new).
  set (committed n := active n = Some new ∧ restorable old n).
  assert (∀ id n, ready id n → match handler id n with (Ok _, n') => committed n' | (_, n') => ready id n' end) as Hstep.
  { intros id n [Hi Hp]. apply (commit_step sha256_hex (rt_env w Commit id) old (sha256_hex new) old new n (st_new _ _ Hprep) Hi Hp). }
  pose proof (phase ready (λ id r n, match r with Some _ => committed n | None => idle (clock id) old n end)
    (λ id, call (handler id) (rt_urls w Commit id)) (rt_peers w) s2 (st_peers _ _ Hprep) Hs2) as H3.
  destruct (each _ _ s2) as [[g3 b3] s3]. destruct H3 as (Hg3 & Hsub3 & Hdom3 & H3).
  { intros id n Hin Hn.
    pose proof (call_answered (handler id) (ready id) (rt_urls w Commit id) n (st_commit _ _ Hset id Hin)) as Hc.
    assert (∀ n, ready id n → match handler id n with (Ok _, _) => True | (_, n') => ready id n' end) as Hh.
    { intros m Hm. specialize (Hstep id m Hm). by destruct (handler id m) as [[?| |] ?]. }
    specialize (Hc Hh Hn). destruct (call _ _ n) as [[a|] n']; cbn in Hc |- *; [|by destruct Hc].
    destruct Hc as (n0 & Hn0 & Hr). specialize (Hstep id n0 Hn0). by rewrite Hr in Hstep. }
  assert (∀ id n, s3 !! id = Some n → id ∈ rt_peers w) as Hin.
  { intros id n Hn. apply (st_fleet _ _ Hprep), Hdom2, Hdom3. by eexists. }
  split_and!; [done|done|intros id; by rewrite Hdom3| |].
  - intros Hb id Hid [n Hn]. specialize (H3 id n Hn). rewrite decide_True in H3 by done.
    destruct H3 as (r & _ & Hgood & Hbad). apply Hgood. subst b3.
    destruct r; [by eexists|by destruct (not_elem_of_nil id); apply Hbad].
  - intros id n Hn. specialize (H3 id n Hn). rewrite decide_True in H3 by (by eapply Hin).
    destruct H3 as (r & Hr & Hgood & _). destruct (decide (id ∈ g3)) as [Hid|Hni].
    + by apply Hgood in Hid as [a ->].
    + destruct r; [by destruct Hni; apply Hgood|done].
Qed.

(** What the run leaves on the disks. *)
Lemma run_secrets :
  Settled self s →
  let '(o, self', s') := run self s in
  match o with
  | Rotated => load_cluster_secret self' = new ∧ load_cluster_secret <$> s' = (λ _, new) <$> s
  | _ => load_cluster_secret self' = load_cluster_secret self ∧ load_cluster_secret <$> s' = load_cluster_secret <$> s
  end.
Proof.
  intros Hset. unfold coordinated_rotate. destruct (rt_operator w); cbn [negb]; [|done]. destruct (rt_busy w); [done|].
  case_bool_decide as Hl; cbn [negb]; [|done]. pose proof preflight_phase as H1.
  destruct (each _ _ s) as [[g1 b1] s1]. destruct H1 as [Hdom1 Hs1].
  case_bool_decide; cbn [negb]; [|split; [done|by apply idle_same]].
  pose proof (receive_phase s1 Hdom1 Hs1) as H2.
  destruct (each _ _ s1) as [[g2 b2] s2]. destruct H2 as (Hg2 & Hdom2 & Hs2 & Hp2).
  assert (load_cluster_secret <$> rollback w RollbackPending "pending" old g2 s2 = load_cluster_secret <$> s) as Hroll.
  { destruct (rollback_pending_idle old g2 s2 Hg2 Hs2) as [Hdom Hs]. apply idle_same; [intros id; by rewrite Hdom|done]. }
  case_bool_decide as Hb2; cbn [negb]; [|done]. destruct (e_write_pending (rt_self w)); cbn [negb written write_file]; [|done].
  assert (∀ id n, s2 !! id = Some n → idle (clock id) old n ∧ pending n = Some new) as Hs2p by (split; [by apply Hs2|by eapply Hp2]).
  pose proof (commit_phase s2 Hset Hdom2 Hs2p) as H3.
  destruct (each _ _ s2) as [[g3 b3] s3]. destruct H3 as (Hg3 & Hsub3 & Hdom3 & Hall & H3).
  case_bool_decide as Hb3; cbn [negb].
  - pose proof (self_commit_new (self <| pending := Some new |>) Hset eq_refl) as Hself.
    destruct (self_commit w old _) as [o self']. destruct Hself as [-> Ha].
    split; [by apply load_active; [done|apply (st_new _ _ Hprep)]|].
    apply map_eq. intros id. rewrite !lookup_fmap. specialize (Hdom3 id).
    destruct (s3 !! id) as [n3|] eqn:E3, (s !! id) as [n|] eqn:E; cbn; [|by destruct Hdom3; naive_solver..|done].
    f_equal. specialize (H3 id n3 E3).
    rewrite decide_True in H3 by (apply Hall; [done|apply (st_fleet _ _ Hprep); by eexists|by eexists]).
    destruct H3 as [Hr _]. by apply load_active; [|apply (st_new _ _ Hprep)].
  - split; [done|]. destruct (rollback_committed_idle g3 s3 Hset Hg3 Hsub3) as [Hdom Hs].
    + intros id n3 E3. specialize (H3 id n3 E3). destruct (decide _); [by destruct H3|by destruct H3 as (_ & ? & _)].
    + apply secrets_same; [intros id; by rewrite Hdom|done].
Qed.
End Run.

(** A commit whose answers are all lost has happened, unknown to the caller. *)
Lemma lost_commit `{Crypto} (sha256_hex : string → string) (e : Env) fp new urls n :
  Answered ∉ urls → NoReply ∈ urls →
  pending n = Some new → require_auth e n (memory n) = true → sha256_hex (first_line new) = fp →
  e_backup e = Written → e_rename e = true →
  let r := call (rotate_commit sha256_hex e (memory n) fp) urls n in r.1 = None ∧ active r.2 = Some new.
Proof.
  intros Hno Hyes Hp Ha Hf Hb Hr. induction urls as [|u urls IH]; [by apply not_elem_of_nil in Hyes|].
  apply not_elem_of_cons in Hno as [Hu Hus]. destruct u; cbn [call]; [|clear IH|done].
  - apply IH; [done|]. by apply elem_of_cons in Hyes as [?|?].
  - destruct (commit_succeeds sha256_hex e fp new n Ha Hp Hf Hb Hr) as [n1 Hn1]. rewrite Hn1. cbn [snd].
    apply commit_ok in Hn1 as (? & Hp' & Ha1 & Hp1 & _). rewrite Hp in Hp'. injection Hp' as <-.
    enough (call (rotate_commit sha256_hex e (memory n) fp) urls n1 = (None, n1)) as -> by done.
    clear Hyes. induction urls as [|[] urls IH]; cbn [call]; [done|apply IH; set_solver| |set_solver].
    rewrite (commit_nothing sha256_hex e _ fp n1 Hp1). apply IH. set_solver.
Qed.

Lemma self_commit_outcome `{Crypto} w old self : (self_commit w old self).1 ≠ CommitAbort.
Proof. unfold self_commit. destruct (back_up _ _) as [[] ?]; cbn; [|done]. destruct (pending _); [|done]. by case_match. Qed.

Lemma rollback_others `{Crypto} w stage name secret ids s id :
  NoDup ids → id ∉ ids → rollback w stage name secret ids s !! id = s !! id.
Proof.
  intros Hids Hni. unfold rollback. pose proof (each_spec (λ id, call (rotate_rollback (rt_env w stage id) secret name)
    (rt_urls w stage id)) ids s Hids) as He. destruct (each _ ids s) as [[g b] s']. destruct He as [-> _].
  by rewrite decide_False.
Qed.

(** ** Theorems about rotation *)
Section Theorems.
Context `{Crypto} (sha256_hex : string → string) (w : RotWorld).
Implicit Types (s : gmap string RotNode) (self n : RotNode) (e : Env).

(** C33: A rotation over a fleet whose nodes are all idle on one secret of the
    fleet's own (not the one it was shipped with), where no answer to a commit
    is lost, every node told to roll a commit back is reached and can write,
    and the coordinator's own disk works, is one step or none for whoever sees
    only the secrets on the disks: it ends with the new secret on every node,
    or it aborts and every node has the secret it had, whichever peer was
    unreachable or refused, before the staging, in it or in the commit.  (What
    a lost answer or the shipped secret does instead is shown below.) *)
Theorem rotation_refines self s :
  Settled w self s →
  let '(o, self', s') := coordinated_rotate sha256_hex w self s in
  Atomic (rt_secret w) o (secrets self s) (secrets self' s').
Proof.
  intros Hset. pose proof (run_secrets sha256_hex w (st_prepared _ _ _ Hset) Hset) as Hr.
  destruct (coordinated_rotate _ _ _ _) as [[o self'] s']. unfold secrets.
  destruct o; destruct Hr as [-> ->]; [by constructor..|]. rewrite (map_fmap_compose load_cluster_secret (λ _, rt_secret w)). constructor.
Qed.

(** Whatever is lost on the way, a running node goes on accepting the
    secret the fleet started with and accepts the one on its disk, until it is
    restarted: then it refuses the old one. *)
Theorem mixed_until_restart self s :
  secret_ok (memory self) → memory self ≠ CLUSTER_SECRET → map_Forall (λ _ n, memory n = memory self) s →
  let s' := (coordinated_rotate sha256_hex w self s).2 in
  ∀ id n e, s' !! id = Some n → e_signature_ok e = true → 
    secret_ok (load_cluster_secret n) → load_cluster_secret n ≠ CLUSTER_SECRET →
    require_auth e n (memory self) = true ∧ require_auth e n (load_cluster_secret n) = true ∧
    (load_cluster_secret n ≠ memory self → require_auth e (restart n) (memory self) = false).
Proof.
  intros Ho Hne Hs s' id n e Hn He Hl Hlne.
  assert (memory n = memory self) as Hm.
  { refine (peers_keep sha256_hex w (λ n, memory n = memory self) self s _ _ _ _ Hs id n Hn).
    - done.
    - intros e0 p new fp m <-. by destruct (receive_fields sha256_hex e0 p new fp m) as (_ & ? & _).
    - intros e0 p fp m <-. apply commit_memory.
    - intros e0 p stage m <-. apply rollback_memory. }
  split_and!; [by apply accepts_memory|by apply accepts_disk|].
  intros Hdiff. by apply refuses_other.
Qed.

(** A fleet on the published default cannot be taken back: a node that has
    committed refuses the default at once, before its restart, and with it
    every rollback the coordinator sends. *)
Theorem default_commit_is_final e e' p fp n n' new :
  pending n = Some new → valid_secret_shape new = true → new ≠ CLUSTER_SECRET → e_accept_default e' = false →
  rotate_commit sha256_hex e p fp n = (Ok (), n') →
  require_auth e' n' CLUSTER_SECRET = false ∧
  ∀ stage urls, call (rotate_rollback e' CLUSTER_SECRET stage) urls n' = (None, n').
Proof.
  intros Hp Hs Hne He Hc. apply commit_ok in Hc as (? & Hp' & Ha & _). rewrite Hp in Hp'. injection Hp' as <-.
  assert (require_auth e' n' CLUSTER_SECRET = false) as Hno by (apply refuses_default; [done|by eapply custom_active]).
  split; [done|]. intros stage urls. induction urls as [|[] urls IH]; cbn [call]; [done..| |];
    unfold rotate_rollback in *; by rewrite Hno.
Qed.

(** When every answer to a commit that reached its peer is lost, the run
    reports an abort, the coordinator stays on the old secret and that peer,
    which no rollback is sent to, is left on the new one. *)
Theorem lost_answer_strands_peer self s id :
  Prepared w self s → id ∈ rt_peers w →
  Answered ∉ rt_urls w Commit id → NoReply ∈ rt_urls w Commit id →
  e_signature_ok (rt_env w Commit id) = true → e_backup (rt_env w Commit id) = Written →
  e_rename (rt_env w Commit id) = true →
  let '(o, self', s') := coordinated_rotate sha256_hex w self s in
  o = CommitAbort →
  load_cluster_secret self' = memory self ∧ load_cluster_secret <$> s' !! id = Some (rt_secret w).
Proof.
  intros Hprep Hid Hlost Hreach He Hb Hr. unfold coordinated_rotate.
  destruct (rt_operator w); cbn [negb]; [|done]. destruct (rt_busy w); [done|].
  case_bool_decide as Hl; cbn [negb]; [|done]. pose proof (preflight_phase w Hprep) as H1.
  destruct (each _ _ s) as [[g1 b1] s1]. destruct H1 as [Hdom1 Hs1]. case_bool_decide; cbn [negb]; [|done].
  pose proof (receive_phase sha256_hex w Hprep s1 Hdom1 Hs1) as H2.
  destruct (each _ _ s1) as [[g2 b2] s2]. destruct H2 as (_ & Hdom2 & Hs2 & Hp2).
  case_bool_decide as Hb2; cbn [negb]; [|done]. destruct (written _); cbn [negb]; [|done].
  pose proof (each_spec (λ id, call (rotate_commit sha256_hex (rt_env w Commit id) (memory self) (sha256_hex (rt_secret w)))
    (rt_urls w Commit id)) (rt_peers w) s2 (st_peers _ _ _ Hprep)) as H3.
  destruct (each _ _ s2) as [[g3 b3] s3]. destruct H3 as (Hs3 & Hg3 & _ & Hnd3).
  case_bool_decide; cbn [negb].
  { pose proof (self_commit_outcome w (memory self)
      (self <| pending := write_file (e_write_pending (rt_self w)) (rt_secret w) (pending self) |>)) as Ho.
    destruct (self_commit _ _ _) as [o self']. by intros ->. }
  intros _. split; [done|].
  assert (is_Some (s2 !! id)) as [n Hn] by (apply Hdom2, (st_fleet _ _ _ Hprep); done).
  destruct (lost_commit sha256_hex (rt_env w Commit id) (sha256_hex (rt_secret w)) (rt_secret w) (rt_urls w Commit id) n)
    as [Hnone Hnew]; [done|done|by eapply Hp2| | |done|done|].
  { destruct (Hs2 id n Hn) as (Hm & _). destruct (st_old _ _ _ Hprep). by apply accepts_memory; rewrite ?Hm. }
  { by rewrite (first_line_visible _ (proj1 (shape_visible _ (st_new _ _ _ Hprep)))). }
  destruct (Hs2 id n Hn) as (Hm & _). rewrite Hm in *.
  rewrite (rollback_others w _ _ _ _ s3 id Hnd3).
  - rewrite Hs3, decide_True, Hn by done. cbn. f_equal. apply load_active; [done|apply (st_new _ _ _ Hprep)].
  - rewrite Hg3. intros (_ & n0 & a & Hn0 & Ha). by simplify_eq.
Qed.

(** A commit that is rolled back leaves the old secret on the disk and the
    credentials sealed under the new one. *)
Theorem rollback_leaves_stores_rekeyed e e' fp n old new n' n'' p stage :
  valid_secret_shape new = true → idle (e_clock e) old n → pending n = Some new →
  rotate_commit sha256_hex e p fp n = (Ok (), n') →
  rotate_rollback e' p stage n' = (Ok (), n'') → stage = "committed" →
  load_cluster_secret n'' = old ∧ stores n'' = (reencrypt_all_at_rest (e_pass e) old new (stores n)).2.
Proof.
  intros Hs Hi Hp Hc Hr ->. pose proof (commit_step sha256_hex e p fp old new n Hs Hi Hp) as Hstep. rewrite Hc in Hstep.
  destruct Hstep as [_ (_ & b & Hb & Hl)]. destruct Hi as (_ & Hload & _).
  apply commit_ok in Hc as (s & Hp' & _ & _ & Hst). rewrite Hp in Hp'. injection Hp' as <-.
  apply shape_visible in Hs as [Hv [Hne _]]. rewrite (first_line_visible _ Hv), bool_decide_false, Hload in Hst by done.
  unfold rotate_rollback in Hr. destruct (require_auth e' n' p); cbn [negb] in Hr; [|done].
  change (bool_decide ("committed" = "pending")) with false in Hr.
  change (bool_decide ("committed" = "committed")) with true in Hr. cbn match in Hr. rewrite Hb in Hr.
  destruct (e_restore e') as [|?]; cbn in Hr; [|done]. injection Hr as <-. by rewrite <-Hst.
Qed.
End Theorems.

(** ** Instances *)
Module Runs.
Import Toy.
Definition first_secret : string := "wsk_0000000000000000000000000000000000000000000000000000000000000000".
Definition next_secret : string := "wsk_1111111111111111111111111111111111111111111111111111111111111111".
Definition at_rest : Vaults := mk_vaults [] Missing Missing [obfuscate DNS (mk_keys (Some first_secret) first_secret) (nonces 0) "token"] [] [].
Definition node_on (s : string) : RotNode := mk_rot_node (Some s) None {[ 5 := "older" ]} s at_rest.
Definition disk (rename : bool) : Env :=
  mk_env false false true true 20 1 Written Written rename Written Written true (λ _, true) healthy.
Definition fine : Env := disk true.
Definition full : Env := disk false.

(** Two peers; the second cannot commit, or its answer to the commit is lost. *)
Definition plan (envs : string → Env) (urls : Stage → string → list Delivery) : RotWorld :=
  mk_rot_world true false ["b"; "c"] (λ _, envs) urls fine next_secret.
Definition reached (st : Stage) (id : string) : list Delivery := [NoRequest; Answered].
Definition smooth : RotWorld := plan (λ _, fine) reached.
Definition stuck : RotWorld := plan (λ id, if bool_decide (id = "c") then full else fine) reached.
Definition lossy : RotWorld :=
  plan (λ _, fine) (λ st id, match st with Commit => if bool_decide (id = "c") then [NoReply] else [Answered] | _ => [Answered] end).
Definition fleet : gmap string RotNode := {["b" := node_on first_secret; "c" := node_on first_secret]}.
Definition coordinator : RotNode := node_on first_secret.
Definition outcome_of (w : RotWorld) : Outcome * string * list (string * string) :=
  let '(o, self', s') := coordinated_rotate hex w coordinator fleet in
  (o, load_cluster_secret self', map_to_list (load_cluster_secret <$> s')).

Lemma prepared envs urls : (∀ id, e_clock (envs id) = 20) → Prepared (plan envs urls) coordinator fleet.
Proof.
  intros Hc. split.
  - refine (bool_decide_unpack _ _). by vm_compute.
  - intros id. rewrite <-elem_of_dom. unfold fleet. rewrite dom_insert, dom_singleton. cbn. set_solver.
  - split; [|by vm_compute]. split; by vm_compute.
  - by vm_compute.
  - intros id n Hn. cbn. rewrite Hc. assert (n = node_on first_secret) as ->.
    { unfold fleet in Hn. apply lookup_insert_Some in Hn as [[_ <-]|[_ [_ <-]%lookup_singleton_Some]]; done. }
    split; [done|]. split; [by vm_compute|]. split; [by eexists|]. by apply map_Forall_singleton.
Qed.

Lemma settled envs : (∀ id, e_clock (envs id) = 20) → (∀ id, e_restore (envs id) = Written ∧ e_signature_ok (envs id) = true) →
  Settled (plan envs reached) coordinator fleet.
Proof.
  intros Hc He. split; [by apply prepared| | |done].
  - intros id _. cbn. unfold reached. set_solver.
  - intros id _. cbn. destruct (He id). split_and!; [|done|done]. unfold reached. set_solver.
Qed.

(** All three nodes on the new secret, or none: the second peer cannot commit. *)
Lemma rotation_refines_witness :
  outcome_of smooth = (Rotated, next_secret, [("c", next_secret); ("b", next_secret)]) ∧
  outcome_of stuck = (CommitAbort, first_secret, [("c", first_secret); ("b", first_secret)]) ∧
  let '(o, self', s') := coordinated_rotate hex stuck coordinator fleet in
  Atomic next_secret o (secrets coordinator fleet) (secrets self' s').
Proof.
  split; [by vm_compute|]. split; [by vm_compute|].
  apply (rotation_refines hex stuck coordinator fleet). apply settled; intros id; by case_bool_decide.
Defined.

Lemma mixed_until_restart_witness :
  ∃ n, (coordinated_rotate hex smooth coordinator fleet).2 !! "b" = Some n ∧
    require_auth fine n first_secret = true ∧ require_auth fine n next_secret = true ∧
    require_auth fine (restart n) first_secret = false.
Proof.
  destruct ((coordinated_rotate hex smooth coordinator fleet).2 !! "b") as [n|] eqn:E; [|by vm_compute in E].
  exists n. split; [done|]. assert (load_cluster_secret n = next_secret) as Hl.
  { vm_compute in E. injection E as <-. by vm_compute. }
  assert (secret_ok first_secret) as Hf by by split.
  assert (secret_ok next_secret) as Hs by by split.
  assert (map_Forall (λ _ n, memory n = first_secret) fleet) as Hall.
  { apply map_Forall_insert_2; [done|]. by apply map_Forall_singleton. }
  pose proof (mixed_until_restart hex smooth coordinator fleet Hf ltac:(done) Hall "b" n fine E eq_refl) as Hm.
  rewrite Hl in Hm. destruct (Hm Hs ltac:(done)) as (H1 & H2 & H3). split; [exact H1|]. split; [exact H2|]. by apply H3.
Defined.

(** A node on the default, after its commit. *)
Definition fresh : RotNode := mk_rot_node None (Some next_secret) ∅ CLUSTER_SECRET at_rest.

Lemma default_commit_is_final_witness :
  let n := (rotate_commit hex fine CLUSTER_SECRET (hex next_secret) fresh).2 in
  load_cluster_secret n = next_secret ∧ require_auth fine n CLUSTER_SECRET = false ∧
  call (rotate_rollback fine CLUSTER_SECRET "committed") [Answered; Answered] n = (None, n).
Proof.
  intros n. split; [by vm_compute|].
  destruct (default_commit_is_final hex fine fine CLUSTER_SECRET (hex next_secret) fresh n next_secret)
    as [H1 H2]; [done|by vm_compute|done|done|by vm_compute|]. split; [exact H1|apply H2].
Defined.

Lemma lost_answer_strands_peer_witness :
  outcome_of lossy = (CommitAbort, first_secret, [("c", next_secret); ("b", first_secret)]) ∧
  load_cluster_secret <$> (coordinated_rotate hex lossy coordinator fleet).2 !! "c" = Some next_secret.
Proof.
  split; [by vm_compute|].
  pose proof (lost_answer_strands_peer hex lossy coordinator fleet "c") as Hl.
  assert ((coordinated_rotate hex lossy coordinator fleet).1.1 = CommitAbort) as Ho by by vm_compute.
  destruct (coordinated_rotate hex lossy coordinator fleet) as [[o self'] s'].
  apply Hl; [by apply prepared|cbn; set_solver..|done|done|done|exact Ho].
Defined.

(** The credential on the rolled-back node reads as nothing under the restored
    secret, and as it was under the abandoned one. *)
Lemma rollback_leaves_stores_rekeyed_witness :
  let n := node_on first_secret <| pending := Some next_secret |> in
  let n' := (rotate_commit hex fine first_secret (hex next_secret) n).2 in
  let n'' := (rotate_rollback fine first_secret "committed" n').2 in
  load_cluster_secret n'' = first_secret ∧
  stores n'' = (reencrypt_all_at_rest healthy first_secret next_secret at_rest).2 ∧
  deobfuscate DNS (mk_keys (Some first_secret) first_secret) (default "" (v_dns (stores n'') !! 0%nat)) = "" ∧
  deobfuscate DNS (mk_keys (Some next_secret) next_secret) (default "" (v_dns (stores n'') !! 0%nat)) = "token".
Proof.
  intros n n' n''.
  destruct (rollback_leaves_stores_rekeyed hex fine fine (hex next_secret) n first_secret next_secret n' n'' first_secret "committed")
    as [H1 H2]; [by vm_compute| |done|by vm_compute|by vm_compute|done|].
  - split; [done|]. split; [by vm_compute|]. split; [by eexists|]. by apply map_Forall_singleton.
  - split; [exact H1|]. split; [exact H2|]. rewrite H2. split; by vm_compute.
Defined.
End Runs.
