(* ===== verification/AgentTools.v ===== *)
(** * AI agents: tools, policy and denylists (src/src/wolfagents/)

    The tools a language model can name and how dangerous each is, the decision
    whether a call runs, is queued for an operator or is refused (tools.rs),
    the fixed denylists (safety.rs), and the tests of names, paths, addresses
    and recipients against an agent's scope (dispatch.rs).  Messages are left
    out; strings are bytes, of which [chars] makes characters; the [regex] crate
    is a parameter. *)
From S2P Require Import Prelude Net.

(** ** Tools (tools.rs) *)
Inductive Danger := Safe | Mutating | Destructive.

Inductive ToolId :=
| ListNodes | ListContainers | GetMetrics | ListAlerts | ReadLog | CheckDiskUsage
| ReadFile | ListApiEndpoints | DescribeCluster | ListWorkflows | WebFetch | WebRender
| SemanticSearch | RestartContainer | RunWorkflow | ScheduleWorkflow | WriteFile | SendEmail
| ExecInContainer | ExecOnNode | DeleteFile | WolfstackApi | SqlRead | SqlUpdate
| SqlDelete.
#[global] Instance ToolId_eq_dec : EqDecision ToolId.
Proof. solve_decision. Defined.

Definition as_str (t : ToolId) : string :=
  match t with
  | ListNodes => "list_nodes"
  | ListContainers => "list_containers"
  | GetMetrics => "get_metrics"
  | ListAlerts => "list_alerts"
  | ReadLog => "read_log"
  | CheckDiskUsage => "check_disk_usage"
  | ReadFile => "read_file"
  | ListApiEndpoints => "list_api_endpoints"
  | DescribeCluster => "describe_cluster"
  | ListWorkflows => "list_workflows"
  | WebFetch => "web_fetch"
  | WebRender => "web_render"
  | SemanticSearch => "semantic_search"
  | RestartContainer => "restart_container"
  | RunWorkflow => "run_workflow"
  | ScheduleWorkflow => "schedule_workflow"
  | WriteFile => "write_file"
  | SendEmail => "send_email"
  | ExecInContainer => "exec_in_container"
  | ExecOnNode => "exec_on_node"
  | DeleteFile => "delete_file"
  | WolfstackApi => "wolfstack_api"
  | SqlRead => "sql_read"
  | SqlUpdate => "sql_update"
  | SqlDelete => "sql_delete"
  end.

Definition from_str (s : string) : option ToolId :=
  if bool_decide (s = "list_nodes") then Some ListNodes else
  if bool_decide (s = "list_containers") then Some ListContainers else
  if bool_decide (s = "get_metrics") then Some GetMetrics else
  if bool_decide (s = "list_alerts") then Some ListAlerts else
  if bool_decide (s = "read_log") then Some ReadLog else
  if bool_decide (s = "check_disk_usage") then Some CheckDiskUsage else
  if bool_decide (s = "read_file") then Some ReadFile else
  if bool_decide (s = "list_api_endpoints") then Some ListApiEndpoints else
  if bool_decide (s = "describe_cluster") then Some DescribeCluster else
  if bool_decide (s = "list_workflows") then Some ListWorkflows else
  if bool_decide (s = "web_fetch") then Some WebFetch else
  if bool_decide (s = "web_render") then Some WebRender else
  if bool_decide (s = "semantic_search") then Some SemanticSearch else
  if bool_decide (s = "restart_container") then Some RestartContainer else
  if bool_decide (s = "run_workflow") then Some RunWorkflow else
  if bool_decide (s = "schedule_workflow") then Some ScheduleWorkflow else
  if bool_decide (s = "write_file") then Some WriteFile else
  if bool_decide (s = "send_email") then Some SendEmail else
  if bool_decide (s = "exec_in_container") then Some ExecInContainer else
  if bool_decide (s = "exec_on_node") then Some ExecOnNode else
  if bool_decide (s = "delete_file") then Some DeleteFile else
  if bool_decide (s = "wolfstack_api") then Some WolfstackApi else
  if bool_decide (s = "sql_read") then Some SqlRead else
  if bool_decide (s = "sql_update") then Some SqlUpdate else
  if bool_decide (s = "sql_delete") then Some SqlDelete else
  None.

Definition ALL : list ToolId :=
  [ListNodes; ListContainers; GetMetrics; ListAlerts; ReadLog; CheckDiskUsage;
   ReadFile; ListApiEndpoints; DescribeCluster; ListWorkflows; WebFetch; WebRender;
   SemanticSearch; RestartContainer; RunWorkflow; ScheduleWorkflow; WriteFile; SendEmail;
   ExecInContainer; ExecOnNode; DeleteFile; WolfstackApi; SqlRead; SqlUpdate;
   SqlDelete].

Definition danger (t : ToolId) : Danger :=
  match t with
  | ListNodes | ListContainers | GetMetrics | ListAlerts | ReadLog | CheckDiskUsage | ReadFile
  | ListApiEndpoints | DescribeCluster | ListWorkflows | WebFetch | WebRender | SemanticSearch => Safe
  | RestartContainer | RunWorkflow | ScheduleWorkflow | WriteFile | SendEmail | WolfstackApi
  | SqlRead | SqlUpdate => Mutating
  | ExecInContainer | ExecOnNode | DeleteFile | SqlDelete => Destructive
  end.

(** ** Agents (mod.rs) *)
Inductive AccessLevel := ReadOnly | ReadWrite | ConfirmAll | Trusted.

Record TargetScope := mk_scope {
  allowed_clusters : list string;
  allowed_container_patterns : list string;
  allowed_hosts : list string;
  allowed_paths : list string;
  allowed_api_paths : list string;
  allowed_email_recipients : list string;
  allowed_sql_connections : list string
}.

(** The persona, the model and the chat bindings are left out. *)
Record Agent := mk_agent {
  a_id : string;
  a_allowed_tools : list string;
  a_access_level : AccessLevel;
  a_target_scope : TargetScope;
  a_sql_read : bool; a_sql_update : bool; a_sql_delete : bool
}.
#[global] Instance Agent_eta : Eta Agent := λ a,
  mk_agent (a_id a) (a_allowed_tools a) (a_access_level a) (a_target_scope a)
    (a_sql_read a) (a_sql_update a) (a_sql_delete a).

Inductive AuthDecision := Allow | NeedsConfirmation | Deny.

Definition authorise (agent : Agent) (tool : ToolId) : AuthDecision :=
  if negb (bool_decide (as_str tool ∈ a_allowed_tools agent)) then Deny else
  match danger tool, a_access_level agent with
  | Safe, _ => Allow
  | Mutating, ReadOnly => Deny
  | Mutating, ConfirmAll => NeedsConfirmation
  | Mutating, (ReadWrite | Trusted) => Allow
  | Destructive, ReadOnly => Deny
  | Destructive, (ReadWrite | ConfirmAll) => NeedsConfirmation
  | Destructive, Trusted => Allow
  end.

(** ** The denylists (safety.rs) *)
Definition COMMAND_DENY_PATTERNS : list string := [
  "rm\s+.*\s+/(\*)?\s*$";
  "rm\s+.*--no-preserve-root";
  "rm\s+.*\s+/(bin|boot|dev|etc|lib|lib64|lost\+found|media|mnt|opt|proc|root|run|sbin|srv|sys|usr|var)/?(\s|$)";
  "rm\s+.*\s+/home/?(\s|$)";
  "rm\s+.*\s+\*\s*$";
  "rm\s+.*\s+(~|\$HOME)(\s|/|$)";
  "dd\s+.*of=/dev/(sd|nvme|vd|xvd|mmcblk|loop|zram)";
  "mkfs\.[a-z0-9]+\s+/dev/(sd|nvme|vd|xvd|mmcblk)";
  "wipefs\s+.*/dev/(sd|nvme|vd|xvd|mmcblk)";
  ">\s*/dev/(sd|nvme|vd|xvd|mmcblk)";
  "sgdisk\s+(-Z|--zap-all)";
  "parted\s+.*(mklabel|rm)\s+";
  "iptables\s+-[tF]";
  "iptables\s+--flush";
  "nft\s+flush\s+ruleset";
  "ufw\s+(disable|--force\s+reset)";
  ":\s*\(\s*\)\s*\{.*:\|:";
  "while\s+true\s*;?\s*do.*fork";
  "(curl|wget|fetch)\s+.*\|\s*(sudo\s+)?(bash|sh|zsh|ksh|dash|csh)";
  "systemctl\s+(stop|disable|mask|kill)\s+(wolfstack|wolfusb|wolfnet)";
  "systemctl\s+stop\s+.*\.service.*wolf";
  "kill(all)?\s+.*wolfstack";
  "pkill\s+.*wolfstack";
  ">\s*/etc/(passwd|shadow|sudoers|sudoers\.d)";
  "tee\s+/etc/(passwd|shadow|sudoers|sudoers\.d)";
  "^\s*(shutdown|reboot|halt|poweroff|init\s+0|init\s+6)(\s|$)";
  ";\s*(shutdown|reboot|halt|poweroff)(\s|$)";
  "&&\s*(shutdown|reboot|halt|poweroff)(\s|$)";
  "chmod\s+-R\s+777\s+/\s*$";
  "chmod\s+.*\s+/(etc|boot|root|var|usr)(\s|/|$)";
  "umount\s+(/|/usr|/var|/boot|/etc)(\s|$)";
  ">\s*/var/log/(auth|syslog|audit|wolfstack)";
  "truncate\s+.*/var/log/";
  "(history\s+-c|unset\s+HISTFILE)"
].

Definition PATH_DENY_PREFIXES : list string := [
  "/etc/passwd";
  "/etc/shadow";
  "/etc/gshadow";
  "/etc/sudoers";
  "/etc/sudoers.d";
  "/etc/ssh/";
  "/root/.ssh/";
  "/home/*/.ssh/";
  "/etc/wolfstack/cluster-secret";
  "/etc/wolfstack/alerts.json";
  "/etc/wolfstack/agents.json";
  "/etc/wolfstack/agents/";
  "/etc/wolfstack/ai.json";
  "/etc/wolfstack/wolfusb.json";
  "/etc/wolfstack/sql-connections.json";
  "/etc/wolfstack/sql-saved-queries.json";
  "/var/log/wolfstack/sql-audit.log";
  "/etc/wolfstack/oidc.json";
  "/boot/";
  "/dev/";
  "/proc/";
  "/sys/";
  "/etc/systemd/system/";
  "/lib/systemd/system/";
  "/usr/lib/systemd/system/";
  "/var/lib/dpkg/";
  "/var/lib/rpm/";
  "/var/lib/pacman/"
].

Definition API_DENY_PATTERNS : list string := [
  "^/api/auth(/|$)";
  "^/api/users(/|$)";
  "^/api/agents(/|$)";
  "^/api/ports(/|$)";
  "^/api/system/install-package$";
  "^/api/cluster-secret";
  "^/cluster-secret";
  "^/api/plugins(/|$)";
  "^/api/wolfstack/update(/|$)";
  "/shutdown$";
  "/reboot$";
  "^/api/sql-connections(/|$)";
  "^/api/nodes/[^/]+/ips$";
  "^/api/mysql(/|$)"
].

Section Regex.
(** [Regex::new(pattern)] and its [is_match]. *)
Context (regex : string → option (string → bool)).

Definition refused_by (patterns : list string) (s : string) : bool :=
  existsb (λ p, match regex p with Some is_match => is_match s | None => false end) patterns.

Definition validate_command (cmd : string) : bool :=
  let normalised := trim cmd in
  if bool_decide (normalised = "") then false else negb (refused_by COMMAND_DENY_PATTERNS normalised).

Definition validate_api_path (path : string) : bool := negb (refused_by API_DENY_PATTERNS path).
End Regex.

(** [trim_end_matches(x)] *)
Fixpoint trim_end_char (x : ascii) (s : string) : string :=
  match s with
  | EmptyString => ""
  | String c s =>
      match trim_end_char x s with
      | EmptyString => if bool_decide (c = x) then "" else String c ""
      | s' => String c s'
      end
  end.

(** [while out.len() > 1 && out.ends_with('/') { out.pop(); }] *)
Definition pop_slashes (s : string) : string :=
  match s with EmptyString => "" | String c s => String c (trim_end_char "/" s) end.

(** [replace("/./", "/")], and its loop. *)
Fixpoint squeeze (s : string) : string :=
  match s with
  | String "/" (String "." (String "/" r)) => String "/" (squeeze r)
  | String c r => String c (squeeze r)
  | EmptyString => ""
  end.
Fixpoint collapse (fuel : nat) (s : string) : string :=
  match fuel with
  | O => s
  | S fuel => if contains_str "/./" s then collapse fuel (squeeze s) else s
  end.

Definition normalise_path (path : string) : string :=
  let out := pop_slashes (trim path) in collapse (String.length out) out.

Definition path_matches_prefix (path prefix : string) : bool :=
  if contains_char "*" prefix then
    let p_segments := split_on "/" (trim_end_char "/" prefix) in
    let path_segments := split_on "/" path in
    if bool_decide (length path_segments < length p_segments)%nat then false else
    forallb (λ '(p, s), bool_decide (p = "*") || bool_decide (s = p)) (zip p_segments path_segments)
  else String.prefix prefix path.

Definition validate_path (path : string) : bool :=
  let normalised := normalise_path path in
  negb (existsb (path_matches_prefix normalised) PATH_DENY_PREFIXES).

(** ** An agent's scope (dispatch.rs) *)

(** [s.chars()]: a string is its UTF-8 bytes, and a character a first byte
    with the continuation bytes after it. *)
Definition is_continuation (c : ascii) : bool := char_between 128 191 c.
Fixpoint chars (s : string) : list string :=
  match s with
  | EmptyString => []
  | String c s =>
      match chars s with
      | String d u :: l =>
          if is_continuation d then String c (String d u) :: l else String c "" :: String d u :: l
      | l => String c "" :: l
      end
  end.

(** The loop of [glob_match]: the positions in the pattern and the text, the
    last star and where its match began.  [None]: out of fuel. *)
Fixpoint glob_loop (fuel : nat) (p t : list string) (p_idx s_idx : nat) (star_p : option nat) (star_s : nat) :
    option bool :=
  if bool_decide (length t ≤ s_idx)%nat
  then Some (bool_decide (Forall (λ c, c = "*") (drop p_idx p)))
  else match fuel with
  | O => None
  | S fuel =>
      if bool_decide (p !! p_idx = t !! s_idx) || bool_decide (p !! p_idx = Some "?")
      then glob_loop fuel p t (S p_idx) (S s_idx) star_p star_s
      else if bool_decide (p !! p_idx = Some "*")
      then glob_loop fuel p t (S p_idx) s_idx (Some p_idx) s_idx
      else match star_p with
      | Some sp => glob_loop fuel p t (S sp) (S star_s) star_p (S star_s)
      | None => Some false
      end
  end.
Definition glob_fuel (p t : list string) : nat := length t * S (length t + length p) + length t + length p.
Definition glob_match (pattern s : string) : bool :=
  let p := chars pattern in
  let t := chars s in
  default false (glob_loop (S (glob_fuel p t)) p t 0 0 None 0).

Definition matches_container_pattern (name : string) (patterns : list string) : bool :=
  bool_decide (patterns = []) || existsb (λ pat, glob_match pat name) patterns.

Definition path_allowed (path : string) (agent : Agent) : bool :=
  let list := allowed_paths (a_target_scope agent) in
  bool_decide (list = []) || existsb (λ prefix, String.prefix prefix path) list.

(** [a.ends_with(e)] *)
Fixpoint ends_with (e a : string) : bool :=
  bool_decide (a = e) || match a with EmptyString => false | String _ a => ends_with e a end.

Definition recipient_permitted (addr : string) (allowed : list string) (default_to : string) : bool :=
  let a := to_ascii_lowercase addr in
  if bool_decide (allowed = []) then
    negb (bool_decide (default_to = "")) && bool_decide (to_ascii_lowercase default_to = a)
  else existsb (λ entry,
    let e := to_ascii_lowercase (trim entry) in
    if bool_decide (e = "") then false
    else if String.prefix "@" e then ends_with e a else bool_decide (a = e)) allowed.

(** ** Addresses on the web (dispatch.rs) *)

(** What comes after the first [sep], if there is one. *)
Fixpoint after (sep s : string) : option string :=
  if String.prefix sep s then Some (str_drop (String.length sep) s) else
  match s with EmptyString => None | String _ s => after sep s end.

(** Up to the first of the characters [p]. *)
Fixpoint until (p : ascii → bool) (s : string) : string :=
  match s with EmptyString => "" | String c s => if p c then "" else String c (until p s) end.

Definition extract_host (url : string) : option string :=
  after_scheme ← after "://" url;
  let authority := until (λ c, bool_decide (c ∈ ["/"; "?"; "#"]%char)) after_scheme in
  let hostport := default authority (last (split_on "@" authority)) in
  match hostport with
  | String "[" rest => if contains_char "]" rest then Some (until (λ c, bool_decide (c = "]"%char)) rest) else None
  | _ => let host := until (λ c, bool_decide (c = ":"%char)) hostport in
         if bool_decide (host = "") then None else Some host
  end.

Definition is_ip_private (ip : IpAddr) : bool :=
  match ip with
  | V4 n =>
      is_loopback ip || v4_private n || v4_link_local n || is_unspecified ip || (n =? 2 ^ 32 - 1)
      || ((Z.shiftr n 24 =? 100) && (64 <=? Z.land (Z.shiftr n 16) 255) && (Z.land (Z.shiftr n 16) 255 <=? 127))
  | V6 n =>
      is_loopback ip || is_unspecified ip
      || (Z.land (segment0 n) 0xfe00 =? 0xfc00) || v6_link_local n
  end.

(** [resolve host]: the addresses of [host:80], or no resolution. *)
Definition resolve_public (resolve : string → option (list IpAddr)) (host : string) : bool :=
  match resolve host with
  | None | Some [] => false
  | Some addrs => negb (existsb is_ip_private addrs)
  end.
