(* ===== verification/AgentGate.v ===== *)
(** * AI agents: from a tool call to its effect (src/src/wolfagents/)

    What each tool checks of its arguments before it acts, the dispatcher
    (dispatch.rs), the queue of calls that await an operator behind its lock
    (pending.rs), the operator's handlers (src/src/api/mod.rs), and the
    registry of agents (mod.rs).  A tool ends in the [Effect] it is about to
    have; reading tools without checks of their own are [Observes]. *)
From S2P Require Import Prelude Net AgentTools.

(** ** Arguments of a call *)
Inductive Json :=
| JNull | JBool (b : bool) | JNum (n : Z) | JStr (s : string)
| JArr (items : list Json) | JObj (fields : list (string * Json)).

Fixpoint field (key : string) (fields : list (string * Json)) : option Json :=
  match fields with
  | (k, v) :: fields => if bool_decide (k = key) then Some v else field key fields
  | [] => None
  end.
Definition get (key : string) (v : Json) : option Json :=
  match v with JObj fields => field key fields | _ => None end.
Definition as_string (v : Json) : option string := match v with JStr s => Some s | _ => None end.
Definition as_bool (v : Json) : option bool := match v with JBool b => Some b | _ => None end.

(** [args.get(key).and_then(|v| v.as_str()).unwrap_or(d)] *)
Definition str_arg (args : Json) (key d : string) : string := default d (get key args ≫= as_string).

(** [Option::or_else] *)
Definition or_else {A} (a b : option A) : option A := match a with Some _ => a | None => b end.

(** ** What a call can do *)
Inductive SqlPermission := Read | Update | Delete | Schema.
Inductive FileOp := FRead | FWrite (content : string) (append : bool) | FRemove.
Inductive Effect :=
| Observes (tool : ToolId)
| OnFile (node : string) (op : FileOp) (path : string)
| Restarts (runtime name : string)
| RunsIn (runtime name command : string)
| RunsHere (command : string)
| RunsReadOnly (node command : string)
| CallsApi (method path : string) (urls : list string)
| Mails (recipients : list string) (subject body : string) (html : bool)
| Fetches (rendered : bool) (url : string)
| Queries (connection query : string) (permission : SqlPermission)
| StartsWorkflow (id : string)
| SchedulesWorkflow (id : string) (schedule : option string) (enabled : option bool).

Record NodeView := mk_node { nv_id : string; nv_hostname : string; nv_self : bool; nv_online : bool }.

(** The node's surroundings; ports in decimal. *)
Record AgentWorld := mk_agent_world {
  w_regex : string → option (string → bool);
  w_resolve : string → option (list IpAddr);
  w_self_id : string;
  w_nodes : list NodeView;
  w_api_port : string; w_inter_node_port : string;
  w_smtp_host : string; w_email_to : string;
  w_workflow : string → bool;
  w_outcome : Effect → bool
}.

(** ports.rs *)
Definition self_api_urls (w : AgentWorld) (path : string) : list string :=
  let at_port scheme port := scheme +:+ "://127.0.0.1:" +:+ port +:+ path in
  [at_port "https" (w_api_port w); at_port "http" (w_api_port w)] ++
  (if bool_decide (w_inter_node_port w = w_api_port w) then [] else [at_port "http" (w_inter_node_port w)]).

Definition to_upper (c : ascii) : ascii := if char_between 97 122 c then ascii_of_nat (nat_of_ascii c - 32) else c.
Fixpoint to_uppercase (s : string) : string :=
  match s with EmptyString => "" | String c s => String (to_upper c) (to_uppercase s) end.

(** The character classes of a cron field. *)
Definition cron_char (c : ascii) : bool := bool_decide (c ∈ ["*"; ","; "-"; "/"]%char) || char_between 48 57 c.

Definition MAX_CONTENT : Z := 8 * 1024 * 1024.
Definition MAX_MAIL : Z := 256 * 1024.

(** [s.len() > n] *)
Definition longer (s : string) (n : Z) : bool := n <? Z.of_nat (String.length s).

Section Tools.
Context (w : AgentWorld) (agent : Agent) (args : Json).

(** *** Files *)
Definition find_node (spec : string) : option NodeView :=
  List.find (λ n, bool_decide (nv_id n = spec) || bool_decide (nv_hostname n = spec)) (w_nodes w).
Definition is_local (node : string) : bool :=
  bool_decide (node = "") || bool_decide (node = "self") || bool_decide (node = w_self_id w)
  || match find_node node with Some n => nv_self n | None => false end.

(** The endpoint of another node. *)
Definition cluster_file_op (node : string) (op : FileOp) (body_path : string) : option Effect :=
  let path := trim body_path in
  if bool_decide (path = "") then None else
  if match op with FWrite content _ => longer content MAX_CONTENT | _ => false end then None else
  if negb (validate_path path) then None else Some (OnFile node op path).

Definition file_op (node : string) (op : FileOp) (path : string) : option Effect :=
  if is_local node then Some (OnFile "self" op path) else
  n ← find_node node;
  if nv_online n then cluster_file_op (nv_id n) op path else None.

Definition tool_file (op : FileOp) : option Effect :=
  let path := str_arg args "path" "" in
  let node := trim (str_arg args "node" "") in
  if bool_decide (path = "") then None else
  if negb (validate_path path) then None else
  if negb (path_allowed path agent) then None else
  if match op with FWrite content _ => longer content MAX_CONTENT | _ => false end then None else
  file_op node op path.

Definition tool_read_file : option Effect := tool_file FRead.
Definition tool_write_file : option Effect :=
  tool_file (FWrite (str_arg args "content" "") (default false (get "append" args ≫= as_bool))).
Definition tool_delete_file : option Effect := tool_file FRemove.

(** *** Containers and commands *)
Definition known_runtime (runtime : string) : bool := bool_decide (runtime = "docker") || bool_decide (runtime = "lxc").

Definition tool_restart_container : option Effect :=
  let runtime := str_arg args "runtime" "" in
  let name := str_arg args "name" "" in
  if bool_decide (runtime = "") || bool_decide (name = "") then None else
  if negb (known_runtime runtime) then None else
  if negb (matches_container_pattern name (allowed_container_patterns (a_target_scope agent))) then None else
  Some (Restarts runtime name).

Definition tool_exec_in_container : option Effect :=
  let runtime := str_arg args "runtime" "docker" in
  let name := str_arg args "name" "" in
  let command := str_arg args "command" "" in
  if bool_decide (name = "") || bool_decide (command = "") then None else
  if negb (validate_command (w_regex w) command) then None else
  if negb (matches_container_pattern name (allowed_container_patterns (a_target_scope agent))) then None else
  if negb (known_runtime runtime) then None else
  Some (RunsIn runtime name command).

Definition tool_exec_on_node : option Effect :=
  let node_id := str_arg args "node_id" "" in
  let command := str_arg args "command" "" in
  if bool_decide (node_id = "") || bool_decide (command = "") then None else
  if negb (validate_command (w_regex w) command) then None else
  let scope := allowed_hosts (a_target_scope agent) in
  if negb (bool_decide (scope = [])) && negb (bool_decide (node_id ∈ scope)) then None else
  if bool_decide (node_id = w_self_id w) then Some (RunsHere command) else
  n ← find_node node_id;
  if nv_online n then Some (RunsReadOnly (nv_id n) command) else None.

(** *** The node's own API *)
Definition tool_wolfstack_api : option Effect :=
  let method := to_uppercase (str_arg args "method" "GET") in
  let path := str_arg args "path" "" in
  if bool_decide (path = "") then None else
  if negb (bool_decide (method ∈ ["GET"; "POST"; "PUT"; "PATCH"; "DELETE"])) then None else
  if negb (validate_api_path (w_regex w) path) then None else
  let key := method +:+ ":" +:+ path in
  let matched := existsb (λ entry, bool_decide (entry = key) || bool_decide (entry = path) || glob_match entry key)
                   (allowed_api_paths (a_target_scope agent)) in
  if negb (bool_decide (method = "GET")) && negb matched then None else
  Some (CallsApi method path (self_api_urls w path)).

(** *** Mail *)
Definition to_arg : option (list string) :=
  match get "to" args with
  | Some (JStr s) => Some [trim s]
  | Some (JArr items) => Some (filter (λ s, s ≠ "") (trim <$> omap as_string items))
  | Some _ => None
  | None => Some []
  end.

Definition tool_send_email : option Effect :=
  let subject := trim (str_arg args "subject" "") in
  let body := str_arg args "body" "" in
  let html := default false (get "html" args ≫= as_bool) in
  if bool_decide (subject = "") then None else
  if bool_decide (body = "") then None else
  if longer body MAX_MAIL then None else
  recipients ← to_arg;
  if bool_decide (w_smtp_host w = "") then None else
  effective ← (if bool_decide (recipients = [])
               then if bool_decide (trim (w_email_to w) = "") then None else Some [w_email_to w]
               else Some recipients);
  if negb (forallb (λ r, recipient_permitted r (allowed_email_recipients (a_target_scope agent)) (w_email_to w)) effective)
  then None else
  Some (Mails effective subject body html).

(** *** The web *)
Definition tool_web_fetch (rendered : bool) : option Effect :=
  let url := trim (str_arg args "url" "") in
  if bool_decide (url = "") then None else
  let lower := to_ascii_lowercase url in
  if negb (String.prefix "http://" lower) && negb (String.prefix "https://" lower) then None else
  host ← extract_host url;
  if negb (resolve_public (w_resolve w) host) then None else
  Some (Fetches rendered url).

(** *** SQL *)
Definition tool_sql_query (requested : SqlPermission) : option Effect :=
  let has_perm := match requested with
                  | Read => a_sql_read agent || a_sql_update agent || a_sql_delete agent
                  | Update => a_sql_update agent
                  | Delete => a_sql_delete agent
                  | Schema => false
                  end in
  if negb has_perm then None else
  let connection_id := trim (default "" (or_else (get "connection_id" args) (get "connection" args) ≫= as_string)) in
  let query := str_arg args "query" "" in
  if bool_decide (connection_id = "") then None else
  if bool_decide (trim query = "") then None else
  if negb (bool_decide (connection_id ∈ allowed_sql_connections (a_target_scope agent))) then None else
  Some (Queries connection_id query requested).

(** *** Workflows *)
Definition tool_run_workflow : option Effect :=
  let id := str_arg args "workflow_id" "" in
  if bool_decide (id = "") || negb (w_workflow w id) then None else Some (StartsWorkflow id).

Definition schedule_arg : option (option string) :=
  match or_else (get "schedule" args) (get "cron" args) with
  | Some JNull | None => Some None
  | Some (JStr s) =>
      if bool_decide (trim s = "") then Some None else
      let fields := split_whitespace s in
      if bool_decide (length fields = 5%nat) && forallb (all_chars cron_char) fields then Some (Some s) else None
  | Some _ => None
  end.

Definition tool_schedule_workflow : option Effect :=
  let id := str_arg args "workflow_id" "" in
  if bool_decide (id = "") then None else
  schedule ← schedule_arg;
  if negb (w_workflow w id) then None else
  let enabled := match get "enabled" args ≫= as_bool with
                 | Some b => Some b
                 | None => if schedule is Some _ then Some true else None
                 end in
  Some (SchedulesWorkflow id schedule enabled).

Definition execute (tool : ToolId) : option Effect :=
  match tool with
  | ReadFile => tool_read_file
  | WebFetch => tool_web_fetch false
  | WebRender => tool_web_fetch true
  | RestartContainer => tool_restart_container
  | RunWorkflow => tool_run_workflow
  | ScheduleWorkflow => tool_schedule_workflow
  | WriteFile => tool_write_file
  | SendEmail => tool_send_email
  | ExecInContainer => tool_exec_in_container
  | ExecOnNode => tool_exec_on_node
  | DeleteFile => tool_delete_file
  | WolfstackApi => tool_wolfstack_api
  | SqlRead => tool_sql_query Read
  | SqlUpdate => tool_sql_query Update
  | SqlDelete => tool_sql_query Delete
  | ListNodes | ListContainers | GetMetrics | ListAlerts | ReadLog | CheckDiskUsage | ListApiEndpoints
  | DescribeCluster | ListWorkflows | SemanticSearch => Some (Observes tool)
  end.
End Tools.

(** ** The queue of pending calls (pending.rs) *)
Inductive Status := Pending | Approved | Denied | Expired.
#[global] Instance Status_eq_dec : EqDecision Status.
Proof. solve_decision. Defined.

Record PendingEntry := mk_pending {
  p_seq : Z; p_queued : Z; p_tool : string; p_arguments : Json; p_status : Status;
  p_decided_by : option string; p_decided_at : option Z; p_note : option string;
  p_result : option bool
}.
#[global] Instance PendingEntry_eta : Eta PendingEntry := λ e,
  mk_pending (p_seq e) (p_queued e) (p_tool e) (p_arguments e) (p_status e)
    (p_decided_by e) (p_decided_at e) (p_note e) (p_result e).

Definition PENDING_TTL_SECS : Z := 24 * 3600.

(** [PENDING_LOCK], one for all agents, and each agent's pending.jsonl: the
    lines that parse. *)
Record Queue := mk_queue { q_locked : bool; q_logs : gmap string (list PendingEntry) }.
#[global] Instance Queue_eta : Eta Queue := λ q, mk_queue (q_locked q) (q_logs q).

(** A call that returns, or waits for good. *)
Inductive Wait (A : Type) := Done (a : A) | Blocked.
Arguments Done {A} a.
Arguments Blocked {A}.

(** [let _g = PENDING_LOCK.lock().unwrap(); body]: the lock is not reentrant,
    and the guard is released when the body returns. *)
Definition locking {A} (body : Queue → Wait A * Queue) (q : Queue) : Wait A * Queue :=
  if q_locked q then (Blocked, q) else
  let '(r, q) := body (q <| q_locked := true |>) in
  match r with Done a => (Done a, q <| q_locked := false |>) | Blocked => (Blocked, q) end.

Definition latest (seq : Z) (log : list PendingEntry) : option PendingEntry :=
  last (filter (λ e, p_seq e = seq) log).

(** [writes]: whether the line could be appended. *)
Definition append (writes : bool) (id : string) (e : PendingEntry) (q : Queue) : bool * Queue :=
  if writes then (true, q <| q_logs := <[id := default [] (q_logs q !! id) ++ [e]]> (q_logs q) |>) else (false, q).

Definition expire (now : Z) (e : PendingEntry) : PendingEntry :=
  if bool_decide (p_status e = Pending) && (PENDING_TTL_SECS <? Z.max 0 (now - p_queued e))
  then e <| p_status := Expired |> else e.

Definition load_all (now : Z) (id : string) : Queue → Wait (list PendingEntry) * Queue :=
  locking (λ q,
    let log := default [] (q_logs q !! id) in
    let seqs := merge_sort Z.le (remove_dups (p_seq <$> log)) in
    (Done (expire now <$> omap (λ s, latest s log) seqs), q)).

Definition list_open (now : Z) (id : string) (q : Queue) : Wait (list PendingEntry) * Queue :=
  let '(r, q) := load_all now id q in
  (match r with Done l => Done (filter (λ e, p_status e = Pending) l) | Blocked => Blocked end, q).

Definition next_seq (now : Z) (id : string) (q : Queue) : Wait Z * Queue :=
  let '(r, q) := load_all now id q in
  (match r with Done l => Done (foldr Z.max 0 (p_seq <$> l) + 1) | Blocked => Blocked end, q).

Definition enqueue (writes : bool) (now : Z) (id : string) (tool : ToolId) (args : Json) :
    Queue → Wait (option Z) * Queue :=
  locking (λ q,
    let '(r, q) := next_seq now id q in
    match r with
    | Blocked => (Blocked, q)
    | Done seq =>
        let '(ok, q) := append writes id (mk_pending seq now (as_str tool) args Pending None None None None) q in
        (Done (if ok then Some seq else None), q)
    end).

Definition load_one_locked (id : string) (seq : Z) (q : Queue) : option PendingEntry :=
  log ← q_logs q !! id; latest seq log.

(** [approve] and [deny]. *)
Definition decide_entry (verdict : Status) (writes : bool) (now : Z) (id : string) (seq : Z) (by_ : string)
    (note : option string) : Queue → Wait (option PendingEntry) * Queue :=
  locking (λ q,
    match load_one_locked id seq q with
    | None => (Done None, q)
    | Some orig =>
        if negb (bool_decide (p_status orig = Pending)) then (Done None, q) else
        let updated := orig <| p_status := verdict |> <| p_decided_by := Some by_ |>
                         <| p_decided_at := Some now |> <| p_note := note |> in
        let '(ok, q) := append writes id updated q in
        (Done (if ok then Some updated else None), q)
    end).
Definition approve := decide_entry Approved.
Definition deny := decide_entry Denied.

Definition record_execution (writes : bool) (id : string) (seq : Z) (result : bool) : Queue → Wait bool * Queue :=
  locking (λ q,
    match load_one_locked id seq q with
    | None => (Done false, q)
    | Some orig => let '(ok, q) := append writes id (orig <| p_result := Some result |>) q in (Done ok, q)
    end).

(** ** The dispatcher (dispatch.rs) *)
Inductive Reply :=
| UnknownTool | Refused | Queued (seq : Z) | NotQueued | Rejected | Did (e : Effect) (ok : bool) | Hung.

(** What the audit log keeps of a call. *)
Record AgentState := mk_agent_state { s_queue : Queue; s_audit : list (string * option ToolId * Reply) }.
#[global] Instance AgentState_eta : Eta AgentState := λ s, mk_agent_state (s_queue s) (s_audit s).

Definition audited (id : string) (tool : option ToolId) (r : Reply) (s : AgentState) : Reply * AgentState :=
  (r, s <| s_audit := s_audit s ++ [(id, tool, r)] |>).

Definition dispatch (w : AgentWorld) (writes : bool) (now : Z) (agent : Agent) (tool_name : string) (args : Json)
    (s : AgentState) : Reply * AgentState :=
  match from_str tool_name with
  | None => audited (a_id agent) None UnknownTool s
  | Some tool =>
      match authorise agent tool with
      | Deny => audited (a_id agent) (Some tool) Refused s
      | NeedsConfirmation =>
          let '(r, q) := enqueue writes now (a_id agent) tool args (s_queue s) in
          let s := s <| s_queue := q |> in
          match r with
          | Blocked => (Hung, s)
          | Done (Some seq) => audited (a_id agent) (Some tool) (Queued seq) s
          | Done None => audited (a_id agent) (Some tool) NotQueued s
          end
      | Allow =>
          let r := match execute w agent args tool with Some e => Did e (w_outcome w e) | None => Rejected end in
          audited (a_id agent) (Some tool) r s
      end
  end.

(** ** The operator's handlers (api/mod.rs)

    [None]: refused before the queue is touched, or by it. *)
Definition agents_pending_approve (w : AgentWorld) (writes : bool) (now : Z) (user : option string)
    (agent : option Agent) (seq : Z) (note : option string) (s : AgentState) : Wait (option Reply) * AgentState :=
  match user, agent with
  | Some user, Some agent =>
      let '(r, q) := approve writes now (a_id agent) seq user note (s_queue s) in
      let s := s <| s_queue := q |> in
      match r with
      | Blocked => (Blocked, s)
      | Done None => (Done None, s)
      | Done (Some entry) =>
          let trusted := agent <| a_access_level := Trusted |> in
          let '(result, s) := dispatch w writes now trusted (p_tool entry) (p_arguments entry) s in
          let ok := match result with Did _ ok => ok | _ => false end in
          let '(r, q) := record_execution writes (a_id agent) seq ok (s_queue s) in
          let s := s <| s_queue := q |> in
          (match r with Done _ => Done (Some result) | Blocked => Blocked end, s)
      end
  | _, _ => (Done None, s)
  end.

Definition agents_pending_deny (writes : bool) (now : Z) (user : option string) (agent : option Agent) (seq : Z)
    (note : option string) (s : AgentState) : Wait (option PendingEntry) * AgentState :=
  match user, agent with
  | Some user, Some agent =>
      let '(r, q) := deny writes now (a_id agent) seq user note (s_queue s) in (r, s <| s_queue := q |>)
  | _, _ => (Done None, s)
  end.

Definition agents_pending_list (now : Z) (authorised : bool) (agent : option Agent) (s : AgentState) :
    Wait (option (list PendingEntry)) * AgentState :=
  match authorised, agent with
  | true, Some agent =>
      let '(r, q) := load_all now (a_id agent) (s_queue s) in
      (match r with Done l => Done (Some l) | Blocked => Blocked end, s <| s_queue := q |>)
  | _, _ => (Done None, s)
  end.

(** ** The registry of agents (mod.rs)

    agents.json, and whether it could be saved. *)
Definition load (id : string) (agents : list Agent) : option Agent :=
  List.find (λ a, bool_decide (a_id a = id)) agents.

Definition save_all (saves : bool) (new agents : list Agent) : bool * list Agent :=
  if saves then (true, new) else (false, agents).

Fixpoint replace_first (agent : Agent) (agents : list Agent) : option (list Agent) :=
  match agents with
  | [] => None
  | a :: agents => if bool_decide (a_id a = a_id agent) then Some (agent :: agents)
                   else cons a <$> replace_first agent agents
  end.

Definition upsert (saves : bool) (agent : Agent) (agents : list Agent) : bool * list Agent :=
  save_all saves (default (agents ++ [agent]) (replace_first agent agents)) agents.

(** Also the agent's directory, and its pending.jsonl with it. *)
Definition delete_agent (saves : bool) (id : string) (agents : list Agent) (q : Queue) : bool * list Agent * Queue :=
  let kept := retain (λ a, negb (bool_decide (a_id a = id))) agents in
  if bool_decide (length kept = length agents) then (false, agents, q) else
  let '(ok, agents) := save_all saves kept agents in
  (ok, agents, if ok then q <| q_logs := delete id (q_logs q) |> else q).

Definition migrate_empty_allowed_tools (saves : bool) (agents : list Agent) : bool * list Agent :=
  let new := (λ a, if bool_decide (a_allowed_tools a = []) then a <| a_allowed_tools := as_str <$> ALL |> else a) <$> agents in
  if existsb (λ a, bool_decide (a_allowed_tools a = [])) agents then save_all saves new agents else (false, agents).

(** A chat is refused when the agent's budget of the minute is spent; an entry
    is the minute's start and what remains of it. *)
Definition CHAT_BUDGET_PER_MIN : Z := 20.
Definition consume_chat_budget (now : Z) (id : string) (m : gmap string (Z * Z)) : bool * gmap string (Z * Z) :=
  let '(start, remaining) := default (now, CHAT_BUDGET_PER_MIN) (m !! id) in
  let '(start, remaining) := if 60 <=? since now start / SEC then (now, CHAT_BUDGET_PER_MIN) else (start, remaining) in
  if remaining =? 0 then (false, <[id := (start, remaining)]> m) else (true, <[id := (start, remaining - 1)]> m).
