(* ===== verification/Cron.v ===== *)
(** * Workflows: when a cron expression matches

    wolfflow/mod.rs, the matcher of five-field cron expressions. *)
From S2P Require Import Prelude Net.

(** What the code reads of chrono's [Datelike] and [Timelike], of an instant in
    nanoseconds since the epoch. *)
Class Calendar := {
  cal_minute : Z → Z;
  cal_hour : Z → Z;
  cal_day : Z → Z;
  cal_month : Z → Z;
  (** [weekday().num_days_from_sunday()] *)
  cal_weekday : Z → Z
}.
Class CalendarLaws `{Calendar} : Prop := {
  minute_range t : 0 ≤ cal_minute t ≤ 59;
  hour_range t : 0 ≤ cal_hour t ≤ 23;
  day_range t : 1 ≤ cal_day t ≤ 31;
  month_range t : 1 ≤ cal_month t ≤ 12;
  weekday_range t : 0 ≤ cal_weekday t ≤ 6
}.

Definition parse_u32 : string → option Z := parse_uint (2 ^ 32 - 1).

(** The range a step counts in: [*] or [lo-hi]. *)
Definition step_range (range_part : string) (min max : Z) : option (Z * Z) :=
  if bool_decide (range_part = "*") then Some (min, max) else
  '(lo, hi) ← split_once "-" range_part;
  lo ← parse_u32 lo; hi ← parse_u32 hi; Some (lo, hi).

(** Seven is Sunday, as zero is. *)
Definition sunday (v : Z) : Z := if v =? 7 then 0 else v.

Definition single_field_matches (part : string) (value min max : Z) : bool :=
  match split_once "/" part with
  | Some (range_part, step_str) =>
      match parse_u32 step_str with
      | Some step =>
          if negb (0 <? step) then false else
          match step_range range_part min max with
          | Some (lo, hi) =>
              if (value <? lo) || (hi <? value) then false else (value - lo) mod step =? 0
          | None => false
          end
      | None => false
      end
  | None =>
      if bool_decide (part = "*") then true else
      match split_once "-" part with
      | Some (lo, hi) =>
          match parse_u32 lo, parse_u32 hi with
          | Some lo, Some hi => (lo <=? value) && (value <=? hi)
          | _, _ => false
          end
      | None =>
          match parse_u32 part with
          | Some v => if (min =? 0) && (max =? 7) then sunday value =? sunday v else value =? v
          | None => false
          end
      end
  end.

Definition field_matches (field : string) (value min max : Z) : bool :=
  existsb (λ part, single_field_matches (trim part) value min max) (split_on "," field).

Definition cron_matches `{Calendar} (expr : string) (now : Z) : bool :=
  match split_whitespace expr with
  | [f0; f1; f2; f3; f4] =>
      field_matches f0 (cal_minute now) 0 59 && field_matches f1 (cal_hour now) 0 23
      && field_matches f2 (cal_day now) 1 31 && field_matches f3 (cal_month now) 1 12
      && field_matches f4 (cal_weekday now) 0 7
  | _ => false
  end.

(** The code's own tests of the matcher. *)
Section Tests.
#[local] Instance at_time : Calendar :=
  {| cal_minute t := t mod 100; cal_hour t := t / 100 mod 100; cal_day t := t / 10 ^ 4 mod 100;
     cal_month t := t / 10 ^ 6 mod 100; cal_weekday t := t / 10 ^ 8 |}.
(** A Sunday: 9 March 2025, 14:30. *)
Example code_tests :
  (cron_matches "* * * * *" 3091430, cron_matches "30 14 * * *" 3091430, cron_matches "31 14 * * *" 3091430,
   cron_matches "*/15 * * * *" 3091430, cron_matches "30 14 * * 1-5" 3091430, cron_matches "30 14 * * 7" 3091430,
   cron_matches "0,15,30 * * * *" 3091430, cron_matches "10-50/20 * * * *" 3091430, cron_matches "* * * *" 3091430)
  = (true, true, false, true, false, true, true, true, false).
Proof. vm_compute. reflexivity. Qed.
End Tests.
