(* ===== verification/CronProps.v ===== *)
(** * Workflows: what a cron expression means

    A syntax of cron expressions with a meaning of their own, in which 0 and 7
    both are Sunday; the matcher agrees with it on their printed form, except
    for ranges of week days that reach 7 and do not begin with 0. *)
From stdpp Require Import pretty.
From S2P Require Import Prelude Net Digits Cron.

(** ** Cutting a text into words *)
Section Text.
Context (sep : ascii).

Lemma split_once_app a b :
  contains_char sep a = false → split_once sep (a +:+ String sep b) = Some (a, b).
Proof.
  induction a as [|c a IH]; intros Ha.
  { change ("" +:+ String sep b) with (String sep b). cbn [split_once]. by rewrite bool_decide_true. }
  cbn [contains_char] in Ha. apply orb_false_iff in Ha as [Hc Ha].
  change (String c a +:+ String sep b) with (String c (a +:+ String sep b)). cbn [split_once].
  rewrite bool_decide_eq_false in Hc. rewrite bool_decide_false by done. by rewrite (IH Ha).
Qed.
Lemma split_once_none a : contains_char sep a = false → split_once sep a = None.
Proof.
  induction a as [|c a IH]; [done|]. cbn [contains_char split_once]. intros [Hc Ha]%orb_false_iff.
  rewrite bool_decide_eq_false in Hc. rewrite bool_decide_false by done. by rewrite (IH Ha).
Qed.
Lemma split_on_join l :
  l ≠ [] → Forall (λ x, contains_char sep x = false) l → split_on sep (join (String sep "") l) = l.
Proof.
  intros Hn Hl. induction Hl as [|x l Hx Hl IH]; [done|]. destruct l as [|y l]; [by apply split_on_none|].
  change (join (String sep "") (x :: y :: l)) with (x +:+ String sep (join (String sep "") (y :: l))).
  by rewrite split_on_app, IH.
Qed.
End Text.

(** The visible characters. *)
Definition visible (c : ascii) : bool := char_between 33 126 c.
Lemma visible_space c : visible c = true → is_ascii_space c = false.
Proof.
  intros Hc. unfold is_ascii_space. apply orb_false_iff. split; [unfold visible, char_between in *; lia|].
  apply bool_decide_eq_false. by intros ->.
Qed.

Definition word (s : string) : Prop := s ≠ "" ∧ all_chars visible s = true.
Lemma pieces_word a : all_chars visible a = true → pieces a = [a].
Proof.
  induction a as [|c a IH]; [done|]. cbn [all_chars pieces]. intros [Hc Ha]%andb_true_iff.
  by rewrite (visible_space c Hc), (IH Ha).
Qed.
Lemma pieces_app a b : all_chars visible a = true → pieces (a +:+ String " " b) = a :: pieces b.
Proof.
  induction a as [|c a IH]; [done|]. cbn [all_chars]. intros [Hc Ha]%andb_true_iff.
  change (String c a +:+ String " " b) with (String c (a +:+ String " " b)). cbn [pieces].
  by rewrite (visible_space c Hc), (IH Ha).
Qed.
Lemma split_whitespace_join l : Forall word l → split_whitespace (join " " l) = l.
Proof.
  intros Hl. assert (l = [] ∨ pieces (join " " l) = l) as Hp.
  { induction Hl as [|x l [Hx Hv] Hl IH]; [by left|right]. destruct l as [|y l]; [by apply pieces_word|].
    change (join " " (x :: y :: l)) with (x +:+ String " " (join " " (y :: l))).
    rewrite pieces_app by done. by destruct IH as [Hl0|Hl0]; [done|rewrite Hl0]. }
  destruct Hp as [->|Hp]; [done|]. unfold split_whitespace. rewrite Hp. clear Hp.
  induction Hl as [|x l [Hx _] _ IH]; [done|]. by rewrite filter_cons_True, IH.
Qed.

(** ** Expressions *)
Inductive Entry :=
| Any
| One (v : Z)
| Between (lo hi : Z)
| Every (step : Z)
| EveryIn (lo hi step : Z).
Record CronExpr := mk_cron {
  on_minute : list Entry; on_hour : list Entry; on_day : list Entry;
  on_month : list Entry; on_weekday : list Entry
}.

Definition print_entry (e : Entry) : string :=
  match e with
  | Any => "*"
  | One v => pretty v
  | Between lo hi => pretty lo +:+ "-" +:+ pretty hi
  | Every s => "*/" +:+ pretty s
  | EveryIn lo hi s => pretty lo +:+ "-" +:+ pretty hi +:+ "/" +:+ pretty s
  end.
Definition print_field (f : list Entry) : string := join "," (print_entry <$> f).
Definition fields (c : CronExpr) : list (list Entry) :=
  [on_minute c; on_hour c; on_day c; on_month c; on_weekday c].
Definition print_cron (c : CronExpr) : string := join " " (print_field <$> fields c).

Definition u32_ok (v : Z) : Prop := 0 ≤ v ≤ 2 ^ 32 - 1.
Definition entry_ok (e : Entry) : Prop :=
  match e with
  | Any => True
  | One v => u32_ok v
  | Between lo hi => u32_ok lo ∧ u32_ok hi
  | Every s => u32_ok s ∧ 0 < s
  | EveryIn lo hi s => u32_ok lo ∧ u32_ok hi ∧ u32_ok s ∧ 0 < s
  end.
Definition cron_ok (c : CronExpr) : Prop := Forall (λ f, f ≠ [] ∧ Forall entry_ok f) (fields c).

(** What a number of a field stands for: among week days 0 and 7 both are
    Sunday. *)
Definition stands_for (weekday : bool) (x : Z) : Z := if weekday then (if x =? 7 then 0 else x) else x.

(** The numbers an entry lists, in a field whose least value is [min], and when
    it admits the value [v]. *)
Definition lists (min : Z) (e : Entry) (x : Z) : Prop :=
  match e with
  | Any => True
  | One y => x = y
  | Between lo hi => lo ≤ x ≤ hi
  | Every s => ∃ k, 0 ≤ k ∧ x = min + k * s
  | EveryIn lo hi s => ∃ k, 0 ≤ k ∧ x = lo + k * s ∧ x ≤ hi
  end.
Definition admits (weekday : bool) (min v : Z) (e : Entry) : Prop :=
  ∃ x, lists min e x ∧ v = stands_for weekday x.

(** A range that reaches 7 begins with 0. *)
Definition sunday_first (e : Entry) : Prop :=
  match e with Between lo hi | EveryIn lo hi _ => hi < 7 ∨ lo = 0 | _ => True end.
Definition fires `{Calendar} (c : CronExpr) (now : Z) : Prop :=
  Exists (admits false 0 (cal_minute now)) (on_minute c) ∧
  Exists (admits false 0 (cal_hour now)) (on_hour c) ∧
  Exists (admits false 1 (cal_day now)) (on_day c) ∧
  Exists (admits false 1 (cal_month now)) (on_month c) ∧
  Exists (admits true 0 (cal_weekday now)) (on_weekday c).

(** ** Printed entries *)
Lemma pretty_without x (z : Z) : is_digit x = false → 0 ≤ z → contains_char x (pretty z) = false.
Proof. intros Hx Hz. eapply all_chars_without; [exact Hx|]. by apply pretty_digits. Qed.
Lemma pretty_visible (z : Z) : 0 ≤ z → all_chars visible (pretty z) = true.
Proof.
  intros Hz. eapply all_chars_impl; [|by apply pretty_digits].
  intros c. unfold is_digit, visible, char_between. lia.
Qed.
Lemma parse_u32_pretty (z : Z) : u32_ok z → parse_u32 (pretty z) = Some z.
Proof. apply parse_pretty. Qed.
Lemma pretty_not_star (z : Z) : 0 ≤ z → pretty z ≠ "*".
Proof. intros Hz He. pose proof (pretty_digits z Hz) as Hd. by rewrite He in Hd. Qed.

(** Entries hold digits, stars, dashes and slashes only. *)
Lemma print_entry_chars (p : ascii → bool) e :
  (∀ c, is_digit c = true → p c = true) → p "*"%char = true → p "-"%char = true → p "/"%char = true →
  entry_ok e → all_chars p (print_entry e) = true.
Proof.
  intros Hd Hs Hm Hl.
  assert (∀ z : Z, 0 ≤ z → all_chars p (pretty z) = true) as Hz.
  { intros z Hz. eapply all_chars_impl; [exact Hd|by apply pretty_digits]. }
  unfold u32_ok.
  destruct e as [|v|lo hi|s|lo hi s]; cbn [print_entry entry_ok]; unfold u32_ok; intros He;
    rewrite ?all_chars_app; cbn [all_chars]; rewrite ?Hs, ?Hm, ?Hl, ?Hz; try done; lia.
Qed.
Lemma print_entry_word e : entry_ok e → word (print_entry e).
Proof.
  intros He. split.
  - destruct e as [|v|lo hi|s|lo hi s]; cbn [print_entry]; try done; cbn [entry_ok] in He; unfold u32_ok in He.
    + destruct (pretty_cons v) as (c & r & -> & _); [lia|done].
    + destruct (pretty_cons lo) as (c & r & -> & _); [lia|done].
    + destruct (pretty_cons lo) as (c & r & -> & _); [lia|done].
  - apply print_entry_chars; try done. intros c. unfold is_digit, visible, char_between. lia.
Qed.
Lemma print_entry_no_comma e : entry_ok e → contains_char "," (print_entry e) = false.
Proof.
  intros He. apply (all_chars_without (λ c, negb (bool_decide (c = ","%char)))); [done|].
  apply print_entry_chars; try done. intros c Hc. apply negb_true_iff, bool_decide_eq_false. by intros ->.
Qed.
Lemma print_field_word f : f ≠ [] → Forall entry_ok f → word (print_field f).
Proof.
  intros Hn Hf. unfold print_field. destruct Hf as [|e f He Hf]; [done|].
  revert e He Hn. induction Hf as [|e' f He' Hf IH]; intros e He _; [by apply print_entry_word|].
  change (join "," (print_entry <$> e :: e' :: f))
    with (print_entry e +:+ String "," (join "," (print_entry <$> e' :: f))).
  destruct (print_entry_word e He) as [H1 H2], (IH e' He' ltac:(done)) as [_ H3]. split.
  - by destruct (print_entry e).
  - rewrite all_chars_app, H2. cbn [all_chars]. by rewrite H3.
Qed.

(** ** The matcher on a printed entry *)
Lemma on_step (lo v s : Z) : 0 < s → lo ≤ v → (v - lo) mod s = 0 ↔ ∃ k, 0 ≤ k ∧ v = lo + k * s.
Proof.
  intros Hs Hv. split.
  - intros Hm. exists ((v - lo) / s). split; [by apply Z.div_pos; lia|].
    pose proof (Z.div_mod (v - lo) s ltac:(lia)). lia.
  - intros (k & Hk & ->). replace (lo + k * s - lo) with (k * s) by lia. apply Z.mod_mul. lia.
Qed.

Lemma single_field_printed e v min max :
  entry_ok e → min ≤ v ≤ max →
  single_field_matches (print_entry e) v min max = true
  ↔ match e with
    | One x => if (min =? 0) && (max =? 7) then sunday v = sunday x else v = x
    | _ => lists min e v
    end.
Proof.
  intros He Hv. assert (∀ x z, is_digit x = false → u32_ok z → contains_char x (pretty z) = false) as Hno.
  { intros x z Hx [Hz _]. by apply pretty_without. }
  destruct e as [|x|lo hi|s|lo hi s]; cbn [print_entry lists entry_ok] in *.
  - done.
  - unfold single_field_matches. rewrite (split_once_none "/"), bool_decide_false by (try apply pretty_not_star; try apply Hno; by destruct He).
    rewrite (split_once_none "-") by by apply Hno. rewrite parse_u32_pretty by done.
    by destruct ((min =? 0) && (max =? 7)); rewrite Z.eqb_eq.
  - destruct He as [Hlo Hhi]. unfold single_field_matches.
    rewrite (split_once_none "/") by (rewrite !contains_char_app, !Hno by done; done).
    rewrite bool_decide_false.
    2:{ destruct (pretty_cons lo) as (c & r & Heq & _); [by destruct Hlo|]. rewrite Heq. by destruct r. }
    change (pretty lo +:+ "-" +:+ pretty hi) with (pretty lo +:+ String "-" (pretty hi)).
    rewrite split_once_app, !parse_u32_pretty by (try apply Hno; done). lia.
  - destruct He as [Hs Hpos]. unfold single_field_matches.
    change ("*/" +:+ pretty s) with ("*" +:+ String "/" (pretty s)).
    rewrite split_once_app, parse_u32_pretty by done.
    replace (0 <? s) with true by lia. cbn [negb]. unfold step_range. rewrite bool_decide_true by done.
    replace ((v <? min) || (max <? v)) with false by lia. rewrite Z.eqb_eq. apply on_step; lia.
  - destruct He as (Hlo & Hhi & Hs & Hpos). unfold single_field_matches.
    replace (pretty lo +:+ "-" +:+ pretty hi +:+ "/" +:+ pretty s)
      with ((pretty lo +:+ String "-" (pretty hi)) +:+ String "/" (pretty s)) by by rewrite string_app_assoc.
    rewrite split_once_app, parse_u32_pretty by (try done; rewrite contains_char_app; cbn [contains_char]; by rewrite !Hno).
    replace (0 <? s) with true by lia. cbn [negb]. unfold step_range.
    rewrite bool_decide_false.
    2:{ destruct (pretty_cons lo) as (c & r & Heq & _); [by destruct Hlo|]. rewrite Heq. by destruct r. }
    rewrite split_once_app by by apply Hno. cbn [mbind option_bind].
    rewrite (parse_u32_pretty lo), (parse_u32_pretty hi) by done. cbn [mbind option_bind].
    destruct ((v <? lo) || (hi <? v)) eqn:Hr.
    + split; [done|]. intros (k & Hk & Hv' & Hle). assert (lo ≤ v) by nia. lia.
    + rewrite Z.eqb_eq, on_step by lia. split; intros (k & Hk & Hrest); exists k; [split; [done|split; [done|lia]]|].
      by destruct Hrest.
Qed.

(** Among the values a field takes, those the matcher finds are those admitted. *)
Lemma single_field_admits e v min max :
  entry_ok e → min ≤ v ≤ max → (min = 0 ∧ max = 7 → v ≤ 6 ∧ sunday_first e) →
  single_field_matches (print_entry e) v min max = true ↔ admits ((min =? 0) && (max =? 7)) min v e.
Proof.
  intros He Hv H7. rewrite single_field_printed by done. unfold admits, stands_for.
  destruct ((min =? 0) && (max =? 7)) eqn:Hd; [|destruct e; naive_solver].
  destruct H7 as [H6 Hs]; [lia|]. assert (min = 0) as -> by lia.
  destruct e as [|x|lo hi|s|lo hi s]; cbn [lists sunday_first entry_ok] in *; unfold sunday, u32_ok in *.
  - split; [|done]. intros _. exists v. by replace (v =? 7) with false by lia.
  - replace (v =? 7) with false by lia. naive_solver.
  - split; [intros Hr; exists v; by replace (v =? 7) with false by lia|].
    intros (x & Hx & ->). destruct (x =? 7) eqn:E; lia.
  - split; [intros Hr; exists v; by replace (v =? 7) with false by lia|].
    intros (x & Hx & ->). destruct (x =? 7) eqn:E; [|done]. exists 0. lia.
  - split; [intros Hr; exists v; by replace (v =? 7) with false by lia|].
    intros (x & (k & Hk & Hx & Hhi) & ->). destruct (x =? 7) eqn:E; [|by exists k]. exists 0. lia.
Qed.

Lemma field_single f v min max :
  f ≠ [] → Forall entry_ok f →
  field_matches (print_field f) v min max = existsb (λ e, single_field_matches (print_entry e) v min max) f.
Proof.
  intros Hn Hf. unfold field_matches, print_field. rewrite (split_on_join "," (print_entry <$> f)).
  2:{ by destruct f. }
  2:{ apply Forall_fmap. eapply Forall_impl; [exact Hf|]. apply print_entry_no_comma. }
  clear Hn. induction Hf as [|e f He _ IH]; [done|]. cbn [fmap list_fmap existsb].
  rewrite trim_plain by by apply print_entry_word. f_equal. exact IH.
Qed.

Lemma field_printed f v min max :
  f ≠ [] → Forall entry_ok f → min ≤ v ≤ max → (min = 0 ∧ max = 7 → v ≤ 6 ∧ Forall sunday_first f) →
  field_matches (print_field f) v min max = true ↔ Exists (admits ((min =? 0) && (max =? 7)) min v) f.
Proof.
  intros Hn Hf Hv H7. rewrite field_single, existsb_exists, Exists_exists by done.
  rewrite Forall_forall in Hf. setoid_rewrite <-list_elem_of_In.
  assert (∀ e, e ∈ f → single_field_matches (print_entry e) v min max = true
                       ↔ admits ((min =? 0) && (max =? 7)) min v e) as He.
  { intros e Hin. apply single_field_admits; [by apply Hf|done|]. intros [H6 Hs]%H7. split; [done|].
    rewrite Forall_forall in Hs. by apply Hs. }
  split; intros (e & Hin & He'); exists e; (split; [done|]); by apply He.
Qed.

Lemma cron_matches_printed `{Calendar} (c : CronExpr) (now : Z) :
  cron_ok c →
  cron_matches (print_cron c) now =
    field_matches (print_field (on_minute c)) (cal_minute now) 0 59 && field_matches (print_field (on_hour c)) (cal_hour now) 0 23
    && field_matches (print_field (on_day c)) (cal_day now) 1 31 && field_matches (print_field (on_month c)) (cal_month now) 1 12
    && field_matches (print_field (on_weekday c)) (cal_weekday now) 0 7.
Proof.
  intros Hok. unfold cron_matches, print_cron. rewrite split_whitespace_join; [done|].
  apply Forall_fmap. eapply Forall_impl; [exact Hok|]. intros f [Hn Hf]. by apply print_field_word.
Qed.

(** C19: The matcher means what an expression says: a printed expression of
    stars, numbers, ranges, steps and lists of them matches exactly at the
    instants whose minute, hour, day, month and week day are all admitted,
    where 0 and 7 both are Sunday; provided that every range of week days,
    stepped or not, ends before 7 or begins with 0 (the matcher takes Sunday
    out of the others, see [sunday_range_missed]). *)
Theorem printed_cron_fires `{CalendarLaws} (c : CronExpr) (now : Z) :
  cron_ok c → Forall sunday_first (on_weekday c) → cron_matches (print_cron c) now = true ↔ fires c now.
Proof.
  intros Hok Hsun. rewrite cron_matches_printed by done. unfold cron_ok, fields in Hok. rewrite !Forall_cons in Hok.
  destruct Hok as ([N0 F0] & [N1 F1] & [N2 F2] & [N3 F3] & [N4 F4] & _).
  pose proof (minute_range now). pose proof (hour_range now). pose proof (day_range now).
  pose proof (month_range now). pose proof (weekday_range now).
  rewrite !andb_true_iff, !field_printed by (done || lia || (intros; split; [lia|done])). unfold fires. cbn. tauto.
Qed.

(** Sunday as the end of a range: the expression means it, the matcher does
    not find it. *)
Theorem sunday_range_missed (lo now : Z) `{CalendarLaws} :
  1 ≤ lo ≤ 7 → cal_weekday now = 0 →
  let c := mk_cron [Any] [Any] [Any] [Any] [Between lo 7] in
  print_cron c = "* * * * " +:+ pretty lo +:+ "-7" ∧ fires c now ∧ cron_matches (print_cron c) now = false.
Proof.
  intros Hlo Hsun c. split; [done|]. split.
  - unfold fires. cbn. rewrite !Exists_cons, Hsun.
    assert (∀ min v, admits false min v Any) as Hany by by intros min v; exists v.
    split_and!; try (by left). left. exists 7. cbn. lia.
  - assert (cron_ok c) as Hok.
    { unfold c, cron_ok, fields, u32_ok. cbn. rewrite !Forall_cons. cbn. unfold u32_ok. repeat split; try done; lia. }
    rewrite cron_matches_printed, Hsun by done. cbn [on_weekday c]. rewrite (field_single [Between lo 7]).
    2:{ done. }
    2:{ constructor; [cbn; unfold u32_ok; lia|constructor]. }
    cbn [existsb]. rewrite orb_false_r. apply andb_false_iff. right. apply not_true_iff_false.
    rewrite single_field_printed; [cbn; lia|cbn; unfold u32_ok; lia|lia].
Qed.

(** An expression that never matches, with the characters of one that does. *)
Theorem dead_expression (now : Z) `{CalendarLaws} : cron_matches "60 * * * *" now = false.
Proof.
  pose (c := mk_cron [One 60] [Any] [Any] [Any] [Any]).
  assert (cron_ok c) as Hok.
  { unfold c, cron_ok, fields. cbn. rewrite !Forall_cons. cbn. unfold u32_ok. repeat split; try done; lia. }
  apply not_true_iff_false. change "60 * * * *" with (print_cron c).
  rewrite printed_cron_fires by (done || by repeat constructor). intros (Hm & _). pose proof (minute_range now).
  apply Exists_cons in Hm as [(x & Hx & Hm)|Hm]; [cbn in Hx, Hm; lia|by apply Exists_nil in Hm].
Qed.

(** ** Witness *)
Section Witness.
#[local] Instance toy_calendar : Calendar :=
  {| cal_minute t := t mod 60; cal_hour t := t / 60 mod 24; cal_day t := 1 + t / 1440 mod 28;
     cal_month t := 1; cal_weekday t := t / 1440 mod 7 |}.
#[local] Instance toy_laws : CalendarLaws.
Proof.
  split; intros t; cbn; try (pose proof (Z.mod_pos_bound t 60); pose proof (Z.mod_pos_bound (t / 60) 24);
    pose proof (Z.mod_pos_bound (t / 1440) 28); pose proof (Z.mod_pos_bound (t / 1440) 7); lia).
Defined.

Definition half_hours : CronExpr :=
  mk_cron [Every 30] [Between 8 17; One 20] [Any] [Any] [Between 1 5; One 7].
Lemma printed_cron_fires_witness :
  cron_ok half_hours ∧ print_cron half_hours = "*/30 8-17,20 * * 1-5,7"
  ∧ (cron_matches (print_cron half_hours) (20 * 60 + 30) = true ↔ fires half_hours (20 * 60 + 30)).
Proof.
  assert (cron_ok half_hours) as Hok.
  { unfold half_hours, cron_ok, fields. cbn. rewrite !Forall_cons. cbn. unfold u32_ok. repeat split; try done; lia. }
  split; [exact Hok|]. split; [by vm_compute|]. apply (printed_cron_fires half_hours (20 * 60 + 30) Hok).
  repeat constructor.
Defined.
End Witness.
