(* ===== verification/Workflow.v ===== *)
(** * Workflows: their data, templates, conditions and the store

    wolfflow/mod.rs: actions and steps, the store of workflows and runs behind
    its two locks, references to the output of earlier steps, and the
    operators of a condition. *)
From Stdlib Require Import SpecFloat.
From stdpp Require Import pretty.
From S2P Require Import Prelude Net F64 AgentGate Cron.

(** ** Data *)
Record StepOutput := mk_output { text : string; data : gmap string Json }.
(** [WorkflowContext]: the outputs of the steps that ran, by their names. *)
Definition WorkflowContext : Type := gmap string StepOutput.

Inductive HttpAuth := Bearer (token : string) | Basic (username password : string) | ApiKey (header_name key : string).
Record HttpHeader := mk_header { h_name : string; h_value : string }.
Record HttpCall := mk_http {
  method : string; url : string; headers : list HttpHeader; body : option string; auth : option HttpAuth;
  timeout_secs : Z; fail_on_error : bool; verify_tls : bool
}.
Record WebhookConfig := mk_webhook { token : string; secret : option string; w_enabled : bool }.
Inductive SqlStepPermission := PRead | PUpdate | PDelete.

Inductive ActionType :=
| UpdatePackages
| UpdateWolfstack (channel : string)
| RestartService (service_name : string)
| RunCommand (command : string) (timeout : Z)
| CleanLogs (max_size_mb : option Z)
| CheckDiskSpace (warn_threshold_pct : option Z) (mount_point : option string)
| RestartContainer (runtime name : string)
| DockerPrune
| DockerCheckUpdate (container_or_image : string)
| DockerUpdate (container_name : string) (backup_first : bool)
| DockerCheckUpdateMany (target : string) (container_names : list string)
| DockerUpdateMany (target : string) (container_names : list string)
| RunBackupSchedule (schedule_id : string)
| HttpRequest (call : HttpCall)
| Condition (expression compare_to operator : string)
| NetBirdAction (api_url api_token endpoint method : string) (body : option string)
| TrueNasAction (api_url api_key endpoint method : string) (body : option string)
| UnifiAction (api_url username password endpoint method : string) (body : option string)
| IntegrationAction (instance_id operation : string) (params : Json)
| AiInvoke (prompt : string) (system_prompt model provider : option string) (max_tokens : Z)
| AgentChat (agent_id message : string) (timeout : Z)
| SqlQuery (connection_id query : string) (permission : SqlStepPermission) (timeout : Z) (fail_on_empty : bool)
| SendEmail (to : list string) (subject body : string) (html : bool).

Inductive OnFailure := Continue | Abort | Alert | NotifyAndAbort | NotifyAndContinue.
Record ContainerTarget := mk_container { ct_node_id : string; ct_runtime : string; ct_name : string }.
Inductive Target :=
| TLocal | TAllNodes | TCluster (cluster_name : string) | TNodes (node_ids : list string)
| TContainers (targets : list ContainerTarget) | TEverything.

Record WorkflowStep := mk_step {
  step_name : string; action : ActionType; on_failure : OnFailure; target_override : option Target;
  on_true_step : option nat; on_false_step : option nat; retry_count : Z; retry_delay_secs : Z
}.
Record Workflow := mk_workflow {
  wf_id : string; wf_name : string; description : string; cluster : string;
  steps : list WorkflowStep; target : Target; schedule : option string; wf_enabled : bool;
  created_at : string; updated_at : string; wf_last_run : option string;
  email_results : option string; webhook : option WebhookConfig; max_runtime_secs : Z
}.
Inductive RunStatus := Running | Completed | Failed | PartialFailure.
#[global] Instance run_status_eq : EqDecision RunStatus.
Proof. solve_decision. Defined.
Record StepResult := mk_result {
  r_step_name : string; r_node_id : string; r_node_hostname : string; r_status : RunStatus;
  r_output : string; r_started_at : string; r_finished_at : string; r_duration_ms : Z
}.
Record WorkflowRun := mk_run {
  run_id : string; workflow_id : string; workflow_name : string; status : RunStatus; trigger : string;
  results : list StepResult; started_at : string; finished_at : option string; duration_ms : Z;
  email_status : option string
}.
#[global] Instance eta_workflow : Eta Workflow := λ x, mk_workflow
  (wf_id x) (wf_name x) (description x) (cluster x) (steps x) (target x) (schedule x) (wf_enabled x)
  (created_at x) (updated_at x) (wf_last_run x) (email_results x) (webhook x) (max_runtime_secs x).
#[global] Instance eta_run : Eta WorkflowRun := λ x, mk_run
  (run_id x) (workflow_id x) (workflow_name x) (status x) (trigger x) (results x) (started_at x)
  (finished_at x) (duration_ms x) (email_status x).
#[global] Instance set_wf_id : Setter wf_id := ltac:(derive_setter wf_id).
#[global] Instance set_cluster : Setter cluster := ltac:(derive_setter cluster).
#[global] Instance set_created : Setter created_at := ltac:(derive_setter created_at).
#[global] Instance set_updated : Setter updated_at := ltac:(derive_setter updated_at).
#[global] Instance set_last_run : Setter wf_last_run := ltac:(derive_setter wf_last_run).
#[global] Instance set_schedule : Setter schedule := ltac:(derive_setter schedule).
#[global] Instance set_wf_enabled : Setter wf_enabled := ltac:(derive_setter wf_enabled).
#[global] Instance set_status : Setter status := ltac:(derive_setter status).
#[global] Instance set_results : Setter results := ltac:(derive_setter results).
#[global] Instance set_finished : Setter finished_at := ltac:(derive_setter finished_at).
#[global] Instance set_duration : Setter duration_ms := ltac:(derive_setter duration_ms).
#[global] Instance set_email : Setter email_status := ltac:(derive_setter email_status).

(** ** References to earlier steps *)

(** [s.find(needle)], as the text before and after it. *)
Fixpoint cut (needle s : string) : option (string * string) :=
  if String.prefix needle s then Some ("", str_drop (String.length needle) s) else
  match s with
  | EmptyString => None
  | String c s => '(a, b) ← cut needle s; Some (String c a, b)
  end.

(** [Value::to_string] of serde_json. *)
Class JsonText := json_text : Json → string.
Definition value_text `{JsonText} (v : Json) : string := match v with JStr s => s | v => json_text v end.

Section Templates.
Context `{JsonText}.
Implicit Types context : WorkflowContext.

Definition reference context (inner : string) : string :=
  match split_once "." inner with
  | Some (step, key) =>
      default "" (value_text <$> (context !! trim step ≫= λ out, data out !! trim key))
  | None => "[invalid-ref:" +:+ inner +:+ "]"
  end.
(** One round of the loop; the text it has no more to replace in is left. *)
Fixpoint resolve_rounds (n : nat) (result : string) context : string :=
  match n with
  | O => result
  | S n => match cut "{{" result with
           | Some (pre, rest) =>
               match cut "}}" rest with
               | Some (inner, post) => resolve_rounds n (pre +:+ reference context (trim inner) +:+ post) context
               | None => result
               end
           | None => result
           end
  end.
Definition resolve_templates (input : string) context : string := resolve_rounds 64 input context.
End Templates.

(** ** Conditions *)

(** [str::parse::<f64>] *)
Fixpoint take_digits (acc : Z) (n : nat) (s : string) : Z * nat * string :=
  match s with
  | String c s' => if char_between 48 57 c then take_digits (acc * 10 + (Z.of_nat (nat_of_ascii c) - 48)) (S n) s'
                   else (acc, n, s)
  | EmptyString => (acc, n, s)
  end.
(** The double nearest to [m * 10 ^ e]: a quotient of sixty bits or so, whose
    last one says whether anything was cut off. *)
Definition f64_of_decimal (neg : bool) (m e : Z) : f64 :=
  let signed z := if neg then - z else z in
  if m =? 0 then S754_zero neg else
  if 0 <=? e then binary_normalize 53 1024 (signed (m * 10 ^ e)) 0 neg else
  let d := 10 ^ (- e) in
  let k := Z.max 0 (Z.log2 d - Z.log2 m + 60) in
  let n := m * 2 ^ k in
  binary_normalize 53 1024 (signed (2 * (n / d) + (if n mod d =? 0 then 0 else 1))) (- (k + 1)) neg.
Definition sign_of (s : string) : bool * string :=
  match s with
  | String c r => if bool_decide (c = "-"%char) then (true, r) else if bool_decide (c = "+"%char) then (false, r) else (false, s)
  | EmptyString => (false, s)
  end.
Definition parse_f64 (s : string) : option f64 :=
  let '(neg, s) := sign_of s in
  let word := to_ascii_lowercase s in
  if bool_decide (word ∈ ["inf"; "infinity"]) then Some (S754_infinity neg) else
  if bool_decide (word = "nan") then Some S754_nan else
  let '(m, whole, s) := take_digits 0 0 s in
  let '(m, frac, s) := match strip_prefix_char "." s with
                       | Some s => take_digits m 0 s
                       | None => (m, O, s)
                       end in
  if bool_decide ((whole + frac)%nat = O) then None else
  match s with
  | EmptyString => Some (f64_of_decimal neg m (- Z.of_nat frac))
  | String c s =>
      if bool_decide (to_lower c = "e"%char) then
        let '(eneg, s) := sign_of s in
        let '(e, n, s) := take_digits 0 0 s in
        if bool_decide (n = O ∨ s ≠ "") then None
        else Some (f64_of_decimal neg m ((if eneg then - e else e) - Z.of_nat frac))
      else None
  end.
Definition number (s : string) : f64 := default f64_0 (parse_f64 s).

(** The loop of [matches]: the text behind the last part found. *)
Fixpoint glob_parts (first : bool) (parts : list string) (rest : string) : option string :=
  match parts with
  | [] => Some rest
  | p :: ps =>
      if bool_decide (p = "") then glob_parts false ps rest else
      match cut p rest with
      | Some (pre, post) => if first && negb (bool_decide (pre = "")) then None else glob_parts false ps post
      | None => None
      end
  end.
Definition glob_matches (resolved compare : string) : bool :=
  if contains_char "*" compare then
    let parts := split_on "*" compare in
    match glob_parts true parts resolved with
    | Some rest => bool_decide (List.last parts "" = "") || bool_decide (rest = "")
    | None => false
    end
  else bool_decide (resolved = compare).

Definition evaluate_condition `{JsonText} (expression compare_to operator : string) (context : WorkflowContext) : bool :=
  let resolved := trim (resolve_templates expression context) in
  let compare := trim compare_to in
  if bool_decide (operator = "eq") then bool_decide (resolved = compare) else
  if bool_decide (operator = "neq") then negb (bool_decide (resolved = compare)) else
  if bool_decide (operator = "gt") then f64_lt (number compare) (number resolved) else
  if bool_decide (operator = "lt") then f64_lt (number resolved) (number compare) else
  if bool_decide (operator = "gte") then f64_le (number compare) (number resolved) else
  if bool_decide (operator = "lte") then f64_le (number resolved) (number compare) else
  if bool_decide (operator = "contains") then contains_str compare resolved else
  if bool_decide (operator = "matches") then glob_matches resolved compare else
  if bool_decide (operator = "truthy") then
    negb (bool_decide (resolved ∈ [""; "false"; "0"; "null"]))
  else bool_decide (resolved = compare).

(** ** The store *)

Definition MAX_RUNS : nat := 500.

Record FlowStore := mk_store {
  workflows : list Workflow; runs : list WorkflowRun;
  (** The two files; [None] when one is missing or cannot be parsed. *)
  workflows_file : option (list Workflow); runs_file : option (list WorkflowRun)
}.
#[global] Instance eta_store : Eta FlowStore := λ x, mk_store (workflows x) (runs x) (workflows_file x) (runs_file x).
#[global] Instance set_workflows : Setter workflows := ltac:(derive_setter workflows).
#[global] Instance set_runs : Setter runs := ltac:(derive_setter runs).
#[global] Instance set_workflows_file : Setter workflows_file := ltac:(derive_setter workflows_file).
#[global] Instance set_runs_file : Setter runs_file := ltac:(derive_setter runs_file).

Section Store.
Implicit Types (s : FlowStore) (w : Write).

(** [new]: what the files hold, or nothing. *)
Definition load (wf : option (list Workflow)) (rf : option (list WorkflowRun)) : FlowStore :=
  mk_store (default [] wf) (default [] rf) wf rf.
Definition save_workflows w s : FlowStore := s <| workflows_file := overwrite w (workflows s) (workflows_file s) |>.
Definition save_runs w s : FlowStore := s <| runs_file := overwrite w (runs s) (runs_file s) |>.

Definition has_id (id : string) (x : Workflow) : bool := bool_decide (wf_id x = id).
Definition list_workflows (c : option string) s : list Workflow :=
  match c with Some c => retain (λ x, bool_decide (cluster x = c)) (workflows s) | None => workflows s end.
Definition get_workflow (id : string) s : option Workflow := List.find (has_id id) (workflows s).
Definition create_workflow w (x : Workflow) s : FlowStore := save_workflows w (s <| workflows := workflows s ++ [x] |>).
(** [now] is [Utc::now().to_rfc3339()]. *)
Definition update_workflow w (now id : string) (x : Workflow) s : option Workflow * FlowStore :=
  match get_workflow id s with
  | Some existing =>
      let x := x <| wf_id := id |> <| created_at := created_at existing |> <| updated_at := now |> in
      (Some x, save_workflows w (s <| workflows := update_first (has_id id) (λ _, x) (workflows s) |>))
  | None => (None, s)
  end.
(** [position] and [remove] *)
Fixpoint remove_first {A} (p : A → bool) (l : list A) : list A :=
  match l with [] => [] | x :: l => if p x then l else x :: remove_first p l end.
Definition delete_workflow w (id : string) s : option Workflow * FlowStore :=
  match get_workflow id s with
  | Some x => (Some x, save_workflows w (s <| workflows := remove_first (has_id id) (workflows s) |>))
  | None => (None, s)
  end.
Definition mark_last_run w (now id : string) s : FlowStore :=
  save_workflows w (s <| workflows := update_first (has_id id) (λ x, x <| wf_last_run := Some now |>) (workflows s) |>).
Definition rename_cluster w (old new : string) s : nat * FlowStore :=
  let hit x := bool_decide (cluster x = old) in
  let n := length (retain hit (workflows s)) in
  let s' := s <| workflows := (λ x, if hit x then x <| cluster := new |> else x) <$> workflows s |> in
  (n, if bool_decide (n = O) then s' else save_workflows w s').

Definition list_runs (id : option string) s : list WorkflowRun :=
  match id with Some id => retain (λ r, bool_decide (workflow_id r = id)) (runs s) | None => runs s end.
Definition add_run w (r : WorkflowRun) s : FlowStore :=
  let rs := runs s ++ [r] in
  save_runs w (s <| runs := drop (length rs - MAX_RUNS) rs |>).
Definition has_run_id (id : string) (r : WorkflowRun) : bool := bool_decide (run_id r = id).
Definition update_run w (id : string) (r : WorkflowRun) s : FlowStore :=
  save_runs w (s <| runs := update_first (has_run_id id) (λ _, r) (runs s) |>).

(** [get_due_workflows]: [now_minute] is [format("%Y-%m-%d %H:%M")] of now. *)
Definition already_ran (now_minute : string) (x : Workflow) (rs : list WorkflowRun) : bool :=
  existsb (λ r, bool_decide (workflow_id r = wf_id x) && bool_decide (trigger r = "scheduled")
                && String.prefix now_minute (started_at r)) rs.
Definition get_due_workflows `{Calendar} (now : Z) (now_minute : string) s : list Workflow :=
  retain (λ x, match schedule x with
               | Some expr => wf_enabled x && cron_matches expr now && negb (already_ran now_minute x (runs s))
               | None => false
               end) (workflows s).
End Store.

(** The code's own tests, and numbers as a condition reads them. *)
Section Tests.
#[local] Instance no_text : JsonText := λ _, "true".
Definition df_context : WorkflowContext :=
  {["disk" := mk_output "" {["available_gb" := JStr "12"; "over" := JBool true]}]}.
Example reference_tests :
  (resolve_templates "Disk has {{disk.available_gb}} GB free" df_context,
   resolve_templates "{{ disk . over }}{{nope.key}}{{bad}}" df_context,
   evaluate_condition "{{disk.available_gb}}" "10" "gt" df_context,
   evaluate_condition "hello world" "world" "contains" ∅,
   evaluate_condition "db-01.lan" "db-*.lan" "matches" ∅,
   evaluate_condition "yes" "" "truthy" ∅, evaluate_condition "0" "" "truthy" ∅)
  = ("Disk has 12 GB free", "true[invalid-ref:bad]", true, true, true, true, false).
Proof. vm_compute. reflexivity. Qed.
Example numbers :
  ((λ s, fmt_fixed 3 <$> parse_f64 s) <$> ["0.1"; "-12.5e2"; ".5"; "1e-400"; "10GB"; "1e"; "-inf"; ""])
  = [Some "0.100"; Some "-1250.000"; Some "0.500"; Some "0.000"; None; None; Some "-inf"; None].
Proof. vm_compute. reflexivity. Qed.
Example nearest : parse_f64 "0.1" = Some (S754_finite false 7205759403792794 (-56)).
Proof. vm_compute. reflexivity. Qed.
End Tests.
