(* ===== verification/WorkflowHost.v ===== *)
(** * Workflows: what one action does

    wolfflow/mod.rs: commands with their time limits, the action of a step on
    this node, inside a container or virtual machine, and on another node,
    whose handlers (api/mod.rs) run it and answer in JSON. *)
From stdpp Require Import pretty.
From S2P Require Import Prelude Net AgentTools AgentGate Workflow.

(** ** The surroundings *)

(** What became of a program: not started, stopped at its time limit, lost, or
    ended with a code (none after a signal), its standard output and errors. *)
Inductive Proc :=
| NotSpawned (e : string)
| TimedOut
| WaitFailed (e : string)
| Exited (code : option Z) (stdout stderr : string).

(** A request to the WolfFlow endpoints of another node. *)
Inductive PeerCall :=
| NodeExec (a : ActionType)
| ContainerExec (a : ActionType) (ct : ContainerTarget)
| AllContainersExec (a : ActionType).
(** Its answer: none, or a status with a body, parsed if it is JSON. *)
Inductive Answer := NoAnswer | Answered (status : Z) (raw : string) (parsed : option Json).

Record AiConfig := mk_ai { provider : string; model : string; smtp_host : string }.
Record BackupSummary := mk_summary { b_name : string; b_total : Z; b_completed : Z; b_failed : Z; b_message : string }.
Record SqlResult := mk_sql {
  columns : list string; rows : list (list Json); row_count : Z; affected_rows : option Z; elapsed_ms : Z; truncated : bool
}.
Record VmView := mk_vm { vm_name : string; vm_running : bool; wolfnet_ip : option string; mac_address : option string }.

(** [K] is the state of everything outside. *)
Class Host (K : Type) := {
  exists_path : string → K → bool;
  spawn : string → list string → Z → K → Proc * K;
  list_vms : K → list VmView;
  docker_list_all : K → list string;
  lxc_list_all : K → list string;
  is_ipv4 : string → bool;
  is_ipv6 : string → bool;
  from_json : string → option Json;
  (** A request with its status and body. *)
  send : HttpCall → K → res string (Z * string) * K;
  unifi_login : string → string → string → K → res string Z * K;
  unifi_send : string → string → option string → K → res string (Z * string) * K;
  (** [lookup_node_wolfnet_ip] *)
  wolfnet_ip_of : string → K → option string;
  peer_post : string → PeerCall → K → Answer * K;
  (** The parts of the node a step calls: the image watcher, backups, the
      model providers, the agents, SQL connections and mail. *)
  image_watcher : ActionType → K → res string StepOutput * K;
  run_schedule_now_summary : string → K → res string BackupSummary * K;
  ai_config : K → AiConfig;
  simple_chat : AiConfig → string → string → K → res string string * K;
  chat_with_agent : string → string → Z → K → option (res string string) * K;
  sql_execute : string → string → SqlStepPermission → Z → K → res string SqlResult * K;
  send_email_generic : AiConfig → list string → string → string → bool → K → res string () * K
}.

(** ** Text *)

(** [chars().take(n)] *)
Fixpoint take_chars (n : nat) (s : string) : string :=
  match s with
  | EmptyString => ""
  | String c s => if continues c then String c (take_chars n s) else
                  match n with O => "" | S n => String c (take_chars n s) end
  end.

Definition quote : string := String "034" "".
Definition LF_str : string := String LF "".
(** [replace(c, by)] *)
Fixpoint replace_with (x : ascii) (y s : string) : string :=
  match s with
  | EmptyString => ""
  | String c s => if bool_decide (c = x) then y +:+ replace_with x y s else String c (replace_with x y s)
  end.

Definition plain_output (t : string) : StepOutput := mk_output t ∅.
Definition structured_output (t : string) (d : list (string * Json)) : StepOutput := mk_output t (list_to_map d).

(** ** Query results as text *)
Definition esc (s : string) : string :=
  if contains_char "," s || contains_char "034" s || contains_char LF s
  then quote +:+ replace_with "034" (quote +:+ quote) s +:+ quote else s.
Section Text.
Context `{JsonText}.
Definition csv_cell (v : Json) : string :=
  match v with JNull => "" | JStr s => esc s | v => esc (json_text v) end.
Definition render_rows_csv (columns : list string) (rows : list (list Json)) : string :=
  join "," (esc <$> columns) +:+ LF_str +:+
  foldr (λ row t, join "," (csv_cell <$> row) +:+ LF_str +:+ t) "" rows.

Definition markdown_cell (v : Json) : string :=
  match v with JNull => "" | JStr s => replace_char LF " " (replace_with "|" "\|" s) | v => json_text v end.
Definition markdown_row (cells : list string) : string :=
  "|" +:+ foldr (λ c t, " " +:+ c +:+ " |" +:+ t) "" cells +:+ LF_str.
Definition more_rows (n : nat) : string :=
  "_…" +:+ pretty (Z.of_nat n) +:+ " more rows (CSV attachment has the full set)_" +:+ LF_str.
Definition render_rows_markdown (columns : list string) (rows : list (list Json)) : string :=
  markdown_row columns +:+ "|" +:+ foldr (λ _ t, " --- |" +:+ t) "" columns +:+ LF_str +:+
  foldr (λ row t, markdown_row (markdown_cell <$> row) +:+ t) "" (take 50 rows) +:+
  (if bool_decide (50 < length rows)%nat then more_rows (length rows - 50) else "").
End Text.

(** ** Commands *)
Section Commands.
Context {K : Type} `{!Host K}.
Implicit Types k : K.

Definition run_command (cmd : string) (args : list string) (timeout : Z) k : res string string * K :=
  let '(p, k) := spawn cmd args timeout k in
  (match p with
   | NotSpawned e => Err ("Failed to spawn '" +:+ cmd +:+ "': " +:+ e)
   | TimedOut => Err ("Command '" +:+ cmd +:+ "' timed out after " +:+ pretty timeout +:+ "s")
   | WaitFailed e => Err ("Failed to execute command: " +:+ e)
   | Exited code out err =>
       let combined := if bool_decide (err = "") then out else
                       if bool_decide (out = "") then err else out +:+ LF_str +:+ err in
       if bool_decide (code = Some 0) then Ok combined
       else Err ("Command exited with code " +:+ pretty (default (-1) code) +:+ ": " +:+ take_chars 2000 combined)
   end, k).

Definition detect_package_manager k : string :=
  if exists_path "/usr/bin/apt" k || exists_path "/usr/bin/apt-get" k then "apt" else
  if exists_path "/usr/bin/dnf" k then "dnf" else
  if exists_path "/usr/bin/pacman" k then "pacman" else
  if exists_path "/usr/bin/zypper" k then "zypper" else "apt".
Definition upgrade_command (pm : string) : string :=
  if bool_decide (pm = "dnf") then "dnf upgrade -y" else
  if bool_decide (pm = "pacman") then "pacman -Syu --noconfirm" else
  if bool_decide (pm = "zypper") then "zypper refresh && zypper update -y" else
  "apt-get update -y && apt-get upgrade -y".

Definition has_any (cs : list ascii) (s : string) : bool := existsb (λ c, contains_char c s) cs.
Definition validate_service_name (name : string) : res string () :=
  guard_err (has_any [";"; "&"; "|"; "`"; "$"; " "]%char name) "Invalid service name".
Definition bad_name (name : string) : bool := has_any [";"; "&"; "|"; "`"]%char name.

(** A result and the state it leaves. *)
Definition then_run {A B} (r : res string A * K) (f : A → K → res string B * K) : res string B * K :=
  match r with
  | (Ok a, k) => f a k
  | (Err e, k) => (Err e, k)
  | (Panic, k) => (Panic, k)
  end.
Definition fail {A} (e : string) k : res string A * K := (Err e, k).
Definition plainly (r : res string string * K) : res string StepOutput * K := (plain_output <$> r.1, r.2).
Definition map_err {A} (f : string → string) (r : res string A * K) : res string A * K :=
  (match r.1 with Err e => Err (f e) | x => x end, r.2).

(** ** Disk space *)
Definition NO_NETWORK : list string := ["-x"; "nfs"; "-x"; "nfs4"; "-x"; "cifs"; "-x"; "sshfs"; "-x"; "fuse.sshfs"].
Definition whole (mp : string) : bool := bool_decide (mp = "all" ∨ mp = "").
Definition parse_or_0 (max : Z) (s : string) : Z := default 0 (parse_uint max s).

(** [df]'s lines: the free and total size and the use of the watched mount
    point, and the mount points over the threshold. *)
Record DiskScan := mk_scan { avail : Z; total : Z; pct : Z; over : list string }.
Definition scan_line (threshold : Z) (mp : string) (acc : DiskScan) (line : string) : DiskScan :=
  match split_whitespace line with
  | _ :: size :: _ :: free :: use :: mount :: _ =>
      let total' := parse_or_0 u64_max (trim_end_char "G" size) in
      let avail' := parse_or_0 u64_max (trim_end_char "G" free) in
      let pct' := parse_or_0 (2 ^ 32 - 1) (trim_end_char "%" use) in
      let hit := if whole mp then bool_decide (mount = "/") else bool_decide (mount = mp) in
      mk_scan (if hit then avail' else avail acc) (if hit then total' else total acc) (if hit then pct' else pct acc)
        (if threshold <? pct' then over acc ++ [mount +:+ " at " +:+ pretty pct' +:+ "%"] else over acc)
  | _ => acc
  end.
Definition check_disk_space (threshold : Z) (mp : string) k : res string StepOutput * K :=
  then_run (run_command "df" ("-h" :: NO_NETWORK) 10 k) (λ human k,
  then_run (run_command "df" ("-BG" :: if whole mp then NO_NETWORK else [mp]) 10 k) (λ gb k,
    let s := foldl (scan_line threshold mp) (mk_scan 0 0 0 []) (tail (lines gb)) in
    match over s with
    | [] => (Ok (structured_output human
               [("available_gb", JNum (avail s)); ("total_gb", JNum (total s)); ("usage_pct", JNum (pct s));
                ("mount_point", JStr (if whole mp then "/" else mp)); ("over_threshold", JBool false)]), k)
    | _ => (Err ("Over " +:+ pretty threshold +:+ "%: " +:+ join ", " (over s) +:+ LF_str +:+ LF_str +:+ human), k)
    end)).
End Commands.

(** ** One action on this node *)
Section Actions.
Context {K : Type} `{!Host K} `{JsonText}.
Implicit Types k : K.

Definition restart_container (runtime name : string) k : res string StepOutput * K :=
  if bad_name name then fail "Invalid container name" k else
  let runtime' := to_ascii_lowercase runtime in
  if bool_decide (runtime' = "docker") then plainly (run_command "docker" ["restart"; name] 120 k) else
  if bool_decide (runtime' = "lxc") then
    let '(_, k) := run_command "lxc-stop" ["-n"; name] 60 k in
    plainly (run_command "lxc-start" ["-n"; name] 60 k)
  else fail ("Unknown runtime: " +:+ runtime) k.

Definition docker_check_update (x : string) k : res string StepOutput * K :=
  if bad_name x then fail "Invalid container/image name" k else
  let '(r, k) := run_command "docker" ["inspect"; "--format"; "{{.Config.Image}}"; x] 10 k in
  let image := match r with Ok img => trim img | _ => x end in
  let '(r, k) := run_command "docker" ["image"; "inspect"; "--format"; "{{index .RepoDigests 0}}"; image] 10 k in
  let local := trim (match r with Ok out => out | _ => "" end) in
  if bool_decide (local = "") then
    fail ("Image '" +:+ image +:+ "' has no repo digest — locally built images cannot be checked") k else
  let digest := default local (split_on "@" local !! 1%nat) in
  (Ok (structured_output ("Local digest for " +:+ image +:+ ": " +:+ digest)
     [("image", JStr image); ("local_digest", JStr digest); ("update_available", JBool false); ("container", JStr x)]), k).

Definition docker_update (name : string) (backup_first : bool) k : res string StepOutput * K :=
  if has_any [";"; "&"; "|"]%char name then fail "Invalid container name" k else
  then_run (map_err (λ e, "Container '" +:+ name +:+ "' not found: " +:+ e)
             (run_command "docker" ["inspect"; "--format"; "{{.Config.Image}}"; name] 10 k)) (λ img k,
    let image := trim img in
    let k := if backup_first then (run_command "docker" ["commit"; name; name +:+ "_backup"] 120 k).2 else k in
    then_run (map_err (λ e, "Pull failed: " +:+ e) (run_command "docker" ["pull"; image] 600 k)) (λ _ k,
    then_run (map_err (λ e, "Restart failed after pull: " +:+ e) (run_command "docker" ["restart"; name] 120 k)) (λ _ k,
      (Ok (structured_output ("Updated container '" +:+ name +:+ "' with latest image '" +:+ image +:+ "'")
         [("success", JBool true); ("container", JStr name); ("image", JStr image)]), k)))).

(** A panic in the worker thread is an error of its own. *)
Definition run_backup_schedule (schedule_id : string) k : res string StepOutput * K :=
  let id := trim schedule_id in
  if bool_decide (id = "") then fail "No backup schedule selected" k else
  let '(r, k) := run_schedule_now_summary id k in
  match r with
  | Panic => fail "backup schedule worker failed" k
  | Err e => fail e k
  | Ok s =>
      if 0 <? b_failed s then
        fail (b_message s +:+ " — " +:+ pretty (b_failed s) +:+ " of " +:+ pretty (b_total s) +:+ " backup(s) failed") k
      else (Ok (structured_output (b_message s)
                  [("schedule", JStr (b_name s)); ("total", JNum (b_total s)); ("completed", JNum (b_completed s));
                   ("failed", JNum (b_failed s))]), k)
  end.

Definition METHODS : list string := ["GET"; "POST"; "PUT"; "DELETE"; "PATCH"; "HEAD"].
(** The fields of a response; a later insertion of a key wins. *)
Definition response_data (status : Z) (body : string) : list (string * Json) :=
  match from_json body with Some j => [("json", j)] | None => [] end ++
  [("status_code", JNum status); ("response_body", JStr (take_chars 5000 body))].
Definition http_request (c : HttpCall) k : res string StepOutput * K :=
  let m := to_uppercase (method c) in
  if negb (bool_decide (m ∈ METHODS)) then fail ("Unsupported HTTP method: " +:+ method c) k else
  then_run (map_err (λ e, "HTTP request failed: " +:+ e)
    (send (mk_http m (url c) (headers c) (body c) (auth c) (timeout_secs c) (fail_on_error c) (verify_tls c)) k)) (λ '(status, body) k,
    if fail_on_error c && (400 <=? status) then fail ("HTTP " +:+ pretty status +:+ " — " +:+ take_chars 2000 body) k
    else (Ok (structured_output
                ("HTTP " +:+ pretty status +:+ " — " +:+ pretty (Z.of_nat (String.length body)) +:+ " bytes")
                (response_data status body)), k)).
Definition service_call (api_url endpoint m : string) (hs : list HttpHeader) (b : option string) (a : option HttpAuth) : HttpCall :=
  mk_http m (trim_end_char "/" api_url +:+ endpoint) hs b a 30 true false.

Definition unifi_action (api_url username password endpoint m : string) (b : option string) k : res string StepOutput * K :=
  then_run (map_err (λ e, "Unifi login failed: " +:+ e) (unifi_login (trim_end_char "/" api_url +:+ "/api/login") username password k)) (λ login k,
  if negb ((200 <=? login) && (login <? 300)) then fail ("Unifi login failed: HTTP " +:+ pretty login) k else
  let m' := to_uppercase m in
  let m' := if bool_decide (m' ∈ ["POST"; "PUT"; "DELETE"]) then m' else "GET" in
  then_run (map_err (λ e, "Unifi request failed: " +:+ e) (unifi_send m' (trim_end_char "/" api_url +:+ endpoint) b k)) (λ '(status, body) k,
  if 400 <=? status then fail ("Unifi HTTP " +:+ pretty status +:+ " — " +:+ take_chars 2000 body) k
  else (Ok (structured_output ("Unifi HTTP " +:+ pretty status) (response_data status body)), k))).

Definition ASSISTANT : string :=
  "You are an operations assistant inside a WolfFlow workflow. Answer concisely. Output plain text — no JSON, no markdown formatting unless explicitly asked. If the answer is yes/no, start with 'YES' or 'NO' on its own line so a downstream Condition step can branch on it.".
Definition ai_invoke (prompt : string) (sys m p : option string) k : res string StepOutput * K :=
  let cfg := ai_config k in
  let cfg := mk_ai (default (provider cfg) p) (default (model cfg) m) (smtp_host cfg) in
  then_run (map_err (λ e, "AiInvoke failed: " +:+ e) (simple_chat cfg (default ASSISTANT sys) prompt k)) (λ reply k,
    (Ok (structured_output reply
       [("response", JStr reply); ("model", JStr (model cfg)); ("provider", JStr (provider cfg))]), k)).
Definition agent_chat (agent_id message : string) (timeout : Z) k : res string StepOutput * K :=
  let '(r, k) := chat_with_agent agent_id message timeout k in
  match r with
  | None => fail ("AgentChat timed out after " +:+ pretty timeout +:+ "s") k
  | Some r => then_run (map_err (λ e, "AgentChat failed: " +:+ e) (r, k)) (λ reply k,
                (Ok (structured_output reply [("agent_id", JStr agent_id); ("response", JStr reply)]), k))
  end.

Definition debug_permission (p : SqlStepPermission) : string :=
  match p with PRead => "Read" | PUpdate => "Update" | PDelete => "Delete" end.
Definition sql_query (connection query : string) (p : SqlStepPermission) (timeout : Z) (fail_on_empty : bool) k :
    res string StepOutput * K :=
  then_run (map_err (λ e, "SqlQuery failed: " +:+ e) (sql_execute connection query p timeout k)) (λ r k,
  if fail_on_empty && (row_count r =? 0) && (default 0 (affected_rows r) =? 0)
  then fail "SqlQuery returned no rows and fail_on_empty is set" k
  else (Ok (structured_output
    (debug_permission p +:+ " on '" +:+ connection +:+ "': " +:+ pretty (row_count r) +:+ " rows"
     +:+ match affected_rows r with Some a => " (affected " +:+ pretty a +:+ ")" | None => "" end
     +:+ (if truncated r then " (truncated)" else ""))
    [("columns", JArr (JStr <$> columns r)); ("rows", JArr (JArr <$> rows r)); ("row_count", JNum (row_count r));
     ("affected_rows", match affected_rows r with Some a => JNum a | None => JNull end);
     ("elapsed_ms", JNum (elapsed_ms r)); ("truncated", JBool (truncated r));
     ("rows_csv", JStr (render_rows_csv (columns r) (rows r)));
     ("rows_markdown", JStr (render_rows_markdown (columns r) (rows r)))]), k)).
Definition send_email (to : list string) (subject body : string) (html : bool) k : res string StepOutput * K :=
  let cfg := ai_config k in
  if bool_decide (smtp_host cfg = "") then fail "SendEmail: SMTP not configured — Settings → AI Agent → Email" k else
  if bool_decide (to = []) then fail "SendEmail: `to` is empty" k else
  then_run (map_err (λ e, "SendEmail failed: " +:+ e) (send_email_generic cfg to subject body html k)) (λ _ k,
    (Ok (structured_output ("Emailed " +:+ pretty (Z.of_nat (length to)) +:+ " recipient(s): " +:+ subject)
       [("to", JArr (JStr <$> to)); ("subject", JStr subject)]), k)).

(** A condition outside a run, and an integration, only report their settings. *)
Definition standalone_condition (expression compare_to operator : string) : StepOutput :=
  structured_output
    ("Condition: '" +:+ expression +:+ "' " +:+ operator +:+ " '" +:+ compare_to +:+ "' (context required for evaluation)")
    [("result", JBool false); ("expression", JStr expression); ("operator", JStr operator); ("compare_to", JStr compare_to)].
Definition integration_action (instance_id operation : string) : StepOutput :=
  structured_output ("Integration action: instance=" +:+ instance_id +:+ ", operation=" +:+ operation)
    [("instance_id", JStr instance_id); ("operation", JStr operation)].

Definition execute_action_local (a : ActionType) k : res string StepOutput * K :=
  match a with
  | UpdatePackages => plainly (run_command "bash" ["-c"; upgrade_command (detect_package_manager k)] 600 k)
  | UpdateWolfstack channel =>
      plainly (run_command "bash" ["-c";
        "curl -sSL https://raw.githubusercontent.com/intelligentwolf/WolfStack/" +:+ channel +:+ "/setup.sh | bash"] 600 k)
  | RestartService name =>
      then_run (validate_service_name name, k) (λ _ k, plainly (run_command "systemctl" ["restart"; name] 60 k))
  | RunCommand command timeout => plainly (run_command "bash" ["-c"; command] timeout k)
  | CleanLogs size => plainly (run_command "journalctl" ["--vacuum-size=" +:+ pretty (default 500 size) +:+ "M"] 120 k)
  | CheckDiskSpace threshold mp => check_disk_space (default 90 threshold) (default "all" mp) k
  | RestartContainer runtime name => restart_container runtime name k
  | DockerPrune => plainly (run_command "docker" ["system"; "prune"; "-af"] 300 k)
  | DockerCheckUpdate x => docker_check_update x k
  | DockerUpdate name backup_first => docker_update name backup_first k
  | DockerCheckUpdateMany _ _ | DockerUpdateMany _ _ => image_watcher a k
  | RunBackupSchedule id => run_backup_schedule id k
  | HttpRequest c => http_request c k
  | Condition expression compare_to operator => (Ok (standalone_condition expression compare_to operator), k)
  | NetBirdAction api_url api_token endpoint m b =>
      http_request (service_call api_url endpoint m [mk_header "Authorization" ("Token " +:+ api_token)] b None) k
  | TrueNasAction api_url api_key endpoint m b =>
      http_request (service_call api_url endpoint m [] b (Some (Bearer api_key))) k
  | UnifiAction api_url username password endpoint m b => unifi_action api_url username password endpoint m b k
  | IntegrationAction instance_id operation _ => (Ok (integration_action instance_id operation), k)
  | AiInvoke prompt sys m p _ => ai_invoke prompt sys m p k
  | AgentChat agent_id message timeout => agent_chat agent_id message timeout k
  | SqlQuery connection query p timeout fail_on_empty => sql_query connection query p timeout fail_on_empty k
  | SendEmail to subject body html => send_email to subject body html k
  end.

(** ** Inside containers and virtual machines *)
Definition exec_in_docker (name command : string) (timeout : Z) k : res string string * K :=
  run_command "docker" ["exec"; name; "sh"; "-c"; command] timeout k.
Definition exec_in_lxc (name command : string) (timeout : Z) k : res string string * K :=
  run_command "lxc-attach" ["-n"; name; "--"; "sh"; "-c"; command] timeout k.

Definition is_mac (s : string) : bool :=
  all_chars (λ c, char_between 48 57 c || char_between 65 70 c || char_between 97 102 c || bool_decide (c = ":"%char)) s
  && bool_decide (String.length s = 17%nat).
Definition no_exec (vm why : string) : string := "Cannot execute in VM '" +:+ vm +:+ "': " +:+ why.
Definition vm_address (vm_n : string) k : res string string * K :=
  let vm := List.find (λ v, bool_decide (vm_name v = vm_n)) (list_vms k) in
  match vm ≫= wolfnet_ip with
  | Some (String _ _ as ip) => (Ok ip, k)
  | _ =>
      match vm ≫= mac_address with
      | None => fail (no_exec vm_n "no MAC or IP address found.") k
      | Some mac =>
          if negb (is_mac mac) then fail (no_exec vm_n "invalid MAC address format.") k else
          let '(r, k) := run_command "grep" ["-i"; mac; "/proc/net/arp"] 5 k in
          match r with
          | Ok line =>
              if bool_decide (trim line = "")
              then fail (no_exec vm_n "no IP address found. Ensure the VM has a network connection.") k
              else let ip := default "" (head (split_whitespace line)) in
                   if is_ipv4 ip then (Ok ip, k) else fail (no_exec vm_n "ARP lookup returned invalid IP.") k
          | _ => fail (no_exec vm_n "no IP address found. Ensure the VM has a network connection.") k
          end
      end
  end.
Definition exec_in_vm (vm_n command : string) (timeout : Z) k : res string string * K :=
  then_run (vm_address vm_n k) (λ ip k,
    if negb (is_ipv4 ip) && negb (is_ipv6 ip) then fail (no_exec vm_n ("invalid IP address '" +:+ ip +:+ "'")) k else
    run_command "ssh" ["-o"; "StrictHostKeyChecking=no"; "-o"; "ConnectTimeout=5"; "-o"; "BatchMode=yes";
                       "root@" +:+ ip; "sh"; "-c"; command] timeout k).

Definition UPGRADE : string :=
  "apt-get update -y && apt-get upgrade -y 2>/dev/null || dnf upgrade -y 2>/dev/null || true".
Definition vacuum (size : option Z) (fallback : string) : string :=
  "journalctl --vacuum-size=" +:+ pretty (default 500 size) +:+ "M 2>/dev/null || " +:+ fallback.
(** The command an action becomes inside a container of each kind, if any. *)
Definition inside_docker (a : ActionType) : option string :=
  match a with
  | UpdatePackages => Some UPGRADE
  | CleanLogs _ => Some "find /var/log -type f -name '*.log' -mtime +7 -delete 2>/dev/null; echo 'Logs cleaned'"
  | CheckDiskSpace _ _ => Some "df -h"
  | _ => None
  end.
Definition inside_system (fallback : string) (a : ActionType) : res string (option string) :=
  match a with
  | UpdatePackages => Ok (Some UPGRADE)
  | CleanLogs size => Ok (Some (vacuum size fallback))
  | CheckDiskSpace _ _ => Ok (Some "df -h")
  | RestartService name => _ ← validate_service_name name; Ok (Some ("systemctl restart " +:+ name))
  | _ => Ok None
  end.

Definition execute_action_in_container (a : ActionType) (ct : ContainerTarget) k : res string StepOutput * K :=
  let name := ct_name ct in
  let runtime := ct_runtime ct in
  let on_host k := execute_action_local a k in
  match a with
  | RunCommand command timeout =>
      if bool_decide (runtime = "docker") then plainly (exec_in_docker name command timeout k) else
      if bool_decide (runtime = "lxc") then plainly (exec_in_lxc name command timeout k) else
      if bool_decide (runtime = "vm") then plainly (exec_in_vm name command timeout k) else
      fail ("Unknown runtime: " +:+ runtime) k
  | RestartContainer _ _ => execute_action_local (RestartContainer runtime name) k
  | _ =>
      if bool_decide (runtime = "docker") then
        match inside_docker a with
        | Some c => plainly (exec_in_docker name c 300 k)
        | None => on_host k
        end
      else if bool_decide (runtime = "lxc") then
        then_run (inside_system "find /var/log -type f -name '*.log' -mtime +7 -delete; echo 'Logs cleaned'" a, k) (λ c k,
          match c with Some c => plainly (exec_in_lxc name c 300 k) | None => on_host k end)
      else if bool_decide (runtime = "vm") then
        then_run (inside_system "echo 'no journalctl'" a, k) (λ c k,
          match c with Some c => plainly (exec_in_vm name c 300 k) | None => on_host k end)
      else on_host k
  end.
End Actions.

(** ** On another node *)
Section Remote.
Context {K : Type} `{!Host K} `{JsonText}.
Implicit Types k : K.

Definition bracket_host (host : string) : string :=
  let h := trim host in if is_ipv6 h then "[" +:+ h +:+ "]" else host.
Definition build_node_urls (address : string) (port : Z) (path : string) k : list string :=
  let host := bracket_host address in
  let at_port scheme h p := scheme +:+ "://" +:+ h +:+ ":" +:+ pretty p +:+ path in
  [at_port "https" host port] ++
  match wolfnet_ip_of address k with Some wn => [at_port "http" wn (wrap 16 (port + 1))] | None => [] end ++
  [at_port "http" host port].

Definition success (st : Z) : bool := (200 <=? st) && (st <? 300).
Definition as_object (v : Json) : option (list (string * Json)) := match v with JObj fs => Some fs | _ => None end.
(** A body that reports an error, or its text. *)
Definition reply_text (result : Json) : res string string :=
  match get "error" result ≫= as_string with
  | Some e => Err e
  | None => Ok (default "OK" (get "output" result ≫= as_string))
  end.

(** The first URL that answers decides; [remote url] names it in an error. *)
Fixpoint ask (urls : list string) (call : PeerCall) (decode : string → Z → string → option Json → res string StepOutput)
    (unreachable : string) k : res string StepOutput * K :=
  match urls with
  | [] => fail unreachable k
  | u :: urls =>
      match peer_post u call k with
      | (NoAnswer, k) => ask urls call decode unreachable k
      | (Answered st raw parsed, k) => (decode u st raw parsed, k)
      end
  end.
Definition decode_exec (u : string) (st : Z) (raw : string) (parsed : option Json) : res string StepOutput :=
  if success st then
    result ← ok_or parsed "Failed to parse response";
    t ← reply_text result;
    Ok (mk_output t (list_to_map (default [] (get "data" result ≫= as_object))))
  else Err ("Remote node returned " +:+ pretty st +:+ ": " +:+ raw).
Definition decode_in_containers (u : string) (st : Z) (raw : string) (parsed : option Json) : res string StepOutput :=
  if success st then
    result ← ok_or parsed "Parse error";
    t ← reply_text result; Ok (plain_output t)
  else Err ("Remote " +:+ u +:+ " returned " +:+ pretty st +:+ ": " +:+ raw).

Definition execute_action_remote (address : string) (port : Z) (a : ActionType) k : res string StepOutput * K :=
  ask (build_node_urls address port "/api/wolfflow/exec" k) (NodeExec a) decode_exec
    ("Could not reach node at " +:+ address +:+ ":" +:+ pretty port) k.
Definition execute_container_remote (address : string) (port : Z) (a : ActionType) (ct : ContainerTarget) k :
    res string StepOutput * K :=
  ask (build_node_urls address port "/api/wolfflow/container-exec" k) (ContainerExec a ct) decode_in_containers
    ("Failed to reach node " +:+ address +:+ ":" +:+ pretty port) k.
Definition execute_all_containers_remote (address : string) (port : Z) (a : ActionType) k : res string StepOutput * K :=
  ask (build_node_urls address port "/api/wolfflow/all-containers-exec" k) (AllContainersExec a) decode_in_containers
    ("Failed to reach node " +:+ address +:+ ":" +:+ pretty port) k.

(** An action inside everything on this node; errors become lines of text. *)
Definition run_in (a : ActionType) (runtime : string) (acc : res string (list string) * K) (name : string) :
    res string (list string) * K :=
  then_run acc (λ outs k,
    let label := "[" +:+ runtime +:+ ":" +:+ name +:+ "] " in
    match execute_action_in_container a (mk_container "" runtime name) k with
    | (Ok o, k) => (Ok (outs ++ [label +:+ text o]), k)
    | (Err e, k) => (Ok (outs ++ [label +:+ "ERROR: " +:+ e]), k)
    | (Panic, k) => (Panic, k)
    end).
Definition execute_in_all_local_containers (a : ActionType) k : res string StepOutput * K :=
  let acc := foldl (run_in a "docker") (Ok [], k) (docker_list_all k) in
  let acc := foldl (run_in a "lxc") acc (lxc_list_all acc.2) in
  let acc := foldl (run_in a "vm") acc (vm_name <$> filter (λ v, Is_true (vm_running v)) (list_vms acc.2)) in
  then_run acc (λ outs k,
    (Ok (plain_output (match outs with [] => "No containers or VMs found on this node" | _ => join LF_str outs end)), k)).

(** *** The handlers that serve these requests

    [gate] is the refusal of [require_operator_auth], if it refuses.  A handler
    that panics sends no answer. *)
Definition output_json (o : StepOutput) : Json :=
  JObj [("text", JStr (text o)); ("data", JObj (map_to_list (data o)))].
Definition answer (outcome : res string StepOutput * K) (good : StepOutput → Json) (bad_key : string) : option (Z * Json) * K :=
  (match outcome.1 with
   | Ok o => Some (200, JObj [("ok", JBool true); ("output", good o)])
   | Err e => Some (200, JObj [("ok", JBool false); (bad_key, JStr e)])
   | Panic => None
   end, outcome.2).
Definition wolfflow_exec (gate : option (Z * Json)) (a : ActionType) k : option (Z * Json) * K :=
  match gate with
  | Some refusal => (Some refusal, k)
  | None => answer (execute_action_local a k) output_json "output"
  end.
Definition wolfflow_container_exec (gate : option (Z * Json)) (a : ActionType) (ct : ContainerTarget) k : option (Z * Json) * K :=
  match gate with
  | Some refusal => (Some refusal, k)
  | None => answer (execute_action_in_container a ct k) (λ o, JStr (text o)) "error"
  end.
Definition wolfflow_all_containers_exec (gate : option (Z * Json)) (a : ActionType) k : option (Z * Json) * K :=
  match gate with
  | Some refusal => (Some refusal, k)
  | None => answer (execute_in_all_local_containers a k) (λ o, JStr (text o)) "error"
  end.
End Remote.
