(* ===== verification/WorkflowRun.v ===== *)
(** * Workflows: runs, the scheduler and the handlers

    wolfflow/mod.rs: [execute_workflow] as a loop whose iterations are steps of
    their own, because the store's locks are free between them; the scheduler
    of main.rs, the handlers of api/mod.rs and the agents' tools
    (wolfagents/dispatch.rs) that start runs and edit workflows. *)
From stdpp Require Import pretty.
From S2P Require Import Prelude Net Cluster AgentGate Cron Workflow WorkflowHost.

(** ** Targets *)
Record TargetNode := mk_target_node { t_id : string; t_hostname : string; t_address : string; t_port : Z; t_self : bool }.
Definition target_node (n : Node) : TargetNode :=
  mk_target_node (n_id n) (n_hostname n) (n_address n) (n_port n) (n_is_self n).
Definition wolfstack_online (n : Node) : bool := n_online n && bool_decide (n_node_type n = "wolfstack").
Definition host_of (nodes : list Node) (id : string) : option Node :=
  List.find (λ n, bool_decide (n_id n = id) && n_online n) nodes.

(** The hosts of containers, each once. *)
Fixpoint container_hosts (nodes : list Node) (seen : list string) (cts : list ContainerTarget) : list TargetNode :=
  match cts with
  | [] => []
  | ct :: cts =>
      if bool_decide (ct_node_id ct ∈ seen) then container_hosts nodes seen cts else
      match host_of nodes (ct_node_id ct) with
      | Some n => target_node n :: container_hosts nodes (ct_node_id ct :: seen) cts
      | None => container_hosts nodes seen cts
      end
  end.
Definition resolve_targets (nodes : list Node) (t : Target) : list TargetNode :=
  match t with
  | TLocal => (λ n, mk_target_node (n_id n) (n_hostname n) (n_address n) (n_port n) true) <$> retain n_is_self nodes
  | TAllNodes | TEverything => target_node <$> retain wolfstack_online nodes
  | TCluster c => target_node <$>
      retain (λ n, wolfstack_online n && bool_decide (default "WolfStack" (n_cluster_name n) = c)) nodes
  | TNodes ids => target_node <$> retain (λ n, n_online n && bool_decide (n_id n ∈ ids)) nodes
  | TContainers cts => container_hosts nodes [] cts
  end.

(** What one attempt of a step spawns. *)
Inductive Task :=
| OnNode (n : TargetNode)
| InContainer (ct : ContainerTarget) (n : TargetNode)
| HostMissing (ct : ContainerTarget)
| InAllOf (n : TargetNode).
Definition container_task (targets : list TargetNode) (nodes : list Node) (ct : ContainerTarget) : Task :=
  match List.find (λ t, bool_decide (t_id t = ct_node_id ct)) targets with
  | Some n => InContainer ct n
  | None => match host_of nodes (ct_node_id ct) with
            | Some n => InContainer ct (target_node n)
            | None => HostMissing ct
            end
  end.
Definition tasks_for (t : Target) (targets : list TargetNode) (nodes : list Node) : list Task :=
  match t with
  | TContainers cts => container_task targets nodes <$> cts
  | TEverything => (OnNode <$> targets) ++ (InAllOf <$> targets)
  | _ => OnNode <$> targets
  end.

(** ** A run *)

(** The clock ([Utc::now().to_rfc3339()] and an [Instant] in nanoseconds),
    [sleep], the nodes the cluster state shows, and outgoing mail. *)
Class Surroundings (K : Type) := {
  clock : K → (string * Z) * K;
  sleep : Z → K → K;
  nodes_of : K → list Node;
  send_html_email : AiConfig → string → string → string → K → res string () * K
}.
Record Exec := mk_exec {
  x_wf : Workflow; x_ai : AiConfig; x_run : WorkflowRun; x_idx : nat; x_ctx : WorkflowContext;
  x_failed : bool; x_aborted : bool; x_start : Z
}.
#[global] Instance eta_exec : Eta Exec := λ x, mk_exec
  (x_wf x) (x_ai x) (x_run x) (x_idx x) (x_ctx x) (x_failed x) (x_aborted x) (x_start x).
#[global] Instance set_x_run : Setter x_run := ltac:(derive_setter x_run).
#[global] Instance set_x_idx : Setter x_idx := ltac:(derive_setter x_idx).
#[global] Instance set_x_ctx : Setter x_ctx := ltac:(derive_setter x_ctx).
#[global] Instance set_x_failed : Setter x_failed := ltac:(derive_setter x_failed).
#[global] Instance set_x_aborted : Setter x_aborted := ltac:(derive_setter x_aborted).

(** What an iteration of the loop ends in: another one, after the run was
    written to the store or not, or the end of the loop. *)
Inductive Iter := Next (x : Exec) (persist : bool) | Leave (x : Exec).

Definition show_bool (b : bool) : string := if b then "true" else "false".
Definition debug_status (st : RunStatus) : string :=
  match st with Running => "Running" | Completed => "Completed" | Failed => "Failed" | PartialFailure => "PartialFailure" end.
Definition is_failed (r : StepResult) : bool := bool_decide (r_status r = Failed).
Definition aborts (f : OnFailure) : bool := match f with Abort | NotifyAndAbort => true | _ => false end.
Definition push (r : StepResult) (x : Exec) : Exec := x <| x_run := x_run x <| results := results (x_run x) ++ [r] |> |>.
(** [Instant] differences in milliseconds. *)
Definition millis (now t : Z) : Z := since now t / 10 ^ 6.

Section Engine.
Context {K : Type} `{!Host K} `{!Surroundings K} `{JsonText}.
Implicit Types (k : K) (x : Exec).

Definition place (t : Task) : string * string :=
  match t with
  | OnNode n => (t_id n, t_hostname n)
  | InContainer ct n => (t_id n, ct_runtime ct +:+ ":" +:+ ct_name ct +:+ " on " +:+ t_hostname n)
  | HostMissing ct => (ct_node_id ct, ct_runtime ct +:+ ":" +:+ ct_name ct)
  | InAllOf n => (t_id n, t_hostname n +:+ " (containers)")
  end.
Definition perform (a : ActionType) (t : Task) k : res string StepOutput * K :=
  match t with
  | OnNode n => if t_self n then execute_action_local a k else execute_action_remote (t_address n) (t_port n) a k
  | InContainer ct n =>
      if t_self n then execute_action_in_container a ct k else execute_container_remote (t_address n) (t_port n) a ct k
  | HostMissing ct => fail ("Host node '" +:+ ct_node_id ct +:+ "' not found or offline") k
  | InAllOf n =>
      if t_self n then execute_in_all_local_containers a k else execute_all_containers_remote (t_address n) (t_port n) a k
  end.
(** A task that panics is joined as an error. *)
Definition run_task (st : WorkflowStep) (t : Task) k : (StepResult * option StepOutput) * K :=
  let '((started, t0), k) := clock k in
  let '(r, k) := perform (action st) t k in
  let '((finished, t1), k) := clock k in
  let result status out := mk_result (step_name st) (place t).1 (place t).2 status (take_chars 5000 out) started finished
    (match t with HostMissing _ => 0 | _ => millis t1 t0 end) in
  (match r with
   | Ok o => (result Completed (text o), Some o)
   | Err e => (result Failed e, None)
   | Panic => (mk_result (step_name st) "unknown" "unknown" Failed "Task error" finished finished 0, None)
   end, k).
(** The tasks of an attempt; those of one attempt run at the same time. *)
Fixpoint run_tasks (st : WorkflowStep) (ts : list Task) k : list (StepResult * option StepOutput) * K :=
  match ts with
  | [] => ([], k)
  | t :: ts => let '(r, k) := run_task st t k in let '(rs, k) := run_tasks st ts k in (r :: rs, k)
  end.
Definition last_output (rs : list (StepResult * option StepOutput)) : option StepOutput := last (omap snd rs).

(** Attempts [attempt], ..., [attempt + n - 1] of a step. *)
Fixpoint attempts (n : nat) (attempt : Z) (t : Target) (targets : list TargetNode) (st : WorkflowStep) x k : Exec * K :=
  match n with
  | O => (x, k)
  | S n =>
      let k := if (0 <? attempt) && (0 <? retry_delay_secs st) then sleep (retry_delay_secs st) k else k in
      let '(rs, k) := run_tasks st (tasks_for t targets (nodes_of k)) k in
      let kept := if 0 <? attempt then retain (λ r, negb (bool_decide (r_step_name r = step_name st))) (results (x_run x))
                  else results (x_run x) in
      let x := x <| x_run := x_run x <| results := kept ++ rs.*1 |> |> in
      if negb (existsb is_failed rs.*1) then
        (match last_output rs with Some o => x <| x_ctx := <[step_name st := o]> (x_ctx x) |> | None => x end, k)
      else match n with
           | O => (x <| x_failed := true |> <| x_aborted := x_aborted x || aborts (on_failure st) |>, k)
           | S _ => attempts n (attempt + 1) t targets st x k
           end
  end.

(** The [Condition] branch of the loop. *)
Definition branch (st : WorkflowStep) (expression compare_to operator : string) x k : Exec * K :=
  let result := evaluate_condition expression compare_to operator (x_ctx x) in
  let resolved := resolve_templates expression (x_ctx x) in
  let out := mk_output ("Condition: " +:+ expression +:+ " → " +:+ show_bool result)
                       {["result" := JBool result; "expression_resolved" := JStr resolved]} in
  let x := x <| x_ctx := <[step_name st := out]> (x_ctx x) |> in
  let '((started, _), k) := clock k in
  let '((finished, _), k) := clock k in
  let x := push (mk_result (step_name st) "local" "local" Completed
                   ("Condition '" +:+ resolve_templates expression (x_ctx x) +:+ "' " +:+ operator +:+ " '" +:+ compare_to
                    +:+ "' → " +:+ show_bool result) started finished 0) x in
  (x <| x_idx := default (S (x_idx x)) (if result then on_true_step st else on_false_step st) |>, k).

Definition stamp x k : Exec * K :=
  let '((_, t), k) := clock k in (x <| x_run := x_run x <| duration_ms := millis t (x_start x) |> |>, k).
Definition out_of_time x k : bool * K :=
  if 0 <? max_runtime_secs (x_wf x) then
    let '((_, t), k) := clock k in (max_runtime_secs (x_wf x) * SEC <? since t (x_start x), k)
  else (false, k).

Definition advance x k : Iter * K :=
  match steps (x_wf x) !! x_idx x with
  | None => (Leave x, k)
  | Some st =>
      if x_aborted x then (Leave x, k) else
      let '(late, k) := out_of_time x k in
      if late then (Leave (x <| x_aborted := true |>), k) else
      match action st with
      | Condition expression compare_to operator =>
          let '(x, k) := branch st expression compare_to operator x k in
          let '(x, k) := stamp x k in (Next x true, k)
      | _ =>
          let t := default (target (x_wf x)) (target_override st) in
          match resolve_targets (nodes_of k) t with
          | [] =>
              let '((started, _), k) := clock k in
              let '((finished, _), k) := clock k in
              let x := push (mk_result (step_name st) "none" "none" Failed "No target nodes found" started finished 0) x in
              (Next (x <| x_failed := true |> <| x_aborted := aborts (on_failure st) |> <| x_idx := S (x_idx x) |>) false, k)
          | targets =>
              let '(x, k) := attempts (Z.to_nat (wrap 32 (retry_count st + 1))) 0 t targets st x k in
              let '(x, k) := stamp x k in (Next (x <| x_idx := S (x_idx x) |>) true, k)
          end
      end
  end.

(** ** The end of a run *)
Definition final_status x : RunStatus :=
  if x_aborted x then Failed else if x_failed x then PartialFailure else Completed.
Definition shortened (s : string) : res string string :=
  if 500 <? Z.of_nat (String.length s) then t ← slice_to 500 s; Ok (t +:+ "...") else Ok s.
Fixpoint email_rows (rs : list StepResult) : res string string :=
  match rs with
  | [] => Ok ""
  | r :: rs =>
      out ← shortened (r_output r);
      rest ← email_rows rs;
      Ok ("<tr><td>" +:+ r_step_name r +:+ "</td><td>" +:+ r_node_hostname r +:+ "</td><td>" +:+ debug_status (r_status r)
          +:+ "</td><td>" +:+ pretty (r_duration_ms r) +:+ "ms</td><td><pre>" +:+ out +:+ "</pre></td></tr>" +:+ rest)
  end.
Definition html_body (r : WorkflowRun) (rows : string) : string :=
  "<html><body style='font-family:sans-serif;'><h2>[WolfFlow] " +:+ workflow_name r +:+ " &mdash; "
  +:+ debug_status (status r) +:+ "</h2><p>Trigger: " +:+ trigger r +:+ " | Duration: " +:+ pretty (duration_ms r)
  +:+ "ms | Steps: " +:+ pretty (Z.of_nat (length (results r)))
  +:+ "</p><table border='1' cellpadding='6' cellspacing='0' style='border-collapse:collapse;font-size:13px;'><tr><th>Step</th><th>Node</th><th>Status</th><th>Duration</th><th>Output</th></tr>"
  +:+ rows +:+ "</table></body></html>".
Definition email_run (ai : AiConfig) (to : option string) (r : WorkflowRun) k : res string WorkflowRun * K :=
  match to with
  | None | Some EmptyString => (Ok r, k)
  | Some addr =>
      if bool_decide (smtp_host ai = "")
      then (Ok (r <| email_status := Some "Failed: SMTP not configured in Settings → AI Agent" |>), k)
      else then_run (email_rows (results r), k) (λ rows k,
        let '(sent, k) := send_html_email ai addr
          ("[WolfFlow] " +:+ workflow_name r +:+ " — " +:+ debug_status (status r)) (html_body r rows) k in
        match sent with
        | Ok _ => (Ok (r <| email_status := Some ("Sent to " +:+ addr) |>), k)
        | Err e => (Ok (r <| email_status := Some ("Failed: " +:+ e) |>), k)
        | Panic => (Panic, k)
        end)
  end.
Definition finish x k : res string WorkflowRun * K :=
  let '((finished, t), k) := clock k in
  email_run (x_ai x) (email_results (x_wf x))
    (x_run x <| status := final_status x |> <| finished_at := Some finished |> <| duration_ms := millis t (x_start x) |>) k.

Definition begin_run (rid trig : string) (wf : Workflow) (ai : AiConfig) k : Exec * K :=
  let '((now, t), k) := clock k in
  (mk_exec wf ai (mk_run rid (wf_id wf) (wf_name wf) Running trig [] now None 0 None) 0 ∅ false false t, k).
End Engine.

(** ** The node *)

(** A spawned run that has not begun, or one between two iterations. *)
Inductive Phase := Queued (wf : Workflow) (trig : string) (ai : AiConfig) | Active (x : Exec).
Record FlowNode (K : Type) := mk_flow { store : FlowStore; tasks : list Phase; world : K }.
Arguments mk_flow {K}. Arguments store {K}. Arguments tasks {K}. Arguments world {K}.

(** [w] and [w'] are what becomes of the two files the step writes; [rid] the
    identity a run draws. *)
Inductive FlowStep :=
| Create (w : Write) (fresh : string) (x : Workflow)
| Update (w : Write) (id : string) (x : Workflow)
| Delete (w : Write) (id : string)
| Start (trig : string) (id : string) (ai : AiConfig)
| Reschedule (w : Write) (id : string) (sched : option string) (enabled : option bool)
| Tick (now : Z) (now_minute : string) (ai : AiConfig)
| Go (i : nat) (rid : string) (w w' : Write)
| Restart.

Section Node.
Context {K : Type} `{!Host K} `{!Surroundings K} `{JsonText} `{Calendar}.
Implicit Types n : FlowNode K.

(** [wolfflow_create] and [wolfflow_update] of api/mod.rs, after the body was parsed. *)
Definition wolfflow_create (w : Write) (fresh : string) (x : Workflow) n : FlowNode K :=
  let '((now, _), k) := clock (world n) in
  let x := if bool_decide (wf_id x = "") then x <| wf_id := fresh |> else x in
  let x := if bool_decide (created_at x = "") then x <| created_at := now |> else x in
  mk_flow (create_workflow w (x <| updated_at := now |>) (store n)) (tasks n) k.
Definition wolfflow_update (w : Write) (id : string) (x : Workflow) n : FlowNode K :=
  let '((now, _), k) := clock (world n) in
  mk_flow (update_workflow w now id x (store n)).2 (tasks n) k.
(** The history, newest first, and one run of it. *)
Definition wolfflow_runs_list (id : option string) (limit : option nat) n : list WorkflowRun :=
  take (default 50%nat limit) (reverse (list_runs id (store n))).
Definition wolfflow_run_detail (id : string) n : option WorkflowRun := List.find (has_run_id id) (runs (store n)).
(** [wolfflow_trigger], and [tool_run_workflow] of the agents. *)
Definition wolfflow_trigger (trig id : string) (ai : AiConfig) n : FlowNode K :=
  match get_workflow id (store n) with
  | Some wf => mk_flow (store n) (tasks n ++ [Queued wf trig ai]) (world n)
  | None => n
  end.
(** [tool_schedule_workflow], once it accepted its arguments. *)
Definition tool_schedule_workflow (w : Write) (id : string) (sched : option string) (enabled : option bool) n : FlowNode K :=
  match get_workflow id (store n) with
  | Some wf =>
      let wf := wf <| schedule := sched |> in
      let wf := match enabled, sched with
                | Some b, _ => wf <| wf_enabled := b |>
                | None, Some _ => wf <| wf_enabled := true |>
                | None, None => wf
                end in
      wolfflow_update w id wf n
  | None => n
  end.
Definition scheduler_pass (now : Z) (now_minute : string) (ai : AiConfig) n : FlowNode K :=
  mk_flow (store n) (tasks n ++ ((λ wf, Queued wf "scheduled" ai) <$> get_due_workflows now now_minute (store n))) (world n).

Definition go (i : nat) (rid : string) (w w' : Write) n : FlowNode K :=
  match tasks n !! i with
  | None => n
  | Some (Queued wf trig ai) =>
      let '(x, k) := begin_run rid trig wf ai (world n) in
      mk_flow (add_run w (x_run x) (store n)) (<[i := Active x]> (tasks n)) k
  | Some (Active x) =>
      match advance x (world n) with
      | (Next x' persist, k) =>
          mk_flow (if persist then update_run w (run_id (x_run x')) (x_run x') (store n) else store n)
                  (<[i := Active x']> (tasks n)) k
      | (Leave x', k) =>
          match finish x' k with
          | (Ok r, k) =>
              let '((now, _), k) := clock k in
              mk_flow (mark_last_run w' now (wf_id (x_wf x')) (update_run w (run_id r) r (store n)))
                      (delete i (tasks n)) k
          | (_, k) => mk_flow (store n) (delete i (tasks n)) k
          end
      end
  end.
Definition restart n : FlowNode K :=
  mk_flow (load (workflows_file (store n)) (runs_file (store n))) [] (world n).

Definition flow_step n (e : FlowStep) : FlowNode K :=
  match e with
  | Create w fresh x => wolfflow_create w fresh x n
  | Update w id x => wolfflow_update w id x n
  | Delete w id => mk_flow (delete_workflow w id (store n)).2 (tasks n) (world n)
  | Start trig id ai => wolfflow_trigger trig id ai n
  | Reschedule w id sched enabled => tool_schedule_workflow w id sched enabled n
  | Tick now now_minute ai => scheduler_pass now now_minute ai n
  | Go i rid w w' => go i rid w w' n
  | Restart => restart n
  end.
Definition flow_run n (es : list FlowStep) : FlowNode K := foldl flow_step n es.
End Node.
