(* ===== verification/WorkflowInv.v ===== *)
(** * Workflows: invariants of runs

    What one iteration of the engine keeps of a run, and a lemma that lifts a
    property of single runs to everything the store ever holds. *)
From S2P Require Import Prelude Net Cluster AgentGate Cron Workflow WorkflowHost WorkflowRun.

(** ** One iteration *)
Section Engine.
Context {K : Type} `{!Host K} `{!Surroundings K} `{JsonText}.
Implicit Types (k : K) (x y : Exec).

(** What a run keeps from its beginning to its end. *)
Definition same_run x y : Prop :=
  x_wf y = x_wf x ∧ x_ai y = x_ai x ∧ run_id (x_run y) = run_id (x_run x) ∧ status (x_run y) = status (x_run x)
  ∧ started_at (x_run y) = started_at (x_run x) ∧ trigger (x_run y) = trigger (x_run x).
#[global] Instance same_run_refl : Reflexive same_run.
Proof. by repeat split. Qed.
#[global] Instance same_run_trans : Transitive same_run.
Proof. unfold same_run. intros x y z (-> & -> & -> & -> & -> & ->). done. Qed.

Lemma attempts_same n a t targets st x k : same_run x (attempts n a t targets st x k).1.
Proof.
  revert a x k. induction n as [|n IH]; intros a x k; [done|]. cbn [attempts].
  destruct (run_tasks _ _ _) as [rs k'].
  destruct (existsb is_failed rs.*1); cbn [negb]; [|by destruct (last_output rs)].
  destruct n as [|n]; [done|]. etrans; [|apply IH]. done.
Qed.
Lemma branch_same st e c o x k : same_run x (branch st e c o x k).1.
Proof. unfold branch. by repeat destruct (clock _) as [[? ?] ?]. Qed.
Lemma stamp_same x k : same_run x (stamp x k).1.
Proof. unfold stamp. by destruct (clock _) as [[? ?] ?]. Qed.

(** A step that was attempted: the run after its attempts, with the time spent
    brought up to date and the index on the next step. *)
Definition attempted st t targets x k : Exec := (attempts (Z.to_nat (wrap 32 (retry_count st + 1))) 0 t targets st x k).1.
Definition after_step st t targets x k1 k2 : Exec :=
  let y := (stamp (attempted st t targets x k1) k2).1 in y <| x_idx := S (x_idx y) |>.
Lemma attempts_idx n a t targets st x k : x_idx (attempts n a t targets st x k).1 = x_idx x.
Proof.
  revert a x k. induction n as [|n IH]; intros a x k; [done|]. cbn [attempts].
  destruct (run_tasks _ _ _) as [rs k']. destruct (existsb is_failed rs.*1); cbn [negb]; [|by destruct (last_output rs)].
  destruct n as [|n]; [done|]. by rewrite IH.
Qed.
Lemma stamp_fields x k : let y := (stamp x k).1 in
  x_idx y = x_idx x ∧ x_failed y = x_failed x ∧ x_aborted y = x_aborted x ∧ results (x_run y) = results (x_run x).
Proof. unfold stamp. by destruct (clock k) as [[? ?] ?]. Qed.
Lemma after_step_fields st t targets x k1 k2 :
  let y := after_step st t targets x k1 k2 in let z := attempted st t targets x k1 in
  same_run x y ∧ x_idx y = S (x_idx x) ∧ x_failed y = x_failed z ∧ x_aborted y = x_aborted z
  ∧ results (x_run y) = results (x_run z).
Proof.
  cbn zeta. pose proof (stamp_fields (attempted st t targets x k1) k2) as (Hi & Hf & Ha & Hr).
  assert (same_run x (stamp (attempted st t targets x k1) k2).1) as Hs.
  { transitivity (attempted st t targets x k1); [apply attempts_same|apply stamp_same]. }
  split; [exact Hs|]. split; [|done]. unfold after_step. cbn. rewrite Hi. f_equal. apply attempts_idx.
Qed.

(** The ways an iteration goes. *)
Inductive advanced x : Iter → Prop :=
| adv_end : steps (x_wf x) !! x_idx x = None ∨ x_aborted x = true → advanced x (Leave x)
| adv_late : 0 < max_runtime_secs (x_wf x) → advanced x (Leave (x <| x_aborted := true |>))
| adv_branch st e c o k1 k2 :
    steps (x_wf x) !! x_idx x = Some st → x_aborted x = false → action st = Condition e c o →
    advanced x (Next (stamp (branch st e c o x k1).1 k2).1 true)
| adv_untargeted st r :
    steps (x_wf x) !! x_idx x = Some st → x_aborted x = false → (∀ e c o, action st ≠ Condition e c o) →
    r_status r = Failed →
    advanced x (Next (push r x <| x_failed := true |> <| x_aborted := aborts (on_failure st) |> <| x_idx := S (x_idx x) |>) false)
| adv_step st t targets k1 k2 :
    steps (x_wf x) !! x_idx x = Some st → x_aborted x = false → (∀ e c o, action st ≠ Condition e c o) →
    advanced x (Next (after_step st t targets x k1 k2) true).

Lemma advance_view x k : advanced x (advance x k).1.
Proof.
  unfold advance. destruct (steps (x_wf x) !! x_idx x) as [st|] eqn:Hst; [|by apply adv_end; left].
  destruct (x_aborted x) eqn:Hab; [by apply adv_end; right|]. destruct (out_of_time x k) as [late k1] eqn:Ht.
  destruct late.
  { apply adv_late. unfold out_of_time in Ht. destruct (0 <? max_runtime_secs (x_wf x)) eqn:Hm; [lia|done]. }
  destruct (action st) as [| | | | | | | | | | | | | |e c o| | | | | | | |] eqn:Hact;
    lazymatch type of Hact with
    | _ = Condition _ _ _ => idtac
    | _ =>
        destruct (resolve_targets _ _) as [|t0 ts];
        [repeat destruct (clock _) as [[? ?] ?]; refine (adv_untargeted x st _ Hst Hab _ _); [by rewrite Hact|done]|];
        match goal with |- context [attempts _ 0 ?t ?tg st x ?k] =>
          pose proof (λ k2, adv_step x st t tg k k2 Hst Hab) as Hv; rewrite Hact in Hv;
          unfold after_step, attempted in Hv; destruct (attempts _ 0 t tg st x k) as [x1 k2] end;
        specialize (Hv k2 ltac:(done)); cbn [fst] in Hv; by destruct (stamp x1 k2)
    end.
  pose proof (adv_branch x st e c o k1) as Hv.
  destruct (branch st e c o x k1) as [x1 k2]. specialize (Hv k2 Hst Hab Hact).
  cbn [fst] in Hv. by destruct (stamp x1 k2).
Qed.

Lemma advance_same x k y p k' : advance x k = (Next y p, k') → same_run x y.
Proof.
  intros Ha. pose proof (advance_view x k) as Hv. rewrite Ha in Hv. cbn [fst] in Hv. clear Ha.
  inversion Hv as [| |st e c o k1 k2 _ _ _ Hy|st r _ _ _ _ Hy|st t tg k1 k2 _ _ _ Hy]; subst.
  - etrans; [apply branch_same|apply stamp_same].
  - done.
  - apply after_step_fields.
Qed.
End Engine.

(** ** Everything the store holds *)

Lemma overwrite_sat {A} (P : A → Prop) w a file :
  P a → from_option P True file → from_option P True (overwrite w a file).
Proof. by destruct w. Qed.

(** A property of lists of runs that survives what the store does to them. *)
Class Kept (P : list WorkflowRun → Prop) (Q : WorkflowRun → Prop) : Prop := {
  kept_nil : P [];
  kept_add rs r : P rs → Q r → P (drop (length (rs ++ [r]) - MAX_RUNS) (rs ++ [r]));
  kept_update rs p r : P rs → Q r → P (update_first p (λ _, r) rs)
}.
#[global] Instance kept_forall Q : Kept (Forall Q) Q.
Proof.
  split; [done| |].
  - intros rs r Hrs Hr. apply Forall_drop, Forall_app. by split; [|constructor].
  - intros rs p r Hrs Hr. by apply update_first_Forall; [|auto].
Qed.
Definition few (rs : list WorkflowRun) : Prop := (length rs ≤ MAX_RUNS)%nat.
#[global] Instance kept_few : Kept few (λ _, True).
Proof.
  split; unfold few.
  - cbn. lia.
  - intros rs r _ _. rewrite length_drop. lia.
  - intros rs p r Hrs _. by rewrite update_first_length.
Qed.

Section Store.
Context (P : list WorkflowRun → Prop) (Q : WorkflowRun → Prop) `{!Kept P Q}.
Definition in_store (s : FlowStore) : Prop := P (runs s) ∧ from_option P True (runs_file s).

Lemma add_run_sat w r s : in_store s → Q r → in_store (add_run w r s).
Proof. intros [H1 H2] Hr. split; [|apply overwrite_sat; [|done]]; by apply kept_add. Qed.
Lemma update_run_sat w id r s : in_store s → Q r → in_store (update_run w id r s).
Proof. intros [H1 H2] Hr. split; [|apply overwrite_sat; [|done]]; by apply (kept_update (Q := Q)). Qed.
Lemma update_workflow_sat w now id x s : in_store s → in_store (update_workflow w now id x s).2.
Proof. unfold update_workflow. by case_match. Qed.
Lemma delete_workflow_sat w id s : in_store s → in_store (delete_workflow w id s).2.
Proof. unfold delete_workflow. by case_match. Qed.
Lemma load_sat wf s : in_store s → in_store (load wf (runs_file s)).
Proof. intros [_ Hf]. split; [|done]. cbn. destruct (runs_file s); [done|]. by apply kept_nil. Qed.
End Store.

Section Node.
Context {K : Type} `{!Host K} `{!Surroundings K} `{JsonText} `{Calendar}.
Implicit Types (n : FlowNode K) (k : K).
Context (P : list WorkflowRun → Prop) (Q : WorkflowRun → Prop) `{!Kept P Q} (A : Exec → Prop).

(** The runs under way satisfy [A], and what they hand to the store [Q]. *)
Record Lifts : Prop := {
  lifts_begin rid trig wf ai k : A (begin_run rid trig wf ai k).1 ∧ Q (x_run (begin_run rid trig wf ai k).1);
  lifts_next x k y p k' : A x → advance x k = (Next y p, k') → A y ∧ Q (x_run y);
  lifts_leave x k y k' r k'' : A x → advance x k = (Leave y, k') → finish y k' = (Ok r, k'') → Q r
}.
Definition under_way (ph : Phase) : Prop := match ph with Active x => A x | Queued _ _ _ => True end.
Definition sound n : Prop := in_store P (store n) ∧ Forall under_way (tasks n).

Lemma go_sound (L : Lifts) i rid w w' n : sound n → sound (go i rid w w' n).
Proof.
  intros [Hs Ht]. unfold go. destruct (tasks n !! i) as [[wf trig ai|x]|] eqn:Hi; [| |done].
  - pose proof (lifts_begin L rid trig wf ai (world n)) as [H1 H2].
    destruct (begin_run rid trig wf ai (world n)) as [x k]. split; [by apply (add_run_sat P Q)|].
    by apply Forall_insert.
  - assert (A x) as Hx by by pose proof (Forall_lookup_1 _ _ _ _ Ht Hi).
    destruct (advance x (world n)) as [[y p|y] k] eqn:Ha.
    + destruct (lifts_next L _ _ _ _ _ Hx Ha) as [H1 H2].
      split; [|by apply Forall_insert]. destruct p; [by apply (update_run_sat P Q)|done].
    + pose proof (Forall_delete _ _ i Ht) as Hd.
      destruct (finish y k) as [[r| |] k1] eqn:Hf; [|by split..].
      pose proof (lifts_leave L _ _ _ _ _ _ Hx Ha Hf) as Hr. destruct (clock k1) as [[now t] k2].
      split; [|done]. by apply (update_run_sat P Q).
Qed.

Lemma flow_run_sound (L : Lifts) n es : sound n → sound (flow_run n es).
Proof.
  revert n. induction es as [|e es IH]; intros n Hn; [done|]. apply IH. clear IH.
  destruct e as [w fresh x|w id x|w id|trig id ai|w id sched en|now m ai|i rid w w'|]; cbn [flow_step].
  - destruct Hn as [Hs Ht]. unfold wolfflow_create. destruct (clock (world n)) as [[? ?] ?]. by split.
  - destruct Hn as [Hs Ht]. unfold wolfflow_update. destruct (clock (world n)) as [[? ?] ?].
    split; [|done]. by apply update_workflow_sat.
  - destruct Hn as [Hs Ht]. split; [|done]. by apply delete_workflow_sat.
  - destruct Hn as [Hs Ht]. unfold wolfflow_trigger. case_match; [|done]. split; [done|].
    apply Forall_app. by split; [|constructor].
  - destruct Hn as [Hs Ht]. unfold tool_schedule_workflow. case_match; [|done].
    unfold wolfflow_update. destruct (clock (world n)) as [[? ?] ?]. split; [|done]. by apply update_workflow_sat.
  - destruct Hn as [Hs Ht]. split; [done|]. apply Forall_app. split; [done|]. by apply Forall_fmap, Forall_true.
  - by apply go_sound.
  - destruct Hn as [Hs Ht]. split; [|done]. by apply (load_sat P Q).
Qed.

(** A node that has just read its two files. *)
Definition booted (wf : option (list Workflow)) (rf : option (list WorkflowRun)) (k : K) : FlowNode K :=
  mk_flow (load wf rf) [] k.
Lemma booted_sound wf rf k : from_option P True rf → sound (booted wf rf k).
Proof. intros Hf. split; [|done]. split; [|done]. cbn. destruct rf; [done|]. by apply (kept_nil (Q := Q)). Qed.
End Node.

(** ** A node to try things on

    Time passes by a second with each reading of the clock; the program [false]
    fails; the only other node answers that the same program failed there. *)

Module Toy.
Definition says_no : Json := JObj [("ok", JBool false); ("output", JStr "Command exited with code 1: no")].
#[export] Instance text : JsonText := λ v, match v with JBool true => "true" | _ => "null" end.
#[export] Instance host : Host Z := {|
  exists_path _ _ := false;
  spawn _ args _ k := (if bool_decide ("false" ∈ args) then Exited (Some 1) "" "no" else Exited (Some 0) "done" "", k);
  list_vms _ := []; docker_list_all _ := []; lxc_list_all _ := [];
  is_ipv4 _ := true; is_ipv6 _ := false; from_json _ := None;
  send _ k := (Err "offline", k); unifi_login _ _ _ k := (Err "offline", k); unifi_send _ _ _ k := (Err "offline", k);
  wolfnet_ip_of _ _ := None;
  peer_post _ _ k := (Answered 200 "" (Some says_no), k);
  image_watcher _ k := (Err "none", k); run_schedule_now_summary _ k := (Err "none", k);
  ai_config _ := mk_ai "" "" ""; simple_chat _ _ _ k := (Err "none", k); chat_with_agent _ _ _ k := (None, k);
  sql_execute _ _ _ _ k := (Err "none", k); send_email_generic _ _ _ _ _ k := (Ok (), k)
|}.
Definition node (id : string) (self : bool) : Cluster.Node := {|
  Cluster.n_id := id; Cluster.n_hostname := id; Cluster.n_address := "10.0.0.2"; Cluster.n_port := 8553;
  Cluster.n_migration_address := None; Cluster.n_last_seen := 0; Cluster.n_online := true; Cluster.n_is_self := self;
  Cluster.n_public_ip := None; Cluster.n_node_type := "wolfstack"; Cluster.n_pve_token := None; Cluster.n_pve_fingerprint := None;
  Cluster.n_pve_node_name := None; Cluster.n_pve_cluster_name := None; Cluster.n_cluster_name := None;
  Cluster.n_join_verified := true; Cluster.n_has_docker := false; Cluster.n_has_lxc := false; Cluster.n_has_kvm := false;
  Cluster.n_login_disabled := false; Cluster.n_tls := true; Cluster.n_update_script := None; Cluster.n_self_id := None;
  Cluster.n_pubkey := None; Cluster.n_manager := false; Cluster.n_workload_subnets := []; Cluster.n_site := None;
  Cluster.n_display_name := None; Cluster.n_roles := []; Cluster.n_poll_interval_secs := None |}.
#[export] Instance world : Surroundings Z := {|
  clock k := (("2026-07-02T10:05:00+00:00", k), k + SEC);
  sleep s k := k + s * SEC;
  nodes_of _ := [node "a" true; node "b" false];
  send_html_email _ _ _ _ k := (Ok (), k)
|}.
#[export] Instance calendar : Calendar :=
  {| cal_minute _ := 5; cal_hour _ := 10; cal_day _ := 2; cal_month _ := 7; cal_weekday _ := 4 |}.

Definition command (name c : string) : WorkflowStep := mk_step name (RunCommand c 10) Abort None None None 1 5.
Definition check (name e : string) (yes no : option nat) : WorkflowStep :=
  mk_step name (Condition e "true" "eq") Abort None yes no 0 0.
Definition workflow (ss : list WorkflowStep) (mail : option string) : Workflow :=
  mk_workflow "wf-1" "nightly" "" "" ss TLocal (Some "5 10 * * *") true "" "" None mail None 0.
Definition mailer : AiConfig := mk_ai "" "" "smtp.lan".
Definition flow (ss : list WorkflowStep) : FlowNode Z := booted (Some [workflow ss None]) None 0.
Definition go_first (m : nat) : list FlowStep := repeat (Go 0 "run-1" Stored Stored) m.
End Toy.
