(* ===== verification/WorkflowProps.v ===== *)
(** * Workflows: what runs promise

    The history stays bounded, a completed run has no failed result, a run
    without backward jumps ends; and where runs end wrongly or never. *)
From stdpp Require Import pretty.
From S2P Require Import Prelude Net Digits Cron CronProps AgentGate Workflow WorkflowHost WorkflowRun WorkflowInv.

Section Props.
Context {K : Type} `{!Host K} `{!Surroundings K} `{JsonText}.
Implicit Types (k : K) (x y : Exec).

(** ** Results *)
Definition passed (rs : list StepResult) : Prop := Forall (λ r, r_status r = Completed) rs.

Lemma run_tasks_results st ts k :
  Forall (λ r, r_step_name r = step_name st ∧ (r_status r = Completed ∨ r_status r = Failed)) (run_tasks st ts k).1.*1.
Proof.
  revert k. induction ts as [|t ts IH]; intros k; [constructor|]. cbn [run_tasks].
  destruct (run_task st t k) as [r k1] eqn:Hr. specialize (IH k1). destruct (run_tasks st ts k1) as [rs k2].
  constructor; [|exact IH]. unfold run_task in Hr. destruct (clock k) as [[? ?] ?]. destruct (perform _ _ _) as [o ?].
  destruct (clock _) as [[? ?] ?]. injection Hr as <- _. destruct o; cbn; auto.
Qed.
Lemma not_failed_passed st ts k :
  existsb is_failed (run_tasks st ts k).1.*1 = false → passed (run_tasks st ts k).1.*1.
Proof.
  intros He%existsb_Forall. pose proof (run_tasks_results st ts k) as Hr. revert He Hr.
  generalize ((run_tasks st ts k).1.*1) as rs. intros rs He Hr. unfold passed.
  rewrite Forall_forall in *. intros r Hin. destruct (Hr r Hin) as [_ [|Hf]]; [done|].
  specialize (He r Hin). unfold is_failed in He. by rewrite bool_decide_true in He.
Qed.

Lemma attempts_failed n a t targets st x k : x_failed x = true → x_failed (attempts n a t targets st x k).1 = true.
Proof.
  revert a x k. induction n as [|n IH]; intros a x k Hx; [done|]. cbn [attempts].
  destruct (run_tasks _ _ _) as [rs k1]. destruct (existsb is_failed rs.*1); cbn [negb]; [|by destruct (last_output rs)].
  destruct n as [|n]; [done|]. by apply IH.
Qed.

(** Before a retry the results of earlier attempts may have failed. *)
Lemma attempts_passed n a t targets st x k :
  0 ≤ a → x_failed x = false →
  Forall (λ r, r_status r = Completed ∨ 0 < a ∧ r_step_name r = step_name st) (results (x_run x)) →
  (n = O → a = 0) →
  let y := (attempts n a t targets st x k).1 in x_failed y = false → passed (results (x_run y)).
Proof.
  revert a x k. induction n as [|n IH]; intros a x k Ha Hf Hr Hn; cbn [attempts].
  { intros _. unfold passed. eapply Forall_impl; [exact Hr|]. intros r [|[Hlt _]]; [done|]. specialize (Hn eq_refl). lia. }
  generalize (if (0 <? a) && (0 <? retry_delay_secs st) then sleep (retry_delay_secs st) k else k) as k1. intros k1.
  pose proof (run_tasks_results st (tasks_for t targets (nodes_of k1)) k1) as Hts.
  pose proof (not_failed_passed st (tasks_for t targets (nodes_of k1)) k1) as Hok.
  destruct (run_tasks st _ k1) as [rs k2]. cbn [fst] in Hts, Hok.
  set (kept := if 0 <? a then retain (λ r, negb (bool_decide (r_step_name r = step_name st))) (results (x_run x))
               else results (x_run x)).
  assert (passed kept) as Hkept.
  { unfold kept, passed. destruct (0 <? a) eqn:Hpos.
    - rewrite Forall_forall. intros r [Hin Hne]%elem_of_retain. apply negb_true_iff, bool_decide_eq_false in Hne.
      rewrite Forall_forall in Hr. by destruct (Hr r Hin) as [|[_ ?]].
    - eapply Forall_impl; [exact Hr|]. intros r [|[? _]]; [done|lia]. }
  clearbody kept. destruct (existsb is_failed rs.*1); cbn [negb].
  - destruct n as [|n]; [done|]. apply IH; [lia|done| |done].
    change (results _) with (kept ++ rs.*1). apply Forall_app. split.
    + eapply Forall_impl; [exact Hkept|]. by left.
    + eapply Forall_impl; [exact Hts|]. intros r [Hnm _]. right. split; [lia|done].
  - intros _. assert (passed (kept ++ rs.*1)) by (apply Forall_app; split; [done|by apply Hok]).
    by destruct (last_output rs).
Qed.

Definition honest x : Prop := status (x_run x) = Running ∧ (x_failed x = false → passed (results (x_run x))).
Definition completed_passed (r : WorkflowRun) : Prop := status r = Completed → passed (results r).

Lemma branch_results st e c o x k :
  honest x → honest (branch st e c o x k).1.
Proof.
  intros [H1 H2]. unfold branch. repeat destruct (clock _) as [[? ?] ?]. split; [done|]. intros Hf.
  cbn. apply Forall_app. split; [by apply H2|by repeat constructor].
Qed.
Lemma stamp_honest x k : honest (stamp x k).1 ↔ honest x.
Proof. unfold stamp. by destruct (clock k) as [[? ?] ?]. Qed.

Lemma email_run_status ai to r k r' k' :
  email_run ai to r k = (Ok r', k') →
  status r' = status r ∧ results r' = results r ∧ run_id r' = run_id r ∧ started_at r' = started_at r ∧ finished_at r' = finished_at r.
Proof.
  unfold email_run. intros He. destruct to as [[|c addr]|]; [by injection He as <- _| |by injection He as <- _].
  destruct (bool_decide _); [by injection He as <- _|]. unfold then_run in He.
  destruct (email_rows (results r)); [|done..]. destruct (send_html_email _ _ _ _ _) as [[] ?]; [..|done]; by injection He as <- _.
Qed.
Lemma finish_spec x k r k' :
  finish x k = (Ok r, k') →
  status r = final_status x ∧ results r = results (x_run x) ∧ run_id r = run_id (x_run x)
  ∧ started_at r = started_at (x_run x) ∧ finished_at r ≠ None.
Proof.
  unfold finish. destruct (clock k) as [[now t] k1]. intros Hf%email_run_status. cbn in Hf.
  by destruct Hf as (-> & -> & -> & -> & ->).
Qed.

Lemma advance_leave x k y k' : advance x k = (Leave y, k') → y = x ∨ y = x <| x_aborted := true |>.
Proof.
  intros Ha. pose proof (advance_view x k) as Hv. rewrite Ha in Hv. cbn [fst] in Hv. clear Ha.
  inversion Hv; subst; auto.
Qed.

Lemma honest_lifts : Lifts completed_passed honest.
Proof.
  split.
  - intros rid trig wf ai k. unfold begin_run. destruct (clock k) as [[now t] k1]. split; [split; [done|constructor]|done].
  - intros x k y p k' Hx Ha. pose proof (advance_same _ _ _ _ _ Ha) as (_ & _ & _ & Hst & _).
    assert (honest y) as Hy.
    { pose proof (advance_view x k) as Hv. rewrite Ha in Hv. cbn [fst] in Hv. clear Ha Hst.
      inversion Hv as [| |st e c o k1 k2 _ _ _ Hy|st r _ _ _ _ Hy|st t tg k1 k2 _ _ _ Hy]; subst.
      - by apply stamp_honest, branch_results.
      - by destruct Hx.
      - destruct Hx as [H1 H2]. pose proof (after_step_fields st t tg x k1 k2) as (Hs & _ & Hf & _ & Hr).
        split; [by destruct Hs as (_ & _ & _ & -> & _)|]. rewrite Hf, Hr. intros Hz. unfold attempted in *.
        destruct (x_failed x) eqn:Hxf; [by rewrite attempts_failed in Hz|].
        apply (attempts_passed _ 0 t tg st x k1); [done|done| |done|done].
        eapply Forall_impl; [by apply H2|]. by left. }
    split; [done|]. intros Hc. destruct Hy as [Hr _]. by rewrite Hr in Hc.
  - intros x k y k' r k'' Hx Ha Hf Hc. apply finish_spec in Hf as (Hst & Hres & _). rewrite Hres.
    rewrite Hst in Hc. unfold final_status in Hc. destruct Hx as [_ Hp].
    destruct (advance_leave _ _ _ _ Ha) as [->| ->]; [|done]. destruct (x_aborted x), (x_failed x); try done. by apply Hp.
Qed.

(** ** What the store shows *)
Section Node.
Context `{Calendar}.
Implicit Types n : FlowNode K.

(** However runs, edits, restarts and the scheduler interleave, the history
    never holds more than five hundred runs, in memory or in its file. *)
Theorem history_bounded wf rf k es :
  from_option few True rf →
  let s := store (flow_run (booted wf rf k) es) in few (runs s) ∧ from_option few True (runs_file s).
Proof.
  intros Hf. apply (flow_run_sound few (λ _, True) (λ _, True)); [by split|].
  by apply (booted_sound few (λ _, True)).
Qed.

(** C17: A run that the store or its file ever shows as completed has only
    completed results: a failed attempt that was not retried with success, or a
    step without a node to run on, always shows in the status. *)
Theorem completed_means_passed wf rf k es :
  from_option (Forall completed_passed) True rf →
  let s := store (flow_run (booted wf rf k) es) in
  Forall completed_passed (runs s) ∧ from_option (Forall completed_passed) True (runs_file s).
Proof.
  intros Hf. apply (flow_run_sound (Forall completed_passed) completed_passed honest); [apply honest_lifts|].
  by apply (booted_sound (Forall completed_passed) completed_passed).
Qed.

(** ** Runs that end *)

(** Conditions jump forward only. *)
Definition forward (wf : Workflow) : Prop :=
  ∀ i st e c o, steps wf !! i = Some st → action st = Condition e c o →
  (∀ j, on_true_step st = Some j → (i < j)%nat) ∧ (∀ j, on_false_step st = Some j → (i < j)%nat).

Lemma branch_idx st e c o x k :
  x_idx (branch st e c o x k).1
  = default (S (x_idx x)) (if evaluate_condition e c o (x_ctx x) then on_true_step st else on_false_step st).
Proof. unfold branch. by repeat destruct (clock _) as [[? ?] ?]. Qed.
Lemma advance_forward x k y p k' :
  forward (x_wf x) → advance x k = (Next y p, k') → (x_idx x < length (steps (x_wf x)))%nat ∧ (x_idx x < x_idx y)%nat.
Proof.
  intros Hfw Ha. pose proof (advance_view x k) as Hv. rewrite Ha in Hv. cbn [fst] in Hv. clear Ha.
  inversion Hv as [| |st e c o k1 k2 Hst _ Hc Hy|st r Hst _ _ _ Hy|st t tg k1 k2 Hst _ _ Hy]; subst;
    (split; [by eapply lookup_lt_Some|]).
  - destruct (stamp_fields (branch st e c o x k1).1 k2) as (-> & _). rewrite branch_idx.
    destruct (Hfw _ _ _ _ _ Hst Hc) as [Ht Hf].
    destruct (evaluate_condition _ _ _ _); [destruct (on_true_step st); [by apply Ht|cbn; lia]|].
    destruct (on_false_step st); [by apply Hf|cbn; lia].
  - cbn. lia.
  - destruct (after_step_fields st t tg x k1 k2) as (_ & -> & _). lia.
Qed.

Definition get_run (id : string) (s : FlowStore) : option WorkflowRun := List.find (has_run_id id) (runs s).
Lemma get_run_update w id r s : run_id r = id → get_run id (update_run w id r s) = (λ _, r) <$> get_run id s.
Proof.
  intros Hid. unfold get_run, update_run, save_runs. cbn [runs]. change (runs (s <| runs_file := _ |>)) with (runs s).
  cbn. induction (runs s) as [|r' rs IH]; [done|]. cbn. unfold has_run_id in *.
  destruct (decide (run_id r' = id)) as [He|He].
  - rewrite (bool_decide_true (run_id r' = id)) by done. cbn. by rewrite bool_decide_true by done.
  - rewrite (bool_decide_false (run_id r' = id)) by done. cbn. by rewrite bool_decide_false by done.
Qed.
Lemma delete_insert {A} (l : list A) i a : delete i (<[i := a]> l) = delete i l.
Proof. by rewrite !delete_take_drop, take_insert_ge, drop_insert_lt by lia. Qed.

Lemma finish_silent x k : email_results (x_wf x) = None → ∃ r k', finish x k = (Ok r, k').
Proof. intros He. unfold finish. destruct (clock k) as [[now t] k1]. rewrite He. cbn. by do 2 eexists. Qed.

(** C18: A run of a workflow that mails no results and whose conditions jump
    forward only ends, whatever its steps do and whatever the rest of the node
    does to the world: after at most one iteration per remaining step and one
    more it is no task any longer, and its entry in the history, if it is there
    still, has a final status and an end.  (A run that mails its results may
    not get that far: see WorkflowFaults.v.) *)
Theorem forward_run_ends i rid w w' n x :
  tasks n !! i = Some (Active x) → forward (x_wf x) → email_results (x_wf x) = None →
  ∃ m r, (m ≤ S (length (steps (x_wf x)) - x_idx x))%nat
  ∧ let n' := flow_run n (repeat (Go i rid w w') m) in
    tasks n' = delete i (tasks n) ∧ status r ≠ Running ∧ finished_at r ≠ None
    ∧ get_run (run_id (x_run x)) (store n') = (λ _, r) <$> get_run (run_id (x_run x)) (store n).
Proof.
  remember (length (steps (x_wf x)) - x_idx x)%nat as d eqn:Hd. revert n x Hd.
  induction (lt_wf d) as [d _ IH]. intros n x -> Hi Hfw He.
  assert (∀ z, final_status z ≠ Running) as Hfin.
  { intros z. unfold final_status. by destruct (x_aborted z), (x_failed z). }
  destruct (advance x (world n)) as [[y p|y] k] eqn:Ha.
  - pose proof (advance_same _ _ _ _ _ Ha) as (Hwf & _ & Hid & _).
    destruct (advance_forward _ _ _ _ _ Hfw Ha) as [Hlt Hstep].
    set (n1 := go i rid w w' n). assert (tasks n1 !! i = Some (Active y)) as Hi1.
    { unfold n1, go. rewrite Hi, Ha. cbn. apply list_lookup_insert_eq. by eapply lookup_lt_Some. }
    destruct (IH (length (steps (x_wf y)) - x_idx y)%nat ltac:(rewrite Hwf; lia) n1 y eq_refl Hi1) as (m & r & Hm & Ht & H1 & H2 & Hg);
      [by rewrite Hwf..|].
    exists (S m), r. split; [rewrite Hwf in Hm; lia|]. cbn [repeat]. change (flow_run n (Go i rid w w' :: repeat (Go i rid w w') m))
      with (flow_run n1 (repeat (Go i rid w w') m)).
    split; [rewrite Ht; unfold n1, go; rewrite Hi, Ha; apply delete_insert|].
    split; [done|]. split; [done|]. rewrite <- Hid, Hg. unfold n1, go. rewrite Hi, Ha. cbn.
    destruct p; [|done]. rewrite get_run_update by done. by rewrite <- option_fmap_compose.
  - assert (x_wf y = x_wf x ∧ x_run y = x_run x) as [Hwf Hr] by by destruct (advance_leave _ _ _ _ Ha) as [->| ->].
    destruct (finish_silent y k) as (r & k' & Hf); [by rewrite Hwf|].
    pose proof (finish_spec _ _ _ _ Hf) as (Hst & _ & Hid & _ & Hend).
    exists 1%nat, r. split; [lia|]. cbn [repeat]. unfold flow_run. cbn [foldl flow_step]. unfold go. rewrite Hi, Ha, Hf.
    destruct (clock k') as [[now t] k2]. cbn [tasks store].
    split; [done|]. split; [by rewrite Hst|]. split; [done|].
    rewrite <- Hr, <- Hid. by apply get_run_update.
Qed.
End Node.
End Props.

(** ** Witnesses *)
Section Witnesses.
Import Toy.
Definition nightly : list WorkflowStep := [command "a" "true"; check "c" "{{a.none}}" (Some 3%nat) None; command "b" "false"].
Definition one_night : list FlowStep := Start "manual" "wf-1" mailer :: go_first 5.

Lemma history_bounded_witness :
  from_option few True None
  ∧ length (runs (store (flow_run (flow nightly) (concat (repeat one_night 2))))) = 2%nat
  ∧ few (runs (store (flow_run (flow nightly) (concat (repeat one_night 2))))).
Proof.
  split; [done|]. split; [by vm_compute|].
  exact (proj1 (history_bounded (Some [workflow nightly None]) None 0 (concat (repeat one_night 2)) I)).
Defined.

Lemma completed_means_passed_witness :
  from_option (Forall completed_passed) True None
  ∧ (status <$> runs (store (flow_run (flow (take 2 nightly)) one_night))) = [Completed]
  ∧ Forall completed_passed (runs (store (flow_run (flow (take 2 nightly)) one_night))).
Proof.
  split; [done|]. split; [by vm_compute|].
  exact (proj1 (completed_means_passed (Some [workflow (take 2 nightly) None]) None 0 one_night I)).
Defined.

Definition begun : FlowNode Z := flow_run (flow nightly) [Start "manual" "wf-1" mailer; Go 0 "run-1" Stored Stored].
Definition first_run : Exec := (begin_run "run-1" "manual" (workflow nightly None) mailer 0).1.
Lemma nightly_forward : forward (workflow nightly None).
Proof.
  intros i st e c o Hi Hc. destruct i as [|[|[|i]]]; try (injection Hi as <-; discriminate Hc); [|done].
  injection Hi as <-. split; intros j Hj; [injection Hj as <-; lia|discriminate Hj].
Defined.
Lemma forward_run_ends_witness :
  tasks begun !! 0%nat = Some (Active first_run) ∧ forward (x_wf first_run) ∧ email_results (x_wf first_run) = None
  ∧ ∃ m r, (m ≤ 4)%nat ∧ tasks (flow_run begun (go_first m)) = [] ∧ status r ≠ Running
    ∧ get_run "run-1" (store (flow_run begun (go_first m))) = Some r.
Proof.
  assert (tasks begun !! 0%nat = Some (Active first_run)) as Hi by by vm_compute.
  split; [exact Hi|]. split; [exact nightly_forward|]. split; [done|].
  destruct (forward_run_ends 0 "run-1" Stored Stored begun first_run Hi nightly_forward eq_refl)
    as (m & r & Hm & Ht & Hr & _ & Hg).
  exists m, r. split; [exact Hm|]. split; [exact Ht|]. split; [exact Hr|].
  etrans; [exact Hg|]. by vm_compute.
Defined.
End Witnesses.
