(* ===== verification/WorkflowFaults.v ===== *)
(** * Workflows: templates, and where runs go wrong

    What references to earlier steps become; actions on other nodes that fail
    and count as done; runs whose end is lost, that never end or start twice. *)
From stdpp Require Import pretty.
From S2P Require Import Prelude Net Digits Cron CronProps AgentGate Workflow WorkflowHost WorkflowRun WorkflowInv WorkflowProps.

(** ** Templates *)
Lemma cut_here needle b : cut needle (needle +:+ b) = Some ("", b).
Proof.
  assert (cut needle (needle +:+ b) = Some ("", str_drop (String.length needle) (needle +:+ b))) as ->.
  { pose proof (prefix_app needle b) as Hp. destruct (needle +:+ b); cbn [cut]; by rewrite Hp. }
  by rewrite str_drop_app.
Qed.
Lemma cut_skip x needle a b :
  contains_char x a = false → cut (String x needle) (a +:+ String x needle +:+ b) = Some (a, b).
Proof.
  induction a as [|c a IH]; intros Ha; [exact (cut_here (String x needle) b)|]. cbn [contains_char] in Ha. apply orb_false_iff in Ha as [Hc Ha].
  apply bool_decide_eq_false in Hc. change (String c a +:+ String x needle +:+ b) with (String c (a +:+ String x needle +:+ b)).
  cbn [cut String.prefix]. destruct (ascii_dec x c) as [->|_]; [done|]. by rewrite (IH Ha).
Qed.
Lemma cut_absent x needle a : contains_char x a = false → cut (String x needle) a = None.
Proof.
  induction a as [|c a IH]; [done|]. cbn [contains_char]. intros [Hc Ha]%orb_false_iff.
  apply bool_decide_eq_false in Hc. cbn [cut String.prefix]. destruct (ascii_dec x c) as [->|_]; [done|]. by rewrite (IH Ha).
Qed.

Section Templates.
Context `{JsonText}.
Implicit Types context : WorkflowContext.

(** A template as the author means it. *)
Inductive Piece := Lit (s : string) | Ref (step key : string).
Definition print_piece (p : Piece) : string :=
  match p with Lit s => s | Ref step key => "{{" +:+ (step +:+ "." +:+ key) +:+ "}}" end.
Definition print_pieces (ps : list Piece) : string := foldr (λ p t, print_piece p +:+ t) "" ps.
Definition output_of context (step key : string) : string :=
  default "" (value_text <$> (context !! step ≫= λ out, data out !! key)).
(** What it stands for, if [n] references are replaced. *)
Fixpoint expand (n : nat) context (ps : list Piece) : string :=
  match ps with
  | [] => ""
  | Lit s :: ps => s +:+ expand n context ps
  | Ref step key :: ps =>
      match n with
      | O => print_pieces (Ref step key :: ps)
      | S n => output_of context step key +:+ expand n context ps
      end
  end.

(** Names are written without braces, dots in the step and blanks at the ends;
    literals and the outputs referred to have no opening brace. *)
Definition piece_ok context (p : Piece) : Prop :=
  match p with
  | Lit s => contains_char "{" s = false
  | Ref step key =>
      contains_char "}" (step +:+ "." +:+ key) = false ∧ contains_char "." step = false
      ∧ trim (step +:+ "." +:+ key) = step +:+ "." +:+ key ∧ trim step = step ∧ trim key = key
      ∧ contains_char "{" (output_of context step key) = false
  end.

Lemma resolve_rounds_done n a context : contains_char "{" a = false → resolve_rounds n a context = a.
Proof. intros Ha. destruct n; [done|]. cbn [resolve_rounds]. by rewrite (cut_absent "{" "{"). Qed.
Lemma resolve_rounds_pieces n context ps a :
  Forall (piece_ok context) ps → contains_char "{" a = false →
  resolve_rounds n (a +:+ print_pieces ps) context = a +:+ expand n context ps.
Proof.
  intros Hps. revert n a. induction Hps as [|p ps Hp Hps IH]; intros n a Ha.
  { change (resolve_rounds n (a +:+ "") context = a +:+ ""). assert (a +:+ "" = a) as -> by (clear; induction a as [|c a IH]; [done|]; by apply (f_equal (String c))).
    by apply resolve_rounds_done. }
  destruct p as [s|step key].
  - change (print_pieces (Lit s :: ps)) with (s +:+ print_pieces ps). cbn [expand].
    rewrite <- !string_app_assoc. apply IH. by rewrite contains_char_app, Ha, Hp.
  - destruct Hp as (Hb & Hd & Ht & Hts & Htk & Ho). destruct n as [|n]; [done|]. cbn [resolve_rounds expand].
    replace (a +:+ print_pieces (Ref step key :: ps))
      with (a +:+ "{{" +:+ ((step +:+ "." +:+ key) +:+ "}}" +:+ print_pieces ps)).
    2:{ unfold print_pieces. cbn [foldr print_piece]. by rewrite !string_app_assoc. }
    rewrite (cut_skip "{" "{") by done. rewrite (cut_skip "}" "}") by done. rewrite Ht.
    assert (reference context (step +:+ "." +:+ key) = output_of context step key) as ->.
    { unfold reference. change (step +:+ "." +:+ key) with (step +:+ String "." key).
      rewrite split_once_app by done. by rewrite Hts, Htk. }
    rewrite <- !string_app_assoc. apply IH. by rewrite contains_char_app, Ha, Ho.
Qed.

(** C20: A template is text and references [{{step.key}}], where the text and
    the outputs referred to have no opening brace (no output is a JSON object,
    or brings in a reference of its own, which would be resolved too), and the
    names no closing brace, no blank at an end and, in a step, no dot.  Then
    its first sixty-four references become what the named steps put under the
    named keys, nothing where there is none; all other text stays as it is. *)
Theorem templates_resolved context ps :
  Forall (piece_ok context) ps → resolve_templates (print_pieces ps) context = expand 64 context ps.
Proof. intros Hps. exact (resolve_rounds_pieces 64 context ps "" Hps eq_refl). Qed.
End Templates.

(** The last part of a pattern is looked for too early. *)
Theorem glob_suffix_missed a : contains_char "*" a = false → a ≠ "" → glob_matches (a +:+ a) ("*" +:+ a) = false.
Proof.
  intros Ha Hn. unfold glob_matches. change ("*" +:+ a) with (String "*" a).
  cbn [contains_char]. rewrite bool_decide_true by done. cbn [orb].
  assert (split_on "*" (String "*" a) = [""; a]) as ->.
  { cbn [split_on]. rewrite bool_decide_true by done. by rewrite split_on_none. }
  cbn [glob_parts List.last]. rewrite (bool_decide_true ("" = "")), (bool_decide_false (a = "")) by done.
  rewrite cut_here. cbn [andb]. by rewrite bool_decide_false.
Qed.

Section Faults.
Context {K : Type} `{!Host K} `{!Surroundings K} `{JsonText}.
Implicit Types (k : K) (x y : Exec).

(** ** Other nodes *)

(** Whatever URL is asked, the node that answers is in the state [peer] and
    lets the request in. *)
Definition served_by (peer : K) (a : ActionType) : Prop :=
  ∀ u k, ∃ raw st j, (wolfflow_exec None a peer).1 = Some (st, j) ∧ (peer_post u (NodeExec a) k).1 = Answered st raw (Some j).

Lemma decode_served a peer u raw st j :
  (wolfflow_exec None a peer).1 = Some (st, j) →
  decode_exec u st raw (Some j) = Ok (plain_output (match (execute_action_local a peer).1 with Err e => e | _ => "OK" end)).
Proof.
  unfold wolfflow_exec, answer. cbn [fst]. intros Hj.
  destruct (execute_action_local a peer).1 as [o|e|]; [..|done]; injection Hj as <- <-; reflexivity.
Qed.

(** C39: Another node's failure counts as done.  When a node that runs the step
    answers that its action failed, the result is recorded as completed with
    the error for its output; when the action succeeded, its output and the
    data it hands to later steps are lost. *)
Theorem remote_outcome_lost st n peer k :
  t_self n = false → served_by peer (action st) →
  let '((r, out), _) := run_task st (OnNode n) k in
  let said := match (execute_action_local (action st) peer).1 with Err e => e | _ => "OK" end in
  r_status r = Completed ∧ r_output r = take_chars 5000 said ∧ out = Some (plain_output said).
Proof.
  intros Hself Hs. unfold run_task. destruct (clock k) as [[started t0] k1]. cbn [perform]. rewrite Hself.
  unfold execute_action_remote, build_node_urls. cbn [app ask].
  set (u := _ +:+ _). destruct (Hs u k1) as (raw & code & j & Hj & Hp).
  destruct (peer_post u _ k1) as [ans k2]. cbn [fst] in Hp. subst ans.
  rewrite (decode_served _ _ _ _ _ _ Hj). by destruct (clock k2) as [[? ?] ?].
Qed.

(** ** Retries *)

(** The number of attempts is counted in 32 bits. *)
Theorem retry_overflow_skips st t targets x k :
  retry_count st = 2 ^ 32 - 1 → attempted st t targets x k = x.
Proof. intros Hr. unfold attempted. by rewrite Hr. Qed.

(** ** The end of a run *)
Lemma shortened_total s : (∃ t, shortened s = Ok t) ∨ shortened s = Panic.
Proof. unfold shortened, slice_to. destruct (500 <? _); [|by left; eexists]. destruct (is_char_boundary 500 s); [left; by eexists|by right]. Qed.
Lemma email_rows_panic rs r :
  r ∈ rs → shortened (r_output r) = Panic → email_rows rs = Panic.
Proof.
  intros Hin Hp. induction rs as [|r' rs IH]; [by apply not_elem_of_nil in Hin|]. cbn [email_rows].
  apply elem_of_cons in Hin as [<-|Hin]; [by rewrite Hp|].
  destruct (shortened_total (r_output r')) as [[t ->]| ->]; [|done]. cbn [mbind res_bind]. by rewrite (IH Hin).
Qed.

(** C40: A run that e-mails its results and has one of more than five hundred
    bytes with a character across the five-hundredth never ends: its task
    dies, and what the store last held of it, a running run, stays. *)
Theorem long_output_loses_end `{Calendar} i rid w w' (n : FlowNode K) x c addr r :
  tasks n !! i = Some (Active x) → steps (x_wf x) !! x_idx x = None →
  email_results (x_wf x) = Some (String c addr) → smtp_host (x_ai x) ≠ "" →
  r ∈ results (x_run x) → 500 < Z.of_nat (String.length (r_output r)) → is_char_boundary 500 (r_output r) = false →
  tasks (go i rid w w' n) = delete i (tasks n) ∧ store (go i rid w w' n) = store n.
Proof.
  intros Hi Hend He Hsmtp Hin Hlong Hcut. unfold go. rewrite Hi. unfold advance. rewrite Hend.
  unfold finish. destruct (clock (world n)) as [[now t] k1]. rewrite He. unfold email_run.
  rewrite bool_decide_false by done.
  assert (shortened (r_output r) = Panic) as Hp.
  { unfold shortened, slice_to. by rewrite (proj2 (Z.ltb_lt _ _) Hlong), Hcut. }
  change (results (_ <| duration_ms := _ |>)) with (results (x_run x)). by rewrite (email_rows_panic _ _ Hin Hp).
Qed.

(** ** Loops *)

(** Steps that hand over to each other and never abort the run. *)
Definition circular (wf : Workflow) (I : nat → Prop) : Prop :=
  ∀ i, I i → ∃ st, steps wf !! i = Some st ∧
  match action st with
  | Condition _ _ _ => I (default (S i) (on_true_step st)) ∧ I (default (S i) (on_false_step st))
  | _ => aborts (on_failure st) = false ∧ I (S i)
  end.
Lemma attempts_aborted n a t targets st x k :
  aborts (on_failure st) = false → x_aborted (attempts n a t targets st x k).1 = x_aborted x.
Proof.
  intros Hf. revert a x k. induction n as [|n IH]; intros a x k; [done|]. cbn [attempts].
  destruct (run_tasks _ _ _) as [rs k1]. destruct (existsb is_failed rs.*1); cbn [negb]; [|by destruct (last_output rs)].
  destruct n as [|n]; [|by rewrite IH]. cbn. by rewrite Hf, orb_false_r.
Qed.
Lemma branch_aborted st e c o x k : x_aborted (branch st e c o x k).1 = x_aborted x.
Proof. unfold branch. by repeat destruct (clock _) as [[? ?] ?]. Qed.

Lemma circular_advance I x k :
  circular (x_wf x) I → I (x_idx x) → x_aborted x = false → max_runtime_secs (x_wf x) = 0 →
  ∃ y p k', advance x k = (Next y p, k') ∧ x_wf y = x_wf x ∧ I (x_idx y) ∧ x_aborted y = false.
Proof.
  intros Hc HI Hab Hmax. destruct (Hc _ HI) as (st & Hst & Hnext).
  pose proof (advance_view x k) as Hv. destruct (advance x k) as [[y p|y] k'] eqn:Ha; cbn [fst] in Hv.
  - exists y, p, k'. split; [done|]. split; [by destruct (advance_same _ _ _ _ _ Ha)|]. clear Ha.
    inversion Hv as [| |st' e c o k1 k2 Hst' _ Hact Hy|st' r Hst' _ Hact _ Hy|st' t tg k1 k2 Hst' _ Hact Hy]; subst;
      rewrite Hst in Hst'; injection Hst' as <-.
    + rewrite Hact in Hnext. destruct (stamp_fields (branch st e c o x k1).1 k2) as (-> & _ & -> & _).
      rewrite branch_idx, branch_aborted. split; [|done]. destruct Hnext. by case_match.
    + cbn. destruct (action st) eqn:He; try (by destruct Hnext). by edestruct Hact.
    + destruct (after_step_fields st t tg x k1 k2) as (_ & -> & _ & -> & _). unfold attempted.
      destruct (action st) eqn:He; try (destruct Hnext as [Hf HS]; by rewrite attempts_aborted).
      by edestruct Hact.
  - exfalso. inversion Hv as [[Hn|Ht]|Hm| | |]; [congruence|congruence|lia].
Qed.

(** A workflow whose conditions lead back to where they came from, and
    whose steps go on after failures, runs for ever if it has no time limit:
    nothing bounds the number of iterations. *)
Theorem circular_run_never_ends `{Calendar} I i rid w w' (n : FlowNode K) x m :
  tasks n !! i = Some (Active x) → circular (x_wf x) I → I (x_idx x) → x_aborted x = false →
  max_runtime_secs (x_wf x) = 0 →
  ∃ y, tasks (flow_run n (repeat (Go i rid w w') m)) !! i = Some (Active y).
Proof.
  revert n x. induction m as [|m IH]; intros n x Hi Hc HI Hab Hmax; [by exists x|].
  destruct (circular_advance I x (world n) Hc HI Hab Hmax) as (y & p & k' & Ha & Hwf & HIy & Haby).
  change (flow_run n (repeat (Go i rid w w') (S m))) with (flow_run (go i rid w w' n) (repeat (Go i rid w w') m)).
  apply (IH _ y); [|by rewrite Hwf|done|done|by rewrite Hwf].
  unfold go. rewrite Hi, Ha. apply list_lookup_insert_eq. by eapply lookup_lt_Some.
Qed.

(** ** Starting twice *)
Lemma get_app n a b c : String.get n a = Some c → String.get n (a +:+ b) = Some c.
Proof.
  revert n. induction a as [|d a IH]; intros n Hg; [by destruct n|].
  change (String d a +:+ b) with (String d (a +:+ b)). destruct n as [|n]; [done|]. by apply IH.
Qed.

(** A date and time as [to_rfc3339] prints them: after ten characters, a T. *)
Definition dated (r : WorkflowRun) : Prop := String.get 10 (started_at r) = Some "T"%char.
Lemma dated_lifts : (∀ k, String.get 10 (clock k).1.1 = Some "T"%char) → Lifts dated (λ x, dated (x_run x)).
Proof.
  intros Hclock. split.
  - intros rid trig wf ai k. unfold begin_run. specialize (Hclock k). by destruct (clock k) as [[now t] k1].
  - intros x k y p k' Hx Ha. destruct (advance_same _ _ _ _ _ Ha) as (_ & _ & _ & _ & Hs & _).
    unfold dated in *. by rewrite Hs.
  - intros x k y k' r k'' Hx Ha Hf. apply finish_spec in Hf as (_ & _ & _ & Hs & _). unfold dated. rewrite Hs.
    by destruct (advance_leave _ _ _ _ Ha) as [->| ->].
Qed.

(** What has run does not matter to the scheduler.  The guard against a
    second run in one minute compares a minute written with a space to starts
    written with a T, so a pass that falls into a minute for the second time
    starts every workflow of that minute again. *)
Theorem duplicate_guard_never_holds `{Calendar} wf rf k es now now_minute :
  (∀ k, String.get 10 (clock k).1.1 = Some "T"%char) → String.get 10 now_minute = Some " "%char →
  from_option (Forall dated) True rf →
  let s := store (flow_run (booted wf rf k) es) in
  get_due_workflows now now_minute s
  = retain (λ f, match schedule f with Some expr => wf_enabled f && cron_matches expr now | None => false end) (workflows s).
Proof.
  intros Hclock Hmin Hf. cbn zeta.
  assert (sound (Forall dated) (λ x, dated (x_run x)) (flow_run (booted wf rf k) es)) as [[Hruns _] _].
  { apply (flow_run_sound _ dated); [by apply dated_lifts|]. by apply (booted_sound (Forall dated) dated). }
  apply retain_ext. intros f _. destruct (schedule f) as [expr|]; [|done].
  assert (already_ran now_minute f (runs (store (flow_run (booted wf rf k) es))) = false) as ->; [|by rewrite andb_true_r].
  apply existsb_Forall. eapply Forall_impl; [exact Hruns|]. intros r Hr. unfold dated in Hr.
  apply andb_false_iff. right. apply not_true_iff_false. intros (rest & Hp)%prefix_spec.
  rewrite Hp, (get_app _ _ _ _ Hmin) in Hr. done.
Qed.
End Faults.

(** ** Witnesses *)
Section Witnesses.
Import Toy.

Definition disk_context : WorkflowContext := {["df" := mk_output "" {["gb" := JStr "12"]}]}.
Definition disk_pieces : list Piece := [Lit "Disk: "; Ref "df" "gb"; Lit " GB, "; Ref "df" "nope"; Lit "."].
Lemma templates_resolved_witness :
  Forall (piece_ok disk_context) disk_pieces
  ∧ resolve_templates (print_pieces disk_pieces) disk_context = "Disk: 12 GB, .".
Proof.
  assert (Forall (piece_ok disk_context) disk_pieces) as Hok by (repeat constructor).
  split; [exact Hok|]. etrans; [exact (templates_resolved disk_context disk_pieces Hok)|]. by vm_compute.
Defined.

Definition remote_step : WorkflowStep := command "stop" "false".
Definition node_b : TargetNode := mk_target_node "b" "b" "10.0.0.2" 8553 false.
Lemma remote_outcome_lost_witness :
  served_by 0 (action remote_step)
  ∧ let '((r, _), _) := run_task remote_step (OnNode node_b) 0 in
    r_status r = Completed ∧ r_output r = "Command exited with code 1: no".
Proof.
  assert (served_by 0 (action remote_step)) as Hs.
  { intros u k. exists "", 200, says_no. split; [by vm_compute|done]. }
  split; [exact Hs|]. pose proof (remote_outcome_lost remote_step node_b 0 0 eq_refl Hs) as Hr.
  destruct (run_task remote_step (OnNode node_b) 0) as [[r out] k]. destruct Hr as (H1 & H2 & _).
  split; [exact H1|]. rewrite H2. by vm_compute.
Defined.

(** 499 letters and a dash of three bytes. *)
Definition long_text : string := Nat.iter 499 (String "x") "—".
Definition long_result : StepResult := mk_result "a" "a" "a" Completed long_text "" "" 0.
Definition mailed : Exec :=
  mk_exec (workflow [] (Some "ops@lan")) mailer
    (mk_run "run-1" "wf-1" "nightly" Running "manual" [long_result] "" None 0 None) 0 ∅ false false 0.
Definition mailing : FlowNode Z := mk_flow (load None (Some [x_run mailed])) [Active mailed] 0.
Lemma long_output_loses_end_witness :
  500 < Z.of_nat (String.length long_text) ∧ is_char_boundary 500 long_text = false
  ∧ tasks (go 0 "" Stored Stored mailing) = []
  ∧ status <$> runs (store (go 0 "" Stored Stored mailing)) = [Running].
Proof.
  split; [by vm_compute|]. split; [by vm_compute|].
  destruct (long_output_loses_end 0 "" Stored Stored mailing mailed "o" "ps@lan" long_result) as [H1 H2];
    [done..|by left|by vm_compute|by vm_compute|].
  split; [exact H1|]. by rewrite H2.
Defined.

(** Waiting for a value that no step sets. *)
Definition forever : list WorkflowStep :=
  [mk_step "probe" (RunCommand "true" 10) Continue None None None 0 0; check "up" "{{probe.up}}" (Some 0%nat) (Some 0%nat)].
Definition spinning : Exec := (begin_run "run-1" "manual" (workflow forever None) mailer 0).1.
Definition spinning_node : FlowNode Z := mk_flow (load None None) [Active spinning] 0.
Lemma forever_circular : circular (x_wf spinning) (λ i, (i < 2)%nat).
Proof.
  intros i Hi. destruct i as [|[|i]]; [| |lia].
  - exists (mk_step "probe" (RunCommand "true" 10) Continue None None None 0 0). split; [done|]. split; [done|lia].
  - exists (check "up" "{{probe.up}}" (Some 0%nat) (Some 0%nat)). split; [done|]. cbn. lia.
Defined.
Lemma circular_run_never_ends_witness :
  circular (x_wf spinning) (λ i, (i < 2)%nat)
  ∧ ∃ y, tasks (flow_run spinning_node (go_first 1000)) !! 0%nat = Some (Active y).
Proof.
  split; [exact forever_circular|].
  apply (circular_run_never_ends (λ i, (i < 2)%nat) 0 "run-1" Stored Stored spinning_node spinning);
    [done|exact forever_circular|cbn; lia|done|done].
Defined.

Definition pass : FlowStep := Tick 0 "2026-07-02 10:05" mailer.
Lemma duplicate_guard_never_holds_witness :
  (∀ k : Z, String.get 10 (clock k).1.1 = Some "T"%char)
  ∧ get_due_workflows 0 "2026-07-02 10:05" (store (flow_run (flow nightly) (pass :: go_first 5))) = [workflow nightly None <| wf_last_run := Some "2026-07-02T10:05:00+00:00" |>].
Proof.
  assert (∀ k : Z, String.get 10 (clock k).1.1 = Some "T"%char) as Hc by done.
  split; [exact Hc|].
  etrans; [exact (duplicate_guard_never_holds (Some [workflow nightly None]) None 0 (pass :: go_first 5) 0
                    "2026-07-02 10:05" Hc eq_refl I)|]. by vm_compute.
Defined.
End Witnesses.
