(* ===== verification/ImageWatch.v ===== *)
(** * Image watcher: settings, references and the slots of a sweep

    containers/image_watcher.rs: policies per container, the settings a cluster
    shares and their revisions, when a node checks and when it may apply, image
    references, how long an updated container may take, and the registry of
    running updates behind its lock. *)
From stdpp Require Import pretty.
From S2P Require Import Prelude Net AgentGate Cron.

(** ** Data *)
Inductive UpdatePolicy := NotifyOnly | AutoUpdate | Ignore | Pinned.
#[global] Instance update_policy_eq : EqDecision UpdatePolicy.
Proof. solve_decision. Defined.
Record ContainerUpdatePolicy := mk_policy {
  policy : UpdatePolicy; pinned_to : option string; backup_before_update : bool; health_check : bool;
  health_check_timeout_secs : Z; auto_rollback : bool; own_interval : option Z; own_exclude_binds : option bool
}.
Inductive ImageUpdateStatus :=
| UpdateAvailable | BackingUp | Pulling | Recreating | HealthChecking | Completed | RolledBack | Failed.
#[global] Instance image_status_eq : EqDecision ImageUpdateStatus.
Proof. solve_decision. Defined.
Record ImageUpdateEvent := mk_event {
  ev_id : string; ev_container : string; ev_image : string; old_digest : string; new_digest : string;
  backup_id : option string; ev_status : ImageUpdateStatus; ev_timestamp : string; ev_error : option string
}.
Record ImageCheckResult := mk_check {
  ck_container : string; ck_image : string; ck_local : string; ck_remote : option string;
  update_available : bool; last_checked : string; ck_error : option string
}.
Record ImageWatcherConfig := mk_watch {
  enabled : bool; check_interval_secs : Z; default_policy : UpdatePolicy;
  container_policies : gmap string ContainerUpdatePolicy; update_history : list ImageUpdateEvent;
  schedule_cron : option string; schedule_window_minutes : Z; max_parallel_updates : Z;
  exclude_bind_mounts_from_backup : bool; cluster_rev : Z
}.
#[global] Instance eta_event : Eta ImageUpdateEvent := λ x, mk_event
  (ev_id x) (ev_container x) (ev_image x) (old_digest x) (new_digest x) (backup_id x) (ev_status x) (ev_timestamp x) (ev_error x).
#[global] Instance set_ev_image : Setter ev_image := ltac:(derive_setter ev_image).
#[global] Instance set_old_digest : Setter old_digest := ltac:(derive_setter old_digest).
#[global] Instance set_new_digest : Setter new_digest := ltac:(derive_setter new_digest).
#[global] Instance set_backup_id : Setter backup_id := ltac:(derive_setter backup_id).
#[global] Instance set_ev_status : Setter ev_status := ltac:(derive_setter ev_status).
#[global] Instance set_ev_error : Setter ev_error := ltac:(derive_setter ev_error).
#[global] Instance eta_check : Eta ImageCheckResult := λ x, mk_check
  (ck_container x) (ck_image x) (ck_local x) (ck_remote x) (update_available x) (last_checked x) (ck_error x).
#[global] Instance set_update_available : Setter update_available := ltac:(derive_setter update_available).
#[global] Instance set_last_checked : Setter last_checked := ltac:(derive_setter last_checked).
#[global] Instance eta_watch : Eta ImageWatcherConfig := λ x, mk_watch
  (enabled x) (check_interval_secs x) (default_policy x) (container_policies x) (update_history x) (schedule_cron x)
  (schedule_window_minutes x) (max_parallel_updates x) (exclude_bind_mounts_from_backup x) (cluster_rev x).
#[global] Instance set_policies : Setter container_policies := ltac:(derive_setter container_policies).
#[global] Instance set_history : Setter update_history := ltac:(derive_setter update_history).
#[global] Instance set_rev : Setter cluster_rev := ltac:(derive_setter cluster_rev).

Definition MIN_CHECK_INTERVAL_SECS : Z := 6 * 60 * 60.
Definition default_container_policy (p : UpdatePolicy) : ContainerUpdatePolicy := mk_policy p None true true 60 true None None.
(** [Default]: what a missing or unreadable file loads as. *)
Definition default_config : ImageWatcherConfig :=
  mk_watch false MIN_CHECK_INTERVAL_SECS NotifyOnly ∅ [] None 60 1 false 0.

Definition is_passive (p : ContainerUpdatePolicy) : bool := match policy p with Ignore | Pinned => true | _ => false end.
Definition is_auto_apply (p : ContainerUpdatePolicy) : bool := match policy p with AutoUpdate => true | _ => false end.

(** ** Settings *)
Section Config.
Implicit Types (c : ImageWatcherConfig) (name : string).

Definition policy_for c name : ContainerUpdatePolicy :=
  default (default_container_policy (default_policy c)) (container_policies c !! name).
Definition set_interval (p : ContainerUpdatePolicy) : option Z :=
  match own_interval p with Some s => if 0 <? s then Some s else None | None => None end.
Definition effective_interval_secs c name : Z :=
  Z.max MIN_CHECK_INTERVAL_SECS
    (default (check_interval_secs c) (container_policies c !! name ≫= set_interval)).
Definition min_effective_interval_secs c : Z :=
  foldr (λ p m, if is_passive p then m else
                match set_interval p with Some s => Z.min m (Z.max s MIN_CHECK_INTERVAL_SECS) | None => m end)
    (Z.max (check_interval_secs c) MIN_CHECK_INTERVAL_SECS) (map_to_list (container_policies c)).*2.
Definition exclude_binds_for c name : bool :=
  default (exclude_bind_mounts_from_backup c) (container_policies c !! name ≫= own_exclude_binds).

Definition merge_cluster_settings_from c (other : ImageWatcherConfig) : ImageWatcherConfig :=
  mk_watch (enabled other) (check_interval_secs other) (default_policy other) (container_policies c) (update_history c)
    (schedule_cron other) (schedule_window_minutes other) (max_parallel_updates other)
    (exclude_bind_mounts_from_backup other) (Z.max (cluster_rev c) (cluster_rev other)).
Definition cluster_settings_eq c (other : ImageWatcherConfig) : bool :=
  eqb (enabled c) (enabled other) && (check_interval_secs c =? check_interval_secs other)
  && bool_decide (default_policy c = default_policy other) && bool_decide (schedule_cron c = schedule_cron other)
  && (schedule_window_minutes c =? schedule_window_minutes other)
  && (max_parallel_updates c =? max_parallel_updates other)
  && eqb (exclude_bind_mounts_from_backup c) (exclude_bind_mounts_from_backup other).
Definition resolve_on_save (existing incoming : ImageWatcherConfig) (is_propagation : bool) : ImageWatcherConfig :=
  if is_propagation then merge_cluster_settings_from existing incoming
  else incoming <| update_history := update_history existing |>.

(** The minutes [now], [now - 1], ... of the window, of which [n] are left. *)
Fixpoint any_minute `{Calendar} (cron : string) (now : Z) (n : nat) (offset : Z) : bool :=
  match n with
  | O => false
  | S n => cron_matches cron (now - offset * 60 * SEC) || any_minute cron now n (offset + 1)
  end.
Definition auto_apply_window_open `{Calendar} c (now : Z) : bool :=
  match schedule_cron c with
  | None => true
  | Some cron =>
      let cron := trim cron in
      if bool_decide (cron = "") then true
      else any_minute cron now (Z.to_nat (Z.max 1 (schedule_window_minutes c))) 0
  end.
End Config.

(** ** Slots *)
Definition STAGGER_SLOTS : Z := 24.
(** The FNV-1a hash of the host name. *)
Fixpoint fnv (h : Z) (s : string) : Z :=
  match s with
  | EmptyString => h
  | String c s => fnv (wrap 64 (Z.lxor h (Z.of_nat (nat_of_ascii c)) * 0x100000001b3)) s
  end.
(** [octet] is that of the WolfNet address, [hostname] the file's content. *)
Definition stagger_slot (octet : option Z) (hostname : string) : Z :=
  match octet with
  | Some o => o mod STAGGER_SLOTS
  | None => let host := trim hostname in
            if bool_decide (host = "") then 0 else fnv 0xcbf29ce484222325 host mod STAGGER_SLOTS
  end.
Definition stagger_offset_within (period slot : Z) : Z :=
  let width := period / STAGGER_SLOTS in
  if width =? 0 then wrap 64 (slot * period) / STAGGER_SLOTS else wrap 64 (slot * width).
Definition secs_until_next_slot_for (period now offset : Z) : Z :=
  let period := Z.max 1 period in
  let elapsed := wrap 64 (now - offset) in
  let next := wrap 64 (wrap 64 (wrap 64 (elapsed / period + 1) * period) + offset) in
  Z.max 1 (sat_sub next now).
Definition secs_until_next_slot (octet : option Z) (hostname : string) (period now : Z) : Z :=
  let period := Z.max 1 period in
  secs_until_next_slot_for period now (stagger_offset_within period (stagger_slot octet hostname)).

(** ** Image references *)
Record ImageRef := mk_ref { registry : string; repo : string; tag : string }.
Definition HUB : string := "registry-1.docker.io".
Definition without_digest (image : string) : string :=
  match split_once "@" image with Some (before, _) => before | None => image end.
Definition name_and_tag (image : string) : string * string :=
  match rsplit_once ":" image with
  | Some (n, t) => if contains_char "/" t then (image, "latest") else (n, t)
  | None => (image, "latest")
  end.
Definition parse_ref (image : string) : ImageRef :=
  let '(name, tag) := name_and_tag (without_digest image) in
  match split_once "/" name with
  | None => mk_ref HUB ("library/" +:+ name) tag
  | Some (first, rest) =>
      if bool_decide (first ∈ ["docker.io"; "index.docker.io"])
      then mk_ref HUB (if contains_char "/" rest then rest else "library/" +:+ rest) tag
      else if contains_char "." first || contains_char ":" first || bool_decide (first = "localhost")
      then mk_ref first rest tag
      else mk_ref HUB name tag
  end.
Definition same_repository (a b : ImageRef) : bool :=
  bool_decide (registry a = registry b) && bool_decide (repo a = repo b).
Definition select_repo_digest (image : string) (digests : list string) : option string :=
  match List.find (λ e, same_repository (parse_ref e) (parse_ref image)) digests with
  | Some e => Some e
  | None => head digests
  end.

(** ** Health *)
Definition HEALTH_WAIT_CAP_SECS : Z := 1800.
Definition NO_HEALTHCHECK_STABLE_SECS : Z := 10.
Definition as_array (v : Json) : option (list Json) := match v with JArr l => Some l | _ => None end.
Definition as_u64 (v : Json) : option Z := match v with JNum n => if (0 <=? n) && (n <=? u64_max) then Some n else None | _ => None end.
Definition as_i64 (v : Json) : option Z :=
  match v with JNum n => if (- 2 ^ 63 <=? n) && (n <? 2 ^ 63) then Some n else None | _ => None end.
(** Nanoseconds as seconds, rounded up; Docker's default for zero or nothing. *)
Definition health_secs (h : Json) (key : string) (d : Z) : Z :=
  match get key h ≫= as_u64 with
  | Some ns => if ns =? 0 then d else (ns + 999999999) / 1000000000
  | None => d
  end.
Definition healthcheck_verdict_window_secs (h : Json) : option Z :=
  test ← get "Test" h ≫= as_array;
  kind ← head test ≫= as_string;
  if bool_decide (kind = "NONE") then None else
  let interval := health_secs h "Interval" 30 in
  let timeout := health_secs h "Timeout" 30 in
  let retries := match get "Retries" h ≫= as_i64 with Some r => if 0 <? r then r else 3 | None => 3 end in
  Some (sat_add (sat_add interval (health_secs h "StartPeriod" 0)) (sat_mul retries (sat_add interval timeout))).
Definition effective_health_timeout_secs (configured : Z) (h : option Json) : Z :=
  let configured := Z.max 5 configured in
  match h ≫= healthcheck_verdict_window_secs with
  | Some window => Z.max configured (Z.min window HEALTH_WAIT_CAP_SECS)
  | None => configured
  end.
Definition health_poll_passes (state_status health : string) (running_for : Z) : bool :=
  if bool_decide (health = "none")
  then bool_decide (state_status = "running") && (NO_HEALTHCHECK_STABLE_SECS <=? running_for)
  else bool_decide (health = "healthy").

(** ** Running updates *)
Definition FINISHED_EVENTS_KEPT : nat := 64.
Record UpdateRegistry := mk_registry { in_flight : gmap string ImageUpdateEvent; finished : list ImageUpdateEvent }.
Record UpdateGuard := mk_guard { g_container : string; g_event_id : string }.
Section Registry.
Implicit Types (r : UpdateRegistry) (g : UpdateGuard).

Definition push_finished (e : ImageUpdateEvent) r : UpdateRegistry :=
  let l := finished r ++ [e] in mk_registry (in_flight r) (drop (length l - FINISHED_EVENTS_KEPT) l).
Definition blank_event (id name ts : string) (st : ImageUpdateStatus) (why : option string) : ImageUpdateEvent :=
  mk_event id name "" "" "" None st ts why.
(** A running update of the container, or the claim to its slot. *)
Definition try_begin_update (id ts name : string) r : res ImageUpdateEvent UpdateGuard * UpdateRegistry :=
  match in_flight r !! name with
  | Some running => (Err running, r)
  | None => (Ok (mk_guard name id), mk_registry (<[name := blank_event id name ts UpdateAvailable None]> (in_flight r)) (finished r))
  end.
Definition publish g (e : ImageUpdateEvent) r : UpdateRegistry :=
  mk_registry (alter (λ _, e) (g_container g) (in_flight r)) (finished r).
Definition finish g (e : ImageUpdateEvent) r : UpdateRegistry :=
  push_finished e (mk_registry (delete (g_container g) (in_flight r)) (finished r)).
(** [{:?}] of a stage. *)
Definition debug_stage (st : ImageUpdateStatus) : string :=
  match st with
  | UpdateAvailable => "UpdateAvailable" | BackingUp => "BackingUp" | Pulling => "Pulling" | Recreating => "Recreating"
  | HealthChecking => "HealthChecking" | Completed => "Completed" | RolledBack => "RolledBack" | Failed => "Failed"
  end.
(** [Drop] of a claim whose worker panicked. *)
Definition abandon g (ts : string) r : UpdateRegistry :=
  let e := default (blank_event (g_event_id g) (g_container g) ts Failed None) (in_flight r !! g_container g) in
  let why := "update worker stopped unexpectedly during " +:+ debug_stage (ev_status e) +:+ " — check the container's state" in
  push_finished (e <| ev_status := Failed |> <| ev_error := Some why |>)
    (mk_registry (delete (g_container g) (in_flight r)) (finished r)).
Definition has_event (id : string) (e : ImageUpdateEvent) : bool := bool_decide (ev_id e = id).
Definition update_status (id : string) (history : list ImageUpdateEvent) r : option (ImageUpdateEvent * bool) :=
  match List.find (has_event id) (map_to_list (in_flight r)).*2 with
  | Some e => Some (e, true)
  | None => match List.find (has_event id) (reverse (finished r)) with
            | Some e => Some (e, false)
            | None => (λ e, (e, false)) <$> List.find (has_event id) (reverse history)
            end
  end.
End Registry.

(** ** The history file *)
Definition HISTORY_CAP : nat := 200.
Definition append_history (events : list ImageUpdateEvent) (c : ImageWatcherConfig) : ImageWatcherConfig :=
  let l := update_history c ++ events in c <| update_history := drop (length l - HISTORY_CAP) l |>.

Definition is_migrated_snapshot_image (image : string) : bool :=
  String.prefix "wolfstack-migrate/" image || String.prefix "wolfrun-migrate:" image.

(** The code's own tests. *)
Example references :
  parse_ref <$> ["nginx"; "nginx:1.25"; "user/repo:v2"; "ghcr.io/org/app:v1"; "localhost:5000/img"; "reg.lan/a/b";
                 "redis:6.2-alpine@sha256:905c"; "docker.io/redis:6"; "index.docker.io/u/r"]
  = [mk_ref HUB "library/nginx" "latest"; mk_ref HUB "library/nginx" "1.25"; mk_ref HUB "user/repo" "v2";
     mk_ref "ghcr.io" "org/app" "v1"; mk_ref "localhost:5000" "img" "latest"; mk_ref "reg.lan" "a/b" "latest";
     mk_ref HUB "library/redis" "6.2-alpine"; mk_ref HUB "library/redis" "6"; mk_ref HUB "u/r" "latest"].
Proof. vm_compute. reflexivity. Qed.
Example slots :
  (secs_until_next_slot_for 86400 777600 36000, secs_until_next_slot_for 86400 813600 36000, stagger_offset_within 21600 5,
   stagger_offset_within 10 12) = (36000, 86400, 4500, 5).
Proof. vm_compute. reflexivity. Qed.
Definition declared : Json :=
  JObj [("Test", JArr [JStr "CMD-SHELL"; JStr "x"]); ("Interval", JNum 7000000000); ("Timeout", JNum 3000000000);
        ("StartPeriod", JNum 45000000000); ("Retries", JNum 4)].
Example windows :
  (healthcheck_verdict_window_secs declared, healthcheck_verdict_window_secs (JObj [("Test", JArr [JStr "NONE"])]),
   effective_health_timeout_secs 60 (Some declared), effective_health_timeout_secs 0 None,
   effective_health_timeout_secs 60 (Some (JObj [("Test", JArr [JStr "CMD"]); ("Retries", JNum 1000000000000000000)])))
  = (Some 92, None, 92, 5, 1800).
Proof. vm_compute. reflexivity. Qed.
