(* ===== verification/ImageUpdate.v ===== *)
(** * Image watcher: checks, the rebuilding of a container, one update

    containers/image_watcher.rs, and docker_recreate_from_inspect with the
    docker commands it uses (containers/mod.rs). *)
From stdpp Require Import pretty.
From S2P Require Import Prelude F64 Net AgentGate Cron ImageWatch.

(** ** The surroundings *)

(** A program that ran: its exit code (none after a signal) and what it printed. *)
Record Output := mk_out { code : option Z; stdout : string; stderr : string }.
Definition success (o : Output) : bool := bool_decide (code o = Some 0).
Inductive HttpRequest := HGet (url : string) | HHead (url bearer : string).
Record Response := mk_response { rs_status : Z; rs_header : string → option string; rs_body : string }.

(** [K] is the state of everything outside. *)
Class Daemon (K : Type) := {
  (** A program with its arguments; the error is that of not starting it. *)
  run : string → list string → K → (string + Output) * K;
  http : HttpRequest → K → (string + Response) * K;
  (** UTC and the monotonic clock, in nanoseconds. *)
  utc : K → Z;
  monotonic : K → Z;
  sleep_secs : Z → K → K;
  rfc3339 : Z → string;
  parse_rfc3339 : string → option Z;
  from_json : string → option Json;
  url_encode : string → string;
  arch : string;
  (** [docker_get_wolfnet_ip]: the override of a container's address. *)
  wolfnet_override : string → K → option string;
  (** What [docker_start] does to the network and USB devices. *)
  after_start : string → K → K;
  (** The path of the archive. *)
  backup_docker : string → list string → bool → K → (string + string) * K
}.

(** ** Reading an inspection *)
Fixpoint pointer (path : list string) (v : Json) : option Json :=
  match path with [] => Some v | key :: path => get key v ≫= pointer path end.
Definition str_at (path : list string) (v : Json) : option string := pointer path v ≫= as_string.
Definition i64_at (path : list string) (v : Json) : option Z := pointer path v ≫= as_i64.
Definition bool_at (path : list string) (v : Json) : bool := default false (pointer path v ≫= as_bool).
Definition strings_at (path : list string) (v : Json) : list string :=
  match pointer path v ≫= as_array with Some l => omap as_string l | None => [] end.
Definition array_at (path : list string) (v : Json) : list Json := default [] (pointer path v ≫= as_array).
Definition object_at (path : list string) (v : Json) : list (string * Json) :=
  match pointer path v with Some (JObj fields) => fields | _ => [] end.

(** [insert] of a [serde_json::Map]. *)
Definition put_field (key : string) (v : Json) (fields : list (string * Json)) : list (string * Json) :=
  if existsb (λ kv, bool_decide (kv.1 = key)) fields
  then (λ kv, if bool_decide (kv.1 = key) then (key, v) else kv) <$> fields
  else fields ++ [(key, v)].
(** [v["Config"]["Image"] = image]: null becomes an object, other values panic. *)
Definition set_image (image : string) (inspect : Json) : res string Json :=
  match inspect with
  | JObj fields =>
      match field "Config" fields with
      | Some (JObj c) => Ok (JObj (put_field "Config" (JObj (put_field "Image" (JStr image) c)) fields))
      | Some JNull => Ok (JObj (put_field "Config" (JObj [("Image", JStr image)]) fields))
      | Some _ => Panic
      | None => Ok inspect
      end
  | v => Ok v
  end.

(** ** The arguments of [docker create] *)
Fixpoint trim_slashes (s : string) : string :=
  match s with String c s' => if bool_decide (c = "/"%char) then trim_slashes s' else s | _ => s end.
Definition flag (name v : string) : list string := [name; v].
Definition when (b : bool) (l : list string) : list string := if b then l else [].
Definition given (o : option string) (name : string) : list string := match o with Some v => flag name v | None => [] end.
Definition restart_policy (i : Json) : string :=
  let name := default "no" (str_at ["HostConfig"; "RestartPolicy"; "Name"] i) in
  let retries := default 0 (i64_at ["HostConfig"; "RestartPolicy"; "MaximumRetryCount"] i) in
  if bool_decide (name = "on-failure") && (0 <? retries) then "on-failure:" +:+ pretty retries else name.
Definition port_spec (container_port : string) (binding : Json) : option string :=
  let host_ip := default "" (str_at ["HostIp"] binding) in
  let host_port := default "" (str_at ["HostPort"] binding) in
  if bool_decide (host_port = "") then None else
  if bool_decide (host_ip ∈ [""; "0.0.0.0"]) then Some (host_port +:+ ":" +:+ container_port)
  else Some (host_ip +:+ ":" +:+ host_port +:+ ":" +:+ container_port).
Definition ports (i : Json) : list string :=
  object_at ["HostConfig"; "PortBindings"] i ≫= λ '(p, hosts), omap (port_spec p) (default [] (as_array hosts)).
Definition volume_spec (binds : list string) (mount : Json) : option string :=
  if negb (bool_decide (str_at ["Type"] mount = Some "volume")) then None else
  let name := default "" (str_at ["Name"] mount) in
  let destination := default "" (str_at ["Destination"] mount) in
  let rw := default true (pointer ["RW"] mount ≫= as_bool) in
  if bool_decide (name = "") || bool_decide (destination = "") then None else
  if existsb (String.prefix (name +:+ ":")) binds then None
  else Some (name +:+ ":" +:+ destination +:+ (if rw then "" else ":ro")).
Definition volumes (i : Json) : list string :=
  let binds := strings_at ["HostConfig"; "Binds"] i in binds ++ omap (volume_spec binds) (array_at ["Mounts"] i).
Definition labels (i : Json) : list string :=
  (λ '(k, v), k +:+ "=" +:+ default "" (as_string v)) <$> object_at ["Config"; "Labels"] i.
Definition memory_limit (i : Json) : option string :=
  m ← i64_at ["HostConfig"; "Memory"] i; if 0 <? m then Some (pretty (m / 1048576) +:+ "m") else None.
Definition cpu_limit (i : Json) : option string :=
  c ← i64_at ["HostConfig"; "NanoCpus"] i;
  if 0 <? c then Some (fmt_fixed 1 (f64_div (f64_of_Z c) (f64_of_Z 1000000000))) else None.
Definition device_spec (dev : Json) : option string :=
  host ← str_at ["PathOnHost"] dev; inside ← str_at ["PathInContainer"] dev; Some (host +:+ ":" +:+ inside).
Definition shm_size (i : Json) : option string :=
  s ← i64_at ["HostConfig"; "ShmSize"] i; if (0 <? s) && negb (s =? 67108864) then Some (pretty s) else None.

Definition container_name (container : string) (i : Json) : string :=
  trim_slashes (default container (str_at ["Name"] i)).
Definition create_args (name image : string) (i : Json) : list string :=
  let network := default "default" (str_at ["HostConfig"; "NetworkMode"] i) in
  let user := default "" (str_at ["Config"; "User"] i) in
  let workdir := default "" (str_at ["Config"; "WorkingDir"] i) in
  let entrypoint := strings_at ["Config"; "Entrypoint"] i in
  ["create"; "--name"; name]
  ++ when (bool_at ["Config"; "Tty"] i) ["-t"] ++ when (bool_at ["Config"; "OpenStdin"] i) ["-i"]
  ++ flag "--restart" (restart_policy i)
  ++ when (negb (bool_decide (network = "default"))) (flag "--network" network)
  ++ given (memory_limit i) "--memory" ++ given (cpu_limit i) "--cpus"
  ++ when (negb (bool_decide (user = ""))) (flag "--user" user)
  ++ when (negb (bool_decide (workdir = ""))) (flag "--workdir" workdir)
  ++ (strings_at ["HostConfig"; "CapAdd"] i ≫= flag "--cap-add")
  ++ (strings_at ["HostConfig"; "CapDrop"] i ≫= flag "--cap-drop")
  ++ (omap device_spec (array_at ["HostConfig"; "Devices"] i) ≫= flag "--device")
  ++ given (shm_size i) "--shm-size"
  ++ (volumes i ≫= flag "-v") ++ (labels i ≫= flag "--label") ++ (ports i ≫= flag "-p")
  ++ (List.filter (λ e, negb (bool_decide (e = ""))) (strings_at ["Config"; "Env"] i) ≫= flag "-e")
  ++ match entrypoint with [] => [] | e :: _ => flag "--entrypoint" e end
  ++ image :: drop 1 entrypoint ++ strings_at ["Config"; "Cmd"] i.

Section Docker.
Context {K : Type} `{!Daemon K}.
Implicit Types (k : K) (name container image : string).

(** ** Docker commands *)
Definition docker (args : list string) k : (string + Output) * K := run "docker" args k.
Definition docker_inspect container k : res string Json * K :=
  match docker ["inspect"; container] k with
  | (inr o, k) =>
      if negb (success o) then (Err (stderr o), k) else
      match from_json (stdout o) with
      | None => (Err "Failed to parse JSON", k)
      | Some json =>
          let obj := match json with JArr l => default json (head l) | v => v end in
          (Ok match wolfnet_override container k, obj, pointer ["Config"; "Labels"] obj, pointer ["Config"] obj with
              | Some ip, JObj fields, Some (JObj labels), Some (JObj c) =>
                  JObj (put_field "Config" (JObj (put_field "Labels" (JObj (put_field "wolfnet.ip" (JStr ip) labels)) c)) fields)
              | _, _, _, _ => obj
              end, k)
      end
  | (inl e, k) => (Err e, k)
  end.
Definition LIFECYCLE_TIMEOUT_SECS : string := "120".
Definition run_docker_cmd (args : list string) k : res string string * K :=
  match run "timeout" (LIFECYCLE_TIMEOUT_SECS :: "docker" :: args) k with
  | (inr o, k) =>
      (if success o then Ok (trim (stdout o)) else
       if bool_decide (code o = Some 124)
       then Err ("docker " +:+ default "command" (head args) +:+ " timed out after " +:+ LIFECYCLE_TIMEOUT_SECS +:+ "s")
       else Err (trim (stderr o)), k)
  | (inl e, k) => (Err ("Failed to run docker: " +:+ e), k)
  end.
Definition docker_start container k : res string string * K :=
  match run_docker_cmd ["start"; container] k with
  | (Ok out, k) => (Ok out, after_start container k)
  | r => r
  end.
Definition docker_arch : string :=
  if bool_decide (arch = "aarch64") then "arm64" else if bool_decide (arch = "powerpc64") then "ppc64le" else arch.
(** Whether the manifest names neither spelling of this machine's architecture. *)
Definition unsupported image k : bool * K :=
  if bool_decide (arch = "x86_64") then (false, k) else
  match docker ["manifest"; "inspect"; image] k with
  | (inr o, k) => (success o && negb (contains_str docker_arch (stdout o)) && negb (contains_str arch (stdout o)), k)
  | (_, k) => (false, k)
  end.
Definition docker_pull image k : res string string * K :=
  let '(refused, k) := unsupported image k in
  if refused then (Err ("Image '" +:+ image +:+ "' does not support " +:+ docker_arch +:+ " architecture. This image is only available for x86_64/amd64. Check Docker Hub for a ppc64le-compatible alternative or use the bare-metal install option instead."), k) else
  match docker ["pull"; image] k with
  | (inr o, k) =>
      (if success o
       then Ok ("Image '" +:+ image +:+ "' pulled successfully. " +:+ default "" (last (lines (stdout o))))
       else Err ("Pull failed: " +:+ stderr o), k)
  | (inl e, k) => (Err ("Failed to pull image: " +:+ e), k)
  end.

(** ** Rebuilding a container from its inspection *)
Definition BACKUP_SUFFIX : string := "_wolfstack_old".
Definition docker_recreate_from_inspect container (i : Json) k : res string string * K :=
  match str_at ["Config"; "Image"] i with
  | None => (Err "Cannot determine container image", k)
  | Some image =>
      let name := container_name container i in
      let was_running := bool_at ["State"; "Running"] i in
      let restart n k := if was_running then (docker ["start"; n] k).2 else k in
      let '(stopped, k) := if was_running then docker ["stop"; container] k else (inr (mk_out (Some 0) "" ""), k) in
      match stopped with
      | inl e => (Err ("Failed to stop container: " +:+ e), k)
      | inr o =>
          if negb (success o) then (Err ("Failed to stop container: " +:+ trim (stderr o)), k) else
          let backup := name +:+ BACKUP_SUFFIX in
          let k := (docker ["rm"; "-f"; backup] k).2 in
          match docker ["rename"; container; backup] k with
          | (inl e, k) => (Err ("Failed to rename container: " +:+ e), k)
          | (inr o, k) =>
              if negb (success o)
              then (Err ("Failed to rename container: " +:+ trim (stderr o)), restart container k) else
              match docker (create_args name image i) k with
              | (inl e, k) => (Err ("Failed to create container: " +:+ e), k)
              | (inr o, k) =>
                  if negb (success o) then
                    let k := (docker ["rename"; backup; name] k).2 in
                    (Err ("Recreate failed (rolled back): " +:+ trim (stderr o)), restart name k)
                  else
                    let k := (docker ["rm"; backup] k).2 in
                    let '(started, k) := if was_running then docker_start name k else (Ok "", k) in
                    match started with
                    | Ok _ => (Ok ("Container '" +:+ name +:+ "' recreated from edited spec"
                                   +:+ (if was_running then " and started" else "")), k)
                    | Err e => (Err e, k)
                    | Panic => (Panic, k)
                    end
              end
          end
      end
  end.
Definition recreate_with_image (i : Json) container image k : res string string * K :=
  match set_image image i with
  | Ok i => docker_recreate_from_inspect container i k
  | Err e => (Err e, k)
  | Panic => (Panic, k)
  end.

(** ** Registries *)
Definition challenge_field (name hdr : string) : option string :=
  rest ← after_first (name +:+ "=" +:+ String "034" "") hdr; '(v, _) ← split_once "034" rest; Some v.
Definition http_ok (r : Response) : bool := (200 <=? rs_status r) && (rs_status r <? 300).
Definition discover_token_endpoint registry k : res string (string * string) * K :=
  let url := "https://" +:+ registry +:+ "/v2/" in
  match http (HGet url) k with
  | (inl e, k) => (Err ("Probe of " +:+ url +:+ " failed: " +:+ e), k)
  | (inr r, k) =>
      (match rs_header r "www-authenticate" with
       | None => Err (url +:+ " sent no WWW-Authenticate header")
       | Some hdr =>
           match challenge_field "realm" hdr with
           | None => Err ("No realm in WWW-Authenticate: " +:+ hdr)
           | Some realm => Ok (realm, default registry (challenge_field "service" hdr))
           end
       end, k)
  end.
Definition token_url registry repo k : res string string * K :=
  if bool_decide (registry = HUB)
  then (Ok ("https://auth.docker.io/token?service=registry.docker.io&scope=repository:" +:+ repo +:+ ":pull"), k) else
  if bool_decide (registry = "ghcr.io")
  then (Ok ("https://ghcr.io/token?service=ghcr.io&scope=repository:" +:+ repo +:+ ":pull"), k) else
  let '(d, k) := discover_token_endpoint registry k in
  ('(realm, service) ← d;
   Ok (realm +:+ "?service=" +:+ url_encode service +:+ "&scope=repository:" +:+ repo +:+ ":pull"), k).
Definition get_registry_token registry repo k : res string string * K :=
  match token_url registry repo k with
  | (Ok url, k) =>
      match http (HGet url) k with
      | (inl e, k) => (Err ("Token request to " +:+ url +:+ " failed: " +:+ e), k)
      | (inr r, k) =>
          (if negb (http_ok r) then Err ("Token endpoint returned " +:+ pretty (rs_status r) +:+ ": " +:+ rs_body r) else
           match from_json (rs_body r) ≫= str_at ["token"] with
           | Some t => Ok t
           | None => Err "Failed to parse token response"
           end, k)
      end
  | r => r
  end.
Definition get_remote_digest (r : ImageRef) k : res string string * K :=
  match get_registry_token (registry r) (repo r) k with
  | (Ok token, k) =>
      let url := "https://" +:+ registry r +:+ "/v2/" +:+ repo r +:+ "/manifests/" +:+ tag r in
      match http (HHead url token) k with
      | (inl e, k) => (Err ("Manifest HEAD request to " +:+ url +:+ " failed: " +:+ e), k)
      | (inr a, k) =>
          (if negb (http_ok a)
           then Err ("Registry returned " +:+ pretty (rs_status a) +:+ " for " +:+ url +:+ ": " +:+ rs_body a) else
           ok_or (rs_header a "docker-content-digest") ("No Docker-Content-Digest header in response from " +:+ url), k)
      end
  | r => r
  end.

(** ** One check *)
Definition image_of container k : res string string * K :=
  match docker ["inspect"; "--format"; "{{.Config.Image}}"; container] k with
  | (inl e, k) => (Err ("Failed to run docker inspect: " +:+ e), k)
  | (inr o, k) =>
      (if negb (success o)
       then Err ("docker inspect failed for container '" +:+ container +:+ "': " +:+ trim (stderr o)) else
       let image := trim (stdout o) in
       if bool_decide (image = "") then Err ("No image found for container '" +:+ container +:+ "'") else Ok image, k)
  end.
Definition strings_of (v : Json) : option (list string) := as_array v ≫= mapM as_string.
Definition get_local_digest container k : res string string * K :=
  match image_of container k with
  | (Ok image, k) =>
      match docker ["image"; "inspect"; "--format"; "{{json .RepoDigests}}"; image] k with
      | (inl e, k) => (Err ("Failed to inspect image '" +:+ image +:+ "': " +:+ e), k)
      | (inr o, k) =>
          (if negb (success o)
           then Err ("docker image inspect failed for '" +:+ image +:+ "': " +:+ trim (stderr o)) else
           ok_or (select_repo_digest image (default [] (from_json (trim (stdout o)) ≫= strings_of)))
             ("No repo digest available for image '" +:+ image +:+ "' (locally built or docker-loaded?)"), k)
      end
  | r => r
  end.
Definition ORIGIN_IMAGE_LABEL : string := "wolfstack.origin-image".
Definition ORIGIN_DIGEST_LABEL : string := "wolfstack.origin-digest".
Definition no_origin : string :=
  "migrated snapshot with no origin recorded — containers migrated before v25.10.25 lose their registry lineage. Re-migrate on a newer version, or recreate the container from its original image, to restore update checks.".
Definition no_origin_update : string :=
  "migrated snapshot with no origin recorded — cannot update. Re-migrate on v25.10.25+ or recreate the container from its original registry image.".
Definition no_origin_digest : string :=
  "migrated snapshot — origin digest unknown, so upstream drift can't be detected. Applying an update rebases onto the latest origin image.".
Definition nonempty (o : option string) : option string :=
  s ← o; if bool_decide (s = "") then None else Some s.
(** What to ask the registry for, with the digest held here if one is known;
    or the reason why there is nothing to ask. *)
Definition check_subject container image k : res string (res string (string * option string)) * K :=
  if is_migrated_snapshot_image image then
    match docker ["inspect"; "--format"; "{{json .Config.Labels}}"; container] k with
    | (inl e, k) => (Err ("Failed to run docker inspect: " +:+ e), k)
    | (inr o, k) =>
        let label name := nonempty (from_json (stdout o) ≫= str_at [name]) in
        (Ok match label ORIGIN_IMAGE_LABEL with
            | Some origin => Ok (origin, label ORIGIN_DIGEST_LABEL)
            | None => Err no_origin
            end, k)
    end
  else
    let '(d, k) := get_local_digest container k in
    match d with
    | Ok d => (Ok (Ok (image, Some d)), k)
    | Err e => (Ok (Err ("Could not get local digest: " +:+ e)), k)
    | Panic => (Panic, k)
    end.
Definition local_hash (d : string) : string := match rsplit_once "@" d with Some (_, h) => h | None => d end.
Definition check_container_update container k : res string ImageCheckResult * K :=
  let now := rfc3339 (utc k) in
  match image_of container k with
  | (Ok image, k) =>
      match check_subject container image k with
      | (Ok (Ok (subject, held)), k) =>
          let '(remote, k) := get_remote_digest (parse_ref subject) k in
          let d := default "" held in
          match remote with
          | Ok remote =>
              (Ok (mk_check container subject d (Some remote)
                     match held with Some d => negb (bool_decide (local_hash d = remote)) | None => false end now
                     match held with Some _ => None | None => Some no_origin_digest end), k)
          | Err e => (Ok (mk_check container subject d None false now (Some e)), k)
          | Panic => (Panic, k)
          end
      | (Ok (Err why), k) => (Ok (mk_check container image "" None false now (Some why)), k)
      | (Ok Panic, k) => (Panic, k)
      | (Err e, k) => (Err e, k)
      | (Panic, k) => (Panic, k)
      end
  | (Err e, k) => (Err e, k)
  | (Panic, k) => (Panic, k)
  end.

(** ** A sweep's checks *)
Definition fresh (c : ImageWatcherConfig) (now : Z) name (r : ImageCheckResult) : bool :=
  match parse_rfc3339 (last_checked r) with
  | Some t => let elapsed := Z.quot (now - t) SEC in (0 <=? elapsed) && (elapsed <? effective_interval_secs c name)
  | None => false
  end.
Definition nonblank (l : list string) : list string := List.filter (λ s, negb (bool_decide (s = ""))) l.
Definition running_containers k : list string * K :=
  match docker ["ps"; "--format"; "{{.Names}}"] k with
  | (inr o, k) => (if success o then nonblank (trim <$> lines (stdout o)) else [], k)
  | (inl _, k) => ([], k)
  end.
Definition failed_check name (e : string) k : ImageCheckResult := mk_check name "" "" None false (rfc3339 (utc k)) (Some e).
Definition still_fresh (c : ImageWatcherConfig) (prev : gmap string ImageCheckResult) (now : Z) name : option ImageCheckResult :=
  r ← prev !! name; if fresh c now name r then Some r else None.
(** The results in order, and the names asked about now. *)
Fixpoint check_each (c : ImageWatcherConfig) (prev : gmap string ImageCheckResult) (now : Z) (names : list string) k :
    list ImageCheckResult * gset string * K :=
  match names with
  | [] => ([], ∅, k)
  | name :: names =>
      if is_passive (policy_for c name) then check_each c prev now names k else
      match still_fresh c prev now name with
      | Some cached => let '(rs, asked, k) := check_each c prev now names k in (cached :: rs, asked, k)
      | None =>
          let '(r, k) := check_container_update name k in
          let r := match r with Ok r => r | Err e => failed_check name e k | Panic => failed_check name "" k end in
          let '(rs, asked, k) := check_each c prev now names k in (r :: rs, {[name]} ∪ asked, k)
      end
  end.
Definition check_containers_impl (c : ImageWatcherConfig) (prev : gmap string ImageCheckResult) k :
    list ImageCheckResult * gset string * K :=
  let '(names, k) := running_containers k in check_each c prev (utc k) names k.
Definition check_all_containers (c : ImageWatcherConfig) k : list ImageCheckResult * K :=
  let '(rs, _, k) := check_containers_impl c ∅ k in (rs, k).
Definition check_due_containers : ImageWatcherConfig → gmap string ImageCheckResult → K →
    list ImageCheckResult * gset string * K := check_containers_impl.

(** ** Waiting until a container is healthy *)
Definition HEALTH_FORMAT : string :=
  "{{.State.Status}}|{{if .State.Health}}{{.State.Health.Status}}{{else}}none{{end}}".
(** The state and health that an inspection prints. *)
Definition poll container k : option (string * string) * K :=
  match docker ["inspect"; "--format"; HEALTH_FORMAT; container] k with
  | (inr o, k) =>
      let raw := trim (stdout o) in
      (if success o then Some (default (raw, "none") (split_once "|" raw)) else None, k)
  | (inl _, k) => (None, k)
  end.
Definition seen_text (status health : string) : string :=
  if bool_decide (health = "none") then "state " +:+ status +:+ ", no HEALTHCHECK"
  else "state " +:+ status +:+ ", health " +:+ health.
(** [since]: when the container was first seen running without a break. [None]:
    the rounds of [fuel] are used up. *)
Fixpoint wait_loop container (effective deadline : Z) (fuel : nat) (since : option Z) (last_seen : string) k :
    option (res string ()) * K :=
  match fuel with
  | O => (None, k)
  | S fuel =>
      let '(p, k) := poll container k in
      let now := monotonic k in
      let since := match p with
                   | Some (status, _) => if bool_decide (status = "running") then Some (default now since) else None
                   | None => since
                   end in
      let running_for := match since with Some t => Z.max 0 (now - t) / SEC | None => 0 end in
      if match p with Some (status, health) => health_poll_passes status health running_for | None => false end
      then (Some (Ok ()), k) else
      let last_seen := match p with Some (status, health) => seen_text status health | None => last_seen end in
      if deadline <=? now
      then (Some (Err ("health check failed: not healthy after " +:+ pretty effective +:+ "s (last seen: "
                       +:+ last_seen +:+ ")")), k)
      else wait_loop container effective deadline fuel since last_seen (sleep_secs 1 k)
  end.
Definition declared_healthcheck container k : option Json * K :=
  let '(i, k) := docker_inspect container k in
  (match i with
   | Ok i => match pointer ["Config"; "Healthcheck"] i with Some JNull => None | h => h end
   | _ => None
   end, k).
(** A round takes at least a second, so these are enough. *)
Definition rounds (effective : Z) : nat := S (S (Z.to_nat effective)).
Definition wait_for_healthy container (timeout : Z) k : option (res string ()) * K :=
  let '(h, k) := declared_healthcheck container k in
  let effective := effective_health_timeout_secs timeout h in
  wait_loop container effective (monotonic k + effective * SEC) (rounds effective) None "not yet inspected" k.

(** ** An update *)
Definition bind_mount_sources (i : Json) : list string :=
  nonblank (omap (str_at ["Source"]) (List.filter (λ m, bool_decide (str_at ["Type"] m = Some "bind")) (array_at ["Mounts"] i))).
Definition debug_policy (p : UpdatePolicy) : string :=
  match p with NotifyOnly => "NotifyOnly" | AutoUpdate => "AutoUpdate" | Ignore => "Ignore" | Pinned => "Pinned" end.
(** [None]: the stem or the last of [..] and an empty path has no name. *)
Definition file_name (path : string) : option string :=
  match rsplit_once "/" path with Some (_, n) => nonempty (Some n) | None => nonempty (Some path) end.
Definition failed (why : string) (e : ImageUpdateEvent) : ImageUpdateEvent :=
  e <| ev_status := Failed |> <| ev_error := Some why |>.

(** How an update of a container ends: with its event, by a panic, or never.
    The events published for pollers come with it. *)
Inductive Ending := Returned (e : ImageUpdateEvent) | Panicked | Hangs.
Definition Run : Type := Ending * list ImageUpdateEvent * K.
Definition publishing (e : ImageUpdateEvent) (r : Run) : Run := let '(x, l, k) := r in (x, e :: l, k).
Definition returns (e : ImageUpdateEvent) k : Run := (Returned e, [], k).

(** From the health check on. *)
Definition settle (p : ContainerUpdatePolicy) container (i : Json) (e : ImageUpdateEvent) k : Run :=
  if negb (health_check p) then returns (e <| ev_status := Completed |>) k else
  let e := e <| ev_status := HealthChecking |> in
  publishing e
    (match wait_for_healthy container (health_check_timeout_secs p) k with
     | (None, k) => (Hangs, [], k)
     | (Some Panic, k) => (Panicked, [], k)
     | (Some (Ok _), k) => returns (e <| ev_status := Completed |>) k
     | (Some (Err reason), k) =>
         if negb (auto_rollback p)
         then returns (failed (reason +:+ " — auto_rollback disabled, container left in degraded state") e) k else
         let e := e <| ev_error := Some (reason +:+ " — rolling back to the previous image") |> in
         publishing e
           (match recreate_with_image i container (old_digest e) k with
            | (Ok _, k) =>
                returns (e <| ev_status := RolledBack |>
                           <| ev_error := Some (reason +:+ " — rolled back to previous image") |>) k
            | (Err why, k) => returns (failed (reason +:+ " AND rollback recreate failed: " +:+ why) e) k
            | (Panic, k) => (Panicked, [], k)
            end)
     end).
(** From the pull on, of [pull_image], when [image] is the container's. *)
Definition image_id image k : string * K :=
  match docker ["image"; "inspect"; "--format"; "{{.Id}}"; image] k with
  | (inr o, k) => (if success o then trim (stdout o) else "", k)
  | (inl _, k) => ("", k)
  end.
Definition swap (p : ContainerUpdatePolicy) container (i : Json) (image pull_image : string) (e : ImageUpdateEvent) k : Run :=
  let e := e <| ev_status := Pulling |> in
  publishing e
    (match docker_pull pull_image k with
     | (Err why, k) => returns (failed ("docker pull failed: " +:+ why) e) k
     | (Panic, k) => (Panicked, [], k)
     | (Ok _, k) =>
         let '(new_id, k) := image_id pull_image k in
         let e := e <| new_digest := new_id |> in
         if negb (bool_decide (new_id = "")) && bool_decide (new_id = old_digest e)
         then returns (e <| ev_status := Completed |> <| ev_error := Some "already at latest digest — no recreate needed" |>) k else
         let e := e <| ev_status := Recreating |> in
         publishing e
           (match (if bool_decide (pull_image = image) then docker_recreate_from_inspect container i k
                   else recreate_with_image i container pull_image k) with
            | (Err why, k) => returns (failed ("docker recreate failed: " +:+ why) e) k
            | (Panic, k) => (Panicked, [], k)
            | (Ok _, k) => settle p container i e k
            end)
     end).
Definition backed_up (c : ImageWatcherConfig) (p : ContainerUpdatePolicy) container (i : Json) (e : ImageUpdateEvent) k :
    res (ImageUpdateEvent) (ImageUpdateEvent) * list ImageUpdateEvent * K :=
  if negb (backup_before_update p) then (Ok e, [], k) else
  let e := e <| ev_status := BackingUp |> in
  let exclude := if exclude_binds_for c container then bind_mount_sources i else [] in
  match backup_docker container exclude false k with
  | (inr path, k) => (Ok (e <| backup_id := file_name path |>), [e], k)
  | (inl why, k) => (Err (failed ("pre-update backup failed: " +:+ why) e), [e], k)
  end.
(** What to pull for a container of [image]. *)
Definition pull_target (image : string) (i : Json) : option string :=
  if is_migrated_snapshot_image image then nonempty (str_at ["Config"; "Labels"; ORIGIN_IMAGE_LABEL] i) else Some image.
Definition run_update (g : UpdateGuard) (c : ImageWatcherConfig) k : Run :=
  let container := g_container g in
  let p := policy_for c container in
  let e := blank_event (g_event_id g) container (rfc3339 (utc k)) UpdateAvailable None in
  if is_passive p then returns (failed ("policy is " +:+ debug_policy (policy p) +:+ " — auto-apply refused") e) k else
  match docker_inspect container k with
  | (Err why, k) => returns (failed ("docker inspect failed: " +:+ why) e) k
  | (Panic, k) => (Panicked, [], k)
  | (Ok i, k) =>
      let image := default "" (str_at ["Config"; "Image"] i) in
      let e := e <| ev_image := image |> <| old_digest := default "" (str_at ["Image"] i) |> in
      if bool_decide (image = "") then returns (failed "could not determine image from docker inspect" e) k else
      match pull_target image i with
      | None => returns (failed no_origin_update e) k
      | Some target =>
          match backed_up c p container i (e <| ev_image := target |>) k with
          | (Ok e, l, k) => let '(x, l', k) := swap p container i image target e k in (x, l ++ l', k)
          | (Err e, l, k) => (Returned e, l, k)
          | (Panic, l, k) => (Panicked, l, k)
          end
      end
  end.
End Docker.
