(* ===== verification/ImageNode.v ===== *)
(** * Image watcher: a node's sweeps, its settings, and the API

    The loop of main.rs, and the handlers of api/mod.rs with the push of
    settings to peers and the reconciliation that adopts newer ones. *)
From stdpp Require Import pretty.
From S2P Require Import Prelude Net WorkflowHost Cluster AgentGate Cron ImageWatch ImageUpdate.

(** ** State *)
Inductive ConfigFile := Missing | Garbled | Holds (c : ImageWatcherConfig).
Definition load (f : ConfigFile) : ImageWatcherConfig := match f with Holds c => c | _ => default_config end.

Class Node_env (K : Type) := {
  uuid : K → string * K;
  (** Whether the next write of the file fails, with what it leaves. *)
  write_failure : K → option (string * ConfigFile) * K;
  (** [build_node_urls] *)
  node_urls : string → Z → string → K → list string;
  (** PUT of the settings, and GET of a peer's: no answer, or the status with
      the body. *)
  peer_put : string → ImageWatcherConfig → K → option (Z * string) * K;
  peer_get : string → K → option (Z * option ImageWatcherConfig) * K
}.

Record Site (K : Type) := mk_site {
  file : ConfigFile; cache : gmap string ImageCheckResult; reg : UpdateRegistry; outside : K;
  (** The loop was told to run now. *)
  woken : bool;
  (** Triggers of WolfFunctions: whether the update succeeded, and its event. *)
  fired : list (bool * ImageUpdateEvent)
}.
Arguments mk_site {K}.
Arguments file {K}. Arguments cache {K}. Arguments reg {K}. Arguments outside {K}. Arguments woken {K}. Arguments fired {K}.
#[global] Instance eta_site {K} : Eta (Site K) := λ s,
  mk_site (file s) (cache s) (reg s) (outside s) (woken s) (fired s).
#[global] Instance set_file {K} : Setter (@file K) := ltac:(derive_setter (@file K)).
#[global] Instance set_cache {K} : Setter (@cache K) := ltac:(derive_setter (@cache K)).
#[global] Instance set_reg {K} : Setter (@reg K) := ltac:(derive_setter (@reg K)).
#[global] Instance set_outside {K} : Setter (@outside K) := ltac:(derive_setter (@outside K)).
#[global] Instance set_woken {K} : Setter (@woken K) := ltac:(derive_setter (@woken K)).
#[global] Instance set_fired {K} : Setter (@fired K) := ltac:(derive_setter (@fired K)).

Section Site.
Context {K : Type} `{!Daemon K} `{!Node_env K} `{Calendar}.
Implicit Types (s : Site K) (k : K) (c : ImageWatcherConfig) (container name : string) (e : ImageUpdateEvent).

Definition save c s : res string () * Site K :=
  match write_failure (outside s) with
  | (None, k) => (Ok (), s <| file := Holds c |> <| outside := k |>)
  | (Some (why, kept), k) => (Err why, s <| file := kept |> <| outside := k |>)
  end.
Definition append_to_history (events : list ImageUpdateEvent) s : res string () * Site K :=
  save (append_history events (load (file s))) s.

(** ** Updates *)
Definition update_trigger c e : option bool :=
  let noop := bool_decide (ev_status e = Completed) && negb (bool_decide (ev_error e = None)) in
  if is_passive (policy_for c (ev_container e)) || noop then None else
  match ev_status e with Completed => Some true | Failed | RolledBack => Some false | _ => None end.
Definition fire (t : option bool) e s : Site K :=
  match t with Some b => s <| fired := fired s ++ [(b, e)] |> | None => s end.
Definition perform_update_with_guard (g : UpdateGuard) c s : Ending * Site K :=
  let '(x, published, k) := run_update g c (outside s) in
  let r := foldl (λ r e, publish g e r) (reg s) published in
  let s := s <| outside := k |> in
  (x, match x with
      | Returned e => fire (update_trigger c e) e (s <| reg := finish g e r |>)
      | Panicked => s <| reg := abandon g (rfc3339 (utc k)) r |>
      | Hangs => s <| reg := r |>
      end).
(** The claim, or the event of the update already running. *)
Definition begin_update name s : res ImageUpdateEvent UpdateGuard * Site K :=
  match in_flight (reg s) !! name with
  | Some running => (Err running, s)
  | None =>
      let '(id, k) := uuid (outside s) in
      let '(g, r) := try_begin_update ("evt-" +:+ id) (rfc3339 (utc k)) name (reg s) in
      (g, s <| reg := r |> <| outside := k |>)
  end.
Definition perform_update_blocking name c s : option Ending * Site K :=
  match begin_update name s with
  | (Ok g, s) => let '(x, s) := perform_update_with_guard g c s in (Some x, s)
  | (_, s) => (None, s)
  end.

(** ** A sweep *)
Definition join_failed name k : ImageUpdateEvent :=
  blank_event ("evt-join-" +:+ pretty (utc k / SEC)) name (rfc3339 (utc k)) Failed (Some "worker join failed").
(** [None]: one of the updates never ends, and neither does the sweep. *)
Fixpoint apply_each c (names : list string) s : option (list ImageUpdateEvent) * Site K :=
  match names with
  | [] => (Some [], s)
  | name :: names =>
      let '(x, s) := perform_update_blocking name c s in
      let '(mine, s) := match x with
                        | None => (Some [], s)
                        | Some (Returned e) => (Some [e], s)
                        | Some Panicked => let e := join_failed name (outside s) in (Some [e], fire (Some false) e s)
                        | Some Hangs => (None, s)
                        end in
      let '(rest, s) := apply_each c names s in
      (l ← mine; l' ← rest; Some (l ++ l'), s)
  end.
Definition pending c (results : list ImageCheckResult) (checked_now : gset string) : list string :=
  List.filter (λ name, bool_decide (name ∈ checked_now) && is_auto_apply (policy_for c name))
    (ck_container <$> List.filter (λ r, update_available r && bool_decide (ck_error r = None)) results).
Definition remember (results : list ImageCheckResult) (m : gmap string ImageCheckResult) : gmap string ImageCheckResult :=
  foldl (λ m r, <[ck_container r := r]> m) m results.
Definition is_completed e : bool := bool_decide (ev_status e = Completed).
Definition clear_flag (ts name : string) (m : gmap string ImageCheckResult) : gmap string ImageCheckResult :=
  alter (λ r, r <| update_available := false |> <| last_checked := ts |>) name m.
Definition mark_completed (ts : string) (events : list ImageUpdateEvent) (m : gmap string ImageCheckResult) :
    gmap string ImageCheckResult :=
  foldl (λ m e, if is_completed e then clear_flag ts (ev_container e) m else m) m events.
Definition sweep s : option (list ImageUpdateEvent) * Site K :=
  let c := load (file s) in
  if negb (enabled c) then (Some [], s) else
  let '(results, checked_now, k) := check_due_containers c (cache s) (outside s) in
  let s := s <| cache := remember results (cache s) |> <| outside := k |> in
  if negb (auto_apply_window_open c (utc k)) then (Some [], s) else
  let names := pending c results checked_now in
  if bool_decide (names = []) then (Some [], s) else
  match apply_each c names s with
  | (None, s) => (None, s)
  | (Some events, s) =>
      let s := s <| cache := mark_completed (rfc3339 (utc (outside s))) events (cache s) |> in
      (Some events, if bool_decide (events = []) then s else (append_to_history events s).2)
  end.
(** How long the loop then sleeps, unless it is woken. *)
Definition next_delay c (octet : option Z) (hostname : string) k : Z :=
  secs_until_next_slot octet hostname (min_effective_interval_secs c) (utc k / SEC).

(** ** Settings of the cluster *)
Record PeerResult := mk_peer { p_hostname : string; p_address : string; p_ok : bool; p_error : option string; p_skipped : option string }.
Definition CONFIG_PATH : string := "/api/image-watcher/config".
Definition SETTINGS_PATH : string := "/api/image-watcher/cluster-settings".
Definition ok_status (st : Z) : bool := (200 <=? st) && (st <? 300).
Fixpoint push_to (hostname address : string) (urls : list string) c k : PeerResult * K :=
  match urls with
  | [] => (mk_peer hostname address false (Some "unreachable on all known addresses") None, k)
  | url :: urls =>
      match peer_put url c k with
      | (None, k) => push_to hostname address urls c k
      | (Some (st, body), k) =>
          (if ok_status st then mk_peer hostname address true None None
           else mk_peer hostname address false (Some ("HTTP " +:+ pretty st +:+ ": " +:+ take_chars 200 body)) None, k)
      end
  end.
Definition cluster_of (nodes : list Node) : option string := n ← List.find n_is_self nodes; n_cluster_name n.
Definition in_quotes (s : string) : string := String "034" (s +:+ String "034" "").
Definition skip_reason (mine : option string) (n : Node) : option string :=
  if negb (same_display_cluster (n_cluster_name n) mine) then
    Some ("in cluster " +:+ in_quotes (default "unassigned" (n_cluster_name n)) +:+ ", not "
          +:+ in_quotes (default "unassigned" mine) +:+ " — configure it from a node in its own cluster")
  else if negb (n_online n) then Some "offline — it adopts these settings from a peer within 10 minutes of coming back"
  else None.
Definition others (nodes : list Node) : list Node :=
  List.filter (λ n, negb (n_is_self n) && bool_decide (n_node_type n = "wolfstack")) nodes.
Fixpoint push_each (nodes : list Node) c k : list PeerResult * K :=
  match nodes with
  | [] => ([], k)
  | n :: nodes =>
      let '(r, k) := push_to (n_hostname n) (n_address n) (node_urls (n_address n) (n_port n) CONFIG_PATH k) c k in
      let '(rs, k) := push_each nodes c k in (r :: rs, k)
  end.
Definition propagate_config_to_peers (nodes : list Node) c k : list PeerResult * K :=
  let mine := cluster_of nodes in
  let skipped := omap (λ n, r ← skip_reason mine n; Some (mk_peer (n_hostname n) (n_address n) false None (Some r))) (others nodes) in
  let peers := List.filter (λ n, bool_decide (skip_reason mine n = None)) (others nodes) in
  let '(rs, k) := push_each peers c k in (rs ++ skipped, k).

Inductive SaveReply := Saved (peers : list PeerResult) | NotNewer | NotSaved (e : string).
Definition is_stale (is_propagation : bool) (existing incoming : ImageWatcherConfig) : bool :=
  is_propagation && negb (cluster_rev incoming =? 0) && (cluster_rev incoming <=? cluster_rev existing).
(** What a save leaves in the file. *)
Definition next_config (is_propagation : bool) (existing incoming : ImageWatcherConfig) : ImageWatcherConfig :=
  let c := resolve_on_save existing incoming is_propagation in
  if is_propagation then c else
  c <| cluster_rev := if cluster_settings_eq existing incoming then cluster_rev existing
                      else wrap 64 (Z.max (cluster_rev existing) (cluster_rev c) + 1) |>.
Definition config_save (from_peer proxied : bool) (nodes : list Node) (incoming : ImageWatcherConfig) s : SaveReply * Site K :=
  let is_propagation := from_peer && negb proxied in
  let existing := load (file s) in
  if is_stale is_propagation existing incoming then (NotNewer, s) else
  let c := next_config is_propagation existing incoming in
  match save c s with
  | (Ok _, s) =>
      let s := if enabled c then s <| woken := true |> else s in
      if negb is_propagation && negb (cluster_settings_eq existing incoming) then
        let '(peers, k) := propagate_config_to_peers nodes c (outside s) in (Saved peers, s <| outside := k |>)
      else (Saved [], s)
  | (Err e, s) => (NotSaved e, s)
  | (Panic, s) => (NotSaved "", s)
  end.
Definition config_propagate (nodes : list Node) s : list PeerResult * Site K :=
  let '(peers, k) := propagate_config_to_peers nodes (load (file s)) (outside s) in (peers, s <| outside := k |>).
Definition cluster_settings c : ImageWatcherConfig := c <| container_policies := ∅ |> <| update_history := [] |>.

(** The first URL that answers decides. *)
Fixpoint ask_peer (urls : list string) k : option ImageWatcherConfig * K :=
  match urls with
  | [] => (None, k)
  | url :: urls =>
      match peer_get url k with
      | (None, k) => ask_peer urls k
      | (Some (st, body), k) => (if ok_status st then body else None, k)
      end
  end.
Definition newer_of (best : option ImageWatcherConfig) (best_rev : Z) (o : option ImageWatcherConfig) :
    option ImageWatcherConfig * Z :=
  match o with
  | Some c => if best_rev <? cluster_rev c then (Some c, cluster_rev c) else (best, best_rev)
  | None => (best, best_rev)
  end.
Fixpoint newest_peer (nodes : list Node) (best : option ImageWatcherConfig) (best_rev : Z) k : option ImageWatcherConfig * K :=
  match nodes with
  | [] => (best, k)
  | n :: nodes =>
      let '(o, k) := ask_peer (node_urls (n_address n) (n_port n) SETTINGS_PATH k) k in
      let '(best, best_rev) := newer_of best best_rev o in newest_peer nodes best best_rev k
  end.
Definition reconcile_query (nodes : list Node) s : option ImageWatcherConfig * Site K :=
  let mine := cluster_of nodes in
  let '(best, k) := newest_peer (List.filter (λ n, bool_decide (skip_reason mine n = None)) (others nodes)) None
                      (cluster_rev (load (file s))) (outside s) in (best, s <| outside := k |>).
Definition adopted c (newer : ImageWatcherConfig) : ImageWatcherConfig :=
  if cluster_rev newer <=? cluster_rev c then c else merge_cluster_settings_from c newer.
Definition reconcile_adopt (newer : ImageWatcherConfig) s : Site K :=
  let c := load (file s) in
  if cluster_rev newer <=? cluster_rev c then s else
  match save (merge_cluster_settings_from c newer) s with
  | (Ok _, s) => if enabled newer then s <| woken := true |> else s
  | (_, s) => s
  end.
Definition reconcile_from_peers (nodes : list Node) s : Site K :=
  let '(best, s) := reconcile_query nodes s in
  match best with Some newer => reconcile_adopt newer s | None => s end.

(** ** The rest of the API *)
Definition check_now s : option (list ImageCheckResult) * Site K :=
  let c := load (file s) in
  if negb (enabled c) then (None, s) else
  let '(rs, k) := check_all_containers c (outside s) in
  (Some rs, s <| cache := remember rs (cache s) |> <| outside := k |> <| woken := true |>).
Definition check container s : res string ImageCheckResult * Site K :=
  let '(r, k) := check_container_update container (outside s) in
  (r, match r with Ok r => s <| cache := remember [r] (cache s) |> | _ => s end <| outside := k |>).

Inductive ApplyReply := Refused (p : UpdatePolicy) | InProgress (e : ImageUpdateEvent) | Accepted (g : UpdateGuard).
Definition apply container s : ApplyReply * Site K :=
  let p := policy_for (load (file s)) container in
  if is_passive p then (Refused (policy p), s) else
  match begin_update container s with
  | (Ok g, s) => (Accepted g, s)
  | (Err running, s) => (InProgress running, s)
  | (Panic, s) => (Refused (policy p), s)
  end.
(** The task an accepted request leaves behind, with the settings it read. *)
Definition after_apply container e s : Site K :=
  let done := is_completed e in
  let s := if done then s <| cache := clear_flag (rfc3339 (utc (outside s))) container (cache s) |> else s in
  let s := (append_to_history [e] s).2 in
  if done then (check container s).2 else s.
Definition apply_task (g : UpdateGuard) c s : Site K :=
  match perform_update_with_guard g c s with
  | (Returned e, s) => after_apply (g_container g) e s
  | (Panicked, s) =>
      after_apply (g_container g)
        (blank_event (g_event_id g) (g_container g) (rfc3339 (utc (outside s))) Failed (Some "update worker failed")) s
  | (Hangs, s) => s
  end.
Definition update_status_of (id : string) s : option (ImageUpdateEvent * bool) :=
  update_status id (update_history (load (file s))) (reg s).
Definition updates_in_progress s : list ImageUpdateEvent := (map_to_list (in_flight (reg s))).*2.

(** One container of a batch: its event, or that it is being updated already. *)
Definition batch_one c name s : option (res string ImageUpdateEvent) * Site K :=
  let p := policy_for c name in
  if is_passive p then
    let '(id, k) := uuid (outside s) in
    (Some (Ok (blank_event ("evt-skip-" +:+ id) name (rfc3339 (utc k)) Failed
                 (Some ("policy is " +:+ debug_policy (policy p) +:+ " — skipped")))), s <| outside := k |>)
  else
    let '(x, s) := perform_update_blocking name c s in
    (match x with
     | None => Some (Err name)
     | Some (Returned e) => Some (Ok e)
     | Some Panicked => Some (Ok (join_failed name (outside s)))
     | Some Hangs => None
     end, s).
Fixpoint batch c (names : list string) s : option (list ImageUpdateEvent * list string) * Site K :=
  match names with
  | [] => (Some ([], []), s)
  | name :: names =>
      let '(x, s) := batch_one c name s in
      let '(rest, s) := batch c names s in
      (x ← x; '(es, busy) ← rest;
       Some match x with Ok e => (e :: es, busy) | Err n => (es, n :: busy) | Panic => (es, busy) end, s)
  end.
Definition apply_many (names : list string) s : option (list ImageUpdateEvent * list string) * Site K :=
  if bool_decide (names = []) then (None, s) else
  match batch (load (file s)) names s with
  | (Some (events, busy), s) =>
      let s := (append_to_history events s).2 in
      (Some (events, busy),
       s <| cache := foldl (λ m e, if is_completed e && negb (bool_decide (ev_container e = ""))
                                   then delete (ev_container e) m else m) (cache s) events |>)
  | (None, s) => (None, s)
  end.
End Site.
