(* ===== verification/ImageInv.v ===== *)
(** * Image watcher: what an update does to the containers

    What docker documents of the commands an update gives, as laws; what a
    container is rebuilt as, and that every update ends, on every branch. *)
From stdpp Require Import pretty.
From S2P Require Import Prelude F64 Net AgentGate ImageWatch ImageUpdate.

(** ** Docker's documented behaviour *)

(** A container: how it was created, and whether it is removed when it stops. *)
Record Ctr := mk_ctr { made_with : list string; auto_remove : bool }.
Definition made (args : list string) : Ctr := mk_ctr args false.
Abbreviation Table := (gmap string Ctr).
(** What a command that succeeds does to the table, and one that fails. *)
Definition stopped (n : string) (m m' : Table) : Prop :=
  m' = m ∨ (∃ c, m !! n = Some c ∧ auto_remove c = true ∧ m' = delete n m).
Definition created (args : list string) (n : string) (m m' : Table) : Prop := m !! n = None ∧ m' = <[n := made args]> m.
Definition effect (args : list string) (m m' : Table) : Prop :=
  match args with
  | [cmd; n] => if String.eqb cmd "rm" then m' = delete n m else if String.eqb cmd "stop" then stopped n m m' else m' = m
  | [cmd; a; b] =>
      if String.eqb cmd "rename" then ∃ c, m !! a = Some c ∧ m !! b = None ∧ m' = <[b := c]> (delete a m) else
      if String.eqb cmd "rm" && String.eqb a "-f" then m' = delete b m else m' = m
  | cmd :: a :: n :: _ => if String.eqb cmd "create" && String.eqb a "--name" then created args n m m' else m' = m
  | _ => m' = m
  end.
Definition failure (args : list string) (m m' : Table) : Prop :=
  match args with
  | [cmd; n] =>
      if String.eqb cmd "rm" then m' = m ∨ m' = delete n m else if String.eqb cmd "stop" then stopped n m m' else m' = m
  | [cmd; a; b] => if String.eqb cmd "rm" && String.eqb a "-f" then m' = m ∨ m' = delete b m else m' = m
  | _ => m' = m
  end.

(** Nobody else changes the table meanwhile. *)
Class DockerLaws (K : Type) `{!Daemon K} := {
  containers : K → Table;
  docker_effect args k o k' : run "docker" args k = (inr o, k') →
    if success o then effect args (containers k) (containers k') else failure args (containers k) (containers k');
  docker_lost args k e k' : run "docker" args k = (inl e, k') → containers k' = containers k;
  timeout_keeps args k : containers (run "timeout" args k).2 = containers k;
  start_keeps n k : containers (after_start n k) = containers k;
  backup_keeps n l b k : containers (backup_docker n l b k).2 = containers k;
  sleep_keeps d k : containers (sleep_secs d k) = containers k
}.
(** Time passes in a sleep, and never goes back. *)
Class ClockLaws (K : Type) `{!Daemon K} : Prop := {
  sleep_lasts d k : monotonic k + d * SEC ≤ monotonic (sleep_secs d k);
  run_time p args k : monotonic k ≤ monotonic (run p args k).2
}.

Section Docker.
Context {K : Type} `{!Daemon K} `{!DockerLaws K}.
Implicit Types (k : K) (name container image : string) (c : Ctr) (m : Table).
Local Abbreviation cts := (containers (K:=K)).

(** ** Commands that leave the table alone *)
Definition quiet (args : list string) : Prop :=
  ∀ m m', (effect args m m' → m' = m) ∧ (failure args m m' → m' = m).
Lemma quiet_run args k : quiet args → cts (docker args k).2 = cts k.
Proof.
  intros Hq. unfold docker. destruct (run "docker" args k) as [[e|o] k'] eqn:Hr; cbn [snd].
  - by eapply docker_lost.
  - apply docker_effect in Hr. destruct (Hq (cts k) (cts k')) as [H1 H2]. destruct (success o); auto.
Qed.
Ltac quietly := intros ??; cbn; auto.

Lemma inspect_keeps container k : cts (docker_inspect container k).2 = cts k.
Proof.
  unfold docker_inspect. pose proof (quiet_run ["inspect"; container] k ltac:(quietly)) as Hq.
  destruct (docker _ k) as [[e|o] k']; cbn in *; [done|]. destruct (success o); cbn; [|done].
  by destruct (from_json _).
Qed.
Lemma start_table name k : cts (docker_start name k).2 = cts k.
Proof.
  unfold docker_start, run_docker_cmd.
  pose proof (timeout_keeps (LIFECYCLE_TIMEOUT_SECS :: "docker" :: ["start"; name]) k) as Ht.
  destruct (run "timeout" _ k) as [[e|o] k']; cbn in *; [done|].
  destruct (success o); cbn; [by rewrite start_keeps|]. by destruct (bool_decide _).
Qed.
Lemma start_returns name k : (docker_start name k).1 ≠ Panic.
Proof.
  unfold docker_start, run_docker_cmd. destruct (run "timeout" _ k) as [[e|o] k']; [done|].
  destruct (success o); [done|]. by destruct (bool_decide _).
Qed.
Lemma pull_keeps image k : cts (docker_pull image k).2 = cts k.
Proof.
  unfold docker_pull, unsupported. assert (∀ k, cts (docker ["pull"; image] k).2 = cts k) as Hp.
  { intros k0. apply quiet_run. quietly. }
  destruct (bool_decide _).
  - specialize (Hp k). by destruct (docker _ k) as [[e|o] k1].
  - pose proof (quiet_run ["manifest"; "inspect"; image] k ltac:(quietly)) as Hm.
    destruct (docker ["manifest"; _; _] k) as [[e|o] k0]; cbn [snd] in Hm; rewrite <- Hm.
    + specialize (Hp k0). by destruct (docker _ k0) as [[e'|o'] k1].
    + destruct (_ && _); [done|]. specialize (Hp k0). by destruct (docker _ k0) as [[e'|o'] k1].
Qed.

(** ** Rebuilding a container *)
Definition set_aside container : string := container +:+ BACKUP_SUFFIX.
Lemma set_aside_ne container : set_aside container ≠ container.
Proof. intros Heq%(f_equal String.length). unfold set_aside in Heq. rewrite length_str_app in Heq. cbn in Heq. lia. Qed.

(** The container, or what it is rebuilt as, under its name; or the container
    under the name it is set aside by. *)
Definition survives container c (new : list string) m : Prop :=
  m !! container = Some c ∨ m !! set_aside container = Some c ∨ m !! container = Some (made new).
Definition rebuilt container c (new : list string) m m' (r : res string string) : Prop :=
  match r with
  | Ok _ => m' !! container = Some (made new)
  | Err _ => survives container c new m'
  | Panic => False
  end ∧ ∀ n, n ≠ container → n ≠ set_aside container → m' !! n = m !! n.

Lemma docker_table args k :
  match (docker args k).1 with
  | inl _ => cts (docker args k).2 = cts k
  | inr o => if success o then effect args (cts k) (cts (docker args k).2) else failure args (cts k) (cts (docker args k).2)
  end.
Proof.
  unfold docker. destruct (run "docker" args k) as [[e|o] k'] eqn:Hr; cbn.
  - by eapply docker_lost.
  - by apply docker_effect.
Qed.
Lemma restart_keeps (b : bool) n k : cts (if b then (docker ["start"; n] k).2 else k) = cts k.
Proof. destruct b; [|done]. apply quiet_run. quietly. Qed.
Lemma stop_keeps container c k :
  cts k !! container = Some c → auto_remove c = false → cts (docker ["stop"; container] k).2 = cts k.
Proof.
  intros Hc Ha. pose proof (docker_table ["stop"; container] k) as Ht.
  destruct (docker _ k) as [[e|o] k']; cbn in *; [done|].
  destruct (success o), Ht as [?|(c' & Hc' & Ha' & ?)]; try done; congruence.
Qed.
Lemma rm_table n k (force : bool) :
  let m' := cts (docker (if force then ["rm"; "-f"; n] else ["rm"; n]) k).2 in m' = cts k ∨ m' = delete n (cts k).
Proof.
  pose proof (docker_table (if force then ["rm"; "-f"; n] else ["rm"; n]) k) as Ht.
  destruct force; destruct (docker _ k) as [[e|o] k']; cbn in *; [by left| |by left|];
    destruct (success o); cbn in Ht; auto.
Qed.

Lemma create_args_shape name image (i : Json) : ∃ x l, create_args name image i = "create" :: "--name" :: name :: x :: l.
Proof.
  unfold create_args. cbn zeta. cbn [app]. assert (∀ l : list string, l ≠ [] →
    ∃ x l', "create" :: "--name" :: name :: l = "create" :: "--name" :: name :: x :: l') as Hl.
  { intros [|x l] ?; [done|by exists x, l]. }
  apply Hl. clear Hl. rewrite !(assoc_L (++)). by intros [_ ?]%app_eq_nil.
Qed.
Lemma create_table name image i k :
  let args := create_args name image i in
  match (docker args k).1 with
  | inr o => if success o then created args name (cts k) (cts (docker args k).2) else cts (docker args k).2 = cts k
  | inl _ => cts (docker args k).2 = cts k
  end.
Proof.
  cbn zeta. pose proof (docker_table (create_args name image i) k) as Ht.
  destruct (create_args_shape name image i) as (x & l & Heq). rewrite Heq in *. exact Ht.
Qed.

Section Recreate.
Context (container : string) (c : Ctr) (i : Json) (image : string).
Context (Hname : container_name container i = container).
Local Abbreviation new := (create_args container image i).
Local Abbreviation aside := (set_aside container).
Local Abbreviation rebuilds m := (λ rk, rebuilt container c new m (containers (K:=K) rk.2) rk.1).

(** What follows once the container is set aside. *)
Definition put_back (running : bool) (o : Output) k : res string string * K :=
  let k := (docker ["rename"; aside; container] k).2 in
  (Err ("Recreate failed (rolled back): " +:+ trim (stderr o)), if running then (docker ["start"; container] k).2 else k).
Definition bring_up (running : bool) k : res string string * K :=
  let k := (docker ["rm"; aside] k).2 in
  let '(started, k) := if running then docker_start container k else (Ok "", k) in
  match started with
  | Ok _ => (Ok ("Container '" +:+ container +:+ "' recreated from edited spec" +:+ (if running then " and started" else "")), k)
  | Err e => (Err e, k)
  | Panic => (Panic, k)
  end.

Context (m : Table) (Hc : m !! container = Some c).
Lemma put_back_rebuilds running o k :
  cts k !! aside = Some c → cts k !! container = None →
  (∀ n, n ≠ container → n ≠ aside → cts k !! n = m !! n) → rebuilds m (put_back running o k).
Proof.
  intros Ha Hn Ho. unfold put_back. cbn [fst snd]. rewrite restart_keeps.
  pose proof (docker_table ["rename"; aside; container] k) as Ht.
  assert (rebuilt container c new m (cts k) (Err "")) as [Hs _] by (split; [right; by left|done]).
  destruct (docker _ k) as [[e|o'] k']; cbn [fst snd] in *; [by rewrite Ht|].
  destruct (success o'); cbn in Ht; [|by rewrite Ht]. destruct Ht as (c' & Hc' & _ & ->). split.
  - left. rewrite lookup_insert_eq. congruence.
  - intros n H1 H2. rewrite lookup_insert_ne, lookup_delete_ne by done. by apply Ho.
Qed.
Lemma bring_up_rebuilds running k :
  cts k !! container = Some (made new) →
  (∀ n, n ≠ container → n ≠ aside → cts k !! n = m !! n) → rebuilds m (bring_up running k).
Proof.
  intros Hn Ho. unfold bring_up. pose proof (rm_table aside k false) as Ht. cbn zeta in Ht.
  set (k1 := (docker _ k).2) in *. assert (cts k1 !! container = Some (made new)) as Hn1.
  { destruct Ht as [-> | ->]; [done|]. rewrite lookup_delete_ne; [done|apply set_aside_ne]. }
  assert (∀ n, n ≠ container → n ≠ aside → cts k1 !! n = m !! n) as Ho1.
  { intros n H1 H2. destruct Ht as [-> | ->]; [by apply Ho|]. rewrite lookup_delete_ne by done. by apply Ho. }
  destruct running; [|done]. pose proof (start_table container k1) as Hs. pose proof (start_returns container k1) as Hp.
  destruct (docker_start container k1) as [[x|e|] k2]; cbn [fst snd] in *; rewrite ?Hs; try done. split; [by right; right|done].
Qed.

Lemma recreate_rebuilds k :
  cts k = m → auto_remove c = false → str_at ["Config"; "Image"] i = Some image →
  rebuilds m (docker_recreate_from_inspect container i k).
Proof.
  intros Hk Ha Hi. unfold docker_recreate_from_inspect. rewrite Hi, Hname. cbv zeta.
  set (running := bool_at _ i). fold aside.
  assert (∀ (e : string) k2, cts k2 = m → rebuilds m (Err e : res string string, k2)) as Hkept.
  { intros e k2 Hk2. cbn. rewrite Hk2. split; [by left|done]. }
  assert (∃ s k1, (if running then docker ["stop"; container] k else (inr (mk_out (Some 0) "" ""), k)) = (s, k1) ∧ cts k1 = m)
    as (s & k1 & -> & Hk1).
  { destruct running; [|by eexists _, _]. pose proof (stop_keeps container c k) as Hs. rewrite Hk in Hs.
    destruct (docker _ k) as [s k1]. exists s, k1. cbn in Hs. auto. }
  destruct s as [e|o]; [by apply Hkept|]. destruct (success o); cbn [negb]; [|by apply Hkept].
  pose proof (rm_table aside k1 true) as Hrm. cbn zeta in Hrm. set (k2 := (docker _ k1).2) in *.
  assert (cts k2 !! container = Some c ∧ ∀ n, n ≠ aside → cts k2 !! n = m !! n) as [Hc2 Ho2].
  { rewrite Hk1 in Hrm. destruct Hrm as [-> | ->]; [done|]. split; [|intros]; rewrite lookup_delete_ne; try done. apply set_aside_ne. }
  clear Hrm. clearbody k2.
  assert (∀ (e : string) k3, cts k3 = cts k2 → rebuilds m (Err e : res string string, k3)) as Hkept2.
  { intros e k3 Hk3. cbn [fst snd]. rewrite Hk3. split; [by left|]. intros n _. apply Ho2. }
  pose proof (docker_table ["rename"; container; aside] k2) as Hr.
  destruct (docker _ k2) as [[e|o'] k3]; cbn [fst snd] in Hr; [by apply Hkept2|].
  destruct (success o'); cbn in Hr; cbn [negb]; [|apply Hkept2; by rewrite restart_keeps].
  destruct Hr as (c' & Hc' & _ & Hk3). assert (c' = c) as -> by congruence.
  assert (∀ n, n ≠ container → n ≠ aside → cts k3 !! n = m !! n) as Ho3.
  { intros n H1 H2. rewrite Hk3, lookup_insert_ne, lookup_delete_ne by done. by apply Ho2. }
  assert (cts k3 !! aside = Some c ∧ cts k3 !! container = None) as [Ha3 Hn3].
  { rewrite Hk3. split; [apply lookup_insert_eq|]. rewrite lookup_insert_ne by apply set_aside_ne. apply lookup_delete_eq. }
  pose proof (create_table container image i k3) as Hn. cbn zeta in Hn.
  destruct (docker _ k3) as [[e|o''] k4]; cbn [fst snd] in Hn.
  { cbn [fst snd]. rewrite Hn. split; [right; by left|done]. }
  destruct (success o''); cbn [negb].
  - destruct Hn as [_ Hk4]. apply (bring_up_rebuilds running k4); rewrite Hk4; [apply lookup_insert_eq|].
    intros n H1 H2. rewrite lookup_insert_ne by done. by apply Ho3.
  - by apply (put_back_rebuilds running o'' k4); rewrite Hn.
Qed.
End Recreate.

(** ** An inspection with another image *)
Lemma field_put key v fs : field key (put_field key v fs) = Some v.
Proof.
  unfold put_field. destruct (existsb _ _) eqn:He.
  - induction fs as [|[k' v'] fs IH]; [done|]. cbn in *. destruct (decide (k' = key)) as [->|Hne].
    + rewrite !bool_decide_true by done. done.
    + rewrite !bool_decide_false in * by done. cbn in *. rewrite ?bool_decide_false by done. auto.
  - induction fs as [|[k' v'] fs IH]; cbn in *; [by rewrite bool_decide_true|].
    apply orb_false_iff in He as [Hk He]. rewrite Hk. auto.
Qed.
Lemma field_put_ne key key' v fs : key' ≠ key → field key' (put_field key v fs) = field key' fs.
Proof.
  intros Hne. unfold put_field. destruct (existsb _ _).
  - induction fs as [|[k' v'] fs IH]; [done|]. cbn. destruct (decide (k' = key)) as [->|Hk].
    + rewrite bool_decide_true by done. cbn. by rewrite bool_decide_false.
    + rewrite bool_decide_false by done. cbn. by rewrite IH.
  - induction fs as [|[k' v'] fs IH]; cbn; [by rewrite bool_decide_false|]. by rewrite IH.
Qed.
(** An inspection that names an image can be given another. *)
Lemma set_image_total image (i : Json) old :
  str_at ["Config"; "Image"] i = Some old →
  ∃ i', set_image image i = Ok i' ∧ str_at ["Config"; "Image"] i' = Some image ∧
        str_at ["Name"] i' = str_at ["Name"] i ∧ pointer ["State"; "Running"] i' = pointer ["State"; "Running"] i.
Proof.
  unfold str_at. destruct i as [| | | | |fs]; try done. cbn [pointer get set_image].
  destruct (field "Config" fs) as [[| | | | |cfg]|] eqn:Hf; try done. intros _. eexists. split; [done|].
  cbn [pointer get]. rewrite field_put. cbn. rewrite field_put, !field_put_ne by done. done.
Qed.

(** Nothing else of it changes. *)
Lemma set_image_pointer image (i i' : Json) old key path :
  str_at ["Config"; "Image"] i = Some old → set_image image i = Ok i' → ["Config"; "Image"] ≠ key :: take 1 path →
  path ≠ [] → pointer (key :: path) i' = pointer (key :: path) i.
Proof.
  unfold str_at. destruct i as [| | | | |fs]; try done. cbn [pointer get set_image].
  destruct (field "Config" fs) as [[| | | | |cfg]|] eqn:Hf; try done. intros _ [= <-] Hne Hp. cbn [get].
  destruct (decide (key = "Config")) as [->|Hk]; [|by rewrite field_put_ne].
  destruct path as [|key' path]; [done|]. rewrite field_put, Hf. cbn. rewrite field_put_ne; [done|]. intros ->. by apply Hne.
Qed.
Lemma create_args_image image (i i' : Json) old name x :
  str_at ["Config"; "Image"] i = Some old → set_image image i = Ok i' → create_args name x i' = create_args name x i.
Proof.
  intros Hi Hs. assert (∀ key path, ["Config"; "Image"] ≠ key :: take 1 path → path ≠ [] →
    pointer (key :: path) i' = pointer (key :: path) i) as Hp by (intros; by eapply set_image_pointer).
  assert (pointer ["Mounts"] i' = pointer ["Mounts"] i) as Hm.
  { destruct i as [| | | | |fs]; try done. cbn [set_image] in Hs. unfold str_at in Hi. cbn [pointer get] in Hi.
    destruct (field "Config" fs) as [[| | | | |cfg]|]; try done. injection Hs as <-. cbn. by rewrite field_put_ne. }
  unfold create_args, restart_policy, memory_limit, cpu_limit, shm_size, volumes, labels, ports, strings_at, array_at, object_at,
    bool_at, str_at, i64_at. by rewrite Hm, !Hp.
Qed.

(** ** The stages of an update *)
Section Update.
Context (container : string) (c : Ctr).
(** An inspection names what it inspects. *)
Context (Hnames : ∀ k i k', docker_inspect container k = (Ok i, k') → container_name container i = container).
Local Abbreviation aside := (set_aside container).

(** What the update found: the inspection, the image to pull, and the id of
    the image it has. *)
Context (start : K).
Record found (i : Json) (target old : string) : Prop := {
  found_inspected : (docker_inspect container start).1 = Ok i;
  found_target : pull_target (default "" (str_at ["Config"; "Image"] i)) i = Some target;
  found_old : old = default "" (str_at ["Image"] i)
}.
Definition left_by (e : ImageUpdateEvent) m m' : Prop :=
  (∀ n, n ≠ container → n ≠ aside → m' !! n = m !! n) ∧
  let now_made i image := Some (made (create_args container image i)) in
  match ev_status e with
  | Completed => match ev_error e with
                 | None => ∃ i target old, found i target old ∧ m' !! container = now_made i target
                 | Some _ => m' = m
                 end
  | RolledBack => ∃ i target old, found i target old ∧ m' !! container = now_made i old
  | Failed => m' !! container = Some c ∨ m' !! aside = Some c ∨
              ∃ i target old image, found i target old ∧ image ∈ [target; old] ∧
                (m' !! container = now_made i image ∨ m' !! aside = now_made i image)
  | _ => False
  end.

Lemma poll_keeps k : cts (poll container k).2 = cts k.
Proof.
  unfold poll. pose proof (quiet_run ["inspect"; "--format"; HEALTH_FORMAT; container] k ltac:(quietly)) as Hq.
  by destruct (docker _ k) as [[e|o] k'].
Qed.
Lemma wait_keeps timeout k : cts (wait_for_healthy container timeout k).2 = cts k.
Proof.
  unfold wait_for_healthy, declared_healthcheck. pose proof (inspect_keeps container k) as Hi.
  destruct (docker_inspect container k) as [i k0]. cbn [snd] in Hi. cbv zeta. rewrite <- Hi. clear Hi.
  set (eff := effective_health_timeout_secs _ _). generalize (monotonic k0 + eff * SEC) as deadline.
  generalize "not yet inspected" as seen, (None : option Z) as since, (rounds eff) as fuel. intros seen since fuel deadline.
  revert seen since k0. induction fuel as [|fuel IH]; intros seen since k0; [done|]. cbn [wait_loop].
  pose proof (poll_keeps k0) as Hp. destruct (poll container k0) as [p k1]. cbn [snd] in Hp. rewrite <- Hp.
  set (passes := match p with Some _ => _ | None => false end). destruct passes; [done|].
  destruct (_ <=? _); [done|]. by rewrite IH, sleep_keeps.
Qed.
Lemma image_id_keeps image k : cts (image_id image k).2 = cts k.
Proof.
  unfold image_id. pose proof (quiet_run ["image"; "inspect"; "--format"; "{{.Id}}"; image] k ltac:(quietly)) as Hq.
  by destruct (docker _ k) as [[e|o] k'].
Qed.
Lemma with_image_rebuilds i image old m c0 k :
  container_name container i = container → str_at ["Config"; "Image"] i = Some old →
  cts k = m → m !! container = Some c0 → auto_remove c0 = false →
  rebuilt container c0 (create_args container image i) m (cts (recreate_with_image i container image k).2)
    (recreate_with_image i container image k).1.
Proof.
  intros Hn Hi Hk Hc Ha. unfold recreate_with_image. destruct (set_image_total image i old Hi) as (i' & Hs & Hi' & Hn' & _).
  rewrite Hs, <- (create_args_image image i i' old container image Hi Hs).
  eapply recreate_rebuilds; try done. unfold container_name in *. by rewrite Hn'.
Qed.

Definition same_elsewhere m m' : Prop := ∀ n, n ≠ container → n ≠ aside → m' !! n = m !! n.
Lemma settle_left p i target old e m k x l k' :
  found i target old → container_name container i = container → is_Some (str_at ["Config"; "Image"] i) →
  ev_error e = None → old_digest e = old →
  cts k !! container = Some (made (create_args container target i)) → same_elsewhere m (cts k) →
  settle p container i e k = (Returned x, l, k') → left_by x m (cts k').
Proof.
  intros Hf Hn [image Hi] He Hd Hc Ho. unfold settle. destruct (health_check p); cbn [negb].
  2:{ intros [= <- <- <-]. split; [done|]. cbn. rewrite He. by exists i, target, old. }
  pose proof (wait_keeps (health_check_timeout_secs p) k) as Hw.
  destruct (wait_for_healthy container _ k) as [[[u|why|]|] k1]; cbn [snd] in Hw; try done.
  { intros [= <- _ <-]. split; [by rewrite Hw|]. cbn. rewrite He, Hw. by exists i, target, old. }
  destruct (auto_rollback p); cbn [negb].
  2:{ intros [= <- _ <-]. split; [by rewrite Hw|]. cbn. right; right. exists i, target, old, target. rewrite Hw. set_solver. }
  destruct (with_image_rebuilds i old image (cts k1) (made (create_args container target i)) k1) as [Hr Hs];
    try done; [by rewrite Hw|]. cbn [old_digest setter set_ev_error set_ev_status]. rewrite Hd.
  destruct (recreate_with_image _ _ _ k1) as [[u|why'|] k2] eqn:Hrec; cbn [fst snd] in Hr, Hs.
  - intros [= <- _ <-]. split; [intros n H1 H2; rewrite Hs by done; rewrite Hw; by apply Ho|]. cbn. by exists i, target, old.
  - intros [= <- _ <-]. split; [intros n H1 H2; rewrite Hs by done; rewrite Hw; by apply Ho|]. cbn. right; right.
    destruct Hr as [Hr|[Hr|Hr]]; [exists i, target, old, target|exists i, target, old, target|exists i, target, old, old];
      (split; [done|]; split; [set_solver|auto]).
  - done.
Qed.

Definition reached (st : ImageUpdateStatus) (l : list ImageUpdateEvent) : Prop := ∃ e, e ∈ l ∧ ev_status e = st.
Lemma swap_left p i image target e k x l k' :
  found i target (old_digest e) → container_name container i = container →
  str_at ["Config"; "Image"] i = Some image → ev_error e = None →
  cts k !! container = Some c → auto_remove c = false →
  swap p container i image target e k = (Returned x, l, k') →
  left_by x (cts k) (cts k') ∧ (cts k' = cts k ∨ reached Recreating l).
Proof.
  intros Hf Hn Hi He Hc Ha. unfold swap. pose proof (pull_keeps target k) as Hp.
  assert (∀ y k1, cts k1 = cts k → ev_status y = Failed → left_by y (cts k) (cts k1)) as Hfailed.
  { intros y k1 -> Hy. split; [done|]. rewrite Hy. by left. }
  destruct (docker_pull target k) as [[u|why|] k1]; cbn [snd] in Hp; [|intros [= <- _ <-]; auto|done].
  pose proof (image_id_keeps target k1) as Hq. destruct (image_id target k1) as [new_id k2]. cbn [snd] in Hq.
  destruct (_ && _).
  { intros [= <- _ <-]. rewrite Hq, Hp. split; [|by left]. split; [done|]. done. }
  assert (rebuilt container c (create_args container target i) (cts k)
    (cts (if bool_decide (target = image) then docker_recreate_from_inspect container i k2
          else recreate_with_image i container target k2).2)
    (if bool_decide (target = image) then docker_recreate_from_inspect container i k2
     else recreate_with_image i container target k2).1) as (Hr & Ho).
  { rewrite <- Hp, <- Hq in Hc |- *. case_bool_decide as Heq.
    - subst. by eapply recreate_rebuilds.
    - by eapply with_image_rebuilds. }
  destruct (if bool_decide _ then _ else _) as [[u'|why|] k3]; cbn [fst snd] in Hr, Ho.
  - set (e3 := e <| ev_status := Pulling |> <| new_digest := new_id |> <| ev_status := Recreating |>).
    destruct (settle p container i e3 k3) as [[y l3] k4] eqn:Hs. intros Heq. cbn in Heq. injection Heq as Hy Hl Hk. subst.
    split; [|right; exists e3; split; [set_solver|done]].
    by eapply (settle_left p i target (old_digest e) e3 (cts k) k3 x l3 k').
  - intros [= <- <- <-]. split; [|right; eexists; split; [by right; left|done]]. split; [done|]. cbn.
    destruct Hr as [Hr|[Hr|Hr]]; [by left|by right; left|right; right].
    exists i, target, (old_digest e), target. set_solver.
  - done.
Qed.
Lemma update_left g cfg k x l k' :
  g_container g = container → k = start → cts k !! container = Some c → auto_remove c = false →
  run_update g cfg k = (Returned x, l, k') → left_by x (cts k) (cts k') ∧ (cts k' = cts k ∨ reached Recreating l).
Proof.
  intros Hg Hstart Hc Ha. unfold run_update. rewrite Hg. cbn zeta.
  assert (∀ y k1, cts k1 = cts k → ev_status y = Failed → left_by y (cts k) (cts k1) ∧ (cts k1 = cts k ∨ reached Recreating l)) as Hfailed.
  { intros y k1 Hk1 Hy. split; [|by left]. split; rewrite Hk1; [done|]. rewrite Hy. by left. }
  destruct (is_passive _); [intros [= <- <- <-]; by apply Hfailed|].
  pose proof (inspect_keeps container k) as Hk1. destruct (docker_inspect container k) as [[i|why|] k1] eqn:Hi; cbn [snd] in Hk1;
    [|intros [= <- <- <-]; by apply Hfailed|done].
  case_bool_decide as Hne; [intros [= <- <- <-]; by apply Hfailed|].
  destruct (pull_target _ i) as [target|] eqn:Ht; [|intros [= <- <- <-]; by apply Hfailed].
  assert (str_at ["Config"; "Image"] i = Some (default "" (str_at ["Config"; "Image"] i))) as Himg.
  { destruct (str_at _ i); [done|by destruct Hne]. }
  assert (found i target (default "" (str_at ["Image"] i))) as Hf by (split; [by rewrite <- Hstart, Hi|done..]).
  set (image := default "" (str_at ["Config"; "Image"] i)) in *. unfold backed_up. set (e := _ <| ev_image := target |>).
  assert (∀ e1 k2 l1, ev_error e1 = None → old_digest e1 = default "" (str_at ["Image"] i) → cts k2 = cts k →
    (let '(y, l', k) := swap (policy_for cfg container) container i image target e1 k2 in (y, l1 ++ l', k)) = (Returned x, l, k') →
    left_by x (cts k) (cts k') ∧ (cts k' = cts k ∨ reached Recreating l)) as Hswap.
  { intros e1 k2 l1 He1 Hi1 Hk2. rewrite <- Hi1 in Hf. destruct (swap _ _ i image target e1 k2) as [[y l'] k3] eqn:Hs. intros [= -> <- <-].
    pose proof (swap_left (policy_for cfg container) i image target e1 k2 x l' k3 Hf (Hnames _ _ _ Hi) Himg He1) as Hl. rewrite Hk2 in Hl.
    destruct (Hl Hc Ha Hs) as [H1 H2].
    split; [done|]. destruct H2 as [H2|(z & Hz & Hst)]; [by left|right; exists z; split; [set_solver|done]]. }
  destruct (backup_before_update _); cbn [negb]; [|by apply Hswap].
  match goal with |- context [backup_docker ?n ?ex ?b k1] => pose proof (backup_keeps n ex b k1) as Hb;
    destruct (backup_docker n ex b k1) as [[why|path] k2] end; cbn [snd] in Hb; [|apply Hswap; [done..|congruence]].
  intros [= <- <- <-]. apply Hfailed; [congruence|done].
Qed.
End Update.
End Docker.

(** ** An update ends *)
Section Ends.
Context {K : Type} `{!Daemon K} `{!ClockLaws K}.
Implicit Types (k : K) (container : string) (e : ImageUpdateEvent).

Lemma wait_loop_ends container effective deadline fuel since seen k :
  deadline ≤ monotonic k + Z.of_nat fuel * SEC →
  (wait_loop container effective deadline (S fuel) since seen k).1 ≠ None.
Proof.
  revert since seen k. induction fuel as [|fuel IH]; intros since seen k Hd; cbn [wait_loop].
  all: pose proof (run_time "docker" ["inspect"; "--format"; HEALTH_FORMAT; container] k) as Ht.
  all: assert (monotonic k ≤ monotonic (poll container k).2) as Hp by
    (unfold poll, docker; destruct (run _ _ k) as [[?|?] ?]; done).
  all: destruct (poll container k) as [p k1]; cbn [snd] in Hp.
  all: set (passes := match p with Some _ => _ | None => false end); destruct passes; [done|].
  all: destruct (Z.leb_spec deadline (monotonic k1)); [done|].
  - unfold SEC in *. lia.
  - apply IH. pose proof (sleep_lasts 1 k1). unfold SEC in *. lia.
Qed.
Lemma effective_pos timeout h : 5 ≤ effective_health_timeout_secs timeout h.
Proof. unfold effective_health_timeout_secs. destruct (h ≫= _); lia. Qed.
Lemma wait_ends container timeout k : (wait_for_healthy container timeout k).1 ≠ None.
Proof.
  unfold wait_for_healthy. destruct (declared_healthcheck container k) as [h k1]. cbv zeta.
  apply wait_loop_ends. pose proof (effective_pos timeout h). unfold SEC in *. lia.
Qed.
Lemma wait_no_panic container timeout k : (wait_for_healthy container timeout k).1 ≠ Some Panic.
Proof.
  unfold wait_for_healthy. destruct (declared_healthcheck container k) as [h k1]. cbv zeta.
  generalize (monotonic k1 + effective_health_timeout_secs timeout h * SEC) as deadline.
  generalize "not yet inspected" as seen, (None : option Z) as since, (rounds (effective_health_timeout_secs timeout h)) as fuel.
  intros seen since fuel deadline. revert seen since k1. induction fuel as [|fuel IH]; intros seen since k1; [done|].
  cbn [wait_loop]. destruct (poll container k1) as [p k2].
  set (passes := match p with Some _ => _ | None => false end). destruct passes; [done|]. destruct (_ <=? _); [done|]. apply IH.
Qed.
Lemma recreate_no_panic container i k : (docker_recreate_from_inspect container i k).1 ≠ Panic.
Proof.
  unfold docker_recreate_from_inspect. destruct (str_at _ i); [|done]. cbv zeta.
  destruct (if bool_at _ i then _ else _) as [[?|o] k1]; [done|]. destruct (success o); cbn [negb]; [|done].
  destruct (docker ["rename"; _; _] _) as [[?|o1] k2]; [done|]. destruct (success o1); cbn [negb]; [|done].
  destruct (docker (create_args _ _ _) _) as [[?|o2] k3]; [done|]. destruct (success o2); cbn [negb]; [|done].
  destruct (bool_at _ i); [|done]. pose proof (start_returns (container_name container i) (docker ["rm"; container_name container i +:+ BACKUP_SUFFIX] k3).2) as Hs.
  by destruct (docker_start _ _) as [[?|?|] ?].
Qed.
Lemma with_image_no_panic i container image old k :
  str_at ["Config"; "Image"] i = Some old → (recreate_with_image i container image k).1 ≠ Panic.
Proof.
  intros Hi. unfold recreate_with_image. destruct (set_image_total image i old Hi) as (i' & -> & _). apply recreate_no_panic.
Qed.

(** The run of a claim returns a final event of that claim, and so are the
    events it publishes. *)
Context (g : UpdateGuard).
Definition belongs e : Prop := ev_id e = g_event_id g ∧ ev_container e = g_container g.
Definition final (st : ImageUpdateStatus) : Prop := st = Completed ∨ st = RolledBack ∨ st = Failed.
Definition concludes (r : Ending * list ImageUpdateEvent * K) : Prop :=
  ∃ e l k, r = (Returned e, l, k) ∧ belongs e ∧ final (ev_status e) ∧ Forall belongs l.
Lemma returns_concludes e k : belongs e → final (ev_status e) → concludes (returns e k).
Proof. intros. by exists e, [], k. Qed.
Lemma publishing_concludes e r : belongs e → concludes r → concludes (publishing e r).
Proof. intros He (x & l & k & -> & ? & ? & ?). exists x, (e :: l), k. split_and!; try done. by constructor. Qed.
Lemma failed_concludes why e k : belongs e → concludes (returns (failed why e) k).
Proof. intros. apply returns_concludes; [done|by right; right]. Qed.
Lemma final_failed : final Failed. Proof. by right; right. Qed.
Lemma final_completed : final Completed. Proof. by left. Qed.
Lemma final_rolled_back : final RolledBack. Proof. by right; left. Qed.

Lemma settle_concludes p container i old e k :
  str_at ["Config"; "Image"] i = Some old → belongs e → concludes (settle p container i e k).
Proof.
  intros Hi He. unfold settle. destruct (health_check p); cbn [negb]; [|by apply returns_concludes, final_completed].
  apply publishing_concludes; [done|]. pose proof (wait_ends container (health_check_timeout_secs p) k).
  pose proof (wait_no_panic container (health_check_timeout_secs p) k).
  destruct (wait_for_healthy container _ k) as [[[u|why|]|] k1]; cbn [fst] in *; try done;
    [by apply returns_concludes, final_completed|].
  destruct (auto_rollback p); cbn [negb]; [|by apply failed_concludes].
  apply publishing_concludes; [done|]. set (e2 := _ <| ev_error := _ |>).
  pose proof (with_image_no_panic i container (old_digest e2) old k1 Hi).
  destruct (recreate_with_image _ _ _ k1) as [[u|why'|] k2]; cbn [fst] in *; try done;
    [by apply returns_concludes, final_rolled_back|by apply failed_concludes].
Qed.
Lemma docker_pull_no_panic image k : (docker_pull image k).1 ≠ Panic.
Proof.
  unfold docker_pull. destruct (unsupported image k) as [refused k1]. destruct refused; [done|].
  destruct (docker _ k1) as [[?|o] ?]; [done|]. by destruct (success o).
Qed.
Lemma swap_concludes p container i image target e k :
  str_at ["Config"; "Image"] i = Some image → belongs e → concludes (swap p container i image target e k).
Proof.
  intros Hi He. unfold swap. apply publishing_concludes; [done|]. pose proof (docker_pull_no_panic target k).
  destruct (docker_pull target k) as [[u|why|] k1]; cbn [fst] in *; [|by apply failed_concludes|done].
  destruct (image_id target k1) as [new_id k2]. destruct (_ && _); [by apply returns_concludes, final_completed|].
  apply publishing_concludes; [done|]. pose proof (recreate_no_panic container i k2).
  pose proof (with_image_no_panic i container target image k2 Hi).
  destruct (bool_decide _).
  - destruct (docker_recreate_from_inspect container i k2) as [[?|?|] k3]; cbn [fst] in *; [|by apply failed_concludes|done].
    by eapply settle_concludes.
  - destruct (recreate_with_image i container target k2) as [[?|?|] k3]; cbn [fst] in *; [|by apply failed_concludes|done].
    by eapply settle_concludes.
Qed.
Lemma inspect_no_panic container k : (docker_inspect container k).1 ≠ Panic.
Proof.
  unfold docker_inspect. destruct (docker _ k) as [[?|o] ?]; [done|]. destruct (success o); [|done]. by destruct (from_json _).
Qed.
Lemma run_concludes cfg k : concludes (run_update g cfg k).
Proof.
  unfold run_update. cbn zeta. set (container := g_container g).
  assert (∀ ts, belongs (blank_event (g_event_id g) container ts UpdateAvailable None)) as Hb by done.
  destruct (is_passive _); [by apply failed_concludes|]. pose proof (inspect_no_panic container k).
  destruct (docker_inspect container k) as [[i|why|] k1]; cbn [fst] in *; [|by apply failed_concludes|done].
  case_bool_decide as Hne; [by apply failed_concludes|]. destruct (pull_target _ i) as [target|]; [|by apply failed_concludes].
  assert (str_at ["Config"; "Image"] i = Some (default "" (str_at ["Config"; "Image"] i))) as Himg.
  { destruct (str_at _ i); [done|by destruct Hne]. }
  unfold backed_up. destruct (backup_before_update _); cbn [negb].
  - destruct (backup_docker _ _ _ k1) as [[why|path] k2].
    + eexists _, _, _. split; [done|]. split_and!; [done|apply final_failed|by repeat constructor].
    + destruct (swap_concludes (policy_for cfg container) container i _ target
        ((blank_event (g_event_id g) container (rfc3339 (utc k)) UpdateAvailable None
          <| ev_image := default "" (str_at ["Config"; "Image"] i) |> <| old_digest := default "" (str_at ["Image"] i) |>
          <| ev_image := target |>) <| ev_status := BackingUp |> <| backup_id := file_name path |>) k2 Himg) as (x & l & k3 & -> & ?); [done|].
      eexists _, _, _. split; [done|]. split_and!; [naive_solver..|]. constructor; [done|naive_solver].
  - match goal with |- context [swap ?p ?ct i ?im target ?e k1] =>
      destruct (swap_concludes p ct i im target e k1 Himg) as (x & l & k3 & -> & ?) end; [done|].
    by eexists _, _, _.
Qed.
End Ends.
