(* ===== verification/ImageProps.v ===== *)
(** * Image watcher: an update ends, and what it leaves

    Every update ends with a final event, and accounts for the container it
    was to replace; and a docker on which witnesses and faults are run. *)
From stdpp Require Import pretty.
From S2P Require Import Prelude F64 Net AgentGate ImageWatch ImageUpdate ImageInv.

(** ** A docker

    Every container runs nginx:1 and has the inspection [shape]; one that was
    created with certain arguments may not start, or not become healthy.  The
    registry has a newer image. *)
Module Toy.
Record World := mk_world { table : gmap string Ctr; clock : Z }.
Section Toy.
Context (shape : Json) (starts healthy : list string → bool).
Implicit Types (w : World) (args : list string).

Definition says (out : string) w : (string + Output) * World := (inr (mk_out (Some 0) out ""), w).
Definition refuses (err : string) w : (string + Output) * World := (inr (mk_out (Some 1) "" err), w).
Definition with_table (m : gmap string Ctr) w : World := mk_world m (clock w).
Definition made_so (p : list string → bool) (n : string) w : bool :=
  match table w !! n with Some c => p (made_with c) | None => false end.
Definition exec args w : (string + Output) * World :=
  match args with
  | [cmd; n] =>
      if String.eqb cmd "rm" then says n (with_table (delete n (table w)) w) else
      if String.eqb cmd "stop" then
        says n (match table w !! n with
                | Some c => if auto_remove c then with_table (delete n (table w)) w else w
                | None => w
                end)
      else match table w !! n with
           | Some _ => says "shape" w
           | None => if String.eqb cmd "inspect" then refuses "no such object" w else says "" w
           end
  | [cmd; a; b] =>
      if String.eqb cmd "rename" then
        match table w !! a, table w !! b with
        | Some c, None => says b (with_table (<[b := c]> (delete a (table w))) w)
        | _, _ => refuses "cannot rename" w
        end
      else if String.eqb cmd "rm" && String.eqb a "-f" then says b (with_table (delete b (table w)) w)
      else says (join (String LF "") (map_to_list (table w)).*1) w
  | cmd :: a :: n :: rest =>
      if String.eqb cmd "create" && String.eqb a "--name" then
        match table w !! n with
        | None => says n (with_table (<[n := made args]> (table w)) w)
        | Some _ => refuses "name in use" w
        end
      else if String.eqb cmd "image" then
        says (if bool_decide (head rest = Some "{{.Id}}") then "id of " +:+ default "" (last rest) else "digests") w
      else if String.eqb n "{{.Config.Image}}" then says "nginx:1" w
      else says (if made_so healthy (default "" (last rest)) w then "running|healthy" else "running|starting") w
  | _ => says "" w
  end.
#[global] Instance daemon : Daemon World := {|
  run p args w :=
    if String.eqb p "docker" then exec args w
    else if made_so starts (default "" (last args)) w then says "" w else refuses "cannot start" w;
  http r w := (inr (mk_response 200 (λ name, if String.eqb name "docker-content-digest" then Some "sha256:new" else None) "token"), w);
  utc := clock; monotonic := clock; sleep_secs d w := mk_world (table w) (clock w + Z.max 0 d * SEC);
  rfc3339 := pretty; parse_rfc3339 s := None;
  from_json s :=
    if String.eqb s "shape" then Some shape else if String.eqb s "digests" then Some (JArr [JStr "nginx@sha256:old"])
    else if String.eqb s "token" then Some (JObj [("token", JStr "t")]) else None;
  url_encode s := s; arch := "x86_64"; wolfnet_override n w := None; after_start n w := w;
  backup_docker n ex b w := (inr ("/var/backups/" +:+ n), w)
|}.

Lemma exec_effect args w o w' :
  exec args w = (inr o, w') → if success o then effect args (table w) (table w') else failure args (table w) (table w').
Proof.
  destruct args as [|cmd [|a [|b rest]]]; [by intros [= <- <-]..| |]; cbn [exec effect failure].
  - destruct (String.eqb cmd "rm"); [by intros [= <- <-]|]. destruct (String.eqb cmd "stop").
    + intros [= <- <-]. cbn. destruct (table w !! a) as [c|] eqn:Hc; [|by left].
      destruct (auto_remove c) eqn:Ha; [|by left]. right. by exists c.
    + destruct (table w !! a); [by intros [= <- <-]|]. destruct (String.eqb cmd "inspect"); by intros [= <- <-].
  - destruct rest as [|x rest].
    + destruct (String.eqb_spec cmd "rename") as [->|].
      * destruct (table w !! a) as [c|] eqn:Ha; [destruct (table w !! b) eqn:Hb|]; intros [= <- <-]; try done. by exists c.
      * destruct (_ && _); by intros [= <- <-].
    + destruct (_ && _).
      * destruct (table w !! b) eqn:Hb; by intros [= <- <-].
      * destruct (String.eqb cmd "image"); [by intros [= <- <-]|]. destruct (String.eqb b _); by intros [= <- <-].
Qed.
#[global] Instance docker_laws : DockerLaws World.
Proof.
  refine {| containers := table |}.
  - apply exec_effect.
  - intros args k e k'. cbn. assert (∀ a w, ∃ o w', exec a w = (inr o, w')) as Hx.
    { intros a w. unfold exec, says, refuses. repeat case_match; eauto. }
    destruct (Hx args k) as (o & w' & ->). done.
  - intros args k. cbn. by destruct (made_so _ _ _).
  - done.
  - done.
  - done.
Defined.
#[global] Instance clock_laws : ClockLaws World.
Proof.
  split.
  - intros d w. cbn. unfold SEC. lia.
  - intros p args w. cbn. assert (∀ a, clock (exec a w).2 = clock w) as Hx.
    { intros a. unfold exec, says, refuses, with_table. repeat case_match; done. }
    destruct (String.eqb p "docker"); [by rewrite Hx|]. by destruct (made_so _ _ _).
Qed.
End Toy.
End Toy.

(** ** A container of that docker *)
Definition web_shape : Json :=
  JObj [("Name", JStr "/web"); ("Image", JStr "id of nginx:1");
        ("Config", JObj [("Image", JStr "nginx:1"); ("Env", JArr [JStr "A=1"])]);
        ("HostConfig", JObj [("Binds", JArr [JStr "/srv:/srv"])]); ("State", JObj [("Running", JBool true)])].
Definition web : Ctr := mk_ctr ["create"; "--name"; "web"; "nginx:0"] false.
Definition one_web : Toy.World := Toy.mk_world {["web" := web]} 0.
Definition claim : UpdateGuard := mk_guard "web" "evt-1".
Definition yes (args : list string) : bool := true.
(** Only what runs the image of this id becomes healthy. *)
Definition only_old (args : list string) : bool := bool_decide (last args = Some "old").
Definition old_shape : Json :=
  JObj [("Name", JStr "/web"); ("Image", JStr "old"); ("Config", JObj [("Image", JStr "nginx:1")]);
        ("HostConfig", JObj []); ("State", JObj [("Running", JBool true)])].
Lemma toy_names shape starts healthy name :
  str_at ["Name"] shape = Some ("/" +:+ name) → trim_slashes name = name →
  ∀ (k : Toy.World) i k', @docker_inspect _ (Toy.daemon shape starts healthy) name k = (Ok i, k') → container_name name i = name.
Proof.
  intros Hs Ht k i k'. unfold docker_inspect, docker, run. cbn [Toy.daemon]. change (String.eqb "docker" "docker") with true.
  cbn [Toy.exec]. change (String.eqb "inspect" "rm") with false. change (String.eqb "inspect" "stop") with false. cbn iota.
  destruct (Toy.table k !! name); [|by intros [= ?]]. cbn. destruct shape as [| | | | |fs]; try done. intros [= <- <-].
  unfold str_at, pointer in Hs. unfold container_name. rewrite Hs. exact Ht.
Qed.

(** ** Theorems *)
Section Theorems.
Context {K : Type} `{!Daemon K}.

(** Every update of a container ends, whatever docker, the registry, the
    backup and the health check answer: its worker neither panics nor waits
    for ever, and returns an event with the id the update was announced under,
    of the container, whose status is Completed, RolledBack or Failed; and
    every stage published on the way carries that id. *)
Theorem update_ends `{!ClockLaws K} g cfg (k : K) :
  ∃ e l k', run_update g cfg k = (Returned e, l, k') ∧
    ev_id e = g_event_id g ∧ ev_container e = g_container g ∧
    (ev_status e = Completed ∨ ev_status e = RolledBack ∨ ev_status e = Failed) ∧
    Forall (λ s, ev_id s = g_event_id g ∧ ev_container s = g_container g) l.
Proof.
  destruct (run_concludes g cfg k) as (e & l & k' & Hr & [Hi Hc] & Hf & Hl). by exists e, l, k'.
Qed.

End Theorems.

(** ** Witnesses *)
Definition ending_of {K} (r : Ending * list ImageUpdateEvent * K) : option (ImageUpdateStatus * option string) :=
  match r.1.1 with Returned e => Some (ev_status e, ev_error e) | _ => None end.
Lemma update_ends_witness :
  let D := Toy.daemon old_shape yes only_old in
  ending_of (run_update claim default_config one_web)
  = Some (RolledBack, Some "health check failed: not healthy after 60s (last seen: state running, health starting) — rolled back to previous image") ∧
  ∃ e l k', run_update claim default_config one_web = (Returned e, l, k') ∧
    ev_id e = g_event_id claim ∧ ev_container e = g_container claim ∧
    (ev_status e = Completed ∨ ev_status e = RolledBack ∨ ev_status e = Failed) ∧
    Forall (λ s, ev_id s = g_event_id claim ∧ ev_container s = g_container claim) l.
Proof.
  intros D. split; [vm_compute; reflexivity|].
  exact (update_ends (K:=Toy.World) (ClockLaws0:=Toy.clock_laws old_shape yes only_old) claim default_config one_web).
Defined.

