(* ===== verification/ImageTiming.v ===== *)
(** * Image watcher: when a node checks, and what a sweep may update

    The slots a node checks in, the maintenance window they can miss, and the
    containers a sweep may update. *)
From stdpp Require Import pretty.
From S2P Require Import Prelude Net Digits WorkflowHost Cluster AgentGate Cron CronProps ImageWatch ImageUpdate ImageInv ImageProps ImageNode.

(** ** Slots *)
Lemma offset_range period slot : 1 ≤ period < 2 ^ 63 → 0 ≤ slot < 24 → 0 ≤ stagger_offset_within period slot < period.
Proof.
  intros Hp Hs. unfold stagger_offset_within, STAGGER_SLOTS. cbv zeta.
  pose proof (Z.div_mod period 24 ltac:(lia)). pose proof (Z.mod_pos_bound period 24 ltac:(lia)).
  destruct (Z.eqb_spec (period / 24) 0) as [Hz|Hz].
  - rewrite wrap_small by (unfold in_width; nia). split; [apply Z.div_pos; nia|]. apply Z.div_lt_upper_bound; nia.
  - set (w := period / 24) in *. assert (0 ≤ w) by (apply Z.div_pos; lia).
    assert (0 ≤ slot * w ≤ 23 * w) by nia. rewrite wrap_small; [lia|]. unfold in_width. lia.
Qed.

Lemma next_boundary period now offset :
  1 ≤ period → 0 ≤ offset ≤ now → now + period < 2 ^ 64 →
  secs_until_next_slot_for period now offset = period - (now - offset) mod period.
Proof.
  intros Hp Ho Hn. unfold secs_until_next_slot_for. cbv zeta. rewrite (Z.max_r 1 period) by lia.
  pose proof (Z.div_mod (now - offset) period ltac:(lia)). pose proof (Z.mod_pos_bound (now - offset) period ltac:(lia)).
  assert (0 ≤ (now - offset) / period) by (apply Z.div_pos; lia).
  rewrite (wrap_small 64 (now - offset)) by (unfold in_width; lia).
  set (q := (now - offset) / period) in *. set (r := (now - offset) mod period) in *.
  assert (0 ≤ q * period) by nia.
  assert ((q + 1) * period = now - offset - r + period) as Hq by lia.
  rewrite (wrap_small 64 (q + 1)) by (unfold in_width; nia).
  rewrite Hq, (wrap_small 64 (now - offset - r + period)) by (unfold in_width; lia).
  rewrite wrap_small by (unfold in_width; lia). unfold sat_sub. lia.
Qed.

(** The wait until a node's next check is at least a second and at most a
    period, and ends on the node's slot, the first time after now that lies on
    it; for every period and every one of the 24 slots, as long as the
    addition of now and the period fits 64 bits. *)
Theorem next_slot period now slot :
  1 ≤ period → 0 ≤ slot < 24 → period ≤ now → now + period < 2 ^ 64 → 
  let offset := stagger_offset_within period slot in
  let wait := secs_until_next_slot_for period now offset in
  0 ≤ offset < period ∧ 1 ≤ wait ≤ period ∧ (now + wait) mod period = offset ∧
  ∀ t, now < t < now + wait → t mod period ≠ offset.
Proof.
  intros Hp Hs Hn Hw. cbv zeta. pose proof (offset_range period slot ltac:(lia) Hs) as Ho.
  set (offset := stagger_offset_within period slot) in *. rewrite next_boundary by lia.
  pose proof (Z.div_mod (now - offset) period ltac:(lia)) as Hd. pose proof (Z.mod_pos_bound (now - offset) period ltac:(lia)).
  set (q := (now - offset) / period) in *. set (r := (now - offset) mod period) in *.
  split_and!; try lia.
  - replace (now + (period - r)) with (offset + (q + 1) * period) by lia. rewrite Z.mod_add by lia. by apply Z.mod_small.
  - intros t Ht Heq. pose proof (Z.div_mod t period ltac:(lia)) as Ht'. rewrite Heq in Ht'.
    assert (q < t / period < q + 1) by nia. lia.
Qed.
Lemma next_slot_witness :
  1 <= 21600 /\ 0 <= 5 < 24 /\ (let offset := stagger_offset_within 21600 5 in
  let wait := secs_until_next_slot_for 21600 777600 offset in
  0 <= offset < 21600 /\ 1 <= wait <= 21600 /\ (777600 + wait) mod 21600 = offset /\
  forall t, 777600 < t < 777600 + wait -> t mod 21600 <> offset).
Proof. split; [lia|]. split; [lia|]. apply (next_slot 21600 777600 5); lia. Defined.

(** ** The maintenance window *)
Class UtcLaws `{Calendar} : Prop := {
  utc_minute t : cal_minute t = t / (60 * SEC) mod 60;
  utc_hour t : cal_hour t = t / (3600 * SEC) mod 24
}.
Lemma daily_at_four `{Calendar} t : cron_matches "0 4 * * *" t = (cal_minute t =? 0) && (cal_hour t =? 4).
Proof.
  unfold cron_matches. change (split_whitespace "0 4 * * *") with ["0"; "4"; "*"; "*"; "*"]. cbv iota beta.
  assert (∀ v lo hi, field_matches "*" v lo hi = true) as Hs by done. rewrite !Hs, !andb_true_r.
  change (field_matches "0" (cal_minute t) 0 59) with ((cal_minute t =? 0) || false).
  change (field_matches "4" (cal_hour t) 0 23) with ((cal_hour t =? 4) || false). by rewrite !orb_false_r.
Qed.
Lemma any_minute_true `{Calendar} cron now n offset :
  any_minute cron now n offset = true → ∃ j, offset ≤ j < offset + Z.of_nat n ∧ cron_matches cron (now - j * 60 * SEC) = true.
Proof.
  revert offset. induction n as [|n IH]; intros offset; [done|]. cbn [any_minute]. intros [Hm|Ha]%orb_true_iff.
  - exists offset. split; [lia|done].
  - destruct (IH _ Ha) as (j & ? & ?). exists j. split; [lia|done].
Qed.

(** A node with the default interval of six hours and a maintenance window
    of an hour, daily at four, applies nothing on its own unless the WolfNet
    address or host name gives it one of the slots 16 to 19: whenever its
    sweeps start at the end of the wait for its slot and check all containers
    within a quarter of an hour, the window is closed. *)
Theorem window_missed `{UtcLaws} c now slot late :
  schedule_cron c = Some "0 4 * * *" → schedule_window_minutes c = 60 →
  min_effective_interval_secs c = 21600 →
  0 ≤ slot < 24 → ¬ 16 ≤ slot < 20 → 21600 ≤ now < 2 ^ 63 → 0 ≤ late < 900 * SEC →
  let wait := secs_until_next_slot_for (min_effective_interval_secs c) now
                (stagger_offset_within (min_effective_interval_secs c) slot) in
  auto_apply_window_open c ((now + wait) * SEC + late) = false.
Proof.
  intros Hc Hw Hp Hs Hn Hnow Hlate. cbv zeta. rewrite Hp. unfold auto_apply_window_open. rewrite Hc, Hw.
  change (trim "0 4 * * *") with "0 4 * * *". rewrite bool_decide_false by done.
  destruct (any_minute _ _ _ _) eqn:Ha; [|done]. exfalso.
  destruct (next_slot 21600 now slot) as (_ & _ & Hmod & _); [lia..|].
  assert (stagger_offset_within 21600 slot = slot * 900) as Hoff.
  { unfold stagger_offset_within, STAGGER_SLOTS. change (21600 / 24) with 900. cbv zeta. cbn [Z.eqb].
    apply wrap_small. unfold in_width. lia. }
  rewrite Hoff in *. set (b := now + _) in *.
  apply any_minute_true in Ha as (j & Hj & Hm). change (Z.to_nat (Z.max 1 60)) with 60%nat in Hj.
  rewrite daily_at_four, utc_minute, utc_hour in Hm. bool_props.
  set (t := b * SEC + late - j * 60 * SEC) in *. replace (3600 * SEC) with (60 * SEC * 60) in * by done.
  rewrite <- (Z.div_div t (60 * SEC) 60) in * by (unfold SEC; lia). set (q := t / (60 * SEC)) in *.
  pose proof (Z.div_mod t (60 * SEC) ltac:(done)) as Ht. pose proof (Z.mod_pos_bound t (60 * SEC) ltac:(done)) as Hr.
  pose proof (Z.div_mod q 60 ltac:(done)). pose proof (Z.div_mod (q / 60) 24 ltac:(done)).
  pose proof (Z.div_mod b 21600 ltac:(done)) as Hb. fold q in Ht. rewrite Hmod in Hb.
  assert (q = 1440 * (q / 60 / 24) + 240) as Hq by lia. rewrite Hq in Ht. set (r := t mod (60 * SEC)) in *.
  assert (86400 * (q / 60 / 24) + 13500 < b < 86400 * (q / 60 / 24) + 18000).
  { clearbody r q. unfold t in Ht. clear - Ht Hr Hlate Hj. unfold SEC in *. lia. }
  lia.
Qed.

(** ** What a sweep updates *)
Section Sweep.
Context {K : Type} `{!Daemon K} `{!Node_env K} `{Calendar} `{!ClockLaws K}.
Implicit Types (s : Site K) (c : ImageWatcherConfig) (e : ImageUpdateEvent).

Lemma begun_container name s g s1 : begin_update name s = (Ok g, s1) → g_container g = name.
Proof.
  unfold begin_update, try_begin_update. destruct (in_flight (reg s) !! name) eqn:Hf; [done|].
  destruct (uuid (outside s)) as [id k]. by intros [= <- _].
Qed.
Lemma performed_container name c s e s1 : perform_update_blocking name c s = (Some (Returned e), s1) → ev_container e = name.
Proof.
  unfold perform_update_blocking. destruct (begin_update name s) as [[g|?|] s0] eqn:Hb; [|done..].
  apply begun_container in Hb. unfold perform_update_with_guard.
  destruct (run_concludes g c (outside s0)) as (e' & l & k & -> & [_ He] & _). intros [= <- _]. congruence.
Qed.
Lemma applied_containers c names s events s1 e :
  apply_each c names s = (Some events, s1) → e ∈ events → ev_container e ∈ names.
Proof.
  revert s events s1. induction names as [|name names IH]; intros s events s1; cbn [apply_each]; [intros [= <- _]; set_solver|].
  destruct (perform_update_blocking name c s) as [x s0] eqn:Hp.
  assert (∀ mine s2, (let '(rest, s3) := apply_each c names s2 in (l' ← rest; Some (mine ++ l'), s3)) = (Some events, s1) →
    (∀ y, y ∈ mine → ev_container y = name) → e ∈ events → ev_container e ∈ name :: names) as Hrest.
  { intros mine s2. destruct (apply_each c names s2) as [[rest|] s3] eqn:Hr; [|done]. cbn. intros [= <- <-] Hm [Hi|Hi]%elem_of_app.
    - apply Hm in Hi as ->. by left.
    - right. by eapply IH. }
  destruct x as [[y| |]|]; cbn.
  - intros Ha He. eapply (Hrest [y]); [exact Ha| |done]. intros z ->%list_elem_of_singleton. by eapply performed_container.
  - intros Ha He. eapply (Hrest [_]); [exact Ha| |done]. by intros z ->%list_elem_of_singleton.
  - by destruct (apply_each c names s0).
  - intros Ha He. eapply (Hrest []); [exact Ha| |done]. set_solver.
Qed.

(** A sweep updates a container only if the watcher is enabled, the
    container's own policy (or the default one) is to update automatically,
    the maintenance window was open when the checks were done, and this very
    sweep asked the registry about it and found, without an error, an image
    that differs. *)
Theorem sweep_updates s events s1 e :
  sweep s = (Some events, s1) → e ∈ events →
  let c := load (file s) in
  enabled c = true ∧ policy (policy_for c (ev_container e)) = AutoUpdate ∧
  ∃ results asked k r, check_due_containers c (cache s) (outside s) = (results, asked, k) ∧
    auto_apply_window_open c (utc k) = true ∧ ev_container e ∈ asked ∧
    r ∈ results ∧ ck_container r = ev_container e ∧ update_available r = true ∧ ck_error r = None.
Proof.
  unfold sweep. cbv zeta. set (c := load (file s)). destruct (enabled c); cbn [negb]; [|intros [= <- _]; set_solver].
  destruct (check_due_containers c (cache s) (outside s)) as [[results asked] k] eqn:Hd.
  destruct (auto_apply_window_open c (utc k)) eqn:Hw; cbn [negb]; [|intros [= <- _]; set_solver].
  case_bool_decide; [intros [= <- _]; set_solver|].
  destruct (apply_each c (pending c results asked) _) as [[es|] s2] eqn:Ha; [|done]. intros [= -> _] He.
  apply (applied_containers _ _ _ _ _ _ Ha) in He. unfold pending in He.
  apply elem_of_retain in He as [Hr Hp]. apply list_elem_of_fmap in Hr as (r & Hn & Hr). apply elem_of_retain in Hr as [Hr Hu].
  bool_props. unfold is_auto_apply in *. split; [done|]. split; [by destruct (policy _)|].
  exists results, asked, k, r. by split_and!.
Qed.
End Sweep.

(** ** Witnesses *)
Definition toy_calendar : Calendar :=
  {| cal_minute t := t / (60 * SEC) mod 60; cal_hour t := t / (3600 * SEC) mod 24; cal_day t := 1; cal_month t := 1; cal_weekday t := 0 |}.
Lemma toy_utc : @UtcLaws toy_calendar.
Proof. by split. Qed.
Definition nightly : ImageWatcherConfig :=
  mk_watch true 21600 AutoUpdate ∅ [] (Some "0 4 * * *") 60 1 false 0.
Lemma window_missed_witness :
  let C := toy_calendar in
  ¬ 16 ≤ 3 < 20 ∧
  let wait := secs_until_next_slot_for (min_effective_interval_secs nightly) 1700000000
                (stagger_offset_within (min_effective_interval_secs nightly) 3) in
  auto_apply_window_open nightly ((1700000000 + wait) * SEC + 5 * SEC) = false.
Proof.
  intros C. split; [lia|].
  apply (window_missed (H0:=toy_utc) nightly 1700000000 3 (5 * SEC)); try reflexivity; unfold SEC; lia.
Defined.

#[local] Instance toy_env : Node_env Toy.World := {|
  uuid w := ("1", w); write_failure w := (None, w); node_urls a p path w := [];
  peer_put u c w := (None, w); peer_get u w := (None, w)
|}.
Definition always : ImageWatcherConfig := mk_watch true 21600 AutoUpdate ∅ [] None 60 1 false 0.
Definition site : Site Toy.World := mk_site (Holds always) ∅ (mk_registry ∅ []) one_web false [].
Definition outcome_of (r : option (list ImageUpdateEvent) * Site Toy.World) : option (list (string * ImageUpdateStatus)) :=
  match r.1 with Some es => Some (map (λ e, (ev_container e, ev_status e)) es) | None => None end.
Lemma sweep_updates_witness :
  let D := Toy.daemon old_shape yes yes in let C := toy_calendar in
  ∃ e events s1, sweep site = (Some events, s1) ∧ e ∈ events ∧ ev_container e = "web" ∧ ev_status e = Completed ∧
    policy (policy_for always (ev_container e)) = AutoUpdate.
Proof.
  intros D C. assert (outcome_of (sweep site) = Some [("web", Completed)]) as He
    by (vm_compute; reflexivity).
  destruct (sweep site) as [[events|] s1] eqn:Hs; [|discriminate He]. destruct events as [|e [|]]; try discriminate He.
  injection He as Hc Hst. exists e, [e], s1. split; [reflexivity|]. split; [apply list_elem_of_here|]. split; [exact Hc|]. split; [exact Hst|].
  exact (proj1 (proj2 (sweep_updates (ClockLaws0:=Toy.clock_laws old_shape yes yes) site [e] s1 e Hs (list_elem_of_here e [])))).
Defined.
