(* ===== verification/ImageFleet.v ===== *)
(** * Image watcher: one update at a time, and settings across nodes

    The registry of running updates as an interleaving of its workers, and the
    settings of the nodes of a cluster with the pushes and reconciliations
    that are to make them agree. *)
From stdpp Require Import pretty.
From S2P Require Import Prelude Net WorkflowHost Cluster AgentGate Cron ImageWatch ImageUpdate ImageNode.

(** ** The registry *)
Section Registry.
Implicit Types (r : UpdateRegistry) (g : UpdateGuard) (e : ImageUpdateEvent).
(** The registry, and the workers that hold a claim. *)
Definition Desk : Type := UpdateRegistry * list UpdateGuard.
Inductive desk_step : Desk → Desk → Prop :=
| desk_begin id ts name g r r' ws :
    try_begin_update id ts name r = (Ok g, r') → desk_step (r, ws) (r', g :: ws)
| desk_publish g e r ws : g ∈ ws → ev_id e = g_event_id g → desk_step (r, ws) (publish g e r, ws)
| desk_finish g e r ws ws' : ws ≡ₚ g :: ws' → desk_step (r, ws) (finish g e r, ws')
| desk_abandon g ts r ws ws' : ws ≡ₚ g :: ws' → desk_step (r, ws) (abandon g ts r, ws').

Definition desk_ok (d : Desk) : Prop :=
  NoDup (g_container <$> d.2) ∧
  (∀ g, g ∈ d.2 → ∃ e, in_flight d.1 !! g_container g = Some e ∧ ev_id e = g_event_id g) ∧
  (∀ name, is_Some (in_flight d.1 !! name) → name ∈ g_container <$> d.2) ∧
  (length (finished d.1) ≤ FINISHED_EVENTS_KEPT)%nat.

Lemma push_finished_length e r : (length (finished (push_finished e r)) ≤ FINISHED_EVENTS_KEPT)%nat.
Proof. unfold push_finished. cbn [finished]. rewrite length_drop. lia. Qed.
(** A worker leaves. *)
Lemma leave_ok g r r' ws ws' :
  ws ≡ₚ g :: ws' → in_flight r' = delete (g_container g) (in_flight r) → (length (finished r') ≤ FINISHED_EVENTS_KEPT)%nat →
  desk_ok (r, ws) → desk_ok (r', ws').
Proof.
  intros Hp Hf Hl (Hnd & Hw & Hr & _). cbn [fst snd] in *. rewrite Hp in Hnd. cbn in Hnd. apply NoDup_cons in Hnd as [Hn Hnd].
  split_and!; [done| | |done]; cbn [fst snd]; rewrite Hf.
  - intros g' Hg'. destruct (Hw g') as (e & He & Hid); [rewrite Hp; by right|]. exists e. split; [|done].
    rewrite lookup_delete_ne; [done|]. intros Heq. apply Hn. rewrite Heq. by apply list_elem_of_fmap_2.
  - intros name [e He]. apply lookup_delete_Some in He as [Hne He].
    assert (name ∈ g_container <$> ws) as Hin by (apply Hr; eauto). rewrite Hp in Hin. cbn in Hin. set_solver.
Qed.
Lemma desk_step_ok d d' : desk_step d d' → desk_ok d → desk_ok d'.
Proof.
  intros [id ts name g r r' ws Hb|g e r ws Hg He|g e r ws ws' Hp|g ts r ws ws' Hp] Hok.
  - destruct Hok as (Hnd & Hw & Hr & Hl). cbn [fst snd] in *. unfold try_begin_update in Hb.
    destruct (in_flight r !! name) eqn:Hf; [done|]. injection Hb as <- <-. unfold desk_ok. cbn [fst snd in_flight finished].
    assert (name ∉ g_container <$> ws) as Hnew.
    { intros (g & -> & Hg)%list_elem_of_fmap. destruct (Hw g Hg) as (e & He & _). congruence. }
    split_and!; [by apply NoDup_cons| | |done].
    + intros g [->|Hg]%elem_of_cons; [eexists; split; [apply lookup_insert_eq|done]|].
      destruct (Hw g Hg) as (e & He & Hid). exists e. split; [|done]. rewrite lookup_insert_ne; [done|]. intros Heq. congruence.
    + intros n [e [[<- _]|[_ He]]%lookup_insert_Some]; [by left|]. right. apply Hr. eauto.
  - destruct Hok as (Hnd & Hw & Hr & Hl). cbn [fst snd] in *. unfold publish, desk_ok. cbn [fst snd in_flight finished]. split_and!; try done.
    + intros g' Hg'. destruct (Hw g' Hg') as (e' & He' & Hid). destruct (decide (g_container g' = g_container g)) as [Heq|Hne].
      * assert (g' = g) as ->; [|exists e; by rewrite lookup_alter_eq, He'].
        apply list_elem_of_lookup in Hg as [i Hi], Hg' as [j Hj].
        assert (i = j) as ->; [|congruence].
        eapply (NoDup_lookup (g_container <$> ws)); [done|rewrite list_lookup_fmap, Hi; done|].
        rewrite list_lookup_fmap, Hj. cbn. by rewrite Heq.
      * exists e'. by rewrite lookup_alter_ne.
    + intros name [e' He']. apply Hr. destruct (decide (name = g_container g)) as [->|Hne].
      * rewrite lookup_alter_eq in He'. destruct (in_flight r !! g_container g); [eauto|done].
      * rewrite lookup_alter_ne in He' by done. eauto.
  - eapply leave_ok; [exact Hp|done|apply push_finished_length|done].
  - eapply leave_ok; [exact Hp|done|apply push_finished_length|done].
Qed.
Definition no_desk : Desk := (mk_registry ∅ [], []).
Lemma desk_reachable_ok d : rtc desk_step no_desk d → desk_ok d.
Proof.
  intros Hr. remember no_desk as d0. assert (desk_ok d0) as Hok.
  { subst. split_and!; cbn; [constructor|set_solver| |unfold FINISHED_EVENTS_KEPT; lia]. intros n [e He]. by rewrite lookup_empty in He. }
  clear Heqd0. induction Hr as [|d1 d2 d3 Hs _ IH]; [done|]. apply IH. by eapply desk_step_ok.
Qed.

(** C22: However claims, published stages, ends and panics of workers
    interleave, no two workers update the same container; a container has a
    running entry exactly while a worker holds it, and a second claim for it is
    refused with the event of the first; a poller that asks for the id of a
    running update finds it, as running; and at most 64 finished events are
    kept. *)
Theorem one_update_at_a_time r ws :
  rtc desk_step no_desk (r, ws) →
  NoDup (g_container <$> ws) ∧
  (∀ name, is_Some (in_flight r !! name) ↔ name ∈ g_container <$> ws) ∧
  (∀ g, g ∈ ws → (∀ id ts, ∃ e, try_begin_update id ts (g_container g) r = (Err e, r) ∧ ev_id e = g_event_id g) ∧
                 ∀ history, ∃ e, update_status (g_event_id g) history r = Some (e, true) ∧ ev_id e = g_event_id g) ∧
  (length (finished r) ≤ 64)%nat.
Proof.
  intros (Hnd & Hw & Hr & Hl)%desk_reachable_ok. cbn [fst snd] in *. split_and!; [done| | |done].
  - intros name. split; [apply Hr|]. intros (g & -> & Hg)%list_elem_of_fmap. destruct (Hw g Hg) as (e & He & _). eauto.
  - intros g Hg. destruct (Hw g Hg) as (e & He & Hid). split.
    + intros id ts. exists e. unfold try_begin_update. by rewrite He.
    + intros history. unfold update_status. destruct (List.find _ _) as [e'|] eqn:Hf.
      * exists e'. split; [done|]. apply find_Some_elem in Hf as [_ Hf]. unfold has_event in Hf. by bool_props.
      * exfalso. rewrite find_None_Forall in Hf. rewrite Forall_forall in Hf. specialize (Hf e). rewrite Hid in Hf || idtac.
        unfold has_event in Hf. rewrite bool_decide_true in Hf by done. discriminate Hf.
        apply list_elem_of_fmap. exists (g_container g, e). split; [done|]. by apply elem_of_map_to_list.
Qed.
End Registry.

(** ** Settings of the nodes *)
Section Fleet.
Implicit Types (c m : ImageWatcherConfig) (fleet pushes : list ImageWatcherConfig).

Definition delivered c m : ImageWatcherConfig := if is_stale true c m then c else next_config true c m.
(** What nodes do without an operator: take a push, now or late, once or more
    often; and reconcile with a peer. *)
Inductive fleet_step pushes : list ImageWatcherConfig → list ImageWatcherConfig → Prop :=
| fleet_deliver fleet i c m : m ∈ pushes → fleet !! i = Some c → fleet_step pushes fleet (<[i := delivered c m]> fleet)
| fleet_reconcile fleet i j c d :
    fleet !! i = Some c → fleet !! j = Some d → fleet_step pushes fleet (<[i := adopted c (cluster_settings d)]> fleet).

Lemma adopted_rev c d : cluster_rev (adopted c d) = Z.max (cluster_rev c) (cluster_rev d).
Proof. unfold adopted. destruct (Z.leb_spec (cluster_rev d) (cluster_rev c)); cbn; lia. Qed.
Lemma delivered_rev c m : 0 < cluster_rev m → cluster_rev (delivered c m) = Z.max (cluster_rev c) (cluster_rev m).
Proof.
  intros Hm. unfold delivered, is_stale, next_config, resolve_on_save. cbn [andb].
  destruct (Z.eqb_spec (cluster_rev m) 0); [lia|]. cbn [negb andb]. destruct (Z.leb_spec (cluster_rev m) (cluster_rev c)); cbn; lia.
Qed.
Lemma adopted_old c d : cluster_rev d ≤ cluster_rev c → adopted c d = c.
Proof. intros. unfold adopted. by destruct (Z.leb_spec (cluster_rev d) (cluster_rev c)); [|lia]. Qed.
Lemma delivered_old c m : 0 < cluster_rev m ≤ cluster_rev c → delivered c m = c.
Proof.
  intros Hm. unfold delivered, is_stale. cbn [andb]. destruct (Z.eqb_spec (cluster_rev m) 0); [lia|]. cbn [negb andb].
  by destruct (Z.leb_spec (cluster_rev m) (cluster_rev c)); [|lia].
Qed.

(** At the greatest revision, nothing but an operator changes a node. *)
Lemma newest_stays pushes rev fleet fleet' i c :
  Forall (λ m, 0 < cluster_rev m ≤ rev) pushes → Forall (λ m, cluster_rev m ≤ rev) fleet →
  fleet !! i = Some c → cluster_rev c = rev → rtc (fleet_step pushes) fleet fleet' →
  fleet' !! i = Some c ∧ Forall (λ m, cluster_rev m ≤ rev) fleet'.
Proof.
  intros Hp Hf Hi Hc Hs. induction Hs as [|fleet fleet1 fleet2 Hstep _ IH]; [done|]. rewrite Forall_forall in Hp.
  assert (fleet1 !! i = Some c ∧ Forall (λ m, cluster_rev m ≤ rev) fleet1) as [H1 H2]; [|by apply IH].
  destruct Hstep as [fleet k d m Hm Hk|fleet k j d x Hk Hj].
  - pose proof (Hp m Hm). pose proof (proj1 (Forall_lookup _ _) Hf k d Hk). cbv beta in *. split.
    + destruct (decide (k = i)) as [->|Hne]; [|by rewrite list_lookup_insert_ne].
      rewrite list_lookup_insert_eq by (by eapply lookup_lt_Some). assert (d = c) as -> by congruence. f_equal. apply delivered_old. lia.
    + apply Forall_insert; [done|]. rewrite delivered_rev; lia.
  - pose proof (proj1 (Forall_lookup _ _) Hf k d Hk). pose proof (proj1 (Forall_lookup _ _) Hf j x Hj). cbv beta in *. split.
    + destruct (decide (k = i)) as [->|Hne]; [|by rewrite list_lookup_insert_ne].
      rewrite list_lookup_insert_eq by (by eapply lookup_lt_Some). assert (d = c) as -> by congruence. f_equal. apply adopted_old.
      change (cluster_rev (cluster_settings x)) with (cluster_rev x). lia.
    + apply Forall_insert; [done|]. rewrite adopted_rev. change (cluster_rev (cluster_settings x)) with (cluster_rev x). lia.
Qed.

(** Two operators who change the settings of a cluster on two nodes at the
    same revision leave the cluster divided: both saves take the same next
    revision, and whatever pushes arrive and whoever reconciles with whom, for
    ever after, each of the two nodes keeps its own settings, which differ. *)
Theorem same_revision_divides fleet i j a b rev fleet' x y :
  0 ≤ rev → rev + 1 < 2 ^ 64 →
  Forall (λ c, cluster_rev c ≤ rev) fleet → i ≠ j →
  fleet !! i = Some x → cluster_rev x = rev → cluster_rev a ≤ rev → cluster_settings_eq x a = false →
  fleet !! j = Some y → cluster_rev y = rev → cluster_rev b ≤ rev → cluster_settings_eq y b = false →
  let x' := next_config false x a in let y' := next_config false y b in
  rtc (fleet_step [x'; y']) (<[i := x']> (<[j := y']> fleet)) fleet' →
  cluster_rev x' = rev + 1 ∧ cluster_rev y' = rev + 1 ∧
  fleet' !! i = Some x' ∧ fleet' !! j = Some y' ∧
  (cluster_settings_eq a b = false → cluster_settings_eq x' y' = false).
Proof.
  intros Hr Hw Hf Hij Hx Hxr Ha Hxa Hy Hyr Hb Hyb. cbv zeta. intros Hs.
  assert (∀ z e, cluster_rev z = rev → cluster_rev e ≤ rev → cluster_settings_eq z e = false →
    cluster_rev (next_config false z e) = rev + 1) as Hrev.
  { intros z e Hz He Hze. unfold next_config, resolve_on_save. rewrite Hze. cbn [cluster_rev setter set_rev].
    change (wrap 64 (Z.max (cluster_rev z) (cluster_rev e) + 1) = rev + 1). rewrite Hz, Z.max_l by done. apply wrap_small. unfold in_width. lia. }
  pose proof (Hrev x a Hxr Ha Hxa) as H1. pose proof (Hrev y b Hyr Hb Hyb) as H2.
  set (x' := next_config false x a) in *. set (y' := next_config false y b) in *.
  assert (Forall (λ m, 0 < cluster_rev m ≤ rev + 1) [x'; y']) as Hp by (repeat constructor; lia).
  assert (Forall (λ m, cluster_rev m ≤ rev + 1) (<[i := x']> (<[j := y']> fleet))) as Hf'.
  { repeat (apply Forall_insert; [|lia]). eapply Forall_impl; [exact Hf|]. intros m. cbn. lia. }
  apply lookup_lt_Some in Hx as Hi. apply lookup_lt_Some in Hy as Hj.
  split_and!; [done..| | |].
  - eapply newest_stays; [exact Hp|exact Hf'| |exact H1|exact Hs]. apply list_lookup_insert_eq. by rewrite length_insert.
  - eapply newest_stays; [exact Hp|exact Hf'| |exact H2|exact Hs]. rewrite list_lookup_insert_ne by done. by apply list_lookup_insert_eq.
  - intros Hab. exact Hab.
Qed.
End Fleet.

(** ** A reconciliation *)
Section Reconcile.
Context {K : Type} `{!Daemon K} `{!Node_env K}.
Implicit Types (s : Site K) (k : K) (nodes : list Node).

Definition peers_of nodes : list Node := List.filter (λ n, bool_decide (skip_reason (cluster_of nodes) n = None)) (others nodes).
Definition highest (rev : Z) (cs : list ImageWatcherConfig) : Z := foldl (λ r c, Z.max r (cluster_rev c)) rev cs.
Lemma newest_peer_spec nodes (answers : Node → ImageWatcherConfig) best rev k :
  (∀ n k, n ∈ nodes → (ask_peer (node_urls (n_address n) (n_port n) SETTINGS_PATH k) k).1 = Some (answers n)) →
  (∀ d, best = Some d → cluster_rev d = rev) →
  match (newest_peer nodes best rev k).1 with
  | Some d => cluster_rev d = highest rev (answers <$> nodes) ∧ (best = Some d ∨ ∃ n, n ∈ nodes ∧ answers n = d)
  | None => best = None ∧ highest rev (answers <$> nodes) = rev
  end.
Proof.
  revert best rev k. induction nodes as [|n nodes IH]; intros best rev k Ha Hb.
  { cbn. destruct best as [d|]; [split; [by apply Hb|by left]|done]. }
  cbn [newest_peer]. pose proof (Ha n k ltac:(by left)) as Hn. destruct (ask_peer _ k) as [o k1]. cbn [fst] in Hn. subst o.
  unfold newer_of. change (highest rev (answers <$> n :: nodes)) with (highest (Z.max rev (cluster_rev (answers n))) (answers <$> nodes)).
  destruct (Z.ltb_spec rev (cluster_rev (answers n))) as [Hlt|Hle].
  - rewrite Z.max_r by lia.
    assert (∀ d, Some (answers n) = Some d → cluster_rev d = cluster_rev (answers n)) as Hb' by (by intros d [= <-]).
    specialize (IH (Some (answers n)) (cluster_rev (answers n)) k1 (λ m k Hm, Ha m k (list_elem_of_further m n nodes Hm)) Hb').
    destruct (newest_peer nodes _ _ k1) as [[d|] k2]; cbn [fst] in *; [|by destruct IH].
    destruct IH as [Hd [[= <-]|(m & Hm & Hd')]]; (split; [done|]); right; [exists n|exists m]; set_solver.
  - rewrite Z.max_l by lia. specialize (IH best rev k1 (λ m k Hm, Ha m k (list_elem_of_further m n nodes Hm)) Hb).
    destruct (newest_peer nodes _ _ k1) as [[d|] k2]; cbn [fst] in *; [|done].
    destruct IH as [Hd [Hbest|(m & Hm & Hd')]]; (split; [done|]); [by left|right; exists m; set_solver].
Qed.
Lemma highest_ge rev cs : rev ≤ highest rev cs.
Proof.
  revert rev. induction cs as [|c cs IH]; intros rev; [unfold highest; cbn; lia|].
  change (rev ≤ highest (Z.max rev (cluster_rev c)) cs). pose proof (IH (Z.max rev (cluster_rev c))). lia.
Qed.
Lemma settings_eq_merge c d : cluster_settings_eq (merge_cluster_settings_from c d) d = true.
Proof.
  unfold cluster_settings_eq, merge_cluster_settings_from. cbn. rewrite !eqb_reflx, !Z.eqb_refl, !bool_decide_true by done. done.
Qed.

(** A node whose peers all answer, and that can write its file, has the
    greatest revision among its own and theirs when it has reconciled; it
    keeps its settings if that revision was its own, and otherwise has those
    of a peer of that revision; the policies of its containers and its history
    stay. *)
Theorem reconcile_reaches_newest nodes s (answers : Node → ImageWatcherConfig) :
  (∀ n k, n ∈ peers_of nodes →
     (ask_peer (node_urls (n_address n) (n_port n) SETTINGS_PATH k) k).1 = Some (answers n)) →
  (∀ k, (write_failure k).1 = None) →
  let c := load (file s) in
  let c' := load (file (reconcile_from_peers nodes s)) in
  cluster_rev c' = highest (cluster_rev c) (answers <$> peers_of nodes) ∧
  container_policies c' = container_policies c ∧ update_history c' = update_history c ∧
  (cluster_rev c' = cluster_rev c ∧ c' = c ∨
   ∃ n, n ∈ peers_of nodes ∧ cluster_rev (answers n) = cluster_rev c' ∧ cluster_settings_eq c' (answers n) = true).
Proof.
  intros Ha Hw. cbv zeta. set (c := load (file s)). unfold reconcile_from_peers, reconcile_query. fold (peers_of nodes). fold c.
  pose proof (newest_peer_spec (peers_of nodes) answers None (cluster_rev c) (outside s) Ha ltac:(done)) as Hn.
  destruct (newest_peer _ None _ _) as [[d|] k]; cbn [fst] in Hn; cbv beta iota zeta.
  2:{ destruct Hn as [_ Hh]. change (load (file (s <| outside := k |>))) with c. rewrite Hh. split_and!; [done..|by left]. }
  destruct Hn as [Hd [[=]|(n & Hn & Hd')]]. unfold reconcile_adopt. change (load (file (s <| outside := k |>))) with c.
  destruct (Z.leb_spec (cluster_rev d) (cluster_rev c)) as [Hle|Hlt].
  { change (load (file (s <| outside := k |>))) with c. pose proof (highest_ge (cluster_rev c) (answers <$> peers_of nodes)).
    split_and!; try done; [lia|by left]. }
  unfold save. change (outside (s <| outside := k |>)) with k. specialize (Hw k). destruct (write_failure k) as [w k1].
  cbn [fst] in Hw. subst w.
  assert (∀ s', file s' = Holds (merge_cluster_settings_from c d) → let c' := load (file s') in
    cluster_rev c' = highest (cluster_rev c) (answers <$> peers_of nodes) ∧
    container_policies c' = container_policies c ∧ update_history c' = update_history c ∧
    (cluster_rev c' = cluster_rev c ∧ c' = c ∨
     ∃ n, n ∈ peers_of nodes ∧ cluster_rev (answers n) = cluster_rev c' ∧ cluster_settings_eq c' (answers n) = true)) as Hm.
  { intros s' ->. cbn [load]. assert (cluster_rev (merge_cluster_settings_from c d) = cluster_rev d) as Hr by (cbn; lia).
    rewrite Hr. split_and!; try done. right. exists n. rewrite Hd'. split_and!; [done..|]. apply settings_eq_merge. }
  destruct (enabled d); by apply Hm.
Qed.
End Reconcile.

(** ** Witnesses *)
Definition evt (id name : string) : ImageUpdateEvent := blank_event id name "t" Completed None.
Lemma busy_desk :
  rtc desk_step no_desk
    (finish (mk_guard "db" "2") (evt "2" "db")
       (mk_registry (<["db" := blank_event "2" "db" "t" UpdateAvailable None]>
                       {["web" := blank_event "1" "web" "t" UpdateAvailable None]}) []), [mk_guard "web" "1"]).
Proof.
  eapply rtc_l; [by eapply (desk_begin "1" "t" "web")|]. eapply rtc_l; [by eapply (desk_begin "2" "t" "db")|].
  eapply rtc_l; [by eapply (desk_finish (mk_guard "db" "2") (evt "2" "db"))|]. apply rtc_refl.
Qed.
Lemma one_update_at_a_time_witness :
  ∃ r ws, rtc desk_step no_desk (r, ws) ∧ ws ≠ [] ∧ NoDup (g_container <$> ws) ∧ (length (finished r) ≤ 64)%nat.
Proof.
  eexists _, _. split; [apply busy_desk|]. split; [discriminate|].
  destruct (one_update_at_a_time _ _ busy_desk) as (H1 & _ & _ & H4). split; [exact H1|exact H4].
Defined.

Definition on (b : bool) (secs rev : Z) : ImageWatcherConfig := mk_watch b secs NotifyOnly ∅ [] None 60 1 false rev.
Lemma same_revision_divides_witness :
  let x' := next_config false (on true 21600 4) (on true 86400 4) in
  let y' := next_config false (on true 21600 4) (on false 21600 4) in
  let fleet := [x'; y'] in
  let fleet' := <[0%nat := adopted x' (cluster_settings y')]> (<[1%nat := delivered y' x']> fleet) in
  rtc (fleet_step [x'; y']) fleet fleet' ∧ cluster_settings_eq x' y' = false ∧
  fleet' !! 0%nat = Some x' ∧ fleet' !! 1%nat = Some y'.
Proof.
  intros x' y' fleet fleet'.
  assert (rtc (fleet_step [x'; y']) fleet fleet') as Hs.
  { eapply rtc_l; [apply (fleet_deliver _ fleet 1 y' x'); [apply list_elem_of_here|reflexivity]|].
    eapply rtc_l; [apply (fleet_reconcile _ (<[1%nat := delivered y' x']> fleet) 0 1 x' (delivered y' x')); reflexivity|].
    apply rtc_refl. }
  split; [exact Hs|].
  destruct (same_revision_divides [on true 21600 4; on true 21600 4] 0 1 (on true 86400 4) (on false 21600 4) 4 fleet'
    (on true 21600 4) (on true 21600 4)) as (_ & _ & H1 & H2 & H3);
    try reflexivity; try lia; try discriminate; [repeat constructor; apply Z.le_refl|].
  split; [apply H3; reflexivity|]. split; [exact H1|exact H2].
Defined.

#[local] Instance quiet_env : Node_env () := {|
  uuid w := ("1", w); write_failure w := (None, w); node_urls a p path w := ["https://" +:+ a +:+ path];
  peer_put u c w := (None, w); peer_get u w := (Some (200, Some (on true 43200 7)), w)
|}.
Definition other_node : Node :=
  Cluster.mk_node "b" "b" "10.0.0.2" 8553 None 0 true false None "wolfstack" None None None None None false false false false
    false false None None None false [] None None [] None.
Definition behind : Site () := mk_site (Holds (on false 21600 5)) ∅ (mk_registry ∅ []) () false [].
Lemma reconcile_reaches_newest_witness :
  peers_of [other_node] = [other_node] ∧
  let c' := load (file (reconcile_from_peers [other_node] behind)) in
  cluster_rev c' = 7 ∧ container_policies c' = ∅ ∧ update_history c' = [] ∧ c' ≠ load (file behind).
Proof.
  split; [vm_compute; reflexivity|].
  destruct (reconcile_reaches_newest [other_node] behind (λ _, on true 43200 7)) as (H1 & H2 & H3 & _);
    [intros; reflexivity|intros; reflexivity|].
  split; [exact H1|]. split; [exact H2|]. split; [exact H3|]. intros Heq%(f_equal cluster_rev). discriminate Heq.
Defined.
