(* ===== verification/ImageFaults.v ===== *)
(** * Image watcher: where an update or a setting is lost

    What the definitions do that their comments do not say. *)
From stdpp Require Import pretty.
From S2P Require Import Prelude F64 Net Digits CronProps AgentGate ImageWatch ImageUpdate ImageInv ImageProps ImageNode.

(** The table after an update, and how it ended. *)
Definition after_update (r : Ending * list ImageUpdateEvent * Toy.World) :
    option (ImageUpdateStatus * option string) * list (string * list string * bool) :=
  (ending_of r, map (λ x, (x.1, made_with x.2, auto_remove x.2)) (map_to_list (Toy.table r.2))).

(** An image whose container does not start: the update fails, its rollback is
    not tried, although it is switched on, and the container it replaced is
    removed. *)
Theorem failed_start_not_rolled_back :
  let D := Toy.daemon old_shape only_old yes in
  auto_rollback (policy_for default_config "web") = true ∧
  after_update (run_update claim default_config one_web)
  = (Some (Failed, Some "docker recreate failed: cannot start"), [("web", create_args "web" "nginx:1" old_shape, false)]).
Proof. intros D. split; vm_compute; reflexivity. Qed.

(** A container that docker removes when it stops is gone after an update, and
    nothing is in its place. *)
Theorem auto_removed_is_lost :
  let D := Toy.daemon old_shape yes yes in
  after_update (run_update claim default_config (Toy.mk_world {["web" := mk_ctr (made_with web) true]} 0))
  = (Some (Failed, Some "docker recreate failed: Failed to rename container: cannot rename"), []).
Proof. intros D. vm_compute. reflexivity. Qed.

(** ** Rolled back containers *)
Lemma rsplit_once_none c a : contains_char c a = false → rsplit_once c a = None.
Proof.
  induction a as [|x a IH]; [done|]. cbn [contains_char rsplit_once]. intros [Hx Ha]%orb_false_iff. rewrite (IH Ha).
  by rewrite Hx.
Qed.
Lemma rsplit_once_app c a b : contains_char c b = false → rsplit_once c (a +:+ String c b) = Some (a, b).
Proof.
  intros Hb. induction a as [|x a IH].
  - change ("" +:+ String c b) with (String c b). cbn [rsplit_once]. rewrite (rsplit_once_none c b Hb). by rewrite bool_decide_true.
  - change (String x a +:+ String c b) with (String x (a +:+ String c b)). cbn [rsplit_once]. by rewrite IH.
Qed.
Lemma without_char c p s : p c = false → all_chars p s = true → contains_char c s = false.
Proof.
  intros Hc. induction s as [|x s IH]; [done|]. cbn [all_chars contains_char]. intros [Hx Hs]%andb_true_iff. rewrite (IH Hs), orb_false_r.
  apply bool_decide_eq_false. intros ->. congruence.
Qed.
(** A container that was rolled back is created from the id of an image.  Its
    later checks take that for a repository of Docker Hub. *)
Theorem image_id_is_not_a_reference hex :
  all_chars is_ascii_alphanumeric hex = true → parse_ref ("sha256:" +:+ hex) = mk_ref HUB "library/sha256" hex.
Proof.
  intros Hh. unfold parse_ref, without_digest, name_and_tag.
  rewrite split_once_none by (rewrite contains_char_app; by rewrite (without_char "@" is_ascii_alphanumeric hex)).
  change ("sha256:" +:+ hex) with ("sha256" +:+ String ":" hex).
  rewrite rsplit_once_app by by apply (without_char ":" is_ascii_alphanumeric).
  by rewrite (without_char "/" is_ascii_alphanumeric hex).
Qed.

(** ** What is rebuilt differently *)
Definition with_cpus (nano : Z) : Json := JObj [("HostConfig", JObj [("NanoCpus", JNum nano)])].
(** A quarter of a processor becomes a fifth, and less than a twentieth becomes
    no limit at all. *)
Theorem cpu_limit_changes :
  (cpu_limit (with_cpus 250000000), cpu_limit (with_cpus 40000000), cpu_limit (with_cpus 1500000000))
  = (Some "0.2", Some "0.0", Some "1.5").
Proof. vm_compute. reflexivity. Qed.
(** A bind mount that is not among the Binds, as one made by [--mount] is not,
    is no volume of the container that is created. *)
Theorem mount_forgotten i :
  strings_at ["HostConfig"; "Binds"] i = [] → (∀ m, m ∈ array_at ["Mounts"] i → str_at ["Type"] m ≠ Some "volume") →
  volumes i = [].
Proof.
  intros Hb Hm. unfold volumes. rewrite Hb. cbn [app]. induction (array_at ["Mounts"] i) as [|m l IH]; [done|].
  cbn [omap list_omap]. unfold volume_spec. rewrite bool_decide_false by (apply Hm; by left). apply IH. intros m' Hm'. apply Hm. by right.
Qed.

(** ** Settings *)

(** A settings file that does not parse is replaced by the defaults when the
    next update is recorded. *)
Theorem garbled_settings_are_lost events :
  let c := append_history events (load Garbled) in
  enabled c = false ∧ container_policies c = ∅ ∧ cluster_rev c = 0.
Proof. done. Qed.
(** A save that carries the greatest revision takes the node back to zero. *)
Theorem revision_wraps x a :
  cluster_rev a = u64_max → cluster_rev x ≤ u64_max → cluster_settings_eq x a = false →
  cluster_rev (next_config false x a) = 0.
Proof.
  intros Ha Hx Hc. unfold next_config, resolve_on_save. rewrite Hc.
  change (wrap 64 (Z.max (cluster_rev x) (cluster_rev a) + 1) = 0). rewrite Ha, Z.max_r by done. done.
Qed.
(** An own interval of a container below six hours is raised to six hours. *)
Theorem interval_floor c name : 21600 ≤ effective_interval_secs c name.
Proof. unfold effective_interval_secs, MIN_CHECK_INTERVAL_SECS. lia. Qed.
