(* ===== verification/Firewall.v ===== *)
(** * The router's firewall

    networking/router/firewall.rs, with the rules of networking/router/mod.rs:
    the compilation of rules to an [iptables-restore] script, the pre-flight
    scan of that script, and the commands that swap it in and back out.  Other
    programs are run by [run_cmd], the only thing assumed about the host. *)
From S2P Require Import Prelude Net.

(** ** Rules (networking/router/mod.rs) *)
Inductive Zone := Wan | ZLan (n : Z) | Dmz | Wolfnet | Trusted | Custom (s : string).
Inductive Action := Allow | Deny | Reject | Log.
Inductive Direction := Forward | Input | Output.
Inductive Endpoint :=
| AnyEnd
| InZone (zone : Zone)
| Interface (name : string)
| Ip (cidr : string)
| VmEnd (name : string)
| ContainerEnd (name : string)
| LanEnd (id : string).
Inductive Protocol := AnyProto | Tcp | Udp | Icmp | Tcpudp.
Inductive PortSide := Dst | Src.
Record PortSpec := { port : string; side : PortSide }.
Record FirewallRule := {
  id : string;
  enabled : bool;
  order : Z;
  action : Action;
  direction : Direction;
  from : Endpoint;
  to : Endpoint;
  protocol : Protocol;
  ports : list PortSpec;
  state_track : bool;
  log_match : bool;
  comment : string;
  node_id : option string
}.
#[export] Instance eta_FirewallRule : Eta FirewallRule := λ r,
  {| id := id r; enabled := enabled r; order := order r; action := action r; direction := direction r;
     from := from r; to := to r; protocol := protocol r; ports := ports r; state_track := state_track r;
     log_match := log_match r; comment := comment r; node_id := node_id r |}.
Record LanSegment := { lan_id : string; subnet_cidr : string; lan_node_id : string }.
(** A virtual machine, as the rules see it. *)
Record Vm := { vm_name : string; wolfnet_ip : option string }.

#[export] Instance Zone_eq_dec : EqDecision Zone.
Proof. solve_decision. Defined.
#[export] Instance PortSide_eq_dec : EqDecision PortSide.
Proof. solve_decision. Defined.
#[export] Instance PortSpec_eq_dec : EqDecision PortSpec.
Proof. solve_decision. Defined.
#[export] Instance Action_eq_dec : EqDecision Action.
Proof. solve_decision. Defined.
#[export] Instance Protocol_eq_dec : EqDecision Protocol.
Proof. solve_decision. Defined.

(** Which interface of which node belongs to which zone. *)
Definition ZoneAssignments := gmap string (gmap string Zone).
Definition zone_set (node iface : string) (z : Zone) (zs : ZoneAssignments) : ZoneAssignments :=
  <[node := <[iface := z]> (default ∅ (zs !! node))]> zs.
Definition zone_remove (node iface : string) (zs : ZoneAssignments) : ZoneAssignments :=
  match zs !! node with Some m => <[node := delete iface m]> zs | None => zs end.

Record RouterConfig := {
  zones : ZoneAssignments;
  lans : list LanSegment;
  rules : list FirewallRule;
  auto_apply : bool;
  safe_mode_seconds : Z
}.
#[export] Instance eta_RouterConfig : Eta RouterConfig := λ c,
  {| zones := zones c; lans := lans c; rules := rules c; auto_apply := auto_apply c;
     safe_mode_seconds := safe_mode_seconds c |}.

(** ** Compilation *)
Section Compile.
Context {HZ : HashOrder Zone} (vms : list Vm).

Definition members_for_zone_on_node (zs : ZoneAssignments) (node : string) (zone : Zone) : list string :=
  match zs !! node with
  | Some m => fst <$> retain (λ p, bool_decide (p.2 = zone)) (hm_iter m)
  | None => []
  end.

Definition expand_endpoint (ep : Endpoint) (src : bool) (config : RouterConfig) (self_node_id : string)
    : res string (list (list string)) :=
  let addr := if src then "-s " else "-d " in
  let dev := if src then "-i " else "-o " in
  match ep with
  | AnyEnd => Ok [[]]
  | Ip cidr => Ok [[addr +:+ cidr]]
  | Interface name => Ok [[dev +:+ name]]
  | InZone zone =>
      let members := members_for_zone_on_node (zones config) self_node_id zone in
      if bool_decide (members = []) then Ok [] else Ok ((λ m, [dev +:+ m]) <$> members)
  | LanEnd i =>
      match List.find (λ l, bool_decide (lan_id l = i)) (lans config) with
      | Some l => Ok [[addr +:+ subnet_cidr l]]
      | None => Err ("LAN '" +:+ i +:+ "' not found")
      end
  | VmEnd name | ContainerEnd name =>
      match List.find (λ v, bool_decide (vm_name v = name)) vms with
      | Some v =>
          match wolfnet_ip v with
          | Some ip => Ok [[addr +:+ ip +:+ "/32"]]
          | None => Err ("VM '" +:+ name +:+ "' has no WolfNet IP — assign one before referencing it in a rule")
          end
      | None => Err ("VM/container '" +:+ name +:+ "' not found")
      end
  end.

Definition chain_of (d : Direction) : string :=
  match d with Forward => "WOLFROUTER_FWD" | Input => "WOLFROUTER_IN" | Output => "WOLFROUTER_OUT" end.

Definition port_flag (ps : PortSpec) : string :=
  (if bool_decide (side ps = Dst) then "--dport " else "--sport ") +:+ replace_char "-" ":" (port ps).
Definition action_flag (a : Action) : string :=
  match a with Allow => "-j ACCEPT" | Deny => "-j DROP" | Reject => "-j REJECT" | Log => "-j RETURN" end.
Definition quote : string := String "034" "".

Definition emit_rule (rule : FirewallRule) (chain : string) (proto : option string) (from to : list string)
    : res string (list string) :=
  let parts := ["-A " +:+ chain]
    ++ (match proto with Some p => ["-p " +:+ p] | None => [] end)
    ++ from ++ to
    ++ (if bool_decide (proto = Some "tcp" ∨ proto = Some "udp") then port_flag <$> ports rule else [])
    ++ (if state_track rule then ["-m conntrack --ctstate NEW"] else []) in
  let action_line := join " " (parts ++ [action_flag (action rule)]) in
  let want_log_emit := log_match rule || bool_decide (action rule = Log) in
  if want_log_emit then
    short ← slice_to (Nat.min 8 (String.length (id rule))) (id rule);
    let prefix := "wolfrouter-" +:+ short +:+ " " in
    let log_line := join " " (parts ++ ["-j NFLOG"; "--nflog-group 1";
                                        "--nflog-prefix " +:+ quote +:+ prefix +:+ quote]) in
    Ok [log_line; action_line]
  else Ok [action_line].

Definition protos (p : Protocol) : list (option string) :=
  match p with
  | Tcp => [Some "tcp"]
  | Udp => [Some "udp"]
  | Icmp => [Some "icmp"]
  | Tcpudp => [Some "tcp"; Some "udp"]
  | AnyProto => [None]
  end.

(** [out.extend(f(x))] in a loop over [l]. *)
Fixpoint extend_all {E A B} (f : A → res E (list B)) (l : list A) : res E (list B) :=
  match l with
  | [] => Ok []
  | x :: l => ys ← f x; zs ← extend_all f l; Ok (ys ++ zs)
  end.

Definition skipped (rule : FirewallRule) (why : string) : string :=
  "# wolfrouter rule " +:+ id rule +:+ " skipped: " +:+ why.

Definition compile_rule (rule : FirewallRule) (config : RouterConfig) (self_node_id : string)
    : res string (list string) :=
  let chain := chain_of (direction rule) in
  match expand_endpoint (from rule) true config self_node_id with
  | Panic => Panic
  | Err reason => Ok [skipped rule reason]
  | Ok [] => Ok [skipped rule "'from' endpoint resolved to nothing on this node"]
  | Ok from_opts =>
      match expand_endpoint (to rule) false config self_node_id with
      | Panic => Panic
      | Err reason => Ok [skipped rule reason]
      | Ok [] => Ok [skipped rule "'to' endpoint resolved to nothing on this node"]
      | Ok to_opts =>
          extend_all (λ proto, extend_all (λ f, extend_all (λ t,
            emit_rule rule chain proto f t) to_opts) from_opts) (protos (protocol rule))
      end
  end.

Definition FILTER_CHAINS : list string := ["WOLFROUTER_FWD"; "WOLFROUTER_IN"; "WOLFROUTER_OUT"].
Definition CHAIN_NAME : string := "WOLFSTACK_THREAT_INTEL".
Definition IPSET_NAME_V4 : string := "wolfstack-threat-intel".
Definition IPSET_NAME_V6 : string := "wolfstack-threat-intel-6".

(** threat_intel/firewall.rs, one string per line; [enforced] is
    [enforcement_active] of the stored settings. *)
Definition threat_intel_lines (set : string) (enforced : bool) : list string :=
  if negb enforced then [] else
  [ ":" +:+ CHAIN_NAME +:+ " - [0:0]";
    "-A " +:+ CHAIN_NAME +:+ " -m conntrack --ctstate NEW -m set --match-set " +:+ set +:+ " src -j DROP";
    "-A " +:+ CHAIN_NAME +:+ " -m set --match-set " +:+ set +:+ " dst -j DROP";
    "-A WOLFROUTER_IN -j " +:+ CHAIN_NAME;
    "-A WOLFROUTER_FWD -j " +:+ CHAIN_NAME;
    "-A WOLFROUTER_OUT -j " +:+ CHAIN_NAME ].
Definition iptables_lines_v4 : bool → list string := threat_intel_lines IPSET_NAME_V4.
Definition ip6tables_lines : bool → list string := threat_intel_lines IPSET_NAME_V6.

Definition scaffold : list string :=
  "*filter" :: ((λ ch, ":" +:+ ch +:+ " - [0:0]") <$> FILTER_CHAINS)
  ++ (ch ← FILTER_CHAINS; ["-A " +:+ ch +:+ " -m conntrack --ctstate ESTABLISHED,RELATED -j ACCEPT";
                           "-A " +:+ ch +:+ " -i lo -j ACCEPT"]).

(** Every line ends in a line feed. *)
Definition LF_str : string := String LF "".
Definition unlines (ls : list string) : string := foldr (λ l t, l +:+ LF_str +:+ t) "" ls.

(** The rules in force on this node, in their order. *)
Definition applies_here (self_node_id : string) (r : FirewallRule) : bool :=
  enabled r && match node_id r with Some n => bool_decide (n = self_node_id) | None => true end.
Definition ordered_rules (config : RouterConfig) (self_node_id : string) : list FirewallRule :=
  sort_by (λ a b, order a <=? order b) (retain (applies_here self_node_id) (rules config)).

Definition build_ruleset (config : RouterConfig) (self_node_id : string) (enforced : bool) : res string string :=
  body ← extend_all (λ r, compile_rule r config self_node_id) (ordered_rules config self_node_id);
  Ok (unlines (scaffold ++ iptables_lines_v4 enforced ++ body ++ ["COMMIT"])).

Definition build_ruleset_v6 (enforced : bool) : string :=
  unlines (scaffold ++ ip6tables_lines enforced ++ ["COMMIT"]).
End Compile.

(** ** The pre-flight scan *)

(** "8553" or "8000:9000" *)
Definition port_spec_covers_any (spec : string) (wanted : list Z) : bool :=
  match split_once ":" spec with
  | Some (lo_s, hi_s) =>
      match parse_u16 lo_s, parse_u16 hi_s with
      | Some lo, Some hi => if hi <? lo then false else existsb (λ p, (lo <=? p) && (p <=? hi)) wanted
      | _, _ => false
      end
  | None => match parse_u16 spec with Some p => bool_decide (p ∈ wanted) | None => false end
  end.

Fixpoint value_after (flag : string) (tokens : list string) : option string :=
  match tokens with
  | [] => None
  | t :: ts => if bool_decide (t = flag) then head ts else value_after flag ts
  end.
Definition find_flag_value (rule flag : string) : option string := value_after flag (split_whitespace rule).

Definition rule_matches_any_port (rule : string) (mgmt_ports : list Z) : bool :=
  match find_flag_value rule "--dport" with Some v => port_spec_covers_any v mgmt_ports | None => false end
  || match find_flag_value rule "--dports" with
     | Some v => existsb (λ chunk, port_spec_covers_any (trim chunk) mgmt_ports) (split_on "," v)
     | None => false
     end.

(** [split('.').filter_map(parse::<u8>)] *)
Definition octets (s : string) : list Z := omap parse_u8 (split_on "." s).
Definition quad (l : list Z) : option Z :=
  match l with
  | [a; b; c; d] => Some (Z.lor (Z.lor (Z.lor (Z.shiftl a 24) (Z.shiftl b 16)) (Z.shiftl c 8)) d)
  | _ => None
  end.

Definition cidr_matches_ip (cidr ip : string) : bool :=
  match quad (octets ip) with
  | None => true
  | Some ip_u32 =>
      let '(addr_part, mask_str) := default (cidr, "32") (split_once "/" cidr) in
      let m := default 32 (parse_u8 mask_str) in
      if 32 <? m then true else
      match quad (octets addr_part) with
      | None => true
      | Some addr_u32 =>
          let mask_u32 := if m =? 0 then 0 else mask 32 (32 - m) in
          Z.land ip_u32 mask_u32 =? Z.land addr_u32 mask_u32
      end
  end.

Definition concern (trimmed peer : string) : string :=
  "rule `" +:+ trimmed +:+ "` would DROP/REJECT traffic from your current session source (" +:+ peer
  +:+ ") to a WolfStack management port. Applying this would lock your browser out of this node.".

(** The concern a line of the script raises, if any. *)
Definition line_concern (peer : string) (mgmt_ports : list Z) (line : string) : option string :=
  let trimmed := trim line in
  if negb (String.prefix "-A INPUT " trimmed) && negb (String.prefix "-I INPUT " trimmed) then None else
  let drops := contains_str "-j DROP" trimmed || contains_str "-j REJECT" trimmed in
  if negb drops then None else
  if negb (rule_matches_any_port trimmed mgmt_ports) then None else
  let source_matches :=
    match after_first "-s " trimmed with
    | Some after => cidr_matches_ip (default "" (head (split_whitespace after))) peer
    | None => true
    end in
  if source_matches then Some (concern trimmed peer) else None.

Definition analyse_ruleset_against_session (ruleset : string) (peer_ip : option string) (mgmt_ports : list Z)
    : list string :=
  match peer_ip with
  | Some p => if bool_decide (p = "") then [] else omap (line_concern p mgmt_ports) (lines ruleset)
  | None => []
  end.

(** ** Swapping rulesets in and out *)

(** [run_cmd program args stdin k]: [None] when the program cannot be
    started, otherwise whether it succeeded and its standard output. *)
Class Shell (K : Type) := run_cmd : string → list string → string → K → option (bool * string) * K.

Section Commands.
Context {K : Type} `{!Shell K}.
Implicit Types k : K.

Definition dump_filter_table k : res string string * K :=
  match run_cmd "iptables-save" ["-t"; "filter"] "" k with
  | (None, k) => (Err "iptables-save", k)
  | (Some (false, _), k) => (Err "iptables-save exited", k)
  | (Some (true, out), k) => (Ok out, k)
  end.

Definition run_restore_cmd (restore_bin input : string) (test_only : bool) k : res string bool * K :=
  match run_cmd restore_bin ((if test_only then ["--test"] else []) ++ ["-n"]) input k with
  | (None, k) => (Err "spawn iptables-restore", k)
  | (Some (ok, _), k) => (Ok ok, k)
  end.
Definition run_restore : string → bool → K → res string bool * K := run_restore_cmd "iptables-restore".

(** A command whose outcome is ignored; whether it succeeded. *)
Definition quietly (program : string) (args : list string) k : bool * K :=
  let '(o, k) := run_cmd program args "" k in (match o with Some (ok, _) => ok | None => false end, k).

Definition flush_own (program : string) k : K :=
  foldl (λ k ch, (quietly program ["-F"; ch] k).2) k (FILTER_CHAINS ++ [CHAIN_NAME]).

Definition BUILTINS : list (string * string) :=
  [("INPUT", "WOLFROUTER_IN"); ("FORWARD", "WOLFROUTER_FWD"); ("OUTPUT", "WOLFROUTER_OUT")].

(** Delete a jump until there is none, at most 100001 times. *)
Definition drain_limit : Z := 100001.
Fixpoint drain (fuel : nat) (builtin ours : string) k : K :=
  match fuel with
  | O => k
  | S fuel => let '(deleted, k) := quietly "iptables" ["-D"; builtin; "-j"; ours] k in
              if deleted then drain fuel builtin ours k else k
  end.

Definition ensure_jump k (p : string * string) : K :=
  let '(builtin, ours) := p in
  let jump_line := "-A " +:+ builtin +:+ " -j " +:+ ours in
  let '(o, k) := run_cmd "iptables" ["-S"; builtin] "" k in
  let count := match o with
               | Some (true, out) => length (retain (λ l, bool_decide (trim l = jump_line)) (lines out))
               | _ => 0%nat
               end in
  if bool_decide (count = 1%nat) then k else
  let k := drain (Z.to_nat drain_limit) builtin ours k in
  (quietly "iptables" ["-I"; builtin; "1"; "-j"; ours] k).2.
Definition ensure_builtin_jumps_v4 k : K := foldl ensure_jump k BUILTINS.

Definition ensure_jump_v6 k (p : string * string) : K :=
  let '(builtin, ours) := p in
  let '(present, k) := quietly "ip6tables" ["-C"; builtin; "-j"; ours] k in
  if present then k else (quietly "ip6tables" ["-I"; builtin; "1"; "-j"; ours] k).2.
Definition apply_v6_companion (enforced : bool) k : K :=
  let k := flush_own "ip6tables" k in
  let '(r, k) := run_restore_cmd "ip6tables-restore" (build_ruleset_v6 enforced) false k in
  match r with Ok true => foldl ensure_jump_v6 k BUILTINS | _ => k end.

(** The previous table on success.  [enforced] is read again for the v6
    companion; it is the same settings file. *)
Definition apply (ruleset : string) (test_only enforced : bool) k : res string string * K :=
  let '(d, k) := dump_filter_table k in
  let current := match d with Ok t => t | _ => "" end in
  let '(tested, k) := run_restore ruleset true k in
  match tested with
  | Err e => (Err e, k)
  | Panic => (Panic, k)
  | Ok false => (Err "iptables-restore --test rejected the ruleset", k)
  | Ok true =>
      if test_only then (Ok current, k) else
      let k := flush_own "iptables" k in
      let '(swapped, k) := run_restore ruleset false k in
      match swapped with
      | Err e => (Err e, k)
      | Panic => (Panic, k)
      | Ok false => (Err "iptables-restore failed to apply (ruleset reverted to previous)", k)
      | Ok true => (Ok current, apply_v6_companion enforced (ensure_builtin_jumps_v4 k))
      end
  end.

Definition revert (previous : string) k : res string () * K :=
  let '(r, k) := run_restore previous false k in
  (match r with
   | Ok true => Ok ()
   | Ok false => Err "Failed to revert firewall to previous state"
   | Err e => Err e
   | Panic => Panic
   end, k).

(** [validate]: what is wrong with the rules, by identifier. *)
Fixpoint rule_issues (seen : list string) (rs : list FirewallRule) : list (string * string) :=
  match rs with
  | [] => []
  | r :: rs =>
      (if bool_decide (id r ∈ seen) then [(id r, "Duplicate rule id: " +:+ id r)] else [])
      ++ (if bool_decide (protocol r = AnyProto) && negb (bool_decide (ports r = []))
          then [(id r, "Port match has no effect when protocol is Any — set protocol to TCP or UDP")] else [])
      ++ rule_issues (id r :: seen) rs
  end.
Definition validate {HZ : HashOrder Zone} (vms : list Vm) (config : RouterConfig) (self_node_id : string)
    (enforced : bool) k : res string (list (string * string)) * K :=
  let issues := rule_issues [] (rules config) in
  match build_ruleset vms config self_node_id enforced with
  | Ok ruleset =>
      let '(r, k) := apply ruleset true enforced k in
      (Ok (issues ++ match r with Err e => [("_ruleset_", e)] | _ => [] end), k)
  | Err e => (Err e, k)
  | Panic => (Panic, k)
  end.
End Commands.
