(* ===== verification/Danger.v ===== *)
(** * The dead man's switch

    danger.rs: operations that may cut the operator off register a closure
    that undoes them; it runs unless they are confirmed in time.  A rollback
    takes the closure under the registry's lock, runs it without the lock and
    records its result under the lock again, so the three are separate
    operations here and other requests come between them. *)
From S2P Require Import Prelude Net.

Section Danger.
(** The state of the host a rollback acts on. *)
Context {K : Type}.

Definition RollbackFn : Type := K → res string string * K.

Record PendingOp := {
  op_id : string;
  op_type : string;
  description : string;
  ttl_secs : Z;
  applied_at_unix : Z;
  status : string;
  rollback_message : string
}.
#[export] Instance eta_PendingOp : Eta PendingOp := λ p,
  {| op_id := op_id p; op_type := op_type p; description := description p; ttl_secs := ttl_secs p;
     applied_at_unix := applied_at_unix p; status := status p; rollback_message := rollback_message p |}.

Record OpEntry := {
  meta : PendingOp;
  applied_at : Z;
  rollback : option RollbackFn
}.
#[export] Instance eta_OpEntry : Eta OpEntry := λ e,
  {| meta := meta e; applied_at := applied_at e; rollback := rollback e |}.

Local Abbreviation Registry := (gmap string OpEntry).
Implicit Types reg : Registry.

Definition set_status (s : string) (e : OpEntry) : OpEntry := e <| meta := meta e <| status := s |> |>.

(** The identifier is drawn by the caller: "danger-" and eight digits of a
    UUID. *)
Definition schedule (now unix : Z) (i type desc : string) (ttl : Z) (rb : RollbackFn) reg : Registry :=
  <[i := {| meta := {| op_id := i; op_type := type; description := desc; ttl_secs := ttl;
                       applied_at_unix := unix; status := "pending"; rollback_message := "" |};
            applied_at := now; rollback := Some rb |}]> reg.

Definition confirm (i : string) reg : res string string * Registry :=
  match reg !! i with
  | None => (Err ("op " +:+ i +:+ " not found"), reg)
  | Some entry =>
      if bool_decide (status (meta entry) = "confirmed") then (Ok ("op " +:+ i +:+ " already confirmed"), reg) else
      if negb (bool_decide (status (meta entry) = "pending"))
      then (Err ("op " +:+ i +:+ " can't be confirmed — status is " +:+ status (meta entry)), reg)
      else (Ok "Change committed — auto-rollback cancelled.",
            <[i := set_status "confirmed" entry <| rollback := None |>]> reg)
  end.

(** [rollback_now] up to the release of the lock. *)
Definition take_rollback (i : string) reg : res string (option RollbackFn) * Registry :=
  match reg !! i with
  | None => (Err ("op " +:+ i +:+ " not found"), reg)
  | Some entry =>
      if negb (bool_decide (status (meta entry) = "pending"))
      then (Err ("op " +:+ i +:+ " can't be rolled back — status is " +:+ status (meta entry)), reg)
      else (Ok (rollback entry), <[i := set_status "rolling_back" entry <| rollback := None |>]> reg)
  end.

(** The closure itself. *)
Definition run_rollback (f : option RollbackFn) (k : K) : res string string * K :=
  match f with
  | None => (Err "rollback closure missing", k)
  | Some f => f k
  end.

(** [rollback_now] from the second lock on; a closure that panics never gets
    there. *)
Definition record_outcome (i : string) (result : res string string) reg : Registry :=
  match reg !! i, result with
  | Some entry, Ok msg =>
      <[i := entry <| meta := meta entry <| status := "rolled_back" |> <| rollback_message := msg |> |>]> reg
  | Some entry, Err e =>
      <[i := entry <| meta := meta entry <| status := "rollback_failed" |> <| rollback_message := e |> |>]> reg
  | _, _ => reg
  end.

Context {HO : HashOrder OpEntry}.

Definition list_ops reg : list PendingOp := (λ p, meta p.2) <$> hm_iter reg.

(** [elapsed().as_secs()] *)
Definition elapsed_secs (now t : Z) : Z := since now t / SEC.

Definition expired (now : Z) (e : OpEntry) : bool :=
  bool_decide (status (meta e) = "pending") && (ttl_secs (meta e) <=? elapsed_secs now (applied_at e)).
(** The first block of [tick]. *)
Definition expired_ids (now : Z) reg : list string := fst <$> retain (λ p, expired now p.2) (hm_iter reg).

Definition RETENTION_SECS : Z := 300.
Definition keep_op (now : Z) (e : OpEntry) : bool :=
  bool_decide (status (meta e) ∈ ["pending"; "rolling_back"])
  || (elapsed_secs now (applied_at e) <? RETENTION_SECS).
(** The last block of [tick]. *)
Definition sweep (now : Z) reg : Registry := filter (λ p, keep_op now p.2) reg.

(** ** Requests and ticks as threads

    A thread is a rollback in progress, or a tick with the identifiers it has
    still to roll back, one after the other. *)
Inductive Stage := Taken (f : option RollbackFn) | Ran (r : res string string).
Record Thread := {
  cur : option (string * Stage);
  todo : option (list string)
}.
Definition idle : Thread := {| cur := None; todo := None |}.

(** One step of a thread: the registry, the host, and the operation whose
    closure was called, if one was.  The clock is read by the sweep. *)
Definition step_thread (now : Z) (t : Thread) reg (k : K) : Thread * Registry * K * option string :=
  match t with
  | {| cur := Some (i, Taken f); todo := rest |} =>
      let '(r, k) := run_rollback f k in
      let called := match f with Some _ => Some i | None => None end in
      match r with
      | Panic => (idle, reg, k, called)
      | _ => ({| cur := Some (i, Ran r); todo := rest |}, reg, k, called)
      end
  | {| cur := Some (i, Ran r); todo := rest |} =>
      ({| cur := None; todo := rest |}, record_outcome i r reg, k, None)
  | {| cur := None; todo := Some (i :: rest) |} =>
      match take_rollback i reg with
      | (Ok f, reg) => ({| cur := Some (i, Taken f); todo := Some rest |}, reg, k, None)
      | (_, reg) => ({| cur := None; todo := Some rest |}, reg, k, None)
      end
  | {| cur := None; todo := Some [] |} => (idle, sweep now reg, k, None)
  | {| cur := None; todo := None |} => (t, reg, k, None)
  end.

Definition finished (t : Thread) : Prop := cur t = None ∧ todo t = None.

(** [danger::tick] begins, and [danger_rollback] begins. *)
Definition begin_tick (now : Z) reg : Thread := {| cur := None; todo := Some (expired_ids now reg) |}.
Definition begin_rollback (i : string) reg : res string () * Thread * Registry :=
  match take_rollback i reg with
  | (Ok f, reg) => (Ok (), {| cur := Some (i, Taken f); todo := None |}, reg)
  | (Err e, reg) => (Err e, idle, reg)
  | (Panic, reg) => (Panic, idle, reg)
  end.
End Danger.
Arguments RollbackFn K : clear implicits.
Arguments OpEntry K : clear implicits.
(** The process-wide table behind its lock. *)
Abbreviation Registry K := (gmap string (OpEntry K)).
Arguments Thread K : clear implicits.
Arguments Stage K : clear implicits.
