(* ===== verification/SafeMode.v ===== *)
(** * Applying and confirming firewall rules

    The handlers of networking/router/api.rs that change the rules or swap
    them in, the older rollback watcher of networking/router/mod.rs beside
    the dead man's switch of danger.rs, and the endpoints of the switch in
    api/mod.rs.  A node is the router's state, the registry of the switch,
    the threads of danger.rs and the host; requests, ticks and steps of
    threads come in any order. *)
From S2P Require Import Prelude Net Firewall Danger.

(** ** State and surroundings *)
Record Router := {
  config : RouterConfig;
  (** a writer of [config] has panicked: every later [unwrap] of the lock does *)
  poisoned : bool;
  last_applied_rules : option string;
  rollback_deadline : option Z;
  firewall_apply_danger_id : option string
}.
#[export] Instance eta_Router : Eta Router := λ r,
  {| config := config r; poisoned := poisoned r; last_applied_rules := last_applied_rules r;
     rollback_deadline := rollback_deadline r; firewall_apply_danger_id := firewall_apply_danger_id r |}.

(** What a request finds: the two clocks (nanoseconds and Unix seconds), the
    node's name and ports, its virtual machines, whether the threat list is
    enforced, and whether the configuration can be saved. *)
Record Env := {
  now : Z;
  unix : Z;
  self_id : string;
  vms : list Vm;
  enforced : bool;
  save_ok : bool;
  mgmt_ports : list Z
}.

Inductive Reply :=
| ROk
| RApplied (rollback_in_seconds : Z) (danger_id : string)
| RRefused (concerns : list string)
| RBadRequest
| RForbidden
| RNotFound
| RConflict
| RError (e : string)
| RPanic.

Section SafeMode.
Context {K : Type} `{!Shell K} {HZ : HashOrder Zone} {HO : HashOrder (OpEntry K)}.

Record Node := {
  router : Router;
  reg : Registry K;
  threads : list (Thread K);
  host : K;
  (** the operations whose closure has been called, latest first: a history
      the code does not keep *)
  called : list string
}.
#[export] Instance eta_Node : Eta Node := λ n,
  {| router := router n; reg := reg n; threads := threads n; host := host n; called := called n |}.
Implicit Types (e : Env) (n : Node).

(** ** apply_rules_now *)
Definition loopback_text (a : option string) : bool := bool_decide (a ∈ [Some "127.0.0.1"; Some "::1"]).

(** [raw]: the canonical text of the TCP peer; [xff]: the X-Forwarded-For
    header. *)
Definition peer_ip (raw xff : option string) : option string :=
  if loopback_text raw then
    match (v ← xff; let s := trim (before "," v) in if bool_decide (s = "") then None else Some s) with
    | Some s => Some s
    | None => raw
    end
  else raw.

Definition DEFAULT_TTL : Z := 120.

(** [super::firewall::revert(&prev)] as a closure. *)
Definition revert_to (prev : string) : RollbackFn K := λ k,
  let '(r, k) := revert prev k in
  (match r with
   | Ok _ => Ok "Firewall reverted to previous ruleset."
   | Err x => Err x
   | Panic => Panic
   end, k).

Definition proxied_note (peer : option string) : string :=
  "(note: your TCP peer is loopback — evaluated against X-Forwarded-For = " +:+ default "<unknown>" peer +:+
  ". If you run a reverse proxy, verify the right admin IP was checked.)".

Definition apply_rules_now e (raw xff : option string) (i : string) n : Reply * Node :=
  let rt := router n in
  if poisoned rt then (RPanic, n) else
  match build_ruleset (vms e) (config rt) (self_id e) (enforced e) with
  | Panic => (RPanic, n)
  | Err x => (RError x, n)
  | Ok ruleset =>
      let peer := peer_ip raw xff in
      let concerns := analyse_ruleset_against_session ruleset peer (mgmt_ports e) in
      if negb (bool_decide (concerns = [])) then
        (RRefused (concerns ++ (if loopback_text raw then [proxied_note peer] else [])), n)
      else
      let secs := safe_mode_seconds (config rt) in
      match apply ruleset false (enforced e) (host n) with
      | (Ok prev, k) =>
          let ttl := if 0 <? secs then secs else DEFAULT_TTL in
          let reg' := schedule (now e) (unix e) i "firewall_apply" "WolfRouter firewall rules applied" ttl
                        (revert_to prev) (reg n) in
          let rt := rt <| last_applied_rules := Some prev |> <| firewall_apply_danger_id := Some i |> in
          let rt := if 0 <? secs then rt <| rollback_deadline := Some (unix e + secs) |> else rt in
          (RApplied ttl i, n <| router := rt |> <| reg := reg' |> <| host := k |>)
      | (Err x, k) => (RError x, n <| host := k |>)
      | (Panic, k) => (RPanic, n <| host := k |>)
      end
  end.

(** ** Confirmation *)
Definition confirm_rules n : Reply * Node :=
  let rt := router n in
  let '(raced, reg') := match firewall_apply_danger_id rt with
                        | Some i => let '(r, reg') := confirm i (reg n) in (negb (is_ok r), reg')
                        | None => (false, reg n)
                        end in
  (if raced then RConflict else ROk,
   n <| router := rt <| firewall_apply_danger_id := None |> <| rollback_deadline := None |> |> <| reg := reg' |>).

(** The "Keep" button of the banner: api/mod.rs [danger_confirm]. *)
Definition danger_confirm (i : string) n : Reply * Node :=
  let '(r, reg') := confirm i (reg n) in
  (if is_ok r then ROk else RBadRequest, n <| reg := reg' |>).

(** "Rollback now": [danger_rollback] starts a thread; its reply is the
    outcome the thread records. *)
Definition danger_rollback (i : string) n : Reply * Node :=
  match begin_rollback i (reg n) with
  | (Ok _, t, reg') => (ROk, n <| reg := reg' |> <| threads := threads n ++ [t] |>)
  | (_, _, reg') => (RBadRequest, n <| reg := reg' |>)
  end.

(** ** Background *)
Definition start_tick e n : Node := n <| threads := threads n ++ [begin_tick (now e) (reg n)] |>.

Definition run_thread e (j : nat) n : Node :=
  match threads n !! j with
  | None => n
  | Some t =>
      let '(t, reg', k, c) := step_thread (now e) t (reg n) (host n) in
      n <| threads := <[j := t]> (threads n) |> <| reg := reg' |> <| host := k |>
        <| called := match c with Some i => i :: called n | None => called n end |>
  end.

(** One round of [spawn_rollback_watcher]. *)
Definition watch e n : Node :=
  let rt := router n in
  match rollback_deadline rt with
  | None => n
  | Some d =>
      if unix e <? d then n else
      let k := match last_applied_rules rt with
               | Some p => (revert p (host n)).2
               | None => host n
               end in
      n <| router := rt <| rollback_deadline := None |> |> <| host := k |>
  end.

(** The firewall's part of the application at start-up; [other_work]: an uplink
    or a proxy is configured for this node. *)
Definition apply_startup e (other_work : bool) n : Node :=
  let cfg := config (router n) in
  let here := other_work || existsb (λ l, bool_decide (lan_node_id l = self_id e)) (lans cfg)
              || existsb (applies_here (self_id e)) (rules cfg) in
  if poisoned (router n) || negb here then n else
  match build_ruleset (vms e) (config (router n)) (self_id e) (enforced e) with
  | Ok ruleset =>
      match apply ruleset false (enforced e) (host n) with
      | (Ok prev, k) => n <| router := router n <| last_applied_rules := Some prev |> |> <| host := k |>
      | (_, k) => n <| host := k |>
      end
  | _ => n
  end.

(** ** Edits *)

(** [view]: the nodes of the cluster whose view is being edited. *)
Definition cluster_guard_node_id (view : option (gset string)) (node : option string) : option Reply :=
  match view with
  | None => None
  | Some ids => match node with
                | None => Some RForbidden
                | Some nid => if bool_decide (nid ∈ ids) then None else Some RForbidden
                end
  end.
Definition rule_by_id (i : string) (cfg : RouterConfig) : option FirewallRule :=
  List.find (λ r, bool_decide (id r = i)) (rules cfg).
Definition cluster_guard_existing_rule (view : option (gset string)) (i : string) (cfg : RouterConfig)
    : option Reply :=
  cluster_guard_node_id view (r ← rule_by_id i cfg; node_id r).

(** What the edits have in common: the change under the write lock, the save,
    the compilation still under the lock, and the application after it. *)
Definition with_config_write e (f : RouterConfig → RouterConfig) (on_apply_err : string → Reply) n : Reply * Node :=
  let rt := router n in
  if poisoned rt then (RPanic, n) else
  let cfg := f (config rt) in
  let n := n <| router := rt <| config := cfg |> |> in
  if negb (save_ok e) then (RError "save", n) else
  if negb (auto_apply cfg) then (ROk, n) else
  match build_ruleset (vms e) cfg (self_id e) (enforced e) with
  | Ok ruleset =>
      let '(r, k) := apply ruleset false (enforced e) (host n) in
      (match r with Ok _ => ROk | Err x => on_apply_err x | Panic => RPanic end, n <| host := k |>)
  | Err x => (RError x, n)
  | Panic => (RPanic, n <| router := router n <| poisoned := true |> |>)
  end.

(** [i32] arithmetic wraps in a release build. *)
Definition wrap_i32 (z : Z) : Z := wrap32 (z + 2 ^ 31) - 2 ^ 31.
Definition max_order (l : list FirewallRule) : option Z :=
  foldl (λ acc r, Some (match acc with None => order r | Some m => Z.max m (order r) end)) None l.

Definition insert_rule (rule : FirewallRule) (cfg : RouterConfig) : RouterConfig :=
  let next_order := wrap_i32 (default (-1) (max_order (rules cfg)) + 1) in
  let rule := if order rule =? 0 then rule <| order := next_order |> else rule in
  cfg <| rules := retain (λ r, negb (bool_decide (id r = id rule))) (rules cfg) ++ [rule] |>.

Definition create_rule e (view : option (gset string)) (fresh : string) (rule : FirewallRule) n : Reply * Node :=
  match cluster_guard_node_id view (node_id rule) with
  | Some r => (r, n)
  | None =>
      let rule := if bool_decide (id rule = "") then rule <| id := fresh |> else rule in
      with_config_write e (insert_rule rule) (λ x, RError ("firewall apply failed: " +:+ x)) n
  end.

Definition update_rule e (view : option (gset string)) (i : string) (updated : FirewallRule) n : Reply * Node :=
  if negb (bool_decide (id updated = i)) then (RBadRequest, n) else
  if poisoned (router n) then (RPanic, n) else
  match cluster_guard_existing_rule view i (config (router n)) with
  | Some r => (r, n)
  | None =>
      match cluster_guard_node_id view (node_id updated) with
      | Some r => (r, n)
      | None =>
          match rule_by_id i (config (router n)) with
          | None => (RNotFound, n)
          | Some _ =>
              with_config_write e
                (λ cfg, cfg <| rules := update_first (λ r, bool_decide (id r = i)) (λ _, updated) (rules cfg) |>)
                (λ _, ROk) n
          end
      end
  end.

Definition delete_rule e (view : option (gset string)) (i : string) n : Reply * Node :=
  if poisoned (router n) then (RPanic, n) else
  match cluster_guard_existing_rule view i (config (router n)) with
  | Some r => (r, n)
  | None => with_config_write e
              (λ cfg, cfg <| rules := retain (λ r, negb (bool_decide (id r = i))) (rules cfg) |>) (λ _, ROk) n
  end.

(** The last position of each identifier in [ids]. *)
Definition order_map (ids : list string) : gmap string Z :=
  foldl (λ m p, <[p.2 := wrap_i32 (Z.of_nat p.1)]> m) ∅ (enumerate ids).
Definition reorder_rules e (ids : list string) n : Reply * Node :=
  with_config_write e
    (λ cfg, cfg <| rules := (λ r, match order_map ids !! id r with
                                  | Some o => r <| order := o |>
                                  | None => r
                                  end) <$> rules cfg |>) (λ _, ROk) n.

Definition assign_zone e (view : option (gset string)) (node iface : string) (zone : option Zone) n : Reply * Node :=
  match cluster_guard_node_id view (Some node) with
  | Some r => (r, n)
  | None => with_config_write e
              (λ cfg, cfg <| zones := match zone with
                                      | Some z => zone_set node iface z (zones cfg)
                                      | None => zone_remove node iface (zones cfg)
                                      end |>) (λ _, ROk) n
  end.

(** A configuration pushed by a peer. *)
Definition receive_config e (new_cfg : RouterConfig) n : Reply * Node :=
  if poisoned (router n) then (RPanic, n) else
  let n := n <| router := router n <| config := new_cfg |> |> in
  if negb (save_ok e) then (RError "save", n) else
  if negb (auto_apply new_cfg) then (ROk, n) else
  match build_ruleset (vms e) new_cfg (self_id e) (enforced e) with
  | Ok ruleset => (ROk, n <| host := (apply ruleset false (enforced e) (host n)).2 |>)
  | Err x => (RError x, n)
  | Panic => (RPanic, n)
  end.

(** ** Steps *)
Inductive Edit :=
| Create (fresh : string) (rule : FirewallRule)
| Update (i : string) (rule : FirewallRule)
| Delete (i : string)
| Reorder (ids : list string)
| Assign (node iface : string) (zone : option Zone).

Definition edit e (view : option (gset string)) (c : Edit) n : Reply * Node :=
  match c with
  | Create fresh rule => create_rule e view fresh rule n
  | Update i rule => update_rule e view i rule n
  | Delete i => delete_rule e view i n
  | Reorder ids => reorder_rules e ids n
  | Assign node iface zone => assign_zone e view node iface zone n
  end.

(** Another part of WolfStack registers an operation of its own (the release
    of port 53, an interface brought down). *)
Definition register e (i type desc : string) (ttl : Z) (f : RollbackFn K) n : Node :=
  n <| reg := schedule (now e) (unix e) i type desc ttl f (reg n) |>.

Inductive Step :=
| ApplyNow (raw xff : option string) (i : string)
| Register (i type desc : string) (ttl : Z) (f : RollbackFn K)
| ConfirmRules
| Keep (i : string)
| RollbackNow (i : string)
| StartTick
| RunThread (j : nat)
| Watch
| Startup (other_work : bool)
| DoEdit (view : option (gset string)) (c : Edit)
| Receive (cfg : RouterConfig).

Definition step (es : Env * Step) n : Reply * Node :=
  let '(e, s) := es in
  match s with
  | ApplyNow raw xff i => apply_rules_now e raw xff i n
  | Register i type desc ttl f => (ROk, register e i type desc ttl f n)
  | ConfirmRules => confirm_rules n
  | Keep i => danger_confirm i n
  | RollbackNow i => danger_rollback i n
  | StartTick => (ROk, start_tick e n)
  | RunThread j => (ROk, run_thread e j n)
  | Watch => (ROk, watch e n)
  | Startup w => (ROk, apply_startup e w n)
  | DoEdit view c => edit e view c n
  | Receive cfg => receive_config e cfg n
  end.
Definition run (es : list (Env * Step)) n : Node := foldl (λ n es, (step es n).2) n es.

(** The identifiers a run draws for its operations. *)
Definition drawn (s : Step) : list string :=
  match s with ApplyNow _ _ i => [i] | Register i _ _ _ _ => [i] | _ => [] end.
End SafeMode.
Arguments Node K : clear implicits.
Arguments Step K : clear implicits.
