(* ===== verification/FirewallProps.v ===== *)
(** * The pre-flight scan never objects

    No line [build_ruleset] writes is one the scan looks at, unless a rule
    smuggles a line feed into the script. *)
From S2P Require Import Prelude Net Digits Firewall.

(** ** Text of one line *)
Definition no_lf (s : string) : Prop := contains_char LF s = false.

Lemma no_lf_app a b : no_lf (a +:+ b) ↔ no_lf a ∧ no_lf b.
Proof. unfold no_lf. by rewrite contains_char_app, orb_false_iff. Qed.

Lemma no_lf_join sep l : no_lf sep → Forall no_lf l → no_lf (join sep l).
Proof.
  intros Hs. induction 1 as [|x l Hx Hl IH]; [done|]. cbn [join]. destruct l; [done|].
  by rewrite !no_lf_app.
Qed.

Lemma no_lf_replace x y s : y ≠ LF → no_lf s → no_lf (replace_char x y s).
Proof.
  unfold no_lf. intros Hy. induction s as [|c s IH]; [done|]. cbn [contains_char replace_char].
  rewrite !orb_false_iff, !bool_decide_eq_false. intros [Hc Hs]. split; [|auto]. by case_bool_decide.
Qed.

Lemma no_lf_take n s : no_lf s → no_lf (str_take n s).
Proof.
  unfold no_lf. revert s. induction n as [|n IH]; intros [|c s]; try done. cbn [contains_char str_take].
  rewrite !orb_false_iff. intros [? ?]. auto.
Qed.

(** ** Lines of a script *)
Lemma lines_unlines ls : Forall no_lf ls → lines (unlines ls) = strip_cr <$> ls.
Proof.
  intros H. unfold lines. f_equal. induction H as [|l ls Hl _ IH]; [done|].
  cbn [unlines foldr]. change (LF_str +:+ ?t) with (String LF t). rewrite split_on_app by done.
  fold (unlines ls). pose proof (split_on_not_nil LF (unlines ls)) as Hne.
  destruct (split_on LF (unlines ls)) as [|x xs] eqn:Hs; [done|]. cbn [drop_last_empty]. by rewrite <-IH.
Qed.

Lemma strip_cr_prefix s : ∃ r, s = strip_cr s +:+ r.
Proof.
  unfold strip_cr. induction s as [|c s [r IH]]; [by exists ""|]. cbn [strip_suffix_char].
  destruct s as [|d s].
  - case_bool_decide; [by exists (String c "")|by exists ""].
  - destruct (strip_suffix_char CR (String d s)) as [p|]; cbn [fmap option_fmap option_map from_option Datatypes.id] in *.
    + exists r. change (String c p +:+ r) with (String c (p +:+ r)). by f_equal.
    + exists r. change (String c (String d s) +:+ r) with (String c (String d s +:+ r)). by f_equal.
Qed.

Lemma trim_end_prefix s : ∃ r, s = trim_end s +:+ r.
Proof.
  induction s as [|c s [r IH]]; [by exists ""|]. cbn [trim_end]. destruct (trim_end s) as [|d p].
  - destruct (is_ascii_space c); [by exists (String c s)|]. exists s. done.
  - exists r. change (String c (String d p) +:+ r) with (String c (String d p +:+ r)). by f_equal.
Qed.

(** A line that begins with neither white space nor a carriage return keeps
    its beginning. *)
Lemma trimmed_prefix p c l :
  is_ascii_space c = false → p ≠ "" →
  String.prefix p (trim (strip_cr (String c l))) = true → String.prefix p (String c l) = true.
Proof.
  intros Hc Hp. destruct (strip_cr_prefix (String c l)) as [r Hr]. revert Hr.
  generalize (strip_cr (String c l)). intros x Hr. destruct x as [|d x].
  { intros H. by destruct p. }
  assert (d = c) as ->. { change (String d x +:+ r) with (String d (x +:+ r)) in Hr. by injection Hr as ->. }
  unfold trim. cbn [trim_start]. rewrite Hc. intros [q Hq]%prefix_spec.
  destruct (trim_end_prefix (String c x)) as [r' Hr']. apply prefix_spec. exists (q +:+ r' +:+ r).
  rewrite Hr, Hr', Hq at 1. by rewrite !string_app_assoc.
Qed.

(** A line of our own: one the scan passes over. *)
Definition own_line (l : string) : Prop :=
  no_lf l ∧
  match l with
  | String c l' => is_ascii_space c = false ∧ (c = "-"%char → String.prefix "A WOLF" l' = true)
  | EmptyString => False
  end.

Lemma own_line_silent peer ports l : own_line l → line_concern peer ports (strip_cr l) = None.
Proof.
  intros [_ Hl]. destruct l as [|c l]; [done|]. destruct Hl as [Hc Hl]. unfold line_concern.
  assert (∀ p, p = "-A INPUT " ∨ p = "-I INPUT " →
               String.prefix p (trim (strip_cr (String c l))) = false) as Hno.
  { intros p Hp. apply not_true_iff_false. intros H%trimmed_prefix; [|done|by destruct Hp; subst].
    destruct Hp; subst p; cbn [String.prefix] in H; destruct (ascii_dec "-" c) as [<-|]; try done;
      specialize (Hl eq_refl); apply prefix_spec in Hl as [r ->]; done. }
  by rewrite !Hno by auto.
Qed.

Lemma own_comment s : no_lf s → own_line ("# wolfrouter rule " +:+ s).
Proof. intros H. split; [|by split]. by apply no_lf_app. Qed.
Lemma own_rule s : no_lf s → own_line ("-A WOLF" +:+ s).
Proof. intros H. split; [by apply no_lf_app|]. split; [done|]. intros _. apply (prefix_app "A WOLF"). Qed.

(** ** Rules without line feeds *)
Definition clean_endpoint (ep : Endpoint) : Prop :=
  match ep with
  | AnyEnd | InZone _ => True
  | Interface s | Ip s | VmEnd s | ContainerEnd s | LanEnd s => no_lf s
  end.
Definition clean_rule (r : FirewallRule) : Prop :=
  no_lf (id r) ∧ clean_endpoint (from r) ∧ clean_endpoint (to r) ∧ Forall (λ p, no_lf (port p)) (ports r).
Definition clean_config (vms : list Vm) (c : RouterConfig) : Prop :=
  Forall clean_rule (rules c) ∧ Forall (λ l, no_lf (subnet_cidr l)) (lans c)
  ∧ (∀ node m iface z, zones c !! node = Some m → m !! iface = Some z → no_lf iface)
  ∧ Forall (λ v, from_option no_lf True (wolfnet_ip v)) vms.

Lemma extend_all_Forall {E A B} (P : B → Prop) (f : A → res E (list B)) l ys :
  (∀ x zs, x ∈ l → f x = Ok zs → Forall P zs) → extend_all f l = Ok ys → Forall P ys.
Proof.
  revert ys. induction l as [|x l IH]; intros ys Hf H; cbn in H; [by injection H as <-|].
  inv_res. apply Forall_app. split; [eapply Hf; [by left|done]|]. eapply IH; [|done]. intros. eapply Hf; [by right|done].
Qed.

Section Build.
Context {HZ : HashOrder Zone} (vms : list Vm).

Lemma no_lf_chain d : no_lf ("-A " +:+ chain_of d).
Proof. by destruct d. Qed.

Lemma expand_clean ep src cfg node opts :
  clean_config vms cfg → clean_endpoint ep → expand_endpoint vms ep src cfg node = Ok opts →
  Forall (Forall no_lf) opts.
Proof.
  intros (_ & Hlans & Hzones & Hvms) Hep H.
  assert (∀ a b s, no_lf a → no_lf b → no_lf s → Forall (Forall no_lf) [[(if src then a else b) +:+ s]]) as Hone.
  { intros. repeat constructor. apply no_lf_app. by destruct src. }
  destruct ep as [|zone|name|cidr|name|name|i]; cbn [expand_endpoint clean_endpoint] in *;
    try (injection H as <-; by apply Hone).
  - injection H as <-. repeat constructor.
  - case_bool_decide; injection H as <-; [constructor|]. apply Forall_fmap, Forall_forall. intros m Hm.
    unfold members_for_zone_on_node in Hm. destruct (zones cfg !! node) as [mm|] eqn:Hmm; [|by apply not_elem_of_nil in Hm].
    apply list_elem_of_fmap in Hm as ([iface z] & -> & [Hin _]%elem_of_retain).
    rewrite hm_iter_perm in Hin. apply elem_of_map_to_list in Hin.
    repeat constructor. apply no_lf_app. split; [by destruct src|by eapply Hzones].
  - destruct (List.find _ vms) as [v|] eqn:Hv; [|done]. destruct (wolfnet_ip v) as [ip|] eqn:Hip; [|done].
    injection H as <-. apply Hone; [done..|]. apply find_Some_elem in Hv as [Hv _].
    rewrite Forall_forall in Hvms. specialize (Hvms v Hv). rewrite Hip in Hvms. apply no_lf_app. by split.
  - destruct (List.find _ vms) as [v|] eqn:Hv; [|done]. destruct (wolfnet_ip v) as [ip|] eqn:Hip; [|done].
    injection H as <-. apply Hone; [done..|]. apply find_Some_elem in Hv as [Hv _].
    rewrite Forall_forall in Hvms. specialize (Hvms v Hv). rewrite Hip in Hvms. apply no_lf_app. by split.
  - destruct (List.find _ (lans cfg)) as [l|] eqn:Hl; [|done]. injection H as <-. apply Hone; [done..|].
    apply find_Some_elem in Hl as [Hl _]. by rewrite Forall_forall in Hlans; apply Hlans.
Qed.

Lemma expand_reason_clean ep src cfg node e :
  clean_endpoint ep → expand_endpoint vms ep src cfg node = Err e → no_lf e.
Proof.
  intros Hep H. destruct ep as [|zone|name|cidr|name|name|i]; cbn [expand_endpoint clean_endpoint] in *; try done.
  - by case_bool_decide.
  - destruct (List.find _ vms) as [v|]; [destruct (wolfnet_ip v); [done|]|]; injection H as <-;
      rewrite !no_lf_app; by split_and!.
  - destruct (List.find _ vms) as [v|]; [destruct (wolfnet_ip v); [done|]|]; injection H as <-;
      rewrite !no_lf_app; by split_and!.
  - destruct (List.find _ (lans cfg)); [done|]. injection H as <-. rewrite !no_lf_app; by split_and!.
Qed.

Lemma join_chain d (l : list string) :
  ∃ s, join " " (("-A " +:+ chain_of d) :: l) = "-A WOLF" +:+ s.
Proof.
  set (tail := match d with Forward => "ROUTER_FWD" | Input => "ROUTER_IN" | Output => "ROUTER_OUT" end).
  destruct l as [|x l]; cbn [join].
  - exists tail. subst tail. destruct d; reflexivity.
  - exists (tail +:+ " " +:+ join " " (x :: l)). subst tail. destruct d; reflexivity.
Qed.

Lemma own_join d l : Forall no_lf l → own_line (join " " (("-A " +:+ chain_of d) :: l)).
Proof.
  intros Hl. assert (no_lf (join " " (("-A " +:+ chain_of d) :: l))) as Hno.
  { apply no_lf_join; [done|]. constructor; [apply no_lf_chain|done]. }
  destruct (join_chain d l) as [s Hs]. rewrite Hs in *. apply own_rule. apply no_lf_app in Hno as [_ ?]. done.
Qed.

Lemma emit_own rule d proto f t ls :
  clean_rule rule → Forall no_lf f → Forall no_lf t → (∀ p, proto = Some p → no_lf p) →
  emit_rule rule (chain_of d) proto f t = Ok ls → Forall own_line ls.
Proof.
  intros (Hid & _ & _ & Hports) Hf Ht Hp H. unfold emit_rule in H. cbn [app] in H.
  set (body := _ ++ f ++ _) in H.
  assert (Forall no_lf body) as Hbody.
  { unfold body. repeat apply Forall_app_2; try done.
    - destruct proto as [p|]; [|done]. repeat constructor. apply no_lf_app. split; [done|by apply Hp].
    - destruct (bool_decide (proto = _ ∨ _)); [|constructor]. apply Forall_fmap. eapply Forall_impl; [exact Hports|]. intros ps Hps. cbn.
      unfold port_flag. apply no_lf_app. split; [by destruct (bool_decide (side ps = Dst))|]. by apply no_lf_replace.
    - by destruct (state_track rule); repeat constructor. }
  assert (∀ l, Forall no_lf l → own_line (join " " (("-A " +:+ chain_of d) :: body ++ l))) as Hown.
  { intros l Hl. apply own_join. by apply Forall_app_2. }
  destruct (log_match rule || _).
  - apply bind_Ok in H as (short & Hshort & H). injection H as <-.
    assert (no_lf short) as Hs.
    { unfold slice_to in Hshort. destruct (is_char_boundary _ _); [|done]. injection Hshort as <-. by apply no_lf_take. }
    apply Forall_cons. split; [|apply Forall_singleton].
    + apply Hown. repeat (apply Forall_cons; split); try done. by rewrite !no_lf_app.
    + apply Hown, Forall_singleton. by destruct (action rule).
  - injection H as <-. apply Forall_singleton, Hown, Forall_singleton. by destruct (action rule).
Qed.

Lemma compile_own rule cfg node ls :
  clean_config vms cfg → clean_rule rule → compile_rule vms rule cfg node = Ok ls → Forall own_line ls.
Proof.
  intros Hc Hr H. pose proof Hr as (Hid & Hfrom & Hto & _). unfold compile_rule in H.
  assert (∀ why, no_lf why → Forall own_line [skipped rule why]) as Hskip.
  { intros why Hw. apply Forall_singleton, own_comment. by rewrite !no_lf_app. }
  destruct (expand_endpoint vms (from rule) true cfg node) as [fs|e|] eqn:Hf; [|injection H as <-|done].
  2:{ exact (Hskip _ (expand_reason_clean _ _ _ _ _ Hfrom Hf)). }
  destruct fs as [|f fs]; [injection H as <-; by apply Hskip|].
  destruct (expand_endpoint vms (to rule) false cfg node) as [ts|e|] eqn:Ht; [|injection H as <-|done].
  2:{ exact (Hskip _ (expand_reason_clean _ _ _ _ _ Hto Ht)). }
  destruct ts as [|t ts]; [injection H as <-; by apply Hskip|].
  pose proof (expand_clean _ _ _ _ _ Hc Hfrom Hf) as HF. pose proof (expand_clean _ _ _ _ _ Hc Hto Ht) as HT.
  rewrite Forall_forall in HF, HT.
  eapply extend_all_Forall; [|exact H]. intros p ps Hp Hps. eapply extend_all_Forall; [|exact Hps].
  intros f' fs' Hf' Hfs. eapply extend_all_Forall; [|exact Hfs]. intros t' ts' Ht' Hts.
  eapply emit_own; [done|by apply HF|by apply HT| |exact Hts]. intros q ->.
  assert (q ∈ ["tcp"; "udp"; "icmp"]) as Hq by (destruct (protocol rule); cbn in Hp; set_solver).
  repeat (apply elem_of_cons in Hq as [->|Hq]; [done|]). by apply not_elem_of_nil in Hq.
Qed.

Lemma scaffold_own : Forall own_line scaffold.
Proof. by repeat (apply Forall_cons; split); try constructor. Qed.

Lemma threat_own enforced : Forall own_line (iptables_lines_v4 enforced).
Proof. by destruct enforced; repeat (apply Forall_cons; split); try constructor. Qed.

(** The check that is to refuse rules which would lock the operator out
    refuses none: whatever the rules, the operator's address and the
    management ports, a script compiled from rules without line feeds raises
    no concern, because it names only the router's own chains. *)
Theorem preflight_never_objects cfg node enforced ruleset peer mgmt :
  clean_config vms cfg →
  build_ruleset vms cfg node enforced = Ok ruleset →
  analyse_ruleset_against_session ruleset peer mgmt = [].
Proof.
  intros Hc H. unfold build_ruleset in H. apply bind_Ok in H as (body & Hbody & H).
  apply (f_equal (λ r, match r with Ok x => x | _ => ruleset end)) in H. cbn beta iota in H. subst ruleset.
  assert (Forall own_line body) as Hb.
  { eapply extend_all_Forall; [|exact Hbody]. intros r ls Hr. apply compile_own; [done|].
    destruct Hc as (Hrules & _). rewrite Forall_forall in Hrules. apply Hrules.
    unfold ordered_rules in Hr. rewrite sort_by_perm in Hr. by apply elem_of_retain in Hr as [? _]. }
  set (ls := scaffold ++ iptables_lines_v4 enforced ++ body ++ ["COMMIT"]). assert (Forall own_line ls) as Hls.
  { repeat apply Forall_app_2; [apply scaffold_own|apply threat_own|done|by apply Forall_singleton]. }
  unfold analyse_ruleset_against_session. destruct peer as [p|]; [|done]. case_bool_decide; [done|].
  rewrite lines_unlines by (eapply Forall_impl; [exact Hls|]; by intros ? [? _]).
  induction Hls as [|l ls' Hl _ IH]; [done|]. cbn. by rewrite own_line_silent.
Qed.
End Build.

(** ** A rule that locks everyone out *)
Module Lockout.
Definition zones_order : HashOrder Zone := canonical_order Zone.
Definition lockout_rule : FirewallRule :=
  {| id := "rule-1"; enabled := true; order := 1; action := Deny; direction := Input; from := AnyEnd; to := AnyEnd;
     protocol := Tcp; ports := [{| port := "8553"; side := Dst |}]; state_track := true; log_match := false;
     comment := ""; node_id := None |}.
Definition lockout : RouterConfig :=
  {| zones := ∅; lans := []; rules := [lockout_rule]; auto_apply := true; safe_mode_seconds := 30 |}.

(** The script drops every new connection to the management port. *)
Definition script : string :=
  match build_ruleset (HZ:=zones_order) [] lockout "ws-1" false with Ok s => s | _ => "" end.
Example script_drops :
  contains_str "-A WOLFROUTER_IN -p tcp --dport 8553 -m conntrack --ctstate NEW -j DROP" script = true.
Proof. by vm_compute. Qed.
(** The scan would have seen the rule in the chain INPUT. *)
Example scan_sees_input :
  length (analyse_ruleset_against_session "-A INPUT -p tcp --dport 8553 -j DROP" (Some "192.168.1.50") [8553; 8554]) = 1%nat.
Proof. by vm_compute. Qed.

Lemma preflight_never_objects_witness :
  build_ruleset (HZ:=zones_order) [] lockout "ws-1" false = Ok script ∧
  analyse_ruleset_against_session script (Some "192.168.1.50") [8553; 8554] = [].
Proof.
  assert (build_ruleset (HZ:=zones_order) [] lockout "ws-1" false = Ok script) as H by (by vm_compute).
  split; [exact H|]. refine (preflight_never_objects (HZ:=zones_order) [] lockout "ws-1" false script _ _ _ H).
  split; [by repeat constructor|]. split; [constructor|]. split; [|constructor].
  intros node m iface z Hn. change ((∅ : gmap string (gmap string Zone)) !! node = Some m) in Hn. by rewrite lookup_empty in Hn.
Defined.
End Lockout.
