(* ===== verification/SafeModeInv.v ===== *)
(** * The life of an operation under the dead man's switch

    Each registered operation goes through the phases of [Phase], whatever
    requests, ticks and steps of threads come in between. *)
From S2P Require Import Prelude Net Firewall Danger SafeMode FirewallProps.

(** ** The life of an operation *)
Inductive Phase := New | Armed | Kept | Rolling | Undone.

(** What may become of an operation: it is kept or undone, and both are
    final. *)
Inductive move : Phase → Phase → Prop :=
| move_arm : move New Armed
| move_keep : move Armed Kept
| move_take : move Armed Rolling
| move_undo : move Rolling Undone.

Section Phases.
Context {K : Type}.
Implicit Types (R : Registry K) (T : list (Thread K)) (C : list string) (i : string).

Definition holds i (t : Thread K) : option (Stage K) :=
  match cur t with Some (i', st) => if bool_decide (i' = i) then Some st else None | None => None end.
Definition holders T i : list (Stage K) := omap (holds i) T.
Definition calls C i : nat := length (filter (λ x, x = i) C).

Definition status_is R i (P : string → Prop) : Prop := ∀ en, R !! i = Some en → P (status (meta en)).

Definition in_phase (ph : Phase) R T C i : Prop :=
  match ph with
  | New => R !! i = None ∧ holders T i = [] ∧ calls C i = 0%nat
  | Armed => (∃ en, R !! i = Some en ∧ status (meta en) = "pending" ∧ is_Some (rollback en))
             ∧ holders T i = [] ∧ calls C i = 0%nat
  | Kept => status_is R i (λ s, s = "confirmed") ∧ holders T i = [] ∧ calls C i = 0%nat
  | Rolling => (∃ en, R !! i = Some en ∧ status (meta en) = "rolling_back")
               ∧ (∃ f, holders T i = [Taken (Some f)]) ∧ calls C i = 0%nat
  | Undone => status_is R i (λ s, s ≠ "pending" ∧ s ≠ "confirmed")
              ∧ (holders T i = [] ∨ ∃ r, holders T i = [Ran r]) ∧ calls C i = 1%nat
  end.

(** [i] stays where it is or takes one move, which is not its first. *)
Definition advances ph R T C i : Prop := ∃ ph', in_phase ph' R T C i ∧ (ph' = ph ∨ move ph ph' ∧ ph ≠ New).

Lemma advances_same ph R T C i : in_phase ph R T C i → advances ph R T C i.
Proof. exists ph. auto. Qed.

(** Only the entry of [i] matters. *)
Lemma in_phase_reg ph R R' T C i : R' !! i = R !! i → in_phase ph R T C i → in_phase ph R' T C i.
Proof. intros H. destruct ph; cbn; unfold status_is; by rewrite H. Qed.
Lemma in_phase_threads ph R T T' C i : holders T' i = holders T i → in_phase ph R T C i → in_phase ph R T' C i.
Proof. intros H. destruct ph; cbn; by rewrite H. Qed.

Lemma holders_app T1 T2 i : holders (T1 ++ T2) i = holders T1 i ++ holders T2 i.
Proof. apply omap_app. Qed.
Lemma holders_idle T i t : holds i t = None → holders (T ++ [t]) i = holders T i.
Proof. intros H. rewrite holders_app. unfold holders at 2. cbn. rewrite H. apply app_nil_r. Qed.

(** Replacing the thread at [j]. *)
Lemma holders_insert T j t t' i :
  T !! j = Some t →
  ∃ a b, holders T i = a ++ option_list (holds i t) ++ b ∧
         holders (<[j := t']> T) i = a ++ option_list (holds i t') ++ b.
Proof.
  intros Hj. exists (holders (take j T) i), (holders (drop (S j) T) i). split.
  - rewrite <-(take_drop_middle T j t Hj) at 1. rewrite holders_app. f_equal.
    unfold holders. cbn. by destruct (holds i t).
  - rewrite insert_take_drop by by eapply lookup_lt_Some. rewrite holders_app. f_equal.
    unfold holders. cbn. by destruct (holds i t').
Qed.
Lemma holders_insert_same T j t t' i :
  T !! j = Some t → holds i t' = holds i t → holders (<[j := t']> T) i = holders T i.
Proof. intros Hj H. destruct (holders_insert T j t t' i Hj) as (a & b & -> & ->). by rewrite H. Qed.

Lemma calls_cons C i x : calls (x :: C) i = ((if decide (x = i) then 1 else 0) + calls C i)%nat.
Proof. unfold calls. rewrite filter_cons. by case_decide. Qed.

(** *** The operations of danger.rs *)
Lemma schedule_advances ph now unix i0 type desc ttl f R T C i :
  (i = i0 → ph = New) → in_phase ph R T C i →
  ∃ ph', in_phase ph' (schedule now unix i0 type desc ttl f R) T C i ∧ (ph' = ph ∨ i = i0 ∧ move ph ph').
Proof.
  intros Hnew H. destruct (decide (i = i0)) as [->|Hne].
  - rewrite Hnew in * by done. destruct H as (_ & Hh & Hc). exists Armed. split; [|right; split; [done|constructor]].
    split; [|by split]. eexists. unfold schedule. rewrite lookup_insert_eq. split; [done|]. split; [done|by eexists].
  - exists ph. split; [|by left]. eapply in_phase_reg; [|exact H]. unfold schedule. by rewrite lookup_insert_ne.
Qed.

Lemma confirm_advances ph i0 R T C i :
  in_phase ph R T C i → advances ph (confirm i0 R).2 T C i.
Proof.
  intros H. unfold confirm. destruct (R !! i0) as [en|] eqn:Hi0; [|by apply advances_same].
  case_bool_decide; [by apply advances_same|].
  destruct (bool_decide (status (meta en) = "pending")) eqn:Hp; cbn [negb snd]; [|by apply advances_same].
  apply bool_decide_eq_true in Hp. destruct (decide (i = i0)) as [->|Hne].
  2:{ apply advances_same. eapply in_phase_reg; [|exact H]. by rewrite lookup_insert_ne. }
  destruct ph; cbn in H.
  - destruct H as (H & _). congruence.
  - exists Kept. split; [|right; by split; [constructor|]]. destruct H as (_ & Hh & Hc). split; [|by split].
    intros en'. rewrite lookup_insert_eq. by intros [= <-].
  - destruct H as (H & _). specialize (H _ Hi0). cbn in H. congruence.
  - destruct H as ((en' & H & Hs) & _). congruence.
  - destruct H as (H & _). specialize (H _ Hi0). cbn in H. naive_solver.
Qed.

(** A confirmation that succeeds leaves the operation kept. *)
Lemma confirm_keeps ph i R T C :
  in_phase ph R T C i → is_ok (confirm i R).1 = true → in_phase Kept (confirm i R).2 T C i.
Proof.
  intros H. unfold confirm. destruct (R !! i) as [en|] eqn:Hi; [|done].
  destruct (bool_decide (status (meta en) = "confirmed")) eqn:Hc.
  - intros _. apply bool_decide_eq_true in Hc. destruct ph; cbn in *.
    + destruct H; congruence.
    + destruct H as ((en' & ? & ? & _) & _). congruence.
    + done.
    + destruct H as ((en' & ? & ?) & _). congruence.
    + destruct H as (H & _). specialize (H _ Hi). cbn in H. naive_solver.
  - destruct (bool_decide (status (meta en) = "pending")) eqn:Hp; cbn [negb fst snd is_ok]; [|done].
    intros _. apply bool_decide_eq_true in Hp. destruct ph; cbn in H |- *.
    + destruct H; congruence.
    + destruct H as (_ & Hh & Hcalls). split; [|by split]. intros en'. rewrite lookup_insert_eq. by intros [= <-].
    + destruct H as (H & _). specialize (H _ Hi). cbn in H. congruence.
    + destruct H as ((en' & ? & ?) & _). congruence.
    + destruct H as (H & _). specialize (H _ Hi). cbn in H. naive_solver.
Qed.

(** The thread that takes a closure, at [j] or as a new one. *)
Lemma take_Ok i0 R f R' :
  take_rollback i0 R = (Ok f, R') →
  ∃ en, R !! i0 = Some en ∧ status (meta en) = "pending" ∧ f = rollback en ∧
        R' = <[i0 := set_status "rolling_back" en <| rollback := None |>]> R.
Proof.
  unfold take_rollback. destruct (R !! i0) as [en|]; [|done].
  destruct (bool_decide (status (meta en) = "pending")) eqn:Hp; cbn [negb]; [|done].
  apply bool_decide_eq_true in Hp. intros [= <- <-]. by exists en.
Qed.
Lemma take_other i0 R : is_ok (take_rollback i0 R).1 = false → (take_rollback i0 R).2 = R.
Proof.
  unfold take_rollback. destruct (R !! i0) as [en|]; [|done]. by destruct (bool_decide (status (meta en) = "pending")).
Qed.

Lemma taken_advances ph i0 R f R' T T' C i a b :
  take_rollback i0 R = (Ok f, R') →
  holders T i = a ++ b →
  holders T' i = a ++ (if bool_decide (i0 = i) then [Taken f] else []) ++ b →
  in_phase ph R T C i → advances ph R' T' C i.
Proof.
  intros (en & Hi0 & Hp & -> & ->)%take_Ok HT HT' H. case_bool_decide as Hi; subst.
  2:{ apply advances_same. apply (in_phase_threads _ _ T); [by rewrite HT', HT|].
      eapply in_phase_reg; [|exact H]. by rewrite lookup_insert_ne. }
  destruct ph; cbn in H.
  - destruct H; congruence.
  - destruct H as ((en' & Hi & _ & [f Hf]) & Hh & Hc). simplify_eq. exists Rolling. split; [|right; by split; [constructor|]].
    split; [|split; [|done]].
    + eexists. rewrite lookup_insert_eq. by split.
    + exists f. rewrite Hh in HT. symmetry in HT. apply app_nil in HT as [-> ->]. by rewrite HT', Hf.
  - destruct H as (H & _). specialize (H _ Hi0). cbn in H. congruence.
  - destruct H as ((en' & ? & ?) & _). congruence.
  - destruct H as (H & _). specialize (H _ Hi0). cbn in H. naive_solver.
Qed.

(** What a thread that holds [i] says about its phase. *)
Lemma holder_phase ph R T C i j t st :
  T !! j = Some t → holds i t = Some st → in_phase ph R T C i →
  ((∃ f, st = Taken (Some f)) ∧ ph = Rolling ∨ (∃ r, st = Ran r) ∧ ph = Undone) ∧
  ∀ t', holders (<[j := t']> T) i = option_list (holds i t').
Proof.
  intros Hj Hst H. assert (∃ st', holders T i = [st'] ∧
      ((∃ f, st' = Taken (Some f)) ∧ ph = Rolling ∨ (∃ r, st' = Ran r) ∧ ph = Undone)) as (st' & Hh & Hph).
  { destruct (holders_insert T j t t i Hj) as (a & b & Hh & _). rewrite Hst in Hh. cbn in Hh.
    assert (holders T i ≠ []) as Hne by (rewrite Hh; by destruct a).
    destruct ph; cbn in H; try (by destruct H as (_ & ? & _)).
    - destruct H as (_ & [f Hf] & _). exists (Taken (Some f)). split; [done|]. left. split; [by eexists|done].
    - destruct H as (_ & [?|[r Hr]] & _); [done|]. exists (Ran r). split; [done|]. right. split; [by eexists|done]. }
  assert (st' = st ∧ ∀ t', holders (<[j := t']> T) i = option_list (holds i t')) as [-> ?].
  { split.
    - destruct (holders_insert T j t t i Hj) as (a & b & Hab & _). rewrite Hh, Hst in Hab. destruct a as [|? [|]]; by simplify_eq/=.
    - intros t'. destruct (holders_insert T j t t' i Hj) as (a & b & Hab & ->). rewrite Hh, Hst in Hab.
      destruct a as [|? [|]]; simplify_eq/=. by rewrite app_nil_r. }
  done.
Qed.

Lemma called_advances ph R T C i j t' st :
  in_phase ph R T C i → ph = Rolling →
  holders (<[j := t']> T) i = option_list st → (st = None ∨ ∃ r, st = Some (Ran r)) →
  advances ph R (<[j := t']> T) (i :: C) i.
Proof.
  intros H -> Hh Hst. destruct H as ((en & Hi & Hs) & _ & Hc). exists Undone. split; [|right; by split; [constructor|]].
  split; [|split].
  - intros en'. rewrite Hi. intros [= <-]. by rewrite Hs.
  - rewrite Hh. destruct Hst as [->|[r ->]]; [by left|right; by exists r].
  - rewrite calls_cons, Hc. by rewrite decide_True.
Qed.

Lemma record_advances ph i r R T T' C :
  in_phase ph R T C i → ph = Undone → holders T' i = [] → in_phase ph (record_outcome i r R) T' C i.
Proof.
  intros H -> Hh. destruct H as (Hs & _ & Hc). split; [|by split; [left|]].
  unfold record_outcome. destruct (R !! i) as [en|] eqn:Hi; [|intros ?; congruence].
  destruct r; intros en'; rewrite ?lookup_insert_eq, ?Hi; intros [= <-]; [done|done|by apply Hs].
Qed.

Lemma record_other i i' r R : i ≠ i' → record_outcome i' r R !! i = R !! i.
Proof. intros. unfold record_outcome. destruct (R !! i'), r; by rewrite ?lookup_insert_ne. Qed.

Lemma sweep_advances ph now R T C i : in_phase ph R T C i → in_phase ph (sweep now R) T C i.
Proof.
  assert (∀ en, sweep now R !! i = Some en → R !! i = Some en) as Hsub.
  { intros en. unfold sweep. rewrite map_lookup_filter_Some. naive_solver. }
  assert (∀ en, R !! i = Some en → status (meta en) ∈ ["pending"; "rolling_back"] → sweep now R !! i = Some en) as Hkeep.
  { intros en Hen Hs. unfold sweep. rewrite map_lookup_filter_Some. split; [done|]. unfold keep_op.
    cbn. by rewrite bool_decide_true. }
  destruct ph; cbn; unfold status_is.
  - intros (Hn & ? & ?). split_and!; [|done..]. apply eq_None_not_Some. intros [en ?%Hsub]. congruence.
  - intros ((en & Hen & Hp & ?) & ? & ?). split_and!; [|done..]. exists en. split_and!; [|done..].
    apply Hkeep; [done|]. rewrite Hp. by left.
  - intros (Hs & ? & ?). split_and!; [|done..]. auto.
  - intros ((en & Hen & Hp) & ? & ?). split_and!; [|done..]. exists en. split; [|done].
    apply Hkeep; [done|]. rewrite Hp. right. by left.
  - intros (Hs & ? & ?). split_and!; [|done..]. auto.
Qed.

(** *** A step of a thread *)
Lemma thread_advances `{!HashOrder (OpEntry K)} ph now R T C i j t (k : K) t' R' k' c :
  T !! j = Some t → step_thread now t R k = (t', R', k', c) → in_phase ph R T C i →
  advances ph R' (<[j := t']> T) (match c with Some x => x :: C | None => C end) i.
Proof.
  intros Hj Hstep H. destruct t as [[[i0 [f|r]]|] rest]; cbn [step_thread] in Hstep.
  - destruct (run_rollback f k) as [r k1] eqn:Hr.
    assert (R' = R ∧ c = (match f with Some _ => Some i0 | None => None end) ∧
            (t' = idle ∨ t' = {| cur := Some (i0, Ran r); todo := rest |})) as (-> & -> & Ht').
    { destruct r; simplify_eq/=; auto. }
    destruct (decide (i0 = i)) as [->|Hne].
    + assert (holds i {| cur := Some (i, Taken f); todo := rest |} = Some (Taken f)) as Hh by (unfold holds; cbn; by rewrite bool_decide_true).
      destruct (holder_phase _ _ _ _ _ _ _ _ Hj Hh H) as [Hph Hnew].
      destruct Hph as [[[f0 [= ->]] ->]|[[? ?] _]]; [|done].
      eapply called_advances; [exact H|done|apply Hnew|].
      destruct Ht' as [->| ->]; [by left|right]. exists r. unfold holds. cbn. by rewrite bool_decide_true.
    + apply advances_same. apply (in_phase_threads _ _ T).
      { apply (holders_insert_same _ _ _ _ _ Hj). unfold holds. cbn. rewrite bool_decide_false by done.
        destruct Ht' as [->| ->]; cbn; by rewrite ?bool_decide_false. }
      destruct f; [|done]. destruct ph; unfold in_phase in *; rewrite calls_cons, decide_False by done; exact H.
  - simplify_eq/=. apply advances_same. destruct (decide (i0 = i)) as [->|Hne].
    + assert (holds i {| cur := Some (i, Ran r); todo := rest |} = Some (Ran r)) as Hh by (unfold holds; cbn; by rewrite bool_decide_true).
      destruct (holder_phase _ _ _ _ _ _ _ _ Hj Hh H) as [Hph Hnew].
      destruct Hph as [[[? ?] _]|[_ ->]]; [done|]. by eapply record_advances; [exact H|done|apply Hnew].
    + apply (in_phase_threads _ _ T).
      { apply (holders_insert_same _ _ _ _ _ Hj). unfold holds. cbn. by rewrite bool_decide_false. }
      eapply in_phase_reg; [|exact H]. by apply record_other.
  - destruct rest as [[|i0 rest]|]; simplify_eq/=.
    + apply advances_same, sweep_advances. apply (in_phase_threads _ _ T); [|exact H].
      by apply (holders_insert_same _ _ _ _ _ Hj).
    + destruct (take_rollback i0 R) as [[f|e|] R1] eqn:Htake; simplify_eq/=.
      * destruct (holders_insert T j {| cur := None; todo := Some (i0 :: rest) |}
                    {| cur := Some (i0, Taken f); todo := Some rest |} i Hj) as (a & b & Ha & Hb).
        eapply taken_advances; [exact Htake|exact Ha| |exact H]. rewrite Hb. unfold holds. cbn.
        by case_bool_decide.
      * assert (R' = R) as -> by (pose proof (take_other i0 R) as E; rewrite Htake in E; by apply E).
        apply advances_same, (in_phase_threads _ _ T); [|exact H]. by apply (holders_insert_same _ _ _ _ _ Hj).
      * assert (R' = R) as -> by (pose proof (take_other i0 R) as E; rewrite Htake in E; by apply E).
        apply advances_same, (in_phase_threads _ _ T); [|exact H]. by apply (holders_insert_same _ _ _ _ _ Hj).
    + apply advances_same, (in_phase_threads _ _ T); [|exact H]. by rewrite list_insert_id.
Qed.
End Phases.

(** ** Steps of a node *)
Section Node.
Context {K : Type} `{!Shell K} {HZ : HashOrder Zone} {HO : HashOrder (OpEntry K)}.
Implicit Types (e : Env) (n : Node K) (i : string).

Definition phase_is (ph : Phase) n i : Prop := in_phase ph (reg n) (threads n) (called n) i.

(** The part of a node the switch owns. *)
Definition same_switch n n' : Prop := reg n' = reg n ∧ threads n' = threads n ∧ called n' = called n.

Lemma same_switch_phase ph n n' i : same_switch n n' → phase_is ph n i → phase_is ph n' i.
Proof. unfold phase_is. by intros (-> & -> & ->). Qed.

(** Where a change of the configuration leaves the rest. *)
Lemma config_write_switch e f g n :
  same_switch n (with_config_write e f g n).2 ∧
  rollback_deadline (router (with_config_write e f g n).2) = rollback_deadline (router n) ∧
  last_applied_rules (router (with_config_write e f g n).2) = last_applied_rules (router n) ∧
  firewall_apply_danger_id (router (with_config_write e f g n).2) = firewall_apply_danger_id (router n).
Proof.
  unfold with_config_write. destruct (poisoned (router n)); [done|]. destruct (save_ok e); [|done].
  cbn [negb]. destruct (auto_apply _); [|done]. cbn [negb].
  destruct (build_ruleset _ _ _ _); [|done..]. by destruct (apply _ _ _ _) as [[] ?].
Qed.

Lemma edit_switch e view c n :
  same_switch n (edit e view c n).2 ∧
  rollback_deadline (router (edit e view c n).2) = rollback_deadline (router n) ∧
  last_applied_rules (router (edit e view c n).2) = last_applied_rules (router n) ∧
  firewall_apply_danger_id (router (edit e view c n).2) = firewall_apply_danger_id (router n).
Proof.
  destruct c as [fresh rule|i rule|i|ids|node iface zone]; cbn [edit].
  - unfold create_rule. destruct (cluster_guard_node_id _ _); [done|]. apply config_write_switch.
  - unfold update_rule. destruct (bool_decide (id rule = i)); [|done]. cbn [negb].
    destruct (poisoned _); [done|]. destruct (cluster_guard_existing_rule _ _ _); [done|].
    destruct (cluster_guard_node_id _ _); [done|]. destruct (rule_by_id _ _); [|done]. apply config_write_switch.
  - unfold delete_rule. destruct (poisoned _); [done|]. destruct (cluster_guard_existing_rule _ _ _); [done|].
    apply config_write_switch.
  - apply config_write_switch.
  - unfold assign_zone. destruct (cluster_guard_node_id _ _); [done|]. apply config_write_switch.
Qed.

Lemma receive_switch e cfg n :
  same_switch n (receive_config e cfg n).2 ∧
  rollback_deadline (router (receive_config e cfg n).2) = rollback_deadline (router n) ∧
  last_applied_rules (router (receive_config e cfg n).2) = last_applied_rules (router n) ∧
  firewall_apply_danger_id (router (receive_config e cfg n).2) = firewall_apply_danger_id (router n).
Proof.
  unfold receive_config. destruct (poisoned (router n)); [done|]. destruct (save_ok e); [|done].
  cbn [negb]. destruct (auto_apply _); [|done]. cbn [negb]. by destruct (build_ruleset _ _ _ _).
Qed.

Lemma startup_switch e w n : same_switch n (apply_startup e w n).
Proof.
  unfold apply_startup. destruct (poisoned _ || _); [done|]. destruct (build_ruleset _ _ _ _); [|done..].
  by destruct (apply _ _ _ _) as [[] ?].
Qed.
Lemma watch_switch e n : same_switch n (watch e n).
Proof. unfold watch. destruct (rollback_deadline _); [|done]. by destruct (unix e <? _). Qed.

(** What an application that succeeded has done. *)
Lemma apply_now_inv e raw xff i n ttl i' n' :
  apply_rules_now e raw xff i n = (RApplied ttl i', n') →
  i' = i ∧ ∃ ruleset prev,
    build_ruleset (vms e) (config (router n)) (self_id e) (enforced e) = Ok ruleset ∧
    (apply ruleset false (enforced e) (host n)).1 = Ok prev ∧
    let secs := safe_mode_seconds (config (router n)) in
    ttl = (if 0 <? secs then secs else DEFAULT_TTL) ∧
    reg n' = schedule (now e) (unix e) i "firewall_apply" "WolfRouter firewall rules applied" ttl
               (revert_to prev) (reg n) ∧
    threads n' = threads n ∧ called n' = called n ∧ host n' = (apply ruleset false (enforced e) (host n)).2 ∧
    config (router n') = config (router n) ∧ poisoned (router n') = poisoned (router n) ∧
    last_applied_rules (router n') = Some prev ∧ firewall_apply_danger_id (router n') = Some i ∧
    rollback_deadline (router n') = (if 0 <? secs then Some (unix e + secs) else rollback_deadline (router n)).
Proof.
  unfold apply_rules_now. destruct (poisoned (router n)) eqn:Hp; [done|].
  destruct (build_ruleset _ _ _ _) as [ruleset|x|] eqn:Hb; [|done..].
  destruct (bool_decide (analyse_ruleset_against_session _ _ _ = [])); cbn [negb]; [|done].
  destruct (apply ruleset false (enforced e) (host n)) as [[prev|x|] k] eqn:Ha; [|done..].
  intros [= <- <- <-]. split; [done|]. exists ruleset, prev. rewrite Ha. split_and!; try done.
  all: by destruct (0 <? safe_mode_seconds (config (router n))).
Qed.

Lemma apply_now_other e raw xff i n :
  (∀ ttl i', (apply_rules_now e raw xff i n).1 ≠ RApplied ttl i') →
  same_switch n (apply_rules_now e raw xff i n).2.
Proof.
  unfold apply_rules_now. destruct (poisoned (router n)); [done|].
  destruct (build_ruleset _ _ _ _) as [ruleset|x|]; [|done..].
  destruct (bool_decide (analyse_ruleset_against_session _ _ _ = [])); cbn [negb]; [|done].
  destruct (apply ruleset false (enforced e) (host n)) as [[prev|x|] k]; [|done..].
  intros H. by exfalso; eapply H.
Qed.

Lemma step_advances es n i ph :
  phase_is ph n i → (i ∈ drawn es.2 → ph = New) →
  ∃ ph', phase_is ph' (step es n).2 i ∧ (ph' = ph ∨ move ph ph') ∧ (i ∉ drawn es.2 → ph = New → ph' = New).
Proof.
  intros H Hnew. destruct es as [e s]. cbn in Hnew |- *.
  assert (∀ n', advances ph (reg n') (threads n') (called n') i →
          ∃ ph', phase_is ph' n' i ∧ (ph' = ph ∨ move ph ph') ∧ (i ∉ drawn s → ph = New → ph' = New)) as Hadv.
  { intros n' (ph' & ? & Hph). exists ph'. split; [done|]. naive_solver. }
  assert (∀ n', same_switch n n' →
          ∃ ph', phase_is ph' n' i ∧ (ph' = ph ∨ move ph ph') ∧ (i ∉ drawn s → ph = New → ph' = New)) as Hsame.
  { intros n' Hn. apply Hadv, advances_same. by eapply same_switch_phase. }
  assert (∀ n' e' type desc ttl f i0, drawn s = [i0] →
          reg n' = schedule (now e') (unix e') i0 type desc ttl f (reg n) → threads n' = threads n → called n' = called n →
          ∃ ph', phase_is ph' n' i ∧ (ph' = ph ∨ move ph ph') ∧ (i ∉ drawn s → ph = New → ph' = New)) as Hsch.
  { intros n' e' type desc ttl f i0 Hd Hr Ht Hc. unfold phase_is. rewrite Hr, Ht, Hc, Hd in *.
    destruct (schedule_advances ph (now e') (unix e') i0 type desc ttl f (reg n) (threads n) (called n) i) as (ph' & ? & Hph);
      [intros ->; apply Hnew; set_solver|exact H|]. exists ph'. split; [done|]. set_solver. }
  destruct s as [raw xff i0|i0 type desc ttl f| |i0|i0| |j| |w|view c|cfg]; cbn [step snd].
  - destruct (apply_rules_now e raw xff i0 n) as [r n'] eqn:Ha.
    destruct r as [|ttl i'| | | | | | |]; try (apply Hsame;
      replace n' with (apply_rules_now e raw xff i0 n).2 by (by rewrite Ha); apply apply_now_other; by rewrite Ha).
    apply apply_now_inv in Ha as (-> & ruleset & prev & _ & _ & _ & Hr & Ht & Hc & _). by eapply Hsch.
  - by eapply Hsch.
  - unfold confirm_rules. destruct (firewall_apply_danger_id _) as [i1|]; [|by apply Hsame].
    apply Hadv. destruct (confirm i1 (reg n)) as [r reg'] eqn:Hc.
    pose proof (confirm_advances _ i1 _ _ _ _ H) as Ha. by rewrite Hc in Ha.
  - unfold danger_confirm. apply Hadv. destruct (confirm i0 (reg n)) as [r reg'] eqn:Hc.
    pose proof (confirm_advances _ i0 _ _ _ _ H) as Ha. by rewrite Hc in Ha.
  - unfold danger_rollback, begin_rollback. destruct (take_rollback i0 (reg n)) as [[f|x|] reg'] eqn:Ht; cbn.
    + apply Hadv.
      eapply (taken_advances ph i0 _ _ _ (threads n) (threads n ++ [{| cur := Some (i0, Taken f); todo := None |}])
                _ i (holders (threads n) i) []); [exact Ht|by rewrite app_nil_r| |exact H].
      rewrite holders_app. f_equal. unfold holders, holds. cbn. by case_bool_decide.
    + apply Hsame. pose proof (take_other i0 (reg n)) as E; rewrite Ht in E; specialize (E eq_refl); cbn in E; by subst reg'.
    + apply Hsame. pose proof (take_other i0 (reg n)) as E; rewrite Ht in E; specialize (E eq_refl); cbn in E; by subst reg'.
  - apply Hadv, advances_same. eapply in_phase_threads; [|exact H]. by apply holders_idle.
  - unfold run_thread. destruct (threads n !! j) as [t|] eqn:Hj; [|by apply Hsame]. apply Hadv.
    destruct (step_thread (now e) t (reg n) (host n)) as [[[t' R'] k'] c] eqn:Hs. by eapply thread_advances.
  - apply Hsame, watch_switch.
  - apply Hsame, startup_switch.
  - apply Hsame, edit_switch.
  - apply Hsame, receive_switch.
Qed.

(** ** Runs *)
Definition all_drawn (es : list (Env * Step K)) : list string := es ≫= λ x, drawn x.2.
Definition fresh_switch n : Prop := reg n = ∅ ∧ threads n = [] ∧ called n = [].

Lemma fresh_new n i : fresh_switch n → phase_is New n i.
Proof. unfold phase_is. by intros (-> & -> & ->). Qed.

Lemma run_life es n i ph :
  phase_is ph n i → (i ∈ all_drawn es → ph = New) → NoDup (all_drawn es) →
  ∃ ph', phase_is ph' (run es n) i ∧ rtc move ph ph'.
Proof.
  revert n ph. induction es as [|x es IH]; intros n ph H Hnew Hnd.
  { exists ph. split; [done|reflexivity]. }
  unfold all_drawn in *. cbn in Hnew, Hnd. apply NoDup_app in Hnd as (_ & Hdisj & Hnd).
  destruct (step_advances x n i ph H) as (ph1 & H1 & Hm & Hkeep); [intros; apply Hnew; set_solver|].
  destruct (IH (step x n).2 ph1 H1) as (ph' & H' & Hr); [|done|].
  - intros Hi. apply Hkeep; [by intros ?%Hdisj|]. apply Hnew. set_solver.
  - exists ph'. split; [done|]. destruct Hm as [->|Hm]; [done|]. by eapply rtc_l.
Qed.

Lemma run_new es n i : phase_is New n i → i ∉ all_drawn es → phase_is New (run es n) i.
Proof.
  revert n. induction es as [|x es IH]; intros n H Hi; [done|]. unfold all_drawn in *. cbn in Hi.
  destruct (step_advances x n i New H) as (ph & Hph & _ & Hkeep); [done|]. apply IH; [|set_solver].
  by rewrite <-(Hkeep ltac:(set_solver) eq_refl).
Qed.

Lemma run_app es1 es2 n : run (es1 ++ es2) n = run es2 (run es1 n).
Proof. apply foldl_app. Qed.

Lemma calls_zero C i : calls C i = 0%nat ↔ i ∉ C.
Proof.
  induction C as [|x C IH]; [split; [by intros _ ?%not_elem_of_nil|done]|].
  rewrite calls_cons, not_elem_of_cons, <-IH. case_decide; naive_solver lia.
Qed.

Lemma calls_NoDup C : (∀ i, (calls C i ≤ 1)%nat) → NoDup C.
Proof.
  induction C as [|x C IH]; intros H; [constructor|]. constructor.
  - apply calls_zero. specialize (H x). rewrite calls_cons, decide_True in H by done. lia.
  - apply IH. intros i. specialize (H i). rewrite calls_cons in H. lia.
Qed.

Lemma phase_calls ph n i : phase_is ph n i → (calls (called n) i ≤ 1)%nat.
Proof. destruct ph; cbn; intros (_ & _ & ->); lia. Qed.

Lemma kept_final es n i : phase_is Kept n i → i ∉ all_drawn es → NoDup (all_drawn es) → phase_is Kept (run es n) i.
Proof.
  intros H Hi Hnd. destruct (run_life es n i Kept H) as (ph & Hph & Hr); [done|done|].
  apply rtc_inv in Hr as [->|(? & Hm & _)]; [done|inversion Hm].
Qed.

(** ** When nothing is pending *)
Definition no_pending_but (P : string → Prop) n : Prop :=
  (∀ i en, reg n !! i = Some en → status (meta en) = "pending" → P i) ∧
  Forall (λ t, ∀ i st, cur t = Some (i, st) → P i) (threads n).
Definition quiet n : Prop := no_pending_but (λ _, False) n ∧ rollback_deadline (router n) = None.

Definition background (s : Step K) : Prop := match s with StartTick | RunThread _ | Watch => True | _ => False end.
Definition ordinary (s : Step K) : Prop := match s with DoEdit _ _ | Receive _ => True | _ => background s end.

Lemma background_ordinary s : background s → ordinary s.
Proof. by destruct s. Qed.

Lemma background_draws s : background s → drawn s = [].
Proof. by destruct s. Qed.

Lemma take_pending i0 R f R' (en : OpEntry K) :
  take_rollback i0 R = (Ok f, R') → R !! i0 = Some en → status (meta en) = "pending".
Proof. intros (en' & ? & ? & _)%take_Ok ?. by simplify_eq. Qed.

(** A thread that holds only operations in [P] and finds only such pending
    goes on holding only those. *)
Lemma thread_pending P now (t : Thread K) R (k : K) t' R' k' c :
  (∀ i en, R !! i = Some en → status (meta en) = "pending" → P i) →
  (∀ i st, cur t = Some (i, st) → P i) →
  step_thread now t R k = (t', R', k', c) →
  (∀ i en, R' !! i = Some en → status (meta en) = "pending" → P i) ∧
  (∀ i st, cur t' = Some (i, st) → P i) ∧
  ((∀ i, ¬ P i) → k' = k).
Proof.
  intros HR Ht. destruct t as [[[i0 [f|r]]|] [[|i1 rest]|]]; cbn [step_thread];
    try (intros [= <- <- <- <-]; split_and!; [|naive_solver|naive_solver];
         intros i en; unfold sweep; rewrite ?map_lookup_filter_Some; naive_solver).
  1-3: pose proof (Ht i0 _ eq_refl) as HP; destruct (run_rollback f k) as [[] k1]; intros [= <- <- <- <-];
       (split_and!; [done|naive_solver|intros Hno; by destruct (Hno i0)]).
  1-3: pose proof (Ht i0 _ eq_refl) as HP; intros [= <- <- <- <-]; (split_and!; [intros i en; destruct (decide (i = i0)) as [->|Hne]; [done|rewrite record_other by done; apply HR]
       |naive_solver|intros Hno; by destruct (Hno i0)]).
  destruct (take_rollback i1 R) as [[f|e|] R1] eqn:Htake; intros [= <- <- <- <-].
  - apply take_Ok in Htake as (en & Hen & Hp & -> & ->). pose proof (HR _ _ Hen Hp) as HP. split_and!.
    + intros i en'. destruct (decide (i = i1)) as [->|Hne]; [done|]. rewrite lookup_insert_ne by done. apply HR.
    + by intros i st [= -> _].
    + done.
  - pose proof (take_other i1 R) as E. rewrite Htake in E. specialize (E eq_refl). cbn in E. subst R1. by split_and!.
  - pose proof (take_other i1 R) as E. rewrite Htake in E. specialize (E eq_refl). cbn in E. subst R1. by split_and!.
Qed.

Lemma same_switch_pending P n n' : same_switch n n' → no_pending_but P n → no_pending_but P n'.
Proof. unfold no_pending_but. by intros (-> & -> & _). Qed.

Lemma ordinary_pending P e s n :
  ordinary s → no_pending_but P n → no_pending_but P (step (e, s) n).2.
Proof.
  intros Hs H. destruct s as [raw xff i0|i0 type desc ttl f| |i0|i0| |j| |w|view c|cfg]; try done; cbn [step snd].
  - destruct H as [H1 H2]. split; [done|]. apply Forall_app_2; [done|]. by apply Forall_singleton.
  - unfold run_thread. destruct (threads n !! j) as [t|] eqn:Hj; [|done].
    destruct (step_thread (now e) t (reg n) (host n)) as [[[t' R'] k'] c] eqn:Hst. destruct H as [H1 H2].
    destruct (thread_pending P _ _ _ _ _ _ _ _ H1 (Forall_lookup_1 _ _ _ _ H2 Hj) Hst) as (? & ? & _).
    split; [done|]. by apply Forall_insert.
  - eapply same_switch_pending; [apply watch_switch|done].
  - eapply same_switch_pending; [apply edit_switch|done].
  - eapply same_switch_pending; [apply receive_switch|done].
Qed.

Lemma ordinary_deadline e s n :
  ordinary s → rollback_deadline (router n) = None → rollback_deadline (router (step (e, s) n).2) = None.
Proof.
  intros Hs H. destruct s as [raw xff i0|i0 type desc ttl f| |i0|i0| |j| |w|view c|cfg]; try done; cbn [step snd].
  - unfold run_thread. destruct (threads n !! j) as [t|]; [|done].
    by destruct (step_thread (now e) t (reg n) (host n)) as [[[t' R'] k'] c].
  - unfold watch. by rewrite H.
  - by rewrite (proj1 (proj2 (edit_switch e view c n))).
  - by rewrite (proj1 (proj2 (receive_switch e cfg n))).
Qed.

Lemma ordinary_run_pending P es n :
  Forall (λ x, ordinary x.2) es → no_pending_but P n → no_pending_but P (run es n).
Proof.
  intros Hes. revert n. induction Hes as [|[e s] es Hs _ IH]; intros n H; [done|].
  apply IH. by apply ordinary_pending.
Qed.

Lemma ordinary_quiet es n : Forall (λ x, ordinary x.2) es → quiet n → quiet (run es n).
Proof.
  intros Hes. revert n. induction Hes as [|[e s] es Hs _ IH]; intros n [H1 H2]; [done|].
  apply IH. split; [by apply ordinary_pending|by apply ordinary_deadline].
Qed.

Lemma background_quiet es n :
  Forall (λ x, background x.2) es → quiet n → host (run es n) = host n.
Proof.
  intros Hes. revert n. induction Hes as [|[e s] es Hs Hes IH]; intros n Hq; [done|]. cbn [run foldl].
  change (host (run es (step (e, s) n).2) = host n). rewrite IH.
  2:{ apply (ordinary_quiet [(e, s)]); [|done]. apply Forall_singleton. by apply background_ordinary. }
  destruct Hq as [[H1 H2] H3]. destruct s as [raw xff i0|i0 type desc ttl f| |i0|i0| |j| |w|view c|cfg]; try done; cbn [step snd].
  - unfold run_thread. destruct (threads n !! j) as [t|] eqn:Hj; [|done].
    destruct (step_thread (now e) t (reg n) (host n)) as [[[t' R'] k'] c] eqn:Hst.
    destruct (thread_pending _ _ _ _ _ _ _ _ _ H1 (Forall_lookup_1 _ _ _ _ H2 Hj) Hst) as (_ & _ & Hk).
    cbn. apply Hk. tauto.
  - unfold watch. by rewrite H3.
Qed.

(** ** Confirmation *)

(** What an application on a quiet node leaves. *)
Lemma applied_armed e raw xff i n ttl n1 :
  quiet n → phase_is New n i → apply_rules_now e raw xff i n = (RApplied ttl i, n1) →
  no_pending_but (λ x, x = i) n1 ∧ phase_is Armed n1 i ∧ firewall_apply_danger_id (router n1) = Some i.
Proof.
  intros [[Hp Ht] Hd] Hnew Ha.
  apply apply_now_inv in Ha as (_ & ruleset & prev & _ & _ & _ & Hr & Hth & Hc & _ & _ & _ & _ & Hid & _).
  split_and!; [| |done].
  - split; [|rewrite Hth; eapply Forall_impl; [exact Ht|]; naive_solver].
    intros i' en. rewrite Hr. unfold schedule. destruct (decide (i' = i)) as [->|Hne]; [done|].
    rewrite lookup_insert_ne by done. intros ? ?. exfalso. by eapply Hp.
  - unfold phase_is. rewrite Hr, Hth, Hc. destruct Hnew as (_ & Hh & Hcalls). split; [|by split].
    eexists. unfold schedule. rewrite lookup_insert_eq. split; [done|]. split; [done|by eexists].
Qed.

(** Until the deadline the background leaves the host alone or is undoing
    [i]. *)
Definition kept_or_undoing (h : K) i n : Prop :=
  ((phase_is Armed n i ∨ phase_is Kept n i) ∧ host n = h) ∨ phase_is Rolling n i ∨ phase_is Undone n i.

Lemma background_step h i d e s n :
  background s → (∀ x, d = Some x → unix e < x) →
  rollback_deadline (router n) = d → no_pending_but (λ x, x = i) n → kept_or_undoing h i n →
  rollback_deadline (router (step (e, s) n).2) = d ∧ kept_or_undoing h i (step (e, s) n).2.
Proof.
  intros Hs Hd Hdl [Hp Ht] H. split.
  { destruct s; try done; cbn [step snd].
    - unfold run_thread. destruct (threads n !! j) as [t|]; [|done]. by destruct (step_thread _ _ _ _) as [[[??]?]?].
    - unfold watch. rewrite Hdl. destruct d as [x|]; [|done]. rewrite (proj2 (Z.ltb_lt _ _)); [done|by apply Hd]. }
  assert (∀ ph, phase_is ph n i → ph ≠ New →
          ∃ ph', phase_is ph' (step (e, s) n).2 i ∧ (ph' = ph ∨ move ph ph')) as Hadv.
  { intros ph Hph Hne. destruct (step_advances (e, s) n i ph Hph) as (ph' & ? & ? & _); [cbn; rewrite (background_draws s Hs); by intros ?%not_elem_of_nil|]. by exists ph'. }
  assert (phase_is Armed n i ∨ phase_is Kept n i → host (step (e, s) n).2 = host n) as Hhost.
  { intros Hph. assert (holders (threads n) i = []) as Hno by (by destruct Hph as [(_ & ? & _)|(_ & ? & _)]).
    destruct s; try done; cbn [step snd].
    - unfold run_thread. destruct (threads n !! j) as [t|] eqn:Hj; [|done].
      assert (cur t = None) as Hcur.
      { destruct (cur t) as [[i0 st]|] eqn:Hc; [exfalso|done].
        pose proof (Forall_lookup_1 _ _ _ _ Ht Hj i0 st Hc) as ->.
        destruct (holders_insert (threads n) j t t i Hj) as (a & b & Hab & _).
        rewrite Hno in Hab. unfold holds in Hab. rewrite Hc, bool_decide_true in Hab by done.
        symmetry in Hab. by apply app_nil in Hab as [_ ?]. }
      destruct t as [c rest]. cbn in Hcur. subst c. cbn [step_thread].
      destruct rest as [[|i0 rest]|]; [done| |done]. by destruct (take_rollback i0 (reg n)) as [[f|x|] R].
    - unfold watch. rewrite Hdl. destruct d as [x|]; [|done]. rewrite (proj2 (Z.ltb_lt _ _)); [done|by apply Hd]. }
  destruct H as [[Hph Hh]|[Hph|Hph]].
  - specialize (Hhost Hph). destruct Hph as [Hph|Hph]; destruct (Hadv _ Hph) as (ph' & Hph' & [->|Hm]); try done.
    + left. split; [by left|by rewrite Hhost].
    + inversion Hm; subst; [left; split; [by right|by rewrite Hhost]|by right; left].
    + left. split; [by right|by rewrite Hhost].
    + inversion Hm.
  - destruct (Hadv _ Hph) as (ph' & Hph' & [->|Hm]); [done|by right; left|]. inversion Hm; subst. by right; right.
  - destruct (Hadv _ Hph) as (ph' & Hph' & [->|Hm]); [done|by right; right|]. inversion Hm.
Qed.

Lemma background_run h i d es n :
  Forall (λ x, background x.2 ∧ ∀ t, d = Some t → unix x.1 < t) es →
  rollback_deadline (router n) = d → no_pending_but (λ x, x = i) n → kept_or_undoing h i n →
  no_pending_but (λ x, x = i) (run es n) ∧ kept_or_undoing h i (run es n) ∧
  firewall_apply_danger_id (router (run es n)) = firewall_apply_danger_id (router n).
Proof.
  intros Hes. revert n. induction Hes as [|[e s] es [Hs Hd] _ IH]; intros n Hdl Hp H; [done|].
  destruct (background_step h i d e s n Hs Hd Hdl Hp H) as [Hdl' H'].
  destruct (IH (step (e, s) n).2) as (? & ? & Hid); [done| |done|].
  { apply ordinary_pending; [by apply background_ordinary|done]. }
  split_and!; [done..|]. cbn [run foldl]. change (foldl _ _ es) with (run es (step (e, s) n).2). rewrite Hid.
  destruct s; try done; cbn [step snd].
  - unfold run_thread. destruct (threads n !! j) as [t|]; [|done]. by destruct (step_thread _ _ _ _) as [[[??]?]?].
  - unfold watch. destruct (rollback_deadline (router n)); [|done]. by destruct (_ <? _).
Qed.

End Node.
