(* ===== verification/SafeModeLive.v ===== *)
(** * An operation left alone is undone

    A tick that finds an operation expired settles it, whatever comes between
    its steps: when the tick's thread has had its steps, the operation has
    been kept by the operator or its closure has been taken. *)
From S2P Require Import Prelude Net Firewall Danger SafeMode FirewallProps SafeModeInv.

Section Live.
Context {K : Type} `{!Shell K} {HZ : HashOrder Zone} {HO : HashOrder (OpEntry K)}.
Implicit Types (e : Env) (n : Node K) (i : string).

Definition never_panics (f : RollbackFn K) : Prop := ∀ k, (f k).1 ≠ Panic.

(** No closure that is registered or taken panics. *)
Definition calm n : Prop :=
  (∀ i en f, reg n !! i = Some en → rollback en = Some f → never_panics f) ∧
  Forall (λ t, ∀ i f, cur t = Some (i, Taken (Some f)) → never_panics f) (threads n).
Definition calm_step (s : Step K) : Prop := match s with Register _ _ _ _ f => never_panics f | _ => True end.

Lemma revert_never_panics prev : never_panics (revert_to prev).
Proof.
  intros k. unfold revert_to, revert, run_restore, run_restore_cmd.
  by destruct (run_cmd _ _ _ _) as [[[[] out]|] k'].
Qed.

Lemma rollback_set en (i i' : string) (R : Registry K) en0 f s :
  (∀ i en f, R !! i = Some en → rollback en = Some f → never_panics f) →
  <[i := set_status s en0 <| rollback := None |>]> R !! i' = Some en → rollback en = Some f → never_panics f.
Proof.
  intros H. destruct (decide (i' = i)) as [->|Hne].
  - rewrite lookup_insert_eq. by intros [= <-].
  - rewrite lookup_insert_ne by done. eauto.
Qed.

Lemma confirm_calm i n R :
  (∀ i en f, R !! i = Some en → rollback en = Some f → never_panics f) →
  ∀ i' en f, (confirm (K:=K) i R).2 !! i' = Some en → rollback en = Some f → never_panics f.
Proof.
  intros H i' en f. unfold confirm. destruct (R !! i) as [en0|]; [|eauto].
  case_bool_decide; [eauto|]. case_bool_decide; cbn [negb]; [|eauto]. by eapply rollback_set.
Qed.

Lemma thread_calm now (t : Thread K) R k t' R' k' c :
  (∀ i en f, R !! i = Some en → rollback en = Some f → never_panics f) →
  (∀ i f, cur t = Some (i, Taken (Some f)) → never_panics f) →
  step_thread now t R k = (t', R', k', c) →
  (∀ i en f, R' !! i = Some en → rollback en = Some f → never_panics f) ∧
  (∀ i f, cur t' = Some (i, Taken (Some f)) → never_panics f).
Proof.
  intros HR Ht. destruct t as [[[i0 [f|r]]|] rest]; cbn [step_thread].
  - destruct (run_rollback f k) as [[] k1]; intros [= <- <- <- <-]; by split.
  - intros [= <- <- <- <-]. split; [|done]. intros i en f. unfold record_outcome.
    destruct (R !! i0) as [en0|] eqn:H0; [|eauto]. destruct r; [| |eauto];
      (destruct (decide (i = i0)) as [->|Hne]; [rewrite lookup_insert_eq; intros [= <-]; cbn; eauto|rewrite lookup_insert_ne by done; eauto]).
  - destruct rest as [[|i0 rest]|].
    + intros [= <- <- <- <-]. split; [|done]. intros i en f. unfold sweep. rewrite map_lookup_filter_Some.
      intros [? _]. eauto.
    + destruct (take_rollback i0 R) as [[f|e|] R1] eqn:Htake; intros [= <- <- <- <-].
      * apply take_Ok in Htake as (en0 & H0 & _ & -> & ->). split; [by intros; eapply rollback_set|].
        intros i f [= _ Hf]. eauto.
      * pose proof (take_other i0 R) as E. rewrite Htake in E. specialize (E eq_refl). cbn in E. by subst R1.
      * pose proof (take_other i0 R) as E. rewrite Htake in E. specialize (E eq_refl). cbn in E. by subst R1.
    + intros [= <- <- <- <-]. by split.
Qed.

Lemma step_calm e s n : calm_step s → calm n → calm (step (e, s) n).2.
Proof.
  intros Hs [HR HT].
  assert (∀ n', same_switch n n' → calm n') as Hsame by (intros n' (Hr & Ht & _); unfold calm; by rewrite Hr, Ht).
  assert (∀ n' i type desc ttl f e', never_panics f → reg n' = schedule (now e') (unix e') i type desc ttl f (reg n) →
          threads n' = threads n → calm n') as Hsch.
  { intros n' i type desc ttl f e' Hf Hr Ht. unfold calm. rewrite Hr, Ht. split; [|done]. intros i' en f'.
    unfold schedule. destruct (decide (i' = i)) as [->|Hne].
    - rewrite lookup_insert_eq. intros [= <-]. by intros [= <-].
    - rewrite lookup_insert_ne by done. eauto. }
  destruct s as [raw xff i0|i0 type desc ttl f| |i0|i0| |j| |w|view c|cfg]; cbn [step snd].
  - destruct (apply_rules_now e raw xff i0 n) as [r n'] eqn:Ha.
    destruct r as [|ttl i'| | | | | | |]; try (apply Hsame;
      replace n' with (apply_rules_now e raw xff i0 n).2 by (by rewrite Ha); apply apply_now_other; by rewrite Ha).
    apply apply_now_inv in Ha as (-> & ruleset & prev & _ & _ & _ & Hr & Ht & _).
    eapply Hsch; [|exact Hr|exact Ht]. apply revert_never_panics.
  - by eapply Hsch.
  - unfold confirm_rules. destruct (firewall_apply_danger_id _) as [i1|]; [|by apply Hsame].
    destruct (confirm i1 (reg n)) as [r reg'] eqn:Hc. split; [|done]. cbn.
    pose proof (confirm_calm i1 n _ HR) as H. by rewrite Hc in H.
  - unfold danger_confirm. destruct (confirm i0 (reg n)) as [r reg'] eqn:Hc. split; [|done]. cbn.
    pose proof (confirm_calm i0 n _ HR) as H. by rewrite Hc in H.
  - unfold danger_rollback, begin_rollback. destruct (take_rollback i0 (reg n)) as [[f|x|] reg'] eqn:Ht; cbn.
    + apply take_Ok in Ht as (en0 & H0 & _ & -> & ->). split; cbn.
      { intros i en f. by apply rollback_set. }
      apply Forall_app_2; [done|]. apply Forall_singleton. intros i f [= _ Hf]. eauto.
    + apply Hsame. pose proof (take_other i0 (reg n)) as E; rewrite Ht in E; specialize (E eq_refl); cbn in E; by subst reg'.
    + apply Hsame. pose proof (take_other i0 (reg n)) as E; rewrite Ht in E; specialize (E eq_refl); cbn in E; by subst reg'.
  - split; [done|]. apply Forall_app_2; [done|]. by apply Forall_singleton.
  - unfold run_thread. destruct (threads n !! j) as [t|] eqn:Hj; [|done].
    destruct (step_thread (now e) t (reg n) (host n)) as [[[t' R'] k'] c] eqn:Hst.
    destruct (thread_calm _ _ _ _ _ _ _ _ HR (Forall_lookup_1 _ _ _ _ HT Hj) Hst). split; [done|]. by apply Forall_insert.
  - apply Hsame, watch_switch.
  - apply Hsame, startup_switch.
  - apply Hsame, edit_switch.
  - apply Hsame, receive_switch.
Qed.

(** ** The steps a thread has left *)
Definition steps_left (t : Thread K) : nat :=
  match cur t with Some (_, Taken _) => 2 | Some (_, Ran _) => 1 | None => 0 end
  + match todo t with Some l => 1 + 3 * length l | None => 0 end.

Lemma steps_left_0 t : steps_left t = 0%nat → finished t.
Proof. destruct t as [[[i []]|] [l|]]; cbn; try lia. done. Qed.

Lemma thread_decreases now (t : Thread K) R k t' R' k' c :
  step_thread now t R k = (t', R', k', c) → (steps_left t' ≤ steps_left t - 1)%nat.
Proof.
  destruct t as [[[i0 [f|r]]|] rest]; cbn [step_thread].
  - destruct (run_rollback f k) as [[] k1]; intros [= <- <- <- <-]; unfold steps_left; cbn; lia.
  - intros [= <- <- <- <-]. unfold steps_left; cbn; lia.
  - destruct rest as [[|i0 rest]|].
    + intros [= <- <- <- <-]. cbn. lia.
    + destruct (take_rollback i0 R) as [[f|e|] R1]; intros [= <- <- <- <-]; unfold steps_left; cbn; lia.
    + intros [= <- <- <- <-]. cbn. lia.
Qed.

(** Kept, or its closure taken. *)
Definition settled n i : Prop := phase_is Kept n i ∨ phase_is Rolling n i ∨ phase_is Undone n i.

Lemma step_settled x n i : settled n i → i ∉ drawn x.2 → settled (step x n).2 i.
Proof.
  intros H Hi. assert (∃ ph, phase_is ph n i ∧ (ph = Kept ∨ ph = Rolling ∨ ph = Undone)) as (ph & Hph & Hc).
  { destruct H as [?|[?|?]]; eauto. }
  destruct (step_advances x n i ph Hph) as (ph' & Hph' & Hm & _); [done|].
  unfold settled. destruct Hm as [->|Hm].
  - destruct Hc as [->|[-> | ->]]; auto.
  - inversion Hm; subst; destruct Hc as [?|[?|?]]; try done; auto.
Qed.

(** The thread at [j] has still to come to [i]. *)
Definition due (j : nat) i n (t : Thread K) : Prop :=
  threads n !! j = Some t ∧ (settled n i ∨ phase_is Armed n i ∧ ∃ l, todo t = Some l ∧ i ∈ l).

Definition counts (j : nat) (s : Step K) : nat := match s with RunThread j' => if decide (j' = j) then 1 else 0 | _ => 0 end.

Lemma other_thread j e s n t :
  threads n !! j = Some t → counts j s = 0%nat → threads (step (e, s) n).2 !! j = Some t.
Proof.
  intros Hj Hc. destruct s as [raw xff i0|i0 type desc ttl f| |i0|i0| |j'| |w|view c|cfg]; cbn [step snd].
  - destruct (apply_rules_now e raw xff i0 n) as [r n'] eqn:Ha.
    cbn [snd]. assert (threads n' = threads n) as ->; [|done].
    destruct r as [|ttl i'| | | | | | |]; try (
      replace n' with (apply_rules_now e raw xff i0 n).2 by (by rewrite Ha); apply apply_now_other; by rewrite Ha).
    by apply apply_now_inv in Ha as (-> & ruleset & prev & _ & _ & _ & Hr & Ht & _).
  - done.
  - unfold confirm_rules. destruct (firewall_apply_danger_id _) as [i1|]; [|done]. by destruct (confirm i1 (reg n)).
  - unfold danger_confirm. by destruct (confirm i0 (reg n)).
  - unfold danger_rollback. destruct (begin_rollback i0 (reg n)) as [[[] ?] ?]; cbn; [|done..].
    by apply lookup_app_l_Some.
  - by apply lookup_app_l_Some.
  - cbn in Hc. case_decide; [done|]. unfold run_thread. destruct (threads n !! j') as [t'|]; [|done].
    destruct (step_thread _ _ _ _) as [[[??]?]?]. cbn. by rewrite list_lookup_insert_ne.
  - by rewrite (proj1 (proj2 (watch_switch e n))).
  - by rewrite (proj1 (proj2 (startup_switch e w n))).
  - by rewrite (proj1 (proj2 (proj1 (edit_switch e view c n)))).
  - by rewrite (proj1 (proj2 (proj1 (receive_switch e cfg n)))).
Qed.

Lemma due_step j i e s n t :
  due j i n t → calm n → i ∉ drawn s →
  ∃ t', due j i (step (e, s) n).2 t' ∧ (steps_left t' ≤ steps_left t - counts j s)%nat.
Proof.
  intros [Hj Hdue] Hcalm Hi.
  assert (phase_is Armed n i → phase_is Armed (step (e, s) n).2 i ∨ settled (step (e, s) n).2 i) as Harm.
  { intros H. destruct (step_advances (e, s) n i _ H) as (ph & Hph & [->|Hm] & _); [done|by left|].
    right. inversion Hm; subst; [by left|by right; left]. }
  destruct (decide (counts j s = 0%nat)) as [Hc|Hc].
  { exists t. rewrite Hc. split; [|lia]. split; [by apply other_thread|].
    destruct Hdue as [H|[H Hl]]; [left; by apply step_settled|]. destruct (Harm H); [by right|by left]. }
  destruct s as [| | | | | |j'| | | |]; try done. cbn in Hc. case_decide; [subst j'|done].
  cbn [counts step snd] in *. unfold run_thread in *. rewrite Hj in *. rewrite decide_True by done.
  destruct (step_thread (now e) t (reg n) (host n)) as [[[t' R'] k'] c] eqn:Hst.
  pose proof (thread_decreases _ _ _ _ _ _ _ _ Hst) as Hdec. exists t'. split; [|exact Hdec].
  split; [cbn; apply list_lookup_insert_eq; by eapply lookup_lt_Some|].
  destruct Hdue as [H|[H (l & Hl & Hil)]].
  { left. pose proof (step_settled (e, RunThread j) n i H Hi) as Hs. cbn in Hs. unfold run_thread in Hs.
    by rewrite Hj, Hst in Hs. }
  destruct (Harm H) as [Ha|Hs]; [|by left]. right. split; [done|].
  destruct t as [[[i0 [f|r]]|] rest]; cbn in Hl; subst rest; cbn [step_thread] in Hst.
  - destruct (run_rollback f (host n)) as [r k1] eqn:Hr. destruct r; simplify_eq/=; [by exists l..|]. exfalso.
    destruct f as [f|]; [|done]. destruct Hcalm as [_ HT].
    apply (Forall_lookup_1 _ _ _ _ HT Hj i0 f eq_refl (host n)). cbn in Hr. by rewrite Hr.
  - simplify_eq/=. by exists l.
  - destruct l as [|i0 l]; [by apply not_elem_of_nil in Hil|].
    apply elem_of_cons in Hil as [<-|Hil].
    + exfalso. destruct H as ((en & Hen & Hp & _) & _). unfold take_rollback in Hst.
      rewrite Hen, bool_decide_true in Hst by done. cbn in Hst. simplify_eq/=.
      destruct Ha as ((en' & Hen' & Hp' & _) & _). cbn in Hen'. rewrite lookup_insert_eq in Hen'. by simplify_eq/=.
    + destruct (take_rollback i0 (reg n)) as [[f|x|] R1]; simplify_eq/=; by exists l.
Qed.

Fixpoint rounds (j : nat) (es : list (Env * Step K)) : nat :=
  match es with [] => 0 | x :: es => counts j x.2 + rounds j es end.

Lemma due_run j i es n t :
  due j i n t → calm n → Forall (λ x, calm_step x.2 ∧ i ∉ drawn x.2) es →
  (steps_left t ≤ rounds j es)%nat → ∃ t', due j i (run es n) t' ∧ finished t'.
Proof.
  intros H Hc Hes. revert n t H Hc. induction Hes as [|[e s] es [Hs Hi] _ IH]; intros n t H Hc Hle.
  { exists t. split; [done|]. apply steps_left_0. cbn in Hle. lia. }
  destruct (due_step j i e s n t H Hc Hi) as (t' & H' & Hd). cbn in Hle.
  apply (IH _ t'); [done|by apply step_calm|lia].
Qed.

(** *** What a tick collects *)
Lemma expired_ids_spec t (R : Registry K) i :
  i ∈ expired_ids t R ↔ ∃ en, R !! i = Some en ∧ expired t en = true.
Proof.
  unfold expired_ids. rewrite list_elem_of_fmap. setoid_rewrite elem_of_retain. setoid_rewrite hm_iter_perm.
  split.
  - intros ([i' en] & -> & Hin & He). apply elem_of_map_to_list in Hin. by exists en.
  - intros (en & Hen & He). exists (i, en). split; [done|]. split; [|done]. by apply elem_of_map_to_list.
Qed.

End Live.
