(* ===== verification/SafeModeProps.v ===== *)
(** * What the dead man's switch guarantees, and where it does not hold *)
From S2P Require Import Prelude Net Firewall Danger SafeMode FirewallProps SafeModeInv SafeModeLive.

Section Props.
Context {K : Type} `{!Shell K} {HZ : HashOrder Zone} {HO : HashOrder (OpEntry K)}.
Implicit Types (e : Env) (n : Node K) (i : string).

(** C7: Whatever requests, ticks and threads come in whatever order, the
    closure of an operation is called at most once; it is never called once
    "Keep" has been answered with success; and once it has been called "Keep"
    is refused. *)
Theorem rollback_once es n :
  fresh_switch n → NoDup (all_drawn es) →
  NoDup (called (run es n)) ∧
  (∀ es1 e i es2, es = es1 ++ (e, Keep i) :: es2 →
     (danger_confirm i (run es1 n)).1 = ROk → i ∉ called (run es n)) ∧
  (∀ i, i ∈ called (run es n) → (danger_confirm i (run es n)).1 = RBadRequest).
Proof.
  intros Hn Hnd. assert (∀ es', NoDup (all_drawn es') → ∀ i, ∃ ph, phase_is ph (run es' n) i) as Hlife.
  { intros es' Hnd' i. destruct (run_life es' n i New) as (ph & ? & _); [by apply fresh_new|done|done|by exists ph]. }
  split_and!.
  - apply calls_NoDup. intros i. destruct (Hlife es Hnd i) as [ph Hph]. by eapply phase_calls.
  - intros es1 e i es2 -> Hok. rewrite run_app. cbn.
    unfold all_drawn in Hnd. rewrite bind_app in Hnd. apply NoDup_app in Hnd as (Hnd1 & Hdisj & Hnd2). cbn in Hnd2, Hdisj.
    destruct (Hlife es1 Hnd1 i) as [ph Hph].
    assert (phase_is Kept (danger_confirm i (run es1 n)).2 i ∧ i ∉ all_drawn es2) as [Hk Hi2].
    { unfold danger_confirm in *. destruct (confirm i (reg (run es1 n))) as [r reg'] eqn:Hc. cbn in Hok |- *.
      pose proof (confirm_keeps ph i _ _ _ Hph) as Hk. rewrite Hc in Hk. cbn in Hk.
      destruct (is_ok r) eqn:Hr; [|done]. split; [by apply Hk|]. intros Hi2.
      assert (phase_is New (run es1 n) i) as Hph'.
      { apply run_new; [by apply fresh_new|]. by intros ?%Hdisj. }
      destruct Hph' as (Hnone & _). unfold confirm in Hc. rewrite Hnone in Hc. simplify_eq/=. }
    apply calls_zero. by apply (kept_final es2 _ i Hk).
  - intros i Hi. destruct (Hlife es Hnd i) as [ph Hph]. unfold danger_confirm.
    assert (calls (called (run es n)) i ≠ 0%nat) as Hc by (intros ?%calls_zero; done).
    destruct ph; cbn in Hph; destruct Hph as (Hs & _ & Hcalls); [congruence..|].
    unfold confirm. destruct (reg (run es n) !! i) as [en|] eqn:Hen; [|done]. destruct (Hs _ Hen) as [Hp Hc'].
    by rewrite bool_decide_false, bool_decide_false.
Qed.

(** C8: An operation that is not confirmed is undone.  From the tick that
    finds its time elapsed on, and whatever else happens meanwhile, once the
    tick's thread has had three steps for each expired operation and one more,
    the operation has been kept by its operator or its closure has been taken,
    by this thread or by a request to roll back at once. *)
Theorem expired_is_settled e n es i en :
  phase_is Armed n i → reg n !! i = Some en → ttl_secs (meta en) ≤ elapsed_secs (now e) (applied_at en) →
  calm n → Forall (λ x, calm_step x.2 ∧ i ∉ drawn x.2) es →
  (3 * length (expired_ids (now e) (reg n)) + 1 ≤ rounds (length (threads n)) es)%nat →
  settled (run es (start_tick e n)) i ∧
  ∃ t, threads (run es (start_tick e n)) !! length (threads n) = Some t ∧ finished t.
Proof.
  intros Ha Hen Httl Hc Hes Hr.
  assert (due (length (threads n)) i (start_tick e n) (begin_tick (now e) (reg n))) as Hdue.
  { split; [cbn; by apply list_lookup_middle|]. right. split.
    - refine (in_phase_threads Armed _ (threads n) (threads n ++ [_]) _ i _ Ha). by apply holders_idle.
    - eexists. split; [done|]. apply expired_ids_spec. exists en. split; [done|]. unfold expired.
      destruct Ha as ((en' & Hen' & Hp & _) & _). simplify_eq. rewrite bool_decide_true by done. by apply Z.leb_le. }
  destruct (due_run _ i es _ _ Hdue) as (t & [Ht H] & Hf).
  - apply (step_calm e StartTick); done.
  - done.
  - cbn. lia.
  - split; [|by exists t]. destruct H as [H|(_ & l & Hl & _)]; [done|]. destruct Hf as [_ Hf]. congruence.
Qed.
(** C9: Rules applied on a quiet node and confirmed through confirm_rules
    before either timer has acted stay: once the confirmation has been answered
    with success, no tick, thread or round of the watcher changes the firewall
    again. *)
Theorem confirmed_rules_stay e raw xff i n ttl n1 es1 n2 es2 :
  quiet n → phase_is New n i →
  apply_rules_now e raw xff i n = (RApplied ttl i, n1) →
  Forall (λ x, background x.2 ∧ ∀ d, rollback_deadline (router n1) = Some d → unix x.1 < d) es1 →
  confirm_rules (run es1 n1) = (ROk, n2) →
  Forall (λ x, background x.2) es2 →
  host (run es2 n2) = host n1.
Proof.
  intros Hq Hnew Ha Hes1 Hconf Hes2. destruct (applied_armed _ _ _ _ _ _ _ Hq Hnew Ha) as (Hp1 & Harmed & Hid1).
  destruct (background_run (host n1) i _ es1 n1 Hes1 eq_refl Hp1) as (Hp & Hko & Hid); [left; split; [by left|done]|].
  rewrite Hid1 in Hid. set (m := run es1 n1) in *.
  unfold confirm_rules in Hconf. rewrite Hid in Hconf. destruct (confirm i (reg m)) as [r reg'] eqn:Hc.
  destruct r as [msg|x|]; [|done..]. injection Hconf as <-.
  assert (is_ok (confirm i (reg m)).1 = true) as Hok by (by rewrite Hc).
  assert (∃ ph, phase_is ph m i) as [ph Hph] by (destruct Hko as [[[?|?] _]|[?|?]]; eauto).
  pose proof (confirm_keeps ph i _ _ _ Hph Hok) as Hk. rewrite Hc in Hk. cbn in Hk.
  rewrite background_quiet; [|done|].
  - cbn. destruct Hko as [[_ Hh]|[Hr|Hu]]; [done| |]; exfalso.
    + destruct Hr as (_ & [f Hf] & _). destruct Hk as (_ & Hn & _). congruence.
    + destruct Hu as (_ & _ & Hu). destruct Hk as (_ & _ & Hn). congruence.
  - split; [|done]. destruct Hp as [Hp Ht]. destruct Hk as (Hs & Hno & _). split; cbn.
    + intros i' en Hen Hpe.
      destruct (decide (i' = i)) as [->|Hne]; [specialize (Hs _ Hen); cbn in Hs; congruence|].
      apply Hne, (Hp i' en); [|done]. rewrite <-Hen. unfold confirm in Hc.
      destruct (reg m !! i) as [en0|]; [|done]. repeat case_match; simplify_eq/=; rewrite ?lookup_insert_ne by done; done.
    + apply Forall_forall. intros t Htin i' st Hcur. rewrite Forall_forall in Ht.
      pose proof (Ht t Htin i' st Hcur) as ->. apply list_elem_of_lookup in Htin as [j Hj].
      destruct (holders_insert (threads m) j t t i Hj) as (a & b & Hab & _). cbn in Hno. rewrite Hno in Hab.
      unfold holds in Hab. rewrite Hcur, bool_decide_true in Hab by done. symmetry in Hab. by apply app_nil in Hab as [_ ?].
Qed.

(** Edits have no way back: with rules applied as they are edited (the
    default), whatever edits and pushed configurations are carried out on a
    quiet node, nothing that runs in the background ever undoes them. *)
Theorem edits_never_rolled_back es1 es2 n :
  quiet n → Forall (λ x, ordinary x.2) es1 → Forall (λ x, background x.2) es2 →
  host (run (es1 ++ es2) n) = host (run es1 n).
Proof.
  intros Hq H1 H2. rewrite run_app. apply background_quiet; [done|]. by apply ordinary_quiet.
Qed.
(** ** The two timers *)

(** Anything but what touches the watcher's deadline. *)
Definition bystander (s : Step K) : Prop :=
  match s with ApplyNow _ _ _ | ConfirmRules | Watch | Startup _ => False | _ => True end.

Lemma bystander_router e s n :
  bystander s →
  rollback_deadline (router (step (e, s) n).2) = rollback_deadline (router n) ∧
  last_applied_rules (router (step (e, s) n).2) = last_applied_rules (router n).
Proof.
  destruct s as [raw xff i0|i0 type desc ttl f| |i0|i0| |j| |w|view c|cfg]; try done; cbn [step snd]; intros _.
  - unfold danger_confirm. by destruct (confirm i0 (reg n)).
  - unfold danger_rollback. by destruct (begin_rollback i0 (reg n)) as [[[] ?] ?].
  - unfold run_thread. destruct (threads n !! j) as [t|]; [|done]. by destruct (step_thread _ _ _ _) as [[[??]?]?].
  - pose proof (edit_switch e view c n); tauto.
  - pose proof (receive_switch e cfg n); tauto.
Qed.

Lemma bystander_run es n :
  Forall (λ x, bystander x.2) es →
  rollback_deadline (router (run es n)) = rollback_deadline (router n) ∧
  last_applied_rules (router (run es n)) = last_applied_rules (router n).
Proof.
  intros Hes. revert n. induction Hes as [|[e s] es Hs _ IH]; intros n; [done|].
  cbn [run foldl]. change (foldl _ _ es) with (run es (step (e, s) n).2).
  destruct (IH (step (e, s) n).2) as [-> ->]. by apply bystander_router.
Qed.

Lemma watch_reverts e d prev n :
  rollback_deadline (router n) = Some d → last_applied_rules (router n) = Some prev → d ≤ unix e →
  host (watch e n) = (revert prev (host n)).2.
Proof. intros Hd Hp Hle. unfold watch. rewrite Hd, Hp. by rewrite (proj2 (Z.ltb_ge _ _)). Qed.

(** The two timers do not know of each other.  With the default safe-mode
    window, rules kept through the banner are reverted all the same when the
    watcher's deadline comes, whatever happens in between; and when the watcher
    comes first, confirm_rules still reports that the rules were confirmed
    although they have been reverted. *)
Theorem timers_disagree e raw xff i n ttl n1 prev secs :
  apply_rules_now e raw xff i n = (RApplied ttl i, n1) →
  last_applied_rules (router n1) = Some prev →
  safe_mode_seconds (config (router n)) = secs → 0 < secs →
  ((danger_confirm i n1).1 = ROk ∧
   ∀ es e', Forall (λ x, bystander x.2) es → unix e + secs ≤ unix e' →
     host (watch e' (run es n1)) = (revert prev (host (run es n1))).2) ∧
  (∀ e', unix e + secs ≤ unix e' →
     let n2 := watch e' n1 in
     (confirm_rules n2).1 = ROk ∧ host (confirm_rules n2).2 = (revert prev (host n1)).2).
Proof.
  intros Ha Hprev Hsecs Hpos.
  apply apply_now_inv in Ha as (_ & ruleset & prev' & _ & _ & _ & Hr & _ & _ & _ & _ & _ & _ & Hid & Hd).
  rewrite Hsecs, (proj2 (Z.ltb_lt 0 secs)) in Hd by done.
  assert (∀ reg', reg' = reg n1 → ∃ msg reg'', confirm i reg' = (Ok msg, reg'')) as Hconf.
  { intros reg' ->. rewrite Hr. unfold confirm, schedule. rewrite lookup_insert_eq. cbn. by eexists _, _. }
  split; [split|].
  - unfold danger_confirm. by destruct (Hconf _ eq_refl) as (msg & reg'' & ->).
  - intros es e' Hes Hle. destruct (bystander_run es n1 Hes) as [Hd' Hp'].
    apply (watch_reverts e' (unix e + secs)); [by rewrite Hd'|by rewrite Hp'|done].
  - intros e' Hle n2. assert (host n2 = (revert prev (host n1)).2) as Hh by by eapply watch_reverts.
    assert (reg n2 = reg n1 ∧ firewall_apply_danger_id (router n2) = Some i) as [Hreg Hid2].
    { unfold n2, watch. rewrite Hd, Hprev, (proj2 (Z.ltb_ge _ _)) by done. by split. }
    unfold confirm_rules. rewrite Hid2. destruct (Hconf _ Hreg) as (msg & reg'' & ->). by split.
Qed.

(** *** The only expired operation *)
Lemma expired_single t (R : Registry K) i en :
  R !! i = Some en → expired t en = true →
  (∀ i' en', R !! i' = Some en' → expired t en' = true → i' = i) →
  expired_ids t R = [i].
Proof.
  intros Hen He Honly. assert (i ∈ expired_ids t R) as Hin by (apply expired_ids_spec; by exists en).
  assert (∀ x, x ∈ expired_ids t R → x = i) as Hall.
  { intros x (en' & ? & ?)%expired_ids_spec. by eapply Honly. }
  assert (NoDup (expired_ids t R)) as Hnd.
  { unfold expired_ids. eapply (sublist_NoDup _ (hm_iter R).*1).
    - rewrite hm_iter_perm. apply NoDup_fst_map_to_list.
    - apply fmap_sublist, retain_sublist. }
  destruct (expired_ids t R) as [|x [|y l]]; [by apply not_elem_of_nil in Hin| |].
  - f_equal. apply Hall. by left.
  - apply NoDup_cons in Hnd as [Hx _]. exfalso. apply Hx. rewrite (Hall x), (Hall y); set_solver.
Qed.

Lemma run_thread_fields e j n t t' R' k' c :
  threads n !! j = Some t → step_thread (now e) t (reg n) (host n) = (t', R', k', c) →
  threads (run_thread e j n) = <[j := t']> (threads n) ∧ reg (run_thread e j n) = R' ∧ host (run_thread e j n) = k'.
Proof. unfold run_thread. intros -> ->. by destruct c. Qed.

(** A tick that finds one operation, alone: its first two steps take the
    closure and run it. *)
Lemma lone_tick e n i en f :
  reg n !! i = Some en → expired (now e) en = true → status (meta en) = "pending" → rollback en = Some f →
  (∀ i' en', reg n !! i' = Some en' → expired (now e) en' = true → i' = i) →
  let j := length (threads n) in
  host (run [(e, StartTick); (e, RunThread j); (e, RunThread j)] n) = (f (host n)).2.
Proof.
  intros Hen He Hp Hf Honly j. cbn [run foldl step snd]. set (m := start_tick e n).
  assert (threads m !! j = Some {| cur := None; todo := Some [i] |}) as Hj.
  { cbn. unfold begin_tick. rewrite (expired_single _ _ _ _ Hen He Honly). by apply list_lookup_middle. }
  assert (take_rollback i (reg m) = (Ok (Some f), <[i := set_status "rolling_back" en <| rollback := None |>]> (reg n))) as Htake.
  { unfold take_rollback. change (reg m) with (reg n). by rewrite Hen, bool_decide_true, Hf. }
  edestruct (run_thread_fields e j m) as (Ht1 & Hr1 & Hh1); [exact Hj|cbn [step_thread]; by rewrite Htake|].
  set (m1 := run_thread e j m) in *.
  assert (threads m1 !! j = Some {| cur := Some (i, Taken (Some f)); todo := Some [] |}) as Hj1.
  { rewrite Ht1. apply list_lookup_insert_eq. by eapply lookup_lt_Some. }
  change (host n) with (host m). rewrite <-Hh1. destruct (f (host m1)) as [r k] eqn:Hrun.
  destruct r; (edestruct (run_thread_fields e j m1) as (_ & _ & Hh2);
    [exact Hj1|cbn [step_thread run_rollback]; by rewrite Hrun|exact Hh2]).
Qed.

(** Confirming a second application does not confirm the first.  Two
    applications in a row leave two timers and one remembered identifier; the
    operator is told that the rules are confirmed, and when the first timer
    runs out the firewall is put back to what it was before the first. *)
Theorem first_timer_survives e1 raw1 xff1 i1 ttl1 n e2 raw2 xff2 i2 ttl2 n1 n2 prev1 e3 :
  reg n = ∅ → i1 ≠ i2 →
  apply_rules_now e1 raw1 xff1 i1 n = (RApplied ttl1 i1, n1) →
  last_applied_rules (router n1) = Some prev1 →
  apply_rules_now e2 raw2 xff2 i2 n1 = (RApplied ttl2 i2, n2) →
  ttl1 ≤ elapsed_secs (now e3) (now e1) →
  let '(r, n3) := confirm_rules n2 in
  let j := length (threads n3) in
  r = ROk ∧
  host (run [(e3, StartTick); (e3, RunThread j); (e3, RunThread j)] n3) = (revert prev1 (host n3)).2.
Proof.
  intros Hempty Hne H1 Hprev H2 Httl.
  apply apply_now_inv in H1 as (_ & rs1 & p1 & _ & _ & _ & Hr1 & _ & _ & _ & _ & _ & Hp1 & _ & _).
  rewrite Hprev in Hp1. injection Hp1 as <-.
  apply apply_now_inv in H2 as (_ & rs2 & p2 & _ & _ & _ & Hr2 & _ & _ & _ & _ & _ & _ & Hid2 & _).
  unfold confirm_rules. rewrite Hid2.
  destruct (confirm i2 (reg n2)) as [r reg'] eqn:Hc.
  set (op1 := reg n1 !! i1). assert (∃ en1, reg n1 = {[ i1 := en1 ]} ∧ expired (now e3) en1 = true ∧
      status (meta en1) = "pending" ∧ rollback en1 = Some (revert_to prev1)) as (en1 & Hreg1 & Hexp & Hpend & Hrb).
  { eexists. rewrite Hr1, Hempty. split; [done|]. split; [|done]. unfold expired. cbn. by apply Z.leb_le. }
  assert (∃ msg en2, r = Ok msg ∧ reg' !! i1 = Some en1 ∧ reg' !! i2 = Some en2 ∧ status (meta en2) = "confirmed" ∧
      ∀ x, x ≠ i1 → x ≠ i2 → reg' !! x = None) as (msg & en2 & -> & Hi1 & Hi2 & Hs2 & Hrest).
  { rewrite Hr2, Hreg1 in Hc. unfold confirm, schedule in Hc. rewrite lookup_insert_eq in Hc. cbn in Hc.
    rewrite bool_decide_false, bool_decide_true in Hc by done. cbn [negb] in Hc. simplify_eq. eexists _, _. split; [done|]. rewrite !lookup_insert_eq.
    rewrite !lookup_insert_ne by done. rewrite lookup_singleton_eq. split_and!; try done.
    intros x Hx1 Hx2. by rewrite !lookup_insert_ne, lookup_singleton_ne. }
  cbn [is_ok negb]. split; [done|]. set (n3 := n2 <| router := _ |> <| reg := reg' |>).
  rewrite (lone_tick e3 n3 i1 en1 (revert_to prev1)); [|done..|].
  - unfold revert_to. by destruct (revert prev1 (host n3)).
  - intros x en Hx Hex. destruct (decide (x = i1)); [done|].
    cbn in Hx. destruct (decide (x = i2)) as [->|]; [|by rewrite Hrest in Hx].
    rewrite Hi2 in Hx. simplify_eq. unfold expired in Hex. by rewrite bool_decide_false in Hex by congruence.
Qed.

(** ** A rule that disables the router *)
Lemma extend_all_no_err {A B} (f : A → res string (list B)) l :
  (∀ x er, x ∈ l → f x ≠ Err er) → ∀ er, extend_all f l ≠ Err er.
Proof.
  induction l as [|x l IH]; intros Hf er H; cbn in H; [done|].
  destruct (f x) as [ys|er'|] eqn:Hx; [|by eapply Hf; [left|]|done]. cbn in H.
  destruct (extend_all f l) as [zs|er'|] eqn:Hl; [done| |done].
  eapply (IH ltac:(intros; eapply Hf; by right) er'). done.
Qed.

Lemma extend_all_panics {A B} (f : A → res string (list B)) l x :
  (∀ x er, x ∈ l → f x ≠ Err er) → x ∈ l → f x = Panic → extend_all f l = Panic.
Proof.
  intros Hf Hx HP. induction l as [|y l IH]; [by apply not_elem_of_nil in Hx|]. cbn.
  destruct (f y) as [ys|er|] eqn:Hy; [|by exfalso; eapply Hf; [left|]|done]. cbn.
  apply elem_of_cons in Hx as [->|Hx]; [congruence|].
  rewrite IH; [done|intros; apply Hf; by right|done].
Qed.

Lemma emit_no_err rule chain proto f t er : emit_rule rule chain proto f t ≠ Err er.
Proof.
  unfold emit_rule. destruct (log_match rule || _); [|done]. unfold slice_to. by destruct (is_char_boundary _ _).
Qed.

Lemma compile_no_err vms rule cfg node er : compile_rule vms rule cfg node ≠ Err er.
Proof.
  unfold compile_rule. destruct (expand_endpoint _ _ true _ _) as [[|f fs]| |]; [done| |done..].
  destruct (expand_endpoint _ _ false _ _) as [[|t ts]| |]; [done| |done..].
  apply extend_all_no_err. intros p e1 _. apply extend_all_no_err. intros ? e2 _. apply extend_all_no_err.
  intros ? e3 _. apply emit_no_err.
Qed.

(** A logging rule whose identifier has a character across its eighth byte. *)
Definition deadly (r : FirewallRule) : Prop :=
  enabled r = true ∧ node_id r = None ∧ from r = AnyEnd ∧ to r = AnyEnd ∧
  log_match r || bool_decide (action r = Log) = true ∧
  is_char_boundary (Nat.min 8 (String.length (id r))) (id r) = false.

Lemma deadly_panics vms cfg node enforced r :
  deadly r → r ∈ rules cfg → build_ruleset vms cfg node enforced = Panic.
Proof.
  intros (He & Hn & Hf & Ht & Hlog & Hb) Hr. unfold build_ruleset.
  rewrite (extend_all_panics _ _ r); [done|intros; apply compile_no_err| |].
  - unfold ordered_rules. rewrite sort_by_perm. apply elem_of_retain. split; [done|]. unfold applies_here. by rewrite He, Hn.
  - unfold compile_rule. rewrite Hf, Ht. cbn [expand_endpoint].
    assert (∀ proto, emit_rule r (chain_of (direction r)) proto [] [] = Panic) as Hemit.
    { intros proto. unfold emit_rule. rewrite Hlog. unfold slice_to. by rewrite Hb. }
    destruct (protocol r); cbn [protos extend_all]; by rewrite !Hemit.
Qed.

Lemma poisoned_stays es n :
  poisoned (router n) = true → poisoned (router (run es n)) = true ∧ config (router (run es n)) = config (router n).
Proof.
  revert n. induction es as [|[e s] es IH]; intros n Hp; [done|].
  assert (poisoned (router (step (e, s) n).2) = true ∧ config (router (step (e, s) n).2) = config (router n)) as [Hp' <-].
  2:{ cbn [run foldl]. apply (IH _ Hp'). }
  assert (∀ f g, with_config_write e f g n = (RPanic, n)) as Hw by (intros; unfold with_config_write; by rewrite Hp).
  destruct s as [raw xff i0|i0 type desc ttl f| |i0|i0| |j| |w|view c|cfg]; cbn [step snd].
  - unfold apply_rules_now. by rewrite Hp.
  - done.
  - unfold confirm_rules. destruct (firewall_apply_danger_id _) as [i1|]; [|done]. by destruct (confirm i1 (reg n)).
  - unfold danger_confirm. by destruct (confirm i0 (reg n)).
  - unfold danger_rollback. by destruct (begin_rollback i0 (reg n)) as [[[] ?] ?].
  - done.
  - unfold run_thread. destruct (threads n !! j); [|done]. by destruct (step_thread _ _ _ _) as [[[??]?]?].
  - unfold watch. destruct (rollback_deadline _); [|done]. by destruct (_ <? _).
  - unfold apply_startup. by rewrite Hp.
  - destruct c; cbn [edit].
    + unfold create_rule. destruct (cluster_guard_node_id _ _); [done|]. by rewrite Hw.
    + unfold update_rule. destruct (bool_decide _); [|done]. cbn [negb]. by rewrite Hp.
    + unfold delete_rule. by rewrite Hp.
    + unfold reorder_rules. by rewrite Hw.
    + unfold assign_zone. destruct (cluster_guard_node_id _ _); [done|]. by rewrite Hw.
  - unfold receive_config. by rewrite Hp.
Qed.

(** One rule can disable the router for good.  A logging rule whose
    identifier, chosen by the client, has a character across its eighth byte is
    stored, makes its own request panic under the lock of the configuration,
    and from then on, whatever happens, the configuration cannot be changed and
    no application gets past the lock; after a restart with the stored
    configuration no firewall is applied either. *)
Theorem rule_id_disables_router e fresh rule n r n' :
  poisoned (router n) = false → save_ok e = true → auto_apply (config (router n)) = true →
  deadly rule → id rule ≠ "" →
  create_rule e None fresh rule n = (r, n') →
  r = RPanic ∧ host n' = host n ∧ (∃ stored, stored ∈ rules (config (router n')) ∧ id stored = id rule) ∧
  (∀ es e' raw xff i,
     config (router (run es n')) = config (router n') ∧
     apply_rules_now e' raw xff i (run es n') = (RPanic, run es n')) ∧
  (∀ e' w m, config (router m) = config (router n') → apply_startup e' w m = m).
Proof.
  intros Hp Hs Ha Hd Hid H. unfold create_rule in H. cbn [cluster_guard_node_id] in H.
  rewrite bool_decide_false in H by done. unfold with_config_write in H. rewrite Hp, Hs in H. cbn [negb] in H.
  set (cfg := insert_rule rule (config (router n))) in *.
  assert (auto_apply cfg = true) as Hac by done. rewrite Hac in H. cbn [negb] in H.
  assert (∃ stored, stored ∈ rules cfg ∧ deadly stored ∧ id stored = id rule) as (stored & Hin & Hdead & Hsid).
  { eexists. unfold cfg, insert_rule. cbn. split; [apply elem_of_app; right; by left|].
    destruct (order rule =? 0); [|done]. by destruct rule. }
  rewrite (deadly_panics _ cfg _ _ stored Hdead Hin) in H. injection H as <- <-.
  assert (∀ m, config (router m) = cfg → ∀ e' w, apply_startup e' w m = m) as Hstart.
  { intros m Hm e' w. unfold apply_startup. rewrite Hm, (deadly_panics _ cfg _ _ stored Hdead Hin).
    by destruct (poisoned _ || _). }
  split_and!; [done|done|by exists stored| |intros; by apply Hstart].
  intros es e' raw xff i. set (m := n <| router := _ |> <| router := _ |>).
  destruct (poisoned_stays es m) as [Hpm Hcm]; [done|]. split; [done|]. unfold apply_rules_now. by rewrite Hpm.
Qed.
End Props.

(** ** Witnesses

    A host whose filter table is a text: iptables-save prints it,
    iptables-restore replaces it, every other command fails. *)
Module Toy.
Definition toy_shell : Shell string := λ program args stdin k,
  if bool_decide (program = "iptables-save") then (Some (true, k), k) else
  if bool_decide (program = "iptables-restore")
  then (Some (true, ""), if bool_decide ("--test" ∈ args) then k else stdin) else
  (Some (false, ""), k).
#[local] Existing Instance toy_shell.
#[local] Instance toy_zones : HashOrder Zone := canonical_order Zone.
#[local] Instance toy_ops : HashOrder (OpEntry string) := canonical_order (OpEntry string).

Definition env (t : Z) : Env :=
  {| now := t * SEC; unix := 1000000 + t; self_id := "ws-1"; vms := []; enforced := false; save_ok := true;
     mgmt_ports := [8553; 8554] |}.
Definition start (cfg : RouterConfig) : Node string :=
  {| router := {| config := cfg; poisoned := false; last_applied_rules := None; rollback_deadline := None;
                  firewall_apply_danger_id := None |};
     reg := ∅; threads := []; host := "old"; called := [] |}.
Definition n0 : Node string := start Lockout.lockout.
Definition applied (t : Z) (i : string) (n : Node string) : Node string :=
  (apply_rules_now (env t) (Some "192.168.1.50") None i n).2.

Lemma start_quiet cfg : quiet (start cfg).
Proof. split; [|done]. split; [|constructor]. intros i en H. cbn in H. by rewrite lookup_empty in H. Qed.
Lemma start_fresh cfg : fresh_switch (start cfg).
Proof. done. Qed.

(** Applied, left alone for thirty seconds, undone by a tick. *)
Definition undone : list (Env * Step string) :=
  [(env 0, ApplyNow (Some "192.168.1.50") None "danger-1"); (env 30, StartTick)]
  ++ replicate 4 (env 30, RunThread 0).
Lemma rollback_once_witness :
  called (run undone n0) = ["danger-1"] ∧ host (run undone n0) = "old" ∧
  (danger_confirm "danger-1" (run undone n0)).1 = RBadRequest.
Proof.
  assert (NoDup (all_drawn undone)) as Hnd by (refine (bool_decide_unpack _ _); by vm_compute).
  pose proof (rollback_once undone n0 (start_fresh _) Hnd) as (_ & _ & H).
  assert (called (run undone n0) = ["danger-1"]) as Hc by (by vm_compute).
  split; [exact Hc|]. split; [by vm_compute|]. apply H. rewrite Hc. by left.
Defined.

Lemma applied_reply : apply_rules_now (env 0) (Some "192.168.1.50") None "danger-1" n0 = (RApplied 30 "danger-1", applied 0 "danger-1" n0).
Proof.
  assert ((apply_rules_now (env 0) (Some "192.168.1.50") None "danger-1" n0).1 = RApplied 30 "danger-1") as H by (by vm_compute).
  rewrite <-H. unfold applied. by destruct (apply_rules_now _ _ _ _ _).
Qed.

Definition waiting : list (Env * Step string) := [(env 10, StartTick); (env 10, RunThread 0); (env 12, Watch)].
Definition later : list (Env * Step string) :=
  [(env 40, StartTick); (env 40, RunThread 1); (env 40, RunThread 1); (env 41, Watch)].
Lemma confirmed_rules_stay_witness :
  host (run later (confirm_rules (run waiting (applied 0 "danger-1" n0))).2) = Lockout.script.
Proof.
  assert (∃ n2, confirm_rules (run waiting (applied 0 "danger-1" n0)) = (ROk, n2)) as [n2 Hc].
  { assert ((confirm_rules (run waiting (applied 0 "danger-1" n0))).1 = ROk) as H by (by vm_compute).
    rewrite <-H. eexists. apply surjective_pairing. }
  rewrite Hc. cbn [snd].
  rewrite (confirmed_rules_stay _ _ _ _ _ _ _ waiting n2 later (start_quiet _) (fresh_new _ _ (start_fresh _)) applied_reply); [by vm_compute| |exact Hc|by repeat constructor].
  assert (rollback_deadline (router (applied 0 "danger-1" n0)) = Some 1000030) as -> by (by vm_compute).
  repeat (apply Forall_cons; split; [split; [done|by intros d [= <-]]|]). constructor.
Defined.

(** The closure is taken although the operator is at work elsewhere. *)
Definition busy : list (Env * Step string) :=
  [(env 30, RunThread 0); (env 30, DoEdit None (Delete "rule-1")); (env 31, RunThread 0);
   (env 31, ConfirmRules); (env 31, RunThread 0); (env 32, RunThread 0)].
Definition a0 : Node string := applied 0 "danger-1" n0.
Lemma expired_is_settled_witness :
  settled (run busy (start_tick (env 30) a0)) "danger-1" ∧ called (run busy (start_tick (env 30) a0)) = ["danger-1"].
Proof.
  assert (reg a0 = schedule 0 1000000 "danger-1" "firewall_apply" "WolfRouter firewall rules applied" 30 (revert_to "old") ∅) as Hr.
  { destruct (apply_now_inv _ _ _ _ _ _ _ _ applied_reply) as (_ & rs & prev & Hb & Ha & _ & Hreg & _).
    assert (rs = Lockout.script) as -> by (apply (f_equal (λ r, match r with Ok x => x | _ => "" end)) in Hb; subst; by vm_compute).
    assert (prev = "old") as -> by (apply (f_equal (λ r, match r with Ok x => x | _ => "" end)) in Ha; subst; by vm_compute).
    exact Hreg. }
  pose proof (applied_armed _ _ _ _ _ _ _ (start_quiet _) (fresh_new _ _ (start_fresh _)) applied_reply) as (_ & Harm & _).
  split; [|by vm_compute].
  eapply (expired_is_settled (env 30) a0 busy "danger-1").
  - exact Harm.
  - rewrite Hr. unfold schedule. apply lookup_insert_eq.
  - by vm_compute.
  - split; [|by vm_compute; constructor]. intros i en f. rewrite Hr. unfold schedule.
    destruct (decide (i = "danger-1")) as [->|Hne].
    + rewrite lookup_insert_eq. intros [= <-] [= <-]. apply revert_never_panics.
    + rewrite lookup_insert_ne by done. by rewrite lookup_empty.
  - repeat (apply Forall_cons; split; [split; [done|apply not_elem_of_nil]|]). constructor.
  - assert (expired_ids (now (env 30)) (reg a0) = ["danger-1"]) as ->; [|by vm_compute].
    eapply expired_single; [rewrite Hr; apply lookup_insert_eq|by vm_compute|].
    intros i en. rewrite Hr. unfold schedule. destruct (decide (i = "danger-1")) as [->|Hne]; [done|].
    rewrite lookup_insert_ne by done. by rewrite lookup_empty.
Defined.

(** A rule that drops the management port, created on an idle node. *)
Definition idle_node : Node string := start (Lockout.lockout <| rules := [] |>).
Definition locking : list (Env * Step string) := [(env 0, DoEdit None (Create "rule-9" Lockout.lockout_rule))].
Lemma edits_never_rolled_back_witness :
  host (run locking idle_node) = Lockout.script ∧ host (run (locking ++ later) idle_node) = Lockout.script.
Proof.
  assert (host (run locking idle_node) = Lockout.script) as H by (by vm_compute).
  split; [exact H|]. rewrite (edits_never_rolled_back locking later idle_node (start_quiet _)); [exact H|by repeat constructor..].
Defined.

(** Kept through the banner after ten seconds, reverted after thirty. *)
Lemma timers_disagree_witness :
  let n1 := applied 0 "danger-1" n0 in
  (danger_confirm "danger-1" n1).1 = ROk ∧
  host (run [(env 10, Keep "danger-1")] n1) = Lockout.script ∧
  host (watch (env 30) (run [(env 10, Keep "danger-1")] n1)) = "old" ∧
  (confirm_rules (watch (env 30) n1)).1 = ROk ∧ host (confirm_rules (watch (env 30) n1)).2 = "old".
Proof.
  assert (last_applied_rules (router (applied 0 "danger-1" n0)) = Some "old") as Hp by (by vm_compute).
  destruct (timers_disagree _ _ _ _ n0 _ _ _ 30 applied_reply Hp eq_refl eq_refl) as ((H1 & H2) & H3).
  split; [exact H1|]. split; [by vm_compute|]. split.
  - rewrite (H2 [(env 10, Keep "danger-1")] (env 30)); [by vm_compute|by repeat constructor|done].
  - destruct (H3 (env 30)) as [Ha Hb]; [done|]. split; [exact Ha|]. rewrite Hb. by vm_compute.
Defined.

(** The first rules, then the lockout a second later; both confirmed at once. *)
Definition first_node : Node string := start (Lockout.lockout <| rules := [] |>).
Definition n1 : Node string := applied 0 "danger-1" first_node.
Definition n2 : Node string := applied 1 "danger-2" n1.
Lemma first_timer_survives_witness :
  (confirm_rules n2).1 = ROk ∧
  let n3 := (confirm_rules n2).2 in
  host (run [(env 30, StartTick); (env 30, RunThread 0); (env 30, RunThread 0)] n3) = "old".
Proof.
  assert (apply_rules_now (env 0) (Some "192.168.1.50") None "danger-1" first_node = (RApplied 30 "danger-1", n1)) as H1.
  { assert ((apply_rules_now (env 0) (Some "192.168.1.50") None "danger-1" first_node).1 = RApplied 30 "danger-1") as H by (by vm_compute).
    rewrite <-H. apply surjective_pairing. }
  assert (apply_rules_now (env 1) (Some "192.168.1.50") None "danger-2" n1 = (RApplied 30 "danger-2", n2)) as H2.
  { assert ((apply_rules_now (env 1) (Some "192.168.1.50") None "danger-2" n1).1 = RApplied 30 "danger-2") as H by (by vm_compute).
    rewrite <-H. apply surjective_pairing. }
  assert (last_applied_rules (router n1) = Some "old") as Hp by (by vm_compute).
  assert ("danger-1" ≠ "danger-2") as Hne by done.
  assert (30 ≤ elapsed_secs (now (env 30)) (now (env 0))) as Ht by (by vm_compute).
  pose proof (first_timer_survives _ _ _ _ _ first_node _ _ _ _ _ _ _ "old" (env 30) eq_refl Hne H1 Hp H2 Ht) as H.
  destruct (confirm_rules n2) as [r n3] eqn:Hc. destruct H as [-> H]. split; [done|]. cbn [snd].
  assert (length (threads n3) = 0%nat) as Hlen.
  { assert (n3 = (confirm_rules n2).2) as -> by (by rewrite Hc). by vm_compute. }
  rewrite Hlen in H. rewrite H. assert (n3 = (confirm_rules n2).2) as -> by (by rewrite Hc). by vm_compute.
Defined.

(** Eight bytes into "rule-42é". *)
Definition odd_rule : FirewallRule := Lockout.lockout_rule <| id := "rule-42é" |> <| log_match := true |>.
Lemma rule_id_disables_router_witness :
  (create_rule (env 0) None "" odd_rule idle_node).1 = RPanic ∧
  let n' := (create_rule (env 0) None "" odd_rule idle_node).2 in
  config (router (run locking n')) = config (router n').
Proof.
  destruct (rule_id_disables_router (env 0) "" odd_rule idle_node (create_rule (env 0) None "" odd_rule idle_node).1
    (create_rule (env 0) None "" odd_rule idle_node).2) as (Hr & _ & _ & Hes & _); [done|done|done| |done|apply surjective_pairing|].
  - split_and!; by vm_compute.
  - split; [exact Hr|]. apply (Hes locking (env 1) None None "danger-1").
Defined.
End Toy.
