(* ===== verification/Inbox.v ===== *)
(** * The predictive inbox: findings, acknowledgements, pages

    predictive/proposal.rs, predictive/ack.rs, predictive/cluster.rs and
    predictive/notify.rs.  Times are nanoseconds since the Unix epoch; an
    operation reads the clock once.  The identifier of a new finding is drawn
    by the caller (a UUID in the code). *)
From stdpp Require Import pretty.
From S2P Require Import Prelude Net.

Definition HOUR : Z := 3600 * SEC.
Definition DAY : Z := 24 * HOUR.

(** ** Findings *)
Inductive Severity := Critical | High | Warn | Info.
Definition rank (s : Severity) : Z :=
  match s with Critical => 0 | High => 1 | Warn => 2 | Info => 3 end.

Inductive ProposalSource := Rule | Ai.
(** [params]: the text of a JSON value. *)
Inductive RemediationPlan :=
| Manual (instructions : string) (commands : list string)
| OneClick (handler_id params : string).
Record EvidenceLink := { link_label : string; url : string }.
Record Evidence := { label : string; value : string; detail : option string; links : list EvidenceLink }.
Record ProposalScope := { node_id : string; resource_id : option string }.
Inductive ApprovalOutcome :=
| Applied
| Failed (error : string)
| ConditionCleared
| ResourceGone (reason : string).
Inductive ProposalStatus :=
| Pending
| Snoozed (until : Z)
| Approved (applied_at : Z) (outcome : ApprovalOutcome)
| Dismissed (reason : string) (dismissed_at : Z).

Record Proposal := {
  id : string;
  finding_type : string;
  source : ProposalSource;
  severity : Severity;
  title : string;
  why : string;
  evidence : list Evidence;
  remediation : RemediationPlan;
  scope : ProposalScope;
  status : ProposalStatus;
  created_at : Z;
  updated_at : Z;
  last_checked_at : option Z
}.
#[export] Instance eta_Proposal : Eta Proposal := λ p,
  {| id := id p; finding_type := finding_type p; source := source p; severity := severity p; title := title p;
     why := why p; evidence := evidence p; remediation := remediation p; scope := scope p; status := status p;
     created_at := created_at p; updated_at := updated_at p; last_checked_at := last_checked_at p |}.
Abbreviation ProposalStore := (list Proposal).

#[export] Instance Severity_eq_dec : EqDecision Severity.
Proof. solve_decision. Defined.
#[export] Instance ProposalScope_eq_dec : EqDecision ProposalScope.
Proof. solve_decision. Defined.
#[export] Instance ApprovalOutcome_eq_dec : EqDecision ApprovalOutcome.
Proof. solve_decision. Defined.
#[export] Instance ProposalStatus_eq_dec : EqDecision ProposalStatus.
Proof. solve_decision. Defined.

(** What an analyzer hands to [Proposal::new_rule]. *)
Record Draft := {
  d_finding_type : string;
  d_severity : Severity;
  d_title : string;
  d_why : string;
  d_evidence : list Evidence;
  d_remediation : RemediationPlan;
  d_scope : ProposalScope
}.
Definition new_rule (fresh : string) (now : Z) (d : Draft) : Proposal :=
  {| id := fresh; finding_type := d_finding_type d; source := Rule; severity := d_severity d;
     title := d_title d; why := d_why d; evidence := d_evidence d; remediation := d_remediation d;
     scope := d_scope d; status := Pending; created_at := now; updated_at := now;
     last_checked_at := Some now |}.

Abbreviation Key := (string * ProposalScope)%type.
Definition dedup_key (p : Proposal) : Key := (finding_type p, scope p).
Definition draft_key (d : Draft) : Key := (d_finding_type d, d_scope d).

Definition is_pending (p : Proposal) : bool := match status p with Pending => true | _ => false end.
Definition has_key (k : Key) (p : Proposal) : bool := bool_decide (dedup_key p = k).
Definition has_id (i : string) (p : Proposal) : bool := bool_decide (id p = i).
Definition listed (ks : list Key) (p : Proposal) : bool := bool_decide (dedup_key p ∈ ks).

(** ** The store *)
Definition contains_key (k : Key) (s : ProposalStore) : bool := existsb (has_key k) s.

Definition APPLIED_GRACE_HOURS : Z := 12.
Definition ORPHAN_FUSE_DAYS : Z := 7.

(** The operator's decision on [p] still stands. *)
Definition shielded (now : Z) (p : Proposal) : bool :=
  match status p with
  | Snoozed until => now <? until
  | Dismissed _ _ => true
  | Approved applied_at Applied => now <? applied_at + APPLIED_GRACE_HOURS * HOUR
  | _ => false
  end.

Definition refresh (now : Z) (incoming existing : Proposal) : Proposal :=
  existing <| severity := severity incoming |> <| title := title incoming |> <| why := why incoming |>
           <| evidence := evidence incoming |> <| remediation := remediation incoming |>
           <| source := source incoming |> <| status := Pending |> <| updated_at := now |>.

(** The identifier it returns is used by no caller. *)
Definition upsert (now : Z) (incoming : Proposal) (s : ProposalStore) : ProposalStore :=
  let k := dedup_key incoming in
  match List.find (has_key k) s with
  | Some existing =>
      if shielded now existing then s else update_first (has_key k) (refresh now incoming) s
  | None => s ++ [incoming]
  end.

Definition touch_checked (now : Z) (covered : list Key) (s : ProposalStore) : ProposalStore :=
  (λ p, if is_pending p && listed covered p then p <| last_checked_at := Some now |> else p) <$> s.

(** [f] on the findings that satisfy [p]: the new store and how many. *)
Definition resolve_where (p : Proposal → bool) (f : Proposal → Proposal) (s : ProposalStore)
    : ProposalStore * nat :=
  ((λ x, if p x then f x else x) <$> s, length (retain p s)).

Definition resolve (now : Z) (o : ApprovalOutcome) (p : Proposal) : Proposal :=
  p <| status := Approved now o |> <| updated_at := now |>.

Definition auto_resolve_cleared (now : Z) (covered emitted : list Key) : ProposalStore → ProposalStore * nat :=
  resolve_where (λ p, is_pending p && listed covered p && negb (listed emitted p)) (resolve now ConditionCleared).

Definition last_alive (p : Proposal) : Z :=
  Z.max (default (updated_at p) (last_checked_at p)) (updated_at p).
Definition foreign (node : string) (p : Proposal) : bool :=
  negb (bool_decide (node = "")) && negb (bool_decide (node_id (scope p) = node)).

(** [fmt_time] prints a point in time (chrono). *)
Section Orphans.
Context (fmt_time : Z → string).

Definition orphan_reason (node : string) (fuse_days : Z) (p : Proposal) : string :=
  if foreign node p then
    "finding belongs to node " +:+ node_id (scope p) +:+
    ", which this node is not — nothing here can re-evaluate it"
  else
    "nothing has evaluated this finding since " +:+ fmt_time (last_alive p) +:+ ", past the " +:+
    pretty fuse_days +:+ "-day fuse — treating the resource it refers to as gone".
Definition orphaned (now : Z) (node : string) (fuse_days : Z) (p : Proposal) : bool :=
  is_pending p && (foreign node p || (last_alive p <? now - fuse_days * DAY)).
Definition resolve_orphaned (now : Z) (node : string) (fuse_days : Z) : ProposalStore → ProposalStore * nat :=
  resolve_where (orphaned now node fuse_days)
    (λ p, resolve now (ResourceGone (orphan_reason node fuse_days p)) p).
End Orphans.

Definition vanished_scopes (finding_types : list string) (enumerated : bool) (covered : list Key)
    (s : ProposalStore) (node : string) : list Key :=
  if negb enumerated then [] else
  dedup_key <$> retain (λ p, is_pending p && bool_decide (node_id (scope p) = node)
                             && bool_decide (finding_type p ∈ finding_types) && negb (listed covered p)) s.

Definition resolve_vanished (now : Z) (vanished : list Key) : ProposalStore → ProposalStore * nat :=
  resolve_where (λ p, is_pending p && listed vanished p)
    (resolve now (ResourceGone "the resource this finding is about is no longer present on this node")).

Definition is_suppressed (now : Z) (k : Key) (s : ProposalStore) : bool :=
  existsb (λ p, has_key k p && shielded now p) s.

(** [sort_proposals]: by severity, then the latest first. *)
Definition inbox_le (a b : Proposal) : bool :=
  (rank (severity a) <? rank (severity b))
  || ((rank (severity a) =? rank (severity b)) && (updated_at b <=? updated_at a)).
Definition visible (now : Z) (p : Proposal) : bool :=
  match status p with Pending => true | Snoozed until => now <? until | _ => false end.
Definition inbox (now : Z) (s : ProposalStore) : list Proposal := sort_by inbox_le (retain (visible now) s).

Definition get (i : string) (s : ProposalStore) : option Proposal := List.find (has_id i) s.

(** The operator's actions; [None]: no such finding. *)
Definition act (i : string) (f : Proposal → Proposal) (s : ProposalStore) : option ProposalStore :=
  match get i s with Some _ => Some (update_first (has_id i) f s) | None => None end.
Definition snooze (now : Z) (i : string) (until : Z) : ProposalStore → option ProposalStore :=
  act i (λ p, p <| status := Snoozed until |> <| updated_at := now |>).
Definition dismiss (now : Z) (i reason : string) : ProposalStore → option ProposalStore :=
  act i (λ p, p <| status := Dismissed reason now |> <| updated_at := now |>).
Definition record_approval (now : Z) (i : string) (o : ApprovalOutcome) : ProposalStore → option ProposalStore :=
  act i (resolve now o).
Definition restorable (p : Proposal) : bool :=
  match status p with Dismissed _ _ | Snoozed _ => true | _ => false end.
Definition restore (now : Z) (i : string) (s : ProposalStore) : res string ProposalStore :=
  match get i s with
  | None => Err ("proposal " +:+ i +:+ " not found")
  | Some p =>
      if restorable p
      then Ok (update_first (has_id i) (λ p, p <| status := Pending |> <| updated_at := now |>) s)
      else Err "only a dismissed or snoozed finding can be restored"
  end.

Definition kept (now days : Z) (p : Proposal) : bool :=
  match status p with Approved _ _ => now - days * DAY <=? updated_at p | _ => true end.
Definition prune_resolved_older_than (now days : Z) (s : ProposalStore) : ProposalStore * nat :=
  let s' := retain (kept now days) s in (s', (length s - length s')%nat).

(** ** Acknowledgements *)
Inductive AckScope :=
| Cluster
| Node (node_id : string)
| Resource (node_id resource_id : string).
Definition covers (a : AckScope) (sc : ProposalScope) : bool :=
  match a with
  | Cluster => true
  | Node n => bool_decide (n = node_id sc)
  | Resource n r => bool_decide (n = node_id sc) && bool_decide (resource_id sc = Some r)
  end.
Record Ack := {
  ack_id : string;
  ack_finding_type : string;
  ack_scope : AckScope;
  ack_reason : string;
  acknowledged_by : string;
  ack_created_at : Z;
  expires : option Z
}.
Abbreviation AckStore := (list Ack).

Definition DEFAULT_ACK_LIFETIME_DAYS : Z := 180.
Definition new_ack (fresh : string) (now : Z) (finding_type : string) (sc : AckScope) (reason by_ : string)
    (lifetime : option Z) : Ack :=
  {| ack_id := fresh; ack_finding_type := finding_type; ack_scope := sc; ack_reason := reason;
     acknowledged_by := by_; ack_created_at := now;
     expires := Some (now + default (DEFAULT_ACK_LIFETIME_DAYS * DAY) lifetime) |}.
Definition is_active (now : Z) (a : Ack) : bool := match expires a with None => true | Some e => now <? e end.
Definition upsert_replica (a : Ack) (s : AckStore) : AckStore :=
  if existsb (λ x, bool_decide (ack_id x = ack_id a)) s
  then update_first (λ x, bool_decide (ack_id x = ack_id a)) (λ _, a) s else s ++ [a].
Definition ack_remove (i : string) (s : AckStore) : bool * AckStore :=
  let s' := retain (λ a, negb (bool_decide (ack_id a = i))) s in
  (bool_decide (length s' < length s)%nat, s').
Definition suppresses (now : Z) (k : Key) (s : AckStore) : bool :=
  existsb (λ a, is_active now a && bool_decide (ack_finding_type a = k.1) && covers (ack_scope a) k.2) s.
Definition prune_expired (now : Z) (s : AckStore) : AckStore * nat :=
  let s' := retain (is_active now) s in (s', (length s - length s')%nat).

(** ** Pages *)
Definition pages (p : Proposal) : bool :=
  match severity p with Critical | High => true | _ => false end.
Definition find_first_appearance_alerts (previous current : list Proposal) : list Proposal :=
  let prev_pending := dedup_key <$> retain is_pending previous in
  retain (λ p, is_pending p && pages p && negb (listed prev_pending p)) current.

Inductive AlertCategory := Compromise | Threshold.
Definition sev_marker (s : Severity) : string :=
  match s with Critical => "🔴 CRITICAL" | High => "🟠 HIGH" | Warn => "🟡 WARN" | Info => "ℹ INFO" end.
Definition NL : string := String LF "".

Definition format_for_channel (p : Proposal) : res string (string * string) :=
  why_short ← (if (480 <? Z.of_nat (String.length (why p)))
               then (w ← slice_to 480 (why p); Ok (w +:+ "…")) else Ok (why p));
  let message := match resource_id (scope p) with
                 | Some r => "Resource: " +:+ r +:+ NL +:+ NL +:+ why_short
                 | None => why_short
                 end in
  let evidence_lines := (λ e, "• " +:+ label e +:+ ": " +:+ value e) <$> evidence p in
  let message := match evidence_lines with
                 | [] => message
                 | _ => message +:+ NL +:+ NL +:+ "Evidence:" +:+ NL +:+ join NL evidence_lines
                 end in
  Ok (sev_marker (severity p) +:+ " — " +:+ title p,
      message +:+ NL +:+ NL +:+ "Open the Predictive Inbox to snooze, dismiss, or apply.").

Definition category (p : Proposal) : AlertCategory :=
  if String.prefix "compromise_indicator:" (finding_type p) then Compromise else Threshold.

(** Each finding is formatted and sent in a task of its own: a panic loses
    that page only.  [delivery]: alerts are enabled and a channel is set. *)
Definition dispatch_alerts (delivery : bool) (ps : list Proposal) : list (AlertCategory * (string * string)) :=
  if delivery then omap (λ p, match format_for_channel p with Ok m => Some (category p, m) | _ => None end) ps
  else [].

(** ** One-click remediation (predictive/rpcbind.rs) *)
Definition resource_id_is_port_111 (r : string) : bool :=
  let without_proto := match rsplit_once "/" r with Some (head, _) => head | None => r end in
  match rsplit_once ":" without_proto with Some (_, port) => bool_decide (port = "111") | None => false end.
Definition FINDING_SERVICE_PUBLIC : string := "service_bound_publicly".
Definition is_rpcbind_exposure (p : Proposal) : bool :=
  bool_decide (finding_type p = FINDING_SERVICE_PUBLIC)
  && match resource_id (scope p) with Some r => resource_id_is_port_111 r | None => false end.
