(* ===== verification/InboxAnalyzers.v ===== *)
(** * What the analyzers of the predictive inbox share

    The metrics of predictive/metrics.rs, the verdict of disk_verdict.rs, and
    the class [Analyzer]: what the tick of [InboxNode] asks of an analyzer,
    with its laws.  The facts of an analyzer are what its sampler read. *)
From stdpp Require Import pretty.
From S2P Require Import Prelude Net F64 Inbox.

Definition MINUTE : Z := 60 * SEC.

(** ** Metrics *)
Record MetricSample := { ts : Z; sample : f64 }.
Definition DEFAULT_CAPACITY : nat := 288.
Abbreviation MetricsHistory := (gmap string (gmap string (list MetricSample))).

Definition samples (resource metric : string) (h : MetricsHistory) : option (list MetricSample) :=
  m ← h !! resource; m !! metric.
Definition record_at (resource metric : string) (v : f64) (now : Z) (h : MetricsHistory) : MetricsHistory :=
  let m := default ∅ (h !! resource) in
  let buf := default [] (m !! metric) ++ [{| ts := now; sample := v |}] in
  <[resource := <[metric := drop (length buf - DEFAULT_CAPACITY) buf]> m]> h.
Definition retain_resources (keep : string → bool) (h : MetricsHistory) : MetricsHistory :=
  map_retain (λ k _, keep k) h.

(** Seconds since the first sample, in thousandths. *)
Definition num_milliseconds (d : Z) : Z := Z.quot d 1000000.
Definition num_minutes (d : Z) : Z := Z.quot d MINUTE.

Definition linear_fit (l : list MetricSample) : option (f64 * f64) :=
  if (length l <? 2)%nat then None else
  match l with
  | [] => None
  | s0 :: _ =>
      let xs := (λ s, f64_div (f64_of_Z (num_milliseconds (ts s - ts s0))) (f64_of_Z 1000)) <$> l in
      let ys := sample <$> l in
      let n := f64_of_Z (Z.of_nat (length l)) in
      let mean_x := f64_div (f64_sum xs) n in
      let mean_y := f64_div (f64_sum ys) n in
      let '(num, denom) :=
        foldl (λ acc p, let dx := f64_sub p.1 mean_x in
                        (f64_add acc.1 (f64_mul dx (f64_sub p.2 mean_y)), f64_add acc.2 (f64_mul dx dx)))
              (f64_0, f64_0) (zip xs ys) in
      if f64_eq denom f64_0 then None else
      let slope := f64_div num denom in
      Some (slope, f64_sub mean_y (f64_mul slope mean_x))
  end.

(** ** Disks *)
Definition MIN_SAMPLES : nat := 3.
Definition MIN_SPAN_MINUTES : Z := 30.
Definition MAX_HORIZON_HOURS : f64 := f64_of_Z 168.
Definition CRITICAL_HOURS : f64 := f64_of_Z 6.
Definition HIGH_HOURS : f64 := f64_of_Z 48.
Definition MIN_USED_PCT : f64 := f64_of_Z 50.
Definition FILL_TARGET_PCT : f64 := f64_of_Z 95.

Record Verdict := {
  v_severity : Severity;
  eta_hours : option f64;
  slope_pct_per_hour : f64;
  samples_used : nat;
  span_minutes : Z
}.

Definition severity_from_eta (eta : f64) : Severity :=
  if f64_lt eta CRITICAL_HOURS then Critical else if f64_lt eta HIGH_HOURS then High else Warn.

Definition compute_verdict (l : list MetricSample) (used_pct_now target_pct : f64) : option Verdict :=
  if (length l <? MIN_SAMPLES)%nat then None else
  b ← last l; f ← head l;
  let span := num_minutes (ts b - ts f) in
  if span <? MIN_SPAN_MINUTES then None else
  '(slope_per_sec, _) ← linear_fit l;
  let slope_per_hour := f64_mul slope_per_sec (f64_of_Z 3600) in
  let verdict sev eta := Some {| v_severity := sev; eta_hours := eta; slope_pct_per_hour := slope_per_hour;
                                 samples_used := length l; span_minutes := span |} in
  if f64_le target_pct used_pct_now then
    if f64_le slope_per_hour f64_0 then verdict Warn None else
    let eta := f64_div (f64_sub (f64_of_Z 100) used_pct_now) slope_per_hour in
    verdict (severity_from_eta eta) (Some (f64_max eta f64_0))
  else if f64_le slope_per_hour f64_0 then None else
    let eta := f64_div (f64_sub target_pct used_pct_now) slope_per_hour in
    if f64_lt MAX_HORIZON_HOURS eta then None else verdict (severity_from_eta eta) (Some eta).

Definition humanise_hours (h : f64) : string :=
  if f64_lt h (f64_of_Z 1) then fmt_fixed 0 (f64_max (f64_mul h (f64_of_Z 60)) (f64_of_Z 1)) +:+ " min"
  else if f64_lt h (f64_of_Z 24) then fmt_fixed 1 h +:+ " h"
  else fmt_fixed 1 (f64_div h (f64_of_Z 24)) +:+ " days".

(** ** The interface of the tick *)
Class Analyzer (F : Type) := {
  (** the findings this node raises now *)
  analyze : string → Z → MetricsHistory → F → AckStore → ProposalStore → list Draft;
  (** the scopes it had data for *)
  covered_scopes : string → F → ProposalStore → list Key;
  (** finding types whose resources it lists in full, and whether it could *)
  enumerates : F → list (list string * bool)
}.

Definition scope_of (node resource : string) : ProposalScope :=
  {| node_id := node; resource_id := Some resource |}.
(** The analyzer is silenced for [k]. *)
Definition silenced (now : Z) (k : Key) (acks : AckStore) (s : ProposalStore) : bool :=
  suppresses now k acks || is_suppressed now k s.

Definition gb (z : Z) : string := fmt_fixed 1 (f64_div (f64_of_Z z) (f64_of_Z 1073741824)).
Definition ev (l v : string) (d : option string) : Evidence :=
  {| label := l; value := v; detail := d; links := [] |}.
Definition growth_evidence (v : Verdict) : Evidence :=
  ev "Growth rate" (fmt_signed 2 (slope_pct_per_hour v) +:+ " %/h")
     (Some ("Linear fit over " +:+ pretty (Z.of_nat (samples_used v)) +:+ " samples spanning "
            +:+ pretty (span_minutes v) +:+ " min")).

(** What disk_fill.rs and container_disk.rs have in common. *)
Definition worth_a_look (used_pct : f64) : bool :=
  negb (f64_lt used_pct MIN_USED_PCT) || f64_le FILL_TARGET_PCT used_pct.
Definition disk_draft {F} (used_pct : F → f64) (resource finding_type : F → string) (metric : string)
    (build : F → ProposalScope → Verdict → Draft)
    (node : string) (now : Z) (h : MetricsHistory) (acks : AckStore) (s : ProposalStore) (f : F) : option Draft :=
  let sc := scope_of node (resource f) in
  if negb (worth_a_look (used_pct f)) || silenced now (finding_type f, sc) acks s then None else
  l ← samples (resource f) metric h;
  v ← compute_verdict l (used_pct f) FILL_TARGET_PCT;
  Some (build f sc v).

(** ** What the tick relies on

    An analyzer that is silenced for a scope raises nothing there, and what it
    raises is about this node and among the scopes it had data for. *)
Class AnalyzerLaws F `{!Analyzer F} := {
  raised_unsilenced node now h f acks s d :
    d ∈ analyze node now h f acks s → silenced now (draft_key d) acks s = false;
  raised_covered node now h f acks s d :
    d ∈ analyze node now h f acks s → draft_key d ∈ covered_scopes node f s;
  raised_here node now h f acks s d :
    d ∈ analyze node now h f acks s → node_id (d_scope d) = node
}.
