(* ===== verification/DiskFill.v ===== *)
(** * Disks that fill up: predictive/disk_fill.rs *)
From stdpp Require Import pretty.
From S2P Require Import Prelude Net F64 Inbox InboxAnalyzers.

Module DiskFill.
Definition FINDING_TYPE : string := "disk_fill_eta".
Definition METRIC : string := "disk_used_pct".
Record DiskFact := { mount : string; fstype : string; used_pct : f64; total_bytes : Z; avail_bytes : Z }.

Definition under (root m : string) : bool := bool_decide (m = root) || String.prefix (root +:+ "/") m.
Definition build_remediation (m : string) : RemediationPlan :=
  if under "/var/lib/docker" m then
    Manual ("Docker keeps stopped containers, dangling images, and unused volumes around indefinitely. A "
            +:+ "`system prune -a` with `--volumes` reclaims most of the space. Review what will be removed "
            +:+ "first if any of those volumes are not yet backed up.")
           ["docker system df"; "docker system prune -a --volumes"]
  else if under "/var/log" m then
    Manual ("Log retention may be longer than necessary. Vacuum the journal to a bounded window and check for "
            +:+ "runaway log files outside the journal.")
           ["journalctl --disk-usage"; "sudo journalctl --vacuum-time=7d";
            "sudo du -h --max-depth=1 " +:+ m +:+ " | sort -h"]
  else if under "/var/lib/lxc" m || under "/var/lib/vz" m then
    Manual ("Container/VM image storage. Identify the largest consumers and consider archiving or removing "
            +:+ "dormant images.")
           ["sudo du -h --max-depth=2 " +:+ m +:+ " | sort -h | tail -20"]
  else if under "/var/lib/wolfstack" m || under "/etc/wolfstack" m then
    Manual ("WolfStack-managed data. Check the Backups page for old backup artefacts and the Status Pages page "
            +:+ "for stale uptime history.")
           ["sudo du -h --max-depth=2 " +:+ m +:+ " | sort -h | tail -20"]
  else
    Manual "Investigate the largest directories on this mount and remove or archive accordingly."
           ["sudo du -h --max-depth=1 " +:+ m +:+ " 2>/dev/null | sort -h | tail -20"].

Definition build_proposal (f : DiskFact) (sc : ProposalScope) (v : Verdict) : Draft :=
  {| d_finding_type := FINDING_TYPE; d_severity := v_severity v;
     d_title := match eta_hours v with
                | Some h =>
                    if f64_lt h (f64_of_Z 1) then mount f +:+ " fills within the hour"
                    else if f64_lt h (f64_of_Z 24) then mount f +:+ " fills in ~" +:+ fmt_fixed 0 h +:+ "h"
                    else mount f +:+ " fills in ~" +:+ fmt_fixed 1 (f64_div h (f64_of_Z 24)) +:+ "d"
                | None => mount f +:+ " is at " +:+ fmt_fixed 0 (used_pct f) +:+ "% and not filling further"
                end;
     d_why := match eta_hours v with
              | Some h =>
                  "Currently " +:+ fmt_fixed 0 (used_pct f) +:+ "% used, growing at "
                  +:+ fmt_fixed 2 (slope_pct_per_hour v) +:+ "%/h — projected to hit "
                  +:+ fmt_fixed 0 FILL_TARGET_PCT +:+ "% in ~" +:+ humanise_hours h +:+ ". Based on "
                  +:+ pretty (Z.of_nat (samples_used v)) +:+ " samples spanning "
                  +:+ pretty (span_minutes v) +:+ " min."
              | None =>
                  "Currently " +:+ fmt_fixed 0 (used_pct f) +:+ "% used and not growing over the last "
                  +:+ pretty (span_minutes v) +:+ " min (slope " +:+ fmt_fixed 2 (slope_pct_per_hour v)
                  +:+ "%/h). Already past " +:+ fmt_fixed 0 FILL_TARGET_PCT
                  +:+ "% — surface for awareness even though there's no ETA."
              end;
     d_evidence := [ev "Current usage" (fmt_fixed 1 (used_pct f) +:+ "%")
                       (Some (gb (avail_bytes f) +:+ " GB free of " +:+ gb (total_bytes f) +:+ " GB"));
                    growth_evidence v];
     d_remediation := build_remediation (mount f);
     d_scope := sc |}.

#[global] Instance analyzer : Analyzer (list DiskFact) := {|
  analyze := λ node now h fs acks s,
    omap (disk_draft used_pct mount (λ _, FINDING_TYPE) METRIC build_proposal node now h acks s) fs;
  covered_scopes := λ node fs _, (λ f, (FINDING_TYPE, scope_of node (mount f))) <$> fs;
  enumerates := λ _, []
|}.
Definition record (now : Z) (f : DiskFact) : MetricsHistory → MetricsHistory :=
  record_at (mount f) METRIC (used_pct f) now.
End DiskFill.
