(* ===== verification/ContainerDisk.v ===== *)
(** * Containers whose storage fills up: predictive/container_disk.rs *)
From stdpp Require Import pretty.
From S2P Require Import Prelude Net F64 Inbox InboxAnalyzers.

Module ContainerDisk.
Inductive Runtime := Docker | Lxc.
Definition finding_type (r : Runtime) : string :=
  match r with Docker => "docker_storage_fill_eta" | Lxc => "lxc_storage_fill_eta" end.
Definition label (r : Runtime) : string := match r with Docker => "docker" | Lxc => "lxc" end.
Definition METRIC : string := "disk_used_pct".
Record ContainerDiskFact := {
  runtime : Runtime; name : string; cid : string; image : string;
  used_pct : f64; total_bytes : Z; used_bytes : Z
}.
Definition resource_id (r : Runtime) (name : string) : string := label r +:+ ":" +:+ name.

(** FNV-1a over the bytes of a container's identifier. *)
Fixpoint fnv (hash : Z) (s : string) : Z :=
  match s with
  | EmptyString => hash
  | String c s => fnv (wrap32 (Z.lxor hash (Z.of_nat (nat_of_ascii c)) * 0x01000193)) s
  end.
Definition fact_id_hash (cid : string) : Z := fnv 0x811c9dc5 cid.
Definition ID_SENTINEL_METRIC : string := "__container_id_hash".

(** History of another container of the same name is dropped. *)
Definition maybe_reset_history (now : Z) (r : Runtime) (name cid : string) (h : MetricsHistory) : MetricsHistory :=
  let res := resource_id r name in
  let current := fact_id_hash cid in
  let needs_reset := match samples res ID_SENTINEL_METRIC h ≫= last with
                     | Some s => negb (f64_to_uint (2 ^ 32 - 1) (sample s) =? current)
                     | None => false
                     end in
  let h := if needs_reset then <[res := ∅]> h else h in
  record_at res ID_SENTINEL_METRIC (f64_of_Z current) now h.

Definition build_remediation (f : ContainerDiskFact) : RemediationPlan :=
  match runtime f with
  | Docker =>
      Manual ("Inspect what's filling container '" +:+ name f +:+ "'. The mutable layer (writes inside the "
              +:+ "container) and any unbound volume mount are the usual culprits. Truncating runaway logs is "
              +:+ "often the cheapest first step. Volumes that hold real data should be checked before any prune.")
             ["docker logs --tail 50 " +:+ name f +:+ " 2>&1 | tail";
              "docker exec " +:+ name f +:+ " sh -c 'du -h --max-depth=1 / 2>/dev/null | sort -h | tail -10'";
              "docker inspect --format '{{json .Mounts}}' " +:+ name f +:+ " | python3 -m json.tool";
              "docker system df"]
  | Lxc =>
      Manual ("Inspect what's filling LXC container '" +:+ name f +:+ "'. Common culprits: /var/log inside the "
              +:+ "container, unbounded application caches, or a wedged service writing into /tmp.")
             ["sudo lxc-attach -n " +:+ name f +:+ " -- du -h --max-depth=1 /var 2>/dev/null | sort -h | tail -10";
              "sudo lxc-attach -n " +:+ name f +:+ " -- journalctl --disk-usage";
              "sudo lxc-attach -n " +:+ name f +:+ " -- df -h"]
  end.

Definition build_proposal (f : ContainerDiskFact) (sc : ProposalScope) (v : Verdict) : Draft :=
  let who := label (runtime f) +:+ " container '" +:+ name f +:+ "'" in
  {| d_finding_type := finding_type (runtime f); d_severity := v_severity v;
     d_title := match eta_hours v with
                | Some h =>
                    if f64_lt h (f64_of_Z 1) then who +:+ " storage fills within the hour"
                    else if f64_lt h (f64_of_Z 24) then who +:+ " storage fills in ~" +:+ fmt_fixed 0 h +:+ "h"
                    else who +:+ " storage fills in ~" +:+ fmt_fixed 1 (f64_div h (f64_of_Z 24)) +:+ "d"
                | None => who +:+ " storage at " +:+ fmt_fixed 0 (used_pct f) +:+ "% and not filling further"
                end;
     d_why := who +:+ " (image '" +:+ image f +:+ "') storage is " +:+
              match eta_hours v with
              | Some h =>
                  "currently " +:+ fmt_fixed 0 (used_pct f) +:+ "% used and growing at "
                  +:+ fmt_fixed 2 (slope_pct_per_hour v) +:+ "%/h — projected to hit "
                  +:+ fmt_fixed 0 FILL_TARGET_PCT +:+ "% in ~" +:+ humanise_hours h +:+ ". Based on "
                  +:+ pretty (Z.of_nat (samples_used v)) +:+ " samples spanning "
                  +:+ pretty (span_minutes v) +:+ " min."
              | None =>
                  "at " +:+ fmt_fixed 0 (used_pct f) +:+ "% — past " +:+ fmt_fixed 0 FILL_TARGET_PCT
                  +:+ "% but not growing further over the last " +:+ pretty (span_minutes v) +:+ " min (slope "
                  +:+ fmt_fixed 2 (slope_pct_per_hour v) +:+ "%/h)."
              end;
     d_evidence := [ev "Container" (name f) (Some (label (runtime f) +:+ " · " +:+ image f));
                    ev "Current usage" (fmt_fixed 1 (used_pct f) +:+ "%")
                       (Some (gb (used_bytes f) +:+ " GB used of " +:+ gb (total_bytes f) +:+ " GB"));
                    growth_evidence v];
     d_remediation := build_remediation f;
     d_scope := sc |}.

#[global] Instance analyzer : Analyzer (list ContainerDiskFact) := {|
  analyze := λ node now h fs acks s,
    omap (disk_draft used_pct (λ f, resource_id (runtime f) (name f)) (λ f, finding_type (runtime f)) METRIC
            build_proposal node now h acks s) fs;
  covered_scopes := λ node fs _,
    (λ f, (finding_type (runtime f), scope_of node (resource_id (runtime f) (name f)))) <$> fs;
  enumerates := λ _, []
|}.
Definition record (now : Z) (f : ContainerDiskFact) (h : MetricsHistory) : MetricsHistory :=
  record_at (resource_id (runtime f) (name f)) METRIC (used_pct f) now
    (maybe_reset_history now (runtime f) (name f) (cid f) h).
End ContainerDisk.
