(* ===== verification/ContainerRestart.v ===== *)
(** * Containers that restart in a loop: predictive/container_restart.rs *)
From stdpp Require Import pretty.
From S2P Require Import Prelude Net F64 Inbox InboxAnalyzers ContainerDisk.

Module ContainerRestart.
Definition FINDING_TYPE : string := "docker_restart_loop".
Definition METRIC : string := "restart_count".
Definition RAPID_WINDOW_MINUTES : Z := 10.
Definition SUSTAINED_WINDOW_MINUTES : Z := 30.
Definition RAPID_CRITICAL_DELTA : Z := 5.
Definition RAPID_HIGH_DELTA : Z := 3.
Definition SUSTAINED_DELTA : Z := 3.
Record RestartFact := { name : string; cid : string; image : string; state : string; restart_count : Z }.
Definition resource (f : RestartFact) : string := ContainerDisk.resource_id ContainerDisk.Docker (name f).

Definition delta_over_window (now : Z) (h : MetricsHistory) (resource metric : string) (window current : Z)
    : option Z :=
  l ← samples resource metric h;
  b ← List.find (λ s, now - window <=? ts s) l;
  Some (sat_sub current (f64_to_uint u64_max (sample b))).

Definition bump (s : Severity) : Severity :=
  match s with Info => Warn | Warn => High | High => Critical | Critical => Critical end.
Record Verdict := { severity : Severity; rapid_delta : Z; sustained_delta : Z; actively_restarting : bool }.
Definition compute_verdict (rapid sustained : option Z) (state : string) : option Verdict :=
  let rapid := default 0 rapid in
  let sustained := default 0 sustained in
  let active := eq_ignore_ascii_case state "restarting" in
  sev ← (if RAPID_CRITICAL_DELTA <=? rapid then Some Critical
         else if RAPID_HIGH_DELTA <=? rapid then Some High
         else if SUSTAINED_DELTA <=? sustained then Some Warn else None);
  Some {| severity := if active then bump sev else sev; rapid_delta := rapid; sustained_delta := sustained;
          actively_restarting := active |}.

Definition restarted (f : RestartFact) (n window : Z) : string :=
  "Container '" +:+ name f +:+ "' has restarted " +:+ pretty n +:+ " time" +:+ (if n =? 1 then "" else "s")
  +:+ " in the last " +:+ pretty window +:+ " min".
Definition build_proposal (f : RestartFact) (sc : ProposalScope) (v : Verdict) : Draft :=
  {| d_finding_type := FINDING_TYPE; d_severity := severity v;
     d_title := if actively_restarting v then "Container '" +:+ name f +:+ "' is restart-looping right now"
                else if RAPID_HIGH_DELTA <=? rapid_delta v then restarted f (rapid_delta v) RAPID_WINDOW_MINUTES
                else restarted f (sustained_delta v) SUSTAINED_WINDOW_MINUTES;
     d_why := "Docker container '" +:+ name f +:+ "' (image '" +:+ image f
              +:+ "') has incremented its RestartCount by " +:+ pretty (rapid_delta v) +:+ " in the last "
              +:+ pretty RAPID_WINDOW_MINUTES +:+ " minutes (and " +:+ pretty (sustained_delta v)
              +:+ " in the last " +:+ pretty SUSTAINED_WINDOW_MINUTES +:+ " minutes). Current state: " +:+ state f
              +:+ ". Sustained restart loops indicate a service that's failing to start cleanly — common causes: "
              +:+ "misconfigured environment, missing volume mount, an upstream dependency that isn't ready, or a "
              +:+ "crashing entrypoint.";
     d_evidence := [ev "Container" (name f) (Some ("docker · " +:+ image f));
                    ev ("Restarts (last " +:+ pretty RAPID_WINDOW_MINUTES +:+ "m)") (pretty (rapid_delta v)) None;
                    ev ("Restarts (last " +:+ pretty SUSTAINED_WINDOW_MINUTES +:+ "m)")
                       (pretty (sustained_delta v)) None;
                    ev "Current state" (state f)
                       (if actively_restarting v then Some "Severity bumped one tier — the loop hasn't paused."
                        else None)];
     d_remediation :=
       Manual ("Inspect why container '" +:+ name f +:+ "' is failing to start cleanly. The container's recent "
               +:+ "stdout/stderr almost always contains the cause. If the container has a `restart: always` "
               +:+ "policy, docker will keep retrying — disabling it temporarily makes debugging easier.")
              ["docker logs --tail 200 " +:+ name f +:+ " 2>&1 | tail -50";
               "docker inspect --format '{{.State.Error}} {{.State.ExitCode}}' " +:+ name f;
               "docker inspect --format '{{json .HostConfig.RestartPolicy}}' " +:+ name f
               +:+ " | python3 -m json.tool";
               "docker stop " +:+ name f +:+ "    # halt the loop while you investigate"];
     d_scope := sc |}.

Definition draft (node : string) (now : Z) (h : MetricsHistory) (acks : AckStore) (s : ProposalStore)
    (f : RestartFact) : option Draft :=
  let sc := scope_of node (resource f) in
  if silenced now (FINDING_TYPE, sc) acks s then None else
  let delta w := delta_over_window now h (resource f) METRIC (w * MINUTE) (restart_count f) in
  v ← compute_verdict (delta RAPID_WINDOW_MINUTES) (delta SUSTAINED_WINDOW_MINUTES) (state f);
  Some (build_proposal f sc v).

#[global] Instance analyzer : Analyzer (list RestartFact) := {|
  analyze := λ node now h fs acks s, omap (draft node now h acks s) fs;
  covered_scopes := λ node fs _, (λ f, (FINDING_TYPE, scope_of node (resource f))) <$> fs;
  enumerates := λ _, []
|}.
Definition record (now : Z) (f : RestartFact) (h : MetricsHistory) : MetricsHistory :=
  record_at (resource f) METRIC (f64_of_Z (restart_count f)) now
    (ContainerDisk.maybe_reset_history now ContainerDisk.Docker (name f) (cid f) h).
End ContainerRestart.
