(* ===== verification/IpConflict.v ===== *)
(** * WolfNet addresses with two holders: predictive/wolfnet_ip_conflict.rs *)
From stdpp Require Import pretty.
From S2P Require Import Prelude Net F64 Inbox InboxAnalyzers.

Module IpConflict.
Definition FINDING_TYPE : string := "wolfnet_ip_conflict".
(** A peer wolfnetd knows (containers/mod.rs). *)
Record WolfnetPeer := { address : string; hostname : string; connected : bool }.
Record Facts := {
  present : bool;
  self_label : string;
  self_host_ip : string;
  local_active : list string;
  remotes : list (string * string * list string);
  peers : list WolfnetPeer;
  anycast : list string
}.
Inductive ConflictKind := LiveOnNodes (nodes : list string) | ShadowedByPeer (peer : string) (connected : bool).
Record Conflict := { ip : string; kind : ConflictKind }.

(** A [BTreeSet]: its elements in order. *)
Definition btree_set (l : list string) : list string := sort_by String.leb (remove_dups l).

Definition claims (f : Facts) : list (string * string) :=
  let all := ((λ i, (i, self_label f, self_host_ip f)) <$> local_active f)
             ++ ('(l, host, ips) ← remotes f; (λ i, (i, l, host)) <$> ips) in
  omap (λ c, let '(i, l, host) := c in
             if bool_decide (i = "") || bool_decide (i = host) || bool_decide (i ∈ anycast f) then None
             else Some (i, l)) all.
Definition holders (f : Facts) (i : string) : list string :=
  btree_set (snd <$> retain (λ c, bool_decide (c.1 = i)) (claims f)).
Definition find_conflicts (f : Facts) : list Conflict :=
  omap (λ i, let ls := holders f i in
             if (2 <=? length ls)%nat then Some {| ip := i; kind := LiveOnNodes ls |} else None)
       (btree_set (fst <$> claims f))
  ++ omap (λ i, if bool_decide (i ∈ anycast f) then None else
                match List.find (λ p, bool_decide (address p = i)) (peers f) with
                | Some p => Some {| ip := i; kind := ShadowedByPeer (if bool_decide (hostname p = "") then i
                                                                     else hostname p) (connected p) |}
                | None => None
                end) (local_active f).

Definition KIND_NODES : string := "nodes".
Definition KIND_PEER : string := "peer".
Definition kind_key (k : ConflictKind) : string :=
  match k with LiveOnNodes _ => KIND_NODES | ShadowedByPeer _ _ => KIND_PEER end.
Definition scope_for (node ip kind : string) : ProposalScope :=
  scope_of node ("wolfnet-ip:" +:+ ip +:+ ":" +:+ kind).

Definition docker_ps (ip : string) : string := "docker ps -a --filter label=wolfnet.ip=" +:+ ip.
Definition pick_free : string := "Containers → the container → WolfNet IP → pick a free address".

Definition draft (node : string) (c : Conflict) : Draft :=
  let i := ip c in
  let mk sev t w es cmds :=
    {| d_finding_type := FINDING_TYPE; d_severity := sev; d_title := t; d_why := w; d_evidence := es;
       d_remediation := Manual ("Move one holder to a different WolfNet IP. Nothing else repairs this: one "
                                +:+ "address cannot serve two owners.") cmds;
       d_scope := scope_for node i (kind_key (kind c)) |} in
  match kind c with
  | LiveOnNodes nodes =>
      mk High ("WolfNet IP " +:+ i +:+ " is live on " +:+ join " and " nodes +:+ " at the same time")
         ("A running workload on each of " +:+ join ", " nodes +:+ " holds " +:+ i
          +:+ ". The cluster route map keeps one owner per address and every node re-picks it on every status "
          +:+ "poll, in hash order, so traffic to " +:+ i +:+ " lands on a different holder from one ten-second "
          +:+ "window to the next and from one node to the next. Whichever container it reaches answers ping; "
          +:+ "only one of them runs the service, so curl fails 'randomly' while the published host:port keeps "
          +:+ "working. Give one of the workloads a new WolfNet IP — that is the only fix, and it is why changing "
          +:+ "the IP has always cleared this.")
         ((λ n, ev "Holder" n None) <$> nodes)
         ["# on each holder, find the workload:" +:+ NL +:+ docker_ps i;
          "grep -l '^" +:+ i +:+ "$' /var/lib/lxc/*/.wolfnet/ip 2>/dev/null"; "# then " +:+ pick_free]
  | ShadowedByPeer peer true =>
      mk High ("WolfNet IP " +:+ i +:+ " belongs to peer " +:+ peer +:+ "; a workload here uses it too")
         ("wolfnetd delivers to a directly known peer before it looks at the container route map, so every "
          +:+ "packet for " +:+ i +:+ " from any node goes to " +:+ peer +:+ ", which answers ping and refuses "
          +:+ "the service port. The workload on this node holding " +:+ i +:+ " never receives anything. Change "
          +:+ "the workload's WolfNet IP; allocation now skips peer addresses so this cannot be handed out again.")
         [ev "Peer" peer (Some "tunnel up — from /var/run/wolfnet/status.json")] [docker_ps i; "# " +:+ pick_free]
  | ShadowedByPeer peer false =>
      mk Warn ("WolfNet IP " +:+ i +:+ " is peer " +:+ peer +:+ "'s address, and a workload here holds it")
         (peer +:+ " has no live tunnel right now, so traffic for " +:+ i +:+ " still falls through to the "
          +:+ "container route map and the workload answers. The moment that peer reconnects, wolfnetd delivers "
          +:+ "to it instead — it looks up a directly known peer before the route map — and the workload goes "
          +:+ "dark everywhere while still answering ping. Move the workload to a free WolfNet IP before that "
          +:+ "happens; allocation now skips peer addresses so this cannot be handed out again.")
         [ev "Peer" peer (Some "tunnel down — from /var/run/wolfnet/status.json")] [docker_ps i; "# " +:+ pick_free]
  end.

#[global] Instance analyzer : Analyzer Facts := {|
  analyze := λ node now _ f acks s,
    if negb (present f) then [] else
    draft node <$> retain (λ c, negb (silenced now (FINDING_TYPE, scope_for node (ip c) (kind_key (kind c))) acks s))
                     (find_conflicts f);
  covered_scopes := λ node f s,
    if negb (present f) then [] else
    (i ← local_active f; [(FINDING_TYPE, scope_for node i KIND_NODES); (FINDING_TYPE, scope_for node i KIND_PEER)])
    ++ ('(_, _, ips) ← remotes f; (λ i, (FINDING_TYPE, scope_for node i KIND_NODES)) <$> ips)
    ++ (dedup_key <$> retain (λ p, bool_decide (finding_type p = FINDING_TYPE)
                                   && bool_decide (node_id (scope p) = node)) s);
  enumerates := λ _, []
|}.
End IpConflict.
