(* ===== verification/InboxNode.v ===== *)
(** * The predictive inbox of a node

    The tick of predictive/orchestrator.rs and the handlers of api/mod.rs that
    act on findings and acknowledgements.  A tick locks one store at a time
    and analyzes copies without any lock, so it is a sequence of stages
    between which requests and other ticks run; a node is its three stores,
    their files, the ticks under way and the pages sent. *)
From S2P Require Import Prelude Net F64 Inbox InboxAnalyzers DiskFill ContainerDisk ContainerRestart.

(** An analyzer with what its sampler read. *)
Inductive Probe :=
| probe {F : Type} {A : Analyzer F} (facts : F).

Record Facts := {
  disks : list DiskFill.DiskFact;
  containers : list ContainerDisk.ContainerDiskFact;
  restarts : list ContainerRestart.RestartFact;
  (** the other analyzers, and whether any of their samplers that count read
      something *)
  others : list Probe;
  others_usable : bool
}.
Definition probes (f : Facts) : list Probe :=
  probe (disks f) :: probe (containers f) :: probe (restarts f) :: others f.
Definition no_data (f : Facts) : bool :=
  bool_decide (length (disks f) = O) && bool_decide (length (containers f) = O)
  && bool_decide (length (restarts f) = O) && negb (others_usable f).

(** What an operation finds: the clock, this node's identifier, what becomes
    of a file it writes, the identifiers it draws, whether pages are delivered. *)
Record Env := {
  now : Z;
  self : string;
  writes : Write;
  draw : nat → string;
  delivery : bool
}.

(** A tick between two of its locks. *)
Inductive Tick :=
| Sampled (f : Facts)
| Recorded (f : Facts)
| Pruned (f : Facts)
| Swept (f : Facts)
| SawHistory (f : Facts) (h : MetricsHistory)
| SawAcks (f : Facts) (h : MetricsHistory) (a : AckStore)
| SawProposals (f : Facts) (h : MetricsHistory) (a : AckStore) (s : ProposalStore)
| Analyzed (snap : ProposalStore) (new : list Proposal) (covered emitted vanished : list Key)
| Finished.

Record Node := {
  proposals : ProposalStore;
  acks : AckStore;
  metrics : MetricsHistory;
  proposals_file : ProposalStore;
  acks_file : AckStore;
  metrics_file : MetricsHistory;
  ticks : list Tick;
  (** one-click actions under way *)
  applying : list string;
  (** the findings handed to the dispatcher and the messages sent, latest
      first: a history the code does not keep *)
  alerted : list Proposal;
  paged : list (AlertCategory * (string * string))
}.
#[export] Instance eta_Node : Eta Node := λ n,
  {| proposals := proposals n; acks := acks n; metrics := metrics n; proposals_file := proposals_file n;
     acks_file := acks_file n; metrics_file := metrics_file n; ticks := ticks n; applying := applying n;
     alerted := alerted n; paged := paged n |}.
Implicit Types (e : Env) (n : Node).

Fixpoint remove_first (i : string) (l : list string) : list string :=
  match l with [] => [] | x :: l => if bool_decide (x = i) then l else x :: remove_first i l end.

Section Inbox.
Context (fmt_time : Z → string).

(** ** Files

    Each is known by what it loads as; one that was cut short loads as empty. *)
Definition rewritten {A} e (none a file : A) : A := default none (overwrite (writes e) a (Some file)).
Definition save_proposals e n : Node := n <| proposals_file := rewritten e [] (proposals n) (proposals_file n) |>.
Definition save_acks e n : Node := n <| acks_file := rewritten e [] (acks n) (acks_file n) |>.
Definition save_metrics e n : Node := n <| metrics_file := rewritten e ∅ (metrics n) (metrics_file n) |>.

(** ** The tick *)
Definition live_resources (f : Facts) : list string :=
  (DiskFill.mount <$> disks f)
  ++ ((λ c, ContainerDisk.resource_id (ContainerDisk.runtime c) (ContainerDisk.name c)) <$> containers f)
  ++ (ContainerRestart.resource <$> restarts f).

Definition record_metrics (now : Z) (f : Facts) (h : MetricsHistory) : MetricsHistory :=
  let h := foldl (λ h x, DiskFill.record now x h) h (disks f) in
  let h := foldl (λ h x, ContainerDisk.record now x h) h (containers f) in
  let h := foldl (λ h x, ContainerRestart.record now x h) h (restarts f) in
  retain_resources (λ r, bool_decide (r ∈ live_resources f)) h.

Definition RESOLVED_RETENTION_DAYS : Z := 90.
Definition sweep e n : Node :=
  let '(s, pruned) := prune_resolved_older_than (now e) RESOLVED_RETENTION_DAYS (proposals n) in
  let '(s, orphaned) := resolve_orphaned fmt_time (now e) (self e) ORPHAN_FUSE_DAYS s in
  let n := n <| proposals := s |> in
  if (0 <? pruned)%nat || (0 <? orphaned)%nat then save_proposals e n else n.

Definition drafts e (f : Facts) (h : MetricsHistory) (a : AckStore) (s : ProposalStore) : list Draft :=
  '(probe facts) ← probes f; analyze (self e) (now e) h facts a s.
Definition covered_by e (f : Facts) (s : ProposalStore) : list Key :=
  '(probe facts) ← probes f; covered_scopes (self e) facts s.
Definition vanished_by e (f : Facts) (covered emitted : list Key) (s : ProposalStore) : list Key :=
  retain (λ k, negb (bool_decide (k ∈ emitted)))
    ('(probe facts) ← probes f; '(types, listed) ← enumerates facts;
     vanished_scopes types listed covered s (self e)).

Definition analysis e (f : Facts) (h : MetricsHistory) (a : AckStore) (s : ProposalStore) : Tick :=
  let new := (λ d, new_rule (draw e d.1) (now e) d.2) <$> enumerate (drafts e f h a s) in
  let covered := covered_by e f s in
  let emitted := dedup_key <$> new in
  Analyzed s new covered emitted (vanished_by e f covered emitted s).

Definition commit e (snap new : list Proposal) (covered emitted vanished : list Key) n : Node :=
  let s := foldl (λ s p, upsert (now e) p s) (proposals n) new in
  let s := touch_checked (now e) covered s in
  let '(s, cleared) := auto_resolve_cleared (now e) covered emitted s in
  let '(s, retired) := resolve_vanished (now e) vanished s in
  let n := n <| proposals := s |> in
  let n := if (0 <? length new)%nat || (0 <? cleared + retired)%nat then save_proposals e n else n in
  let alerts := find_first_appearance_alerts snap s in
  n <| alerted := alerts ++ alerted n |> <| paged := dispatch_alerts (delivery e) alerts ++ paged n |>.

Definition step_tick e (t : Tick) n : Tick * Node :=
  match t with
  | Sampled f =>
      if no_data f then (Finished, n) else
      (Recorded f, save_metrics e (n <| metrics := record_metrics (now e) f (metrics n) |>))
  | Recorded f =>
      let '(a, pruned) := prune_expired (now e) (acks n) in
      let n := n <| acks := a |> in
      (Pruned f, if (0 <? pruned)%nat then save_acks e n else n)
  | Pruned f => (Swept f, sweep e n)
  | Swept f => (SawHistory f (metrics n), n)
  | SawHistory f h => (SawAcks f h (acks n), n)
  | SawAcks f h a => (SawProposals f h a (proposals n), n)
  | SawProposals f h a s => (analysis e f h a s, n)
  | Analyzed snap new covered emitted vanished => (Finished, commit e snap new covered emitted vanished n)
  | Finished => (Finished, n)
  end.

(** The loop and the run-now button. *)
Definition begin_tick (f : Facts) n : Node := n <| ticks := ticks n ++ [Sampled f] |>.
Definition run_tick e (j : nat) n : Node :=
  match ticks n !! j with
  | Some t => let '(t, n) := step_tick e t n in n <| ticks := <[j := t]> (ticks n) |>
  | None => n
  end.

(** ** Requests *)
Inductive Reply := ROk | RBadRequest | RForbidden | RNotFound | RConflict | RForwarded | RList (l : list Proposal).

Definition is_inter_node_forward (caller : string) : bool := bool_decide (caller = "cluster-node").
(** An unknown finding is looked for on the peers, unless a peer asks. *)
Definition elsewhere (caller : string) : Reply := if is_inter_node_forward caller then RNotFound else RForwarded.

Definition with_proposals e (r : option ProposalStore) (caller : string) n : Reply * Node :=
  match r with
  | Some s => (ROk, save_proposals e (n <| proposals := s |>))
  | None => (elsewhere caller, n)
  end.

Definition proposals_list e n : Reply * Node :=
  (RList (retain (λ p, negb (suppresses (now e) (dedup_key p) (acks n))) (inbox (now e) (proposals n))), n).
Definition proposal_snooze e (caller i : string) (hours : Z) n : Reply * Node :=
  let hours := Z.max 1 (Z.min (24 * 30) hours) in
  with_proposals e (snooze (now e) i (now e + hours * HOUR) (proposals n)) caller n.
Definition proposal_dismiss e (caller i reason : string) n : Reply * Node :=
  let reason := trim reason in
  if bool_decide (reason = "") then (RBadRequest, n) else
  with_proposals e (dismiss (now e) i reason (proposals n)) caller n.
Definition proposal_restore e (caller i : string) n : Reply * Node :=
  match get i (proposals n) with
  | None => (elsewhere caller, n)
  | Some _ => match restore (now e) i (proposals n) with
              | Ok s => (ROk, save_proposals e (n <| proposals := s |>))
              | _ => (RConflict, n)
              end
  end.
Definition proposal_approve e (caller i : string) n : Reply * Node :=
  with_proposals e (record_approval (now e) i Applied (proposals n)) caller n.

(** [predictive_proposal_apply] before and after the work on the host, which
    holds no lock; [done_]: the portmapper is closed. *)
Definition apply_begin e (caller i : string) n : Reply * Node :=
  match get i (proposals n) with
  | None => (elsewhere caller, n)
  | Some p => if is_rpcbind_exposure p then (ROk, n <| applying := i :: applying n |>) else (RBadRequest, n)
  end.
Definition apply_end e (i : string) (done_ : bool) n : Reply * Node :=
  if negb (bool_decide (i ∈ applying n)) then (RBadRequest, n) else
  let n := n <| applying := remove_first i (applying n) |> in
  if negb done_ then (RConflict, n) else
  (ROk, save_proposals e (n <| proposals := default (proposals n) (record_approval (now e) i Applied (proposals n)) |>)).

Definition acks_create e (caller finding_type : string) (sc : AckScope) (reason : string)
    (lifetime_days : option Z) n : Reply * Node :=
  if bool_decide (trim reason = "") then (RBadRequest, n) else
  let lifetime := (λ d, Z.max 1 (Z.min 3650 d) * DAY) <$> lifetime_days in
  let a := new_ack (draw e 0) (now e) finding_type sc reason caller lifetime in
  (ROk, save_acks e (n <| acks := acks n ++ [a] |>)).
Definition acks_replica e (caller : string) (a : Ack) n : Reply * Node :=
  if negb (is_inter_node_forward caller) then (RForbidden, n) else
  if bool_decide (trim (ack_reason a) = "") || bool_decide (trim (ack_id a) = "") then (RBadRequest, n) else
  (ROk, save_acks e (n <| acks := upsert_replica a (acks n) |>)).
Definition acks_remove e (caller i : string) n : Reply * Node :=
  let '(removed, a) := ack_remove i (acks n) in
  let n := n <| acks := a |> in
  if removed then (ROk, save_acks e n) else (elsewhere caller, n).

(** main.rs: the stores are read back, expired acknowledgements dropped. *)
Definition restart e n : Node :=
  n <| proposals := proposals_file n |> <| acks := (prune_expired (now e) (acks_file n)).1 |>
    <| metrics := metrics_file n |> <| ticks := [] |> <| applying := [] |>.

(** ** Steps *)
Inductive Step :=
| BeginTick (f : Facts)
| RunTick (j : nat)
| ListInbox
| Snooze (caller i : string) (hours : Z)
| Dismiss (caller i reason : string)
| RestoreIt (caller i : string)
| Approve (caller i : string)
| ApplyBegin (caller i : string)
| ApplyEnd (i : string) (done_ : bool)
| CreateAck (caller finding_type : string) (sc : AckScope) (reason : string) (lifetime_days : option Z)
| ReplicaAck (caller : string) (a : Ack)
| RemoveAck (caller i : string)
| Restart.

Definition step (es : Env * Step) n : Reply * Node :=
  let '(e, s) := es in
  match s with
  | BeginTick f => (ROk, begin_tick f n)
  | RunTick j => (ROk, run_tick e j n)
  | ListInbox => proposals_list e n
  | Snooze c i h => proposal_snooze e c i h n
  | Dismiss c i r => proposal_dismiss e c i r n
  | RestoreIt c i => proposal_restore e c i n
  | Approve c i => proposal_approve e c i n
  | ApplyBegin c i => apply_begin e c i n
  | ApplyEnd i d => apply_end e i d n
  | CreateAck c ft sc r l => acks_create e c ft sc r l n
  | ReplicaAck c a => acks_replica e c a n
  | RemoveAck c i => acks_remove e c i n
  | Restart => (ROk, restart e n)
  end.
Definition run (es : list (Env * Step)) n : Node := foldl (λ n es, (step es n).2) n es.
End Inbox.
