(* ===== verification/InboxInv.v ===== *)
(** * The findings under any sequence of steps

    What a step does to the store and to its file, the invariant that no two
    findings have the same type and scope, and how one finding fares in each
    operation. *)
From S2P Require Import Prelude Net Inbox InboxAnalyzers DiskFill ContainerDisk ContainerRestart IpConflict InboxNode.

Definition keys (s : ProposalStore) : list Key := dedup_key <$> s.
Definition unique (s : ProposalStore) : Prop := NoDup (keys s).

(** ** Operations on the store *)
Section Store.
Implicit Types (s : ProposalStore) (p q : Proposal) (k : Key).

Lemma has_key_true k p : has_key k p = true ↔ dedup_key p = k.
Proof. unfold has_key. by rewrite bool_decide_eq_true. Qed.
Lemma has_id_true i p : has_id i p = true ↔ id p = i.
Proof. unfold has_id. by rewrite bool_decide_eq_true. Qed.
Lemma listed_true ks p : listed ks p = true ↔ dedup_key p ∈ ks.
Proof. unfold listed. by rewrite bool_decide_eq_true. Qed.
Lemma is_pending_true p : is_pending p = true ↔ status p = Pending.
Proof. unfold is_pending. by destruct (status p). Qed.

Lemma unique_same s p q : unique s → p ∈ s → q ∈ s → dedup_key p = dedup_key q → p = q.
Proof.
  unfold unique, keys. induction s as [|x s IH]; [by intros _ ?%not_elem_of_nil|].
  cbn. intros [Hx Hs]%NoDup_cons. rewrite !elem_of_cons. intros [-> | Hp] [-> | Hq] Hk; auto.
  - destruct Hx. apply list_elem_of_fmap. eauto.
  - destruct Hx. apply list_elem_of_fmap. eauto.
Qed.

Lemma keys_fmap f s : (∀ p, dedup_key (f p) = dedup_key p) → keys (f <$> s) = keys s.
Proof. intros H. unfold keys. rewrite <-list_fmap_compose. apply list_fmap_ext. intros ? x ?. apply H. Qed.
Lemma keys_retain r s : keys (retain r s) `sublist_of` keys s.
Proof. apply fmap_sublist, retain_sublist. Qed.
Lemma keys_update_first r f s : (∀ p, dedup_key (f p) = dedup_key p) → keys (update_first r f s) = keys s.
Proof. intros H. by apply update_first_map. Qed.

Lemma unique_upsert t p s : unique s → unique (upsert t p s).
Proof.
  intros Hs. unfold upsert. destruct (List.find _ s) as [x|] eqn:Hf.
  - destruct (shielded t x); [done|]. unfold unique. by rewrite keys_update_first.
  - unfold unique, keys. rewrite fmap_app. apply NoDup_app. split_and!; [done| |apply NoDup_singleton].
    intros k Hk ->%list_elem_of_singleton. apply list_elem_of_fmap in Hk as (x & Hk & Hx).
    rewrite find_None_Forall, Forall_forall in Hf. specialize (Hf x Hx).
    by apply not_true_iff_false in Hf; rewrite has_key_true in Hf.
Qed.

(** What becomes of [p] in an upsert. *)
Definition upserted t (inc p : Proposal) : Proposal :=
  if bool_decide (dedup_key inc = dedup_key p) && negb (shielded t p) then refresh t inc p else p.

Lemma elem_update_first (r : Proposal → bool) f s p :
  p ∈ s → (∀ q, q ∈ s → r q = true → q = p) → (if r p then f p else p) ∈ update_first r f s.
Proof.
  induction s as [|x s IH]; [by intros ?%not_elem_of_nil|]. intros Hp Hu. cbn.
  destruct (r x) eqn:Hx.
  - assert (x = p) as -> by (apply Hu; [left|done]). rewrite Hx. left.
  - apply elem_of_cons in Hp as [->|Hp]; [rewrite Hx; left|]. right. apply IH; [done|].
    intros q Hq. apply Hu. by right.
Qed.
Lemma elem_update_first_other (r : Proposal → bool) f s p : p ∈ s → r p = false → p ∈ update_first r f s.
Proof.
  induction s as [|x s IH]; [by intros ?%not_elem_of_nil|]. intros [->|Hp]%elem_of_cons Hr; cbn.
  - rewrite Hr. left.
  - destruct (r x); right; auto.
Qed.

Lemma upsert_elem t inc s p : unique s → p ∈ s → upserted t inc p ∈ upsert t inc s.
Proof.
  intros Hs Hp. unfold upserted, upsert. destruct (List.find _ s) as [x|] eqn:Hf.
  - apply find_Some_elem in Hf as (Hx & Hk%has_key_true). case_bool_decide as He; cbn [andb].
    + assert (x = p) as -> by (apply (unique_same s); [done..|congruence]).
      destruct (shielded t p); cbn [negb]; [done|].
      pose proof (elem_update_first (has_key (dedup_key inc)) (refresh t inc) s p Hp) as H.
      rewrite (proj2 (has_key_true _ _)) in H by congruence. apply H.
      intros q Hq Hqk%has_key_true. apply (unique_same s); [done..|congruence].
    + destruct (shielded t x); [done|]. apply elem_update_first_other; [done|].
      apply not_true_iff_false. rewrite has_key_true. congruence.
  - rewrite find_None_Forall, Forall_forall in Hf. rewrite bool_decide_false; [apply elem_of_app; by left|].
    intros He. specialize (Hf p Hp). apply not_true_iff_false in Hf. rewrite has_key_true in Hf. congruence.
Qed.

Lemma act_elem i f s s' p : act i f s = Some s' → p ∈ s → id p ≠ i → p ∈ s'.
Proof.
  unfold act. destruct (get i s); [|done]. intros [= <-] Hp Hi. apply elem_update_first_other; [done|].
  apply not_true_iff_false. by rewrite has_id_true.
Qed.
Lemma act_keys i f s s' : (∀ p, dedup_key (f p) = dedup_key p) → act i f s = Some s' → keys s' = keys s.
Proof. unfold act. intros Hf. destruct (get i s); [|done]. intros [= <-]. by apply keys_update_first. Qed.

Implicit Types (r : Proposal → bool) (f : Proposal → Proposal).
Lemma resolve_where_keys r f s : (∀ p, dedup_key (f p) = dedup_key p) → keys (resolve_where r f s).1 = keys s.
Proof. intros H. apply keys_fmap. intros p. by destruct (r p). Qed.
Lemma resolve_where_elem r f s p : p ∈ s → (if r p then f p else p) ∈ (resolve_where r f s).1.
Proof. intros Hp. by apply (list_elem_of_fmap_2 (λ x : Proposal, if r x then f x else x)). Qed.
Lemma resolve_where_none r f s : (resolve_where r f s).2 = O → (resolve_where r f s).1 = s.
Proof.
  unfold resolve_where. cbn. intros H%length_zero_iff_nil. rewrite <-(list_fmap_id s) at 2.
  apply list_fmap_ext. intros j x Hx. destruct (r x) eqn:Hr; [|done].
  assert (x ∈ retain r s) as Hin by (apply elem_of_retain; split; [by eapply list_elem_of_lookup_2|done]).
  rewrite H in Hin. by apply not_elem_of_nil in Hin.
Qed.
Lemma touch_keys t cov s : keys (touch_checked t cov s) = keys s.
Proof. apply keys_fmap. intros p. by destruct (_ && _). Qed.
End Store.

(** ** Steps as changes of the store *)
Section Steps.
Context (fmt_time : Z → string).
Implicit Types (e : Env) (n : InboxNode.Node) (s : ProposalStore).
Abbreviation step := (step fmt_time).
Abbreviation run := (run fmt_time).
Abbreviation sweep := (sweep fmt_time).

Definition sweep_store e s : ProposalStore :=
  (resolve_orphaned fmt_time (now e) (self e) ORPHAN_FUSE_DAYS
     (prune_resolved_older_than (now e) RESOLVED_RETENTION_DAYS s).1).1.
Definition upsert_all e (new : list Proposal) s : ProposalStore := foldl (λ s p, upsert (now e) p s) s new.
Definition commit_store e new covered emitted vanished s : ProposalStore :=
  (resolve_vanished (now e) vanished
     (auto_resolve_cleared (now e) covered emitted (touch_checked (now e) covered (upsert_all e new s))).1).1.

Definition tick_change e (t : Tick) s : ProposalStore :=
  match t with
  | Pruned _ => sweep_store e s
  | Analyzed _ new covered emitted vanished => commit_store e new covered emitted vanished s
  | _ => s
  end.
Definition change e (st : Step) n s : ProposalStore :=
  match st with
  | RunTick j => match ticks n !! j with Some t => tick_change e t s | None => s end
  | Snooze _ i h => default s (snooze (now e) i (now e + Z.max 1 (Z.min (24 * 30) h) * HOUR) s)
  | Dismiss _ i r => if bool_decide (trim r = "") then s else default s (dismiss (now e) i (trim r) s)
  | RestoreIt _ i => match restore (now e) i s with Ok s => s | _ => s end
  | Approve _ i => default s (record_approval (now e) i Applied s)
  | ApplyEnd i d => if bool_decide (i ∈ applying n) && d
                    then default s (record_approval (now e) i Applied s) else s
  | _ => s
  end.

Lemma step_tick_store e t n : proposals (step_tick fmt_time e t n).2 = tick_change e t (proposals n).
Proof.
  destruct t; try done; cbn [step_tick tick_change snd].
  - destruct (no_data f); [done|]. unfold save_metrics. by destruct (writes e).
  - destruct (prune_expired _ _) as [a k]. destruct (0 <? k)%nat; [|done]. unfold save_acks. by destruct (writes e).
  - unfold InboxNode.sweep, sweep_store. destruct (prune_resolved_older_than _ _ _) as [s k]. cbn [fst].
    destruct (resolve_orphaned _ _ _ _ s) as [s' k']. unfold save_proposals.
    destruct (_ || _); [|done]. by destruct (writes e).
  - unfold commit, commit_store, upsert_all. destruct (auto_resolve_cleared _ _ _ _) as [s c]. cbn [fst].
    destruct (resolve_vanished _ _ s) as [s' c']. unfold save_proposals.
    destruct (_ || _); [|done]. by destruct (writes e).
Qed.

Lemma step_store e st n :
  proposals (step (e, st) n).2 = match st with Restart => proposals_file n | _ => change e st n (proposals n) end.
Proof.
  destruct st; cbn [InboxNode.step change snd]; try done.
  - unfold run_tick. destruct (ticks n !! j) as [t|]; [|done].
    pose proof (step_tick_store e t n) as H. by destruct (step_tick fmt_time e t n) as [t' n'].
  - unfold proposal_snooze, with_proposals. destruct (snooze _ _ _ _); [|done].
    unfold save_proposals. by destruct (writes e).
  - unfold proposal_dismiss, with_proposals. destruct (bool_decide (trim reason = "")); [done|].
    destruct (dismiss _ _ _ _); [|done]. unfold save_proposals. by destruct (writes e).
  - unfold proposal_restore, restore. destruct (get i (proposals n)) as [p|]; [|done].
    destruct (restorable p); [|done]. unfold save_proposals. by destruct (writes e).
  - unfold proposal_approve, with_proposals. destruct (record_approval _ _ _ _); [|done].
    unfold save_proposals. by destruct (writes e).
  - unfold apply_begin. destruct (get i (proposals n)) as [p|]; [|done]. by destruct (is_rpcbind_exposure p).
  - unfold apply_end. destruct (bool_decide (i ∈ applying n)); [|done]. cbn [negb andb].
    destruct done_; [|done]. unfold save_proposals. by destruct (writes e).
  - unfold acks_create, save_acks. destruct (bool_decide _); [done|]. by destruct (writes e).
  - unfold acks_replica, save_acks. destruct (negb _); [done|]. destruct (_ || _); [done|]. by destruct (writes e).
  - unfold acks_remove, save_acks. destruct (ack_remove i (acks n)) as [[] a]; [|done]. by destruct (writes e).
Qed.

(** A stage leaves the list of ticks alone. *)
Lemma step_tick_ticks e t n : ticks (step_tick fmt_time e t n).2 = ticks n.
Proof.
  destruct t; try done; cbn [step_tick snd].
  - destruct (no_data f); [done|]. unfold save_metrics. by destruct (writes e).
  - destruct (prune_expired _ _). unfold save_acks. destruct (_ <? _)%nat; [|done]. by destruct (writes e).
  - unfold InboxNode.sweep, save_proposals. destruct (prune_resolved_older_than _ _ _) as [s k].
    destruct (resolve_orphaned _ _ _ _ s) as [s' k']. destruct (_ || _); [|done]. by destruct (writes e).
  - unfold commit, save_proposals. destruct (auto_resolve_cleared _ _ _ _) as [s c].
    destruct (resolve_vanished _ _ s) as [s' c']. destruct (_ || _); [|done]. by destruct (writes e).
Qed.

(** The file is left alone, becomes the store, or is lost in a write. *)
Definition saved_or_not e n n' : Prop :=
  proposals_file n' = proposals_file n ∨ proposals_file n' = proposals n' ∨
  writes e = CutShort ∧ proposals_file n' = [].
Lemma save_proposals_saved e n n0 :
  proposals_file n = proposals_file n0 → saved_or_not e n0 (save_proposals e n).
Proof.
  intros H. unfold saved_or_not, save_proposals, rewritten. cbn [proposals_file proposals setter].
  destruct (writes e); cbn; auto.
Qed.

Lemma step_tick_saved e t n : saved_or_not e n (step_tick fmt_time e t n).2.
Proof.
  destruct t; try (by left); cbn [step_tick snd].
  - destruct (no_data f); [by left|]. left. unfold save_metrics. by destruct (writes e).
  - destruct (prune_expired _ _) as [a k]. left. destruct (0 <? k)%nat; [|done]. unfold save_acks. by destruct (writes e).
  - unfold InboxNode.sweep. destruct (prune_resolved_older_than _ _ _) as [s k].
    destruct (resolve_orphaned _ _ _ _ s) as [s' k']. destruct (_ || _); [by apply save_proposals_saved|by left].
  - unfold commit. destruct (auto_resolve_cleared _ _ _ _) as [s c]. destruct (resolve_vanished _ _ s) as [s' c'].
    destruct (_ || _); [|by left]. cbv zeta. set (n1 := n <| proposals := s' |>).
    exact (save_proposals_saved e n1 n eq_refl).
Qed.

Lemma step_saved e st n : saved_or_not e n (step (e, st) n).2.
Proof.
  destruct st; cbn [InboxNode.step snd]; try (by left).
  - unfold run_tick. destruct (ticks n !! j) as [t|]; [|by left].
    pose proof (step_tick_saved e t n) as H. destruct (step_tick fmt_time e t n) as [t' n']. exact H.
  - unfold proposal_snooze, with_proposals. destruct (snooze _ _ _ _); [by apply save_proposals_saved|by left].
  - unfold proposal_dismiss, with_proposals. destruct (bool_decide (trim reason = "")); [by left|].
    destruct (dismiss _ _ _ _); [by apply save_proposals_saved|by left].
  - unfold proposal_restore. destruct (get i (proposals n)) as [p|]; [|by left].
    destruct (restore _ _ _); [by apply save_proposals_saved|by left..].
  - unfold proposal_approve, with_proposals. destruct (record_approval _ _ _ _); [by apply save_proposals_saved|by left].
  - unfold apply_begin. destruct (get i (proposals n)) as [p|]; [|by left]. destruct (is_rpcbind_exposure p); by left.
  - unfold apply_end. destruct (negb _); [by left|]. destruct (negb done_); [by left|]. by apply save_proposals_saved.
  - unfold acks_create, save_acks. destruct (bool_decide _); [by left|]. left. by destruct (writes e).
  - unfold acks_replica, save_acks. destruct (negb _); [by left|]. destruct (_ || _); [by left|]. left. by destruct (writes e).
  - unfold acks_remove, save_acks. destruct (ack_remove i (acks n)) as [[] a]; [|by left]. left. by destruct (writes e).
Qed.

(** ** Runs *)
Definition along (ok : InboxNode.Node → Env * Step → Prop) (es : list (Env * Step)) n : Prop :=
  ∀ es1 x es2, es = es1 ++ x :: es2 → ok (run es1 n) x.
Lemma along_cons ok x es n : along ok (x :: es) n ↔ ok n x ∧ along ok es (step x n).2.
Proof.
  split.
  - intros H. split; [by apply (H [] x es)|]. intros es1 y es2 ->. by apply (H (x :: es1) y es2).
  - intros [Hx H] [|z es1] y es2; [by intros [= <- ?]|]. intros [= -> ->]. by apply (H es1 y es2).
Qed.
Lemma along_impl (ok ok' : InboxNode.Node → Env * Step → Prop) es n :
  (∀ m x, ok m x → ok' m x) → along ok es n → along ok' es n.
Proof. intros Hi H es1 x es2 ->. apply Hi. by apply (H es1 x es2). Qed.
Lemma along_Forall (ok : Env * Step → Prop) es n : Forall ok es → along (λ _, ok) es n.
Proof.
  intros H es1 x es2 ->. apply Forall_app in H as [_ H]. by apply Forall_cons in H as [? _].
Qed.
Lemma inbox_run_app es1 es2 n : run (es1 ++ es2) n = run es2 (run es1 n).
Proof. apply foldl_app. Qed.

(** What every step keeps true of the store holds of the store and, unless a
    write is cut short, of its file. *)
Lemma run_store (ok : InboxNode.Node → Env * Step → Prop) (H : ProposalStore → Prop) es n :
  (∀ m e st s, ok m (e, st) → H s → H (change e st m s)) →
  along ok es n → H [] ∨ Forall (λ x, writes x.1 ≠ CutShort) es →
  H (proposals n) → H (proposals_file n) →
  H (proposals (run es n)) ∧ H (proposals_file (run es n)).
Proof.
  intros Hstep. revert n. induction es as [|[e st] es IH]; intros n; [by split|].
  intros [Hok Hes]%along_cons Hw Hs Hf.
  change (run ((e, st) :: es) n) with (run es (step (e, st) n).2). apply IH; [done|by destruct Hw as [?|[_ ?]%Forall_cons]; [left|right]| |].
  - rewrite step_store. destruct st; try (by apply Hstep). done.
  - destruct (step_saved e st n) as [-> | [-> |[Hc ->]]]; [done| |by destruct Hw as [?|[? _]%Forall_cons]].
    rewrite step_store. destruct st; try (by apply Hstep). done.
Qed.

(** ** No two findings have the same key *)
Lemma upsert_all_unique e new s : unique s → unique (upsert_all e new s).
Proof. unfold upsert_all. revert s. induction new as [|p new IH]; intros s Hs; [done|]. by apply IH, unique_upsert. Qed.

Lemma commit_keys e new cov em van s : keys (commit_store e new cov em van s) = keys (upsert_all e new s).
Proof.
  unfold commit_store, resolve_vanished, auto_resolve_cleared. by rewrite !resolve_where_keys, touch_keys.
Qed.

Lemma sweep_unique e s : unique s → unique (sweep_store e s).
Proof.
  intros Hs. unfold sweep_store, resolve_orphaned, unique. rewrite resolve_where_keys by done.
  by eapply sublist_NoDup; [|apply (keys_retain _ s)].
Qed.

Lemma default_act_unique i (f : Proposal → Proposal) s :
  (∀ p, dedup_key (f p) = dedup_key p) → unique s → unique (default s (act i f s)).
Proof.
  intros Hf Hs. destruct (act i f s) as [s'|] eqn:Ha; [|done]. cbn. unfold unique. by rewrite (act_keys i f s s').
Qed.

Lemma change_unique e st n s : unique s → unique (change e st n s).
Proof.
  intros Hs. destruct st; cbn [change]; try done.
  - destruct (ticks n !! j) as [[]|]; cbn [tick_change]; try done; [by apply sweep_unique|].
    unfold unique. rewrite commit_keys. by apply upsert_all_unique.
  - by apply default_act_unique.
  - destruct (bool_decide _); [done|]. by apply default_act_unique.
  - unfold restore. destruct (get i s) as [p|]; [|done]. destruct (restorable p); [|done].
    unfold unique. by rewrite keys_update_first.
  - by apply default_act_unique.
  - destruct (_ && _); [|done]. by apply default_act_unique.
Qed.

(** ** One finding *)
Lemma sweep_elem e s p :
  p ∈ s → kept (now e) RESOLVED_RETENTION_DAYS p = true →
  (if orphaned (now e) (self e) ORPHAN_FUSE_DAYS p
   then resolve (now e) (ResourceGone (orphan_reason fmt_time (self e) ORPHAN_FUSE_DAYS p)) p else p)
  ∈ sweep_store e s.
Proof.
  intros Hp Hk.
  apply (resolve_where_elem _ (λ p, resolve (now e) (ResourceGone (orphan_reason fmt_time (self e) ORPHAN_FUSE_DAYS p)) p)).
  by apply elem_of_retain.
Qed.

Definition after_upserts e (new : list Proposal) (p : Proposal) : Proposal :=
  foldl (λ p inc, upserted (now e) inc p) p new.
Definition touched e (covered : list Key) (p : Proposal) : Proposal :=
  if is_pending p && listed covered p then p <| last_checked_at := Some (now e) |> else p.
Definition cleared e (covered emitted : list Key) (p : Proposal) : Proposal :=
  if is_pending p && listed covered p && negb (listed emitted p) then resolve (now e) ConditionCleared p else p.
Definition retired e (vanished : list Key) (p : Proposal) : Proposal :=
  if is_pending p && listed vanished p
  then resolve (now e) (ResourceGone "the resource this finding is about is no longer present on this node") p
  else p.

Lemma upsert_all_elem e new s p : unique s → p ∈ s → after_upserts e new p ∈ upsert_all e new s.
Proof.
  unfold after_upserts, upsert_all. revert s p. induction new as [|x new IH]; intros s p Hs Hp; [done|].
  cbn. apply IH; [by apply unique_upsert|by apply upsert_elem].
Qed.

Lemma commit_elem e new cov em van s p :
  unique s → p ∈ s →
  retired e van (cleared e cov em (touched e cov (after_upserts e new p))) ∈ commit_store e new cov em van s.
Proof.
  intros Hs Hp. unfold commit_store.
  apply (resolve_where_elem (λ p, is_pending p && listed van p)).
  apply (resolve_where_elem (λ p, is_pending p && listed cov p && negb (listed em p))).
  apply (list_elem_of_fmap_2 (touched e cov)). by apply upsert_all_elem.
Qed.

(** What no step changes in a finding. *)
Definition same_finding (p q : Proposal) : Prop :=
  id q = id p ∧ dedup_key q = dedup_key p ∧ created_at q = created_at p.
#[export] Instance same_finding_preorder : PreOrder same_finding.
Proof. split; [done|]. intros p q r (? & ? & ?) (? & ? & ?). split_and!; congruence. Qed.

Lemma upserted_same t inc p : same_finding p (upserted t inc p).
Proof. unfold upserted. by destruct (_ && _). Qed.
Lemma after_upserts_same e new p : same_finding p (after_upserts e new p).
Proof.
  unfold after_upserts. revert p. induction new as [|x new IH]; intros p; [done|]. cbn.
  etrans; [apply upserted_same|apply IH].
Qed.
Lemma touched_same e cov p : same_finding p (touched e cov p).
Proof. unfold touched. by destruct (_ && _). Qed.
Lemma cleared_same e cov em p : same_finding p (cleared e cov em p).
Proof. unfold cleared. by destruct (_ && _). Qed.
Lemma retired_same e van p : same_finding p (retired e van p).
Proof. unfold retired. by destruct (_ && _). Qed.
End Steps.

(** ** Following one finding *)

(** The operators leave the finding [i] alone. *)
Definition spares (i : string) (st : Step) : Prop :=
  match st with
  | Snooze _ j _ | Dismiss _ j _ | RestoreIt _ j | Approve _ j | ApplyEnd j _ => j ≠ i
  | _ => True
  end.

Section Follow.
Context (fmt_time : Z → string).
Implicit Types (e : Env) (n : InboxNode.Node) (s : ProposalStore) (p q : Proposal).
Abbreviation step := (step fmt_time).
Abbreviation run := (run fmt_time).

Definition swept e p : Proposal :=
  if orphaned (now e) (self e) ORPHAN_FUSE_DAYS p
  then resolve (now e) (ResourceGone (orphan_reason fmt_time (self e) ORPHAN_FUSE_DAYS p)) p else p.
Definition committed e (new : list Proposal) (cov em van : list Key) p : Proposal :=
  retired e van (cleared e cov em (touched e cov (after_upserts e new p))).

(** The store holds a finding with the identifier and key of [p0] that
    satisfies [P]. *)
Definition holds (p0 : Proposal) (P : Proposal → Prop) s : Prop :=
  unique s ∧ ∃ p, p ∈ s ∧ same_finding p0 p ∧ P p.

(** A tick does not spoil [P]. *)
Definition tick_keeps (p0 : Proposal) (P : Proposal → Prop) n (x : Env * Step) : Prop :=
  ∀ j t p, x.2 = RunTick j → ticks n !! j = Some t → same_finding p0 p → P p →
  match t with
  | Pruned _ => kept (now x.1) RESOLVED_RETENTION_DAYS p = true ∧ P (swept x.1 p)
  | Analyzed _ new cov em van => P (committed x.1 new cov em van p)
  | _ => True
  end.

Lemma swept_same e p : same_finding p (swept e p).
Proof. unfold swept. by destruct (orphaned _ _ _ _). Qed.
Lemma committed_same e new cov em van p : same_finding p (committed e new cov em van p).
Proof.
  etrans; [apply after_upserts_same|]. etrans; [apply touched_same|]. etrans; [apply cleared_same|]. apply retired_same.
Qed.

Lemma holds_default_act p0 P i (f : Proposal → Proposal) s :
  (∀ p, dedup_key (f p) = dedup_key p) → i ≠ id p0 → holds p0 P s → holds p0 P (default s (act i f s)).
Proof.
  intros Hf Hi (Hs & p & Hp & Hsame & HP). split; [by apply default_act_unique|]. exists p. split_and!; [|done..].
  destruct (act i f s) as [s'|] eqn:Ha; [|done]. eapply act_elem; [done|done|]. destruct Hsame as (-> & _). congruence.
Qed.

Lemma store_holds_change p0 P e st n s :
  spares (id p0) st → tick_keeps p0 P n (e, st) → holds p0 P s → holds p0 P (change fmt_time e st n s).
Proof.
  intros Hsp Hk Hh. pose proof Hh as (Hs & p & Hp & Hsame & HP).
  destruct st; cbn [change spares] in *; try done; try (by apply holds_default_act).
  - destruct (ticks n !! j) as [t|] eqn:Ht; [|done]. specialize (Hk j t p eq_refl Ht Hsame HP).
    destruct t; cbn [tick_change fst] in *; try done.
    + destruct Hk as [Hk HP']. split; [by apply sweep_unique|]. exists (swept e p). split_and!; [|by etrans; [|apply swept_same]|done].
      by apply sweep_elem.
    + split; [unfold unique; rewrite commit_keys; by apply upsert_all_unique|].
      exists (committed e new covered emitted vanished p).
      split_and!; [by apply commit_elem|by etrans; [|apply committed_same]|done].
  - destruct (bool_decide _); [done|]. by apply holds_default_act.
  - unfold restore. destruct (get i s) as [q|]; [|done]. destruct (restorable q); [|done].
    split; [unfold unique; by rewrite keys_update_first|]. exists p. split_and!; [|done..].
    apply elem_update_first_other; [done|]. apply not_true_iff_false. rewrite has_id_true.
    destruct Hsame as (-> & _). congruence.
  - destruct (_ && _); [|done]. by apply holds_default_act.
Qed.

Lemma run_holds p0 P es n :
  Forall (λ x, spares (id p0) x.2) es → Forall (λ x, writes x.1 ≠ CutShort) es →
  along fmt_time (tick_keeps p0 P) es n →
  holds p0 P (proposals n) → holds p0 P (proposals_file n) →
  holds p0 P (proposals (run es n)) ∧ holds p0 P (proposals_file (run es n)).
Proof.
  intros Hsp Hw Hk. apply (run_store fmt_time (λ m x, spares (id p0) x.2 ∧ tick_keeps p0 P m x)).
  - intros m e st s [? ?]. by apply store_holds_change.
  - intros es1 x es2 Heq. split; [by eapply (along_Forall fmt_time (λ x, spares (id p0) x.2) es n)|by eapply Hk].
  - by right.
Qed.

(** All findings satisfy [R]. *)
Lemma upsert_all_Forall (R : Proposal → Prop) e new s :
  Forall R new → (∀ p inc, inc ∈ new → R p → dedup_key p = dedup_key inc → R (refresh (now e) inc p)) →
  Forall R s → Forall R (upsert_all e new s).
Proof.
  unfold upsert_all. revert s. induction new as [|x new IH]; intros s Hn Hr Hs; [done|].
  apply Forall_cons in Hn as [Hx Hn]. cbn. apply IH; [done|intros p inc ?; apply Hr; by right|].
  unfold upsert. destruct (List.find _ s) as [y|].
  - destruct (shielded _ y); [done|]. apply update_first_Forall; [|done].
    intros p Hp Hk%has_key_true. apply Hr; [by left|done|done].
  - apply Forall_app. by split; [|apply Forall_singleton].
Qed.

(** Pages are about pending findings of the store. *)
Lemma step_alerted x n q :
  q ∈ alerted (step x n).2 → q ∈ alerted n ∨ (q ∈ proposals (step x n).2 ∧ status q = Pending).
Proof.
  destruct x as [e st]. destruct st; cbn [InboxNode.step snd]; try (by left).
  - unfold run_tick. destruct (ticks n !! j) as [t|]; [|by left].
    destruct t; cbn [step_tick]; try (by left).
    + destruct (no_data f); [by left|]. unfold save_metrics. by left.
    + destruct (prune_expired _ _) as [a k]. destruct (0 <? k)%nat; [|by left]. unfold save_acks. by left.
    + unfold InboxNode.sweep. destruct (prune_resolved_older_than _ _ _) as [s k].
      destruct (resolve_orphaned _ _ _ _ s) as [s' k']. destruct (_ || _); [|by left].
      unfold save_proposals. by left.
    + unfold commit. destruct (auto_resolve_cleared _ _ _ _) as [s c]. destruct (resolve_vanished _ _ s) as [s' c'].
      set (n' := if _ || _ then _ else _).
      assert (alerted n' = alerted n ∧ proposals n' = s') as [Ha Hp].
      { unfold n', save_proposals. destruct (_ || _); [|done]. by destruct (writes e). }
      cbn. rewrite Ha, Hp. intros [Hq|Hq]%elem_of_app; [|by left]. right.
      unfold find_first_appearance_alerts in Hq. apply elem_of_retain in Hq as [Hq Hb]. split; [done|].
      apply is_pending_true. by destruct (is_pending q).
  - unfold proposal_snooze, with_proposals. destruct (snooze _ _ _ _); [|by left].
    unfold save_proposals. by left.
  - unfold proposal_dismiss, with_proposals. destruct (bool_decide (trim reason = "")); [by left|].
    destruct (dismiss _ _ _ _); [|by left]. unfold save_proposals. by left.
  - unfold proposal_restore. destruct (get i (proposals n)) as [p|]; [|by left].
    destruct (restore _ _ _); [|by left..]. unfold save_proposals. by left.
  - unfold proposal_approve, with_proposals. destruct (record_approval _ _ _ _); [|by left].
    unfold save_proposals. by left.
  - unfold apply_begin. destruct (get i (proposals n)) as [p|]; [|by left]. destruct (is_rpcbind_exposure p); by left.
  - unfold apply_end. destruct (negb _); [by left|]. destruct (negb done_); [by left|].
    unfold save_proposals. by left.
  - unfold acks_create, save_acks. destruct (bool_decide _); [by left|]. by left.
  - unfold acks_replica, save_acks. destruct (negb _); [by left|]. destruct (_ || _); [by left|]. by left.
  - unfold acks_remove, save_acks. destruct (ack_remove i (acks n)) as [[] a]; [|by left]. by left.
Qed.
End Follow.
