(* ===== verification/InboxProps.v ===== *)
(** * What the predictive inbox guarantees

    Dismissals stand, standing findings stay, ghosts go, a restart loses
    nothing; and where the inbox says something untrue. *)
From S2P Require Import Prelude Net F64 Inbox InboxAnalyzers DiskFill ContainerDisk ContainerRestart IpConflict InboxNode InboxInv.

Section Props.
Context (fmt_time : Z → string).
Implicit Types (e : Env) (n : InboxNode.Node) (s : ProposalStore) (p q : Proposal).
Abbreviation step := (step fmt_time).
Abbreviation run := (run fmt_time).

(** ** Dismissals *)
Definition dismissed_as (r : string) (t : Z) p : Prop := status p = Dismissed r t.

Lemma dismissed_upserts e new r t p : dismissed_as r t p → after_upserts e new p = p.
Proof.
  intros Hp. unfold after_upserts. induction new as [|x new IH]; [done|]. cbn.
  assert (upserted (now e) x p = p) as ->; [|done].
  unfold upserted, shielded. rewrite Hp. by rewrite andb_false_r.
Qed.

Lemma dismissed_keeps p0 r t n x : tick_keeps fmt_time p0 (dismissed_as r t) n x.
Proof.
  intros j th p _ _ _ Hp. unfold dismissed_as in *. destruct th; try done.
  - unfold kept, swept, orphaned, is_pending. by rewrite Hp.
  - unfold committed. rewrite (dismissed_upserts _ _ r t) by done. unfold touched, is_pending. rewrite Hp. cbn [andb].
    unfold cleared, is_pending. rewrite Hp. cbn [andb]. unfold retired, is_pending. by rewrite Hp.
Qed.

Lemma dismissed_hidden p0 r t s now' q :
  holds p0 (dismissed_as r t) s → q ∈ inbox now' s → dedup_key q ≠ dedup_key p0.
Proof.
  intros (Hs & p & Hp & (_ & Hk & _) & Hd) Hq Hkq. unfold inbox in Hq. rewrite sort_by_perm in Hq.
  apply elem_of_retain in Hq as [Hq Hv]. assert (q = p) as -> by (apply (unique_same s); [done..|congruence]).
  unfold visible in Hv. by rewrite Hd in Hv.
Qed.

Lemma dismissed_silent p0 r t es n q :
  Forall (λ x, spares (id p0) x.2) es → Forall (λ x, writes x.1 ≠ CutShort) es →
  holds p0 (dismissed_as r t) (proposals n) → holds p0 (dismissed_as r t) (proposals_file n) →
  q ∈ alerted (run es n) → dedup_key q = dedup_key p0 → q ∈ alerted n.
Proof.
  revert n. induction es as [|x es IH]; intros n Hsp Hw Hs Hf Hq Hk; [done|].
  apply Forall_cons in Hsp as [Hx Hsp]. apply Forall_cons in Hw as [Hwx Hw].
  destruct (run_holds fmt_time p0 (dismissed_as r t) [x] n) as [Hs' Hf'];
    [by apply Forall_singleton|by apply Forall_singleton| |done..|].
  { intros es1 y es2 _. apply dismissed_keeps. }
  apply (IH (step x n).2) in Hq; [|done..]. apply step_alerted in Hq as [Hq|[Hq Hp]]; [done|].
  destruct Hs' as (Hu & p & Hpin & (_ & Hkp & _) & Hd). assert (q = p) as -> by (eapply unique_same; [done..|congruence]).
  unfold dismissed_as in Hd. congruence.
Qed.

(** C23: A dismissal that was saved stands until the operator takes it back,
    as long as no later save is cut short (one that is leaves a file that does
    not parse, and the next start begins with an empty store).  Whatever
    ticks, however stale their copies, whatever requests about other findings,
    saves that leave the file alone and restarts follow, the finding stays
    dismissed with its reason, and neither it nor another finding of its type
    and scope is shown or paged again. *)
Theorem dismissal_stands e caller i reason n n1 p es :
  unique (proposals n) → get i (proposals n) = Some p → writes e = Stored →
  step (e, Dismiss caller i reason) n = (ROk, n1) →
  Forall (λ x, spares i x.2) es → Forall (λ x, writes x.1 ≠ CutShort) es →
  (∃ q, q ∈ proposals (run es n1) ∧ same_finding p q ∧ status q = Dismissed (trim reason) (now e)) ∧
  (∀ t q, q ∈ inbox t (proposals (run es n1)) → dedup_key q ≠ dedup_key p) ∧
  (∀ q, q ∈ alerted (run es n1) → dedup_key q = dedup_key p → q ∈ alerted n).
Proof.
  intros Hu Hg Hsave Hd Hsp Hw. cbn in Hd. unfold proposal_dismiss in Hd.
  destruct (bool_decide (trim reason = "")); [done|]. unfold dismiss, act in Hd. rewrite Hg in Hd. cbn in Hd.
  unfold save_proposals, rewritten in Hd. rewrite Hsave in Hd. injection Hd as <-.
  pose proof Hg as (Hp & Hi%has_id_true)%find_Some_elem. subst i.
  set (f := λ p : Proposal, p <| status := Dismissed (trim reason) (now e) |> <| updated_at := now e |>).
  assert (holds p (dismissed_as (trim reason) (now e)) (update_first (has_id (id p)) f (proposals n))) as Hh.
  { split; [unfold unique; by rewrite keys_update_first|].
    destruct (update_first_split (has_id (id p)) f (proposals n) p Hg) as (l1 & l2 & _ & _ & _ & ->).
    exists (f p). split_and!; [|done..]. apply elem_of_app. right. left. }
  match goal with |- context [run es ?m] => set (n1 := m) end.
  destruct (run_holds fmt_time p (dismissed_as (trim reason) (now e)) es n1) as [Hs _]; [done|done| |exact Hh..|].
  { intros es1 y es2 _. apply dismissed_keeps. }
  split_and!.
  - by destruct Hs as (_ & q & ? & ? & ?); exists q.
  - intros t q. by eapply dismissed_hidden.
  - intros q Hq Hk. by apply (dismissed_silent p (trim reason) (now e) es n1) in Hq.
Qed.

(** ** Standing findings *)

(** [p]: pending, and last raised at [T] or later. *)
Definition pending_since (T : Z) p : Prop := status p = Pending ∧ T ≤ updated_at p.

(** A step of the week after [T], on the node [p0] is about, in which no tick
    that had data for [p0] failed to raise it or found its resource gone. *)
Definition stands_at (p0 : Proposal) (T : Z) n (x : Env * Step) : Prop :=
  T ≤ now x.1 ≤ T + ORPHAN_FUSE_DAYS * DAY ∧ foreign (self x.1) p0 = false ∧
  ∀ j snap new cov em van, x.2 = RunTick j → ticks n !! j = Some (Analyzed snap new cov em van) →
    (dedup_key p0 ∈ cov → dedup_key p0 ∈ em) ∧ dedup_key p0 ∉ van.

Lemma pending_upserts T e new p :
  T ≤ now e → pending_since T p → pending_since T (after_upserts e new p).
Proof.
  intros HT. unfold after_upserts. revert p. induction new as [|x new IH]; intros p Hp; [done|]. cbn. apply IH.
  unfold upserted. destruct (_ && _); [|done]. by split.
Qed.

Lemma pending_keeps p0 T n x : stands_at p0 T n x → tick_keeps fmt_time p0 (pending_since T) n x.
Proof.
  intros ([HT1 HT2] & Hf & Han) j th p Hst Hj (_ & Hk & _) [Hp HT]. destruct th; try done.
  - unfold kept, swept, orphaned, is_pending. rewrite Hp. split; [done|]. cbn [andb].
    assert (foreign (self x.1) p = false) as ->.
    { unfold foreign in *. injection Hk as _ Hsc. by rewrite Hsc. }
    assert ((last_alive p <? now x.1 - ORPHAN_FUSE_DAYS * DAY) = false) as ->; [|done].
    apply Z.ltb_ge. unfold last_alive. lia.
  - destruct (Han j snap new covered emitted vanished Hst Hj) as [Hce Hv]. unfold committed.
    pose proof (after_upserts_same x.1 new p) as (_ & Hk' & _).
    destruct (pending_upserts T x.1 new p HT1 (conj Hp HT)) as [Hp' HT'].
    set (p1 := after_upserts x.1 new p) in *.
    assert (∃ p2, touched x.1 covered p1 = p2 ∧ status p2 = Pending ∧ dedup_key p2 = dedup_key p0 ∧ T ≤ updated_at p2)
      as (p2 & -> & Hp2 & Hk2 & HT2').
    { exists (touched x.1 covered p1). pose proof (touched_same x.1 covered p1) as (_ & -> & _).
      split_and!; [done| |by rewrite Hk'|]; unfold touched; by destruct (_ && _). }
    assert (cleared x.1 covered emitted p2 = p2) as ->.
    { unfold cleared, listed, is_pending. rewrite Hp2, Hk2. cbn [andb].
      do 2 case_bool_decide; cbn [andb negb]; [done| |done..]. by destruct H0; apply Hce. }
    unfold retired, listed, is_pending. rewrite Hp2, Hk2. cbn [andb]. by rewrite bool_decide_false.
Qed.

(** A finding that stands stays.  In the week after it was last raised,
    as long as no tick that looks at its resource fails to raise it and the
    operators leave it alone, it stays in the inbox under its identifier and
    with its date of creation, through ticks without data and restarts, unless
    a save is cut short. *)
Theorem standing_finding_stays p es n T :
  unique (proposals n) → unique (proposals_file n) → p ∈ proposals n → p ∈ proposals_file n →
  status p = Pending → T ≤ updated_at p →
  Forall (λ x, spares (id p) x.2) es → Forall (λ x, writes x.1 ≠ CutShort) es →
  along fmt_time (stands_at p T) es n →
  ∃ q, q ∈ proposals (run es n) ∧ same_finding p q ∧ status q = Pending ∧
       ∀ t, q ∈ inbox t (proposals (run es n)).
Proof.
  intros Hu Huf Hin Hinf Hp HT Hsp Hw Hal.
  destruct (run_holds fmt_time p (pending_since T) es n) as [(_ & q & Hq & Hsame & Hpq & _) _]; [done|done| | | |].
  - eapply along_impl; [|exact Hal]. intros m x. apply pending_keeps.
  - by split; [|exists p].
  - by split; [|exists p].
  - exists q. split_and!; [done..|]. intros t. unfold inbox. rewrite sort_by_perm. apply elem_of_retain.
    split; [done|]. unfold visible. by rewrite Hpq.
Qed.

(** ** Ghosts *)

(** No tick raises [k]. *)
Definition unraised (k : Key) n (x : Env * Step) : Prop :=
  ∀ j snap new cov em van, x.2 = RunTick j → ticks n !! j = Some (Analyzed snap new cov em van) →
    k ∉ dedup_key <$> new.
(** [q] is not the finding [p0] or is resolved. *)
Definition settled (p0 : Proposal) q : Prop :=
  dedup_key q = dedup_key p0 → id q = id p0 ∧ ∃ t o, status q = Approved t o.

Lemma settled_resolve p0 t o q : settled p0 q → settled p0 (resolve t o q).
Proof. intros H Hk. destruct (H Hk) as [? _]. split; [done|]. by do 2 eexists. Qed.
Lemma settled_where p0 (r : Proposal → bool) (o : Proposal → ApprovalOutcome) t s :
  Forall (settled p0) s → Forall (settled p0) (resolve_where r (λ p, resolve t (o p) p) s).1.
Proof.
  intros H. unfold resolve_where. cbn. apply Forall_fmap. eapply Forall_impl; [exact H|].
  intros q Hq. cbn. destruct (r q); [by apply settled_resolve|done].
Qed.
Lemma settled_act p0 i (f : Proposal → Proposal) s :
  (∀ q, dedup_key (f q) = dedup_key q) → i ≠ id p0 →
  Forall (settled p0) s → Forall (settled p0) (update_first (has_id i) f s).
Proof.
  intros Hf Hi. apply update_first_Forall. intros q Hq Hqi%has_id_true Hk. rewrite Hf in Hk.
  destruct (Hq Hk) as [? _]. congruence.
Qed.
Lemma settled_default_act p0 i (f : Proposal → Proposal) s :
  (∀ q, dedup_key (f q) = dedup_key q) → i ≠ id p0 →
  Forall (settled p0) s → Forall (settled p0) (default s (act i f s)).
Proof. intros Hf Hi Hs. unfold act. destruct (get i s); [|done]. by apply settled_act. Qed.

Lemma settled_change p0 e st n s :
  spares (id p0) st → unraised (dedup_key p0) n (e, st) →
  Forall (settled p0) s → Forall (settled p0) (change fmt_time e st n s).
Proof.
  intros Hsp Hun Hs. destruct st; cbn [change spares] in *; try done; try (by apply settled_default_act).
  - destruct (ticks n !! j) as [[]|] eqn:Ht; cbn [tick_change]; try done.
    + apply settled_where. by apply retain_Forall.
    + specialize (Hun j snap new covered emitted vanished eq_refl Ht).
      unfold commit_store. do 2 apply (settled_where _ _ (λ _, _)). apply Forall_fmap.
      apply (Forall_impl (settled p0)); [|by intros q Hq; cbn; destruct (_ && _)].
      apply upsert_all_Forall; [|intros q inc Hinc Hq Hk Hk'|done].
      * apply Forall_forall. intros q Hq Hk. destruct Hun. apply list_elem_of_fmap. by exists q.
      * destruct Hun. apply list_elem_of_fmap. exists inc. split; [|done]. rewrite <-Hk. done.
  - destruct (bool_decide _); [done|]. by apply settled_default_act.
  - unfold restore. destruct (get i s) as [q|]; [|done]. destruct (restorable q); [|done]. by apply settled_act.
  - destruct (_ && _); [|done]. by apply settled_default_act.
Qed.

(** A ghost leaves.  A finding of another node, or one that nothing has
    raised or looked at for seven days, leaves the inbox with the next sweep,
    and as long as no tick raises it again and nobody acts on it, it stays
    out, whatever else happens and through restarts. *)
Theorem ghost_leaves_inbox p e f j n es t q :
  unique (proposals n) → p ∈ proposals n → status p = Pending →
  ticks n !! j = Some (Pruned f) → writes e = Stored →
  (foreign (self e) p = true ∨ last_alive p + ORPHAN_FUSE_DAYS * DAY < now e) →
  Forall (λ x, spares (id p) x.2) es →
  along fmt_time (unraised (dedup_key p)) es (step (e, RunTick j) n).2 →
  q ∈ inbox t (proposals (run ((e, RunTick j) :: es) n)) → dedup_key q ≠ dedup_key p.
Proof.
  intros Hu Hp Hpend Hj Hsave Hold Hsp Hal Hq Hk.
  assert (orphaned (now e) (self e) ORPHAN_FUSE_DAYS p = true) as Ho.
  { unfold orphaned, is_pending. rewrite Hpend. cbn [andb]. apply orb_true_iff.
    destruct Hold; [by left|right]. apply Z.ltb_lt. lia. }
  set (n1 := (step (e, RunTick j) n).2) in *.
  assert (proposals n1 = sweep_store fmt_time e (proposals n)) as Hs1.
  { unfold n1. rewrite step_store. cbn [change]. by rewrite Hj. }
  assert (p ∈ (prune_resolved_older_than (now e) RESOLVED_RETENTION_DAYS (proposals n)).1) as Hkept.
  { apply elem_of_retain. split; [done|]. unfold kept. by rewrite Hpend. }
  assert (proposals_file n1 = proposals n1) as Hf1.
  { unfold n1. cbn [InboxNode.step snd]. unfold run_tick. rewrite Hj. cbn [step_tick]. unfold InboxNode.sweep.
    destruct (prune_resolved_older_than _ _ _) as [s k]. cbn [fst] in Hkept.
    destruct (resolve_orphaned fmt_time _ _ _ s) as [s' k'] eqn:Hr.
    assert (0 <? k' = true)%nat as ->; [|by rewrite orb_true_r; unfold save_proposals, rewritten; rewrite Hsave].
    unfold resolve_orphaned, resolve_where in Hr. injection Hr as _ <-. apply Nat.ltb_lt.
    assert (p ∈ retain (orphaned (now e) (self e) ORPHAN_FUSE_DAYS) s) as Hin by (by apply elem_of_retain).
    destruct (retain _ s); [by apply not_elem_of_nil in Hin|cbn; lia]. }
  assert (Forall (settled p) (proposals n1)) as Hset.
  { rewrite Hs1. apply Forall_forall. intros x Hx Hkx.
    assert (x = resolve (now e) (ResourceGone (orphan_reason fmt_time (self e) ORPHAN_FUSE_DAYS p)) p) as ->.
    { apply (unique_same (sweep_store fmt_time e (proposals n))); [by apply sweep_unique|done| |by rewrite Hkx].
      pose proof (sweep_elem fmt_time e (proposals n) p Hp) as H. rewrite Ho in H. apply H.
      unfold kept. by rewrite Hpend. }
    split; [done|]. by do 2 eexists. }
  destruct (run_store fmt_time (λ m x, spares (id p) x.2 ∧ unraised (dedup_key p) m x) (Forall (settled p)) es n1) as [H _].
  { intros m e' st s [? ?]. by apply settled_change. }
  { intros es1 x es2 Heq. split; [by eapply (along_Forall fmt_time (λ x, spares (id p) x.2) es n1)|by eapply Hal]. }
  { left. constructor. } { done. } { by rewrite Hf1. }
  unfold inbox in Hq. rewrite sort_by_perm in Hq. apply elem_of_retain in Hq as [Hq Hv].
  change (run ((e, RunTick j) :: es) n) with (run es n1) in Hq.
  rewrite Forall_forall in H. destruct (H q Hq Hk) as (_ & t' & o & Hst). unfold visible in Hv. by rewrite Hst in Hv.
Qed.

(** ** Restarts *)

(** A tick's list of raised findings is that of the findings it will store. *)
Definition coherent n : Prop :=
  Forall (λ t, match t with Analyzed _ new _ em _ => em = dedup_key <$> new | _ => True end) (ticks n).

(** The files are the stores, expired acknowledgements apart. *)
Definition same_acks (T : Z) (a b : AckStore) : Prop := retain (is_active T) a = retain (is_active T) b.
Definition synced (T : Z) n : Prop :=
  proposals_file n = proposals n ∧ metrics_file n = metrics n ∧ same_acks T (acks_file n) (acks n).

Lemma is_active_later t T a : t ≤ T → is_active T a = true → is_active t a = true.
Proof. unfold is_active. destruct (expires a); [|done]. rewrite !Z.ltb_lt. lia. Qed.

Lemma same_acks_prune t T a b : t ≤ T → same_acks T a b → same_acks T a (prune_expired t b).1.
Proof.
  intros Ht H. unfold same_acks in *. rewrite H. cbn. rewrite retain_retain. symmetry. apply retain_ext.
  intros x _. destruct (is_active T x) eqn:Hx; [|by rewrite andb_false_r]. by rewrite (is_active_later t T).
Qed.

Lemma suppresses_same T t k a b : T ≤ t → same_acks T a b → suppresses t k a = suppresses t k b.
Proof.
  intros Ht H. assert (∀ l, suppresses t k l = suppresses t k (retain (is_active T) l)) as Hr.
  { intros l. unfold suppresses, retain. induction l as [|x l IH]; [done|]. cbn.
    destruct (is_active T x) eqn:Hx; cbn; rewrite IH; [done|].
    destruct (is_active t x) eqn:Hy; [|done]. by rewrite (is_active_later T t) in Hx. }
  by rewrite (Hr a), (Hr b), H.
Qed.

(** The rule by which the tick decides whether to save misses no change. *)
Lemma commit_unsaved e new cov van s :
  let '(s1, c) := auto_resolve_cleared (now e) cov (dedup_key <$> new)
                    (touch_checked (now e) cov (upsert_all e new s)) in
  let '(s2, r) := resolve_vanished (now e) van s1 in
  (0 <? length new)%nat || (0 <? c + r)%nat = false → s2 = s.
Proof.
  destruct (auto_resolve_cleared _ _ _ _) as [s1 c] eqn:Hc. destruct (resolve_vanished _ _ s1) as [s2 r] eqn:Hr.
  intros [Hn Hcr]%orb_false_iff. apply Nat.ltb_ge in Hn, Hcr.
  destruct new as [|x new]; [|cbn in Hn; lia]. cbn [upsert_all foldl fmap list_fmap] in Hc.
  assert (c = O) as -> by lia. assert (r = O) as -> by lia.
  unfold resolve_vanished in Hr. unfold auto_resolve_cleared in Hc.
  apply (f_equal snd) in Hr as Hr2. apply (f_equal fst) in Hr. cbn [fst snd] in *. subst s2.
  rewrite resolve_where_none by done.
  apply (f_equal snd) in Hc as Hc2. apply (f_equal fst) in Hc. cbn [fst snd] in *. subst s1.
  rewrite resolve_where_none by done.
  unfold touch_checked. rewrite <-(list_fmap_id s) at 2. apply list_fmap_ext. intros i y Hy.
  destruct (is_pending y && listed cov y) eqn:Hb; [|done]. exfalso.
  cbn in Hc2. apply length_zero_iff_nil in Hc2.
  assert (touched e cov y ∈ touch_checked (now e) cov s) as Hin.
  { apply (list_elem_of_fmap_2 (touched e cov)). by eapply list_elem_of_lookup_2. }
  assert (touched e cov y ∈ []) as Habs; [|by apply not_elem_of_nil in Habs].
  rewrite <-Hc2. apply elem_of_retain. split; [done|]. unfold touched. rewrite Hb.
  change (is_pending y && listed cov y && negb (listed [] y) = true). rewrite Hb. unfold listed.
  by rewrite bool_decide_false by apply not_elem_of_nil.
Qed.

Lemma commit_synced e snap new cov van n :
  writes e = Stored → proposals_file n = proposals n →
  let n' := commit e snap new cov (dedup_key <$> new) van n in proposals_file n' = proposals n'.
Proof.
  intros Hsave Hf. unfold commit. pose proof (commit_unsaved e new cov van (proposals n)) as H.
  unfold upsert_all in H. destruct (auto_resolve_cleared _ _ _ _) as [s1 c].
  destruct (resolve_vanished _ _ s1) as [s2 r]. cbn.
  destruct (_ || _) eqn:Hb; [by unfold save_proposals, rewritten; rewrite Hsave|].
  rewrite H in * by done. exact Hf.
Qed.

Lemma sweep_synced e n :
  writes e = Stored → proposals_file n = proposals n →
  proposals_file (InboxNode.sweep fmt_time e n) = proposals (InboxNode.sweep fmt_time e n).
Proof.
  intros Hsave Hf. unfold InboxNode.sweep. destruct (prune_resolved_older_than _ _ _) as [s k] eqn:Hp.
  destruct (resolve_orphaned _ _ _ _ s) as [s' k'] eqn:Ho.
  destruct (_ || _) eqn:Hb; [by unfold save_proposals, rewritten; rewrite Hsave|].
  apply orb_false_iff in Hb as [Hk Hk']. apply Nat.ltb_ge in Hk, Hk'. cbn. rewrite Hf.
  assert (k' = O) as -> by lia. apply (f_equal snd) in Ho as Ho2. apply (f_equal fst) in Ho. cbn [fst snd] in *.
  subst s'. unfold resolve_orphaned in *. rewrite resolve_where_none by done.
  unfold prune_resolved_older_than in Hp. injection Hp as <- Hlen.
  symmetry. apply retain_length_eq. lia.
Qed.

Lemma analysis_coherent e f h a s :
  match analysis e f h a s with Analyzed _ new _ em _ => em = dedup_key <$> new | _ => True end.
Proof. done. Qed.

Lemma coherent_tick e t n :
  match (step_tick fmt_time e t n).1 with Analyzed _ new _ em _ => em = dedup_key <$> new | _ => True end.
Proof. destruct t; cbn [step_tick fst]; try done. by destruct (no_data f). Qed.

Lemma step_tick_synced e t n T :
  writes e = Stored → now e ≤ T →
  match t with Analyzed _ new _ em _ => em = dedup_key <$> new | _ => True end →
  synced T n → synced T (step_tick fmt_time e t n).2.
Proof.
  intros Hsave HT Hc (Hp & Hm & Ha). destruct t; try done; cbn [step_tick snd].
  - destruct (no_data f); [done|]. unfold save_metrics, rewritten. by rewrite Hsave.
  - unfold prune_expired. unfold save_acks, rewritten. rewrite Hsave. destruct (0 <? _)%nat eqn:Hk; [done|].
    split_and!; [done..|]. cbn. by apply same_acks_prune.
  - split; [by apply sweep_synced|]. unfold InboxNode.sweep, save_proposals, rewritten. rewrite Hsave.
    destruct (prune_resolved_older_than _ _ _) as [s k]. destruct (resolve_orphaned _ _ _ _ s) as [s' k'].
    by destruct (_ || _).
  - subst emitted. split; [by apply commit_synced|]. unfold commit, save_proposals, rewritten. rewrite Hsave.
    destruct (auto_resolve_cleared _ _ _ _) as [s c]. destruct (resolve_vanished _ _ s) as [s' c']. by destruct (_ || _).
Qed.

Lemma run_tick_synced e j n T :
  writes e = Stored → now e ≤ T → coherent n → synced T n →
  synced T (run_tick fmt_time e j n) ∧ coherent (run_tick fmt_time e j n).
Proof.
  intros Hsave HT Hc Hs. unfold run_tick. destruct (ticks n !! j) as [t|] eqn:Hj; [|done].
  pose proof (step_tick_synced e t n T Hsave HT (Forall_lookup_1 _ _ _ _ Hc Hj) Hs) as Hs'.
  pose proof (step_tick_ticks fmt_time e t n) as Ht. pose proof (coherent_tick e t n) as Hco.
  destruct (step_tick fmt_time e t n) as [t' n']. cbn [fst snd] in *. split; [exact Hs'|].
  unfold coherent in *. cbn. rewrite Ht. by apply Forall_insert.
Qed.

Lemma save_proposals_synced T e n s :
  writes e = Stored → synced T n → coherent n →
  synced T (save_proposals e (n <| proposals := s |>)) ∧ coherent (save_proposals e (n <| proposals := s |>)).
Proof. intros Hsave (Hp & Hm & Ha) Hc. unfold save_proposals, rewritten. by rewrite Hsave. Qed.
Lemma save_acks_synced T e n a :
  writes e = Stored → synced T n → coherent n →
  synced T (save_acks e (n <| acks := a |>)) ∧ coherent (save_acks e (n <| acks := a |>)).
Proof. intros Hsave (Hp & Hm & Ha) Hc. unfold save_acks, rewritten. by rewrite Hsave. Qed.

Lemma step_synced e st n T :
  writes e = Stored → now e ≤ T → coherent n → synced T n →
  synced T (step (e, st) n).2 ∧ coherent (step (e, st) n).2.
Proof.
  intros Hsave HT Hc Hs. destruct st; cbn [InboxNode.step snd]; try done.
  - split; [done|]. unfold coherent in *. cbn. apply Forall_app. by rewrite Forall_singleton.
  - by apply run_tick_synced.
  - unfold proposal_snooze, with_proposals. destruct (snooze _ _ _ _); [by apply save_proposals_synced|done].
  - unfold proposal_dismiss, with_proposals. destruct (bool_decide (trim reason = "")); [done|].
    destruct (dismiss _ _ _ _); [by apply save_proposals_synced|done].
  - unfold proposal_restore. destruct (get i (proposals n)); [|done].
    destruct (restore _ _ _); [by apply save_proposals_synced|done..].
  - unfold proposal_approve, with_proposals. destruct (record_approval _ _ _ _); [by apply save_proposals_synced|done].
  - unfold apply_begin. destruct (get i (proposals n)) as [p|]; [|done]. by destruct (is_rpcbind_exposure p).
  - unfold apply_end. destruct (negb _); [done|]. destruct (negb done_); [done|].
    by apply (save_proposals_synced T e (n <| applying := remove_first i (applying n) |>)).
  - unfold acks_create. destruct (bool_decide _); [done|]. by apply save_acks_synced.
  - unfold acks_replica. destruct (negb _); [done|]. destruct (_ || _); [done|]. by apply save_acks_synced.
  - unfold acks_remove, ack_remove. destruct (bool_decide _) eqn:Hb; [by apply save_acks_synced|].
    apply bool_decide_eq_false in Hb. cbn [snd]. rewrite retain_length_eq by lia. by destruct n.
  - destruct Hs as (Hp & Hm & Ha). split; [|by constructor]. split_and!; [done..|].
    by apply (same_acks_prune (now e) T (acks_file n)).
Qed.

(** A restart loses nothing.  As long as files can be written, the node
    that comes back after any run has the findings and the metrics the node
    had, and silences exactly what it silenced: the ticks' rule to save only
    after a finding was raised or resolved misses no change. *)
Theorem restart_loses_nothing es e n :
  Forall (λ x, writes x.1 = Stored ∧ now x.1 ≤ now e) es → coherent n → synced (now e) n →
  proposals (restart e (run es n)) = proposals (run es n) ∧
  metrics (restart e (run es n)) = metrics (run es n) ∧
  ∀ t k, now e ≤ t → suppresses t k (acks (restart e (run es n))) = suppresses t k (acks (run es n)).
Proof.
  intros Hes Hc Hs.
  assert (synced (now e) (run es n) ∧ coherent (run es n)) as [(Hp & Hm & Ha) _].
  { revert n Hc Hs. induction Hes as [|[e' st] es [Hsave HT] _ IH]; intros n Hc Hs; [done|].
    destruct (step_synced e' st n (now e)) as [Hs' Hc']; [done..|]. by apply (IH (step (e', st) n).2). }
  split_and!; [done..|]. intros t k Ht. apply (suppresses_same (now e)); [done|]. cbn [acks restart].
  unfold same_acks in *. rewrite <-Ha. symmetry.
  by apply (same_acks_prune (now e) (now e) (acks_file (run es n)) (acks_file (run es n))).
Qed.
End Props.

(** ** At concrete inputs *)
Module Toy.
Definition env (t : Z) : Env :=
  {| now := t; self := "n1"; writes := Stored; draw := λ _, "u2"; delivery := true |}.
Definition node (ps : ProposalStore) (ts : list Tick) : InboxNode.Node :=
  {| proposals := ps; acks := []; metrics := ∅; proposals_file := ps; acks_file := []; metrics_file := ∅;
     ticks := ts; applying := []; alerted := []; paged := [] |}.
Definition fmt (t : Z) : string := "then".

(** An address that a peer holds too, raised once and raised again by a tick
    that is about to store it. *)
Definition draft : Draft :=
  IpConflict.draft "n1" {| IpConflict.ip := "10.0.0.9"; IpConflict.kind := IpConflict.ShadowedByPeer "vpn" true |}.
Definition p0 : Proposal := new_rule "u1" 100 draft.
Definition again : Tick := Analyzed [] [new_rule "u2" 200 draft] [dedup_key p0] [dedup_key p0] [].
Definition facts : Facts := {| disks := []; containers := []; restarts := []; others := []; others_usable := true |}.

Definition dismissed : InboxNode.Node := (step fmt (env 250, Dismiss "paul" "u1" "ours") (node [p0] [again])).2.
Lemma dismissal_stands_witness :
  ∃ q, q ∈ proposals (run fmt [(env 300, RunTick 0); (env 301, Restart)] dismissed) ∧ same_finding p0 q ∧
       status q = Dismissed "ours" 250.
Proof.
  refine (proj1 (dismissal_stands fmt (env 250) "paul" "u1" "ours" (node [p0] [again]) dismissed p0
                   [(env 300, RunTick 0); (env 301, Restart)] _ _ _ _ _ _)).
  - refine (bool_decide_unpack _ _). by vm_compute.
  - by vm_compute.
  - done.
  - by vm_compute.
  - by repeat constructor.
  - by repeat constructor.
Defined.

Lemma standing_finding_stays_witness :
  ∃ q, q ∈ proposals (run fmt [(env 300, RunTick 0); (env 301, Restart)] (node [p0] [again])) ∧ same_finding p0 q ∧
       status q = Pending ∧ ∀ t, q ∈ inbox t (proposals (run fmt [(env 300, RunTick 0); (env 301, Restart)] (node [p0] [again]))).
Proof.
  apply (standing_finding_stays fmt p0 _ _ 100);
    try (refine (bool_decide_unpack _ _); by vm_compute); [by left|by left|by repeat constructor|by repeat constructor|].
  rewrite !along_cons. split_and!; [..|by intros [|] ?? [=]].
  - split_and!; [by vm_compute..|]. intros j snap new cov em van [= <-] [= <- <- <- <- <-].
    by split; [|apply not_elem_of_nil].
  - split_and!; [by vm_compute..|]. by intros.
Defined.

Lemma ghost_leaves_inbox_witness :
  ¬ p0 ∈ inbox 0 (proposals (run fmt ((env (8 * DAY), RunTick 0) :: [(env (9 * DAY), Restart)]) (node [p0] [Pruned facts]))).
Proof.
  intros Hq. refine (ghost_leaves_inbox fmt p0 (env (8 * DAY)) facts 0 (node [p0] [Pruned facts]) [(env (9 * DAY), Restart)]
                       0 p0 _ _ _ _ _ _ _ _ Hq eq_refl); try done.
  - refine (bool_decide_unpack _ _). by vm_compute.
  - by left.
  - right. by vm_compute.
  - by repeat constructor.
  - rewrite along_cons. split; [by intros j snap new cov em van [=]|by intros [|] ?? [=]].
Defined.

Lemma restart_loses_nothing_witness :
  proposals (restart (env 400) (run fmt [(env 300, RunTick 0); (env 301, Snooze "paul" "u1" 4)] (node [p0] [again])))
  = proposals (run fmt [(env 300, RunTick 0); (env 301, Snooze "paul" "u1" 4)] (node [p0] [again])).
Proof.
  destruct (restart_loses_nothing fmt [(env 300, RunTick 0); (env 301, Snooze "paul" "u1" 4)] (env 400)
              (node [p0] [again])) as [H _]; [by repeat constructor|by repeat constructor|done|exact H].
Defined.
End Toy.
