(* ===== verification/InboxFaults.v ===== *)
(** * Where the predictive inbox is wrong

    The modelled analyzers obey [AnalyzerLaws]; what a tick makes of a finding
    it was told not to raise; what one failed sampling does to the trends; and
    a page that is lost. *)
From stdpp Require Import pretty.
From S2P Require Import Prelude Net F64 Inbox InboxAnalyzers DiskFill ContainerDisk ContainerRestart IpConflict InboxNode InboxInv.

(** ** The analyzers' laws *)
Section Laws.
Implicit Types (acks : AckStore) (s : ProposalStore).

Lemma disk_draft_Some {F} (pct : F → f64) (res ft : F → string) metric build node now h acks s f d :
  (∀ f sc v, draft_key (build f sc v) = (ft f, sc)) →
  disk_draft pct res ft metric build node now h acks s f = Some d →
  draft_key d = (ft f, scope_of node (res f)) ∧ silenced now (draft_key d) acks s = false.
Proof.
  intros Hb. unfold disk_draft. destruct (negb (worth_a_look (pct f))); [done|]. cbn [orb].
  destruct (silenced now (ft f, scope_of node (res f)) acks s) eqn:Hs; [done|].
  intros (l & _ & (v & _ & [= <-])%bind_Some)%bind_Some. by rewrite Hb.
Qed.

(** An analyzer that looks at its facts one by one. *)
Lemma omap_laws {F} (draft : string → Z → MetricsHistory → AckStore → ProposalStore → F → option Draft)
    (key : string → F → Key) node now h acks s (fs : list F) d :
  (∀ f d, draft node now h acks s f = Some d →
     draft_key d = key node f ∧ silenced now (draft_key d) acks s = false) →
  (∀ f, node_id (key node f).2 = node) →
  d ∈ omap (draft node now h acks s) fs →
  silenced now (draft_key d) acks s = false ∧ draft_key d ∈ key node <$> fs ∧ node_id (d_scope d) = node.
Proof.
  intros Hd Hn (f & Hf & Hfd)%list_elem_of_omap. apply Hd in Hfd as [Hk Hs]. split_and!; [done| |].
  - rewrite Hk. by apply list_elem_of_fmap_2.
  - change (d_scope d) with (draft_key d).2. by rewrite Hk.
Qed.

#[global] Instance disk_fill_laws : AnalyzerLaws (list DiskFill.DiskFact).
Proof.
  assert (∀ node now h (fs : list DiskFill.DiskFact) acks s d, d ∈ analyze node now h fs acks s →
    silenced now (draft_key d) acks s = false ∧ draft_key d ∈ covered_scopes node fs s ∧ node_id (d_scope d) = node) as H.
  { intros node now h fs acks s d Hd.
    apply (omap_laws (λ node now h acks s, disk_draft DiskFill.used_pct DiskFill.mount (λ _, DiskFill.FINDING_TYPE)
             DiskFill.METRIC DiskFill.build_proposal node now h acks s)
             (λ node f, (DiskFill.FINDING_TYPE, scope_of node (DiskFill.mount f)))) in Hd; [exact Hd| |done].
    intros f d' Hd'. by apply disk_draft_Some in Hd'. }
  split; intros node now h f acks s d Hd; by destruct (H node now h f acks s d Hd) as (? & ? & ?).
Qed.

#[global] Instance container_disk_laws : AnalyzerLaws (list ContainerDisk.ContainerDiskFact).
Proof.
  assert (∀ node now h (fs : list ContainerDisk.ContainerDiskFact) acks s d, d ∈ analyze node now h fs acks s →
    silenced now (draft_key d) acks s = false ∧ draft_key d ∈ covered_scopes node fs s ∧ node_id (d_scope d) = node) as H.
  { intros node now h fs acks s d Hd.
    apply (omap_laws (λ node now h acks s, disk_draft ContainerDisk.used_pct
             (λ f, ContainerDisk.resource_id (ContainerDisk.runtime f) (ContainerDisk.name f))
             (λ f, ContainerDisk.finding_type (ContainerDisk.runtime f)) ContainerDisk.METRIC
             ContainerDisk.build_proposal node now h acks s)
             (λ node f, (ContainerDisk.finding_type (ContainerDisk.runtime f),
                         scope_of node (ContainerDisk.resource_id (ContainerDisk.runtime f) (ContainerDisk.name f)))))
      in Hd; [exact Hd| |done].
    intros f d' Hd'. by apply disk_draft_Some in Hd'. }
  split; intros node now h f acks s d Hd; by destruct (H node now h f acks s d Hd) as (? & ? & ?).
Qed.

#[global] Instance container_restart_laws : AnalyzerLaws (list ContainerRestart.RestartFact).
Proof.
  assert (∀ node now h (fs : list ContainerRestart.RestartFact) acks s d, d ∈ analyze node now h fs acks s →
    silenced now (draft_key d) acks s = false ∧ draft_key d ∈ covered_scopes node fs s ∧ node_id (d_scope d) = node) as H.
  { intros node now h fs acks s d Hd.
    apply (omap_laws ContainerRestart.draft
             (λ node f, (ContainerRestart.FINDING_TYPE, scope_of node (ContainerRestart.resource f)))) in Hd;
      [exact Hd| |done].
    intros f d'. unfold ContainerRestart.draft.
    destruct (silenced now _ acks s) eqn:Hs; [done|].
    by intros (v & _ & [= <-])%bind_Some. }
  split; intros node now h f acks s d Hd; by destruct (H node now h f acks s d Hd) as (? & ? & ?).
Qed.
End Laws.

Lemma elem_btree_set l i : i ∈ IpConflict.btree_set l ↔ i ∈ l.
Proof. unfold IpConflict.btree_set. by rewrite sort_by_perm, elem_of_remove_dups. Qed.

(** An address with several holders is in use here or on a peer. *)
Lemma claimed_somewhere f i l :
  (i, l) ∈ IpConflict.claims f →
  i ∈ IpConflict.local_active f ∨ ∃ lb host ips, (lb, host, ips) ∈ IpConflict.remotes f ∧ i ∈ ips.
Proof.
  unfold IpConflict.claims. intros ([[i' l'] host] & Hin & Hc)%list_elem_of_omap.
  destruct (_ || _); [done|]. injection Hc as -> ->. apply elem_of_app in Hin as [Hin|Hin].
  - apply list_elem_of_fmap in Hin as (x & [= <- _ _] & Hx). by left.
  - right. apply list_elem_of_bind in Hin as ([[lb h] ips] & Hin & Hr).
    apply list_elem_of_fmap in Hin as (x & [= <- _ _] & Hx). by exists lb, h, ips.
Qed.

#[global] Instance ip_conflict_laws : AnalyzerLaws IpConflict.Facts.
Proof.
  assert (∀ node now h (f : IpConflict.Facts) acks s d, d ∈ analyze node now h f acks s →
    silenced now (draft_key d) acks s = false ∧ draft_key d ∈ covered_scopes node f s ∧ node_id (d_scope d) = node) as H.
  { intros node now h f acks s d. cbn [analyze IpConflict.analyzer covered_scopes].
    destruct (negb (IpConflict.present f)); [by intros ?%not_elem_of_nil|].
    intros (c & -> & Hc)%list_elem_of_fmap. apply elem_of_retain in Hc as [Hc Hs%negb_true_iff].
    assert (draft_key (IpConflict.draft node c)
            = (IpConflict.FINDING_TYPE, IpConflict.scope_for node (IpConflict.ip c) (IpConflict.kind_key (IpConflict.kind c)))) as Hk.
    { unfold IpConflict.draft, draft_key. destruct (IpConflict.kind c) as [|? []]; done. }
    rewrite Hk. split_and!; [done| |].
    - unfold IpConflict.find_conflicts in Hc. apply elem_of_app in Hc as [Hc|Hc];
        apply list_elem_of_omap in Hc as (i & Hi & Hc).
      + destruct (2 <=? _)%nat; [|done]. injection Hc as <-. apply elem_btree_set, list_elem_of_fmap in Hi as ([i' l] & -> & Hi).
        cbn [fst IpConflict.ip IpConflict.kind IpConflict.kind_key]. apply claimed_somewhere in Hi as [Hi|(lb & host & ips & Hr & Hi)].
        * apply elem_of_app. left. apply list_elem_of_bind. exists i'. split; [by left|done].
        * rewrite !elem_of_app. right. left. apply list_elem_of_bind. exists (lb, host, ips). split; [|done].
          apply list_elem_of_fmap. by exists i'.
      + destruct (bool_decide (i ∈ _)); [done|]. destruct (List.find _ _) as [p|]; [|done]. injection Hc as <-.
        cbn [IpConflict.ip IpConflict.kind IpConflict.kind_key]. apply elem_of_app. left. apply list_elem_of_bind.
        exists i. split; [|done]. right. left.
    - change (d_scope (IpConflict.draft node c)) with (draft_key (IpConflict.draft node c)).2. by rewrite Hk. }
  split; intros node now h f acks s d Hd; by destruct (H node now h f acks s d Hd) as (? & ? & ?).
Qed.

(** ** A tick that is told not to raise a finding *)
Definition lawful (p : Probe) : Prop := match p with @probe F A _ => @AnalyzerLaws F A end.

Section Faults.
Context (fmt_time : Z → string).
Implicit Types (e : Env) (n : InboxNode.Node) (s : ProposalStore) (p q : Proposal).
Abbreviation step := (step fmt_time).
Abbreviation run := (run fmt_time).

Lemma silenced_unraised e f h a s k :
  Forall lawful (probes f) → silenced (now e) k a s = true → k ∉ draft_key <$> drafts e f h a s.
Proof.
  intros Hl Hs (d & -> & Hd)%list_elem_of_fmap. unfold drafts in Hd.
  apply list_elem_of_bind in Hd as ([F A facts] & Hd & Hp). rewrite Forall_forall in Hl.
  specialize (Hl _ Hp). cbn in Hl. apply (raised_unsilenced (F := F)) in Hd. congruence.
Qed.

Lemma emitted_drafts e (l : list Draft) :
  dedup_key <$> ((λ d, new_rule (draw e d.1) (now e) d.2) <$> enumerate l) = draft_key <$> l.
Proof.
  rewrite <-list_fmap_compose. transitivity (draft_key <$> (snd <$> enumerate l)).
  - rewrite <-list_fmap_compose. by apply list_fmap_ext.
  - f_equal. unfold enumerate. apply snd_zip. by rewrite length_seq.
Qed.

Lemma covered_not_vanished e f covered emitted s k : k ∈ covered → k ∉ vanished_by e f covered emitted s.
Proof.
  intros Hk Hv. unfold vanished_by in Hv. apply elem_of_retain in Hv as [Hv _].
  apply list_elem_of_bind in Hv as ([F A facts] & Hv & _). apply list_elem_of_bind in Hv as ([types b] & Hv & _).
  unfold vanished_scopes in Hv. destruct (negb b); [by apply not_elem_of_nil in Hv|].
  apply list_elem_of_fmap in Hv as (p & -> & Hp). apply elem_of_retain in Hp as [_ Hp].
  apply andb_true_iff in Hp as [_ Hp%negb_true_iff]. unfold listed in Hp. by rewrite bool_decide_true in Hp.
Qed.

Lemma after_upserts_other e new p : dedup_key p ∉ dedup_key <$> new → after_upserts e new p = p.
Proof.
  unfold after_upserts. induction new as [|x new IH]; [done|]. cbn [fmap list_fmap].
  intros [Hx Hn]%not_elem_of_cons. cbn. unfold upserted at 2. rewrite bool_decide_false by congruence. by apply IH.
Qed.

Lemma committed_clears e new cov em van p :
  status p = Pending → dedup_key p ∈ cov → dedup_key p ∉ em → dedup_key p ∉ dedup_key <$> new →
  status (committed e new cov em van p) = Approved (now e) ConditionCleared.
Proof.
  intros Hp Hc He Hn. unfold committed. rewrite after_upserts_other by done.
  unfold touched, is_pending, listed. rewrite Hp. rewrite bool_decide_true by done. cbn [andb].
  unfold cleared, is_pending, listed. cbn -[resolve]. rewrite Hp. cbn [andb].
  assert (bool_decide (dedup_key (p <| last_checked_at := Some (now e) |>) ∈ cov) = true) as -> by (by apply bool_decide_true).
  assert (bool_decide (dedup_key (p <| last_checked_at := Some (now e) |>) ∈ em) = false) as -> by (by apply bool_decide_false).
  by cbn [andb negb].
Qed.

(** The two last stages of a tick: analysis and commit. *)
Lemma finish_clears e1 e2 j f h a s n p :
  unique (proposals n) → p ∈ proposals n → status p = Pending →
  ticks n !! j = Some (SawProposals f h a s) →
  dedup_key p ∈ covered_by e1 f s → dedup_key p ∉ draft_key <$> drafts e1 f h a s →
  ∃ q, q ∈ proposals (run [(e1, RunTick j); (e2, RunTick j)] n) ∧ same_finding p q ∧
       status q = Approved (now e2) ConditionCleared.
Proof.
  intros Hu Hp Hpend Hj Hc Hd.
  set (n1 := (step (e1, RunTick j) n).2).
  assert (ticks n1 !! j = Some (analysis e1 f h a s) ∧ proposals n1 = proposals n) as [Hj1 Hp1].
  { unfold n1. cbn [InboxNode.step snd]. unfold run_tick. rewrite Hj. cbn [step_tick]. split; [|done].
    cbn. apply list_lookup_insert_eq. by apply lookup_lt_Some in Hj. }
  change (run [(e1, RunTick j); (e2, RunTick j)] n) with (step (e2, RunTick j) n1).2.
  rewrite step_store. cbn [change]. rewrite Hj1, Hp1. unfold analysis. rewrite !emitted_drafts. cbn [tick_change].
  set (new := _ <$> enumerate _). set (van := vanished_by _ _ _ _ _).
  exists (committed e2 new (covered_by e1 f s) (draft_key <$> drafts e1 f h a s) van p). split_and!.
  - by apply commit_elem.
  - apply committed_same.
  - apply committed_clears; [done..|]. unfold new. by rewrite emitted_drafts.
Qed.

(** A finding the operator silences is recorded as one that cleared by
    itself.  If a pending finding is acknowledged as intentional, or was
    dismissed when a tick took its copies and is restored before the tick
    ends, the tick that had data for its resource marks it ConditionCleared,
    whatever the state of the resource. *)
Theorem silence_recorded_as_cleared e1 e2 j f h a s n p :
  unique (proposals n) → p ∈ proposals n → status p = Pending →
  ticks n !! j = Some (SawProposals f h a s) → Forall lawful (probes f) →
  dedup_key p ∈ covered_by e1 f s →
  suppresses (now e1) (dedup_key p) a = true ∨ is_suppressed (now e1) (dedup_key p) s = true →
  ∃ q, q ∈ proposals (run [(e1, RunTick j); (e2, RunTick j)] n) ∧ same_finding p q ∧
       status q = Approved (now e2) ConditionCleared.
Proof.
  intros Hu Hp Hpend Hj Hl Hc Hs. apply (finish_clears e1 e2 j f h a s); [done..|].
  apply silenced_unraised; [done|]. unfold silenced. apply orb_true_iff. by destruct Hs; [left|right].
Qed.

(** ** A failed sampling *)
Lemma record_at_other r r' m v t (h : MetricsHistory) : r ≠ r' → record_at r m v t h !! r' = h !! r'.
Proof. intros Hr. unfold record_at. by rewrite lookup_insert_ne. Qed.
Lemma reset_other t rt name cid (h : MetricsHistory) r :
  ContainerDisk.resource_id rt name ≠ r → ContainerDisk.maybe_reset_history t rt name cid h !! r = h !! r.
Proof.
  intros Hr. unfold ContainerDisk.maybe_reset_history. rewrite record_at_other by done.
  destruct (match _ with Some _ => _ | None => _ end); [|done]. by rewrite lookup_insert_ne.
Qed.

(** Recording facts about other resources. *)
Lemma fold_other {F} (rec : F → MetricsHistory → MetricsHistory) (res : F → string) r fs h :
  (∀ f h, res f ≠ r → rec f h !! r = h !! r) → r ∉ res <$> fs →
  foldl (λ h f, rec f h) h fs !! r = h !! r.
Proof.
  intros Hrec. revert h. induction fs as [|f fs IH]; intros h; [done|]. cbn [fmap list_fmap].
  intros [Hr Hfs]%not_elem_of_cons. cbn. rewrite IH by done. apply Hrec. congruence.
Qed.

Lemma record_metrics_lookup t f h r :
  record_metrics t f h !! r
  = if bool_decide (r ∈ live_resources f) then
      foldl (λ h x, ContainerRestart.record t x h)
        (foldl (λ h x, ContainerDisk.record t x h)
           (foldl (λ h x, DiskFill.record t x h) h (disks f)) (containers f)) (restarts f) !! r
    else None.
Proof.
  unfold record_metrics, retain_resources. set (h3 := foldl _ _ (restarts f)).
  destruct (map_retain _ h3 !! r) as [v|] eqn:Hv.
  - apply map_retain_lookup in Hv as [-> Hb]. by rewrite Hb.
  - apply map_retain_lookup_None in Hv. destruct (bool_decide _) eqn:Hb; [|done].
    destruct Hv as [Hv|(v & Hv & Hv')]; [done|congruence].
Qed.

Lemma one_sample t f h m x :
  x ∈ disks f → DiskFill.mount x = m → NoDup (DiskFill.mount <$> disks f) →
  m ∉ (λ c, ContainerDisk.resource_id (ContainerDisk.runtime c) (ContainerDisk.name c)) <$> containers f →
  m ∉ ContainerRestart.resource <$> restarts f →
  h !! m = None →
  samples m DiskFill.METRIC (record_metrics t f h) = Some [{| ts := t; sample := DiskFill.used_pct x |}].
Proof.
  intros Hx Hm Hnd Hc Hr Hh. unfold samples. rewrite record_metrics_lookup, bool_decide_true.
  2:{ apply elem_of_app. left. rewrite <-Hm. by apply list_elem_of_fmap_2. }
  rewrite (fold_other (ContainerRestart.record t) ContainerRestart.resource); [|intros c h' Hne|done].
  2:{ unfold ContainerRestart.record. rewrite record_at_other by done. by apply reset_other. }
  rewrite (fold_other (ContainerDisk.record t)
             (λ c, ContainerDisk.resource_id (ContainerDisk.runtime c) (ContainerDisk.name c))); [|intros c h' Hne|done].
  2:{ unfold ContainerDisk.record. rewrite record_at_other by done. by apply reset_other. }
  apply list_elem_of_split in Hx as (l1 & l2 & Hl). rewrite Hl in *. rewrite fmap_app in Hnd. cbn in Hnd.
  apply NoDup_app in Hnd as (_ & Hd & [Hd2 _]%NoDup_cons).
  rewrite foldl_app. cbn [foldl].
  rewrite (fold_other (DiskFill.record t) DiskFill.mount); [|by intros; apply record_at_other|by rewrite <-Hm].
  unfold DiskFill.record at 1. unfold record_at. rewrite Hm, lookup_insert_eq. cbn [mbind option_bind].
  rewrite (fold_other (DiskFill.record t) DiskFill.mount); [|by intros; apply record_at_other|].
  2:{ intros Hin. apply (Hd m Hin). rewrite Hm. left. }
  rewrite Hh. by rewrite lookup_insert_eq.
Qed.
(** A step of a tick, seen from the tick. *)
Lemma run_tick_fields e j n t :
  ticks n !! j = Some t →
  let n' := (step (e, RunTick j) n).2 in
  ticks n' !! j = Some (step_tick fmt_time e t n).1 ∧
  proposals n' = tick_change fmt_time e t (proposals n) ∧
  metrics n' = match t with
               | Sampled f => if no_data f then metrics n else record_metrics (now e) f (metrics n)
               | _ => metrics n
               end.
Proof.
  intros Hj. cbn zeta. rewrite step_store. cbn [change]. rewrite Hj. cbn [InboxNode.step snd].
  unfold run_tick. rewrite Hj. pose proof (step_tick_ticks fmt_time e t n) as Ht.
  assert (metrics (step_tick fmt_time e t n).2
          = match t with
            | Sampled f => if no_data f then metrics n else record_metrics (now e) f (metrics n)
            | _ => metrics n
            end) as Hm.
  { destruct t; try done; cbn [step_tick snd].
    - destruct (no_data f); [done|]. unfold save_metrics. by destruct (writes e).
    - destruct (prune_expired _ _). unfold save_acks. destruct (_ <? _)%nat; [|done]. by destruct (writes e).
    - unfold InboxNode.sweep, save_proposals. destruct (prune_resolved_older_than _ _ _) as [s k].
      destruct (resolve_orphaned _ _ _ _ s) as [s' k']. destruct (_ || _); [|done]. by destruct (writes e).
    - unfold commit, save_proposals. destruct (auto_resolve_cleared _ _ _ _) as [s c].
      destruct (resolve_vanished _ _ s) as [s' c']. destruct (_ || _); [|done]. by destruct (writes e). }
  destruct (step_tick fmt_time e t n) as [t' n']. cbn [fst snd] in *. split_and!; [|done|exact Hm].
  cbn. rewrite Ht. apply list_lookup_insert_eq. by apply lookup_lt_Some in Hj.
Qed.

(** From the samples to the analysis. *)
Lemma tick_to_analysis e j f n :
  ticks n !! j = Some (Sampled f) → no_data f = false →
  ∃ a, let n' := run (replicate 6 (e, RunTick j)) n in
    ticks n' !! j
    = Some (SawProposals f (record_metrics (now e) f (metrics n)) a (sweep_store fmt_time e (proposals n))) ∧
    proposals n' = sweep_store fmt_time e (proposals n).
Proof.
  intros H0 Hd. unfold InboxNode.run. cbn [replicate foldl].
  destruct (run_tick_fields e j n _ H0) as (H1 & P1 & M1). cbn [step_tick fst tick_change] in H1, P1.
  rewrite Hd in H1, M1. cbn [fst] in H1. set (n1 := (step _ n).2) in *.
  destruct (run_tick_fields e j n1 _ H1) as (H2 & P2 & M2). cbn [step_tick fst tick_change] in H2, P2.
  assert (ticks (step (e, RunTick j) n1).2 !! j = Some (Pruned f)) as H2'.
  { rewrite H2. by destruct (prune_expired _ _). }
  clear H2. set (n2 := (step _ n1).2) in *.
  destruct (run_tick_fields e j n2 _ H2') as (H3 & P3 & M3). cbn [step_tick fst tick_change] in H3, P3.
  set (n3 := (step _ n2).2) in *.
  destruct (run_tick_fields e j n3 _ H3) as (H4 & P4 & M4). cbn [step_tick fst tick_change] in H4, P4.
  set (n4 := (step _ n3).2) in *.
  destruct (run_tick_fields e j n4 _ H4) as (H5 & P5 & M5). cbn [step_tick fst tick_change] in H5, P5.
  set (n5 := (step _ n4).2) in *.
  destruct (run_tick_fields e j n5 _ H5) as (H6 & P6 & M6). cbn [step_tick fst tick_change] in H6, P6.
  exists (acks n4). split.
  - rewrite H6, M3, M2, M1, P5, P4, P3, P2, P1. done.
  - rewrite P6, P5, P4, P3, P2, P1. done.
Qed.

(** The findings of another kind than disk_fill_eta. *)
Definition minds_other_things (pr : Probe) : Prop :=
  match pr with
  | @probe F A x => ∀ node t h a s d, d ∈ analyze node t h x a s → d_finding_type d ≠ DiskFill.FINDING_TYPE
  end.

Lemma few_samples_silent e f h a s m :
  Forall minds_other_things (others f) →
  (∀ l, samples m DiskFill.METRIC h = Some l → (length l < MIN_SAMPLES)%nat) →
  (DiskFill.FINDING_TYPE, scope_of (self e) m) ∉ draft_key <$> drafts e f h a s.
Proof.
  intros Ho Hl (d & Hk & Hd)%list_elem_of_fmap. unfold draft_key in Hk. injection Hk as Hft Hsc.
  unfold drafts in Hd. apply list_elem_of_bind in Hd as ([F A x] & Hd & Hp).
  unfold probes in Hp. rewrite !elem_of_cons in Hp. destruct Hp as [Hp|[Hp|[Hp|Hp]]].
  - assert (d ∈ analyze (self e) (now e) h (disks f) a s) as Hd'.
    { change (match probe (disks f) with probe x => d ∈ analyze (self e) (now e) h x a s end). by rewrite <-Hp. }
    clear Hd Hp. cbn [analyze DiskFill.analyzer] in Hd'. apply list_elem_of_omap in Hd' as (y & _ & Hy).
    pose proof Hy as Hkey. apply disk_draft_Some in Hkey as [Hkey _]; [|done].
    unfold draft_key in Hkey. injection Hkey as _ Hkey. rewrite Hkey in Hsc.
    assert (DiskFill.mount y = m) as Hm by (unfold scope_of in Hsc; by injection Hsc).
    unfold disk_draft in Hy. destruct (negb _ || _); [done|]. rewrite Hm in Hy.
    destruct (samples m DiskFill.METRIC h) as [l|] eqn:Hs; [|done].
    change ((v ← compute_verdict l (DiskFill.used_pct y) FILL_TARGET_PCT;
             Some (DiskFill.build_proposal y (scope_of (self e) m) v)) = Some d) in Hy.
    unfold compute_verdict in Hy. specialize (Hl l eq_refl). apply Nat.ltb_lt in Hl. rewrite Hl in Hy. done.
  - assert (d ∈ analyze (self e) (now e) h (containers f) a s) as Hd'.
    { change (match probe (containers f) with probe x => d ∈ analyze (self e) (now e) h x a s end). by rewrite <-Hp. }
    cbn [analyze ContainerDisk.analyzer] in Hd'. apply list_elem_of_omap in Hd' as (y & _ & Hy).
    apply disk_draft_Some in Hy as [Hy _]; [|done]. unfold draft_key in Hy. injection Hy as Hy _.
    rewrite Hy in Hft. by destruct (ContainerDisk.runtime y).
  - assert (d ∈ analyze (self e) (now e) h (restarts f) a s) as Hd'.
    { change (match probe (restarts f) with probe x => d ∈ analyze (self e) (now e) h x a s end). by rewrite <-Hp. }
    cbn [analyze ContainerRestart.analyzer] in Hd'. apply list_elem_of_omap in Hd' as (y & _ & Hy).
    unfold ContainerRestart.draft in Hy. destruct (silenced _ _ _ _); [done|].
    apply bind_Some in Hy as (v & _ & [= <-]). done.
  - rewrite Forall_forall in Ho. specialize (Ho _ Hp). cbn in Ho. by apply Ho in Hd.
Qed.

(** One failed reading of the disks clears every disk finding.  If [df]
    times out once while another sampler answers, the trend of every mount is
    forgotten; the next tick reads the mount again, has too few samples to
    judge it, and marks the pending finding ConditionCleared, however full
    the disk is. *)
Theorem outage_clears_findings e1 e2 f1 f2 n p m x :
  unique (proposals n) → p ∈ proposals n → status p = Pending →
  dedup_key p = (DiskFill.FINDING_TYPE, scope_of (self e2) m) → now e2 - ORPHAN_FUSE_DAYS * DAY ≤ last_alive p →
  no_data f1 = false → m ∉ live_resources f1 →
  x ∈ disks f2 → DiskFill.mount x = m → NoDup (DiskFill.mount <$> disks f2) →
  m ∉ (λ c, ContainerDisk.resource_id (ContainerDisk.runtime c) (ContainerDisk.name c)) <$> containers f2 →
  m ∉ ContainerRestart.resource <$> restarts f2 → Forall minds_other_things (others f2) →
  let a := length (ticks n) in
  let n' := run ([(e1, BeginTick f1); (e1, RunTick a); (e2, BeginTick f2)] ++ replicate 8 (e2, RunTick (S a))) n in
  ∃ q, q ∈ proposals n' ∧ same_finding p q ∧ status q = Approved (now e2) ConditionCleared.
Proof.
  intros Hu Hp Hpend Hk Halive Hd1 Hm1 Hx Hm Hnd Hc Hr Ho a n'.
  set (n1 := (step (e1, BeginTick f1) n).2).
  assert (ticks n1 !! a = Some (Sampled f1)) as Ha by (cbn; by apply list_lookup_middle).
  destruct (run_tick_fields e1 a n1 _ Ha) as (_ & P2 & M2). rewrite Hd1 in M2.
  set (n2 := (step (e1, RunTick a) n1).2) in *. cbn [tick_change] in P2.
  assert (length (ticks n2) = S a) as Hlen.
  { unfold n2. cbn [InboxNode.step snd]. unfold run_tick. rewrite Ha.
    pose proof (step_tick_ticks fmt_time e1 (Sampled f1) n1) as Ht. destruct (step_tick _ _ _ _) as [t' n2'].
    cbn [snd] in Ht. cbn. rewrite length_insert, Ht. cbn. rewrite length_app. cbn. unfold a. lia. }
  set (n3 := (step (e2, BeginTick f2) n2).2).
  assert (ticks n3 !! S a = Some (Sampled f2)) as Hb.
  { cbn. rewrite <-Hlen. by apply list_lookup_middle. }
  assert (no_data f2 = false) as Hd2.
  { unfold no_data. destruct (disks f2) as [|d0 ds]; [by apply not_elem_of_nil in Hx|done]. }
  destruct (tick_to_analysis e2 (S a) f2 n3 Hb Hd2) as (ak & Hj & Hpr).
  set (n4 := run (replicate 6 (e2, RunTick (S a))) n3) in *.
  assert (n' = run [(e2, RunTick (S a)); (e2, RunTick (S a))] n4) as ->.
  { unfold n', n4. change (replicate 8 ?y) with (replicate 6 y ++ [y; y]). by rewrite app_assoc, !inbox_run_app. }
  assert (proposals n3 = proposals n) as Hp3 by (change (proposals n3) with (proposals n2); by rewrite P2).
  assert (p ∈ proposals n4) as Hp4.
  { rewrite Hpr, Hp3. pose proof (sweep_elem fmt_time e2 (proposals n) p Hp) as H.
    replace (orphaned (now e2) (self e2) ORPHAN_FUSE_DAYS p) with false in H.
    - apply H. unfold kept. by rewrite Hpend.
    - symmetry. unfold orphaned, foreign. injection Hk as _ Hsc. rewrite Hsc. cbn [scope_of node_id].
      rewrite (bool_decide_true (self e2 = self e2)) by done. cbn [negb]. rewrite andb_false_r. cbn [orb].
      assert ((last_alive p <? now e2 - ORPHAN_FUSE_DAYS * DAY) = false) as -> by (apply Z.ltb_ge; lia).
      apply andb_false_r. }
  eapply (finish_clears e2 e2 (S a) f2 _ ak _ n4 p); [|done|done|exact Hj| |].
  - rewrite Hpr, Hp3. by apply sweep_unique.
  - rewrite Hk. unfold covered_by. apply list_elem_of_bind. exists (probe (disks f2)).
    split; [|by left]. cbn [covered_scopes DiskFill.analyzer]. apply list_elem_of_fmap. exists x. by rewrite Hm.
  - rewrite Hk. apply few_samples_silent; [done|]. intros l Hl.
    rewrite (one_sample (now e2) f2 _ m x) in Hl by
      (try done; change (metrics n3) with (metrics n2); rewrite M2, record_metrics_lookup; by rewrite bool_decide_false).
    injection Hl as <-. cbn. unfold MIN_SAMPLES. lia.
Qed.
(** ** A lost page *)

(** A dash, three bytes, that begins one or two bytes before the cut. *)
Lemma slice_inside_dash {E} a b (k : nat) :
  (k = S (String.length a) ∨ k = S (S (String.length a))) → @slice_to E k (a +:+ "—" +:+ b) = Panic.
Proof.
  intros Hn. unfold slice_to, is_char_boundary.
  assert (∀ m, String.get (m + String.length a) (a +:+ "—" +:+ b) = String.get m ("—" +:+ b)) as Hget.
  { intros m. symmetry. apply String.append_correct2. }
  destruct Hn as [-> | ->].
  - change (S (String.length a)) with (1 + String.length a)%nat. by rewrite Hget.
  - change (S (S (String.length a))) with (2 + String.length a)%nat. by rewrite Hget.
Qed.

(** The lengths that put the dash of a restart loop's explanation across byte
    480. *)
Definition unlucky (f : ContainerRestart.RestartFact) (v : ContainerRestart.Verdict) : Prop :=
  let l := (String.length (ContainerRestart.name f) + String.length (ContainerRestart.image f)
            + String.length (ContainerRestart.state f)
            + String.length (pretty (ContainerRestart.rapid_delta v))
            + String.length (pretty (ContainerRestart.sustained_delta v)))%nat in
  l = 264%nat ∨ l = 265%nat.

Lemma unlucky_panics f v sc i t :
  unlucky f v → format_for_channel (new_rule i t (ContainerRestart.build_proposal f sc v)) = Panic.
Proof.
  intros Hu. unfold format_for_channel. cbn [new_rule why ContainerRestart.build_proposal d_why].
  set (w := "Docker container '" +:+ _).
  assert (∃ a b, w = a +:+ "—" +:+ b ∧ (480 = S (String.length a) ∨ 480 = S (S (String.length a)))%nat) as (a & b & -> & Hl).
  { exists ("Docker container '" +:+ ContainerRestart.name f +:+ "' (image '" +:+ ContainerRestart.image f
            +:+ "') has incremented its RestartCount by " +:+ pretty (ContainerRestart.rapid_delta v)
            +:+ " in the last 10 minutes (and " +:+ pretty (ContainerRestart.sustained_delta v)
            +:+ " in the last 30 minutes). Current state: " +:+ ContainerRestart.state f
            +:+ ". Sustained restart loops indicate a service that's failing to start cleanly ").
    exists (" common causes: misconfigured environment, missing volume mount, an upstream dependency that "
            +:+ "isn't ready, or a crashing entrypoint."). split.
    - unfold w. rewrite !string_app_assoc. by repeat f_equal.
    - unfold unlucky in Hu. rewrite !length_str_app. cbn [String.length]. lia. }
  assert (480 <? Z.of_nat (String.length (a +:+ "—" +:+ b)) = true) as ->.
  { apply Z.ltb_lt. rewrite !length_str_app. cbn [String.length]. lia. }
  by rewrite slice_inside_dash.
Qed.

Lemma pending_not_alerted e snap new cov em van n p q :
  p ∈ snap → status p = Pending → q ∈ alerted (commit e snap new cov em van n) →
  dedup_key q = dedup_key p → q ∈ alerted n.
Proof.
  intros Hp Hpend. unfold commit. destruct (auto_resolve_cleared _ _ _ _) as [s c].
  destruct (resolve_vanished _ _ s) as [s' c']. set (n' := if _ || _ then _ else _).
  assert (alerted n' = alerted n) as Ha.
  { unfold n', save_proposals. destruct (_ || _); [|done]. by destruct (writes e). }
  cbn. rewrite Ha. intros [Hq|Hq]%elem_of_app Hk; [|done]. exfalso.
  unfold find_first_appearance_alerts in Hq. apply elem_of_retain in Hq as [_ Hq].
  apply andb_true_iff in Hq as [_ Hq%negb_true_iff]. unfold listed in Hq. apply bool_decide_eq_false in Hq.
  apply Hq. rewrite Hk. apply list_elem_of_fmap_2, elem_of_retain. split; [done|]. by apply is_pending_true.
Qed.

(** A page can be lost for good.  A restart loop whose names and numbers
    happen to have 264 or 265 bytes together has an explanation that is cut
    inside a character: formatting its page panics, nothing is sent whatever
    channels are set up, and as the finding is pending from then on, no tick
    that finds it pending pages it again. *)
Theorem page_lost f v sc i t delivery e snap new cov em van n p q :
  unlucky f v →
  let raised := new_rule i t (ContainerRestart.build_proposal f sc v) in
  dispatch_alerts delivery [raised] = [] ∧
  (p ∈ snap → dedup_key p = dedup_key raised → status p = Pending →
   q ∈ alerted (commit e snap new cov em van n) → dedup_key q = dedup_key raised → q ∈ alerted n).
Proof.
  intros Hu raised. split.
  - unfold dispatch_alerts. destruct delivery; [|done]. cbn [omap list_omap]. unfold raised. by rewrite unlucky_panics.
  - intros Hp Hk Hpend Hq Hkq. apply (pending_not_alerted e snap new cov em van n p q); [done..|]. by rewrite Hk.
Qed.

(** The stores are written in place and the outcome is not looked at: a
    dismissal whose save is cut short (a full disk will do) is answered with
    success, and after the next start every finding, dismissal and snooze of
    the node is gone. *)
Theorem cut_save_forgets e e' caller i reason n :
  writes e = CutShort → (step (e, Dismiss caller i reason) n).1 = ROk →
  proposals (run [(e, Dismiss caller i reason); (e', Restart)] n) = [].
Proof.
  intros Hw. cbn. unfold proposal_dismiss, with_proposals. destruct (bool_decide (trim reason = "")); [done|].
  destruct (dismiss _ _ _ _); [|unfold elsewhere; by destruct (is_inter_node_forward _)].
  intros _. cbn. unfold rewritten. by rewrite Hw.
Qed.
End Faults.

(** ** At concrete inputs *)
Module Toy.
Definition env (t : Z) : Env :=
  {| now := t; self := "n1"; writes := Stored; draw := λ _, "u2"; delivery := true |}.
Definition node (ps : ProposalStore) (ts : list Tick) : InboxNode.Node :=
  {| proposals := ps; acks := []; metrics := ∅; proposals_file := ps; acks_file := []; metrics_file := ∅;
     ticks := ts; applying := []; alerted := []; paged := [] |}.
Definition fmt (t : Z) : string := "then".

(** An address a peer holds too, and the acknowledgement of it. *)
Definition conflict : IpConflict.Facts :=
  {| IpConflict.present := true; IpConflict.self_label := "n1"; IpConflict.self_host_ip := "10.0.0.1";
     IpConflict.local_active := ["10.0.0.9"]; IpConflict.remotes := [];
     IpConflict.peers := [{| IpConflict.address := "10.0.0.9"; IpConflict.hostname := "vpn"; IpConflict.connected := true |}];
     IpConflict.anycast := [] |}.
Definition facts : Facts :=
  {| disks := []; containers := []; restarts := []; others := [probe conflict]; others_usable := true |}.
Definition p0 : Proposal :=
  new_rule "u1" 100 (IpConflict.draft "n1" {| IpConflict.ip := "10.0.0.9"; IpConflict.kind := IpConflict.ShadowedByPeer "vpn" true |}).
Definition ack : Ack := new_ack "a1" 150 IpConflict.FINDING_TYPE Cluster "ours" "paul" None.

Lemma facts_lawful : Forall lawful (probes facts).
Proof. repeat (apply Forall_cons_2; [cbn; apply _|]). apply Forall_nil_2. Qed.

Lemma silence_recorded_as_cleared_witness :
  (draft_key <$> drafts (env 200) facts ∅ [] [p0]) = [dedup_key p0] ∧
  ∃ q, q ∈ proposals (run fmt [(env 200, RunTick 0); (env 201, RunTick 0)] (node [p0] [SawProposals facts ∅ [ack] [p0]])) ∧
       same_finding p0 q ∧ status q = Approved 201 ConditionCleared.
Proof.
  split; [by vm_compute|].
  apply (silence_recorded_as_cleared fmt (env 200) (env 201) 0 facts ∅ [ack] [p0]);
    [refine (bool_decide_unpack _ _); by vm_compute|by left|done|done|apply facts_lawful| |by left; vm_compute].
  refine (bool_decide_unpack _ _). by vm_compute.
Defined.

(** [df] fails at [f1]; at [f2] the disk is nearly full. *)
Definition loop : ContainerRestart.RestartFact :=
  {| ContainerRestart.name := "web"; ContainerRestart.cid := "c"; ContainerRestart.image := "nginx";
     ContainerRestart.state := "running"; ContainerRestart.restart_count := 0 |}.
Definition disk : DiskFill.DiskFact :=
  {| DiskFill.mount := "/data"; DiskFill.fstype := "ext4"; DiskFill.used_pct := f64_of_Z 99;
     DiskFill.total_bytes := 1000; DiskFill.avail_bytes := 10 |}.
Definition f1 : Facts := {| disks := []; containers := []; restarts := [loop]; others := []; others_usable := false |}.
Definition f2 : Facts := {| disks := [disk]; containers := []; restarts := [loop]; others := []; others_usable := false |}.
Definition full : Proposal :=
  new_rule "u1" 100
    {| d_finding_type := DiskFill.FINDING_TYPE; d_severity := Critical; d_title := "/data fills within the hour";
       d_why := ""; d_evidence := []; d_remediation := Manual "" []; d_scope := scope_of "n1" "/data" |}.

Lemma outage_clears_findings_witness :
  ∃ q, q ∈ proposals (run fmt ([(env 200, BeginTick f1); (env 200, RunTick 0); (env 300, BeginTick f2)]
                               ++ replicate 8 (env 300, RunTick 1)) (node [full] []))
       ∧ same_finding full q ∧ status q = Approved 300 ConditionCleared.
Proof.
  apply (outage_clears_findings fmt (env 200) (env 300) f1 f2 (node [full] []) full "/data" disk);
    try (refine (bool_decide_unpack _ _); by vm_compute); try done; apply list_elem_of_singleton; done.
Defined.

Definition long_loop : ContainerRestart.RestartFact :=
  {| ContainerRestart.name := Nat.iter 100 (String "a") ""; ContainerRestart.cid := "c";
     ContainerRestart.image := Nat.iter 152 (String "b") ""; ContainerRestart.state := "restarting";
     ContainerRestart.restart_count := 9 |}.
Definition verdict : ContainerRestart.Verdict :=
  {| ContainerRestart.severity := Critical; ContainerRestart.rapid_delta := 5; ContainerRestart.sustained_delta := 9;
     ContainerRestart.actively_restarting := true |}.
Lemma page_lost_witness :
  dispatch_alerts true [new_rule "u1" 100 (ContainerRestart.build_proposal long_loop (scope_of "n1" "docker:a") verdict)] = [].
Proof.
  destruct (page_lost long_loop verdict (scope_of "n1" "docker:a") "u1" 100 true (env 1) [] [] [] [] [] (node [] [])
              p0 p0) as [H _]; [left; by vm_compute|]. exact H.
Defined.

Lemma cut_save_forgets_witness :
  let n := node [p0] [] in
  let full := {| now := 100; self := "n1"; writes := CutShort; draw := λ _, "u2"; delivery := true |} in
  proposals (run fmt [(full, Dismiss "paul" (id p0) "ours"); (env 200, Restart)] n) = [].
Proof. intros n full. apply (cut_save_forgets fmt full (env 200)); by vm_compute. Defined.
End Toy.
