(* ===== verification/Backup.v ===== *)
(** * Backups: schedules, the index, retention

    backup/mod.rs.  Making an archive and carrying it to its destination are
    commands of the system; what they leave is an [Attempt], and the files and
    snapshots an operation removes are a list of [Effect]s. *)
From S2P Require Import Prelude Net.

(** ** Data *)
Inductive BackupTargetType := Docker | Lxc | Vm | Config | SystemPath.
#[export] Instance BackupTargetType_eq_dec : EqDecision BackupTargetType.
Proof. solve_decision. Defined.
(** [{:?}] *)
Definition debug_type (t : BackupTargetType) : string :=
  match t with Docker => "Docker" | Lxc => "Lxc" | Vm => "Vm" | Config => "Config" | SystemPath => "SystemPath" end.

Record BackupTarget := mk_target {
  target_type : BackupTargetType; t_name : string; t_hostname : option string;
  exclude_mounts : list string; system_path : string; compose_project : option string;
  stop_for_backup : bool; keep_running : bool
}.
Definition target (k : BackupTargetType) (name : string) : BackupTarget :=
  mk_target k name None [] "" None false false.
#[export] Instance BackupTarget_eq_dec : EqDecision BackupTarget.
Proof. solve_decision. Defined.
#[export] Instance eta_BackupTarget : Eta BackupTarget := λ t,
  mk_target (target_type t) (t_name t) (t_hostname t) (exclude_mounts t) (system_path t) (compose_project t)
    (stop_for_backup t) (keep_running t).

Inductive StorageType := Local | S3 | Remote | Wolfdisk | Pbs | Nfs | Smb.
#[export] Instance StorageType_eq_dec : EqDecision StorageType.
Proof. solve_decision. Defined.

Record BackupStorage := mk_storage {
  storage_type : StorageType; st_path : string;
  bucket : string; region : string; endpoint : string; access_key : string; secret_key : string;
  remote_url : string;
  pbs_server : string; pbs_datastore : string; pbs_user : string; pbs_token_name : string;
  pbs_token_secret : string; pbs_password : string; pbs_fingerprint : string; pbs_namespace : string;
  pbs_target_id : string; pbs_file_level : bool; pbs_file_level_set : bool;
  nfs_source : string; nfs_options : string;
  smb_source : string; smb_subpath : string; smb_username : string; smb_password : string; smb_domain : string;
  smb_options : string;
  wolfdisk_subpath : string
}.
Definition default_storage : BackupStorage :=
  mk_storage Local "" "" "" "" "" "" "" "" "" "" "" "" "" "" "" "" false false "" "" "" "" "" "" "" "" "".
#[export] Instance BackupStorage_eq_dec : EqDecision BackupStorage.
Proof. solve_decision. Defined.
#[export] Instance eta_BackupStorage : Eta BackupStorage := λ s,
  mk_storage (storage_type s) (st_path s) (bucket s) (region s) (endpoint s) (access_key s) (secret_key s)
    (remote_url s) (pbs_server s) (pbs_datastore s) (pbs_user s) (pbs_token_name s) (pbs_token_secret s)
    (pbs_password s) (pbs_fingerprint s) (pbs_namespace s) (pbs_target_id s) (pbs_file_level s)
    (pbs_file_level_set s) (nfs_source s) (nfs_options s) (smb_source s) (smb_subpath s) (smb_username s)
    (smb_password s) (smb_domain s) (smb_options s) (wolfdisk_subpath s).
Definition local (path : string) : BackupStorage := default_storage <| st_path := path |>.

Inductive BackupFrequency := Daily | Weekly | Monthly.
Record BackupSchedule := mk_schedule {
  s_id : string; s_name : string; frequency : BackupFrequency; time : string; retention : Z;
  backup_all_targets : bool; targets : list BackupTarget; s_storage : BackupStorage; enabled : bool;
  last_run : string; s_created_at : string; pre_command : string; post_command : string;
  day_of_week : option Z; day_of_month : option Z; stop_containers : bool; keep_vms_running : bool
}.
#[export] Instance eta_BackupSchedule : Eta BackupSchedule := λ s,
  mk_schedule (s_id s) (s_name s) (frequency s) (time s) (retention s) (backup_all_targets s) (targets s)
    (s_storage s) (enabled s) (last_run s) (s_created_at s) (pre_command s) (post_command s) (day_of_week s)
    (day_of_month s) (stop_containers s) (keep_vms_running s).

Inductive BackupStatus := Completed | Failed | InProgress.
#[export] Instance BackupStatus_eq_dec : EqDecision BackupStatus.
Proof. solve_decision. Defined.

Record MountInfo := mk_mount {
  mount_type : string; m_source : string; destination : string; archive_path : string; m_size : Z;
  skipped_reason : string; warning : string
}.
#[export] Instance MountInfo_eq_dec : EqDecision MountInfo.
Proof. solve_decision. Defined.
Record BackupEntry := mk_entry {
  e_id : string; e_target : BackupTarget; e_storage : BackupStorage; filename : string; size_bytes : Z;
  created_at : string; status : BackupStatus; error : string; schedule_id : string; comments : string;
  node_hostname : string; docker_config : string; mounts : list MountInfo
}.
#[export] Instance BackupEntry_eq_dec : EqDecision BackupEntry.
Proof. solve_decision. Defined.
#[export] Instance eta_BackupEntry : Eta BackupEntry := λ e,
  mk_entry (e_id e) (e_target e) (e_storage e) (filename e) (size_bytes e) (created_at e) (status e) (error e)
    (schedule_id e) (comments e) (node_hostname e) (docker_config e) (mounts e).

Record BackupConfig := mk_config { schedules : list BackupSchedule; entries : list BackupEntry }.
#[export] Instance eta_BackupConfig : Eta BackupConfig := λ c, mk_config (schedules c) (entries c).

(** ** Destinations *)

(** [trim_end_matches] and [trim_matches] of one character. *)
Fixpoint trim_end_char (x : ascii) (s : string) : string :=
  match s with
  | EmptyString => ""
  | String c s => match trim_end_char x s with
                  | EmptyString => if bool_decide (c = x) then "" else String c ""
                  | s' => String c s'
                  end
  end.
Fixpoint trim_start_char (x : ascii) (s : string) : string :=
  match s with String c s' => if bool_decide (c = x) then trim_start_char x s' else s | EmptyString => "" end.
Definition trim_char (x : ascii) (s : string) : string := trim_end_char x (trim_start_char x s).

Definition plain_segment (s : string) : bool := bool_decide (s ∉ [""; "."; ".."]).
Definition resolved_local_path (s : BackupStorage) : string :=
  let base := trim_end_char "/" (st_path s) in
  if negb (bool_decide (storage_type s = Wolfdisk)) then st_path s else
  let raw := trim_char "/" (trim (wolfdisk_subpath s)) in
  if bool_decide (raw = "") then base else
  let safe := retain plain_segment (split_on "/" raw) in
  if bool_decide (safe = []) then base else base +:+ "/" +:+ join "/" safe.

Definition with_concrete_local (default_dir : string) (s : BackupStorage) : BackupStorage :=
  if bool_decide (storage_type s = Local) && bool_decide (trim (st_path s) = "") then s <| st_path := default_dir |> else s.

Inductive SubpathError := EmptySegment | ParentSegment | DotSegment.
Fixpoint check_segments (l : list string) : res SubpathError () :=
  match l with
  | [] => Ok ()
  | seg :: l =>
      if bool_decide (seg = "") then Err EmptySegment else
      if bool_decide (seg = "..") then Err ParentSegment else
      if bool_decide (seg = ".") then Err DotSegment else check_segments l
  end.
Definition validate_wolfdisk_subpath (sub : string) : res SubpathError () :=
  let s := trim_char "/" (trim sub) in
  if bool_decide (s = "") then Ok () else check_segments (split_on "/" s).

(** Where an NFS or SMB destination is mounted. *)
Definition underscored (c : ascii) : ascii :=
  if bool_decide (c ∈ ["/"%char; ":"%char; "\"%char; " "%char]) then "_"%char else c.
Fixpoint map_chars (f : ascii → ascii) (s : string) : string :=
  match s with EmptyString => "" | String c s => String (f c) (map_chars f s) end.
Definition nas_mount_dir (kind source subpath : string) : string :=
  let p := "/mnt/wolfstack-backup/" +:+ kind +:+ "-" +:+ map_chars underscored source in
  if bool_decide (subpath = "") then p else p +:+ "/" +:+ trim_char "/" subpath.

(** ** PBS: repositories and groups *)
Definition pbs_repo_string (s : BackupStorage) : string :=
  let user := trim (pbs_user s) in
  let token := trim (pbs_token_name s) in
  let principal :=
    if bool_decide (token = "") then user
    else if contains_char "!" token || contains_char "@" token then token
    else if contains_char "!" user then user
    else user +:+ "!" +:+ token in
  principal +:+ "@" +:+ pbs_server s +:+ ":" +:+ pbs_datastore s.

Definition archive_char (c : ascii) : ascii :=
  if is_ascii_alphanumeric c || bool_decide (c ∈ ["-"%char; "_"%char; "."%char]) then c else "_"%char.
(** A character beyond ASCII is one character, however many bytes it has. *)
Fixpoint sanitize_archive_name (s : string) : string :=
  match s with
  | EmptyString => ""
  | String c s => if continues c then sanitize_archive_name s else String (archive_char c) (sanitize_archive_name s)
  end.

Definition is_stamp (part : string) : bool :=
  bool_decide (String.length part = 8%nat) && all_chars (char_between 48 57) part.
(** The parts before the first that looks like a date. *)
Fixpoint before_stamp (parts : list string) : option (list string) :=
  match parts with
  | [] => None
  | p :: parts => if is_stamp p then Some [] else cons p <$> before_stamp parts
  end.
Definition extract_backup_id_from_filename (f : string) : string :=
  if String.prefix "vzdump-lxc-" f || String.prefix "vzdump-qemu-" f then
    before "-" (default "" ('(_, r) ← split_once "-" f; '(_, r) ← split_once "-" r; Some r))
  else match split_once "-" f with
  | Some (_, rest) =>
      let parts := split_on "-" rest in
      match before_stamp parts with Some ps => join "-" ps | None => default "" (head parts) end
  | None => before "." f
  end.
Definition pbs_backup_type_for_filename (f : string) : string :=
  if existsb (λ p, String.prefix p f) ["vzdump-lxc-"; "lxc-"; "vzdump-docker-"; "docker-"] then "ct"
  else if existsb (λ p, String.prefix p f) ["vm-"; "vzdump-qemu-"] then "vm" else "host".
Definition pbs_group_for_filename (f : string) : string :=
  pbs_backup_type_for_filename f +:+ "/" +:+ extract_backup_id_from_filename f.

Definition config_archive_node_id (hostname : string) : string :=
  let host := sanitize_archive_name hostname in
  let host := if bool_decide (host = "") then "unknown" else host in
  if is_stamp host then host +:+ "n" else host.
(** The names of the archives; [disc]: the first bytes of the path's hash in
    hex, [stamp]: %Y%m%d-%H%M%S. *)
Definition config_archive (hostname stamp : string) : string :=
  "config-" +:+ config_archive_node_id hostname +:+ "-" +:+ stamp +:+ ".tar.gz".
Definition docker_archive (name stamp : string) : string := "docker-" +:+ name +:+ "-" +:+ stamp +:+ ".tar.gz".
Definition lxc_archive (name stamp : string) : string := "lxc-" +:+ name +:+ "-" +:+ stamp +:+ ".tar.gz".
Definition vm_archive (name stamp : string) : string := "vm-" +:+ name +:+ "-" +:+ stamp +:+ ".tar.gz".

(** [Path::file_name]: the last component, unless that is [..]. *)
Definition path_file_name (p : string) : option string :=
  name ← last (retain (λ c, bool_decide (c ≠ "") && bool_decide (c ≠ ".")) (split_on "/" p));
  if bool_decide (name = "..") then None else Some name.

Definition PBS_FILE_LEVEL_PREFIX : string := "pbsfl-".
Definition config_pxar_backup_id (hostname : string) : string := sanitize_archive_name ("wolfstack-config-" +:+ hostname).
Definition is_pbs_file_level_entry (e : BackupEntry) : bool :=
  bool_decide (storage_type (e_storage e) = Pbs) && String.prefix PBS_FILE_LEVEL_PREFIX (filename e).
Definition pbs_file_level_type_and_id (e : BackupEntry) : string * string :=
  let t := e_target e in
  (match target_type t with SystemPath | Config => "host" | _ => "ct" end,
   match target_type t with
   | SystemPath => sanitize_archive_name
       (if bool_decide (trim (t_name t) = "") then default "folder" (path_file_name (trim_end_char "/" (system_path t)))
        else trim (t_name t))
   | Config => config_pxar_backup_id (node_hostname e)
   | _ => t_name t
   end).
Definition pbs_group_for_entry (e : BackupEntry) : string :=
  if is_pbs_file_level_entry e
  then let '(t, id) := pbs_file_level_type_and_id e in t +:+ "/" +:+ id
  else pbs_group_for_filename (filename e).

(** ** PBS: saved connections *)
Record PbsTarget := mk_pbs_target {
  pt_id : string; pt_name : string;
  pt_server : string; pt_datastore : string; pt_user : string; pt_token_name : string; pt_token_secret : string;
  pt_password : string; pt_fingerprint : string; pt_namespace : string;
  pt_file_level : bool; pt_file_level_set : bool
}.
(** [if x.is_empty() { x = y }] *)
Definition or_else (x y : string) : string := if bool_decide (x = "") then y else x.
Definition apply_pbs_target (s : BackupStorage) (t : PbsTarget) : BackupStorage :=
  let s := s <| pbs_server := or_else (pbs_server s) (pt_server t) |>
             <| pbs_datastore := or_else (pbs_datastore s) (pt_datastore t) |>
             <| pbs_user := or_else (pbs_user s) (pt_user t) |>
             <| pbs_token_name := or_else (pbs_token_name s) (pt_token_name t) |>
             <| pbs_token_secret := or_else (pbs_token_secret s) (pt_token_secret t) |>
             <| pbs_password := or_else (pbs_password s) (pt_password t) |>
             <| pbs_fingerprint := or_else (pbs_fingerprint s) (pt_fingerprint t) |>
             <| pbs_namespace := or_else (pbs_namespace s) (pt_namespace t) |> in
  if negb (pbs_file_level_set s) && pt_file_level_set t
  then s <| pbs_file_level := pt_file_level t |> <| pbs_file_level_set := true |> else s.
Definition resolve_pbs_file_level (explicitly_set requested saved : bool) : bool :=
  if negb explicitly_set && negb requested then saved else requested.
(** [saved]: the primary connection, [all]: the further destinations. *)
Definition merge_pbs_secrets (saved : BackupStorage) (all : list PbsTarget) (s : BackupStorage) : BackupStorage :=
  if negb (bool_decide (storage_type s = Pbs)) then s else
  let fill s :=
    s <| pbs_server := or_else (pbs_server s) (pbs_server saved) |>
      <| pbs_datastore := or_else (pbs_datastore s) (pbs_datastore saved) |>
      <| pbs_user := or_else (pbs_user s) (pbs_user saved) |>
      <| pbs_token_name := or_else (pbs_token_name s) (pbs_token_name saved) |>
      <| pbs_token_secret := or_else (pbs_token_secret s) (pbs_token_secret saved) |>
      <| pbs_password := or_else (pbs_password s) (pbs_password saved) |>
      <| pbs_fingerprint := or_else (pbs_fingerprint s) (pbs_fingerprint saved) |>
      <| pbs_namespace := or_else (pbs_namespace s) (pbs_namespace saved) |>
      <| pbs_file_level := resolve_pbs_file_level (pbs_file_level_set s) (pbs_file_level s) (pbs_file_level saved) |> in
  if bool_decide (pbs_target_id s = "") then fill s else
  match List.find (λ t, bool_decide (pt_id t = pbs_target_id s)) all with
  | Some t => fill (apply_pbs_target s t)
  | None => s <| pbs_server := "" |> <| pbs_datastore := "" |>
  end.

(** ** Servers and credentials *)
Record BackupServerRef := mk_server_ref { server : string; datastore : string }.
(** [split("://").last()] *)
Fixpoint after_last (needle : string) (s : string) : string :=
  match s with
  | EmptyString => ""
  | String _ s' =>
      if contains_str needle s then (if String.prefix needle s && negb (contains_str needle s')
                                     then str_drop (String.length needle) s else after_last needle s')
      else s
  end.
Definition host_of (field : string) : string :=
  let s := before "/" (after_last "://" (trim field)) in
  let s := match rsplit_once "@" s with Some (_, r) => r | None => s end in
  let s := if String.prefix "[" s then trim_start_char "[" (before "]" s) else before ":" s in
  to_ascii_lowercase (trim s).
Definition storage_references_server (s : BackupStorage) (t : BackupServerRef) : bool :=
  let want := host_of (server t) in
  if bool_decide (want = "") then false else
  let hosts := [host_of (pbs_server s); host_of (endpoint s); host_of (remote_url s);
                host_of (trim_start_char "/" (st_path s))] in
  if negb (existsb (λ h, negb (bool_decide (h = "")) && bool_decide (h = want)) hosts) then false else
  if bool_decide (datastore t = "") then true else
  let ds := to_ascii_lowercase (trim (datastore t)) in
  existsb (λ f, bool_decide (to_ascii_lowercase (trim f) = ds)) [pbs_datastore s; bucket s].

(** secrets.rs: the fields whose names are those of credentials. *)
Definition is_secret_field (name : string) : bool :=
  let lower := to_ascii_lowercase name in
  if negb (String.length lower <? 5)%nat && bool_decide (str_drop (String.length lower - 5) lower = "_name") then false else
  existsb (λ w, contains_str w lower) ["pass"; "secret"; "token"; "key"].
Definition scrub (name v : string) : string := if is_secret_field name then "" else v.
(** Through its JSON object, field by field under its own name. *)
Definition scrub_storage_secrets (s : BackupStorage) : BackupStorage :=
  mk_storage (storage_type s) (scrub "path" (st_path s)) (scrub "bucket" (bucket s)) (scrub "region" (region s))
    (scrub "endpoint" (endpoint s)) (scrub "access_key" (access_key s)) (scrub "secret_key" (secret_key s))
    (scrub "remote_url" (remote_url s)) (scrub "pbs_server" (pbs_server s)) (scrub "pbs_datastore" (pbs_datastore s))
    (scrub "pbs_user" (pbs_user s)) (scrub "pbs_token_name" (pbs_token_name s))
    (scrub "pbs_token_secret" (pbs_token_secret s)) (scrub "pbs_password" (pbs_password s))
    (scrub "pbs_fingerprint" (pbs_fingerprint s)) (scrub "pbs_namespace" (pbs_namespace s))
    (scrub "pbs_target_id" (pbs_target_id s)) (pbs_file_level s) (pbs_file_level_set s)
    (scrub "nfs_source" (nfs_source s)) (scrub "nfs_options" (nfs_options s)) (scrub "smb_source" (smb_source s))
    (scrub "smb_subpath" (smb_subpath s)) (scrub "smb_username" (smb_username s)) (scrub "smb_password" (smb_password s))
    (scrub "smb_domain" (smb_domain s)) (scrub "smb_options" (smb_options s)) (scrub "wolfdisk_subpath" (wolfdisk_subpath s)).

(** ** Removing stored backups *)
Inductive Effect :=
| RemoveFile (dir file : string)
| DeleteObject (s : BackupStorage) (file : string)
| DeleteRemote (url file : string)
| PruneGroup (repo namespace group : string) (keep : Z).

(** [mount]: where a network share is mounted, if it can be. *)
Definition delete_backup_file (mount : BackupStorage → option string) (e : BackupEntry) : list Effect :=
  let s := e_storage e in
  match storage_type s with
  | Local | Wolfdisk => [RemoveFile (resolved_local_path s) (filename e)]
  | Nfs | Smb => match mount s with Some dir => [RemoveFile dir (filename e)] | None => [] end
  | S3 => [DeleteObject s (filename e)]
  | Remote => [DeleteRemote (remote_url s) (filename e)]
  | Pbs => []
  end.

(** ** Retention *)
Definition retention_target_key (e : BackupEntry) : string :=
  debug_type (target_type (e_target e)) +:+ String "001"%char (t_name (e_target e)).
Definition counts (sid : string) (e : BackupEntry) : bool :=
  bool_decide (schedule_id e = sid) && bool_decide (status e = Completed).

Section Retention.
Context {OL : HashOrder (list nat)}.

Definition by_target (sid : string) (es : list BackupEntry) : gmap string (list nat) :=
  foldl (λ m '(i, e), if counts sid e
                      then <[retention_target_key e := default [] (m !! retention_target_key e) ++ [i]]> m else m)
    ∅ (enumerate es).

(** The order of [sort_by] that puts the newest first; the indices are
    those of entries. *)
Definition created (es : list BackupEntry) (i : nat) : string := default "" (created_at <$> es !! i).
Definition newest_first (es : list BackupEntry) : list nat → list nat :=
  sort_by (λ a b, bool_decide (String.le (created es b) (created es a))).
Definition past_retention (keep : nat) (es : list BackupEntry) (idxs : list nat) : list nat :=
  let idxs := newest_first es idxs in if (keep <? length idxs)%nat then drop keep idxs else [].
(** [dedup]: of neighbours. *)
Fixpoint dedup_neighbours (l : list nat) : list nat :=
  match l with
  | a :: l' => match l' with
               | b :: _ => if bool_decide (a = b) then dedup_neighbours l' else a :: dedup_neighbours l'
               | [] => [a]
               end
  | [] => []
  end.
Definition to_remove (sid : string) (keep : nat) (es : list BackupEntry) : list nat :=
  dedup_neighbours (sort_by (λ a b, (b <=? a)%nat)
    (concat ((λ kv, past_retention keep es kv.2) <$> hm_iter (by_target sid es)))).

(** [Vec::remove] panics out of range. *)
Fixpoint remove_each {E} (mount : BackupStorage → option string) (idxs : list nat) (es : list BackupEntry) :
    res E (list BackupEntry * list Effect) :=
  match idxs with
  | [] => Ok (es, [])
  | i :: idxs =>
      e ← or_panic (es !! i);
      '(es, fx) ← remove_each mount idxs (delete i es);
      Ok (es, delete_backup_file mount e ++ fx)
  end.

(** The largest retention of the schedules that own snapshots in the group. *)
Definition in_group (repo group : string) (e : BackupEntry) : bool :=
  bool_decide (storage_type (e_storage e) = Pbs) && bool_decide (status e = Completed)
  && bool_decide (pbs_group_for_entry e = group) && bool_decide (pbs_repo_string (e_storage e) = repo).
Definition pbs_group_keep_count (c : BackupConfig) (repo group : string) (own : Z) : Z :=
  foldl Z.max own
    (omap (λ e, retention <$> List.find (λ s, bool_decide (s_id s = schedule_id e)) (schedules c))
       (retain (in_group repo group) (entries c))).

Definition add_group (groups : list (string * string * BackupStorage)) (e : BackupEntry) :
    list (string * string * BackupStorage) :=
  let g := pbs_group_for_entry e in
  let r := pbs_repo_string (e_storage e) in
  if existsb (λ '(r', g', _), bool_decide (r' = r) && bool_decide (g' = g)) groups then groups
  else groups ++ [(r, g, e_storage e)].
Definition prune_pbs_groups_for_schedule (c : BackupConfig) (sid : string) (keep : Z) : list Effect :=
  if keep =? 0 then [] else
  let mine := retain (λ e, counts sid e && bool_decide (storage_type (e_storage e) = Pbs)) (entries c) in
  (λ '(r, g, s), PruneGroup r (pbs_namespace s) g (pbs_group_keep_count c r g keep)) <$> foldl add_group [] mine.

Definition prune_schedule_backups {E} (mount : BackupStorage → option string) (sid : string) (keep : Z) (c : BackupConfig) :
    res E (BackupConfig * list Effect) :=
  '(es, fx) ← remove_each mount (to_remove sid (Z.to_nat keep) (entries c)) (entries c);
  let c := c <| entries := es |> in
  Ok (c, fx ++ prune_pbs_groups_for_schedule c sid keep).
End Retention.
