(* ===== verification/BackupRun.v ===== *)
(** * Backups: when schedules are due, what their runs do, and the index file

    backup/mod.rs.  Every operation reads the index, works (an archive can
    take hours), and writes back the index it read with its changes; other
    operations run in between.  An operation is therefore begun and ended in
    two steps, with the index it read kept in the meantime. *)
From S2P Require Import Prelude Net Backup.

(** ** Dates

    What the code uses of chrono, on nanoseconds since the epoch in UTC. *)
Class Chrono := {
  (** [format("%H:%M")] *)
  hhmm : Z → string;
  (** [format("%Y%m%d-%H%M%S")] *)
  stamp : Z → string;
  date_naive : Z → Z;
  number_from_monday : Z → Z;
  day : Z → Z;
  month : Z → Z;
  year : Z → Z;
  (** [from_ymd_opt(y, m, 1)], [pred_opt], [day] *)
  day_before_first : Z → Z → option Z;
  to_rfc3339 : Z → string;
  parse_from_rfc3339 : string → option Z
}.
Definition DAY_NS : Z := 86400 * SEC.
(** [num_days] of a difference, rounded towards zero. *)
Definition num_days (d : Z) : Z := Z.quot d DAY_NS.
Definition clamp (lo hi x : Z) : Z := Z.max lo (Z.min hi x).

Section Due.
Context `{Chrono}.

Definition days_in_month (y m : Z) : Z :=
  let '(ny, nm) := if m =? 12 then (y + 1, 1) else (y, m + 1) in default 28 (day_before_first ny nm).
Definition effective_day_of_month (dom now : Z) : Z := Z.min (clamp 1 31 dom) (days_in_month (year now) (month now)).

(** Whether the day is pinned, if the schedule may run today. *)
Definition pinned_day (s : BackupSchedule) (now : Z) : option bool :=
  match frequency s with
  | Daily => Some false
  | Weekly => match day_of_week s with
              | Some dow => if negb (number_from_monday now =? clamp 1 7 dow) then None else Some true
              | None => Some false
              end
  | Monthly => match day_of_month s with
               | Some dom => if negb (day now =? effective_day_of_month dom now) then None else Some true
               | None => Some false
               end
  end.
Definition schedule_is_due (s : BackupSchedule) (now : Z) : bool :=
  if negb (enabled s) then false else
  if negb (bool_decide (hhmm now = time s)) then false else
  match pinned_day s now with
  | None => false
  | Some pinned =>
      match parse_from_rfc3339 (last_run s) with
      | None => true
      | Some last =>
          if pinned then negb (date_naive last =? date_naive now) else
          match frequency s with
          | Daily => negb (date_naive last =? date_naive now)
          | Weekly => 7 <=? num_days (now - last)
          | Monthly => negb (month last =? month now) || negb (year last =? year now)
          end
      end
  end.
End Due.

(** ** Making backups *)

(** What making and storing one archive came to.  [a_archive]: the file's
    name, its size, the container's configuration, its mounts, and what tar
    warned of; [a_upload]: of a file-level backup, its type and id. *)
Record Attempt := mk_attempt {
  a_id : string; a_now : Z; a_comments : string;
  a_archive : res string (string * Z * string * list MountInfo * string);
  a_store : res string ();
  a_upload : res string (string * string); a_uploaded : Z
}.
(** [fs::OpenOptions::open] and [write_all]: the second can stop half-way. *)
Inductive SaveResult := Saved | NotOpened | CutOff.
(** What a run finds.  [e_attempt n]: its n-th archive. *)
Record RunEnv := mk_run_env {
  e_clock : Z; e_hook : string → string → string → res string string;
  e_attempt : nat → Attempt; e_hook_id : string → string;
  e_local_dir : string; e_received_dir : string; e_proxmox : bool;
  e_pbs : BackupStorage; e_pbs_targets : list PbsTarget;
  e_docker : option (list string); e_lxc : list (string * string); e_vms : list string + option (list string);
  e_available : list BackupTarget;
  e_mount : BackupStorage → option string;
  e_write : SaveResult;
  e_host : string;
  (** importing: the name the cluster goes by, a fresh id, whether the file
      could be written *)
  e_cluster : string; e_fresh : string; e_file_ok : bool; e_exists : bool; e_unlink_ok : bool
}.

Definition docker_mount_warnings (ms : list MountInfo) : string :=
  join (String LF "") ((λ m, mount_type m +:+ " " +:+ destination m +:+ ": " +:+ warning m)
                         <$> retain (λ m, negb (bool_decide (warning m = ""))) ms).
Definition completed_with_warnings_note (tar_warning : string) : string :=
  if bool_decide (tar_warning = "") then "" else
  "Completed with warnings: files changed while being archived, so this backup is usable but not an exact point-in-time copy."
  +:+ String LF "" +:+ tar_warning.

Section Runs.
Context `{Chrono} {OL : HashOrder (list nat)}.
Implicit Types (e : RunEnv) (c : BackupConfig) (s : BackupSchedule).

Definition pbs_file_level_applies (proxmox : bool) (t : BackupTarget) : bool :=
  match target_type t with Docker | SystemPath | Config => true | Lxc => negb proxmox | Vm => false end.
Definition pbs_file_level_skip_note (proxmox : bool) (t : BackupTarget) (st : BackupStorage) : option string :=
  if negb (bool_decide (storage_type st = Pbs)) || negb (pbs_file_level st) || pbs_file_level_applies proxmox t then None else
  Some ("PBS file-level not applicable: " +:+ match target_type t with
    | Lxc => "Proxmox LXC rootfs is on block storage (ZFS/LVM) — pxar file-level isn't possible, using vzdump image"
    | Vm => "VMs back up as a disk image, not per-file — pxar file-level doesn't apply"
    | _ => "pxar file-level isn't available for this target — using image/tarball backup"
    end).

Definition failed_entry e (a : Attempt) (t : BackupTarget) (st : BackupStorage) (file : string) (size : Z) (why comments : string) :
    BackupEntry :=
  mk_entry (a_id a) t st file size (to_rfc3339 (a_now a)) Failed why "" comments (e_host e) "" [].

Definition create_backup_entry e (a : Attempt) (t : BackupTarget) (st : BackupStorage) : BackupEntry :=
  let st := with_concrete_local (e_local_dir e) st in
  let comments := match pbs_file_level_skip_note (e_proxmox e) t st with
                  | Some note => a_comments a +:+ " | " +:+ note
                  | None => a_comments a
                  end in
  if bool_decide (storage_type st = Pbs) && pbs_file_level st && pbs_file_level_applies (e_proxmox e) t then
    match a_upload a with
    | Ok (btype, bid) =>
        mk_entry (a_id a) t st (PBS_FILE_LEVEL_PREFIX +:+ btype +:+ "-" +:+ bid +:+ "-" +:+ stamp (a_uploaded a) +:+ ".pxar")
          0 (to_rfc3339 (a_now a)) Completed "" "" comments (e_host e) "" []
    | Err why => failed_entry e a t st "" 0 why comments
    | Panic => failed_entry e a t st "" 0 "" comments
    end
  else
    match a_archive a with
    | Ok (file, size, config, ms, tar_warning) =>
        let tar_warning := match target_type t with
                           | Docker => docker_mount_warnings ms
                           | SystemPath => tar_warning
                           | _ => ""
                           end in
        match a_store a with
        | Ok _ => mk_entry (a_id a) t st file size (to_rfc3339 (a_now a)) Completed
                    (completed_with_warnings_note tar_warning) "" comments (e_host e)
                    (match target_type t with Docker => config | _ => "" end)
                    (match target_type t with Docker => ms | _ => [] end)
        | Err why => failed_entry e a t st file size why comments
        | Panic => failed_entry e a t st file size "" comments
        end
    | Err why => failed_entry e a t st "" 0 why comments
    | Panic => failed_entry e a t st "" 0 "" comments
    end.

Definition mount_overrides_for (overrides : list BackupTarget) (k : BackupTargetType) (name : string) : list string :=
  default [] (exclude_mounts <$>
    List.find (λ t, bool_decide (target_type t = k) && bool_decide (t_name t = name)) overrides).

(** [trim_end_matches(".json")], and [path.extension()]. *)
Fixpoint trim_end_json (fuel : nat) (s : string) : string :=
  match fuel with
  | O => s
  | S fuel =>
      let n := (String.length s - 5)%nat in
      if (5 <=? String.length s)%nat && bool_decide (str_drop n s = ".json") then trim_end_json fuel (str_take n s) else s
  end.
Definition extension (f : string) : option string :=
  '(stem, ext) ← rsplit_once "." f; if bool_decide (stem = "") then None else Some ext.
Fixpoint ends_in (suffix s : string) : bool :=
  bool_decide (s = suffix) || match s with EmptyString => false | String _ s => ends_in suffix s end.
Definition native_vm_names (files : list string) : list string :=
  retain (λ n, negb (bool_decide (n = "")))
    ((λ f, trim_end_json (String.length f) f) <$>
      retain (λ f, bool_decide (extension f = Some "json") && negb (ends_in ".runtime.json" f)) files).

(** The targets of "back up everything". *)
Definition all_targets e (stop keep : bool) (overrides : list BackupTarget) : list BackupTarget :=
  ((λ name, mk_target Docker name None (mount_overrides_for overrides Docker name) "" None stop false)
     <$> default [] (e_docker e))
  ++ ((λ '(name, hostname), mk_target Lxc name (if bool_decide (hostname = "") then None else Some hostname)
          (mount_overrides_for overrides Lxc name) "" None stop false)
        <$> retain (λ '(name, _), negb (bool_decide (name = ""))) (e_lxc e))
  ++ ((λ name, mk_target Vm name None [] "" None false keep)
        <$> match e_vms e with inl vms => vms | inr files => native_vm_names (default [] files) end)
  ++ [target Config ""].
Definition backup_list e (st : BackupStorage) (ts : list BackupTarget) : list BackupEntry :=
  imap (λ i t, create_backup_entry e (e_attempt e i) t st) ts.
Definition backup_all e (st : BackupStorage) (stop keep : bool) (overrides : list BackupTarget) : list BackupEntry :=
  backup_list e st (all_targets e stop keep overrides).

Definition hook_failure_entry e s (phase why : string) : BackupEntry :=
  mk_entry (e_hook_id e phase) (target Config (s_name s +:+ " (" +:+ phase +:+ "-command)")) (s_storage s) "" 0
    (to_rfc3339 (e_clock e)) Failed why (s_id s) (phase +:+ "-command hook") (e_host e) "" [].
Definition is_failed (x : BackupEntry) : bool := bool_decide (status x = Failed).
Definition is_completed (x : BackupEntry) : bool := bool_decide (status x = Completed).

Definition hook_failed (r : res string string) : option string :=
  match r with Err why => Some why | _ => None end.
Definition execute_schedule_run e s : list BackupEntry :=
  let pre := if bool_decide (trim (pre_command s) = "") then None else hook_failed (e_hook e "pre" (pre_command s) "") in
  let es := match pre with
    | Some why => [hook_failure_entry e s "pre" why]
    | None =>
        let st := merge_pbs_secrets (e_pbs e) (e_pbs_targets e) (s_storage s) in
        if backup_all_targets s then backup_all e st (stop_containers s) (keep_vms_running s) (targets s)
        else backup_list e st (targets s)
    end in
  let outcome := if bool_decide (pre ≠ None) then "aborted" else if existsb is_failed es then "failed" else "completed" in
  let post := if bool_decide (trim (post_command s) = "") then None
              else hook_failed (e_hook e "post" (post_command s) outcome) in
  (λ x, x <| schedule_id := s_id s |>) <$> es ++ match post with Some why => [hook_failure_entry e s "post" why] | None => [] end.

(** ** The index *)

(** The file; [None]: it cannot be read or parsed. *)
Definition load_config (file : option BackupConfig) : BackupConfig := default (mk_config [] []) file.
(** The file is cut before it is written. *)
Definition save_config (w : SaveResult) c (file : option BackupConfig) : option BackupConfig :=
  match w with Saved => Some c | NotOpened => file | CutOff => None end.

Inductive Reply := Done | NotFound | WriteError | BadName | FileError | Blocked | Crashed.

(** What an operation answers, the index it would write, and what it removes. *)
Definition Outcome : Type := Reply * option BackupConfig * list Effect.

Definition save_schedule (x : BackupSchedule) c : Outcome :=
  let same y := bool_decide (s_id y = s_id x) in
  (Done, Some (c <| schedules := if existsb same (schedules c) then update_first same (λ _, x) (schedules c)
                                 else schedules c ++ [x] |>), []).
Definition delete_schedule (id : string) c : Outcome :=
  let kept := retain (λ s, negb (bool_decide (s_id s = id))) (schedules c) in
  if (length kept =? length (schedules c))%nat then (NotFound, None, []) else (Done, Some (c <| schedules := kept |>), []).
Definition set_schedule_enabled (id : string) (on : bool) c : Outcome :=
  let this s := bool_decide (s_id s = id) in
  if existsb this (schedules c)
  then (Done, Some (c <| schedules := update_first this (λ s, s <| enabled := on |>) (schedules c) |>), [])
  else (NotFound, None, []).

Fixpoint remove_first {A} (p : A → bool) (l : list A) : list A :=
  match l with [] => [] | x :: l => if p x then l else x :: remove_first p l end.
Definition delete_backup e (id : string) c : Outcome :=
  let this x := bool_decide (e_id x = id) in
  match List.find this (entries c) with
  | Some x => (Done, Some (c <| entries := remove_first this (entries c) |>), delete_backup_file (e_mount e) x)
  | None => (NotFound, None, [])
  end.
Definition delete_failed_backups e c : Outcome :=
  let gone := retain is_failed (entries c) in
  (Done, if (0 <? length gone)%nat then Some (c <| entries := retain (λ x, negb (is_failed x)) (entries c) |>) else None,
   mjoin (delete_backup_file (e_mount e) <$> gone)).

Definition create_backup e (t : option BackupTarget) (st : BackupStorage) c : Outcome :=
  let new := match t with
             | Some t => [create_backup_entry e (e_attempt e 0) t st]
             | None => backup_all e st false false []
             end in
  (Done, Some (c <| entries := entries c ++ new |>), []).

(** The one the dashboard uses: the index is read when the archives are done. *)
Definition create_backup_with_log e (t : option BackupTarget) (st : BackupStorage) c : Outcome :=
  let ts := match t with Some t => [t] | None => e_available e end in
  (Done, Some (c <| entries := entries c ++ backup_list e st ts |>), []).

(** Run Now. *)
Definition run_schedule_now e (id : string) c : Outcome :=
  let this s := bool_decide (s_id s = id) in
  match List.find this (schedules c) with
  | None => (NotFound, None, [])
  | Some s =>
      let new := execute_schedule_run e s in
      let c := c <| entries := entries c ++ new |> in
      let c := if existsb is_completed new
               then c <| schedules := update_first this (λ s, s <| last_run := to_rfc3339 (e_clock e) |>) (schedules c) |>
               else c in
      if 0 <? retention s then
        match @prune_schedule_backups _ () (e_mount e) (s_id s) (retention s) c with
        | Ok (c, fx) => (Done, Some c, fx)
        | _ => (Crashed, None, [])
        end
      else (Done, Some c, [])
  end.

(** One pass of the scheduler: [envs s], what the run of schedule [s] finds. *)
Definition run_due (envs : string → RunEnv) (now : Z) (acc : list BackupSchedule * list BackupEntry * list (string * Z)) s :
    list BackupSchedule * list BackupEntry * list (string * Z) :=
  let '(ss, es, to_prune) := acc in
  if schedule_is_due s now then
    (ss ++ [s <| last_run := to_rfc3339 now |>], es ++ execute_schedule_run (envs (s_id s)) s,
     if 0 <? retention s then to_prune ++ [(s_id s, retention s)] else to_prune)
  else (ss ++ [s], es, to_prune).
Fixpoint prune_all (mount : BackupStorage → option string) (l : list (string * Z)) c : res () (BackupConfig * list Effect) :=
  match l with
  | [] => Ok (c, [])
  | (sid, keep) :: l =>
      '(c, fx) ← prune_schedule_backups mount sid keep c;
      '(c, fx') ← prune_all mount l c;
      Ok (c, fx ++ fx')
  end.
Definition check_schedules e (envs : string → RunEnv) (now : Z) c : Outcome :=
  let '(ss, es, to_prune) := foldl (run_due envs now) ([], entries c, []) (schedules c) in
  match prune_all (e_mount e) to_prune (mk_config ss es) with
  | Ok (c', fx) => (Done, if existsb (λ s, schedule_is_due s now) (schedules c) then Some c' else None, fx)
  | _ => (Crashed, None, [])
  end.

(** ** Received backups *)
Definition received_backup_path (dir file : string) : option (string * string) :=
  base ← path_file_name file; if bool_decide (base = file) then Some (dir, base) else None.
Definition guess_target_type (f : string) : BackupTargetType :=
  if String.prefix "docker-" f then Docker else if String.prefix "lxc-" f then Lxc else
  if String.prefix "vm-" f then Vm else if String.prefix "systempath-" f then SystemPath else Config.
Definition extract_name_from_filename (f : string) : string :=
  match split_once "-" f with
  | Some (_, rest) => match rsplit_once "-" rest with Some (name, _) => name | None => rest end
  | None => f
  end.
Definition import_backup e (size : Z) (file : string) c : Outcome :=
  match received_backup_path (e_received_dir e) file with
  | None => (BadName, None, [])
  | Some (dir, _) =>
      if negb (e_file_ok e) then (FileError, None, []) else
      (Done, Some (c <| entries := entries c ++
         [mk_entry (e_fresh e) (target (guess_target_type file) (extract_name_from_filename file)) (local dir) file size
            (to_rfc3339 (e_clock e)) Completed "" "" ("[" +:+ e_cluster e +:+ "] Imported backup: " +:+ file) (e_host e) "" []] |>), [])
  end.
Definition imported (dir file : string) (x : BackupEntry) : bool :=
  bool_decide (filename x = file) && bool_decide (storage_type (e_storage x) = Local)
  && bool_decide (resolved_local_path (e_storage x) = dir).
(** The index is written first; the file is left when that fails. *)
Definition delete_imported_backup e (file : string) c : Outcome :=
  match received_backup_path (e_received_dir e) file with
  | None => (BadName, None, [])
  | Some (dir, base) =>
      let kept := retain (λ x, negb (imported dir base x)) (entries c) in
      let changed := negb (length kept =? length (entries c))%nat in
      let saved := if changed then Some (c <| entries := kept |>) else None in
      if changed && negb (match e_write e with Saved => true | _ => false end) then (WriteError, saved, []) else
      if e_exists e then (if e_unlink_ok e then Done else FileError, saved, [RemoveFile dir base]) else (Done, saved, [])
  end.

(** Removing a server: the index, then the saved connections and the
    snapshots of the configuration, which are other files. *)
Definition remove_backup_server (t : BackupServerRef) (force : bool) c : Outcome :=
  if bool_decide (host_of (server t) = "") then (BadName, None, []) else
  let points s := storage_references_server (s_storage s) t in
  let blocking := existsb points (schedules c) in
  if blocking && negb force then (Blocked, None, []) else
  let hit x := storage_references_server (e_storage x) t
               && negb (bool_decide (scrub_storage_secrets (e_storage x) = e_storage x)) in
  let c' := c <| schedules := retain (λ s, negb (points s)) (schedules c) |>
              <| entries := (λ x, if hit x then x <| e_storage := scrub_storage_secrets (e_storage x) |> else x) <$> entries c |> in
  (Done, if blocking || existsb hit (entries c) then Some c' else None, []).

(** ** Operations in progress *)
Inductive Op :=
| SaveSchedule (s : BackupSchedule) | DeleteSchedule (id : string) | SetEnabled (id : string) (on : bool)
| DeleteBackup (id : string) | DeleteFailed
| CreateBackup (t : option BackupTarget) (st : BackupStorage) | StreamBackup (t : option BackupTarget) (st : BackupStorage)
| RunNow (id : string) | CheckSchedules (envs : string → RunEnv)
| Import (size : Z) (file : string) | DeleteImported (file : string)
| RemoveServer (t : BackupServerRef) (force : bool).
(** A pass of the scheduler looks at the clock after it has read the index. *)
Definition perform e (op : Op) c : Outcome :=
  match op with
  | SaveSchedule s => save_schedule s c
  | DeleteSchedule id => delete_schedule id c
  | SetEnabled id on => set_schedule_enabled id on c
  | DeleteBackup id => delete_backup e id c
  | DeleteFailed => delete_failed_backups e c
  | CreateBackup t st => create_backup e t st c
  | StreamBackup t st => create_backup_with_log e t st c
  | RunNow id => run_schedule_now e id c
  | CheckSchedules envs => check_schedules e envs (e_clock e) c
  | Import size file => import_backup e size file c
  | DeleteImported file => delete_imported_backup e file c
  | RemoveServer t force => remove_backup_server t force c
  end.

Record BackupNode := mk_backup_node {
  index : option BackupConfig;
  (** the operations begun, with the index they read, until they end *)
  working : list (option (Op * BackupConfig));
  removals : list Effect;
  replies : list Reply
}.
Inductive Step := Begin (op : Op) | End (i : nat) (e : RunEnv).
(** These pass a failed write on to their caller. *)
Definition reports_write (op : Op) : bool :=
  match op with CreateBackup _ _ | StreamBackup _ _ | CheckSchedules _ | Import _ _ | DeleteImported _ => false | _ => true end.
Definition end_op e (op : Op) c (file : option BackupConfig) : Reply * option BackupConfig * list Effect :=
  let '(reply, saved, fx) := perform e op c in
  match saved with
  | None => (reply, file, fx)
  | Some c' =>
      (match reply, e_write e with Done, Saved => Done | Done, _ => if reports_write op then WriteError else Done | r, _ => r end,
       save_config (e_write e) c' file, fx)
  end.
Definition step (n : BackupNode) (x : Step) : BackupNode :=
  match x with
  | Begin op => mk_backup_node (index n) (working n ++ [Some (op, load_config (index n))]) (removals n) (replies n)
  | End i e =>
      match working n !! i with
      | Some (Some (op, c)) =>
          let '(reply, file, fx) := end_op e op c (index n) in
          mk_backup_node file (<[i := None]> (working n)) (removals n ++ fx) (replies n ++ [reply])
      | _ => n
      end
  end.
Definition run (n : BackupNode) (xs : list Step) : BackupNode := foldl step n xs.
(** One operation after the other. *)
Definition serial (n : BackupNode) (x : Op * RunEnv) : BackupNode :=
  let '(op, e) := x in
  let '(reply, file, fx) := end_op e op (load_config (index n)) (index n) in
  mk_backup_node file (working n) (removals n ++ fx) (replies n ++ [reply]).
End Runs.
