(* ===== verification/BackupPrune.v ===== *)
(** * Backups: retention against a reference

    [prune_schedule_backups] collects indices per target, sorts, and removes
    them one at a time.  It removes an entry exactly when as many entries of
    its series as are to be kept come before it, newest first. *)
From S2P Require Import Prelude Net Backup.

(** ** Lists by index *)
Section Sift.
Context {A : Type}.
Implicit Types (l : list A) (p q : nat → bool).

(** The elements whose index passes. *)
Fixpoint sift p (n : nat) l : list A :=
  match l with [] => [] | x :: l => if p n then x :: sift p (S n) l else sift p (S n) l end.

Lemma sift_ext p q n l : (∀ i, (n ≤ i)%nat → p i = q i) → sift p n l = sift q n l.
Proof.
  revert n. induction l as [|x l IH]; intros n Hpq; [done|]. cbn.
  rewrite (Hpq n), (IH (S n)) by (intros; try apply Hpq; lia). done.
Qed.
Lemma sift_all p n l : (∀ i, p i = true) → sift p n l = l.
Proof. intros Hp. revert n. induction l as [|x l IH]; intros n; cbn; [done|]. by rewrite Hp, IH. Qed.

Lemma sift_delete p q n i l :
  (i < length l)%nat → q (n + i)%nat = false → (∀ j, (j < n + i)%nat → p j = q j) →
  (∀ j, (n + i ≤ j)%nat → p j = true) → (∀ j, (n + i < j)%nat → q j = true) →
  sift p n (delete i l) = sift q n l.
Proof.
  revert n i. induction l as [|x l IH]; intros n i Hi Hq Hb Hp Ha; [cbn in Hi; lia|].
  destruct i as [|i]; cbn -[Nat.add].
  - rewrite Nat.add_0_r in *. rewrite Hq. transitivity l.
    + clear -Hp. revert n Hp. induction l as [|y l IH]; intros n Hp; cbn; [done|].
      rewrite Hp by lia. f_equal. apply IH. intros; apply Hp; lia.
    + clear -Ha. assert (∀ m, (n < m)%nat → sift q m l = l) as Hs; [|by rewrite Hs by lia].
      induction l as [|y l IH]; intros m Hm; cbn; [done|]. rewrite Ha by lia. f_equal. apply IH. lia.
  - rewrite (Hb n) by lia. rewrite <-(IH (S n) i); [done|cbn in Hi; lia|..].
    + by replace (S n + i)%nat with (n + S i)%nat by lia.
    + intros j Hj. apply Hb. lia.
    + intros j Hj. apply Hp. lia.
    + intros j Hj. apply Ha. lia.
Qed.

Lemma elem_of_sift p n l x : x ∈ sift p n l ↔ ∃ i, l !! i = Some x ∧ p (n + i)%nat = true.
Proof.
  revert n. induction l as [|y l IH]; intros n; cbn.
  { split; [by intros ?%not_elem_of_nil|by intros (i & ? & _)]. }
  assert (x ∈ (if p n then y :: sift p (S n) l else sift p (S n) l) ↔ x = y ∧ p n = true ∨ x ∈ sift p (S n) l) as ->.
  { destruct (p n); rewrite ?elem_of_cons; naive_solver. }
  rewrite IH. split.
  - intros [[-> Hp]|(i & Hi & Hp)]; [exists 0%nat; by rewrite Nat.add_0_r|].
    exists (S i). split; [done|]. by replace (n + S i)%nat with (S n + i)%nat by lia.
  - intros ([|i] & Hi & Hp); [left; rewrite Nat.add_0_r in Hp; by injection Hi|].
    right. exists i. split; [done|]. by replace (S n + i)%nat with (n + S i)%nat by lia.
Qed.

Lemma sift_sublist p n l : sift p n l `sublist_of` l.
Proof. revert n. induction l as [|x l IH]; intros n; cbn; [constructor|]. destruct (p n); by constructor. Qed.

(** How many of the remaining elements satisfy [f]. *)
Lemma sift_count p (f : A → bool) n l :
  length (retain f (sift p n l))
  = length (retain (λ i, p i && match l !! (i - n)%nat with Some x => f x | None => false end) (seq n (length l))).
Proof.
  revert n. induction l as [|x l IH]; intros n; [done|]. cbn [sift length seq].
  change (retain ?g (n :: seq (S n) (length l))) with (if g n then n :: retain g (seq (S n) (length l)) else retain g (seq (S n) (length l))).
  cbn beta. rewrite Nat.sub_diag. cbn [lookup list_lookup].
  assert (length (retain f (sift p (S n) l)) = length (retain (λ i, p i && match (x :: l) !! (i - n)%nat with Some x => f x | None => false end)
            (seq (S n) (length l)))) as Hrest.
  { rewrite IH. f_equal. apply retain_ext. intros i [Hi _]%elem_of_seq.
    replace (i - n)%nat with (S (i - S n)) by lia. done. }
  destruct (p n); cbn [andb]; [|exact Hrest]. unfold retain at 1. cbn [List.filter].
  fold (retain f (sift p (S n) l)). destruct (f x); cbn [length]; by rewrite Hrest.
Qed.
End Sift.

Lemma elem_of_drop {A} (l : list A) n x : x ∈ drop n l ↔ ∃ i, (n ≤ i)%nat ∧ l !! i = Some x.
Proof.
  rewrite list_elem_of_lookup. split.
  - intros [i Hi]. rewrite lookup_drop in Hi. exists (n + i)%nat. split; [lia|done].
  - intros (i & Hn & Hi). exists (i - n)%nat. rewrite lookup_drop. by replace (n + (i - n))%nat with i by lia.
Qed.

(** In a sorted list an element's place is the number of those before it. *)
Lemma place_is_rank (R : nat → nat → bool) l p i :
  (∀ a b, R a b = true → R b a = false) → (∀ a, R a a = false) →
  StronglySorted (λ a b, R a b = true) l → l !! p = Some i → length (retain (λ j, R j i) l) = p.
Proof.
  intros Has Hir. revert p. induction l as [|a l IH]; intros p Hs; [done|].
  apply StronglySorted_inv in Hs as [Hs Ha]. rewrite Forall_forall in Ha. destruct p as [|p]; cbn [lookup list_lookup].
  - intros [= ->]. unfold retain. cbn. rewrite Hir. fold (retain (λ j, R j i) l). rewrite retain_none; [done|].
    intros b Hb. by apply Has, Ha.
  - intros Hp. unfold retain. cbn. rewrite (Ha i) by (by eapply list_elem_of_lookup_2). cbn. f_equal. by apply IH.
Qed.

Section Prune.
Context {OL : HashOrder (list nat)}.
Implicit Types (sid : string) (es : list BackupEntry) (i j : nat).

(** ** The series of a target *)
Definition of_series sid (k : string) (e : BackupEntry) : bool := counts sid e && bool_decide (retention_target_key e = k).
Definition at_index (f : BackupEntry → bool) es i : bool := match es !! i with Some e => f e | None => false end.
Definition series sid es k : list nat := retain (at_index (of_series sid k) es) (seq 0 (length es)).

Lemma elem_of_series sid es k i : i ∈ series sid es k ↔ at_index (of_series sid k) es i = true.
Proof.
  unfold series. rewrite elem_of_retain, elem_of_seq. split; [by intros [_ ?]|]. intros Hi. split; [|done].
  unfold at_index in Hi. destruct (es !! i) eqn:He; [|done]. apply lookup_lt_Some in He. lia.
Qed.

Lemma enumerate_snoc {A} (l : list A) x : enumerate (l ++ [x]) = enumerate l ++ [(length l, x)].
Proof.
  unfold enumerate. rewrite length_app, seq_app, zip_with_app by by rewrite length_seq. done.
Qed.

Lemma by_target_series sid es k : default [] (by_target sid es !! k) = series sid es k.
Proof.
  induction es as [|e es IH] using rev_ind; [by unfold by_target; cbn; rewrite lookup_empty|].
  unfold by_target. rewrite enumerate_snoc, foldl_app. cbn [foldl]. fold (by_target sid es).
  unfold series. rewrite length_app, seq_app, retain_app. cbn [length seq Nat.add].
  assert (retain (at_index (of_series sid k) (es ++ [e])) (seq 0 (length es)) = series sid es k) as ->.
  { apply retain_ext. intros i [_ Hi]%elem_of_seq. unfold at_index. by rewrite lookup_app_l. }
  assert (at_index (of_series sid k) (es ++ [e]) (length es) = of_series sid k e) as Hl.
  { unfold at_index. by rewrite list_lookup_middle. }
  unfold retain at 1. cbn [List.filter]. rewrite Hl. unfold of_series. destruct (counts sid e); cbn [andb].
  - case_bool_decide as Hk; subst; [by rewrite lookup_insert_eq; cbn; rewrite IH|].
    rewrite lookup_insert_ne by done. by rewrite IH, app_nil_r.
  - by rewrite IH, app_nil_r.
Qed.

(** ** Newest first *)

(** [i] comes before [j]: it is newer, or as new and earlier in the index. *)
Definition ahead es i j : bool :=
  bool_decide (String.le (created es j) (created es i))
  && (negb (bool_decide (created es i = created es j)) || (i <? j)%nat).

Lemma ahead_irrefl es i : ahead es i i = false.
Proof. unfold ahead. rewrite (bool_decide_true (created es i = _)), Nat.ltb_irrefl by done. by rewrite andb_false_r. Qed.
Lemma ahead_asym es i j : ahead es i j = true → ahead es j i = false.
Proof.
  unfold ahead. intros [H1%bool_decide_eq_true H2]%andb_true_iff. apply not_true_is_false.
  intros [H3%bool_decide_eq_true H4]%andb_true_iff. assert (created es i = created es j) as He by by apply (anti_symm String.le).
  rewrite bool_decide_true in H2, H4 by done. cbn in *. apply Nat.ltb_lt in H2, H4. lia.
Qed.
Lemma ahead_trans es i j k : ahead es i j = true → ahead es j k = true → ahead es i k = true.
Proof.
  unfold ahead. intros [H1%bool_decide_eq_true H2]%andb_true_iff [H3%bool_decide_eq_true H4]%andb_true_iff.
  apply andb_true_iff. split; [apply bool_decide_eq_true; by transitivity (created es j)|].
  destruct (decide (created es i = created es k)) as [He|He]; [rewrite bool_decide_true by done|by rewrite bool_decide_false].
  cbn. rewrite He in *. assert (created es k = created es j) as Hk by by apply (anti_symm String.le).
  rewrite Hk in *. rewrite bool_decide_true in H2, H4 by done. cbn in *. apply Nat.ltb_lt in H2, H4. apply Nat.ltb_lt. lia.
Qed.
Lemma ahead_created es i j : ahead es i j = true → String.le (created es j) (created es i).
Proof. unfold ahead. by intros [?%bool_decide_eq_true _]%andb_true_iff. Qed.

Abbreviation newer_first es := (StronglySorted (λ a b, ahead es a b = true)).

Lemma newest_first_sorted es l : StronglySorted lt l → newer_first es (newest_first es l).
Proof.
  unfold newest_first. induction 1 as [|x l Hs IH Hx]; cbn; [constructor|].
  set (L := sort_by _ l) in *. assert (Forall (lt x) L) as HL by (unfold L; by rewrite sort_by_perm).
  clearbody L. clear Hx Hs l. induction IH as [|y L Hs IHL Hy]; cbn; [repeat constructor|].
  apply Forall_cons in HL as [Hxy HL]. case_bool_decide as Hle.
  - assert (ahead es x y = true) as Hxya.
    { unfold ahead. apply andb_true_iff. split; [by apply bool_decide_eq_true|]. apply orb_true_iff. right. by apply Nat.ltb_lt. }
    constructor; [by constructor|]. constructor; [done|]. eapply Forall_impl; [exact Hy|]. intros z ?. by eapply ahead_trans.
  - constructor; [by apply IHL|]. rewrite insert_by_perm. constructor; [|done]. unfold ahead. apply andb_true_iff. split.
    + apply bool_decide_eq_true. by destruct (total String.le (created es x) (created es y)).
    + apply orb_true_iff. left. apply negb_true_iff, bool_decide_eq_false. intros He. apply Hle. by rewrite He.
Qed.

Lemma series_sorted sid es k : StronglySorted lt (series sid es k).
Proof.
  unfold series. generalize (at_index (of_series sid k) es). intros p. generalize (length es). intros n. generalize 0%nat.
  induction n as [|n IH]; intros m; [constructor|]. cbn. unfold retain. cbn. destruct (p m); [|apply IH].
  constructor; [apply IH|]. apply Forall_forall. intros j [[? _]%elem_of_seq _]%elem_of_retain. lia.
Qed.

(** ** The reference *)

(** How many of its series come before an entry, and whether that is too
    many. *)
Definition key_at es i : string := default "" (retention_target_key <$> es !! i).
Definition rank sid es i : nat :=
  length (retain (λ j, at_index (of_series sid (key_at es i)) es j && ahead es j i) (seq 0 (length es))).
Definition expired sid (keep : nat) es i : bool := at_index (counts sid) es i && (keep <=? rank sid es i)%nat.

Lemma series_rank sid es k i p :
  newest_first es (series sid es k) !! p = Some i → i ∈ series sid es k ∧ rank sid es i = p.
Proof.
  intros Hp. assert (i ∈ series sid es k) as Hi.
  { apply list_elem_of_lookup_2 in Hp. unfold newest_first in Hp. by rewrite sort_by_perm in Hp. }
  split; [done|]. pose proof (place_is_rank (ahead es) _ p i (ahead_asym es) (ahead_irrefl es)
    (newest_first_sorted es _ (series_sorted sid es k)) Hp) as Hr. rewrite <-Hr.
  unfold newest_first. rewrite sort_by_perm. unfold series at 1. rewrite retain_retain. unfold rank.
  apply elem_of_series in Hi. unfold at_index in Hi. unfold key_at. destruct (es !! i) as [e|]; [|done]. cbn [fmap option_fmap option_map default from_option id].
  apply andb_true_iff in Hi as [_ ->%bool_decide_eq_true]. done.
Qed.

Lemma elem_of_past sid keep es k i :
  i ∈ past_retention keep es (series sid es k) ↔ i ∈ series sid es k ∧ (keep ≤ rank sid es i)%nat.
Proof.
  assert (past_retention keep es (series sid es k) = drop keep (newest_first es (series sid es k))) as ->.
  { unfold past_retention. destruct (_ <? _)%nat eqn:Hl; [done|]. apply Nat.ltb_ge in Hl. by rewrite drop_ge. }
  rewrite elem_of_drop. split.
  - intros (p & Hp & Hl). apply series_rank in Hl as [? ->]. done.
  - intros [Hi Hr]. assert (i ∈ newest_first es (series sid es k)) as Hn by (unfold newest_first; by rewrite sort_by_perm).
    apply list_elem_of_lookup in Hn as [p Hp]. exists p. split; [|done]. apply series_rank in Hp as [_ ?]. lia.
Qed.

Lemma elem_of_dedup_neighbours l i : i ∈ dedup_neighbours l ↔ i ∈ l.
Proof.
  induction l as [|a l IH]; [done|]. cbn. destruct l as [|b l]; [done|].
  case_bool_decide as Hab; [subst; rewrite IH; set_solver|]. rewrite !elem_of_cons in *. rewrite IH. done.
Qed.

Lemma elem_of_to_remove sid keep es i : i ∈ to_remove sid keep es ↔ expired sid keep es i = true.
Proof.
  unfold to_remove. rewrite elem_of_dedup_neighbours, sort_by_perm, list_elem_of_In, in_concat.
  split.
  - intros (l & Hl & Hi). apply list_elem_of_In in Hl, Hi. apply list_elem_of_fmap in Hl as ([k idxs] & -> & Hk).
    rewrite hm_iter_perm in Hk. apply elem_of_map_to_list in Hk.
    assert (idxs = series sid es k) as -> by by rewrite <-by_target_series, Hk. cbn [snd] in Hi.
    apply elem_of_past in Hi as [Hs Hr]. unfold expired. apply andb_true_iff. split; [|by apply Nat.leb_le].
    apply elem_of_series in Hs. unfold at_index, of_series in *. destruct (es !! i); [|done]. by apply andb_true_iff in Hs as [? _].
  - unfold expired. intros [Hc Hr%Nat.leb_le]%andb_true_iff. set (k := key_at es i).
    assert (i ∈ series sid es k) as Hs.
    { apply elem_of_series. unfold at_index, of_series, k, key_at in *. destruct (es !! i); [|done]. cbn.
      rewrite Hc. by apply bool_decide_eq_true. }
    destruct (by_target sid es !! k) as [idxs|] eqn:Hk.
    + exists (past_retention keep es idxs). rewrite <-!list_elem_of_In. split.
      * apply list_elem_of_fmap. exists (k, idxs). split; [done|]. rewrite hm_iter_perm. by apply elem_of_map_to_list.
      * assert (idxs = series sid es k) as -> by by rewrite <-by_target_series, Hk. by apply elem_of_past.
    + rewrite <-by_target_series, Hk in Hs. by apply not_elem_of_nil in Hs.
Qed.

Lemma to_remove_descends sid keep es : StronglySorted (λ a b, b < a)%nat (to_remove sid keep es).
Proof.
  unfold to_remove. set (l := concat _). assert (StronglySorted (λ a b, b ≤ a)%nat (sort_by (λ a b, (b <=? a)%nat) l)) as Hs.
  { apply sort_by_sorted; [intros a b c ? ?; lia|]. intros a b. destruct (b <=? a)%nat eqn:E; [by apply Nat.leb_le|].
    apply Nat.leb_gt in E. lia. }
  induction Hs as [|a m Hs IH Ha]; [constructor|]. cbn. destruct m as [|b m]; [repeat constructor|].
  case_bool_decide as Hab; [done|]. constructor; [done|]. apply Forall_forall. intros c Hc. apply (elem_of_dedup_neighbours (b :: m)) in Hc.
  apply StronglySorted_inv in Hs as [_ Hb]. apply Forall_cons in Ha as [Ha _]. rewrite Forall_forall in Hb.
  apply elem_of_cons in Hc as [->|Hc]; [lia|]. specialize (Hb c Hc). lia.
Qed.

Lemma remove_descending {E} mount idxs es :
  StronglySorted (λ a b, b < a)%nat idxs → Forall (λ i, i < length es)%nat idxs →
  @remove_each E mount idxs es
  = Ok (sift (λ i, negb (bool_decide (i ∈ idxs))) 0 es,
        mjoin ((λ i, match es !! i with Some e => delete_backup_file mount e | None => [] end) <$> idxs)).
Proof.
  revert es. induction idxs as [|i idxs IH]; intros es Hs Hl; cbn [remove_each].
  { by rewrite sift_all. }
  apply StronglySorted_inv in Hs as [Hs Hi]. apply Forall_cons in Hl as [Hil Hl].
  destruct (lookup_lt_is_Some_2 es i Hil) as [e He]. rewrite He. cbn [or_panic mbind res_bind].
  rewrite Forall_forall in Hi. rewrite IH; [|done|].
  2:{ apply Forall_forall. intros j Hj. rewrite length_delete by (by eexists). specialize (Hi j Hj). lia. }
  cbn [mbind res_bind fmap list_fmap mjoin list_join]. rewrite He. f_equal. f_equal.
  - apply sift_delete; [done|..].
    + rewrite bool_decide_true; [done|]. left.
    + intros j Hj. f_equal. apply bool_decide_ext. rewrite elem_of_cons. cbn in Hj. split; [by right|]. intros [->|?]; [lia|done].
    + intros j Hj. rewrite bool_decide_false; [done|]. intros Hin. specialize (Hi j Hin). lia.
    + intros j Hj. rewrite bool_decide_false; [done|]. rewrite elem_of_cons. intros [->|Hin]; [lia|]. specialize (Hi j Hin). lia.
  - f_equal. f_equal. apply list_fmap_ext. intros ? j Hj%list_elem_of_lookup_2. specialize (Hi j Hj).
    by rewrite list_lookup_delete_lt.
Qed.

(** What retention leaves of the index. *)
Definition kept sid (keep : nat) es : list BackupEntry := sift (λ i, negb (expired sid keep es i)) 0 es.
Definition removed_files mount sid (keep : nat) es : list Effect :=
  mjoin ((λ i, match es !! i with Some e => delete_backup_file mount e | None => [] end) <$> to_remove sid keep es).

Lemma prune_spec {E} mount sid keep c :
  @prune_schedule_backups _ E mount sid keep c
  = Ok (c <| entries := kept sid (Z.to_nat keep) (entries c) |>,
        removed_files mount sid (Z.to_nat keep) (entries c)
        ++ prune_pbs_groups_for_schedule (c <| entries := kept sid (Z.to_nat keep) (entries c) |>) sid keep).
Proof.
  unfold prune_schedule_backups. rewrite remove_descending.
  - cbn [mbind res_bind]. assert (sift (λ i, negb (bool_decide (i ∈ to_remove sid (Z.to_nat keep) (entries c)))) 0 (entries c)
      = kept sid (Z.to_nat keep) (entries c)) as ->; [|done].
    apply sift_ext. intros i _. f_equal. apply eq_true_iff_eq. by rewrite bool_decide_eq_true, elem_of_to_remove.
  - apply to_remove_descends.
  - apply Forall_forall. intros i Hi%elem_of_to_remove. unfold expired in Hi. apply andb_true_iff in Hi as [Hi _].
    unfold at_index in Hi. destruct (entries c !! i) eqn:He; [|done]. by apply lookup_lt_Some in He.
Qed.

(** ** What is removed *)
Lemma sift_split {A} (p : nat → bool) n (l : list A) : l ≡ₚ sift p n l ++ sift (λ i, negb (p i)) n l.
Proof.
  revert n. induction l as [|x l IH]; intros n; [done|]. cbn [sift]. destruct (p n); cbn [negb app].
  - by f_equiv.
  - rewrite <-Permutation_middle. by f_equiv.
Qed.

Lemma omap_sift {A} (p : nat → bool) n (l : list A) :
  omap (λ i, l !! (i - n)%nat) (retain p (seq n (length l))) = sift p n l.
Proof.
  revert n. induction l as [|x l IH]; intros n; [done|]. cbn [length seq sift]. unfold retain. cbn [List.filter].
  fold (retain p (seq (S n) (length l))).
  assert (omap (λ i, (x :: l) !! (i - n)%nat) (retain p (seq (S n) (length l))) = sift p (S n) l) as Hr.
  { rewrite <-IH. apply list_omap_ext, Forall_Forall2_diag, Forall_forall. intros i [Hi _]%elem_of_retain.
    apply elem_of_seq in Hi. by replace (i - n)%nat with (S (i - S n)) by lia. }
  destruct (p n); [|exact Hr]. cbn. rewrite Nat.sub_diag. cbn. f_equal. exact Hr.
Qed.

Lemma descends_NoDup l : StronglySorted (λ a b, b < a)%nat l → NoDup l.
Proof.
  induction 1 as [|a l _ IH Ha]; constructor; [|done]. intros Hin. rewrite Forall_forall in Ha. specialize (Ha a Hin). lia.
Qed.

(** The entries past retention, in the order in which they go. *)
Definition gone sid (keep : nat) es : list BackupEntry := omap (λ i, es !! i) (to_remove sid keep es).

Lemma gone_kept sid keep es : es ≡ₚ gone sid keep es ++ kept sid keep es.
Proof.
  rewrite (sift_split (expired sid keep es) 0 es) at 1. f_equiv; [|done]. rewrite <-omap_sift. unfold gone.
  rewrite (list_omap_ext (λ i, es !! (i - 0)%nat) (λ i, es !! i) _ (retain (expired sid keep es) (seq 0 (length es)))).
  2:{ apply Forall_Forall2_diag, Forall_forall. intros i _. by rewrite Nat.sub_0_r. }
  apply omap_Permutation, NoDup_Permutation.
  - unfold retain. apply NoDup_ListNoDup, List.NoDup_filter, NoDup_ListNoDup, NoDup_seq.
  - apply descends_NoDup, to_remove_descends.
  - intros i. rewrite elem_of_to_remove, elem_of_retain, elem_of_seq. split; [by intros [_ ?]|]. intros Hi. split; [|done].
    unfold expired, at_index in Hi. destruct (es !! i) eqn:He; [|done]. apply lookup_lt_Some in He. lia.
Qed.

Lemma gone_counts sid keep es : Forall (λ x, counts sid x = true) (gone sid keep es).
Proof.
  apply Forall_forall. intros x (i & Hi & Hx)%list_elem_of_omap. apply elem_of_to_remove in Hi.
  unfold expired, at_index in Hi. rewrite Hx in Hi. by apply andb_true_iff in Hi as [? _].
Qed.

Lemma removed_files_gone mount sid keep es :
  removed_files mount sid keep es = mjoin (delete_backup_file mount <$> gone sid keep es).
Proof.
  unfold removed_files, gone. induction (to_remove sid keep es) as [|i l IH]; [done|].
  rewrite fmap_cons. cbn [mjoin list_join omap list_omap]. destruct (es !! i); [|exact IH].
  rewrite fmap_cons. cbn [mjoin list_join]. f_equal. exact IH.
Qed.

(** Of each series the newest remain. *)
Lemma kept_take sid keep es k :
  retain (λ i, negb (expired sid keep es i)) (newest_first es (series sid es k)) = take keep (newest_first es (series sid es k)).
Proof.
  set (L := newest_first es (series sid es k)).
  assert (∀ p i, L !! p = Some i → expired sid keep es i = (keep <=? p)%nat) as HL.
  { intros p i Hp. apply series_rank in Hp as [Hi Hr]. unfold expired. rewrite Hr.
    apply elem_of_series in Hi. unfold at_index, of_series in *. destruct (es !! i); [|done]. by apply andb_true_iff in Hi as [-> _]. }
  clearbody L. revert keep HL. assert (∀ m keep, (∀ p i, L !! p = Some i → expired sid keep es i = (m <=? p)%nat) →
    retain (λ i, negb (expired sid keep es i)) L = take m L) as Hg; [|intros keep HL; by apply Hg].
  induction L as [|a L IH]; intros m keep HL; [by rewrite take_nil|].
  pose proof (HL 0%nat a eq_refl) as Ha. unfold retain. cbn. rewrite Ha. destruct m as [|m]; cbn.
  - apply retain_none. intros i [p Hp]%list_elem_of_lookup. by rewrite (HL (S p) i Hp).
  - f_equal. apply IH. intros p i Hp. rewrite (HL (S p) i Hp). done.
Qed.

Lemma kept_count sid keep es k :
  length (retain (of_series sid k) (kept sid keep es)) = Nat.min keep (length (retain (of_series sid k) es)).
Proof.
  unfold kept. rewrite sift_count.
  assert (length (retain (of_series sid k) es) = length (series sid es k)) as ->.
  { rewrite <-(sift_all (λ _, true) 0 es) at 1 by done. rewrite sift_count. unfold series. f_equal.
    apply retain_ext. intros i _. by rewrite Nat.sub_0_r. }
  assert (length (newest_first es (series sid es k)) = length (series sid es k)) as Hlen.
  { unfold newest_first. by rewrite sort_by_perm. }
  rewrite <-Hlen, <-length_take, <-kept_take. unfold newest_first. rewrite sort_by_perm. unfold series. rewrite retain_retain.
  f_equal. apply retain_ext. intros i _. rewrite Nat.sub_0_r. unfold at_index. by rewrite andb_comm.
Qed.

(** Whatever is removed is no newer than what remains of its series. *)
Lemma kept_newer sid keep es k i j :
  i ∈ series sid es k → j ∈ series sid es k → expired sid keep es i = true → expired sid keep es j = false →
  String.le (created es i) (created es j).
Proof.
  intros Hi Hj He Hne. set (L := newest_first es (series sid es k)).
  assert (∃ p, L !! p = Some i) as [p Hp].
  { apply list_elem_of_lookup. unfold L, newest_first. by rewrite sort_by_perm. }
  assert (∃ q, L !! q = Some j) as [q Hq].
  { apply list_elem_of_lookup. unfold L, newest_first. by rewrite sort_by_perm. }
  assert (∀ p i, L !! p = Some i → i ∈ series sid es k → expired sid keep es i = (keep <=? p)%nat) as HL.
  { intros p' i' Hp' Hi'. apply series_rank in Hp' as [_ Hr]. unfold expired. rewrite Hr.
    apply elem_of_series in Hi'. unfold at_index, of_series in *. destruct (es !! i'); [|done]. by apply andb_true_iff in Hi' as [-> _]. }
  rewrite (HL p i Hp Hi) in He. rewrite (HL q j Hq Hj) in Hne. apply Nat.leb_le in He. apply Nat.leb_gt in Hne.
  assert (q < p)%nat as Hqp by lia. apply ahead_created.
  pose proof (newest_first_sorted es _ (series_sorted sid es k)) as Hs. fold L in Hs. clearbody L. clear -Hs Hp Hq Hqp.
  revert p q Hp Hq Hqp. induction Hs as [|a L _ IH Ha]; intros p q Hp Hq Hqp; [done|].
  destruct p as [|p]; [lia|]. destruct q as [|q]; cbn in Hp, Hq.
  - injection Hq as ->. rewrite Forall_forall in Ha. apply Ha. by eapply list_elem_of_lookup_2.
  - by apply (IH p q); [..|lia].
Qed.
(** Entries of other series stay, and none of those removed is newer than one
    that stays. *)
Lemma kept_other sid keep es x : x ∈ es → counts sid x = false → x ∈ kept sid keep es.
Proof.
  intros [i Hi]%list_elem_of_lookup Hc. apply elem_of_sift. exists i. split; [done|]. cbn. unfold expired, at_index. by rewrite Hi, Hc.
Qed.
Lemma gone_newest sid keep es x y :
  x ∈ gone sid keep es → y ∈ kept sid keep es → of_series sid (retention_target_key x) y = true →
  String.le (created_at x) (created_at y).
Proof.
  intros (i & Hgone%elem_of_to_remove & Hi)%list_elem_of_omap Hy Hs.
  apply elem_of_sift in Hy as (j & Hj & He). apply negb_true_iff in He. cbn in He.
  assert (String.le (created es i) (created es j)) as Hle.
  { apply (kept_newer sid keep es (retention_target_key x)); try done; apply elem_of_series; unfold at_index.
    - rewrite Hi. unfold of_series. unfold expired, at_index in Hgone. rewrite Hi in Hgone. apply andb_true_iff in Hgone as [-> _].
      by apply bool_decide_eq_true.
    - by rewrite Hj. }
  unfold created in Hle. by rewrite Hi, Hj in Hle.
Qed.
Lemma kept_newest sid keep es x y :
  x ∈ es → x ∉ kept sid keep es → y ∈ kept sid keep es → of_series sid (retention_target_key x) y = true →
  String.le (created_at x) (created_at y).
Proof.
  intros Hx Hn. apply gone_newest. rewrite (gone_kept sid keep es) in Hx. by apply elem_of_app in Hx as [?|?].
Qed.

(** ** PBS *)

(** A prune of the group of an entry that stays, which keeps no fewer snapshots
    than asked. *)
Definition group_pruned sid (keep : Z) es (f : Effect) : Prop :=
  ∃ y namespace k, y ∈ es ∧ counts sid y = true ∧ storage_type (e_storage y) = Pbs ∧ keep ≤ k ∧
    f = PruneGroup (pbs_repo_string (e_storage y)) namespace (pbs_group_for_entry y) k.

Lemma foldl_max_ge l own : own ≤ foldl Z.max own l.
Proof. revert own. induction l as [|x l IH]; intros own; cbn; [done|]. specialize (IH (own `max` x)). lia. Qed.

Lemma add_group_from l groups r g st :
  (r, g, st) ∈ foldl add_group groups l →
  (r, g, st) ∈ groups ∨ ∃ y, y ∈ l ∧ r = pbs_repo_string (e_storage y) ∧ g = pbs_group_for_entry y.
Proof.
  revert groups. induction l as [|y l IH]; intros groups; cbn; [by left|].
  intros [Hin|(z & ? & ?)]%IH; [|right; exists z; split; [by right|done]].
  unfold add_group in Hin. destruct (existsb _ _); [by left|].
  apply elem_of_app in Hin as [?|Hin]; [by left|right]. apply list_elem_of_singleton in Hin as [= -> -> ->].
  exists y. split; [by left|done].
Qed.

Lemma groups_pruned c sid keep :
  Forall (group_pruned sid keep (entries c)) (prune_pbs_groups_for_schedule c sid keep).
Proof.
  unfold prune_pbs_groups_for_schedule. destruct (_ =? _); [constructor|]. apply Forall_fmap, Forall_forall.
  intros [[r g] st] [Hin|(y & Hy & -> & ->)]%add_group_from; [by apply not_elem_of_nil in Hin|].
  apply elem_of_retain in Hy as [Hy [Hc Hp%bool_decide_eq_true]%andb_true_iff].
  exists y, (pbs_namespace st). eexists. split_and!; [done..| |done]. apply foldl_max_ge.
Qed.

(** No deletion is of an entry that stays, if no two entries share a file. *)
Lemma kept_untouched mount sid keep es y f :
  NoDup (mjoin (delete_backup_file mount <$> es)) → y ∈ kept sid keep es → f ∈ delete_backup_file mount y →
  f ∉ removed_files mount sid keep es.
Proof.
  rewrite removed_files_gone. intros Hn Hy Hf Hg.
  rewrite (gone_kept sid keep es) in Hn. rewrite fmap_app, join_app in Hn. apply NoDup_app in Hn as (_ & Hn & _).
  apply (Hn f Hg). apply list_elem_of_join. exists (delete_backup_file mount y). split; [done|].
  by apply list_elem_of_fmap_2.
Qed.

Lemma deletes_no_group mount e r ns g k : PruneGroup r ns g k ∉ delete_backup_file mount e.
Proof.
  unfold delete_backup_file. destruct (storage_type (e_storage e)), (mount (e_storage e));
    rewrite ?elem_of_cons, ?elem_of_nil; naive_solver.
Qed.
End Prune.
