(* ===== verification/BackupProps.v ===== *)
(** * What backups keep, and what they lose

    Retention keeps the newest of every series and a backup once made has a
    successor; a schedule fires once a day.  Operations that overlap erase each
    other's work, and what PBS keeps is not what was asked for. *)
From stdpp Require Import pretty.
From S2P Require Import Prelude Net Digits Backup BackupRun BackupPrune.

(** chrono prints a date so that it reads back, and a date is a day of a
    month of a year. *)
Class ChronoLaws `{Chrono} : Prop := {
  parse_printed t : 0 ≤ t < 2 ^ 63 → parse_from_rfc3339 (to_rfc3339 t) = Some t;
  same_date t u : date_naive t = date_naive u → Z.abs (t - u) < DAY_NS ∧ month t = month u ∧ year t = year u
}.

Section Props.
Context `{Chrono} {OL : HashOrder (list nat)}.
Implicit Types (e : RunEnv) (c : BackupConfig) (s : BackupSchedule) (n : BackupNode).

(** ** Retention *)


(** ** A backup has a successor *)
Definition as_new (x : BackupEntry) c : Prop :=
  ∃ y, y ∈ entries c ∧ status y = Completed ∧ schedule_id y = schedule_id x ∧ retention_target_key y = retention_target_key x ∧
       String.le (created_at x) (created_at y).

Lemma as_new_more x c c' : (∀ y, y ∈ entries c → status y = Completed → y ∈ entries c') → as_new x c → as_new x c'.
Proof. intros Hc (y & Hy & ? & ?). exists y. split; [by apply Hc|done]. Qed.

Lemma prune_as_new x mount sid keep c c' fx :
  0 < keep → @prune_schedule_backups _ () mount sid keep c = Ok (c', fx) → as_new x c → as_new x c'.
Proof.
  intros Hk Hp (y & Hy & Hst & Hsid & Hkey & Hle).
  rewrite prune_spec in Hp. injection Hp as <- _. set (es := kept sid (Z.to_nat keep) (entries c)).
  change (entries (c <| entries := es |>)) with es. unfold as_new. cbn [entries setter].
  destruct (decide (y ∈ es)) as [Hin|Hin]; [by exists y|].
  destruct (counts sid y) eqn:Hc; [|exfalso; by apply Hin, kept_other].
  pose proof (kept_count sid (Z.to_nat keep) (entries c) (retention_target_key y)) as Hcount. fold es in Hcount.
  assert (y ∈ retain (of_series sid (retention_target_key y)) (entries c)) as Hyr.
  { apply elem_of_retain. split; [done|]. unfold of_series. rewrite Hc. by apply bool_decide_eq_true. }
  destruct (retain (of_series sid (retention_target_key y)) es) as [|z l] eqn:Hz.
  { destruct (retain _ (entries c)); [by apply not_elem_of_nil in Hyr|]. cbn in Hcount. lia. }
  assert (z ∈ retain (of_series sid (retention_target_key y)) es) as Hzr by (rewrite Hz; left).
  apply elem_of_retain in Hzr as [Hze Hzs]. pose proof (kept_newest _ _ _ y z Hy Hin Hze Hzs) as Hyz. exists z.
  unfold of_series, counts in Hzs, Hc. bool_props. split_and!; [done|done|congruence|congruence|by transitivity (created_at y)].
Qed.

Lemma prune_all_as_new x mount l c c' fx :
  Forall (λ p, 0 < p.2) l → prune_all mount l c = Ok (c', fx) → as_new x c → as_new x c'.
Proof.
  revert c c' fx. induction l as [|[sid keep] l IH]; intros c c' fx Hl; cbn; [by intros [= <- <-]|].
  apply Forall_cons in Hl as [Hk Hl]. destruct (prune_schedule_backups mount sid keep c) as [[c1 fx1]| |] eqn:Hp; [|done..].
  cbn. destruct (prune_all mount l c1) as [[c2 fx2]| |] eqn:Hp2; [|done..]. cbn. intros [= <- <-] Hx.
  eapply IH; [done|done|]. by eapply prune_as_new.
Qed.

Lemma passes_spec envs now ss acc :
  foldl (run_due envs now) acc ss
  = (acc.1.1 ++ ((λ s, if schedule_is_due s now then s <| last_run := to_rfc3339 now |> else s) <$> ss),
     acc.1.2 ++ mjoin ((λ s, if schedule_is_due s now then execute_schedule_run (envs (s_id s)) s else []) <$> ss),
     acc.2 ++ mjoin ((λ s, if schedule_is_due s now && (0 <? retention s) then [(s_id s, retention s)] else []) <$> ss)).
Proof.
  revert acc. induction ss as [|s ss IH]; intros [[a b] p]; cbn; [by rewrite !app_nil_r|]. rewrite IH. unfold run_due.
  destruct (schedule_is_due s now); cbn; [|by rewrite <-!app_assoc]. destruct (0 <? retention s); cbn; by rewrite <-!app_assoc.
Qed.

Definition by_hand (op : Op) : bool := match op with DeleteBackup _ | DeleteImported _ => true | _ => false end.

Lemma perform_as_new x e op c r c' fx :
  by_hand op = false → perform e op c = (r, Some c', fx) → as_new x c → as_new x c'.
Proof.
  intros Hop. destruct op; cbn in Hop; try done; cbn [perform].
  - intros [= <- <- <-]. by apply as_new_more.
  - unfold delete_schedule. destruct (_ =? _)%nat; [done|]. intros [= <- <- <-]. by apply as_new_more.
  - unfold set_schedule_enabled. destruct (existsb _ _); [|done]. intros [= <- <- <-]. by apply as_new_more.
  - unfold delete_failed_backups. destruct (_ <? _)%nat; [|done]. intros [= <- <- <-]. apply as_new_more. cbn.
    intros y Hy Hs. apply elem_of_retain. split; [done|]. unfold is_failed. by rewrite Hs.
  - intros [= <- <- <-]. apply as_new_more. cbn. intros y Hy _. by apply elem_of_app; left.
  - intros [= <- <- <-]. apply as_new_more. cbn. intros y Hy _. by apply elem_of_app; left.
  - unfold run_schedule_now. destruct (List.find _ _) as [s|]; [|done].
    set (c1 := c <| entries := _ |>). set (c2 := if existsb _ _ then _ else _).
    assert (as_new x c → as_new x c2) as H2.
    { apply as_new_more. intros y Hy _. unfold c2, c1. destruct (existsb _ _); cbn; by apply elem_of_app; left. }
    destruct (0 <? retention s) eqn:Hr; [|by intros [= <- <- <-]]. apply Z.ltb_lt in Hr.
    destruct (prune_schedule_backups _ _ _ c2) as [[c3 fx3]| |] eqn:Hp; [|done..]. intros [= <- <- <-] Hx.
    eapply prune_as_new; [exact Hr|exact Hp|]. by apply H2.
  - unfold check_schedules. rewrite passes_spec. cbn [fst snd app].
    destruct (prune_all _ _ _) as [[c3 fx3]| |] eqn:Hp; [|done..]. destruct (existsb _ _); [|done]. intros [= <- <- <-] Hx.
    eapply prune_all_as_new; [|exact Hp|].
    + apply Forall_forall. intros p Hp'. apply list_elem_of_join in Hp' as (l & Hl & Hs). apply list_elem_of_fmap in Hs as (s & -> & _).
      destruct (_ && _) eqn:Hb; [|by apply not_elem_of_nil in Hl]. apply list_elem_of_singleton in Hl as ->.
      apply andb_true_iff in Hb as [_ ?%Z.ltb_lt]. done.
    + revert Hx. apply as_new_more. cbn. intros y Hy _. by apply elem_of_app; left.
  - unfold import_backup. destruct (received_backup_path _ _) as [[dir base]|]; [|done]. destruct (negb _); [done|].
    intros [= <- <- <-]. apply as_new_more. cbn. intros y Hy _. by apply elem_of_app; left.
  - unfold remove_backup_server. destruct (bool_decide _); [done|]. destruct (_ && _); [done|].
    set (hit := λ x : BackupEntry, _ && _). destruct (_ || _); [|done]. intros [= <- <- <-] (y & Hy & Hst & Hsid & Hkey & Hle).
    exists (if hit y then y <| e_storage := scrub_storage_secrets (e_storage y) |> else y). split.
    + cbn. apply list_elem_of_fmap. by exists y.
    + by destruct (hit y).
Qed.

Definition serials n (xs : list (Op * RunEnv)) : BackupNode := foldl serial n xs.

(** C14: A backup goes only when a newer one is there.  Whatever schedules,
    backups, imports and clean-ups are run one after the other, as long as
    nobody deletes backups by hand and no write of the index is cut off, a
    completed backup stays in the index or a completed backup of the same
    schedule and of a target of the same type and name, made no earlier, is
    there in its place (retention takes two folders of one name for one
    target). *)
Theorem some_backup_remains n c x xs :
  index n = Some c → x ∈ entries c → status x = Completed →
  Forall (λ p, by_hand p.1 = false ∧ e_write p.2 ≠ CutOff) xs →
  ∃ c', index (serials n xs) = Some c' ∧ as_new x c'.
Proof.
  intros Hn Hx Hst Hxs. assert (as_new x c) as Hnew by by exists x. clear Hx Hst. revert n c Hn Hnew.
  induction xs as [|[op e] xs IH]; intros n c Hn Hnew; [by exists c|].
  apply Forall_cons in Hxs as [[Hop Hw] Hxs]. cbn in Hop, Hw.
  assert (∃ c', index (serial n (op, e)) = Some c' ∧ as_new x c') as (c' & Hc' & Hnew').
  { unfold serial, end_op. rewrite Hn. cbn [load_config default from_option id].
    destruct (perform e op c) as [[r [c1|]] fx] eqn:Hp; cbn; [|by exists c].
    destruct (e_write e); cbn; [exists c1|exists c|done]; (split; [done|]); [|done]. by eapply perform_as_new. }
  apply (IH Hxs _ c' Hc' Hnew').
Qed.

(** ** Overlapping operations *)
Definition ends (i : nat) (x : Step) : bool := match x with End j _ => (j =? i)%nat | Begin _ => false end.

Lemma run_keeps_working n xs i w :
  working n !! i = Some w → Forall (λ x, ends i x = false) xs → working (run n xs) !! i = Some w.
Proof.
  intros Hi Hxs. revert n Hi. induction Hxs as [|x xs Hx _ IH]; intros n Hi; [done|]. apply IH.
  destruct x as [op|j e]; cbn in Hx |- *; [by apply lookup_app_l_Some|].
  destruct (working n !! j) as [[[op c]|]|]; [|done..]. destruct (end_op _ _ _ _) as [[r f] fx]. cbn.
  apply Nat.eqb_neq in Hx. by rewrite list_lookup_insert_ne.
Qed.

(** C38: An operation that ends erases what was saved while it ran.  The index
    is read when an operation begins and written when it ends: schedules saved
    or deleted, backups made, imported or pruned in between, by whichever
    operations, are gone or back again, exactly as if they had not happened. *)
Theorem overlap_erases n op e xs r c' fx :
  perform e op (load_config (index n)) = (r, Some c', fx) → e_write e = Saved →
  Forall (λ x, ends (length (working n)) x = false) xs →
  index (run n (Begin op :: xs ++ [End (length (working n)) e])) = Some c' ∧
  index (run n [Begin op; End (length (working n)) e]) = Some c'.
Proof.
  intros Hp Hw Hxs.
  assert (∀ m, working m !! length (working n) = Some (Some (op, load_config (index n))) →
    index (step m (End (length (working n)) e)) = Some c') as Hend.
  { intros m Hm. cbn. rewrite Hm. unfold end_op. rewrite Hp, Hw. done. }
  set (n1 := step n (Begin op)).
  assert (working n1 !! length (working n) = Some (Some (op, load_config (index n)))) as H1.
  { cbn. rewrite lookup_app_r, Nat.sub_diag by done. done. }
  split; [|by apply Hend]. change (run n (Begin op :: xs ++ [End (length (working n)) e])) with
    (foldl step n1 (xs ++ [End (length (working n)) e])).
  rewrite foldl_app. apply Hend. by apply run_keeps_working.
Qed.

(** A write that is cut off takes the index with it: the next operation that
    saves starts from nothing. *)
Theorem cut_write_loses_index n op e op' e' r c' fx :
  (perform e op (load_config (index n))).1.2 ≠ None → e_write e = CutOff →
  perform e' op' (mk_config [] []) = (r, Some c', fx) → e_write e' = Saved →
  index (serials n [(op, e); (op', e')]) = Some c'.
Proof.
  intros Hp Hw Hp' Hw'. cbn [serials foldl].
  assert (index (serial n (op, e)) = None) as H1.
  { unfold serial, end_op. destruct (perform e op _) as [[r1 [c1|]] fx1]; [|done]. by rewrite Hw. }
  set (n1 := serial n (op, e)) in *. clearbody n1. unfold serial, end_op. rewrite H1. cbn [load_config default from_option id].
  rewrite Hp', Hw'. done.
Qed.

(** ** Schedules *)
Definition pass (now : Z) s : BackupSchedule := if schedule_is_due s now then s <| last_run := to_rfc3339 now |> else s.
(** How often a schedule fires in passes at these times. *)
Fixpoint fires s (ts : list Z) : nat :=
  match ts with
  | [] => 0
  | t :: ts => (if schedule_is_due s t then 1 else 0) + fires (pass t s) ts
  end%nat.

Lemma prune_all_schedules mount l c c' fx : prune_all mount l c = Ok (c', fx) → schedules c' = schedules c.
Proof.
  revert c c' fx. induction l as [|[sid keep] l IH]; intros c c' fx; cbn; [by intros [= <- <-]|]. rewrite prune_spec. cbn.
  destruct (prune_all mount l _) as [[c2 fx2]| |] eqn:Hp; [|done..]. cbn. intros [= <- <-]. by rewrite (IH _ _ _ Hp).
Qed.

Lemma check_schedules_passes e envs now c r c' fx :
  check_schedules e envs now c = (r, Some c', fx) → schedules c' = pass now <$> schedules c.
Proof.
  unfold check_schedules. rewrite passes_spec. cbn [fst snd app].
  destruct (prune_all _ _ _) as [[c3 fx3]| |] eqn:Hp; [|done..]. destruct (existsb _ _); [|done]. intros [= _ <- _].
  by rewrite (prune_all_schedules _ _ _ _ _ Hp).
Qed.

Context `{!ChronoLaws}.

Lemma fired_today s t u :
  0 ≤ t < 2 ^ 63 → date_naive t = date_naive u → schedule_is_due (s <| last_run := to_rfc3339 t |>) u = false.
Proof.
  intros Ht Hd. unfold schedule_is_due. cbn [enabled time last_run setter]. destruct (enabled s); [|done]. cbn [negb].
  destruct (negb _); [done|]. change (pinned_day (s <| last_run := to_rfc3339 t |>) u) with (pinned_day s u).
  destruct (pinned_day s u) as [[]|]; [| |done]; rewrite parse_printed by done; [by rewrite Hd, Z.eqb_refl|].
  cbn [frequency setter]. destruct (same_date t u Hd) as (Habs & Hm & Hy).
  destruct (frequency s); [by rewrite Hd, Z.eqb_refl| |by rewrite Hm, Hy, !Z.eqb_refl].
  apply Z.leb_gt. unfold num_days. assert (Z.abs (Z.quot (u - t) DAY_NS) = 0) as Hq; [|lia].
  rewrite <-Z.quot_abs by done. apply Z.quot_small. split; [lia|]. rewrite (Z.abs_eq DAY_NS) by done. lia.
Qed.

(** C15: A schedule fires at most once a day.  However often the scheduler
    passes on one date, in whatever order the clock is read, a schedule of any
    frequency, pinned to a day or not, is due at most once; a pass stamps
    exactly the schedules that were due. *)
Theorem fires_once_a_day d s ts :
  Forall (λ t, 0 ≤ t < 2 ^ 63 ∧ date_naive t = d) ts →
  (fires s ts ≤ 1)%nat ∧
  ∀ e envs now c r c' fx, check_schedules e envs now c = (r, Some c', fx) → schedules c' = pass now <$> schedules c.
Proof.
  intros Hts. split; [|apply check_schedules_passes].
  assert (∀ t ts, 0 ≤ t < 2 ^ 63 → date_naive t = d → Forall (λ t, 0 ≤ t < 2 ^ 63 ∧ date_naive t = d) ts →
    fires (s <| last_run := to_rfc3339 t |>) ts = 0%nat) as Hstop.
  { intros t us Ht Hd Hus. induction Hus as [|u us [Hu Hdu] _ IH]; [done|]. cbn [fires]. unfold pass.
    rewrite fired_today by (done || congruence). exact IH. }
  induction Hts as [|t ts [Ht Hd] Hts IH]; [cbn; lia|]. cbn [fires]. unfold pass. destruct (schedule_is_due s t); [|exact IH].
  rewrite Hstop by done. lia.
Qed.
End Props.

(** ** At concrete inputs *)
Module Toy.
(** The Gregorian calendar, counted from 1 March 0000. *)
Definition civil (z : Z) : Z * Z * Z :=
  let z := z + 719468 in
  let era := z / 146097 in
  let doe := z - era * 146097 in
  let yoe := (doe - doe / 1460 + doe / 36524 - doe / 146096) / 365 in
  let doy := doe - (365 * yoe + yoe / 4 - yoe / 100) in
  let mp := (5 * doy + 2) / 153 in
  let m := if mp <? 10 then mp + 3 else mp - 9 in
  (yoe + era * 400 + (if m <=? 2 then 1 else 0), m, doy - (153 * mp + 2) / 5 + 1).
Definition days_from_civil (y m d : Z) : Z :=
  let y := if m <=? 2 then y - 1 else y in
  let era := y / 400 in
  let yoe := y - era * 400 in
  let doy := (153 * (if 2 <? m then m - 3 else m + 9) + 2) / 5 + d - 1 in
  era * 146097 + (yoe * 365 + yoe / 4 - yoe / 100 + doy) - 719468.
Definition two (n : Z) : string := if n <? 10 then "0" +:+ pretty n else pretty n.
Definition minute (t : Z) : Z := t / (60 * SEC) mod 1440.
Definition ymd (t : Z) : Z * Z * Z := civil (t / DAY_NS).
#[local] Instance calendar : Chrono := {|
  hhmm t := two (minute t / 60) +:+ ":" +:+ two (minute t mod 60);
  stamp t := let '(y, m, d) := ymd t in pretty y +:+ two m +:+ two d +:+ "-" +:+ two (minute t / 60) +:+ two (minute t mod 60) +:+ "00";
  date_naive t := t / DAY_NS;
  number_from_monday t := (t / DAY_NS + 3) mod 7 + 1;
  day t := (ymd t).2; month t := (ymd t).1.2; year t := (ymd t).1.1;
  day_before_first y m := Some (civil (days_from_civil y m 1 - 1)).2;
  to_rfc3339 t := pretty t;
  parse_from_rfc3339 s := parse_uint (2 ^ 63) s
|}.
#[local] Instance calendar_laws : ChronoLaws.
Proof.
  split.
  - intros t Ht. apply parse_pretty. lia.
  - intros t u Hd. change (t / DAY_NS = u / DAY_NS) in Hd. unfold month, year, calendar, ymd. rewrite Hd. split; [|done].
    assert (0 < DAY_NS) as Hp by done. pose proof (Z.div_mod t DAY_NS). pose proof (Z.div_mod u DAY_NS).
    pose proof (Z.mod_pos_bound t DAY_NS Hp). pose proof (Z.mod_pos_bound u DAY_NS Hp). nia.
Qed.
#[local] Instance series_order : HashOrder (list nat) := canonical_order (list nat).

(** At day and minute. *)
Definition moment (d m : Z) : Z := d * DAY_NS + m * 60 * SEC.
Definition attempt (t : Z) : Attempt :=
  mk_attempt ("id" +:+ pretty t) t "" (Ok ("docker-web.tar.gz", 10, "{}", [], "")) (Ok ()) (Err "") 0.
Definition env (t : Z) : RunEnv :=
  mk_run_env t (λ _ _ _, Ok "") (λ _, attempt t) (λ p, p) "/backups" "/received" false default_storage [] (Some ["web"]) []
    (inl []) [target Docker "web"] (λ _, None) Saved "node" "Lab" ("new" +:+ pretty t) true true true.
Definition nightly : BackupSchedule :=
  mk_schedule "s1" "nightly" Daily "02:00" 2 false [target Docker "web"] (local "/backups") true "" "" "" "" None None false false.
Definition entry (id at_ : string) : BackupEntry :=
  mk_entry id (target Docker "web") (local "/backups") (id +:+ ".tar.gz") 1 at_ Completed "" "s1" "" "node" "" [].
Definition start : BackupNode := mk_backup_node (Some (mk_config [nightly] [entry "a" "1"; entry "b" "2"])) [] [] [].
Definition night (d : Z) : Op * RunEnv := (CheckSchedules (λ _, env (moment d 120)), env (moment d 120)).

(** Two nights push the old backups out. *)
Lemma some_backup_remains_witness :
  ∃ c', index (serials start [night 20000; night 20001; (DeleteFailed, env 0)]) = Some c' ∧ as_new (entry "a" "1") c' ∧
        length (entries c') = 2%nat.
Proof.
  destruct (some_backup_remains start (mk_config [nightly] [entry "a" "1"; entry "b" "2"]) (entry "a" "1")
    [night 20000; night 20001; (DeleteFailed, env 0)] eq_refl ltac:(left) eq_refl
    ltac:(repeat (apply Forall_cons_2; [by split|]); apply Forall_nil_2)) as (c' & Hc' & Ha).
  exists c'. split; [done|]. split; [done|]. apply (f_equal (fmap (λ c, length (entries c)))) in Hc'. vm_compute in Hc'. by injection Hc'.
Defined.

(** A backup imported during the night is not in the index in the morning. *)
Definition during : list Step := [Begin (Import 5 "docker-db-1.tar.gz"); End 1 (env (moment 20000 150))].
Lemma overlap_erases_witness :
  index (BackupRun.run start (Begin (night 20000).1 :: during ++ [End 0 (night 20000).2]))
  = index (BackupRun.run start [Begin (night 20000).1; End 0 (night 20000).2]).
Proof.
  destruct (perform (night 20000).2 (night 20000).1 (load_config (index start))) as [[r [c'|]] fx] eqn:Hp;
    [|exfalso; revert Hp; vm_compute; discriminate].
  destruct (overlap_erases start (night 20000).1 (night 20000).2 during r c' fx Hp eq_refl
    ltac:(repeat (apply Forall_cons_2; [done|]); apply Forall_nil_2)) as [H1 H2].
  etransitivity; [exact H1|symmetry; exact H2].
Defined.

Lemma fires_once_a_day_witness :
  fires nightly [moment 20000 119; moment 20000 120; (moment 20000 120 + 30 * SEC)%Z; moment 20000 121] = 1%nat ∧
  (fires nightly [moment 20000 119; moment 20000 120; (moment 20000 120 + 30 * SEC)%Z; moment 20000 121] ≤ 1)%nat.
Proof.
  split; [by vm_compute|]. apply (fires_once_a_day 20000).
  repeat (apply Forall_cons_2; [split; [by split; apply Z.leb_le || apply Z.ltb_lt; vm_compute|by vm_compute]|]). apply Forall_nil_2.
Defined.
End Toy.
