(* ===== verification/BackupNames.v ===== *)
(** * Backups: groups on a PBS server, destinations and names

    A group is meant to hold the snapshots of one target; its identifier is
    read back from the name of the archive. *)
From S2P Require Import Prelude Net Digits Backup BackupRun BackupPrune BackupProps.

(** ** Identifiers read back *)
#[local] Ltac kind := repeat first [by left|right].
Definition undated (name : string) : Prop := Forall (λ p, is_stamp p = false) (split_on "-" name).

Lemma before_stamp_app l d r :
  Forall (λ p, is_stamp p = false) l → is_stamp d = true → before_stamp (l ++ d :: r) = Some l.
Proof.
  intros Hl Hd. induction Hl as [|p l Hp _ IH]; cbn; [by rewrite Hd|]. by rewrite Hp, IH.
Qed.
Lemma stamp_split d t : is_stamp d = true → split_on "-" (d +:+ "-" +:+ t) = d :: split_on "-" t.
Proof.
  intros Hd. change ("-" +:+ t) with (String "-" t). apply split_on_app. unfold is_stamp in Hd.
  apply andb_true_iff in Hd as [_ Hd]. by apply (all_chars_without (char_between 48 57)).
Qed.

(** Up to the first dash after the kind, then up to the first date. *)
Lemma id_of_archive kind name d t :
  kind ∈ ["docker"; "lxc"; "vm"; "config"; "systempath"] → undated name → is_stamp d = true →
  extract_backup_id_from_filename (kind +:+ "-" +:+ name +:+ "-" +:+ d +:+ "-" +:+ t) = name.
Proof.
  intros Hk Hn Hd. unfold extract_backup_id_from_filename.
  set (rest := name +:+ "-" +:+ d +:+ "-" +:+ t).
  assert (String.prefix "vzdump-lxc-" (kind +:+ "-" +:+ rest) || String.prefix "vzdump-qemu-" (kind +:+ "-" +:+ rest) = false
          ∧ split_once "-" (kind +:+ "-" +:+ rest) = Some (kind, rest)) as [-> ->].
  { repeat (apply elem_of_cons in Hk as [->|Hk]; [by split|]). by apply not_elem_of_nil in Hk. }
  unfold rest. change ("-" +:+ ?x) with (String "-" x) at 1. rewrite split_on_concat, stamp_split by done.
  rewrite before_stamp_app by done. apply (join_split_on "-"%char).
Qed.

Lemma group_of_archive kind name stamp d t :
  kind ∈ ["docker"; "lxc"; "vm"; "config"; "systempath"] → undated name → is_stamp d = true → stamp = d +:+ "-" +:+ t →
  extract_backup_id_from_filename (kind +:+ "-" +:+ name +:+ "-" +:+ stamp +:+ ".tar.gz") = name.
Proof. intros Hk Hn Hd ->. rewrite !string_app_assoc. by apply id_of_archive. Qed.

Lemma type_of_archive kind x :
  kind ∈ ["docker"; "lxc"; "vm"; "config"; "systempath"] →
  pbs_backup_type_for_filename (kind +:+ "-" +:+ x)
  = if bool_decide (kind ∈ ["docker"; "lxc"]) then "ct" else if bool_decide (kind = "vm") then "vm" else "host".
Proof.
  intros Hk. repeat (apply elem_of_cons in Hk as [->|Hk]; [by destruct x|]). by apply not_elem_of_nil in Hk.
Qed.

(** C16: The group of an archive is that of its target.  The identifier read
    back from the name of an archive is the name of the container or machine,
    or the node's, as long as no part of it between dashes has the form of a
    date; two nodes whose names remain distinct have distinct groups. *)
Theorem archive_group_roundtrip name host stamp d t :
  is_stamp d = true → stamp = d +:+ "-" +:+ t →
  (undated name →
     pbs_group_for_filename (docker_archive name stamp) = "ct/" +:+ name ∧
     pbs_group_for_filename (lxc_archive name stamp) = "ct/" +:+ name ∧
     pbs_group_for_filename (vm_archive name stamp) = "vm/" +:+ name) ∧
  (undated (config_archive_node_id host) →
     pbs_group_for_filename (config_archive host stamp) = "host/" +:+ config_archive_node_id host).
Proof.
  intros Hd Hs. unfold pbs_group_for_filename. split.
  - intros Hn. unfold docker_archive, lxc_archive, vm_archive.
    change ("docker-" +:+ ?x) with ("docker" +:+ "-" +:+ x). change ("lxc-" +:+ ?x) with ("lxc" +:+ "-" +:+ x).
    change ("vm-" +:+ ?x) with ("vm" +:+ "-" +:+ x).
    rewrite !(group_of_archive _ name stamp d t) by (done || kind). by rewrite !type_of_archive by kind.
  - intros Hn. unfold config_archive. change ("config-" +:+ ?x) with ("config" +:+ "-" +:+ x).
    rewrite (group_of_archive _ _ stamp d t) by (done || kind). by rewrite type_of_archive by kind.
Qed.

(** A date in a name hides the rest of it.  All containers whose names
    agree up to a part of eight digits share one group with the container that
    has the common part for its name, and retention counts their snapshots
    together. *)
Theorem dated_names_share_a_group name date rest stamp d t :
  undated name → is_stamp date = true → is_stamp d = true → stamp = d +:+ "-" +:+ t →
  pbs_group_for_filename (docker_archive (name +:+ "-" +:+ date +:+ "-" +:+ rest) stamp)
  = pbs_group_for_filename (docker_archive name stamp).
Proof.
  intros Hn Hdate Hd Hs. unfold pbs_group_for_filename, docker_archive.
  change ("docker-" +:+ ?x) with ("docker" +:+ "-" +:+ x). rewrite !type_of_archive by kind. f_equal. rewrite (group_of_archive "docker" name stamp d t) by (done || kind).
  rewrite !string_app_assoc. rewrite (id_of_archive "docker" name date (rest +:+ "-" +:+ stamp +:+ ".tar.gz")) by (done || kind).
  done.
Qed.

(** ** How many snapshots a group keeps *)
Section Groups.
Implicit Types (c : BackupConfig) (s : BackupSchedule).

Definition owner c (x : BackupEntry) : option BackupSchedule :=
  List.find (λ s, bool_decide (s_id s = schedule_id x)) (schedules c).

Lemma max_ge l (a x : Z) : x = a ∨ x ∈ l → x ≤ foldl Z.max a l.
Proof.
  revert a x. induction l as [|y l IH]; intros a x [Ha|Hx]; cbn [foldl]; [lia|by apply not_elem_of_nil in Hx| |].
  - transitivity (Z.max a y); [lia|apply IH; by left].
  - apply elem_of_cons in Hx as [->|Hx]; [|apply IH; by right]. transitivity (Z.max a y); [lia|apply IH; by left].
Qed.
Lemma max_le l (a b : Z) : a ≤ b → Forall (λ x, x ≤ b) l → foldl Z.max a l ≤ b.
Proof. intros Ha Hl. revert a Ha. induction Hl as [|x l Hx _ IH]; intros a Ha; cbn; [done|]. apply IH. lia. Qed.

Lemma keep_count_le c repo group own b :
  own ≤ b → (∀ x s, x ∈ entries c → in_group repo group x = true → owner c x = Some s → retention s ≤ b) →
  pbs_group_keep_count c repo group own ≤ b.
Proof.
  intros Ho Hx. apply max_le; [done|]. apply Forall_forall. intros k Hk. rewrite list_elem_of_omap in Hk.
  destruct Hk as (x & Hin & Hs). apply elem_of_retain in Hin as [Hin Hg]. unfold owner in Hx.
  destruct (List.find _ (schedules c)) as [s|] eqn:Hf; [|done]. injection Hs as <-. by eapply Hx.
Qed.

(** No schedule that owns snapshots in a group gets fewer than it asks for. *)
Lemma keep_count_covers c repo group own x s :
  x ∈ entries c → in_group repo group x = true → owner c x = Some s →
  own ≤ pbs_group_keep_count c repo group own ∧ retention s ≤ pbs_group_keep_count c repo group own.
Proof.
  intros Hx Hg Hs. split; apply max_ge; [by left|right]. rewrite list_elem_of_omap. exists x.
  split; [by apply elem_of_retain|]. unfold owner in Hs. by rewrite Hs.
Qed.

Lemma add_group_found l groups x :
  x ∈ l ∨ (∃ st, (pbs_repo_string (e_storage x), pbs_group_for_entry x, st) ∈ groups) →
  ∃ st, (pbs_repo_string (e_storage x), pbs_group_for_entry x, st) ∈ foldl add_group groups l.
Proof.
  revert groups. induction l as [|y l IH]; intros groups [Hx|Hx]; [by apply not_elem_of_nil in Hx|done| |]; cbn.
  - apply elem_of_cons in Hx as [->|Hx]; [|apply IH; by left]. apply IH. right. unfold add_group.
    destruct (existsb _ groups) eqn:He; [|eexists; rewrite elem_of_app; right; left].
    apply existsb_exists in He as ([[r g] st] & Hin & Heq). bool_props. subst. exists st. by apply list_elem_of_In.
  - apply IH. right. destruct Hx as [st Hx]. exists st. unfold add_group. destruct (existsb _ groups); [done|].
    by apply elem_of_app; left.
Qed.

(** A schedule that keeps everything loses its snapshots to one that does
    not.  A retention of 0 means unlimited, and the largest retention in a
    group is to decide; 0 counts as the least.  When a schedule that keeps
    some snapshots runs and writes to the same group, whose other schedules
    ask for no more, the group is pruned to what that schedule keeps. *)
Theorem unlimited_schedule_pruned c sid keep x y u :
  0 < keep → x ∈ entries c → counts sid x = true → storage_type (e_storage x) = Pbs →
  y ∈ entries c → in_group (pbs_repo_string (e_storage x)) (pbs_group_for_entry x) y = true →
  owner c y = Some u → retention u = 0 →
  (∀ z s, z ∈ entries c → in_group (pbs_repo_string (e_storage x)) (pbs_group_for_entry x) z = true →
     owner c z = Some s → retention s ≤ keep) →
  ∃ namespace, PruneGroup (pbs_repo_string (e_storage x)) namespace (pbs_group_for_entry x) keep
    ∈ prune_pbs_groups_for_schedule c sid keep.
Proof.
  intros Hk Hx Hc Hst Hy Hg Hu Hr Hall. unfold prune_pbs_groups_for_schedule.
  rewrite (proj2 (Z.eqb_neq keep 0)) by lia.
  destruct (add_group_found (retain (λ e, counts sid e && bool_decide (storage_type (e_storage e) = Pbs)) (entries c)) [] x)
    as [st Hin].
  { left. apply elem_of_retain. split; [done|]. rewrite Hc. by apply bool_decide_eq_true. }
  exists (pbs_namespace st). apply list_elem_of_fmap. eexists. split; [|exact Hin]. f_equal.
  pose proof (keep_count_covers c _ _ keep y u Hy Hg Hu) as [Hge _].
  pose proof (keep_count_le c _ _ keep keep ltac:(done) Hall) as Hle. lia.
Qed.

(** Two namespaces of one repository are one group to it: of the schedule's
    groups each identifier is pruned once. *)
Theorem one_prune_per_repository c sid keep r ns1 ns2 g k1 k2 i j :
  prune_pbs_groups_for_schedule c sid keep !! i = Some (PruneGroup r ns1 g k1) →
  prune_pbs_groups_for_schedule c sid keep !! j = Some (PruneGroup r ns2 g k2) → i = j.
Proof.
  unfold prune_pbs_groups_for_schedule. destruct (_ =? _); [by rewrite lookup_nil|].
  set (l := retain _ _). rewrite !list_lookup_fmap.
  assert (∀ l groups, NoDup ((λ x : string * string * BackupStorage, x.1) <$> groups) →
    NoDup ((λ x : string * string * BackupStorage, x.1) <$> foldl add_group groups l)) as Hnd.
  { clear. intros l. induction l as [|x l IH]; intros groups Hg; [done|]. cbn. apply IH. unfold add_group.
    destruct (existsb _ groups) eqn:He; [done|]. rewrite fmap_app. apply NoDup_app. split_and!; [done| |apply NoDup_singleton].
    intros [r g] Hin Heq%list_elem_of_singleton. cbn in Heq. injection Heq as -> ->. apply list_elem_of_fmap in Hin as ([[r g] st] & [= <- <-] & Hin).
    apply existsb_Forall in He. rewrite Forall_forall in He. specialize (He _ Hin). cbn in He. by rewrite !bool_decide_true in He. }
  specialize (Hnd l [] (NoDup_nil_2)). set (gs := foldl add_group [] l) in *. clearbody gs.
  destruct (gs !! i) as [[[r1 g1] s1]|] eqn:Hi; [|done]. destruct (gs !! j) as [[[r2 g2] s2]|] eqn:Hj; [|done].
  cbn. intros [= -> <- -> _] [= -> <- -> _]. eapply NoDup_lookup; [exact Hnd|..]; rewrite list_lookup_fmap.
  - by rewrite Hi.
  - by rewrite Hj.
Qed.
End Groups.

(** ** Destinations *)
Lemma check_segments_plain l : check_segments l = Ok () ↔ Forall (λ p, plain_segment p = true) l.
Proof.
  unfold plain_segment. induction l as [|p l IH]; [by split|]. cbn. rewrite Forall_cons, bool_decide_eq_true.
  repeat case_bool_decide; subst; try (split; [done|]; intros [Hp _]; exfalso; apply Hp; set_solver).
  rewrite IH. split; [|tauto]. intros ?. split; [|done]. set_solver.
Qed.

(** A sub-path that was accepted is used as it is; one that was not, can
    still not leave the mount. *)
Theorem accepted_subpath_is_used s :
  storage_type s = Wolfdisk →
  (validate_wolfdisk_subpath (wolfdisk_subpath s) = Ok () →
   resolved_local_path s = trim_end_char "/" (st_path s) +:+
     (if bool_decide (trim_char "/" (trim (wolfdisk_subpath s)) = "") then "" else "/" +:+ trim_char "/" (trim (wolfdisk_subpath s)))) ∧
  (resolved_local_path s = trim_end_char "/" (st_path s) ∨
   ∃ segs, Forall (λ p, plain_segment p = true) segs ∧ resolved_local_path s = trim_end_char "/" (st_path s) +:+ "/" +:+ join "/" segs).
Proof.
  intros Ht. unfold resolved_local_path, validate_wolfdisk_subpath. rewrite (bool_decide_true (storage_type s = Wolfdisk)) by done. cbn [negb].
  set (raw := trim_char "/" _). set (base := trim_end_char "/" _).
  assert (base +:+ "" = base) as Hb.
  { clearbody base. clear. induction base as [|ch b IH]; [done|].
    change (String ch b +:+ "") with (String ch (b +:+ "")). by rewrite IH. }
  case_bool_decide as Hr; [by rewrite Hb; split; [|left]|]. split.
  - intros Hc%check_segments_plain. rewrite (retain_all plain_segment) by done.
    rewrite bool_decide_false by apply split_on_not_nil. change "/"%string with (String "/" "") at 2. by rewrite (join_split_on "/"%char).
  - case_bool_decide; [by left|]. right. eexists. split; [|done]. apply Forall_forall. by intros p [_ ?]%elem_of_retain.
Qed.

(** A destination that no longer exists is not replaced by the primary
    connection; otherwise each field is the first that is set of the backup's,
    the destination's and the primary's. *)
Theorem chosen_destination_or_none saved all s :
  storage_type s = Pbs → pbs_target_id s ≠ "" →
  match List.find (λ t, bool_decide (pt_id t = pbs_target_id s)) all with
  | None => pbs_server (merge_pbs_secrets saved all s) = "" ∧ pbs_datastore (merge_pbs_secrets saved all s) = ""
  | Some t =>
      pbs_server (merge_pbs_secrets saved all s) = or_else (or_else (pbs_server s) (pt_server t)) (pbs_server saved) ∧
      pbs_datastore (merge_pbs_secrets saved all s) = or_else (or_else (pbs_datastore s) (pt_datastore t)) (pbs_datastore saved) ∧
      pbs_namespace (merge_pbs_secrets saved all s) = or_else (or_else (pbs_namespace s) (pt_namespace t)) (pbs_namespace saved)
  end.
Proof.
  intros Ht Hid. unfold merge_pbs_secrets. rewrite (bool_decide_true (storage_type s = Pbs)) by done. cbn [negb]. rewrite (bool_decide_false (pbs_target_id s = "")) by done.
  destruct (List.find _ all) as [t|]; [|done]. unfold apply_pbs_target. by destruct (negb _ && _).
Qed.

(** The server of a network share is looked for where no share has it. *)
Theorem share_never_references_server s r :
  st_path s = "" → pbs_server s = "" → endpoint s = "" → remote_url s = "" → storage_references_server s r = false.
Proof.
  intros H1 H2 H3 H4. unfold storage_references_server. rewrite H1, H2, H3, H4. by case_bool_decide.
Qed.

(** The file a peer may write or remove is one name in the directory of
    received backups. *)
Theorem received_path_confined dir file p :
  received_backup_path dir file = Some p → p = (dir, file) ∧ contains_char "/" file = false ∧ file ≠ ".." ∧ file ≠ "." ∧ file ≠ "".
Proof.
  unfold received_backup_path, path_file_name. destruct (last _) as [name|] eqn:Hl; [|done]. cbn.
  case_bool_decide as Hdd; [done|]. cbn. case_bool_decide as He; [|done]. intros [= <-]. subst file.
  apply last_Some in Hl as [l Hl]. assert (name ∈ retain (λ c, bool_decide (c ≠ "") && bool_decide (c ≠ ".")) (split_on "/" name)) as Hin.
  { rewrite Hl. apply elem_of_app; right; left. }
  apply elem_of_retain in Hin as [Hin Hne]. apply andb_true_iff in Hne as [Hne%bool_decide_eq_true Hnd%bool_decide_eq_true].
  split_and!; try done. clear -Hin. apply not_true_is_false. intros Hc.
  assert (∀ s, ∀ p, p ∈ split_on "/" s → (String.length p ≤ String.length s)%nat ∧ (contains_char "/" s = true → (String.length p < String.length s)%nat)) as Hshort.
  { clear. intros s. induction s as [|c s IH]; intros p; cbn.
    - intros ->%list_elem_of_singleton. done.
    - case_bool_decide as Hs.
      + intros [->|Hp]%elem_of_cons; cbn; [lia|]. destruct (IH p Hp). lia.
      + pose proof (split_on_not_nil "/" s) as Hn. destruct (split_on "/" s) as [|x l] eqn:Hsp; [done|].
        intros [->|Hp]%elem_of_cons; cbn.
        * destruct (IH x ltac:(left)) as [H1 H2]. split; [lia|]. intros Hc. specialize (H2 Hc). lia.
        * destruct (IH p ltac:(by right)) as [H1 H2]. split; [lia|]. intros _. lia. }
  destruct (Hshort name name Hin) as [_ Hlt]. specialize (Hlt Hc). lia.
Qed.

(** ** At concrete inputs *)
Lemma archive_group_roundtrip_witness :
  pbs_group_for_filename (docker_archive "my-app" "20261103-040000") = "ct/my-app" ∧
  pbs_group_for_filename (config_archive "20261103" "20261103-040000") = "host/20261103n".
Proof.
  pose proof (archive_group_roundtrip "my-app" "20261103" "20261103-040000" "20261103" "040000" eq_refl eq_refl) as [H1 H2].
  split; [apply H1; repeat (apply Forall_cons_2; [done|]); apply Forall_nil_2|].
  apply H2. repeat (apply Forall_cons_2; [done|]). apply Forall_nil_2.
Defined.
Lemma dated_names_share_a_group_witness :
  pbs_group_for_filename (docker_archive "db-20240101-main" "20261103-040000")
  = pbs_group_for_filename (docker_archive "db" "20261103-040000").
Proof.
  apply (dated_names_share_a_group "db" "20240101" "main" "20261103-040000" "20261103" "040000"); try done.
  apply Forall_cons_2; [done|apply Forall_nil_2].
Defined.

Module Toy.
Definition pbs : BackupStorage := default_storage <| storage_type := Pbs |> <| pbs_server := "pbs" |>.
Definition snapshot (sid : string) : BackupEntry :=
  mk_entry sid (target Config "") pbs "config-node-20261103-040000.tar.gz" 1 "1" Completed "" sid "" "node" "" [].
Definition sched (sid : string) (keep : Z) : BackupSchedule :=
  mk_schedule sid sid Daily "02:00" keep false [target Config ""] pbs true "" "" "" "" None None false false.
Definition two : BackupConfig := mk_config [sched "forever" 0; sched "week" 7] [snapshot "forever"; snapshot "week"].
Lemma unlimited_schedule_pruned_witness :
  ∃ namespace, PruneGroup (pbs_repo_string pbs) namespace "host/node" 7 ∈ prune_pbs_groups_for_schedule two "week" 7.
Proof.
  refine (unlimited_schedule_pruned two "week" 7 (snapshot "week") (snapshot "forever") (sched "forever" 0) eq_refl _ eq_refl eq_refl
    _ eq_refl eq_refl eq_refl _).
  - right; left.
  - left.
  - intros z s Hz _ Hs. apply elem_of_cons in Hz as [->|Hz]; [by injection Hs as <-|].
    apply list_elem_of_singleton in Hz as ->. by injection Hs as <-.
Defined.
End Toy.
