(* ===== verification/NodeIdentity.v ===== *)
(** * Node identities (src/src/node_identity.rs)

    The signature that tells which node sent a request, its check against the
    key pinned for that node, and the gates of api/mod.rs that combine it with
    the cluster secret.  Headers are read as the HTTP library reads them; the
    body is not signed. *)
From stdpp Require Import pretty.
From S2P Require Import Prelude Net Cluster AtRest Rotation.

(** ** What the code takes from ring: Ed25519 *)
Class Signing := {
  pkcs8_ok : string → bool;
  public_of : string → string;
  ed_sign : string → string → string;
  ed_verify : string → string → string → bool
}.
(** What a key signs verifies under its public half; base64 is printable and
    decodes to what it encodes. *)
Class SigningLaws `{Crypto} `{Signing} : Prop := {
  verify_sign k m : pkcs8_ok k = true → ed_verify (public_of k) m (ed_sign k m) = true;
  decode_encode x : unb64 (b64 x) = Some x;
  b64_plain x : all_chars (char_between 33 126) (b64 x) = true
}.

Definition MAX_SKEW_SECS : Z := 300.
Definition HDR_NODE : string := "X-WolfStack-Node".
Definition HDR_TS : string := "X-WolfStack-Ts".
Definition HDR_NONCE : string := "X-WolfStack-Nonce".
Definition HDR_DEST : string := "X-WolfStack-Dest".
Definition HDR_SIG : string := "X-WolfStack-Sig".
Definition HDR_SECRET : string := "X-WolfStack-Secret".
Definition CANONICAL_PREFIX : string := "wolfstack-peer-v1".

(** ** State of the process *)
Record Identity := { key : string; pubkey_b64 : string; ident : string }.
Inductive Mode := Transition | Strict.

Record IdState := {
  identity : option Identity;
  seen_nonces : gmap string Z;
  last_verified : option (string * Z);
  (** the variable WOLFSTACK_NODE_SIGNATURES, and [required] in the mode file;
      [None]: missing or not parseable *)
  mode_env : option string;
  mode_file : option bool
}.
#[export] Instance eta_IdState : Eta IdState := λ s,
  {| identity := identity s; seen_nonces := seen_nonces s; last_verified := last_verified s;
     mode_env := mode_env s; mode_file := mode_file s |}.

Definition mode (s : IdState) : Mode :=
  if bool_decide (mode_env s = Some "required") then Strict
  else if bool_decide (mode_env s = Some "off") then Transition
  else if default false (mode_file s) then Strict else Transition.

Definition path_exempt_from_strict (path : string) : bool :=
  bool_decide (path ∈ ["/api/cluster/join-handshake"; "/api/cluster/verify-token";
                       "/api/cluster/secret/receive"; "/api/cluster/bootstrap-add"]).

(** ** Messages *)
Definition canonical (node : string) (ts : Z) (nonce dest : string) : string :=
  join (String LF "") [CANONICAL_PREFIX; node; pretty ts; nonce; dest].

(** A request as a handler sees it; [cached]: the outcome kept in its
    extensions. *)
Inductive Verified := VNode (id : string) | Unsigned | Bad (why : string).
Record Request := { headers : string → option string; path : string; cached : option Verified }.
#[export] Instance eta_Request : Eta Request := λ r,
  {| headers := headers r; path := path r; cached := cached r |}.

(** [HeaderValue::to_str]: visible ASCII, blanks and tabs. *)
Definition to_str (s : string) : option string :=
  if all_chars (λ c, char_between 32 126 c || bool_decide (c = "009"%char)) s then Some s else None.
Definition header (r : Request) (name : string) : option string :=
  v ← headers r name; s ← to_str v; Some (trim s).

(** [trim_matches] of brackets. *)
Definition is_bracket (c : ascii) : bool := bool_decide (c ∈ ["["%char; "]"%char]).
Fixpoint trim_start_brackets (s : string) : string :=
  match s with
  | String c s' => if is_bracket c then trim_start_brackets s' else s
  | EmptyString => ""
  end.
Fixpoint trim_end_brackets (s : string) : string :=
  match s with
  | EmptyString => ""
  | String c s => match trim_end_brackets s with
                  | EmptyString => if is_bracket c then "" else String c ""
                  | s' => String c s'
                  end
  end.

Definition host_of_url (url : string) : string :=
  let hostport := before "/" (default url (after_first "://" url)) in
  match strip_prefix_char "["%char hostport with
  | Some rest => before "]" rest
  | None => match rsplit_once ":"%char hostport with
            | Some (h, _) => if contains_char ":"%char h then hostport else h
            | None => hostport
            end
  end.

Section Identity.
Context `{Crypto} `{Signing} {O : HashOrder Node} {OW : HashOrder string}.
(** The shared cluster state is registered at start-up. *)
Implicit Types (oc : option ClusterState) (st : IdState) (r : Request).

(** ** Keys *)

(** The key file. *)
Inductive KeyFile := KMissing | KUnreadable | KText (s : string).

(** [generated]: a fresh key, if the generator works. *)
Definition init (self_id : string) (generated : option string) (write_ok : bool) (file : KeyFile) st :
    res string () * KeyFile * IdState :=
  match identity st with Some _ => (Ok (), file, st) | None =>
  let '(pkcs8, file) := match file with
    | KText s => (ok_or (unb64 (trim s)) "not base64", file)
    | KMissing => match generated with
                  | None => (Err "Ed25519 key generation failed", file)
                  | Some k => if write_ok then (Ok k, KText (b64 k)) else (Err "write", file)
                  end
    | KUnreadable => (Err "read", file)
    end in
  match pkcs8 with
  | Ok k => if pkcs8_ok k
            then (Ok (), file, st <| identity := Some {| key := k; pubkey_b64 := b64 (public_of k); ident := self_id |} |>)
            else (Err "not a valid Ed25519 PKCS#8 key", file, st)
  | Err e => (Err e, file, st)
  | Panic => (Panic, file, st)
  end end.

Definition self_pubkey st : option string := pubkey_b64 <$> identity st.

Definition peers_without_key (now : Z) oc : list string :=
  match oc with
  | None => []
  | Some c => (λ n, if bool_decide (n_hostname n = "") then n_id n else n_hostname n) <$>
      retain (λ n, negb (n_is_self n) && bool_decide (n_node_type n = "wolfstack")
                   && bool_decide (default "" (n_pubkey n) = "")) (get_all_nodes now c)
  end.

(** What the mode file reads as after a write, and whether the write
    succeeded. *)
Inductive ModeWrite := MWritten | MFailed (left_behind : option bool).
Definition set_mode (now : Z) (w : ModeWrite) (strict : bool) oc st : res string () * IdState :=
  let missing := if strict then peers_without_key now oc else [] in
  if bool_decide (missing ≠ []) then (Err ("cannot require node signatures: no key pinned yet for " +:+ join ", " missing +:+ ". Upgrade those nodes and wait one poll cycle, or remove them."), st)
  else match w with
       | MWritten => (Ok (), st <| mode_file := Some strict |>)
       | MFailed left_behind => (Err "write", st <| mode_file := left_behind |>)
       end.

(** ** Signing *)
Definition lookup_address_by_wolfnet_ip (wolfnet : gmap string string) (ip : string) : option string :=
  fst <$> List.find (λ kv, bool_decide (kv.2 = ip)) (hm_iter wolfnet).

Definition reachable_at (host : string) (wolfnet_owner : option string) (n : Node) : bool :=
  eq_ignore_ascii_case (n_address n) host
  || match n_public_ip n with Some p => eq_ignore_ascii_case p host | None => false end
  || match n_migration_address n with Some p => eq_ignore_ascii_case p host | None => false end
  || match wolfnet_owner with Some a => eq_ignore_ascii_case a (n_address n) | None => false end.

Definition dest_for_host (now : Z) (locals : gset string) (wolfnet : gmap string string) (host : string) oc :
    option string :=
  let host := to_ascii_lowercase (trim_end_brackets (trim_start_brackets host)) in
  c ← oc;
  if bool_decide (host ∈ ["127.0.0.1"; "::1"; "localhost"]) || bool_decide (host ∈ locals)
  then Some (Cluster.self_id c) else
  let wolfnet_owner := lookup_address_by_wolfnet_ip wolfnet host in
  n ← List.find (reachable_at host wolfnet_owner) (get_all_nodes now c);
  Some (default (n_id n) (nonempty (n_self_id n))).

(** [nonce_bytes]: sixteen random bytes, if the system gives any. *)
Definition sign_for_host (now : Z) (nonce_bytes : option string) (locals : gset string)
    (wolfnet : gmap string string) (dest_host : string) oc st : option (list (string * string)) :=
  me ← identity st;
  let dest := default "" (dest_for_host now locals wolfnet dest_host oc) in
  bytes ← nonce_bytes;
  let nonce := b64 bytes in
  let sig := ed_sign (key me) (canonical (ident me) now nonce dest) in
  Some [(HDR_NODE, ident me); (HDR_TS, pretty now); (HDR_NONCE, nonce); (HDR_DEST, dest); (HDR_SIG, b64 sig)].

(** The headers of an outgoing call, whichever client sends it. *)
Definition raw_headers (now : Z) nonce_bytes locals wolfnet (secret url : string) oc st : list (string * string) :=
  (HDR_SECRET, secret) :: default [] (sign_for_host now nonce_bytes locals wolfnet (host_of_url url) oc st).
Definition curl_headers (now : Z) nonce_bytes locals wolfnet (secret url : string) oc st : list string :=
  (λ kv, kv.1 +:+ ": " +:+ kv.2) <$> raw_headers now nonce_bytes locals wolfnet secret url oc st.
Definition curl_headers_padded (now : Z) nonce_bytes locals wolfnet (secret url : string) oc st : list string :=
  let v := curl_headers now nonce_bytes locals wolfnet secret url oc st in
  take 6 (v ++ replicate (6 - length v) "X-WolfStack-Unsigned: 1").

(** ** Verification *)
Definition names_node (id : string) (n : Node) : bool :=
  bool_decide (n_id n = id) || bool_decide (n_self_id n = Some id).

Definition pinned_pubkey (now : Z) (id : string) oc : option string :=
  c ← oc; n ← List.find (names_node id) (get_all_nodes now c); nonempty (n_pubkey n).

(** Whether the nonce is new, and the cache. *)
Definition nonce_fresh (now : Z) (nonce : string) (ts : Z) (seen : gmap string Z) : bool * gmap string Z :=
  let seen := if (4096 <? size seen)%nat then map_retain (λ _ exp, now <? exp) seen else seen in
  match seen !! nonce with
  | Some exp => if now <? exp then (false, seen) else (true, <[nonce := ts + MAX_SKEW_SECS]> seen)
  | None => (true, <[nonce := ts + MAX_SKEW_SECS]> seen)
  end.

Record SignedParts := { p_node : string; p_ts : string; p_nonce : string; p_dest : string; p_sig : string }.

Definition verify_parts (our_id pubkey_b64 : string) (p : SignedParts) (now : Z) : res string () :=
  ts ← ok_or (parse_uint u64_max (p_ts p)) "timestamp is not a number";
  _ ← guard_err (MAX_SKEW_SECS <? Z.abs (ts - now)) ("timestamp skew " +:+ pretty (Z.abs (ts - now)) +:+ "s exceeds " +:+ pretty MAX_SKEW_SECS +:+ "s — check NTP on both nodes");
  _ ← guard_err (negb (bool_decide (p_dest p = our_id)))
        (if bool_decide (p_dest p = "") then "signature carries no destination (sender could not resolve this node's address)"
         else "signature is addressed to node " +:+ p_dest p +:+ " — not this node");
  pk ← ok_or (unb64 pubkey_b64) "pinned public key is not base64";
  sig ← ok_or (unb64 (p_sig p)) "signature is not base64";
  guard_err (negb (ed_verify pk (canonical (p_node p) ts (p_nonce p) (p_dest p)) sig))
    "signature does not verify against the pinned key".

Definition signed_parts r : option SignedParts :=
  node ← header r HDR_NODE; ts ← header r HDR_TS; nonce ← header r HDR_NONCE; sig ← header r HDR_SIG;
  Some {| p_node := node; p_ts := ts; p_nonce := nonce; p_dest := default "" (header r HDR_DEST); p_sig := sig |}.

(** [t1]: the clock when the time stamp is checked, [t2]: when the nonce is. *)
Definition verify_request_uncached (t1 t2 : Z) oc r st : Verified * IdState :=
  match signed_parts r with None => (Unsigned, st) | Some p =>
  match oc with None => (Bad "cluster state not initialised", st) | Some c =>
  match pinned_pubkey t1 (p_node p) oc with
  | None => (Bad ("no public key pinned for node " +:+ p_node p), st)
  | Some pk =>
      match verify_parts (Cluster.self_id c) pk p t1 with
      | Err e => (Bad e, st)
      | Panic => (Bad "", st)
      | Ok _ =>
          let '(fresh, seen) := nonce_fresh t2 (p_nonce p) (default 0 (parse_uint u64_max (p_ts p))) (seen_nonces st) in
          let st := st <| seen_nonces := seen |> in
          if negb fresh then (Bad "replayed nonce", st)
          else (VNode (p_node p), st <| last_verified := Some (p_node p, t2) |>)
      end
  end end end.

Definition verify_request (t1 t2 : Z) oc r st : Verified * Request * IdState :=
  match cached r with
  | Some v => (v, r, st)
  | None => let '(v, st) := verify_request_uncached t1 t2 oc r st in (v, r <| cached := Some v |>, st)
  end.

(** ** The gates (api/mod.rs) *)
Inductive Denied :=
| NoSecret | InvalidSecret | SignatureRequired | SignatureRejected (why : string)
| DefaultSecret | NotManager (id : string) | ManagerRequired | ReadOnlyActor | NoActor.

Definition peer_signature_gate (t1 t2 : Z) oc r st : res Denied (option string) * Request * IdState :=
  let '(v, r, st) := verify_request t1 t2 oc r st in
  (match v with
   | VNode id => Ok (Some id)
   | Unsigned => match mode st with
                 | Strict => if path_exempt_from_strict (path r) then Ok None else Err SignatureRequired
                 | Transition => Ok None
                 end
   | Bad why => match mode st with Strict => Err (SignatureRejected why) | Transition => Ok None end
   end, r, st).

Definition provided_secret r : option string := (λ v, default "" (to_str v)) <$> headers r HDR_SECRET.

Definition require_cluster_auth (t1 t2 : Z) (e : Env) (n : RotNode) oc r st : res Denied () * Request * IdState :=
  match provided_secret r with
  | None => (Err NoSecret, r, st)
  | Some provided =>
      if negb (validate_inter_node_secret_from e n provided) then (Err InvalidSecret, r, st) else
      let '(g, r, st) := peer_signature_gate t1 t2 oc r st in ((λ _, ()) <$> g, r, st)
  end.

(** [require_auth] of a request with a secret; without one ([None]) it looks
    for an API key or a session. *)
Definition require_auth_peer (t1 t2 : Z) (e : Env) (n : RotNode) oc r st :
    option (res Denied string * Request * IdState) :=
  provided ← provided_secret r;
  Some (if negb (validate_inter_node_secret_from e n provided) then (Err InvalidSecret, r, st) else
        let '(g, r, st) := peer_signature_gate t1 t2 oc r st in ((λ _, "cluster-node") <$> g, r, st)).

Definition is_manager (now : Z) (id : string) oc : bool :=
  default false (c ← oc; n_manager <$> List.find (names_node id) (get_all_nodes now c)).
Definition raw_header r (name : string) : option string := headers r name ≫= to_str.
Definition forwarded_actor r : option string :=
  a ← trim <$> raw_header r "X-WolfStack-Actor";
  if bool_decide (a = "") || bool_decide (a = "cluster-node") then None else Some a.

(** [require_operator_auth] of a request with a secret. *)
Definition require_operator_peer (t1 t2 : Z) (e : Env) (n : RotNode) oc r st :
    option (res Denied string * Request * IdState) :=
  provided ← provided_secret r;
  Some (
    if validate_cluster_secret provided CLUSTER_SECRET then (Err DefaultSecret, r, st) else
    if negb (validate_inter_node_secret_from e n provided) then (Err InvalidSecret, r, st) else
    let '(g, r, st) := peer_signature_gate t1 t2 oc r st in
    (signer ← g;
     _ ← match signer with
         | Some id => guard_err (negb (is_manager t1 id oc)) (NotManager id)
         | None => guard_err (match mode st with Strict => true | Transition => false end) ManagerRequired
         end;
     _ ← guard_err (bool_decide (raw_header r "X-WolfStack-Actor-Role" = Some "read-only")) ReadOnlyActor;
     match bool_decide (raw_header r "X-WolfStack-Proxied" = Some "1"), forwarded_actor r with
     | true, Some a => Ok (a +:+ " (via peer)")
     | _, _ => Err NoActor
     end, r, st)).

(** ** What an operator changes, once [require_operator_auth] let him in *)
Definition node_reset_identity (h : Host) (id : string) (c : ClusterState) : bool * ClusterState :=
  match nodes c !! id with
  | Some n => if n_is_self n then (false, c)
              else (true, save_nodes h (c <| nodes := <[id := n <| n_pubkey := None |>]> (nodes c) |>))
  | None => (false, c)
  end.
Definition node_policy (h : Host) (id : string) (manager : bool) (c : ClusterState) : ClusterState :=
  let changed := existsb (names_node id) (values c) in
  let c := c <| nodes := (λ n, if names_node id n then n <| n_manager := manager |> else n) <$> nodes c |> in
  if changed then save_nodes h c else c.
End Identity.
