(* ===== verification/IdentityProps.v ===== *)
(** * What node signatures guarantee

    Acceptance in strict mode, replays, and the way of a signed request from
    sender to receiver. *)
From stdpp Require Import pretty.
From S2P Require Import Prelude Net Digits Cluster ClusterProps AtRest AtRestProps Rotation NodeIdentity.

Section Props.
Context `{Crypto} `{Signing} {O : HashOrder Node} {OW : HashOrder string}.
Implicit Types (c : ClusterState) (oc : option ClusterState) (st : IdState) (r : Request) (p : SignedParts).

(** ** Texts of headers *)
Lemma all_chars_trim_start P s : all_chars P s = true → all_chars P (trim_start s) = true.
Proof.
  induction s as [|c s IH]; [done|]. cbn. intros Hs. destruct (is_ascii_space c); [|done].
  apply IH. by apply andb_true_iff in Hs as [_ ?].
Qed.
Lemma all_chars_trim_end P s : all_chars P s = true → all_chars P (trim_end s) = true.
Proof.
  induction s as [|c s IH]; [done|]. cbn. rewrite andb_true_iff. intros [Hc Hs]. specialize (IH Hs).
  destruct (trim_end s) as [|d s']; [destruct (is_ascii_space c); cbn; by rewrite ?Hc|]. cbn. by rewrite Hc.
Qed.

Lemma header_no_lf r name v : header r name = Some v → contains_char LF v = false.
Proof.
  unfold header, to_str. intros (w & _ & (s & Hs & [= <-])%bind_Some)%bind_Some.
  destruct (all_chars _ w) eqn:Hw; [|done]. injection Hs as <-.
  eapply all_chars_without; [|by apply all_chars_trim_end, all_chars_trim_start]. done.
Qed.

(** ** The signed text determines its parts *)
Lemma canonical_inj node ts nonce dest node' ts' nonce' dest' :
  contains_char LF node = false → contains_char LF node' = false →
  contains_char LF nonce = false → contains_char LF nonce' = false → 0 ≤ ts → 0 ≤ ts' →
  canonical node ts nonce dest = canonical node' ts' nonce' dest' →
  (node, ts, nonce, dest) = (node', ts', nonce', dest').
Proof.
  intros Hn Hn' Hc Hc' Ht Ht'. unfold canonical, join.
  assert (∀ z, 0 ≤ z → contains_char LF (pretty z) = false) as Hd.
  { intros z Hz. eapply all_chars_without; [|by apply pretty_digits]. done. }
  intros (_ & E)%(first_cut LF); [|done..]. apply (first_cut LF) in E as [-> E]; [|done..].
  apply (first_cut LF) in E as [Ez E]; [|by apply Hd..]. apply (first_cut LF) in E as [-> ->]; [|done..].
  by apply (inj pretty) in Ez as ->.
Qed.

Lemma parse_uint_nonneg max s z : parse_uint max s = Some z → 0 ≤ z.
Proof.
  assert (∀ s acc z, 0 ≤ acc → parse_digits max acc s = Some z → 0 ≤ z) as Hp.
  { clear. intros s. induction s as [|c s IH]; intros acc z Ha; cbn; [by intros [= <-]|].
    destruct (char_between 48 57 c) eqn:Hc; [|done]. case_match; [done|]. apply IH.
    unfold char_between in Hc. apply andb_true_iff in Hc as [Hc%Z.leb_le _]. lia. }
  unfold parse_uint. case_bool_decide; [done|]. by apply Hp.
Qed.

(** ** What acceptance means *)
Lemma verify_parts_Ok our pk p t u :
  verify_parts our pk p t = Ok u →
  ∃ ts kb sb, parse_uint u64_max (p_ts p) = Some ts ∧ Z.abs (ts - t) ≤ MAX_SKEW_SECS ∧ p_dest p = our ∧
    unb64 pk = Some kb ∧ unb64 (p_sig p) = Some sb ∧
    ed_verify kb (canonical (p_node p) ts (p_nonce p) (p_dest p)) sb = true.
Proof.
  unfold verify_parts. intros (ts & Hts%ok_or_Ok & Hr)%bind_Ok.
  apply bind_Ok in Hr as (u1 & Hs%guard_err_Ok & Hr). apply bind_Ok in Hr as (u2 & Hd%guard_err_Ok & Hr).
  apply bind_Ok in Hr as (kb & Hk%ok_or_Ok & Hr). apply bind_Ok in Hr as (sb & Hsb%ok_or_Ok & Hv%guard_err_Ok).
  apply negb_false_iff in Hd, Hv. apply bool_decide_eq_true in Hd.
  exists ts, kb, sb. split_and!; try done. by apply Z.ltb_ge in Hs.
Qed.

Lemma verify_parts_intro our pk p t ts kb sb :
  parse_uint u64_max (p_ts p) = Some ts → Z.abs (ts - t) ≤ MAX_SKEW_SECS → p_dest p = our →
  unb64 pk = Some kb → unb64 (p_sig p) = Some sb →
  ed_verify kb (canonical (p_node p) ts (p_nonce p) (p_dest p)) sb = true → verify_parts our pk p t = Ok ().
Proof.
  intros Hts Hs Hd Hk Hsb Hv. unfold verify_parts. rewrite Hts, Hk, Hsb. cbn [mbind res_bind ok_or].
  apply Z.ltb_ge in Hs. rewrite Hs. cbn [mbind res_bind guard_err]. rewrite Hd, bool_decide_true by done.
  cbn [mbind res_bind guard_err negb]. rewrite Hd in Hv. by rewrite Hv.
Qed.

Lemma accepted_inv t1 t2 oc r st x st' :
  verify_request_uncached t1 t2 oc r st = (VNode x, st') →
  ∃ c p pk u, oc = Some c ∧ signed_parts r = Some p ∧ p_node p = x ∧ pinned_pubkey t1 x oc = Some pk ∧
    verify_parts (Cluster.self_id c) pk p t1 = Ok u ∧
    nonce_fresh t2 (p_nonce p) (default 0 (parse_uint u64_max (p_ts p))) (seen_nonces st) = (true, seen_nonces st') ∧
    mode_env st' = mode_env st ∧ mode_file st' = mode_file st.
Proof.
  unfold verify_request_uncached. intros Hv.
  destruct (signed_parts r) as [p|] eqn:Hp; [|done]. destruct oc as [c|]; [|done].
  destruct (pinned_pubkey t1 (p_node p) (Some c)) as [pk|] eqn:Hpk; [|done].
  destruct (verify_parts _ _ _ _) as [u| |] eqn:Hvp; [|done..].
  destruct (nonce_fresh _ _ _ _) as [fresh seen] eqn:Hf. destruct fresh; [|done].
  injection Hv as <- <-. by exists c, p, pk, u.
Qed.

Lemma mode_kept t1 t2 oc r st v st' :
  verify_request_uncached t1 t2 oc r st = (v, st') → mode st' = mode st.
Proof.
  unfold verify_request_uncached. intros Hv. unfold mode.
  destruct (signed_parts r) as [p|]; [|by injection Hv as _ <-]. destruct oc as [c|]; [|by injection Hv as _ <-].
  destruct (pinned_pubkey _ _ _); [|by injection Hv as _ <-]. destruct (verify_parts _ _ _ _); [|by injection Hv as _ <-..].
  destruct (nonce_fresh _ _ _ _) as [[] ?]; by injection Hv as _ <-.
Qed.

(** ** Nonces *)
Lemma fresh_seen t nonce ts seen b seen' :
  nonce_fresh t nonce ts seen = (b, seen') →
  (∀ i exp, i ≠ nonce ∨ b = false → seen !! i = Some exp → t < exp → seen' !! i = Some exp) ∧
  (b = true → seen' !! nonce = Some (ts + MAX_SKEW_SECS)) ∧
  (∀ exp, seen !! nonce = Some exp → t < exp → b = false).
Proof.
  unfold nonce_fresh. set (s := if (4096 <? size seen)%nat then _ else _).
  assert (∀ i exp, seen !! i = Some exp → t < exp → s !! i = Some exp) as Hs.
  { intros i exp Hi Ht. unfold s. destruct (_ <? _)%nat; [|done]. apply map_retain_lookup. split; [done|by apply Z.ltb_lt]. }
  intros Hf. split_and!.
  - intros i exp Hi Hse Ht. specialize (Hs i exp Hse Ht).
    destruct (s !! nonce) as [e|]; [destruct (t <? e)|]; injection Hf as <- <-; destruct Hi as [Hi|Hi];
      by rewrite ?lookup_insert_ne.
  - intros ->. destruct (s !! nonce) as [e|]; [destruct (t <? e)|]; try done; injection Hf as <-; apply lookup_insert_eq.
  - intros exp Hse Ht. rewrite (Hs nonce exp Hse Ht) in Hf. apply Z.ltb_lt in Ht as Ht'. rewrite Ht' in Hf.
    by injection Hf as <- _.
Qed.

(** ** Authenticity

    [signed k]: what the owner of the public key [k] has signed so far. *)
Abbreviation Statement := (string * Z * string * string)%type.
Context (signed : string → list Statement).
Definition only_owner_signs : Prop := ∀ k m s, ed_verify k m s = true →
  ∃ node ts nonce dest, (node, ts, nonce, dest) ∈ signed k ∧ m = canonical node ts nonce dest.
Definition signs_plainly : Prop := ∀ k node ts nonce dest, (node, ts, nonce, dest) ∈ signed k →
  contains_char LF node = false ∧ contains_char LF nonce = false ∧ 0 ≤ ts.

(** The request names [x] as its sender and bears a time stamp and a nonce,
    and for this very time and nonce the owner of the key that is pinned in the
    record [n] of [x] stated that it, as [x], calls this node; the time is
    within five minutes of [t]. *)
Record vouched (t : Z) c r (x : string) (n : Node) : Prop := {
  v_named : header r HDR_NODE = Some x;
  v_record : List.find (names_node x) (get_all_nodes t c) = Some n;
  v_statement : ∃ pk kb tss ts nonce,
    n_pubkey n = Some pk ∧ unb64 pk = Some kb ∧
    header r HDR_TS = Some tss ∧ parse_uint u64_max tss = Some ts ∧ Z.abs (ts - t) ≤ MAX_SKEW_SECS ∧
    header r HDR_NONCE = Some nonce ∧ (x, ts, nonce, Cluster.self_id c) ∈ signed kb
}.

(** Its nonce was not in use, and is from now on. *)
Definition spent (t : Z) r (seen seen' : gmap string Z) : Prop :=
  ∃ nonce, header r HDR_NONCE = Some nonce ∧ (∀ exp, seen !! nonce = Some exp → exp ≤ t) ∧
    is_Some (seen' !! nonce).

Lemma nonempty_Some o s : nonempty o = Some s → o = Some s.
Proof. destruct o as [s'|]; [|done]. cbn. case_bool_decide; [done|]. by intros [= ->]. Qed.

Lemma accepted_vouched t1 t2 c r st x st' :
  only_owner_signs → signs_plainly →
  verify_request_uncached t1 t2 (Some c) r st = (VNode x, st') → ∃ n, vouched t1 c r x n.
Proof.
  intros Hown Hplain (c' & p & pk & u & [= <-] & Hp & Hx & Hpk & Hv & _)%accepted_inv.
  apply verify_parts_Ok in Hv as (ts & kb & sb & Hts & Hskew & Hd & Hk & _ & Hver).
  destruct (Hown _ _ _ Hver) as (node & ts' & nonce & dest & Hin & Heq).
  destruct (Hplain _ _ _ _ _ Hin) as (Hl1 & Hl2 & Hl3).
  unfold signed_parts in Hp. apply bind_Some in Hp as (a & Ha & Hp). apply bind_Some in Hp as (b & Hb & Hp).
  apply bind_Some in Hp as (d & Hdd & Hp). apply bind_Some in Hp as (s & _ & [= <-]).
  cbn [p_node p_ts p_nonce p_dest p_sig] in *. subst a.
  pose proof (parse_uint_nonneg _ _ _ Hts) as Hts0. pose proof (header_no_lf _ _ _ Ha). pose proof (header_no_lf _ _ _ Hdd).
  apply canonical_inj in Heq as [= <- <- <- <-]; [|done..].
  unfold pinned_pubkey in Hpk. apply bind_Some in Hpk as (c' & [= <-] & Hpk).
  apply bind_Some in Hpk as (n & Hn & Hpk%nonempty_Some). exists n. split; [done..|].
  exists pk, kb, b, ts, d. by rewrite <-Hd.
Qed.

Lemma accepted_spent t1 t2 oc r st x st' :
  verify_request_uncached t1 t2 oc r st = (VNode x, st') → spent t2 r (seen_nonces st) (seen_nonces st').
Proof.
  intros (c & p & pk & u & _ & Hp & _ & _ & _ & Hf & _)%accepted_inv. exists (p_nonce p). split.
  { unfold signed_parts in Hp. apply bind_Some in Hp as (a & _ & Hp). apply bind_Some in Hp as (b & _ & Hp).
    apply bind_Some in Hp as (d & Hd & Hp). by apply bind_Some in Hp as (s & _ & [= <-]). }
  split; [|by apply fresh_seen in Hf as (_ & -> & _)]. intros exp He.
  destruct (decide (t2 < exp)) as [Ht|]; [|lia]. apply fresh_seen in Hf as (_ & _ & Hf). by specialize (Hf exp He Ht).
Qed.

(** C29: In strict mode the cluster secret alone opens nothing.  A request that
    passes the inter-node gate, on a path that is not exempt, carries an
    accepted secret, and for the time and the nonce it bears the owner of the
    key pinned here for the node it names stated that it calls this node; the
    time is within five minutes of the clock, and the nonce was not in use and
    is now remembered.  The statement is about nothing else: path, method and
    body are not signed, so it may accompany another request than the one it
    was made for. *)
Theorem strict_gate_authentic t1 t2 e n c r st u r' st' :
  only_owner_signs → signs_plainly →
  mode st = Strict → path_exempt_from_strict (path r) = false → cached r = None →
  require_cluster_auth t1 t2 e n (Some c) r st = (Ok u, r', st') →
  (∃ secret, provided_secret r = Some secret ∧ validate_inter_node_secret_from e n secret = true) ∧
  (∃ x m, vouched t1 c r x m) ∧ spent t2 r (seen_nonces st) (seen_nonces st').
Proof.
  intros Hown Hplain Hmode Hpath Hc. unfold require_cluster_auth.
  destruct (provided_secret r) as [secret|]; [|done].
  destruct (validate_inter_node_secret_from e n secret) eqn:Hs; [|done]. cbn [negb].
  unfold peer_signature_gate, verify_request. rewrite Hc.
  destruct (verify_request_uncached t1 t2 (Some c) r st) as [v st1] eqn:Hv.
  assert (mode st1 = Strict) as -> by (by erewrite mode_kept). cbn. rewrite Hpath.
  destruct v as [x| |]; [|done..]. intros [= _ _ <-]. split_and!; [by exists secret| |by eapply accepted_spent].
  exists x. by eapply accepted_vouched.
Qed.

(** In strict mode only managers forward operators' actions.  A request
    that passes the operator gate by a cluster secret presents a secret other
    than the built-in one and a named operator, and the node whose key vouches
    for it is one the operators left as a manager. *)
Theorem operator_gate_needs_manager t1 t2 e n c r st who r' st' :
  only_owner_signs → signs_plainly → mode st = Strict → cached r = None →
  require_operator_peer t1 t2 e n (Some c) r st = Some (Ok who, r', st') →
  (∃ secret, provided_secret r = Some secret ∧ validate_cluster_secret secret CLUSTER_SECRET = false ∧
     validate_inter_node_secret_from e n secret = true) ∧
  (∃ a, forwarded_actor r = Some a ∧ who = a +:+ " (via peer)") ∧
  ∃ x m, vouched t1 c r x m ∧ n_manager m = true.
Proof.
  intros Hown Hplain Hmode Hc. unfold require_operator_peer.
  destruct (provided_secret r) as [secret|]; [|done]. cbn [mbind option_bind].
  destruct (validate_cluster_secret secret CLUSTER_SECRET) eqn:Hdef; [done|].
  destruct (validate_inter_node_secret_from e n secret) eqn:Hs; [|done]. cbn [negb].
  unfold peer_signature_gate, verify_request. rewrite Hc.
  destruct (verify_request_uncached t1 t2 (Some c) r st) as [v st1] eqn:Hv.
  assert (mode st1 = Strict) as Hm1 by (by erewrite mode_kept). rewrite Hm1. intros [= Hr _ <-].
  apply bind_Ok in Hr as (signer & Hsig & Hr). apply bind_Ok in Hr as (u1 & Hman & Hr).
  apply bind_Ok in Hr as (u2 & _ & Hr).
  split; [by exists secret|]. split.
  { destruct (bool_decide _); [|done]. unfold forwarded_actor in *. cbn [raw_header headers setter] in *.
    destruct (a ← _; _) as [a|]; [|done]. injection Hr as <-. by exists a. }
  destruct v as [x| |why]; [|destruct (path_exempt_from_strict _); [injection Hsig as <-|]; done|done].
  injection Hsig as <-. apply guard_err_Ok, negb_false_iff in Hman. unfold is_manager in Hman. cbn in Hman.
  destruct (accepted_vouched t1 t2 c r st x st1) as (m & Hvm); [done..|]. exists x, m. split; [done|].
  by rewrite (v_record _ _ _ _ _ Hvm) in Hman.
Qed.
End Props.

(** ** Replays *)
Section Replays.
Context `{Crypto} `{Signing} {O : HashOrder Node} {OW : HashOrder string}.
Implicit Types (c : ClusterState) (oc : option ClusterState) (st : IdState) (r : Request) (p : SignedParts).

(** A request whose signature is checked, the clock and the table then. *)
Record Arrival := { at1 : Z; at2 : Z; table : option ClusterState; req : Request }.
Definition check (st : IdState) (v : Arrival) : IdState :=
  (verify_request_uncached (at1 v) (at2 v) (table v) (req v) st).2.
Definition check_all (vs : list Arrival) (st : IdState) : IdState := foldl check st vs.
Definition stamp p : Z := default 0 (parse_uint u64_max (p_ts p)).

(** A nonce stays in the cache until it expires. *)
Lemma check_kept nonce exp st v :
  seen_nonces st !! nonce = Some exp → at2 v < exp → seen_nonces (check st v) !! nonce = Some exp.
Proof.
  intros Hs Ht. unfold check, verify_request_uncached.
  destruct (signed_parts (req v)) as [p|]; [|done]. destruct (table v) as [c|]; [|done].
  destruct (pinned_pubkey _ _ _); [|done]. destruct (verify_parts _ _ _ _); [|done..].
  destruct (nonce_fresh _ _ _ _) as [b seen'] eqn:Hf. apply fresh_seen in Hf as (Hk & _ & Hfresh).
  assert (seen' !! nonce = Some exp) as Hs'.
  { destruct (decide (nonce = p_nonce p)) as [->|Hne]; [|by apply Hk; [left|..]].
    by apply Hk; [right; eapply Hfresh|..]. }
  by destruct b.
Qed.

Lemma check_all_kept nonce exp vs st :
  seen_nonces st !! nonce = Some exp → Forall (λ v, at2 v < exp) vs → seen_nonces (check_all vs st) !! nonce = Some exp.
Proof.
  intros Hs Hvs. revert st Hs. induction Hvs as [|v vs Hv _ IH]; intros st Hs; [done|].
  apply (IH (check st v)). by apply check_kept.
Qed.

Lemma accepted_seen t1 t2 oc r st x st' p :
  verify_request_uncached t1 t2 oc r st = (VNode x, st') → signed_parts r = Some p →
  seen_nonces st' !! p_nonce p = Some (stamp p + MAX_SKEW_SECS).
Proof.
  intros (c & p' & pk & u & _ & Hp' & _ & _ & _ & Hf & _)%accepted_inv Hp. rewrite Hp in Hp'. injection Hp' as <-.
  by apply fresh_seen in Hf as (_ & -> & _).
Qed.

(** C30: A signature opens the door once.  After a signed request was accepted,
    no request with its nonce is accepted before the fifth minute after its
    time stamp is over, whatever other requests were checked in between. *)
Theorem replay_refused t1 t2 oc r st x st' p vs v p' y :
  verify_request_uncached t1 t2 oc r st = (VNode x, st') → signed_parts r = Some p →
  Forall (λ v, at2 v < stamp p + MAX_SKEW_SECS) (vs ++ [v]) →
  signed_parts (req v) = Some p' → p_nonce p' = p_nonce p →
  (verify_request_uncached (at1 v) (at2 v) (table v) (req v) (check_all vs st')).1 ≠ VNode y.
Proof.
  intros Ha Hp [Hvs Hv]%Forall_app Hp' Hn Hacc. apply Forall_cons in Hv as [Hv _].
  destruct (verify_request_uncached _ _ _ _ (check_all vs st')) as [w st2] eqn:Hw. cbn in Hacc. subst w.
  apply accepted_inv in Hw as (c & q & pk & u & _ & Hq & _ & _ & _ & Hf & _). rewrite Hp' in Hq. injection Hq as <-.
  apply fresh_seen in Hf as (_ & _ & Hf). rewrite Hn in Hf.
  discriminate (Hf (stamp p + MAX_SKEW_SECS) (check_all_kept _ _ vs st' (accepted_seen t1 t2 oc r st x st' p Ha Hp) Hvs) Hv).
Qed.

(** ** The last second of the window *)
Lemma find_fmap {A B} (f : A → B) (P : B → bool) (l : list A) :
  List.find P (f <$> l) = f <$> List.find (λ x, P (f x)) l.
Proof. induction l as [|x l IH]; [done|]. cbn. by destruct (P (f x)). Qed.

Lemma pinned_any_time t t' id oc : pinned_pubkey t id oc = pinned_pubkey t' id oc.
Proof.
  unfold pinned_pubkey. destruct oc as [c|]; [|done]. cbn. unfold get_all_nodes. rewrite !find_fmap.
  set (l := retain _ _). clearbody l. induction l as [|n l IH]; [done|]. cbn.
  assert (∀ b, names_node id (n <| n_online := b |>) = names_node id n) as Hb by done.
  destruct (n_is_self n) eqn:Hs; rewrite ?Hb; destruct (names_node id n); cbn; rewrite ?Hs; done.
Qed.

Definition edge (r : Request) c p : Arrival :=
  {| at1 := stamp p + MAX_SKEW_SECS; at2 := stamp p + MAX_SKEW_SECS; table := Some c; req := r |}.

Lemma edge_accepts t1 t2 c r st x st' p s :
  verify_request_uncached t1 t2 (Some c) r st = (VNode x, st') → signed_parts r = Some p →
  seen_nonces s !! p_nonce p = Some (stamp p + MAX_SKEW_SECS) →
  (verify_request_uncached (stamp p + MAX_SKEW_SECS) (stamp p + MAX_SKEW_SECS) (Some c) r s).1 = VNode x ∧
  seen_nonces (check s (edge r c p)) !! p_nonce p = Some (stamp p + MAX_SKEW_SECS).
Proof.
  intros (c' & p' & pk & u & [= <-] & Hp' & <- & Hpk & Hv & _)%accepted_inv Hp Hs.
  rewrite Hp in Hp'. injection Hp' as <-.
  assert (verify_parts (Cluster.self_id c) pk p (stamp p + MAX_SKEW_SECS) = Ok ()) as Hv'.
  { apply verify_parts_Ok in Hv as (ts & kb & sb & Hts & _ & Hd & Hk & Hsb & Hver). unfold stamp. rewrite Hts. cbn.
    apply verify_parts_intro with ts kb sb; try done. unfold MAX_SKEW_SECS. lia. }
  unfold check, edge. cbn [at1 at2 table req]. unfold verify_request_uncached. rewrite Hp.
  rewrite (pinned_any_time _ t1), Hpk, Hv'. fold (stamp p). unfold nonce_fresh.
  set (m := if (4096 <? size (seen_nonces s))%nat then _ else _).
  assert (match m !! p_nonce p with
          | Some exp => if stamp p + MAX_SKEW_SECS <? exp then (false, m)
                        else (true, <[p_nonce p := stamp p + MAX_SKEW_SECS]> m)
          | None => (true, <[p_nonce p := stamp p + MAX_SKEW_SECS]> m)
          end = (true, <[p_nonce p := stamp p + MAX_SKEW_SECS]> m)) as ->.
  { destruct (m !! p_nonce p) as [e|] eqn:He; [|done]. replace e with (stamp p + MAX_SKEW_SECS); [by rewrite Z.ltb_irrefl|].
    unfold m in He. destruct (_ <? _)%nat; [apply map_retain_lookup in He as [He _]|]; congruence. }
  cbn. split; [done|]. apply lookup_insert_eq.
Qed.

(** In the last second of its window a signature opens the door as often
    as one likes: the nonce has expired while the time stamp has not.  Whatever
    was checked in between, an accepted request that arrives again in second
    300 after its time stamp is accepted, and again after any number of such
    replays. *)
Theorem replay_in_last_second t1 t2 c r st x st' p vs k :
  verify_request_uncached t1 t2 (Some c) r st = (VNode x, st') → signed_parts r = Some p →
  Forall (λ v, at2 v < stamp p + MAX_SKEW_SECS) vs →
  (verify_request_uncached (stamp p + MAX_SKEW_SECS) (stamp p + MAX_SKEW_SECS) (Some c) r
     (check_all (vs ++ replicate k (edge r c p)) st')).1 = VNode x.
Proof.
  intros Ha Hp Hvs. refine (proj1 (edge_accepts t1 t2 c r st x st' p _ Ha Hp _)).
  unfold check_all. rewrite foldl_app. fold (check_all vs st').
  assert (seen_nonces (check_all vs st') !! p_nonce p = Some (stamp p + MAX_SKEW_SECS)) as Hs.
  { apply check_all_kept; [by eapply accepted_seen|done]. }
  revert Hs. generalize (check_all vs st'). induction k as [|k IH]; intros s Hs; [done|]. cbn.
  apply IH. by destruct (edge_accepts t1 t2 c r st x st' p s Ha Hp Hs).
Qed.
End Replays.

(** ** From sender to receiver *)
Section Calls.
Context `{Laws : SigningLaws} {O : HashOrder Node} {OW : HashOrder string}.
Implicit Types (c : ClusterState) (oc : option ClusterState) (st : IdState) (r : Request).

Abbreviation plain := (λ s, all_chars (char_between 33 126) s = true).
(** The headers as the receiver looks them up. *)
Definition headers_of (hs : list (string * string)) (name : string) : option string :=
  snd <$> List.find (λ kv, bool_decide (kv.1 = name)) hs.

Lemma plain_to_str s : plain s → to_str s = Some s.
Proof.
  intros Hs. unfold to_str. rewrite (all_chars_impl (char_between 33 126)); [done| |done].
  intros ch Hch. unfold char_between in *. apply orb_true_iff. left. lia.
Qed.
Lemma plain_header r name v : headers r name = Some v → plain v → header r name = Some v.
Proof. intros Hh Hv. unfold header. rewrite Hh. cbn. rewrite plain_to_str by done. cbn. by rewrite trim_plain. Qed.

Lemma init_identity sid gen wok file st file' st' :
  identity st = None → init sid gen wok file st = (Ok (), file', st') →
  ∃ k, pkcs8_ok k = true ∧ identity st' = Some {| key := k; pubkey_b64 := b64 (public_of k); ident := sid |}.
Proof.
  intros Hn. unfold init. rewrite Hn. destruct (match file with KText s => _ | KMissing => _ | KUnreadable => _ end) as [k f].
  destruct k as [k| |]; [|done..]. destruct (pkcs8_ok k) eqn:Hk; [|done]. intros [= _ <-]. by exists k.
Qed.

(** A signed call goes through.  A node that has set up its key and calls a
    URL it can resolve to the receiver passes the receiver's inter-node gate,
    in strict mode too, when the receiver has pinned its key, accepts the
    secret, has a clock within five minutes, and has not seen the nonce. *)
Theorem signed_call_passes sid gen wok file file' sta0 sta t locals wolfnet bytes secret url oca t1 t2 e n c stb r pk :
  identity sta0 = None → init sid gen wok file sta0 = (Ok (), file', sta) → self_pubkey sta = Some pk →
  dest_for_host t locals wolfnet (host_of_url url) oca = Some (Cluster.self_id c) →
  pinned_pubkey t1 sid (Some c) = Some pk →
  plain sid → plain (Cluster.self_id c) → plain secret → validate_inter_node_secret_from e n secret = true →
  0 ≤ t ≤ u64_max → Z.abs (t - t1) ≤ MAX_SKEW_SECS → seen_nonces stb !! b64 bytes = None → cached r = None →
  (∀ name, headers r name = headers_of (raw_headers t (Some bytes) locals wolfnet secret url oca sta) name) →
  (require_cluster_auth t1 t2 e n (Some c) r stb).1.1 = Ok ().
Proof.
  intros Hi0 Hi Hpk Hd Hpin Hsid Hself Hsec Hval Ht Hskew Hseen Hc Hh.
  apply init_identity in Hi as (k & Hk & Hid); [|done]. unfold self_pubkey in Hpk. rewrite Hid in Hpk. injection Hpk as <-.
  set (sig := ed_sign k (canonical sid t (b64 bytes) (Cluster.self_id c))).
  assert (raw_headers t (Some bytes) locals wolfnet secret url oca sta
          = [(HDR_SECRET, secret); (HDR_NODE, sid); (HDR_TS, pretty t); (HDR_NONCE, b64 bytes);
             (HDR_DEST, Cluster.self_id c); (HDR_SIG, b64 sig)]) as Hraw.
  { unfold raw_headers, sign_for_host. by rewrite Hid, Hd. }
  rewrite Hraw in Hh.
  assert (plain (pretty t)) as Hpt.
  { eapply all_chars_impl; [|apply (pretty_digits t); lia]. intros ch Hch. unfold is_digit, char_between in *. lia. }
  assert (signed_parts r = Some {| p_node := sid; p_ts := pretty t; p_nonce := b64 bytes;
                                   p_dest := Cluster.self_id c; p_sig := b64 sig |}) as Hsp.
  { unfold signed_parts. rewrite (plain_header r HDR_NODE sid), (plain_header r HDR_TS (pretty t)),
      (plain_header r HDR_NONCE (b64 bytes)), (plain_header r HDR_SIG (b64 sig)),
      (plain_header r HDR_DEST (Cluster.self_id c)); try done; by first [rewrite Hh|apply b64_plain]. }
  assert (parse_uint u64_max (pretty t) = Some t) as Hparse by by apply parse_pretty.
  assert (verify_parts (Cluster.self_id c) (b64 (public_of k))
            {| p_node := sid; p_ts := pretty t; p_nonce := b64 bytes; p_dest := Cluster.self_id c; p_sig := b64 sig |} t1 = Ok ()) as Hv.
  { apply verify_parts_intro with t (public_of k) sig; try done; [apply decode_encode..|]. by apply verify_sign. }
  unfold require_cluster_auth, provided_secret. rewrite Hh. cbn [headers_of List.find fmap option_fmap option_map].
  rewrite bool_decide_true by done. cbn. rewrite plain_to_str by done. cbn. rewrite Hval. cbn [negb].
  unfold peer_signature_gate, verify_request. rewrite Hc. unfold verify_request_uncached. rewrite Hsp.
  cbn [p_node p_nonce p_ts]. rewrite Hpin, Hv, Hparse. unfold nonce_fresh.
  set (m := if (4096 <? size (seen_nonces stb))%nat then _ else _).
  assert (m !! b64 bytes = None) as ->; [|done].
  unfold m. destruct (_ <? _)%nat; [|done]. apply map_retain_lookup_None. by left.
Qed.
End Calls.

(** ** At concrete inputs *)
Module Toy.
#[local] Instance crypto : Crypto := AtRestProps.Toy.toy.
#[local] Instance order : HashOrder Node := canonical_order Node.
#[local] Instance names : HashOrder string := canonical_order string.

(** The secret is the node's own; the peer ws-1 has pinned the key "k". *)
Definition env : Env := mk_env false false false true 0 1 Written Written true Written Written true (λ _, true)
  AtRestProps.Toy.healthy.
Definition rot : RotNode := mk_rot_node (Some "topsecret") None ∅ "topsecret" AtRestProps.Toy.node.
Definition table : ClusterState := ClusterProps.Demo.state (Some (b64 "k")).
Definition strict : IdState :=
  {| identity := None; seen_nonces := ∅; last_verified := None; mode_env := None; mode_file := Some true |}.
Definition request (hs : list (string * string)) : Request :=
  {| headers := headers_of hs; path := "/api/agent/status"; cached := None |}.

(** One statement has been signed. *)
Definition said (k : string) : list (string * Z * string * string) :=
  if bool_decide (k = "k") then [("ws-1", 1000, "n1", "ws-me")] else [].
Definition one_signature : Signing :=
  {| pkcs8_ok _ := true; public_of k := k; ed_sign _ _ := "s";
     ed_verify k m s := bool_decide (k = "k" ∧ s = "s" ∧ m = canonical "ws-1" 1000 "n1" "ws-me") |}.
Definition call : Request := request
  [(HDR_SECRET, "topsecret"); (HDR_NODE, "ws-1"); (HDR_TS, "1000"); (HDR_NONCE, "n1"); (HDR_DEST, "ws-me");
   (HDR_SIG, b64 "s"); ("X-WolfStack-Proxied", "1"); ("X-WolfStack-Actor", "paul")].

Lemma only_owner : @only_owner_signs one_signature said.
Proof.
  intros k m s. cbn. intros (-> & -> & ->)%bool_decide_eq_true. exists "ws-1", 1000, "n1", "ws-me". split; [|done].
  cbn. by left.
Qed.
Lemma plainly : signs_plainly said.
Proof.
  intros k node ts nonce dest. unfold said. case_bool_decide; [|by intros ?%not_elem_of_nil].
  by intros [= -> -> -> ->]%list_elem_of_singleton.
Qed.

Lemma strict_gate_authentic_witness :
  (∃ x m, vouched said 1100 table call x m) ∧ header call HDR_NONCE = Some "n1".
Proof.
  destruct (require_cluster_auth (H0 := one_signature) 1100 1100 env rot (Some table) call strict) as [[g r'] st'] eqn:E.
  destruct g as [u| |]; [|exfalso; revert E; vm_compute; discriminate..].
  split; [|by vm_compute].
  exact (proj1 (proj2 (strict_gate_authentic (H0 := one_signature) said 1100 1100 env rot table call strict u r' st'
                  only_owner plainly eq_refl eq_refl eq_refl E))).
Defined.

Lemma operator_gate_needs_manager_witness :
  ∃ x m, vouched said 1100 table call x m ∧ n_manager m = true.
Proof.
  destruct (require_operator_peer (H0 := one_signature) 1100 1100 env rot (Some table) call strict)
    as [[[g r'] st']|] eqn:E; [|exfalso; revert E; vm_compute; discriminate].
  destruct g as [u| |]; [|exfalso; revert E; vm_compute; discriminate..].
  exact (proj2 (proj2 (operator_gate_needs_manager (H0 := one_signature) said 1100 1100 env rot table call strict
                         u r' st' only_owner plainly eq_refl eq_refl E))).
Defined.

Definition parts : SignedParts :=
  {| p_node := "ws-1"; p_ts := "1000"; p_nonce := "n1"; p_dest := "ws-me"; p_sig := b64 "s" |}.
Definition after : IdState := (verify_request_uncached (H0 := one_signature) 1100 1100 (Some table) call strict).2.
Lemma accepted :
  verify_request_uncached (H0 := one_signature) 1100 1100 (Some table) call strict = (VNode "ws-1", after).
Proof. by vm_compute. Qed.
Definition arrival (t : Z) : Arrival := {| at1 := t; at2 := t; IdentityProps.table := Some table; req := call |}.

Lemma replay_refused_witness :
  (verify_request_uncached (H0 := one_signature) 1299 1299 (Some table) call
     (check_all (H0 := one_signature) [arrival 1200] after)).1 ≠ VNode "ws-1".
Proof.
  apply (replay_refused (H0 := one_signature) 1100 1100 (Some table) call strict "ws-1" after parts [arrival 1200]
           (arrival 1299) parts "ws-1" accepted); try done.
  repeat (apply Forall_cons_2; [done|]). apply Forall_nil_2.
Defined.

Lemma replay_in_last_second_witness :
  (verify_request_uncached (H0 := one_signature) 1300 1300 (Some table) call
     (check_all (H0 := one_signature) ([arrival 1200] ++ replicate 7 (edge call table parts)) after)).1 = VNode "ws-1".
Proof.
  refine (replay_in_last_second (H0 := one_signature) 1100 1100 table call strict "ws-1" after parts [arrival 1200] 7
            accepted eq_refl _).
  by apply Forall_singleton.
Defined.

(** Signatures that are the key and the message. *)
#[local] Instance plain_signing : Signing :=
  {| pkcs8_ok k := negb (bool_decide (k = "")); public_of k := k; ed_sign k m := k +:+ m;
     ed_verify k m s := bool_decide (s = k +:+ m) |}.
#[local] Instance plain_laws : SigningLaws.
Proof.
  split.
  - intros k m _. by apply bool_decide_eq_true.
  - apply AtRestProps.Toy.unhex_hex.
  - intros x. induction x as [|ch x IH]; [done|]. cbn [b64 crypto AtRestProps.Toy.toy AtRestProps.Toy.hex all_chars].
    change (b64 x) with (AtRestProps.Toy.hex x) in IH. rewrite IH. clear IH.
    destruct ch as [[] [] [] [] [] [] [] []]; by vm_compute.
Qed.

Definition sender : IdState :=
  {| identity := Some {| key := "k"; pubkey_b64 := b64 "k"; ident := "ws-1" |}; seen_nonces := ∅; last_verified := None;
     mode_env := None; mode_file := None |}.
Definition unnamed : IdState := sender <| identity := None |>.
Definition receiver_seen : ClusterState :=
  mk_cluster {["n9" := ClusterProps.Demo.peer "n9" "ws-me" "me" None <| n_address := "10.0.0.9" |>]} "ws-1" "10.0.0.1" 8553
    ∅ None None ClusterProps.Demo.files.
Definition sent : list (string * string) :=
  raw_headers 1000 (Some "nonce") ∅ ∅ "topsecret" "https://10.0.0.9:8553/api/agent/status" (Some receiver_seen) sender.

Lemma signed_call_passes_witness :
  (require_cluster_auth 1100 1100 env rot (Some table) (request sent) strict).1.1 = Ok ().
Proof.
  apply (signed_call_passes "ws-1" None true (KText (b64 "k")) (KText (b64 "k")) unnamed sender 1000 ∅ ∅ "nonce" "topsecret"
           "https://10.0.0.9:8553/api/agent/status" (Some receiver_seen) 1100 1100 env rot table strict (request sent) (b64 "k"));
    try done; by vm_compute.
Defined.
End Toy.
