(* ===== verification/Join.v ===== *)
(** * Joining a cluster

    cluster_join.rs and the handlers of api/mod.rs that admit this node to a
    cluster and hand it the cluster's secret.  A handshake waits for the check
    of the administrator's password, and reads and removes the override marker
    in two calls, so it is a sequence of stages between which other requests
    run; every other handler is one step. *)
From stdpp Require Import pretty.
From S2P Require Import Prelude Net Cluster AuthLimiter AtRest Rotation NodeIdentity.

(** ** One-time tokens *)
Definition ONE_TIME_TTL : Z := 15 * 60 * SEC.
Definition GRANT_TTL : Z := 120 * SEC.
(** The instant each token expires at. *)
Abbreviation OneTimeTokens := (gmap string Z).

Section Tokens.
Context {OT : HashOrder Z}.
Implicit Types (now : Z) (m : OneTimeTokens).

Definition hex_digit (n : N) : ascii := if (n <? 10)%N then ascii_of_N (48 + n) else ascii_of_N (87 + n).
Fixpoint hex_bytes (s : string) : string :=
  match s with
  | EmptyString => ""
  | String c s => String (hex_digit (N_of_ascii c / 16)) (String (hex_digit (N_of_ascii c mod 16)) (hex_bytes s))
  end.
(** [random]: 32 bytes, if the system gives them. *)
Definition generate_token (random : option string) : res string string :=
  hex_bytes <$> ok_or random "cannot read /dev/urandom".

Definition prune_expired now m : OneTimeTokens := map_retain (λ _ exp, now <? exp) m.
Definition mint now (ttl : Z) (random : option string) m : res string string * OneTimeTokens :=
  match generate_token random with
  | Ok token => (Ok token, <[token := now + ttl]> (prune_expired now m))
  | Err e => (Err e, m)
  | Panic => (Panic, m)
  end.

(** The scan looks at every entry; the last match counts. *)
Definition matching now (provided : string) m : option string :=
  foldl (λ acc '(token, exp), if validate_cluster_secret provided token && (now <? exp) then Some token else acc)
    None (hm_iter m).
Definition verify_and_consume now (provided : string) m : bool * OneTimeTokens :=
  if bool_decide (provided = "") then (false, m) else
  let m := prune_expired now m in
  match matching now provided m with Some k => (true, delete k m) | None => (false, m) end.
Definition take_token now (provided : string) m : option Z * OneTimeTokens :=
  if bool_decide (provided = "") then (None, m) else
  let m := prune_expired now m in
  match matching now provided m with Some k => (m !! k, delete k m) | None => (None, m) end.
Definition reinsert now (token : string) (exp : Z) m : OneTimeTokens :=
  if exp <=? now then m else <[token := exp]> m.
Definition pending_count now m : nat * OneTimeTokens := let m := prune_expired now m in (size m, m).

(** ** The local override *)
Definition OVERRIDE_TTL_SECS : Z := 30 * 60.

(** The marker file; [unlink]: whether a file can be removed. *)
Definition recluster_override_armed (now : Z) (unlink : bool) (file : option string) : bool * option string :=
  match file with
  | None => (false, None)
  | Some content =>
      let armed_at := default 0 (parse_uint u64_max (trim content)) in
      if (armed_at =? 0) || (OVERRIDE_TTL_SECS <? sat_sub now armed_at)
      then (false, if unlink then None else file) else (true, file)
  end.
Definition arm_override (now : Z) (w : WriteResult) (file : option string) : option string :=
  write_file w (pretty now) file.
Definition clear_override (unlink : bool) (file : option string) : option string :=
  if unlink then None else file.

Definition is_silent_recluster (has_peers : bool) (our_cluster incoming : string) : bool :=
  has_peers && negb (bool_decide (incoming = our_cluster)).
End Tokens.

(** ** A node that may be joined *)
Record JoinHandshakeRequest := {
  (** the source address, canonical; empty when unknown *)
  source : string;
  token : string; admin_username : string; admin_password : string;
  cluster_name : option string; master_port : option Z; master_self_id : option string
}.

(** [Verifying]: the password is being checked; [Overriding]: the marker was
    read and is about to be removed; [Cleared] and [Announced]: the rest. *)
Inductive Stage := Verifying | Overriding | Cleared | Announced | Joined | Refused | Dropped.
#[export] Instance Stage_eq_dec : EqDecision Stage.
Proof. solve_decision. Defined.
Record Flight := {
  rq : JoinHandshakeRequest;
  (** the expiry of the one-time token it took *)
  ott : option Z;
  (** it moves this node to another cluster *)
  recluster : bool;
  stage : Stage
}.
#[export] Instance eta_Flight : Eta Flight := λ f,
  {| rq := rq f; ott := ott f; recluster := recluster f; stage := stage f |}.

Inductive AuditEvent :=
| TokenRotated | TokenMinted | OverrideArmed | OverrideDisarmed | AdminAuthFailed (user ip : string)
| NodeJoined (user ip : string) | GrantAdopted | SecretChanged.

Record JoinNode := {
  rot : RotNode; cluster : ClusterState; ids : IdState;
  join_token : string; join_token_file : option string;
  one_time_join_tokens : OneTimeTokens; bootstrap_grants : OneTimeTokens;
  override_file : option string;
  limiter : Limiter; known_peer_ips : gmap string Z;
  restart_scheduled : bool;
  flights : list Flight;
  audit_trail : list AuditEvent
}.
#[export] Instance eta_JoinNode : Eta JoinNode := λ n,
  {| rot := rot n; cluster := cluster n; ids := ids n; join_token := join_token n;
     join_token_file := join_token_file n; one_time_join_tokens := one_time_join_tokens n;
     bootstrap_grants := bootstrap_grants n; override_file := override_file n; limiter := limiter n;
     known_peer_ips := known_peer_ips n; restart_scheduled := restart_scheduled n; flights := flights n;
     audit_trail := audit_trail n |}.

(** What an operation finds: the clocks, this node's host and circumstances,
    the bytes it draws, the name of a node it adds, its writes. *)
Record JoinEnv := {
  clock : Clock;
  host : Host;
  rot_env : Rotation.Env;
  random : option string;
  fresh_id : string;
  write : WriteResult;
  unlink : bool
}.

Inductive Reply :=
| MissingToken | LockedOut | InvalidToken | CredentialsRequired | Busy | BadCredentials
| AlreadyInCluster (ours : string) | HandshakeRequired | LocalAdminOnly | ServerError | Waiting
| RefusedBy (d : Denied) | MissingSecret | BadFormat
| TokenIs (t : string) | TokenValid | OverrideIs (armed : bool) | Accepted (grant : option string) | Saved (restarting : bool).

Section Node.
Context `{Crypto} `{Signing} {O : HashOrder Node} {OT : HashOrder Z} {OA : HashOrder AttemptRecord}.
Context (parse_ip : string → option IpAddr) (show_ip : IpAddr → string).
Implicit Types (e : JoinEnv) (n : JoinNode).

Definition instant e : Z := AuthLimiter.now (clock e).
Definition unix e : Z := now_secs (clock e).
Definition record_audit (a : AuditEvent) n : JoinNode := n <| audit_trail := audit_trail n ++ [a] |>.

(** [caller]: the actor [require_auth] found. *)
Definition local_admin (caller : string) : bool :=
  negb (bool_decide (caller = "cluster-node")) && negb (String.prefix "apikey:" caller).

Definition load_join_token (random32 : string) (w : WriteResult) (file : option string) : string * option string :=
  let fresh := (hex_bytes random32, write_file w (hex_bytes random32) file) in
  match file with
  | Some s => if bool_decide (trim s = "") then fresh else (trim s, file)
  | None => fresh
  end.

Definition rotate_join_token e (caller : string) n : Reply * JoinNode :=
  if negb (local_admin caller) then (LocalAdminOnly, n) else
  match generate_token (random e) with
  | Ok t =>
      let n := n <| join_token_file := write_file (write e) t (join_token_file n) |> in
      if written (write e) then (TokenIs t, record_audit TokenRotated n) else (ServerError, n)
  | _ => (ServerError, n)
  end.

Definition mint_one_time_join_token e (caller : string) n : Reply * JoinNode :=
  if negb (local_admin caller) then (LocalAdminOnly, n) else
  let '(t, m) := mint (instant e) ONE_TIME_TTL (random e) (one_time_join_tokens n) in
  let n := n <| one_time_join_tokens := m |> in
  match t with Ok t => (TokenIs t, record_audit TokenMinted n) | _ => (ServerError, n) end.

Definition arm_recluster_override e (caller : string) n : Reply * JoinNode :=
  if negb (local_admin caller) then (LocalAdminOnly, n) else
  let n := n <| override_file := arm_override (unix e) (write e) (override_file n) |> in
  if written (write e) then (OverrideIs true, record_audit OverrideArmed n) else (ServerError, n).

Definition clear_recluster_override e (caller : string) n : Reply * JoinNode :=
  if negb (local_admin caller) then (LocalAdminOnly, n) else
  let '(was_armed, f) := recluster_override_armed (unix e) (unlink e) (override_file n) in
  let n := n <| override_file := clear_override (unlink e) f |> in
  (OverrideIs false, if was_armed then record_audit OverrideDisarmed n else n).

Definition verify_join_token e (provided : string) (bootstrap : bool) n : Reply * JoinNode :=
  if bool_decide (provided = "") then (MissingToken, n) else
  if negb bootstrap then (HandshakeRequired, n) else
  if validate_cluster_secret provided (join_token n) then (TokenValid, n) else
  let '(ok, m) := verify_and_consume (instant e) provided (one_time_join_tokens n) in
  (if ok then TokenValid else InvalidToken, n <| one_time_join_tokens := m |>).

Definition has_no_other_peers n : bool :=
  negb (existsb (λ m, negb (bool_decide (n_id m = Cluster.self_id (cluster n)))) (values (cluster n))).

(** ** The handshake *)
Definition put_back e (f : Flight) n : JoinNode :=
  match ott f with
  | Some exp => n <| one_time_join_tokens := reinsert (instant e) (trim (token (rq f))) exp (one_time_join_tokens n) |>
  | None => n
  end.

(** Up to the check of the password. *)
Definition cluster_join_handshake e (r : JoinHandshakeRequest) n : Reply * JoinNode :=
  let provided := trim (token r) in
  if bool_decide (provided = "") then (MissingToken, n) else
  if is_locked_out parse_ip (clock e) (source r) (limiter n) then
    (LockedOut, n <| limiter := audit_blocked (clock e) (source r) "cluster-join" (limiter n) |>) else
  let static_ok := validate_cluster_secret provided (join_token n) in
  let '(exp, m) := if static_ok then (None, one_time_join_tokens n)
                   else take_token (instant e) provided (one_time_join_tokens n) in
  let n := n <| one_time_join_tokens := m |> in
  if negb static_ok && bool_decide (exp = None) then (InvalidToken, n) else
  let f := {| rq := r; ott := exp; recluster := false; stage := Verifying |} in
  if bool_decide (trim (admin_username r) = "") || bool_decide (admin_password r = "")
  then (CredentialsRequired, put_back e f n)
  else (Waiting, n <| flights := flights n ++ [f] |>).

Definition refuse e (reply : Reply) (f : Flight) n : Reply * Flight * JoinNode :=
  (reply, f <| stage := Refused |>, put_back e f n).

(** Once the password was checked ([None]: it could not be). *)
Definition after_password e (answer : option bool) (f : Flight) n : Reply * Flight * JoinNode :=
  let user := trim (admin_username (rq f)) in
  match answer with
  | None => refuse e Busy f n
  | Some false =>
      let l := (record_failure_with parse_ip show_ip (clock e) (source (rq f)) user (limiter n)).2 in
      refuse e BadCredentials f (record_audit (AdminAuthFailed user (source (rq f))) (n <| limiter := l |>))
  | Some true =>
      let ours := get_self_cluster_name (cluster n) in
      if is_silent_recluster (negb (has_no_other_peers n)) ours (default "" (cluster_name (rq f))) then
        let '(armed, file) := recluster_override_armed (unix e) (unlink e) (override_file n) in
        let n := n <| override_file := file |> in
        if armed then (Waiting, f <| recluster := true |> <| stage := Overriding |>, n)
        else refuse e (AlreadyInCluster ours) f n
      else (Waiting, f <| stage := Cleared |>, n)
  end.

(** The source is protected from bans; the join is put on record. *)
Definition announce e (f : Flight) n : JoinNode :=
  let src := source (rq f) in
  let user := trim (admin_username (rq f)) in
  let n := if bool_decide (src = "") then n else
    let l := clear_with (clock e) src user (limiter n) in
    let '(known, p) := record_known_peer_ip parse_ip show_ip (unix e) src (known_peer_ips n) (protected l) in
    n <| known_peer_ips := known |> <| limiter := kernel_unblock_ip parse_ip show_ip src (set_protected p l) |> in
  record_audit (NodeJoined user src) n.

(** The master's record, under the address it called from. *)
Definition seed_master e (r : JoinHandshakeRequest) n : JoinNode :=
  match parse_ip (source r) with
  | None => n
  | Some ip =>
      if bool_decide (source r = "") || is_loopback ip then n else
      let port := default 8553 (master_port r) in
      let already := existsb (λ m,
        (match nonempty (master_self_id r) with Some s => bool_decide (n_self_id m = Some s) | None => false end)
        || (bool_decide (n_address m = source r) && bool_decide (n_port m = port)))
        (get_all_nodes (unix e) (cluster n)) in
      if already then n else
      n <| cluster := (add_server (host e) (fresh_id e) (source r) port (cluster_name r) (cluster n)).2 |>
  end.

Definition step_flight e (answer : option bool) (f : Flight) n : Reply * Flight * JoinNode :=
  match stage f with
  | Verifying => after_password e answer f n
  | Overriding => (Waiting, f <| stage := Cleared |>, n <| override_file := clear_override (unlink e) (override_file n) |>)
  | Cleared => (Waiting, f <| stage := Announced |>, announce e f n)
  | Announced =>
      let '(g, m) := mint (instant e) GRANT_TTL (random e) (bootstrap_grants n) in
      (Accepted (match g with Ok g => Some g | _ => None end), f <| stage := Joined |>,
       seed_master e (rq f) (n <| bootstrap_grants := m |>))
  | Joined | Refused | Dropped => (Waiting, f, n)
  end.
Definition proceed e (answer : option bool) (i : nat) n : Reply * JoinNode :=
  match flights n !! i with
  | Some f => let '(reply, f, n) := step_flight e answer f n in (reply, n <| flights := <[i := f]> (flights n) |>)
  | None => (Waiting, n)
  end.

(** ** The secret *)
Definition save_cluster_secret e (secret : string) n : JoinNode :=
  n <| rot := (rot n) <| active := write_file (write e) secret (active (rot n)) |> |>.
Definition rekey e (old secret : string) n : JoinNode :=
  n <| rot := (rot n) <| stores := (reencrypt_all_at_rest (e_pass (rot_env e)) old secret (stores (rot n))).2 |> |>.

Definition cluster_secret_receive e (r : Request) (secret grant : option string) (bootstrap : bool) n : Reply * JoinNode :=
  let '(g, _, st) := require_cluster_auth (unix e) (unix e) (rot_env e) (rot n) (Some (cluster n)) r (ids n) in
  let n := n <| ids := st |> in
  let '(allowed, via_grant, n) :=
    match g with
    | Ok _ => (true, false, n)
    | _ => match grant with
           | Some t => if (128 <? String.length t)%nat then (false, false, n) else
                       let '(exp, m) := take_token (instant e) t (bootstrap_grants n) in
                       (bool_decide (exp ≠ None), true, n <| bootstrap_grants := m |>)
           | None => (false, false, n)
           end
    end in
  if negb allowed then (match g with Err d => RefusedBy d | _ => ServerError end, n) else
  let n := if via_grant then record_audit GrantAdopted n else n in
  match nonempty secret with
  | None => (MissingSecret, n)
  | Some secret =>
      let changed := negb (bool_decide (secret = memory (rot n))) in
      let old := load_cluster_secret (rot n) in
      let n := save_cluster_secret e secret n in
      if negb (written (write e)) then (ServerError, n) else
      let n := if bool_decide (secret = old) then n else rekey e old secret n in
      let restarting := bootstrap && changed && has_no_other_peers n && negb (restart_scheduled n) in
      let n := if restarting then n <| restart_scheduled := true |> else n in
      (Saved restarting, if changed then record_audit SecretChanged n else n)
  end.

(** The older push: the secret is checked, the signature is not. *)
Definition security_cluster_secret_receive e (r : Request) (new_secret : string) n : Reply * JoinNode :=
  let presented := default "" (raw_header r HDR_SECRET) in
  if negb (validate_inter_node_secret_from (rot_env e) (rot n) presented) then (RefusedBy InvalidSecret, n) else
  let len := String.length new_secret in
  if negb (String.prefix "wsk_" new_secret) || (len <? 16)%nat || (256 <? len)%nat then (BadFormat, n) else
  let old := load_cluster_secret (rot n) in
  let n := save_cluster_secret e new_secret n in
  if negb (written (write e)) then (ServerError, n) else (Saved false, rekey e old new_secret n).

(** main.rs: a new process on the same files; [l]: the limiter it starts with. *)
Definition restart_process e (random32 : string) (l : Limiter) n : JoinNode :=
  let c := cluster n in
  let '(t, file) := load_join_token random32 (write e) (join_token_file n) in
  n <| rot := Rotation.restart (rot n) |>
    <| cluster := Cluster.new parse_ip (host e) (Cluster.self_id c) (self_address c) (port c) (nodes_file c)
                    (deleted_file c) (self_files c) |>
    <| ids := (ids n) <| seen_nonces := ∅ |> <| last_verified := None |> |>
    <| join_token := t |> <| join_token_file := file |>
    <| one_time_join_tokens := ∅ |> <| bootstrap_grants := ∅ |> <| limiter := l |> <| restart_scheduled := false |>
    <| flights := (λ f, match stage f with Joined | Refused => f | _ => f <| stage := Dropped |> end) <$> flights n |>.

(** ** Runs *)
Inductive Step :=
| RotateToken (caller : string) | MintToken (caller : string)
| ArmOverride (caller : string) | ClearOverride (caller : string)
| VerifyToken (provided : string) (bootstrap : bool)
| BeginJoin (r : JoinHandshakeRequest) | Proceed (answer : option bool) (i : nat)
| ReceiveSecret (r : Request) (secret grant : option string) (bootstrap : bool)
| FleetSecret (r : Request) (new_secret : string)
| RestartProcess (random32 : string) (l : Limiter).

Definition join_step (x : JoinEnv * Step) n : Reply * JoinNode :=
  let '(e, s) := x in
  match s with
  | RotateToken c => rotate_join_token e c n
  | MintToken c => mint_one_time_join_token e c n
  | ArmOverride c => arm_recluster_override e c n
  | ClearOverride c => clear_recluster_override e c n
  | VerifyToken t b => verify_join_token e t b n
  | BeginJoin r => cluster_join_handshake e r n
  | Proceed a i => proceed e a i n
  | ReceiveSecret r s g b => cluster_secret_receive e r s g b n
  | FleetSecret r s => security_cluster_secret_receive e r s n
  | RestartProcess t l => (Waiting, restart_process e t l n)
  end.
Definition join_run (xs : list (JoinEnv * Step)) n : JoinNode := foldl (λ n x, (join_step x n).2) n xs.
End Node.
