(* ===== verification/JoinInv.v ===== *)
(** * Joining: what each step does to tokens, grants and flights *)
From stdpp Require Import pretty.
From S2P Require Import Prelude Net Digits Cluster AuthLimiter AtRest Rotation RotationProps NodeIdentity Join.

(** ** Counting *)
Abbreviation count f l := (sum_list_with f l).
Definition one (b : bool) : nat := if b then 1%nat else 0%nat.

Lemma count_insert {A} (f : A → nat) l i x y :
  l !! i = Some x → (count f (<[i := y]> l) + f x = count f l + f y)%nat.
Proof.
  revert i. induction l as [|z l IH]; intros [|i]; simpl; [done..| |].
  - intros [= <-]. simpl. lia.
  - intros Hi. specialize (IH i Hi). simpl in *. lia.
Qed.
Lemma count_snoc {A} (f : A → nat) l x : (count f (l ++ [x]) = count f l + f x)%nat.
Proof. rewrite sum_list_with_app. cbn. lia. Qed.
Lemma count_le {A} (f g : A → nat) l : (∀ x, (f x ≤ g x)%nat) → (count f l ≤ count g l)%nat.
Proof. intros Hfg. induction l as [|x l IH]; [done|]. cbn. specialize (Hfg x). lia. Qed.
Lemma count_fmap_le {A} (f : A → nat) (g : A → A) l :
  (∀ x, (f (g x) ≤ f x)%nat) → (count f (g <$> l) ≤ count f l)%nat.
Proof. intros Hg. induction l as [|x l IH]; [done|]. cbn. specialize (Hg x). lia. Qed.

(** ** Pools of tokens *)
Section Pools.
Context {OT : HashOrder Z}.
Implicit Types (now : Z) (m : OneTimeTokens) (t : string).

Definition sized (s : string) : Prop := Z.of_nat (String.length s) < 2 ^ 64.
Definition pool_ok m : Prop := ∀ t, is_Some (m !! t) → sized t.
Definition has t m : nat := one (bool_decide (is_Some (m !! t))).

Lemma has_mono t m m' : m' ⊆ m → (has t m' ≤ has t m)%nat.
Proof.
  intros Hs. unfold has. case_bool_decide as H1; case_bool_decide as H2; cbn; try lia. exfalso. apply H2.
  destruct H1 as [x Hx]. exists x. by eapply lookup_weaken.
Qed.
Lemma pool_ok_mono m m' : m' ⊆ m → pool_ok m → pool_ok m'.
Proof. intros Hs Hm t [x Hx]. apply Hm. exists x. by eapply lookup_weaken. Qed.
Lemma prune_sub now m : prune_expired now m ⊆ m.
Proof. apply map_retain_subseteq. Qed.

Lemma matching_Some now provided m k :
  matching now provided m = Some k →
  ∃ exp, m !! k = Some exp ∧ now < exp ∧ validate_cluster_secret provided k = true.
Proof.
  unfold matching. assert (∀ l acc, foldl (λ acc '(token, exp),
      if validate_cluster_secret provided token && (now <? exp) then Some token else acc) acc l = Some k →
    acc = Some k ∨ ∃ exp, (k, exp) ∈ l ∧ now < exp ∧ validate_cluster_secret provided k = true) as Hl.
  { intros l. induction l as [|[t e] l IH]; intros acc; cbn; [by left|]. intros [Hacc|(exp & Hin & ?)]%IH.
    - destruct (_ && _) eqn:Hb; [|by left]. injection Hacc as ->. apply andb_true_iff in Hb as [? ?%Z.ltb_lt].
      right. exists e. split; [by left|done].
    - right. exists exp. split; [by right|done]. }
  intros [?|(exp & Hin & ?)]%Hl; [done|]. exists exp. split; [|done].
  rewrite hm_iter_perm in Hin. by apply elem_of_map_to_list.
Qed.

Lemma matching_found now t exp m :
  pool_ok m → t ≠ "" → m !! t = Some exp → now < exp → matching now t m = Some t.
Proof.
  intros Hm Ht Hl Hexp. unfold matching.
  assert (∀ l acc, (∀ k e, (k, e) ∈ l → sized k) → acc = Some t ∨ (∃ e, (t, e) ∈ l ∧ now < e) → acc = None ∨ acc = Some t →
    foldl (λ acc '(token, exp), if validate_cluster_secret t token && (now <? exp) then Some token else acc) acc l = Some t) as Hf.
  { assert (sized t) as Hst by (apply Hm; by exists exp).
    intros l. induction l as [|[k e] l IH]; intros acc Hs Hx Ha; cbn.
    - destruct Hx as [?|(e & ?%not_elem_of_nil & _)]; done.
    - assert (sized k) as Hk by (apply (Hs k e); by left). apply IH; [intros k' e' ?; apply (Hs k' e'); by right| |].
      + destruct (_ && _) eqn:Hb.
        * apply andb_true_iff in Hb as [[-> _]%compare_exact _]; [by left|done..].
        * destruct Hx as [?|(e' & [[= <- <-]|?]%elem_of_cons & Hn)]; [by left| |right; by exists e'].
          exfalso. assert (validate_cluster_secret t t = true) as Hv by by apply compare_exact.
          apply Z.ltb_lt in Hn. by rewrite Hv, Hn in Hb.
      + destruct (_ && _) eqn:Hb; [|done]. apply andb_true_iff in Hb as [[-> _]%compare_exact _]; [by right|done..]. }
  apply Hf; [|right; exists exp; split; [|done]|by left].
  - intros k e. rewrite hm_iter_perm, elem_of_map_to_list. intros Hk. apply Hm. by exists e.
  - rewrite hm_iter_perm. by apply elem_of_map_to_list.
Qed.

(** What a call takes, it takes out of the pool. *)
Lemma take_token_spec now provided m exp m' :
  pool_ok m → sized provided → take_token now provided m = (exp, m') →
  pool_ok m' ∧ (size m' + one (bool_decide (exp ≠ None)) ≤ size m)%nat ∧
  (∀ t, (has t m' + one (bool_decide (exp ≠ None ∧ provided = t)) ≤ has t m)%nat) ∧
  (∀ x, exp = Some x → m !! provided = Some x ∧ now < x ∧ m' !! provided = None).
Proof.
  intros Hm Hp. unfold take_token. case_bool_decide as He.
  { intros [= <- <-]. rewrite bool_decide_false by naive_solver. split_and!; try done; [cbn; lia|].
    intros t. rewrite bool_decide_false by naive_solver. cbn. lia. }
  set (m1 := prune_expired now m). assert (m1 ⊆ m) as Hs1 by apply prune_sub.
  destruct (matching now provided m1) as [k|] eqn:Hk; intros [= <- <-].
  - apply matching_Some in Hk as (x & Hx & Hnow & Hv). apply compare_exact in Hv as [<- _]; [|done|].
    2:{ apply (pool_ok_mono _ _ Hs1 Hm). by exists x. }
    rewrite Hx. rewrite bool_decide_true by done.
    assert (delete provided m1 ⊆ m) as Hs2 by (etrans; [apply delete_subseteq|done]).
    split_and!; [by eapply pool_ok_mono| | |].
    + rewrite map_size_delete_Some by (by exists x). assert (size m1 ≠ O).
      { intros H0%map_size_empty_inv. by rewrite H0 in Hx. }
      apply map_subseteq_size in Hs1. cbn. lia.
    + intros t. case_bool_decide as Ht; [|cbn; rewrite Nat.add_0_r; by apply has_mono].
      destruct Ht as [_ <-]. unfold has. rewrite lookup_delete_eq, bool_decide_false by by intros [? ?].
      rewrite bool_decide_true; [done|]. exists x. by eapply lookup_weaken.
    + intros y [= <-]. split_and!; [by eapply lookup_weaken|done|apply lookup_delete_eq].
  - rewrite bool_decide_false by naive_solver. split_and!; [by eapply pool_ok_mono| | |done].
    + apply map_subseteq_size in Hs1. cbn. lia.
    + intros t. rewrite bool_decide_false by naive_solver. cbn. rewrite Nat.add_0_r. by apply has_mono.
Qed.

Lemma take_token_found now t exp m :
  pool_ok m → t ≠ "" → m !! t = Some exp → now < exp →
  take_token now t m = (Some exp, delete t (prune_expired now m)).
Proof.
  intros Hm Ht Hl Hexp. unfold take_token. rewrite bool_decide_false by done.
  assert (prune_expired now m !! t = Some exp) as Hp by (apply map_retain_lookup; split; [done|by apply Z.ltb_lt]).
  rewrite (matching_found now t exp); [by rewrite Hp|by eapply pool_ok_mono; [apply prune_sub|]|done..].
Qed.

Lemma consume_sub now provided m b m' : verify_and_consume now provided m = (b, m') → m' ⊆ m.
Proof.
  unfold verify_and_consume. case_bool_decide; [by intros [= <- <-]|].
  destruct (matching _ _ _); intros [= <- <-]; [etrans; [apply delete_subseteq|]|]; apply prune_sub.
Qed.

Lemma reinsert_has now p exp m t : (has t (reinsert now p exp m) ≤ has t m + one (bool_decide (p = t)))%nat.
Proof.
  unfold reinsert. case_match; [lia|]. case_bool_decide as Hp; [|unfold has; by rewrite lookup_insert_ne by done; cbn; lia].
  subst. unfold has. rewrite lookup_insert_eq, bool_decide_true by done. cbn. lia.
Qed.
Lemma pool_insert m t exp : pool_ok m → sized t → pool_ok (<[t := exp]> m).
Proof. intros Hm Ht k. destruct (decide (k = t)) as [->|Hk]; [done|]. rewrite lookup_insert_ne by done. apply Hm. Qed.
Lemma reinsert_ok now p exp m : pool_ok m → sized p → pool_ok (reinsert now p exp m).
Proof. intros Hm Hp. unfold reinsert. case_match; [done|by apply pool_insert]. Qed.

Lemma length_hex s : String.length (hex_bytes s) = (2 * String.length s)%nat.
Proof. induction s as [|c s IH]; [done|]. cbn [hex_bytes String.length]. rewrite IH. lia. Qed.

(** The random bytes are thirty-two. *)
Definition draws_well (random : option string) : Prop := ∀ s, random = Some s → String.length s = 32%nat.

Lemma mint_spec now ttl random m r m' :
  pool_ok m → draws_well random → mint now ttl random m = (r, m') →
  pool_ok m' ∧ (size m' ≤ S (size m))%nat ∧
  (∀ t, r ≠ Ok t → (has t m' ≤ has t m)%nat) ∧
  (∀ t, r = Ok t → t ≠ "" ∧ random ≠ None ∧ hex_bytes (default "" random) = t ∧ m' !! t = Some (now + ttl)).
Proof.
  intros Hm Hd. unfold mint, generate_token. destruct random as [s|]; cbn.
  - intros [= <- <-]. assert (String.length (hex_bytes s) = 64%nat) as Hl by (rewrite length_hex, (Hd s); done).
    assert (pool_ok (prune_expired now m)) as Hp by (eapply pool_ok_mono; [apply prune_sub|done]).
    split_and!.
    + apply pool_insert; [done|]. unfold sized. by rewrite Hl.
    + etrans; [apply size_insert_le|]. pose proof (map_subseteq_size _ _ (prune_sub now m)). lia.
    + intros t Ht. etrans; [|apply has_mono, (prune_sub now)]. unfold has. rewrite lookup_insert_ne; [done|].
      intros E. apply Ht. by rewrite E.
    + intros t [= <-]. split_and!; [intros E; by rewrite E in Hl|done|done|apply lookup_insert_eq].
  - intros [= <- <-]. split_and!; try done; lia.
Qed.
End Pools.

(** ** Steps *)
Section Steps.
Context `{Crypto} `{Signing} {O : HashOrder Node} {OT : HashOrder Z} {OA : HashOrder AttemptRecord}.
Context (parse_ip : string → option IpAddr) (show_ip : IpAddr → string).
Implicit Types (e : JoinEnv) (n : JoinNode) (f : Flight).
Abbreviation join_step := (join_step parse_ip show_ip).
Abbreviation join_run := (join_run parse_ip show_ip).

Definition sane (x : JoinEnv * Step) : Prop :=
  draws_well (random x.1) ∧ match x.2 with BeginJoin r => sized (trim (token r)) | _ => True end.
Definition node_ok n : Prop :=
  pool_ok (one_time_join_tokens n) ∧ pool_ok (bootstrap_grants n) ∧
  Forall (λ f, sized (trim (token (rq f)))) (flights n).

(** A flight that still holds, or has used up, the one-time token [t]. *)
Definition ended (s : Stage) : bool := match s with Refused | Dropped => true | _ => false end.
Definition holds t f : nat :=
  one (bool_decide (ott f ≠ None ∧ trim (token (rq f)) = t) && negb (ended (stage f))).
Definition weight t n : nat := (has t (one_time_join_tokens n) + count (holds t) (flights n))%nat.
(** The step does not draw [t] as a new token. *)
Definition spares_token t (x : JoinEnv * Step) : Prop :=
  match x.2 with MintToken _ => hex_bytes (default "" (random x.1)) ≠ t | _ => True end.

(** Between the check of the password and the grant. *)
Definition underway f : nat :=
  one (match stage f with Overriding | Cleared | Announced => true | _ => false end).
Definition adopted (l : list AuditEvent) : nat := count (λ a, one (match a with GrantAdopted => true | _ => false end)) l.
Definition potential n : nat :=
  (size (bootstrap_grants n) + adopted (audit_trail n) + count underway (flights n))%nat.
(** The check of a password that succeeds. *)
Definition approves (x : JoinEnv * Step) : bool := match x.2 with Proceed (Some true) _ => true | _ => false end.

(** A flight's step touches the pools, the marker, the table, the limiter and
    the record only, and never who asked with which token. *)
Lemma step_flight_kept e a f n reply f' n' :
  step_flight parse_ip show_ip e a f n = (reply, f', n') →
  rq f' = rq f ∧ ott f' = ott f ∧ flights n' = flights n ∧ rot n' = rot n ∧ ids n' = ids n ∧
  (one_time_join_tokens n' = one_time_join_tokens n ∧ (ended (stage f) = true → ended (stage f') = true)
   ∨ stage f' = Refused ∧ stage f = Verifying ∧ one_time_join_tokens n'
       = match ott f with
         | Some exp => reinsert (instant e) (trim (token (rq f))) exp (one_time_join_tokens n)
         | None => one_time_join_tokens n
         end) ∧
  bootstrap_grants n' = match stage f with
                        | Announced => (mint (instant e) GRANT_TTL (random e) (bootstrap_grants n)).2
                        | _ => bootstrap_grants n
                        end ∧
  adopted (audit_trail n') = adopted (audit_trail n) ∧
  (underway f' + one (match stage f with Announced => true | _ => false end)
   ≤ underway f + one (match a with Some true => true | _ => false end))%nat.
Proof.
  assert (∀ l ev, ev ≠ GrantAdopted → adopted (l ++ [ev]) = adopted l) as Had.
  { intros l ev Hev. unfold adopted. rewrite count_snoc. destruct ev; cbn; lia || done. }
  unfold step_flight, underway. destruct (stage f) eqn:Hst.
  - unfold after_password, refuse, put_back. destruct a as [[]|].
    + destruct (is_silent_recluster _ _ _).
      * destruct (recluster_override_armed _ _ _) as [[] file]; intros [= <- <- <-]; cbn.
        -- split_and!; try done. by left.
        -- destruct (ott f) eqn:Ho; split_and!; try done; solve [by right|cbn; lia].
      * intros [= <- <- <-]. cbn. split_and!; try done. by left.
    + intros [= <- <- <-]. destruct (ott f) eqn:Ho; cbn; split_and!; try done; solve [by right|by rewrite Had].
    + intros [= <- <- <-]. destruct (ott f) eqn:Ho; cbn; split_and!; try done; by right.
  - intros [= <- <- <-]. cbn. split_and!; try done; solve [by left|destruct a as [[]|]; cbn; lia].
  - unfold announce. intros [= <- <- <-].
    destruct (bool_decide _); [|destruct (record_known_peer_ip _ _ _ _ _ _)]; cbn; split_and!; try done;
      solve [by left|by rewrite Had|destruct a as [[]|]; cbn; lia].
  - destruct (mint _ _ _ _) as [g m]. intros [= <- <- <-]. unfold seed_master.
    destruct (parse_ip _); [destruct (_ || _); [|destruct (existsb _ _)]|]; cbn; split_and!; try done;
      solve [by left|destruct a as [[]|]; cbn; lia].
  - intros [= <- <- <-]. split_and!; try done; solve [left; by rewrite Hst|rewrite Hst; destruct a as [[]|]; cbn; lia].
  - intros [= <- <- <-]. split_and!; try done; solve [left; by rewrite Hst|rewrite Hst; destruct a as [[]|]; cbn; lia].
  - intros [= <- <- <-]. split_and!; try done; solve [left; by rewrite Hst|rewrite Hst; destruct a as [[]|]; cbn; lia].
Qed.

Lemma proceed_spec e a i n n' reply :
  proceed parse_ip show_ip e a i n = (reply, n') →
  n' = n ∨ ∃ f f' n1, flights n !! i = Some f ∧ step_flight parse_ip show_ip e a f n = (reply, f', n1) ∧
    n' = n1 <| flights := <[i := f']> (flights n) |>.
Proof.
  unfold proceed. destruct (flights n !! i) as [f|] eqn:Hf; [|intros [= _ <-]; by left].
  destruct (step_flight _ _ e a f n) as [[r f'] n1] eqn:Hs. intros [= <- <-]. right. exists f, f', n1.
  pose proof (step_flight_kept e a f n r f' n1 Hs) as (_ & _ & Hfl & _). by rewrite Hfl.
Qed.


(** Adopting a secret touches neither tokens nor flights; a grant that lets it
    in leaves the pool. *)
Lemma receive_kept e r secret grant b n reply n' :
  node_ok n → cluster_secret_receive e r secret grant b n = (reply, n') →
  one_time_join_tokens n' = one_time_join_tokens n ∧ flights n' = flights n ∧ override_file n' = override_file n ∧
  pool_ok (bootstrap_grants n') ∧
  (size (bootstrap_grants n') + adopted (audit_trail n') ≤ size (bootstrap_grants n) + adopted (audit_trail n))%nat.
Proof.
  intros (_ & Hg & _). unfold cluster_secret_receive.
  destruct (require_cluster_auth _ _ _ _ _ _ _) as [[g r'] st].
  set (n0 := n <| ids := st |>). change (bootstrap_grants n) with (bootstrap_grants n0) in Hg |- *.
  change (one_time_join_tokens n) with (one_time_join_tokens n0). change (flights n) with (flights n0).
  change (override_file n) with (override_file n0). change (audit_trail n) with (audit_trail n0).
  clearbody n0. clear n.
  assert (∀ l, adopted (l ++ [SecretChanged]) = adopted l) as Hs by (intros l; unfold adopted; rewrite count_snoc; cbn; lia).
  assert (∀ l, adopted (l ++ [GrantAdopted]) = S (adopted l)) as Ha by (intros l; unfold adopted; rewrite count_snoc; cbn; lia).
  set (body := match g with Ok _ => _ | _ => _ end).
  assert (∃ allowed via n1, body = (allowed, via, n1) ∧ one_time_join_tokens n1 = one_time_join_tokens n0 ∧
    flights n1 = flights n0 ∧ override_file n1 = override_file n0 ∧ audit_trail n1 = audit_trail n0 ∧
    pool_ok (bootstrap_grants n1) ∧
    (size (bootstrap_grants n1) + one (allowed && via) ≤ size (bootstrap_grants n0))%nat)
    as (allowed & via & n1 & -> & <- & <- & <- & <- & Hg1 & Hsize).
  { assert (∃ allowed via n1,
      match grant with
      | Some t => if (128 <? String.length t)%nat then (false, false, n0)
                  else let '(exp, m) := take_token (instant e) t (bootstrap_grants n0) in
                       (bool_decide (exp ≠ None), true, n0 <| bootstrap_grants := m |>)
      | None => (false, false, n0)
      end = (allowed, via, n1) ∧ one_time_join_tokens n1 = one_time_join_tokens n0 ∧
      flights n1 = flights n0 ∧ override_file n1 = override_file n0 ∧ audit_trail n1 = audit_trail n0 ∧
      pool_ok (bootstrap_grants n1) ∧
      (size (bootstrap_grants n1) + one (allowed && via) ≤ size (bootstrap_grants n0))%nat) as Hgrant.
    { destruct grant as [t|]; [|exists false, false, n0; split_and!; try done; cbn; lia].
      destruct (128 <? String.length t)%nat eqn:Hl; [exists false, false, n0; split_and!; try done; cbn; lia|].
      destruct (take_token _ _ _) as [exp m] eqn:Ht. apply Nat.ltb_ge in Hl.
      apply take_token_spec in Ht as (Hm & Hsz & _ & _); [|done|unfold sized; lia].
      exists (bool_decide (exp ≠ None)), true, (n0 <| bootstrap_grants := m |>). split_and!; try done.
      by rewrite andb_true_r. }
    unfold body. destruct g; [|exact Hgrant..]. exists true, false, n0. split_and!; try done. cbn. lia. }
  destruct allowed; cbn [negb]; [|intros [= _ <-]; split_and!; try done; cbn [andb one] in Hsize; lia].
  set (n2 := if via then record_audit GrantAdopted n1 else n1).
  assert (one_time_join_tokens n2 = one_time_join_tokens n1 ∧ flights n2 = flights n1 ∧ override_file n2 = override_file n1 ∧
    bootstrap_grants n2 = bootstrap_grants n1 ∧ adopted (audit_trail n2) = (adopted (audit_trail n1) + one via)%nat)
    as (<- & <- & <- & Hgr2 & Had2).
  { unfold n2. destruct via; cbn -[adopted size]; rewrite ?Ha; split_and!; try done; lia. }
  rewrite <-Hgr2 in Hg1, Hsize. cbn in Hsize.
  destruct (nonempty secret) as [sec|]; [|intros [= _ <-]; split_and!; try done; lia].
  destruct (written (write e)); cbn [negb]; [|intros [= _ <-]; cbn -[adopted size]; split_and!; try done; lia].
  intros [= _ <-]. repeat case_match; cbn -[adopted size]; rewrite ?Hs; split_and!; try done; lia.
Qed.

(** What a step may do to tokens, grants and flights. *)
Definition moves t (x : JoinEnv * Step) n n' : Prop :=
  node_ok n' ∧ (spares_token t x → (weight t n' ≤ weight t n)%nat) ∧ (potential n' ≤ potential n + one (approves x))%nat.

Lemma unmoved t x n n' :
  node_ok n → one_time_join_tokens n' = one_time_join_tokens n → bootstrap_grants n' = bootstrap_grants n →
  flights n' = flights n → adopted (audit_trail n') = adopted (audit_trail n) → moves t x n n'.
Proof.
  intros Hok H1 H2 H3 H4. unfold moves, node_ok, weight, potential. rewrite H1, H2, H3, H4.
  split_and!; try apply Hok; [done|lia].
Qed.
Lemma moves_refl t x n : node_ok n → moves t x n n.
Proof. intros. by apply unmoved. Qed.

Lemma adopted_snoc l a : a ≠ GrantAdopted → adopted (l ++ [a]) = adopted l.
Proof. intros Ha. unfold adopted. rewrite count_snoc. destruct a; cbn; lia || done. Qed.

Lemma moves_fewer_tokens t x n m :
  node_ok n → m ⊆ one_time_join_tokens n → moves t x n (n <| one_time_join_tokens := m |>).
Proof.
  intros (Ht & Hg & Hf) Hm. split_and!; [by split; [eapply pool_ok_mono|]| |unfold potential; cbn -[adopted size count]; lia].
  intros _. unfold weight. cbn -[count]. pose proof (has_mono t _ _ Hm). lia.
Qed.

(** Putting back what a flight took. *)
Lemma put_back_moves t e f n :
  node_ok n → sized (trim (token (rq f))) →
  node_ok (put_back e f n) ∧ flights (put_back e f n) = flights n ∧ bootstrap_grants (put_back e f n) = bootstrap_grants n ∧
  audit_trail (put_back e f n) = audit_trail n ∧
  (has t (one_time_join_tokens (put_back e f n))
   ≤ has t (one_time_join_tokens n) + one (bool_decide (ott f ≠ None ∧ trim (token (rq f)) = t)))%nat.
Proof.
  intros (Ht & Hg & Hf) Hs. unfold put_back. destruct (ott f) as [exp|]; [|split_and!; try done; lia].
  cbn -[has reinsert]. split_and!; try done; [by split; [apply reinsert_ok|]|].
  etrans; [apply reinsert_has|]. case_bool_decide as Hp; [by rewrite bool_decide_true|cbn; lia].
Qed.

Lemma begin_moves t e r n :
  node_ok n → sized (trim (token r)) → moves t (e, BeginJoin r) n (cluster_join_handshake parse_ip e r n).2.
Proof.
  intros Hok Hs. unfold cluster_join_handshake. destruct (bool_decide _); [by apply moves_refl|].
  destruct (is_locked_out _ _ _ _); [by apply unmoved|].
  destruct (if validate_cluster_secret _ _ then _ else _) as [exp m] eqn:Htake.
  set (n1 := n <| one_time_join_tokens := m |>).
  assert (node_ok n1 ∧ (has t m + one (bool_decide (exp ≠ None ∧ trim (token r) = t)) ≤ has t (one_time_join_tokens n))%nat)
    as [Hok1 Hm].
  { destruct Hok as (Ht & Hg & Hf). destruct (validate_cluster_secret _ _).
    - injection Htake as <- <-. split; [done|]. rewrite bool_decide_false by naive_solver. cbn. lia.
    - apply take_token_spec in Htake as (Hp & _ & Hh & _); [|done..]. by split; [split|]. }
  destruct (_ && bool_decide (exp = None)).
  { split_and!; [done| |unfold potential; cbn -[adopted size count]; lia]. intros _. unfold weight. cbn -[count has]. lia. }
  set (f := {| rq := r; ott := exp; recluster := false; stage := Verifying |}).
  destruct (_ || _).
  - destruct (put_back_moves t e f n1 Hok1 Hs) as (Hok2 & Hfl & Hgr & Hau & Hh).
    split_and!; [done| |].
    + intros _. unfold weight. cbn [snd]. rewrite Hfl. cbn -[count has] in *. lia.
    + unfold potential. cbn [snd]. rewrite Hfl, Hgr, Hau. cbn -[adopted size count]. lia.
  - destruct Hok1 as (Ht1 & Hg1 & Hf1). split_and!.
    + split_and!; try done. apply Forall_app. split; [done|]. by apply Forall_singleton.
    + intros _. unfold weight. cbn -[count has]. rewrite count_snoc. unfold holds at 2. cbn [ott rq stage f ended].
      rewrite andb_true_r. unfold n1. cbn -[count has one]. lia.
    + unfold potential. cbn -[count adopted size one]. rewrite count_snoc. cbn. lia.
Qed.

Lemma proceed_moves t e a i n :
  node_ok n → draws_well (random e) → moves t (e, Proceed a i) n (proceed parse_ip show_ip e a i n).2.
Proof.
  intros Hok Hr. destruct (proceed _ _ _ _ _ _) as [reply n'] eqn:Hp. cbn [snd].
  apply proceed_spec in Hp as [->|(f & f' & n1 & Hi & Hs & ->)]; [by apply moves_refl|].
  pose proof (step_flight_kept e a f n reply f' n1 Hs) as (Hrq & Hott & Hfl & _ & _ & Htok & Hgr & Had & Hun).
  destruct Hok as (Ht & Hg & Hf). rewrite Forall_lookup in Hf. pose proof (Hf i f Hi) as Hsf.
  assert (pool_ok (bootstrap_grants n1) ∧
    (size (bootstrap_grants n1) ≤ size (bootstrap_grants n) + one (match stage f with Announced => true | _ => false end))%nat)
    as [Hg1 Hsz].
  { rewrite Hgr. destruct (stage f); try (split; [done|lia]).
    destruct (mint _ _ _ _) as [g m] eqn:Hm. apply mint_spec in Hm as (? & ? & _); [|done..]. cbn. split; [done|lia]. }
  assert (pool_ok (one_time_join_tokens n1) ∧
    (has t (one_time_join_tokens n1) + holds t f' ≤ has t (one_time_join_tokens n) + holds t f)%nat) as [Ht1 Hw].
  { unfold holds. rewrite Hrq, Hott. destruct Htok as [[-> Hend]|(Href & Hver & ->)].
    - split; [done|]. destruct (ended (stage f)); [rewrite Hend by done; lia|]. destruct (bool_decide _), (ended (stage f')); cbn; lia.
    - rewrite Href. cbn [ended negb]. rewrite andb_false_r. cbn [one].
      destruct (ott f) as [exp|]; [|split; [done|lia]]. split; [by apply reinsert_ok|].
      rewrite Nat.add_0_r. etrans; [apply reinsert_has|]. case_bool_decide as Hp; [|cbn; lia].
      rewrite Hver, bool_decide_true by done. cbn. lia. }
  pose proof (count_insert (holds t) _ i f f' Hi) as Hc. pose proof (count_insert underway _ i f f' Hi) as Hcu.
  split_and!.
  - split_and!; try done. apply Forall_insert; [by apply Forall_lookup|by rewrite Hrq].
  - intros _. unfold weight. cbn -[count has] in *. lia.
  - unfold potential. cbn -[count adopted size one] in *. rewrite Had. unfold approves. cbn [snd]. destruct a as [[]|]; lia.
Qed.

Lemma restart_moves t e bytes l n :
  node_ok n → moves t (e, RestartProcess bytes l) n (restart_process parse_ip e bytes l n).
Proof.
  intros (_ & _ & Hf). unfold restart_process. destruct (load_join_token _ _ _) as [tok file].
  split_and!.
  - split_and!; [by intros k [? ?]..|]. cbn. apply Forall_fmap. eapply Forall_impl; [exact Hf|].
    intros f Hs. cbn. by destruct (stage f).
  - intros _. unfold weight. cbn -[count has].
    etrans; [apply Nat.add_le_mono_l, count_fmap_le|apply Nat.add_le_mono_r, has_mono, map_empty_subseteq].
    intros f. unfold holds. destruct (stage f) eqn:Hst; cbn -[one]; rewrite ?Hst; cbn -[one]; rewrite ?andb_false_r; (done || cbn; lia).
  - unfold potential. cbn -[count adopted]. rewrite map_size_empty.
    assert (count underway ((λ f, match stage f with Joined | Refused => f | _ => f <| stage := Dropped |> end) <$> flights n)
            ≤ count underway (flights n))%nat; [|lia].
    apply count_fmap_le. intros f. unfold underway. destruct (stage f) eqn:Hst; cbn; rewrite ?Hst; cbn; lia.
Qed.

Lemma step_moves t x n : node_ok n → sane x → moves t x n (join_step x n).2.
Proof.
  destruct x as [e s]. intros Hok [Hr Hs]. cbn [fst snd] in *. destruct s; cbn [Join.join_step snd].
  - unfold rotate_join_token. destruct (local_admin caller); [|by apply moves_refl].
    destruct (generate_token _); [|by apply moves_refl..]. destruct (written _); cbn [negb snd]; [|by apply unmoved].
    apply unmoved; [done..|]. by apply adopted_snoc.
  - unfold mint_one_time_join_token. destruct (local_admin caller); [|by apply moves_refl]. cbn [negb].
    destruct (mint _ _ _ _) as [r m] eqn:Hm. destruct Hok as (Ht & Hg & Hf).
    apply mint_spec in Hm as (Hp & _ & Hh & Hdraw); [|done..].
    assert (moves t (e, MintToken caller) n (n <| one_time_join_tokens := m |>)) as Hmoves.
    { split_and!; [by split| |unfold potential; cbn -[adopted size count]; lia].
      intros Hsp. unfold weight. cbn -[count has]. specialize (Hh t). unfold spares_token in Hsp. cbn in Hsp.
      assert (r ≠ Ok t) as Hrt by (intros ->; by destruct (Hdraw t eq_refl) as (_ & _ & ? & _)). specialize (Hh Hrt). lia. }
    destruct r; [|done..]. destruct Hmoves as (H1 & H2 & H3). split_and!; [done..|].
    unfold potential in *. cbn -[adopted size count] in *. rewrite adopted_snoc by done. done.
  - unfold arm_recluster_override. destruct (local_admin caller); [|by apply moves_refl].
    destruct (written _); cbn [negb snd]; [|by apply unmoved]. apply unmoved; [done..|]. by apply adopted_snoc.
  - unfold clear_recluster_override. destruct (local_admin caller); [|by apply moves_refl].
    destruct (recluster_override_armed _ _ _) as [[] file]; cbn [negb snd]; [|by apply unmoved].
    apply unmoved; [done..|]. by apply adopted_snoc.
  - unfold verify_join_token. destruct (bool_decide _); [by apply moves_refl|]. destruct (negb bootstrap); [by apply moves_refl|].
    destruct (validate_cluster_secret _ _); [by apply moves_refl|].
    destruct (verify_and_consume _ _ _) as [b m] eqn:Hv. apply consume_sub in Hv. by apply moves_fewer_tokens.
  - by apply begin_moves.
  - by apply proceed_moves.
  - destruct (cluster_secret_receive _ _ _ _ _ _) as [reply n'] eqn:Hc. pose proof Hok as (Ht & Hg & Hf).
    apply receive_kept in Hc as (H1 & H2 & _ & H3 & H4); [|done]. cbn [snd].
    split_and!; [by split; [rewrite H1|split; [|rewrite H2]]| |].
    + intros _. unfold weight. by rewrite H1, H2.
    + unfold potential. rewrite H2. lia.
  - unfold security_cluster_secret_receive. destruct (negb _); [by apply moves_refl|].
    destruct (_ || _); [by apply moves_refl|]. destruct (negb _); by apply unmoved.
  - by apply restart_moves.
Qed.

Lemma run_moves t xs n :
  node_ok n → Forall sane xs →
  node_ok (join_run xs n) ∧ (Forall (spares_token t) xs → (weight t (join_run xs n) ≤ weight t n)%nat) ∧
  (potential (join_run xs n) ≤ potential n + count (λ x, one (approves x)) xs)%nat.
Proof.
  revert n. induction xs as [|x xs IH]; intros n Hok Hs; [split_and!; [done|done|cbn; lia]|].
  apply Forall_cons in Hs as [Hx Hs]. destruct (step_moves t x n Hok Hx) as (Hok1 & Hw1 & Hp1).
  destruct (IH _ Hok1 Hs) as (Hok2 & Hw2 & Hp2). change (join_run (x :: xs) n) with (join_run xs (join_step x n).2).
  split_and!; [done| |].
  - intros [Hsp Hsps]%Forall_cons. etrans; [by apply Hw2|by apply Hw1].
  - change (count _ (x :: xs)) with (one (approves x) + count (λ x, one (approves x)) xs)%nat. lia.
Qed.
End Steps.
