(* ===== verification/JoinProps.v ===== *)
(** * What the join handshake guarantees, and where it does not

    Tokens admit once, secrets are adopted only after an administrator's
    password, clusters are changed only with the local override; and the
    override, the automatic restart and strict mode where they fail. *)
From stdpp Require Import pretty.
From S2P Require Import Prelude Net Digits Cluster ClusterProps AuthLimiter AtRest AtRestProps Rotation RotationProps NodeIdentity IdentityProps Join JoinInv.

Section Props.
Context `{Crypto} `{Signing} {O : HashOrder Node} {OT : HashOrder Z} {OA : HashOrder AttemptRecord}.
Context (parse_ip : string → option IpAddr) (show_ip : IpAddr → string).
Implicit Types (e : JoinEnv) (n : JoinNode) (f : Flight) (r : Request).
Abbreviation join_step := (join_step parse_ip show_ip).
Abbreviation join_run := (join_run parse_ip show_ip).
Abbreviation proceed := (proceed parse_ip show_ip).

(** ** Tokens and grants *)

(** The handshakes that joined with the one-time token [t]. *)
Definition admitted_via (t : string) n : nat :=
  count (λ f, one (bool_decide (ott f ≠ None ∧ trim (token (rq f)) = t ∧ stage f = Joined))) (flights n).

(** C31: A one-time token admits at most once.  Once it is minted, whatever
    handshakes take it, fail and put it back, interleave, verify it over the
    other endpoint or restart the process, at most one handshake joins with
    it, as long as the generator does not draw it again. *)
Theorem one_time_token_admits_once e caller t n n1 xs :
  node_ok n → weight t n = 0%nat → sane (e, MintToken caller) →
  join_step (e, MintToken caller) n = (TokenIs t, n1) →
  Forall sane xs → Forall (spares_token t) xs → (admitted_via t (join_run xs n1) ≤ 1)%nat.
Proof.
  intros Hok Hw0 Hs Hstep Hsane Hsp. pose proof (step_moves parse_ip show_ip t _ n Hok Hs) as (Hok1 & _ & _).
  rewrite Hstep in Hok1. cbn [snd] in Hok1.
  destruct (run_moves parse_ip show_ip t xs n1 Hok1 Hsane) as (_ & Hw & _). specialize (Hw Hsp).
  assert (flights n1 = flights n) as Hfl.
  { cbn [Join.join_step] in Hstep. unfold mint_one_time_join_token in Hstep. destruct (negb _); [done|].
    destruct (mint _ _ _ _) as [[]]; try done. by injection Hstep as _ <-. }
  assert (weight t n1 ≤ 1)%nat as Hw1.
  { unfold weight in *. rewrite Hfl. unfold has at 1. destruct (bool_decide _); cbn -[count] in *; lia. }
  transitivity (count (holds t) (flights (join_run xs n1))); [|unfold weight in *; lia].
  apply count_le. intros f. unfold holds. case_bool_decide as Hb; [|cbn; lia].
  destruct Hb as (? & ? & Hst). rewrite Hst. by rewrite bool_decide_true.
Qed.

(** C32: A secret gets in on a grant only after an administrator's password.
    Whatever requests, handshakes and restarts follow a start, at most as many
    secrets have been adopted without the cluster secret as passwords of
    administrators of this node have been verified for a handshake. *)
Theorem adoption_needs_admin n xs :
  node_ok n → bootstrap_grants n = ∅ → audit_trail n = [] → flights n = [] → Forall sane xs →
  (adopted (audit_trail (join_run xs n)) ≤ count (λ x, one (approves x)) xs)%nat.
Proof.
  intros Hok Hg Ha Hf Hs. destruct (run_moves parse_ip show_ip "" xs n Hok Hs) as (_ & _ & Hp).
  assert (potential n = 0%nat) as Hz. { unfold potential. rewrite Hg, Ha, Hf. by rewrite map_size_empty. }
  unfold potential in *. lia.
Qed.

(** ** Changing the cluster *)

(** When a local administrator armed the override. *)
Definition armings (xs : list (JoinEnv * Step)) : list Z :=
  omap (λ x, match x.2 with ArmOverride c => if local_admin c then Some (unix x.1) else None | _ => None end) xs.
(** The clock is past the epoch; a failed write leaves the marker as it was or
    empty. *)
Definition writes_well (x : JoinEnv * Step) : Prop :=
  0 < unix x.1 ≤ u64_max ∧ match write x.1 with Failed (Some s) => s = "" | _ => True end.
Definition marked (ts : list Z) (file : option string) : Prop :=
  file = None ∨ file = Some "" ∨ ∃ a, a ∈ ts ∧ file = Some (pretty a).

Lemma armed_spec now u file : ∃ b file', recluster_override_armed now u file = (b, file') ∧ (file' = file ∨ file' = None).
Proof.
  unfold recluster_override_armed. destruct file as [s|]; [|by exists false, None; split; [|left]].
  destruct (_ || _); [|by exists true, (Some s); split; [|left]].
  exists false. destruct u; [exists None|exists (Some s)]; split; auto.
Qed.

Lemma armed_marked ts now u file file' :
  Forall (λ a, 0 < a ≤ u64_max) ts → marked ts file → recluster_override_armed now u file = (true, file') →
  ∃ a, a ∈ ts ∧ now ≤ a + OVERRIDE_TTL_SECS.
Proof.
  intros Hts [->|[->|(a & Ha & ->)]]; unfold recluster_override_armed; [done|done|].
  rewrite Forall_forall in Hts. pose proof (Hts a Ha) as Hr.
  rewrite trim_plain by (eapply all_chars_impl; [|by apply pretty_digits; lia]; intros ch Hc; unfold is_digit, char_between in *; lia).
  rewrite parse_pretty by lia. cbn [default from_option id]. destruct (_ || _) eqn:Hb; [done|].
  apply orb_false_iff in Hb as [_ Hb%Z.ltb_ge]. unfold sat_sub in Hb. exists a. split; [done|]. lia.
Qed.

Lemma step_flight_override e a f n reply f' n' :
  step_flight parse_ip show_ip e a f n = (reply, f', n') →
  (override_file n' = override_file n ∨ override_file n' = None) ∧
  (recluster f = false → recluster f' = true →
   ∃ file, recluster_override_armed (unix e) (unlink e) (override_file n) = (true, file)).
Proof.
  unfold step_flight. destruct (stage f).
  - unfold after_password, refuse, put_back. destruct a as [[]|].
    + destruct (is_silent_recluster _ _ _).
      * destruct (armed_spec (unix e) (unlink e) (override_file n)) as ([] & file & Hf & Hor); rewrite Hf.
        -- intros [= <- <- <-]. cbn. split; [done|]. intros _ _. by exists file.
        -- intros [= <- <- <-]. destruct (ott f); cbn; split; try done; congruence.
      * intros [= <- <- <-]. cbn. split; [by left|congruence].
    + intros [= <- <- <-]. destruct (ott f); cbn; (split; [by left|congruence]).
    + intros [= <- <- <-]. destruct (ott f); cbn; (split; [by left|congruence]).
  - intros [= <- <- <-]. cbn. unfold clear_override. split; [destruct (unlink e); auto|congruence].
  - intros [= <- <- <-]. unfold announce. cbn. split; [|congruence].
    destruct (bool_decide _); [by left|]. destruct (record_known_peer_ip _ _ _ _ _ _). by left.
  - destruct (mint _ _ _ _) as [g m]. intros [= <- <- <-]. cbn. split; [left|congruence].
    unfold seed_master. destruct (parse_ip _); [|done]. destruct (_ || _); [done|]. by destruct (existsb _ _).
  - intros [= <- <- <-]. split; [by left|congruence].
  - intros [= <- <- <-]. split; [by left|congruence].
  - intros [= <- <- <-]. split; [by left|congruence].
Qed.

Lemma marked_less ts file file' : marked ts file → file' = file ∨ file' = None → marked ts file'.
Proof. intros Hm [->| ->]; [done|by left]. Qed.
Lemma marked_more ts ts' file : marked ts file → marked (ts ++ ts') file.
Proof. intros [?|[?|(a & ? & ?)]]; [by left|by right; left|right; right]. exists a. by rewrite elem_of_app; auto. Qed.

Lemma step_marked x n ts :
  node_ok n → writes_well x → marked ts (override_file n) →
  marked (ts ++ armings [x]) (override_file (join_step x n).2).
Proof.
  intros Hok [_ Hw] Hm. destruct x as [e s]. destruct s; cbn [armings omap list_omap snd fst]; rewrite ?app_nil_r;
    cbn [Join.join_step].
  - unfold rotate_join_token. destruct (negb _); [done|]. destruct (generate_token _); [|done..]. by destruct (written _).
  - unfold mint_one_time_join_token. destruct (negb _); [done|]. by destruct (mint _ _ _ _) as [[]].
  - unfold arm_recluster_override. destruct (local_admin caller); cbn [negb]; [|by apply marked_more].
    assert (marked (ts ++ [unix e]) (arm_override (unix e) (write e) (override_file n))) as Hma.
    { unfold arm_override, write_file. cbn in Hw. destruct (write e) as [|[s|]]; [|subst; by right; left|by apply marked_more].
      right; right. exists (unix e). by rewrite elem_of_app, list_elem_of_singleton; auto. }
    by destruct (written _).
  - unfold clear_recluster_override. destruct (negb _); [done|].
    destruct (armed_spec (unix e) (unlink e) (override_file n)) as (b & file & -> & Hor).
    assert (marked ts (clear_override (unlink e) file)) as Hma.
    { unfold clear_override. destruct (unlink e); [by left|by eapply marked_less]. }
    by destruct b.
  - unfold verify_join_token. repeat case_match; done.
  - unfold cluster_join_handshake, put_back. repeat case_match; done.
  - destruct (Join.proceed _ _ _ _ _ _) as [reply n'] eqn:Hp.
    apply proceed_spec in Hp as [->|(f & f' & n1 & _ & Hs & ->)]; [done|].
    apply step_flight_override in Hs as [Hor _]. by eapply marked_less.
  - destruct (cluster_secret_receive _ _ _ _ _ _) as [reply n'] eqn:Hc. cbn [snd].
    apply receive_kept in Hc as (_ & _ & Hov & _); [by rewrite Hov|done].
  - unfold security_cluster_secret_receive. repeat case_match; done.
  - unfold restart_process. by destruct (load_join_token _ _ _).
Qed.

Lemma armings_app xs ys : armings (xs ++ ys) = armings xs ++ armings ys.
Proof. apply omap_app. Qed.

Lemma run_marked xs n :
  node_ok n → Forall sane xs → Forall writes_well xs → override_file n = None →
  marked (armings xs) (override_file (join_run xs n)) ∧ node_ok (join_run xs n).
Proof.
  intros Hok Hs Hw Hn. induction xs as [|x xs IH] using rev_ind; [by split; [left|]|].
  apply Forall_app in Hs as [Hs Hx], Hw as [Hw Hwx]. apply Forall_cons in Hx as [Hx _], Hwx as [Hwx _].
  destruct (IH Hs Hw) as [Hm Hok']. unfold Join.join_run. rewrite foldl_app. fold (join_run xs n). cbn [foldl].
  split; [|exact (proj1 (step_moves parse_ip show_ip "" x _ Hok' Hx))]. rewrite armings_app. by apply step_marked.
Qed.

(** Another cluster takes this node only with the local override.  From a
    start without the marker, whatever requests and handshakes are run, a
    handshake begins to move a node that has peers to another cluster only
    within thirty minutes after a local administrator armed the override. *)
Theorem recluster_needs_local_admin n xs e a i f f' :
  node_ok n → override_file n = None → Forall sane xs → Forall writes_well xs →
  flights (join_run xs n) !! i = Some f → recluster f = false →
  flights (join_step (e, Proceed a i) (join_run xs n)).2 !! i = Some f' → recluster f' = true →
  ∃ t, t ∈ armings xs ∧ unix e ≤ t + OVERRIDE_TTL_SECS.
Proof.
  intros Hok Hn Hs Hw Hi Hr Hi' Hr'. destruct (run_marked xs n Hok Hs Hw Hn) as [Hm _].
  cbn [Join.join_step] in Hi'. destruct (proceed e a i _) as [reply n'] eqn:Hp. cbn [snd] in Hi'.
  apply proceed_spec in Hp as [->|(g & g' & n1 & Hg & Hst & ->)]; [congruence|].
  rewrite Hi in Hg. injection Hg as <-. apply step_flight_override in Hst as [_ Harm].
  assert (g' = f') as ->.
  { change (flights (n1 <| flights := <[i := g']> (flights (join_run xs n)) |>)) with (<[i := g']> (flights (join_run xs n))) in Hi'.
    rewrite list_lookup_insert_eq in Hi' by (by eapply lookup_lt_Some). by injection Hi'. }
  destruct (Harm Hr Hr') as [file Hfile]. eapply armed_marked; [|exact Hm|exact Hfile].
  apply Forall_forall. intros t. unfold armings. rewrite list_elem_of_omap. intros ([e0 s] & Hin & Ht).
  rewrite Forall_forall in Hw. destruct (Hw _ Hin) as [Hrange _]. cbn in Ht. destruct s; try done.
  destruct (local_admin _); [|done]. by injection Ht as <-.
Qed.

(** ** Two handshakes and one override *)
Lemma proceed_flight e a i f n :
  flights n !! i = Some f →
  proceed e a i n = ((step_flight parse_ip show_ip e a f n).1.1,
    (step_flight parse_ip show_ip e a f n).2 <| flights := <[i := (step_flight parse_ip show_ip e a f n).1.2]> (flights n) |>).
Proof.
  intros Hi. unfold Join.proceed. rewrite Hi. destruct (step_flight _ _ e a f n) as [[r f'] n1] eqn:Hs.
  pose proof (step_flight_kept parse_ip show_ip e a f n r f' n1 Hs) as (_ & _ & Hfl & _). by rewrite Hfl.
Qed.

Definition finish e i : list (JoinEnv * Step) := replicate 3 (e, Proceed None i).

(** From the override on, nothing stops a handshake. *)
Lemma finish_joins e i f n :
  flights n !! i = Some f → stage f = Overriding →
  flights (join_run (finish e i) n) = <[i := f <| stage := Joined |>]> (flights n).
Proof.
  intros Hi Hst. pose proof (lookup_lt_Some _ _ _ Hi) as Hlt.
  assert (∀ g m, flights m !! i = Some g → flights (join_step (e, Proceed None i) m).2
            = <[i := (step_flight parse_ip show_ip e None g m).1.2]> (flights m)) as Hone.
  { intros g m Hg. cbn [Join.join_step]. by rewrite (proceed_flight e None i g m Hg). }
  unfold finish. cbn [replicate Join.join_run foldl].
  set (n1 := (Join.join_step _ _ _ n).2). set (n2 := (Join.join_step _ _ _ n1).2).
  assert (flights n1 = <[i := f <| stage := Cleared |>]> (flights n)) as H1.
  { unfold n1. rewrite (Hone f n Hi). unfold step_flight. by rewrite Hst. }
  assert (flights n2 = <[i := f <| stage := Announced |>]> (flights n)) as H2.
  { unfold n2. rewrite (Hone (f <| stage := Cleared |>) n1) by (rewrite H1; by apply list_lookup_insert_eq).
    by rewrite H1, list_insert_insert_eq. }
  rewrite (Hone (f <| stage := Announced |>) n2) by (rewrite H2; by apply list_lookup_insert_eq).
  rewrite H2, list_insert_insert_eq. unfold step_flight. cbn [stage setter]. by destruct (mint _ _ _ _).
Qed.

(** It asks to move the node to another cluster. *)
Definition moves_cluster n f : bool :=
  is_silent_recluster (negb (has_no_other_peers n)) (get_self_cluster_name (cluster n)) (default "" (cluster_name (rq f))).

(** One arming of the override lets two handshakes through.  The marker is
    read and removed in two calls: two handshakes whose passwords are verified
    between them both join other clusters, where the administrator was told
    that this node would accept one. *)
Theorem override_admits_two e file i j f g n :
  i ≠ j → flights n !! i = Some f → flights n !! j = Some g → stage f = Verifying → stage g = Verifying →
  moves_cluster n f = true → moves_cluster n g = true →
  recluster_override_armed (unix e) (unlink e) (override_file n) = (true, file) →
  let n' := join_run ([(e, Proceed (Some true) i); (e, Proceed (Some true) j)] ++ finish e i ++ finish e j) n in
  flights n' !! i = Some (f <| recluster := true |> <| stage := Joined |>) ∧
  flights n' !! j = Some (g <| recluster := true |> <| stage := Joined |>).
Proof.
  intros Hij Hi Hj Hf Hg Hmf Hmg Harm n'.
  assert (file = override_file n) as Hfile.
  { unfold recluster_override_armed in Harm. destruct (override_file n); [|done]. by destruct (_ || _); [|injection Harm as <-]. }
  set (f1 := f <| recluster := true |> <| stage := Overriding |>).
  set (g1 := g <| recluster := true |> <| stage := Overriding |>).
  assert (∀ h m, stage h = Verifying → moves_cluster m h = true → override_file m = override_file n →
    step_flight parse_ip show_ip e (Some true) h m
    = (Waiting, h <| recluster := true |> <| stage := Overriding |>, m <| override_file := file |>)) as Hstep.
  { intros h m Hh Hm Ho. unfold step_flight. rewrite Hh. unfold after_password. unfold moves_cluster in Hm.
    by rewrite Hm, Ho, Harm. }
  set (n1 := (join_step (e, Proceed (Some true) i) n).2).
  assert (n1 = n <| override_file := file |> <| flights := <[i := f1]> (flights n) |>) as Hn1.
  { unfold n1. cbn [Join.join_step]. rewrite (proceed_flight e (Some true) i f n Hi). by rewrite (Hstep f n Hf Hmf). }
  set (n2 := (join_step (e, Proceed (Some true) j) n1).2).
  assert (flights n2 = <[j := g1]> (<[i := f1]> (flights n))) as Hn2.
  { unfold n2. cbn [Join.join_step]. rewrite (proceed_flight e (Some true) j g n1)
      by (rewrite Hn1; cbn; by rewrite list_lookup_insert_ne).
    rewrite (Hstep g n1 Hg) by (rewrite Hn1; done). by rewrite Hn1. }
  pose proof (lookup_lt_Some _ _ _ Hi) as Hli. pose proof (lookup_lt_Some _ _ _ Hj) as Hlj.
  assert (flights n' = <[j := g <| recluster := true |> <| stage := Joined |>]>
            (<[i := f <| recluster := true |> <| stage := Joined |>]> (<[j := g1]> (<[i := f1]> (flights n))))) as ->.
  { unfold n', Join.join_run. rewrite !foldl_app.
    change (foldl _ n [_; _]) with n2. fold (join_run (finish e i) n2).
    pose proof (finish_joins e i f1 n2) as Hfi. rewrite Hn2 in Hfi.
    specialize (Hfi ltac:(rewrite list_lookup_insert_ne by done; by apply list_lookup_insert_eq) eq_refl).
    fold (join_run (finish e j) (join_run (finish e i) n2)).
    rewrite (finish_joins e j g1).
    - by rewrite Hfi.
    - rewrite Hfi, list_lookup_insert_ne by done. apply list_lookup_insert_eq. by rewrite length_insert.
    - done. }
  split.
  - rewrite list_lookup_insert_ne by done. apply list_lookup_insert_eq. by rewrite !length_insert.
  - apply list_lookup_insert_eq. by rewrite !length_insert.
Qed.


(** ** The secret after a join *)

(** What adopting [secret] leaves: the file, and the stores under it. *)
Definition adopts e (secret : string) n n' : Prop :=
  load_cluster_secret (rot n') = secret ∧
  stores (rot n') = (if bool_decide (secret = load_cluster_secret (rot n)) then stores (rot n)
                     else (reencrypt_all_at_rest (e_pass (rot_env e)) (load_cluster_secret (rot n)) secret (stores (rot n))).2) ∧
  memory (rot n') = memory (rot n).

Lemma load_saved e secret n :
  write e = Written → secret ≠ "" → trim secret = secret →
  load_cluster_secret (rot (save_cluster_secret e secret n)) = secret.
Proof.
  intros Hw Hne Ht. unfold save_cluster_secret, load_cluster_secret. cbn. rewrite Hw. cbn. rewrite Ht.
  by rewrite bool_decide_false.
Qed.

(** The inter-node gate or a live grant lets a request in. *)
Definition lets_in e r (grant : option string) n : Prop :=
  (require_cluster_auth (unix e) (unix e) (rot_env e) (rot n) (Some (cluster n)) r (ids n)).1.1 = Ok () ∨
  ∃ g exp, grant = Some g ∧ bootstrap_grants n !! g = Some exp ∧ instant e < exp ∧ g ≠ "" ∧ (String.length g ≤ 128)%nat.

(** A request that is let in has its secret stored. *)
Lemma receive_stores e r secret grant b n :
  pool_ok (bootstrap_grants n) → lets_in e r grant n → write e = Written → secret ≠ "" → trim secret = secret →
  ∃ restarting, (cluster_secret_receive e r (Some secret) grant b n).1 = Saved restarting ∧
    adopts e secret n (cluster_secret_receive e r (Some secret) grant b n).2.
Proof.
  intros Hp Hin Hw Hs Ht. unfold lets_in in Hin. unfold cluster_secret_receive.
  destruct (require_cluster_auth _ _ _ _ _ _ _) as [[gt r'] st]. cbn [fst] in Hin. set (n0 := n <| ids := st |>).
  set (body := match gt with Ok _ => _ | _ => _ end).
  assert (∃ via n1, body = (true, via, n1) ∧ rot n1 = rot n) as (via & n1 & -> & Hrot).
  { unfold body. destruct Hin as [->|(g & exp & -> & Hg & Hexp & Hne & Hlen)]; [by exists false, n0|].
    rewrite (proj2 (Nat.ltb_ge 128 (String.length g)) Hlen).
    assert (take_token (instant e) g (bootstrap_grants n0)
            = (Some exp, delete g (prune_expired (instant e) (bootstrap_grants n0)))) as -> by by apply take_token_found.
    rewrite bool_decide_true by done. destruct gt; [by exists false, n0|by eexists true, _..]. }
  cbn [negb]. set (n2 := if via then _ else _). assert (rot n2 = rot n) as Hrot2 by (unfold n2; by destruct via).
  assert (nonempty (Some secret) = Some secret) as -> by (unfold nonempty; cbn; by rewrite bool_decide_false).
  cbn [written]. rewrite Hw. cbn [written negb].
  set (n3 := save_cluster_secret e secret n2).
  assert (load_cluster_secret (rot n3) = secret) as Hload by by apply load_saved.
  assert (stores (rot n3) = stores (rot n)) as Hst by (unfold n3, save_cluster_secret; cbn; by rewrite Hrot2).
  assert (memory (rot n3) = memory (rot n)) as Hme by (unfold n3, save_cluster_secret; cbn; by rewrite Hrot2).
  clearbody n3. rewrite Hrot2. eexists. split; [done|].
  set (n4 := if bool_decide (secret = load_cluster_secret (rot n)) then n3 else rekey e (load_cluster_secret (rot n)) secret n3).
  assert (adopts e secret n n4) as Ha.
  { unfold adopts, n4. destruct (bool_decide (secret = _)); [by split_and!|].
    unfold rekey. cbn. rewrite Hst, Hme. split_and!; [exact Hload|done..]. }
  destruct (_ && _); destruct (negb _); exact Ha.
Qed.

(** A joined node gets the cluster's secret.  The grant that an accepted
    handshake returns lets one push in for two minutes whatever secret the
    node held before: the pushed secret is stored, every store of credentials
    is re-keyed to it, and after a restart it is the secret in memory. *)
Theorem joined_node_adopts_secret e a i n g n1 e' r secret b bytes l :
  node_ok n → draws_well (random e) → proceed e a i n = (Accepted (Some g), n1) →
  instant e' < instant e + GRANT_TTL → write e' = Written → secret ≠ "" → trim secret = secret →
  let '(reply, n2) := join_step (e', ReceiveSecret r (Some secret) (Some g) b) n1 in
  (∃ restarting, reply = Saved restarting) ∧ adopts e' secret n n2 ∧
  ∀ e'', memory (rot (join_step (e'', RestartProcess bytes l) n2).2) = secret.
Proof.
  intros (_ & Hgok & _) Hd Hp Ht Hw Hs Htr.
  assert (∃ f, flights n !! i = Some f) as [f Hi].
  { unfold Join.proceed in Hp. destruct (flights n !! i) as [f|]; [by exists f|done]. }
  rewrite (proceed_flight e a i f n Hi) in Hp. injection Hp as Hr Hn1.
  assert (stage f = Announced ∧ ∃ m, mint (instant e) GRANT_TTL (random e) (bootstrap_grants n) = (Ok g, m)) as (Hst & m & Hm).
  { unfold step_flight in Hr. destruct (stage f); try done.
    - exfalso. unfold after_password, refuse in Hr. destruct a as [[]|]; [|done..].
      destruct (is_silent_recluster _ _ _); [|done]. by destruct (recluster_override_armed _ _ _) as [[] ?].
    - destruct (mint _ _ _ _) as [[x| |] m]; [|done..]. injection Hr as ->. split; [done|by exists m]. }
  assert (bootstrap_grants n1 = m ∧ rot n1 = rot n) as [Hgr Hrot].
  { rewrite <-Hn1. unfold step_flight. rewrite Hst, Hm. unfold seed_master.
    destruct (parse_ip _); [destruct (_ || _); [|destruct (existsb _ _)]|]; done. }
  apply mint_spec in Hm as (Hmok & _ & _ & Hdraw); [|done..]. destruct (Hdraw g eq_refl) as (Hne & Hrn & Hhex & Hlook).
  destruct (receive_stores e' r secret (Some g) b n1) as (rs & Hrep & Had); [by rewrite Hgr| |done..|].
  { right. exists g, (instant e + GRANT_TTL). rewrite Hgr. split_and!; [done..|].
    rewrite <-Hhex, length_hex. destruct (random e) as [s|]; [|done]. cbn. rewrite (Hd s) by done. lia. }
  cbn [Join.join_step]. destruct (cluster_secret_receive _ _ _ _ _ n1) as [reply n2]. cbn [fst snd] in *.
  unfold adopts in *. rewrite Hrot in Had. split; [by exists rs|]. split; [done|]. intros e''.
  unfold restart_process. destruct (load_join_token _ _ _). cbn. apply Had.
Qed.

(** ** Strict mode *)
Lemma restarted e bytes l n : memory (rot (join_step (e, RestartProcess bytes l) n).2) = load_cluster_secret (rot n).
Proof. cbn [Join.join_step]. unfold restart_process. by destruct (load_join_token _ _ _). Qed.

Lemma fleet_stores e r new n :
  validate_inter_node_secret_from (rot_env e) (rot n) (default "" (provided_secret r)) = true → write e = Written →
  String.prefix "wsk_" new = true → (16 ≤ String.length new ≤ 256)%nat → trim new = new →
  (security_cluster_secret_receive e r new n).1 = Saved false ∧
  load_cluster_secret (rot (security_cluster_secret_receive e r new n).2) = new.
Proof.
  intros Hv Hw Hp Hl Ht. unfold security_cluster_secret_receive.
  assert (default "" (raw_header r HDR_SECRET) = default "" (provided_secret r)) as ->.
  { unfold raw_header, provided_secret. by destruct (headers r HDR_SECRET). }
  rewrite Hv, Hp. cbn [negb orb]. rewrite (proj2 (Nat.ltb_ge (String.length new) 16)), (proj2 (Nat.ltb_ge 256 (String.length new))) by lia.
  cbn [orb]. rewrite Hw. cbn [written negb]. split; [done|]. unfold rekey. cbn [rot setter fst snd].
  refine (load_saved e new n Hw _ Ht). intros ->. by cbn in Hl.
Qed.

(** C36: In strict mode the secret alone still takes over the node.  A request
    that carries an accepted cluster secret and no signature, which the gate
    refuses on every other path, has a secret of its choice stored on the path
    that receives one, as it has on the older path, which asks for no
    signature at all; after a restart the node answers to that secret and no
    longer to the cluster's. *)
Theorem strict_mode_secret_replaced e e' r old new grant b n bytes l :
  pool_ok (bootstrap_grants n) → mode (ids n) = Strict → write e = Written →
  provided_secret r = Some old → validate_inter_node_secret_from (rot_env e) (rot n) old = true →
  signed_parts r = None → cached r = None → path r = "/api/cluster/secret/receive" →
  String.prefix "wsk_" new = true → (16 ≤ String.length new ≤ 256)%nat → trim new = new → new ≠ CLUSTER_SECRET →
  secret_ok old → old ≠ CLUSTER_SECRET → old ≠ new →
  (∀ p, path_exempt_from_strict p = false →
     (require_cluster_auth (unix e) (unix e) (rot_env e) (rot n) (Some (cluster n)) (r <| path := p |>) (ids n)).1.1
     = Err SignatureRequired) ∧
  ∀ s, s ∈ [ReceiveSecret r (Some new) grant b; FleetSecret r new] →
  let '(reply, n1) := join_step (e, s) n in
  (∃ restarting, reply = Saved restarting) ∧
  let n2 := (join_step (e', RestartProcess bytes l) n1).2 in
  ∀ env, validate_inter_node_secret_from env (rot n2) new = true ∧ validate_inter_node_secret_from env (rot n2) old = false.
Proof.
  intros Hp Hm Hw Hold Hv Hsig Hc Hpath Hpre Hlen Ht Hnd Hook Hod Hne.
  assert (∀ p, (require_cluster_auth (unix e) (unix e) (rot_env e) (rot n) (Some (cluster n)) (r <| path := p |>) (ids n)).1.1
    = if path_exempt_from_strict p then Ok () else Err SignatureRequired) as Hgate.
  { intros p. unfold require_cluster_auth. change (provided_secret (r <| path := p |>)) with (provided_secret r).
    rewrite Hold, Hv. cbn [negb]. unfold peer_signature_gate, verify_request.
    change (cached (r <| path := p |>)) with (cached r). rewrite Hc. unfold verify_request_uncached.
    change (signed_parts (r <| path := p |>)) with (signed_parts r). rewrite Hsig. cbn [fst]. rewrite Hm.
    cbn [path setter]. by destruct (path_exempt_from_strict p). }
  split; [intros p He; by rewrite Hgate, He|]. intros s Hs.
  assert (secret_ok new) as Hnok by (split; [by intros ->; cbn in Hlen; lia|lia]).
  assert (lets_in e r grant n) as Hin.
  { left. specialize (Hgate (path r)). replace (r <| path := path r |>) with r in Hgate by by destruct r.
    rewrite Hgate, Hpath. done. }
  assert (∃ restarting, (join_step (e, s) n).1 = Saved restarting ∧ load_cluster_secret (rot (join_step (e, s) n).2) = new)
    as (rs & Hr & Hl).
  { apply elem_of_cons in Hs as [->|Hs%list_elem_of_singleton]; [|rewrite Hs]; cbn [Join.join_step].
    - destruct (receive_stores e r new grant b n Hp Hin Hw (proj1 Hnok) Ht) as (rs & Hr & Had & _). by exists rs.
    - exists false. apply fleet_stores; [by rewrite Hold|done..]. }
  destruct (join_step (e, s) n) as [reply n1]. cbn [fst snd] in Hr, Hl. split; [by exists rs|]. intros n2 env.
  assert (memory (rot n2) = new ∧ load_cluster_secret (rot n2) = new) as [Hme Hlo].
  { split; [by rewrite <-Hl; apply restarted|]. unfold n2. cbn [Join.join_step]. unfold restart_process.
    by destruct (load_join_token _ _ _). }
  unfold validate_inter_node_secret_from.
  rewrite (validate_other new CLUSTER_SECRET), (validate_other old CLUSTER_SECRET) by (done || apply default_ok).
  rewrite Hme, Hlo, (validate_same new Hnok), (validate_other old new) by done. done.
Qed.

(** ** The automatic restart *)
Definition known_peer n : Prop := ∃ k m, nodes (cluster n) !! k = Some m ∧ n_id m ≠ Cluster.self_id (cluster n).

Lemma known_peer_others n : known_peer n → has_no_other_peers n = false.
Proof.
  intros (k & m & Hm & Hid). unfold has_no_other_peers. apply negb_false_iff, existsb_exists. exists m. split.
  - rewrite <-list_elem_of_In. unfold values. apply list_elem_of_fmap. exists (k, m). split; [done|].
    rewrite hm_iter_perm. by apply elem_of_map_to_list.
  - by rewrite bool_decide_false.
Qed.

Lemma save_nodes_same h c : nodes (save_nodes h c) = nodes c ∧ Cluster.self_id (save_nodes h c) = Cluster.self_id c.
Proof. unfold save_nodes. by destruct (file_write h). Qed.

Lemma mark_verified_same h id c :
  nodes (mark_verified h id c) = alter (λ y : Node, y <| n_join_verified := true |>) id (nodes c)
  ∧ Cluster.self_id (mark_verified h id c) = Cluster.self_id c.
Proof. unfold mark_verified, save_nodes. by destruct (file_write h). Qed.

(** A peer's record stays one, and a new server's record is one. *)
Lemma add_server_peer h fresh addr p name c :
  fresh ≠ Cluster.self_id c →
  (∃ k m, nodes c !! k = Some m ∧ n_id m ≠ Cluster.self_id c) ∨
  (∀ m, m ∈ values c → n_address m = addr → n_port m = p → n_id m ≠ Cluster.self_id c) →
  let c' := (add_server h fresh addr p name c).2 in
  ∃ k m, nodes c' !! k = Some m ∧ n_id m ≠ Cluster.self_id c'.
Proof.
  intros Hfresh Hc. unfold add_server, add_server_full. cbn [so_address so_port].
  destruct (List.find _ _) as [x|] eqn:Hf.
  - apply find_Some_elem in Hf as [Hin Hx]. repeat (apply andb_true_iff in Hx as [Hx ?]). cbn [snd].
    repeat match goal with Hb : bool_decide _ = true |- _ => apply bool_decide_eq_true in Hb end.
    assert (∃ k m, nodes c !! k = Some m ∧ n_id m ≠ Cluster.self_id c) as (k & m & Hk & Hid).
    { destruct Hc as [?|Hc]; [done|]. pose proof Hin as Hv. unfold values in Hv.
      apply list_elem_of_fmap in Hv as ([k m] & -> & Hkm). rewrite hm_iter_perm in Hkm. apply elem_of_map_to_list in Hkm.
      exists k, m. split; [done|]. cbn [snd] in *. apply (Hc m); assumption. }
    destruct (mark_verified_same h (n_id x) c) as [-> ->].
    exists k. rewrite lookup_alter. case_decide; [subst; rewrite Hk|]; by eexists.
  - cbn [snd]. match goal with |- context [save_nodes h ?d0] => set (d := d0) end.
    destruct (mark_verified_same h fresh (save_nodes h d)) as [-> ->]. destruct (save_nodes_same h d) as [-> ->].
    exists fresh. unfold d. cbn. rewrite lookup_alter_eq, lookup_insert_eq. by eexists.
Qed.

Lemma seed_known e (r : JoinHandshakeRequest) n :
  fresh_id e ≠ Cluster.self_id (cluster n) → known_peer n → known_peer (seed_master parse_ip e r n).
Proof.
  intros Hf Hk. unfold seed_master. destruct (parse_ip _); [|done]. destruct (_ || _); [done|].
  destruct (existsb _ _); [done|]. unfold known_peer. cbn [cluster setter].
  apply add_server_peer; [done|by left].
Qed.

Lemma add_server_self h fresh addr p name c :
  Cluster.self_id (add_server h fresh addr p name c).2 = Cluster.self_id c.
Proof.
  unfold add_server, add_server_full. destruct (List.find _ _); cbn [snd].
  - apply mark_verified_same.
  - etrans; [apply mark_verified_same|]. etrans; [apply save_nodes_same|done].
Qed.

(** A step of the same process that names no new server after this node. *)
Definition same_process (self : string) (x : JoinEnv * Step) : Prop :=
  match x.2 with RestartProcess _ _ => False | _ => fresh_id x.1 ≠ self end.

Lemma and_snoc (P Q R : Prop) : P ∧ Q → R → P ∧ Q ∧ R.
Proof. tauto. Qed.

(** The table of a process grows by masters only. *)
Lemma step_known x n :
  same_process (Cluster.self_id (cluster n)) x → known_peer n →
  known_peer (join_step x n).2 ∧ Cluster.self_id (cluster (join_step x n).2) = Cluster.self_id (cluster n) ∧
  (join_step x n).1 ≠ Saved true.
Proof.
  destruct x as [e s]. unfold same_process. cbn [fst snd].
  assert (∀ n', cluster n' = cluster n → known_peer n → known_peer n' ∧ Cluster.self_id (cluster n') = Cluster.self_id (cluster n))
    as Hsame by (intros n' Hc Hk; unfold known_peer; by rewrite Hc).
  intros Hx Hk. destruct s; try done; cbn [Join.join_step].
  - unfold rotate_join_token. repeat case_match; (apply and_snoc; [by apply Hsame|done]).
  - unfold mint_one_time_join_token. repeat case_match; (apply and_snoc; [by apply Hsame|done]).
  - unfold arm_recluster_override. repeat case_match; (apply and_snoc; [by apply Hsame|done]).
  - unfold clear_recluster_override. repeat case_match; (apply and_snoc; [by apply Hsame|done]).
  - unfold verify_join_token. repeat case_match; (apply and_snoc; [by apply Hsame|done]).
  - unfold cluster_join_handshake, put_back. repeat case_match; (apply and_snoc; [by apply Hsame|done]).
  - unfold Join.proceed. destruct (flights n !! i) as [f|]; [|by split_and!].
    destruct (step_flight _ _ e answer f n) as [[r f'] n1] eqn:Hs. cbn [fst snd].
    assert (known_peer n1 ∧ Cluster.self_id (cluster n1) = Cluster.self_id (cluster n) ∧ r ≠ Saved true) as (H1 & H2 & H3).
    { unfold step_flight in Hs. destruct (stage f).
      - unfold after_password, refuse, put_back in Hs. repeat case_match; injection Hs as <- <- <-;
          (apply and_snoc; [by apply Hsame|done]).
      - injection Hs as <- <- <-. by split_and!.
      - injection Hs as <- <- <-. apply and_snoc; [|done]. apply Hsame; [|done].
        unfold announce. repeat case_match; done.
      - destruct (mint _ _ _ _) as [g m]. injection Hs as <- <- <-. split_and!; [by apply seed_known| |done].
        unfold seed_master. repeat case_match; try done; cbn; apply add_server_self.
      - injection Hs as <- <- <-. by split_and!.
      - injection Hs as <- <- <-. by split_and!.
      - injection Hs as <- <- <-. by split_and!. }
    by split_and!.
  - destruct (cluster_secret_receive e r secret grant bootstrap n) as [reply n'] eqn:Hc.
    assert (cluster n' = cluster n ∧ reply ≠ Saved true) as [Hcl Hr]; [|apply and_snoc; [by apply Hsame|done]].
    revert Hc. unfold cluster_secret_receive. destruct (require_cluster_auth _ _ _ _ _ _ _) as [[gt r'] st].
    set (body := match gt with Ok _ => _ | _ => _ end).
    assert (cluster body.2 = cluster n) as Hb by (unfold body; by repeat case_match).
    destruct body as [[allowed via] n1]. cbn [snd] in Hb. destruct allowed; cbn [negb].
    2:{ intros [= <- <-]. split; [done|]. by destruct gt. }
    set (n2 := if via then _ else _). assert (cluster n2 = cluster n) as Hn2 by (unfold n2; by destruct via).
    destruct (nonempty secret) as [sec|]; [|by intros [= <- <-]].
    destruct (written (write e)); cbn [negb]; [|by intros [= <- <-]].
    set (n3 := if bool_decide _ then _ else _). assert (cluster n3 = cluster n) as Hn3 by (unfold n3; by destruct (bool_decide _)).
    assert (has_no_other_peers n3 = false) as ->.
    { apply known_peer_others. unfold known_peer. by rewrite Hn3. }
    rewrite andb_false_r. cbn [andb]. intros [= <- <-]. split; [|done]. by destruct (negb _).
  - unfold security_cluster_secret_receive. repeat case_match; (apply and_snoc; [by apply Hsame|done]).
Qed.

(** A joined node never restarts by itself.  The handshake puts the master
    into the table before the master pushes the secret, and the restart that
    is to load the pushed secret is scheduled only on a node without peers:
    whatever follows in this process, no push schedules it. *)
Theorem bootstrap_restart_never e a i n g n1 f ip xs y :
  proceed e a i n = (Accepted g, n1) → flights n !! i = Some f →
  parse_ip (source (rq f)) = Some ip → is_loopback ip = false → source (rq f) ≠ "" →
  (∀ m, m ∈ values (cluster n) → n_address m = source (rq f) → n_id m ≠ Cluster.self_id (cluster n)) →
  existsb (λ m,
    (match nonempty (master_self_id (rq f)) with Some s => bool_decide (n_self_id m = Some s) | None => false end)
    || (bool_decide (n_address m = source (rq f)) && bool_decide (n_port m = default 8553 (master_port (rq f)))))
    (get_all_nodes (unix e) (cluster n)) = false →
  fresh_id e ≠ Cluster.self_id (cluster n) →
  Forall (same_process (Cluster.self_id (cluster n))) (xs ++ [y]) →
  (join_step y (join_run xs n1)).1 ≠ Saved true.
Proof.
  intros Hp Hi Hip Hloop Hsrc Hval Hnew Hfresh Hxs.
  rewrite (proceed_flight e a i f n Hi) in Hp. injection Hp as Hr Hn1.
  assert (stage f = Announced) as Hst.
  { unfold step_flight in Hr. destruct (stage f); try done. exfalso. unfold after_password, refuse in Hr.
    repeat case_match; done. }
  assert (known_peer n1 ∧ Cluster.self_id (cluster n1) = Cluster.self_id (cluster n)) as [Hk Hs].
  { rewrite <-Hn1. unfold step_flight. rewrite Hst. destruct (mint _ _ _ _) as [gr m]. unfold seed_master.
    rewrite Hip, Hloop, bool_decide_false by done. cbn [orb]. cbn [cluster setter]. rewrite Hnew.
    unfold known_peer. cbn. split; [|apply add_server_self]. apply add_server_peer; [done|]. right. intros x Hx Ha _. by apply Hval. }
  assert (known_peer (join_run xs n1) ∧ Cluster.self_id (cluster (join_run xs n1)) = Cluster.self_id (cluster n)) as [Hk' Hs'].
  { apply Forall_app in Hxs as [Hxs _]. clear Hn1. revert n1 Hk Hs. induction Hxs as [|x xs Hx _ IH]; intros n1 Hk Hs; [done|].
    rewrite <-Hs in Hx. destruct (step_known x n1 Hx Hk) as (Hk1 & Hs1 & _). apply (IH (join_step x n1).2); [done|].
    by rewrite Hs1. }
  apply Forall_app in Hxs as [_ Hy]. apply Forall_cons in Hy as [Hy _]. rewrite <-Hs' in Hy. by apply step_known.
Qed.
End Props.

(** ** At concrete inputs *)
Module Toy.
Import IdentityProps.Toy.
#[local] Existing Instances crypto order plain_signing.
#[local] Instance expiries : HashOrder Z := canonical_order Z.
#[local] Instance attempts : HashOrder AttemptRecord := canonical_order AttemptRecord.

(** "4" is 10.0.0.9, and nothing else is an address. *)
Definition parse_ip (s : string) : option IpAddr := if bool_decide (s = "4") then Some (V4 167772169) else None.
Definition show_ip (a : IpAddr) : string := "4".
Abbreviation run := (join_run parse_ip show_ip).
Abbreviation step := (join_step parse_ip show_ip).

Definition bytes : string := "0123456789abcdef0123456789abcdef".
Definition other : string := "fedcba9876543210fedcba9876543210".
Definition at_ (t : Z) (b : string) : JoinEnv :=
  {| clock := mk_clock (t * SEC) (1000 + t); Join.host := ClusterProps.Demo.host; rot_env := env; random := Some b;
     fresh_id := "node-9"; write := Written; unlink := true |}.
Definition alone : ClusterState :=
  mk_cluster {["ws-me" := ClusterProps.Demo.me]} "ws-me" "0.0.0.0" 8553 ∅ None None ClusterProps.Demo.files.
Definition node (c : ClusterState) : JoinNode :=
  {| Join.rot := IdentityProps.Toy.rot; cluster := c; ids := strict; join_token := "static"; join_token_file := Some "static";
     one_time_join_tokens := ∅; bootstrap_grants := ∅; override_file := None;
     limiter := mk_limiter ∅ [] default_config ∅ [] (mk_protected ∅ [] []) []; known_peer_ips := ∅;
     restart_scheduled := false; flights := []; audit_trail := [] |}.
Definition ask (t cluster : string) : JoinHandshakeRequest :=
  {| source := "4"; token := t; admin_username := "admin"; admin_password := "pw"; cluster_name := Some cluster;
     master_port := None; master_self_id := None |}.

Lemma node_good c : node_ok (node c).
Proof. split_and!; [by intros t [? ?]..|constructor]. Qed.
Lemma drawn t b : String.length b = 32%nat → draws_well (random (at_ t b)).
Proof. by intros ? s [= <-]. Qed.
Lemma sane_at t b s :
  String.length b = 32%nat → match s with BeginJoin r => sized (trim (token r)) | _ => True end → sane (at_ t b, s).
Proof. by split; [apply drawn|]. Qed.
Lemma writes_at t b s : (0 <? 1000 + t) && (1000 + t <=? u64_max) = true → writes_well (at_ t b, s).
Proof. intros [H1 H2]%andb_true_iff. split; [split; [by apply Z.ltb_lt|by apply Z.leb_le]|exact I]. Qed.
(** A token, minted; two handshakes that present it. *)
Definition tk : string := hex_bytes bytes.
Definition handshakes : list (JoinEnv * Step) :=
  [(at_ 1 other, BeginJoin (ask tk "A")); (at_ 2 other, BeginJoin (ask tk "A"));
   (at_ 3 other, Proceed (Some true) 0); (at_ 4 other, Proceed None 0); (at_ 5 other, Proceed None 0)].
Lemma handshakes_sane : Forall sane handshakes.
Proof. unfold handshakes. repeat first [apply Forall_nil_2|apply Forall_cons_2]; by apply sane_at. Qed.

Lemma one_time_token_admits_once_witness :
  admitted_via tk (run handshakes (step (at_ 0 bytes, MintToken "admin") (node alone)).2) = 1%nat ∧
  (admitted_via tk (run handshakes (step (at_ 0 bytes, MintToken "admin") (node alone)).2) ≤ 1)%nat.
Proof.
  split; [by vm_compute|].
  apply (one_time_token_admits_once parse_ip show_ip (at_ 0 bytes) "admin" tk (node alone)).
  - apply node_good.
  - by vm_compute.
  - by apply sane_at.
  - by vm_compute.
  - apply handshakes_sane.
  - unfold handshakes. repeat first [apply Forall_nil_2|apply Forall_cons_2]; done.
Defined.

(** A joined node to which the master pushes a secret on the grant. *)
Definition unsigned (s : string) : Request :=
  request [(HDR_SECRET, s)] <| path := "/api/cluster/secret/receive" |>.
Definition gr : string := hex_bytes other.
Definition joined : list (JoinEnv * Step) :=
  [(at_ 1 other, BeginJoin (ask "static" "A")); (at_ 3 other, Proceed (Some true) 0); (at_ 4 other, Proceed None 0);
   (at_ 5 other, Proceed None 0); (at_ 6 other, ReceiveSecret (unsigned "no") (Some "new") (Some gr) true);
   (at_ 7 other, ReceiveSecret (unsigned "no") (Some "newer") (Some gr) true)].
Lemma adoption_needs_admin_witness :
  adopted (audit_trail (run joined (node alone))) = 1%nat ∧
  (adopted (audit_trail (run joined (node alone))) ≤ count (λ x, one (approves x)) joined)%nat.
Proof.
  split; [by vm_compute|]. apply (adoption_needs_admin parse_ip show_ip); [apply node_good|done..|].
  unfold joined. repeat first [apply Forall_nil_2|apply Forall_cons_2]; by apply sane_at.
Defined.

(** A node with a peer is moved to another cluster, after the override. *)
Definition table : ClusterState := ClusterProps.Demo.state None.
Definition moving : list (JoinEnv * Step) :=
  [(at_ 0 other, ArmOverride "admin"); (at_ 1 other, BeginJoin (ask "static" "B")); (at_ 2 other, BeginJoin (ask "static" "C"))].
Lemma recluster_needs_local_admin_witness :
  ∃ t, t ∈ armings moving ∧ 1003 ≤ t + OVERRIDE_TTL_SECS.
Proof.
  destruct (flights (run moving (node table)) !! 0%nat) as [f|] eqn:Hf; [|exfalso; revert Hf; vm_compute; discriminate].
  destruct (flights (step (at_ 3 other, Proceed (Some true) 0) (run moving (node table))).2 !! 0%nat) as [f'|] eqn:Hf';
    [|exfalso; revert Hf'; vm_compute; discriminate].
  apply (recluster_needs_local_admin parse_ip show_ip (node table) moving (at_ 3 other) (Some true) 0 f f').
  - apply node_good.
  - done.
  - unfold moving. repeat first [apply Forall_nil_2|apply Forall_cons_2]; by apply sane_at.
  - unfold moving. repeat first [apply Forall_nil_2|apply Forall_cons_2]; by apply writes_at.
  - exact Hf.
  - revert Hf. vm_compute. by intros [= <-].
  - exact Hf'.
  - revert Hf'. vm_compute. by intros [= <-].
Defined.

Definition flight (c : string) (s : Stage) : Flight := {| rq := ask "static" c; ott := None; recluster := false; stage := s |}.
Definition armed : JoinNode :=
  node table <| override_file := Some "1000" |> <| flights := [flight "B" Verifying; flight "C" Verifying] |>.
Lemma override_admits_two_witness :
  let n' := run ([(at_ 3 other, Proceed (Some true) 0); (at_ 3 other, Proceed (Some true) 1)]
                 ++ finish (at_ 3 other) 0 ++ finish (at_ 3 other) 1) armed in
  stage <$> flights n' !! 0%nat = Some Joined ∧ stage <$> flights n' !! 1%nat = Some Joined.
Proof.
  pose proof (override_admits_two parse_ip show_ip (at_ 3 other) (Some "1000") 0 1
    (flight "B" Verifying) (flight "C" Verifying) armed ltac:(discriminate) eq_refl eq_refl eq_refl eq_refl
    ltac:(by vm_compute) ltac:(by vm_compute) ltac:(by vm_compute)) as Hj.
  cbv zeta in *. split; [exact (f_equal (fmap stage) (proj1 Hj))|exact (f_equal (fmap stage) (proj2 Hj))].
Defined.

(** The handshake is about to answer. *)
Definition answering : JoinNode := node alone <| flights := [flight "A" Announced] |>.
Lemma answers : ∃ n1, proceed parse_ip show_ip (at_ 5 other) None 0 answering = (Accepted (Some gr), n1).
Proof. by eexists. Qed.
Lemma joined_node_adopts_secret_witness :
  ∃ n2, ∀ e, memory (Join.rot (step (e, RestartProcess bytes (limiter answering)) n2).2) = "new".
Proof.
  destruct (proceed parse_ip show_ip (at_ 5 other) None 0 answering) as [reply n1] eqn:Hp.
  assert (reply = Accepted (Some gr)) as -> by (revert Hp; vm_compute; by intros [= <- _]).
  pose proof (joined_node_adopts_secret parse_ip show_ip (at_ 5 other) None 0 answering gr n1 (at_ 6 other) (unsigned "no")
    "new" true bytes (limiter answering)) as Hj.
  destruct (join_step _ _ _ n1) as [reply2 n2] in Hj. exists n2. apply Hj; try done; [|by apply drawn].
  split_and!; [by intros t [? ?]..|]. by apply Forall_singleton.
Defined.

Definition stolen : string := "wsk_of_the_attacker".
Lemma strict_mode_secret_replaced_witness :
  let n1 := (step (at_ 6 other, FleetSecret (unsigned "topsecret") stolen) (node table)).2 in
  let n2 := (step (at_ 9 other, RestartProcess bytes (limiter answering)) n1).2 in
  validate_inter_node_secret_from env (Join.rot n2) stolen = true ∧
  validate_inter_node_secret_from env (Join.rot n2) "topsecret" = false.
Proof.
  assert (pool_ok (bootstrap_grants (node table))) as Hp by by intros t [? ?].
  pose proof (strict_mode_secret_replaced parse_ip show_ip (at_ 6 other) (at_ 9 other) (unsigned "topsecret") "topsecret" stolen
    None true (node table) bytes (limiter answering) Hp eq_refl eq_refl eq_refl ltac:(by vm_compute) eq_refl eq_refl eq_refl
    eq_refl ltac:(cbn; lia) eq_refl ltac:(discriminate) ltac:(by split) ltac:(discriminate) ltac:(discriminate)) as [_ Hs].
  specialize (Hs (FleetSecret (unsigned "topsecret") stolen) ltac:(right; left)). cbv zeta in *.
  destruct (join_step _ _ _ (node table)) as [reply n1]. exact (proj2 Hs env).
Defined.

Lemma bootstrap_restart_never_witness :
  (step (at_ 6 other, ReceiveSecret (unsigned "no") (Some "new") (Some gr) true)
     (run [] (proceed parse_ip show_ip (at_ 5 other) None 0 answering).2)).1 ≠ Saved true.
Proof.
  destruct (proceed parse_ip show_ip (at_ 5 other) None 0 answering) as [reply n1] eqn:Hp. cbn [snd].
  assert (reply = Accepted (Some gr)) as -> by (revert Hp; vm_compute; by intros [= <- _]).
  apply (bootstrap_restart_never parse_ip show_ip (at_ 5 other) None 0 answering (Some gr) n1 (flight "A" Announced) (V4 167772169));
    try done.
  - intros m Hm Ha. exfalso. vm_compute in Hm. apply list_elem_of_singleton in Hm as ->. by vm_compute in Ha.
  - by apply Forall_singleton.
Defined.
End Toy.
