(* ===== verification/HaManifest.v ===== *)
(** * WolfHA manifests and delta rounds (src/src/wolfha/mod.rs)

    The manifest of a root file system, the difference of two manifests, and
    what a replica does with the delta it is sent.  A file system is a map
    from relative paths to manifest entries: contents are seen only through
    the size and time the code compares.  [tar] is a parameter. *)
From S2P Require Import Prelude Net Digits.

Record ManifestEntry := mk_entry {
  m_p : string; m_k : string; m_s : Z; m_m : Z; m_t : string
}.
#[global] Instance ManifestEntry_eq_dec : EqDecision ManifestEntry.
Proof. solve_decision. Defined.

Abbreviation fs := (gmap string ManifestEntry).

(** [iter().map(|e| (e.p, e)).collect()]: a later duplicate wins. *)
Definition by_path (l : list ManifestEntry) : fs :=
  foldl (λ m e, <[m_p e := e]> m) ∅ l.

(** The quick check: does the object have to be shipped although both sides
    have one of the same kind? *)
Definition content_differs (le re : ManifestEntry) : bool :=
  if bool_decide (m_k le = "f") then bool_decide (m_s le ≠ m_s re) || bool_decide (m_m le ≠ m_m re)
  else if bool_decide (m_k le = "l") then bool_decide (m_t le ≠ m_t re)
  else false.

(** One local entry: (changed, deletions) so far. *)
Definition diff_local (remote : fs) (acc : list string * list string) (le : ManifestEntry) :
    list string * list string :=
  let '(changed, deletions) := acc in
  match remote !! m_p le with
  | None => (changed ++ [m_p le], deletions)
  | Some re =>
      if bool_decide (m_k re ≠ m_k le) then (changed ++ [m_p le], deletions ++ [m_p le])
      else if content_differs le re then (changed ++ [m_p le], deletions)
      else (changed, deletions)
  end.

(** Longer paths first, then descending. *)
Definition children_first (a b : string) : Prop :=
  (String.length b < String.length a)%nat ∨
  String.length a = String.length b ∧ String.le b a.
#[global] Instance children_first_dec a b : Decision (children_first a b).
Proof. unfold children_first, String.le. apply _. Defined.

(** [Vec::dedup]: runs of equal elements become one. *)
Fixpoint dedup (l : list string) : list string :=
  match l with
  | x :: ((y :: _) as l') => if bool_decide (x = y) then dedup l' else x :: dedup l'
  | l => l
  end.

Definition manifest_diff (local remote : list ManifestEntry) : list string * list string :=
  let local_set : gset string := list_to_set (m_p <$> local) in
  let '(changed, deletions) := foldl (diff_local (by_path remote)) ([], []) local in
  let deletions := deletions ++ (m_p <$> retain (λ e, bool_decide (m_p e ∉ local_set)) remote) in
  (changed, dedup (merge_sort children_first deletions)).

Definition is_safe_rel_path (p : string) : bool :=
  negb (bool_decide (p = "")) && negb (String.prefix "/" p)
  && negb (contains_char (Ascii.Ascii false false false false false false false false) p)
  && negb (existsb (λ c, bool_decide (c = "..") || bool_decide (c = "") || bool_decide (c = "."))
             (split_on "/"%char p)).

(** ** On the replica *)

(** [q] lies below the directory [p]. *)
Definition under (p q : string) : bool := String.prefix (p +:+ "/") q.

(** Where a path below the replica's root leads.  The kernel follows links on
    the way, at most 40 of them, but not a link at the end ([symlink_metadata]
    and the removals).  [Host cs]: out of the tree, to the path that [cs]
    spells: absolute if it begins with an empty component, else from the root
    directory of the tree.  [cwd] is the directory entered, innermost first. *)
Inductive Place := Inside (p : string) | Host (cs : list string).

Definition path_of (cwd : list string) : string := String.concat "/" (reverse cwd).

Definition MAX_LINKS : nat := 40.

Fixpoint resolve (links : nat) (root : fs) : list string → list string → option Place :=
  fix go cwd cs :=
    match cs with
    | [] => None
    | c :: cs =>
        if bool_decide (c = "") || bool_decide (c = ".") then go cwd cs
        else if bool_decide (c = "..") then
          match cwd with [] => Some (Host (".." :: cs)) | _ :: cwd => go cwd cs end
        else if bool_decide (cs = []) then Some (Inside (path_of (c :: cwd)))
        else match root !! path_of (c :: cwd) with
             | None => None
             | Some e =>
                 if bool_decide (m_k e = "d") then go (c :: cwd) cs
                 else if bool_decide (m_k e = "l") then
                   match links with
                   | O => None
                   | S links =>
                       if String.prefix "/" (m_t e) then Some (Host (split_on "/"%char (m_t e) ++ cs))
                       else resolve links root cwd (split_on "/"%char (m_t e) ++ cs)
                   end
                 else None
             end
    end.

(** [remove_dir_all] of a directory, [remove_file] of anything else; a removal
    that fails is skipped. *)
Definition remove_at (rm_ok : string → bool) (root : fs) (p : string) : fs :=
  match root !! p with
  | None => root
  | Some e =>
      if negb (rm_ok p) then root
      else if bool_decide (m_k e = "d")
      then filter (λ kv, negb (bool_decide (kv.1 = p) || under p kv.1) = true) root
      else delete p root
  end.

(** One deletion: the tree, and the paths of the host it has led to so far. *)
Definition remove_path (rm_ok : string → bool) (st : fs * list (list string)) (d : string) :
    fs * list (list string) :=
  let '(root, host) := st in
  match resolve MAX_LINKS root [] (split_on "/"%char d) with
  | Some (Inside p) => (remove_at rm_ok root p, host)
  | Some (Host cs) => (root, host ++ [cs])
  | None => st
  end.

Section Apply.
Context (untar : fs → fs → option fs) (rm_ok : string → bool).

(** [rootfs]: the replica's tree, if its directory exists. *)
Definition apply_delta (running : bool) (rootfs : option fs) (archive : fs) (deletions : list string) :
    res string (fs * list (list string)) :=
  root ← ok_or rootfs "replica rootfs missing";
  _ ← guard_err running "running here";
  _ ← guard_err (existsb (λ d, negb (is_safe_rel_path d)) deletions) "unsafe deletion path rejected";
  root ← ok_or (untar archive root) "tar extract failed";
  mret (foldl (remove_path rm_ok) (root, []) (merge_sort children_first deletions)).

(** The archive that [tar_paths] makes of the changed paths. *)
Definition archive_of (local : list ManifestEntry) (changed : list string) : fs :=
  filter (λ kv, bool_decide (kv.1 ∈ changed) = true) (by_path local).

(** A round that ships whole files: the two manifests are compared and, unless
    nothing differs, the replica applies the result. *)
Definition sync_files (local remote : list ManifestEntry) : res string (fs * list (list string)) :=
  let '(changed, deletions) := manifest_diff local remote in
  if bool_decide (changed = []) && bool_decide (deletions = []) then Ok (by_path remote, [])
  else apply_delta false (Some (by_path remote)) (archive_of local changed) deletions.
End Apply.

(** ** The manifests themselves *)
Lemma by_path_acc l (m : fs) p :
  NoDup (m_p <$> l) →
  foldl (λ m e, <[m_p e := e]> m) m l !! p =
    match List.find (λ e, bool_decide (m_p e = p)) l with Some e => Some e | None => m !! p end.
Proof.
  revert m. induction l as [|e l IH]; intros m; cbn; [done|].
  intros [Hnew Hl]%NoDup_cons. rewrite IH by done. case_bool_decide as E.
  - subst p. destruct (List.find _ l) as [e'|] eqn:Hf; [|by rewrite lookup_insert_eq].
    apply find_Some_elem in Hf as [He' Hp]. bool_props. destruct Hnew.
    rewrite <-Hp. by apply list_elem_of_fmap_2.
  - destruct (List.find _ l); [done|]. by rewrite lookup_insert_ne.
Qed.

Lemma by_path_Some l p e :
  NoDup (m_p <$> l) → by_path l !! p = Some e ↔ e ∈ l ∧ m_p e = p.
Proof.
  intros Hn. unfold by_path. rewrite by_path_acc by done. rewrite lookup_empty.
  destruct (List.find _ l) as [e'|] eqn:Hf.
  - apply find_Some_elem in Hf as [He' Hp]. bool_props. split; [by intros [= <-]|].
    intros [He Hpe]. f_equal. apply list_elem_of_lookup in He as [i Hi].
    apply list_elem_of_lookup in He' as [j Hj].
    assert (j = i) as ->; [|congruence]. eapply (NoDup_lookup _ j i p Hn);
      rewrite list_lookup_fmap, ?Hi, ?Hj; cbn; congruence.
  - split; [done|]. intros [He Hp]. apply find_None_Forall in Hf. rewrite Forall_forall in Hf.
    apply Hf in He. by bool_props.
Qed.

Lemma by_path_dom l p : NoDup (m_p <$> l) → is_Some (by_path l !! p) ↔ p ∈ m_p <$> l.
Proof.
  intros Hn. rewrite list_elem_of_fmap. split.
  - intros [e [? <-]%by_path_Some]; eauto.
  - intros (e & -> & He). exists e. by apply by_path_Some.
Qed.

(** ** The difference, entry by entry *)
Definition must_ship (remote : fs) (le : ManifestEntry) : bool :=
  match remote !! m_p le with
  | None => true
  | Some re => bool_decide (m_k re ≠ m_k le) || content_differs le re
  end.
Definition flipped (remote : fs) (le : ManifestEntry) : bool :=
  match remote !! m_p le with None => false | Some re => bool_decide (m_k re ≠ m_k le) end.

Lemma diff_local_fold remote l c d :
  foldl (diff_local remote) (c, d) l =
    (c ++ (m_p <$> retain (must_ship remote) l), d ++ (m_p <$> retain (flipped remote) l)).
Proof.
  revert c d. induction l as [|e l IH]; intros c d; [by rewrite !app_nil_r|].
  cbn [foldl]. unfold diff_local at 2, retain, must_ship, flipped. cbn [List.filter].
  destruct (remote !! m_p e) as [re|]; [destruct (bool_decide (m_k re ≠ m_k e)); [|destruct (content_differs e re)]|];
    rewrite IH; cbn [orb]; rewrite ?fmap_cons, <-?(assoc_L (++)); done.
Qed.

Lemma elem_of_dedup l x : x ∈ dedup l ↔ x ∈ l.
Proof.
  induction l as [|a l IH]; [done|]. destruct l as [|b l]; [done|]. cbn [dedup].
  case_bool_decide; rewrite ?elem_of_cons in *; naive_solver.
Qed.

Lemma dedup_nil l : dedup l = [] ↔ l = [].
Proof.
  split; [|by intros ->]. intros H. destruct l as [|x l]; [done|].
  assert (Hx : x ∈ dedup (x :: l)) by (apply elem_of_dedup; by left).
  rewrite H in Hx. by apply not_elem_of_nil in Hx.
Qed.

Lemma manifest_diff_spec local remote :
  (manifest_diff local remote).1 = m_p <$> retain (must_ship (by_path remote)) local ∧
  ∀ p, p ∈ (manifest_diff local remote).2 ↔
    (∃ e, e ∈ local ∧ m_p e = p ∧ flipped (by_path remote) e = true) ∨
    (p ∈ m_p <$> remote ∧ p ∉ m_p <$> local).
Proof.
  unfold manifest_diff. rewrite diff_local_fold. cbn [fst snd app]. split; [done|]. intros p.
  rewrite elem_of_dedup, merge_sort_Permutation, elem_of_app, !list_elem_of_fmap.
  setoid_rewrite elem_of_retain. setoid_rewrite bool_decide_eq_true.
  setoid_rewrite elem_of_list_to_set. setoid_rewrite list_elem_of_fmap. naive_solver.
Qed.

Lemma manifest_diff_ships local remote p :
  p ∈ (manifest_diff local remote).1 ↔
  ∃ e, e ∈ local ∧ m_p e = p ∧ must_ship (by_path remote) e = true.
Proof.
  destruct (manifest_diff_spec local remote) as [-> _]. rewrite list_elem_of_fmap.
  setoid_rewrite elem_of_retain. naive_solver.
Qed.

Lemma manifest_diff_ships_none local remote :
  (∀ e, e ∈ local → must_ship (by_path remote) e = false) → (manifest_diff local remote).1 = [].
Proof. intros H. destruct (manifest_diff_spec local remote) as [-> _]. by rewrite retain_none. Qed.

Lemma flipped_ships remote e : flipped remote e = true → must_ship remote e = true.
Proof. unfold flipped, must_ship. destruct (remote !! m_p e); [|done]. by intros ->. Qed.

Lemma manifest_diff_empty local remote :
  manifest_diff local remote = ([], []) ↔
    (∀ e, e ∈ local → must_ship (by_path remote) e = false) ∧
    (∀ p, p ∈ m_p <$> remote → p ∈ m_p <$> local).
Proof.
  destruct (manifest_diff_spec local remote) as [Hc Hd].
  destruct (manifest_diff local remote) as [c d]. cbn [fst snd] in *. subst c. split.
  - intros [= Hc Hd']. rewrite Hd' in Hd. split.
    + intros e He. destruct (must_ship _ e) eqn:Hm; [|done].
      apply fmap_nil_inv in Hc. destruct (not_elem_of_nil e). rewrite <-Hc. by apply elem_of_retain.
    + intros p Hp. destruct (decide (p ∈ m_p <$> local)) as [|Hn]; [done|].
      destruct (not_elem_of_nil p). apply Hd. by right.
  - intros [Hship Hdom]. f_equal.
    + by rewrite retain_none.
    + destruct d as [|p d]; [done|]. assert (Hp : p ∈ p :: d) by by left.
      apply Hd in Hp as [(e & He & _ & Hf)|[Hp Hn]]; [|by apply Hdom in Hp].
      apply Hship in He. unfold must_ship, flipped in *.
      destruct (by_path remote !! m_p e); [|done]. by rewrite Hf in He.
Qed.

(** ** Removals *)
Section Remove.
Context (rm_ok : string → bool).

Lemma remove_at_sub root p : remove_at rm_ok root p ⊆ root.
Proof.
  unfold remove_at. destruct (root !! p); [|done]. repeat case_match; [done| |].
  - apply map_filter_subseteq.
  - apply delete_subseteq.
Qed.

Lemma remove_at_ne root p q :
  q ≠ p → under p q = false → remove_at rm_ok root p !! q = root !! q.
Proof.
  intros Hne Hu. unfold remove_at. destruct (root !! p); [|done]. repeat case_match; [done| |].
  - rewrite map_lookup_filter. destruct (root !! q) as [e|]; [|done]. cbn [mbind option_bind].
    rewrite option_guard_True; [done|]. cbn [fst]. by rewrite bool_decide_false, Hu.
  - by rewrite lookup_delete_ne.
Qed.

Lemma remove_at_eq root p : rm_ok p = true → remove_at rm_ok root p !! p = None.
Proof.
  intros Hok. unfold remove_at. rewrite Hok. destruct (root !! p) as [e|] eqn:E; [|done].
  cbn [negb]. case_match; [|apply lookup_delete_eq].
  rewrite map_lookup_filter, E. cbn [mbind option_bind].
  rewrite option_guard_False; [done|]. cbn [fst]. by rewrite bool_decide_true.
Qed.

Lemma remove_all_sub root ds : foldl (remove_at rm_ok) root ds ⊆ root.
Proof.
  revert root. induction ds as [|d ds IH]; intros root; cbn [foldl]; [done|].
  etrans; [apply IH|apply remove_at_sub].
Qed.

Lemma remove_all_ne root ds q :
  (∀ p, p ∈ ds → q ≠ p ∧ under p q = false) → foldl (remove_at rm_ok) root ds !! q = root !! q.
Proof.
  revert root. induction ds as [|d ds IH]; intros root Hd; cbn [foldl]; [done|].
  rewrite IH by (intros; apply Hd; by right). destruct (Hd d) as [??]; [by left|]. by apply remove_at_ne.
Qed.

Lemma remove_one_eq root ds q :
  rm_ok q = true → q ∈ ds → foldl (remove_at rm_ok) root ds !! q = None.
Proof.
  intros Hok. revert root. induction ds as [|d ds IH]; intros root Hq; cbn [foldl];
    [by apply not_elem_of_nil in Hq|].
  apply elem_of_cons in Hq as [<-|Hq]; [|by apply IH].
  destruct (foldl _ _ _ !! q) as [e|] eqn:E; [|done].
  pose proof (lookup_weaken _ _ _ _ E (remove_all_sub _ _)) as E'. by rewrite remove_at_eq in E'.
Qed.
End Remove.

(** ** Paths and their components *)

Lemma join_cons x y l : String.concat "/" (x :: y :: l) = x +:+ "/" +:+ String.concat "/" (y :: l).
Proof. done. Qed.

Lemma join_split p : String.concat "/" (split_on "/"%char p) = p.
Proof.
  induction p as [|c p IH]; [done|]. cbn [split_on].
  pose proof (split_on_not_nil "/"%char p) as Hn. case_bool_decide as Hc.
  - subst c. destruct (split_on _ p) as [|y l]; [done|]. rewrite join_cons, IH. done.
  - destruct (split_on _ p) as [|y l]; [done|]. destruct l as [|z l].
    + cbn in *. by rewrite IH.
    + rewrite join_cons in IH |- *. by apply (f_equal (String c)) in IH.
Qed.

Lemma join_app a b :
  a ≠ [] → b ≠ [] → String.concat "/" (a ++ b) = String.concat "/" a +:+ "/" +:+ String.concat "/" b.
Proof.
  intros Ha Hb. destruct b as [|y b]; [done|]. clear Hb.
  induction a as [|x a IH]; [done|]. destruct a as [|z a]; [done|].
  cbn [app]. rewrite !join_cons. cbn [app] in IH. rewrite IH by done. by rewrite !string_app_assoc.
Qed.

Lemma under_spec p q : under p q = true ↔ ∃ r, q = p +:+ "/" +:+ r.
Proof. unfold under. rewrite prefix_spec. by setoid_rewrite string_app_assoc. Qed.

Lemma under_trans p q r : under p q = true → under q r = true → under p r = true.
Proof.
  rewrite !under_spec. intros [x ->] [y ->]. exists (x +:+ "/" +:+ y). by rewrite !string_app_assoc.
Qed.

Lemma under_join a b : a ≠ [] → b ≠ [] → under (String.concat "/" a) (String.concat "/" (a ++ b)) = true.
Proof. intros. apply under_spec. eexists. by apply join_app. Qed.

Definition plain (c : string) : Prop := (c ≠ "") ∧ (c ≠ ".") ∧ (c ≠ "..").

Lemma safe_path_plain p : is_safe_rel_path p = true → Forall plain (split_on "/"%char p).
Proof.
  unfold is_safe_rel_path. intros H. bool_props. match goal with H : existsb _ _ = false |- _ =>
    apply existsb_Forall in H; eapply Forall_impl; [exact H|] end.
  cbn. intros c Hc. bool_props. by split_and!.
Qed.

(** ** Where deletions lead *)

(** Some component of [p] before the last is a link. *)
Definition passes_link (root : fs) (p : string) : Prop :=
  ∃ q e, under q p = true ∧ root !! q = Some e ∧ m_k e = "l".

(** A tree: what lies above an object is a directory. *)
Definition tree_shaped (root : fs) : Prop :=
  ∀ p e q, root !! p = Some e → under q p = true → ∃ d, root !! q = Some d ∧ m_k d = "d".

Lemma resolve_plain links root cwd cs p :
  Forall plain cs → cs ≠ [] → path_of (reverse cs ++ cwd) = p →
  passes_link root p ∨ resolve links root cwd cs = Some (Inside p) ∨
  resolve links root cwd cs = None ∧ ∃ q, under q p = true ∧ ∀ d, root !! q = Some d → m_k d ≠ "d".
Proof.
  revert cwd. induction cs as [|c cs IH]; intros cwd Hp Hne Hpath; [done|].
  apply Forall_cons in Hp as [(H1 & H2 & H3) Hp].
  destruct links; cbn [resolve]; rewrite !bool_decide_false by done; cbn [orb];
    (destruct (decide (cs = [])) as [->|Hcs];
      [rewrite bool_decide_true by done; right; left; rewrite <-Hpath; done|]);
    rewrite (bool_decide_false (cs = [])) by done.
  all: assert (Hrev : path_of (reverse cs ++ c :: cwd) = p)
    by (rewrite <-Hpath; unfold path_of; by rewrite reverse_cons, <-(assoc_L (++))).
  all: assert (Hu : under (path_of (c :: cwd)) p = true)
    by (rewrite <-Hrev; unfold path_of; rewrite reverse_app, reverse_involutive; apply under_join; [|done];
        intros E; apply (f_equal reverse) in E; by rewrite reverse_involutive in E).
  all: destruct (root !! path_of (c :: cwd)) as [e|] eqn:He;
    [|right; right; split; [done|]; exists (path_of (c :: cwd)); split; [done|]; intros d; by rewrite He].
  all: destruct (decide (m_k e = "d")) as [Hd|Hd];
    [rewrite bool_decide_true by done; apply (IH (c :: cwd) Hp Hcs Hrev)|rewrite (bool_decide_false (m_k e = "d")) by done].
  all: destruct (decide (m_k e = "l")) as [Hl|Hl]; [left; by exists (path_of (c :: cwd)), e|].
  all: rewrite (bool_decide_false (m_k e = "l")) by done; right; right; split; [done|].
  all: exists (path_of (c :: cwd)); split; [done|]; rewrite He; by intros d [= <-].
Qed.

Lemma resolve_safe root p :
  is_safe_rel_path p = true →
  passes_link root p ∨ resolve MAX_LINKS root [] (split_on "/"%char p) = Some (Inside p) ∨
  resolve MAX_LINKS root [] (split_on "/"%char p) = None ∧
    ∃ q, under q p = true ∧ ∀ d, root !! q = Some d → m_k d ≠ "d".
Proof.
  intros Hs. apply resolve_plain; [by apply safe_path_plain|apply split_on_not_nil|].
  unfold path_of. by rewrite app_nil_r, reverse_involutive, join_split.
Qed.

Section Deletions.
Context (rm_ok : string → bool).

Lemma remove_at_lookup root p q e :
  remove_at rm_ok root p !! q = Some e ↔
    root !! q = Some e ∧
    ¬ (rm_ok p = true ∧ ∃ d, root !! p = Some d ∧ (q = p ∨ m_k d = "d" ∧ under p q = true)).
Proof.
  unfold remove_at. destruct (root !! p) as [d|] eqn:Hd; [|naive_solver].
  destruct (rm_ok p); cbn [negb]; [|naive_solver]. case_bool_decide as Hk.
  - rewrite map_lookup_filter_Some. cbn [fst]. rewrite negb_true_iff, orb_false_iff, bool_decide_eq_false.
    destruct (under p q); naive_solver.
  - rewrite lookup_delete_Some. naive_solver.
Qed.

Lemma remove_at_tree root p : tree_shaped root → tree_shaped (remove_at rm_ok root p).
Proof.
  intros Ht q e a (Hq & Hn)%remove_at_lookup Hu. destruct (Ht q e a Hq Hu) as (d & Hd & Hk).
  exists d. split; [|done]. apply remove_at_lookup. split; [done|]. intros (Hok & d' & Hd' & Hc).
  apply Hn. split; [done|]. exists d'. split; [done|]. right.
  destruct Hc as [-> |[Hdir Hpa]]; [naive_solver|]. split; [done|]. by eapply under_trans.
Qed.

(** In a tree, a deletion of a safe path whose way is free of links is the
    removal of that path. *)
Lemma remove_path_tree root host p :
  tree_shaped root → is_safe_rel_path p = true → ¬ passes_link root p →
  remove_path rm_ok (root, host) p = (remove_at rm_ok root p, host).
Proof.
  intros Ht Hs Hl. unfold remove_path.
  destruct (resolve_safe root p Hs) as [?|[->|[-> (q & Hq & Hn)]]]; [done..|].
  unfold remove_at. destruct (root !! p) as [e|] eqn:He; [|done].
  destruct (Ht p e q He Hq) as (d & Hd & Hk). by destruct (Hn d Hd).
Qed.

Lemma remove_paths_tree root ds :
  tree_shaped root → (∀ p, p ∈ ds → is_safe_rel_path p = true ∧ is_Some (root !! p)) →
  foldl (remove_path rm_ok) (root, []) ds = (foldl (remove_at rm_ok) root ds, []).
Proof.
  intros Ht Hds. assert (H : ∀ p, p ∈ ds → is_safe_rel_path p = true ∧ ¬ passes_link root p).
  { intros p Hp. destruct (Hds p Hp) as [Hs [e He]]. split; [done|]. intros (q & l & Hq & Hl & Hk).
    destruct (Ht p e q He Hq) as (d & Hd & Hk'). naive_solver congruence. }
  clear Hds. revert root Ht H. induction ds as [|p ds IH]; intros root Ht H; [done|]. cbn [foldl].
  destruct (H p) as [Hs Hl]; [by left|]. rewrite remove_path_tree by done.
  apply IH; [by apply remove_at_tree|]. intros q Hq. destruct (H q) as [Hs' Hl']; [by right|].
  split; [done|]. intros (a & e & Ha & (He & _)%remove_at_lookup & Hk). apply Hl'. by exists a, e.
Qed.

(** What a list of safe deletions does to any file system. *)
Lemma remove_paths_confined r root host ds :
  root ⊆ r → Forall (λ d, is_safe_rel_path d = true) ds →
  let '(f, host') := foldl (remove_path rm_ok) (root, host) ds in
  f ⊆ root ∧
  (∀ p, is_Some (root !! p) → f !! p = None →
     ∃ d, d ∈ ds ∧ (p = d ∨ under d p = true ∨ passes_link r d)) ∧
  (∀ cs, cs ∈ host' → cs ∈ host ∨ ∃ d, d ∈ ds ∧ passes_link r d).
Proof.
  revert root host. induction ds as [|d ds IH]; intros root host Hr Hs; cbn [foldl].
  { split_and!; [done| |by left]. intros p [e He]. congruence. }
  apply Forall_cons in Hs as [Hd Hs].
  assert (∃ root' host', remove_path rm_ok (root, host) d = (root', host') ∧ root' ⊆ root ∧
    (∀ p, is_Some (root !! p) → root' !! p = None → p = d ∨ under d p = true ∨ passes_link r d) ∧
    (∀ cs, cs ∈ host' → cs ∈ host ∨ passes_link r d)) as (root' & host' & -> & Hsub & Hgone & Hhost).
  { unfold remove_path. destruct (resolve_safe root d Hd) as [(q & e & Hq & He & Hk)|H].
    - assert (passes_link r d) by (exists q, e; split; [done|]; split; [by eapply lookup_weaken|done]).
      destruct (resolve _ _ _ _) as [[q'|cs]|]; do 2 eexists; (split; [done|]); split_and!;
        try done; try (by left); auto using remove_at_sub.
    - destruct H as [->|[-> _]]; do 2 eexists; (split; [done|]); split_and!; try done; try (by left);
        [apply remove_at_sub| |intros p [e He]; congruence].
      intros p [e He] Hn. destruct (decide (p = d)) as [|Hne]; [by left|].
      destruct (under d p) eqn:Hu; [by right; left|]. rewrite remove_at_ne in Hn by done. congruence. }
  specialize (IH root' host'). destruct (foldl _ _ _) as [f host2].
  destruct IH as (H1 & H2 & H3); [by etrans|done|]. split_and!; [by etrans|..].
  - intros p Hp Hf. destruct (root' !! p) as [e|] eqn:He.
    + destruct (H2 p) as (d' & ? & ?); [by eauto|done|]. exists d'. split; [by right|done].
    + exists d. split; [by left|]. by apply Hgone.
  - intros cs Hcs. destruct (H3 cs Hcs) as [H|(d' & ? & ?)].
    + destruct (Hhost cs H); [by left|]. right. exists d. split; [by left|done].
    + right. exists d'. split; [by right|done].
Qed.
End Deletions.

(** ** A round *)

(** The manifest of a tree: every path once, every path safe, and what lies
    above an entry is a directory. *)
Record tree (l : list ManifestEntry) : Prop := {
  tree_nodup : NoDup (m_p <$> l);
  tree_safe e : e ∈ l → is_safe_rel_path (m_p e) = true;
  tree_shape : tree_shaped (by_path l)
}.

Section Round.
Context (untar : fs → fs → option fs) (rm_ok : string → bool).

Lemma apply_delta_Ok running rootfs archive deletions st :
  apply_delta untar rm_ok running rootfs archive deletions = Ok st →
  running = false ∧ (∀ d, d ∈ deletions → is_safe_rel_path d = true) ∧
  ∃ root r, rootfs = Some root ∧ untar archive root = Some r ∧
    foldl (remove_path rm_ok) (r, []) (merge_sort children_first deletions) = st.
Proof.
  intros H. unfold apply_delta in H. inv_res. unfold mret, res_ret in *. simplify_eq.
  split_and!; [done| |by do 2 eexists].
  match goal with H : existsb _ _ = false |- _ => apply existsb_Forall in H; rewrite Forall_forall in H;
    intros d Hd%H; by apply negb_false_iff end.
Qed.

Lemma archive_lookup local changed p :
  archive_of local changed !! p = if decide (p ∈ changed) then by_path local !! p else None.
Proof.
  unfold archive_of. rewrite map_lookup_filter. destruct (by_path local !! p); cbn; [|by case_decide].
  case_decide.
  - rewrite option_guard_True; [done|]. by apply bool_decide_eq_true.
  - rewrite option_guard_False; [done|]. cbn. by rewrite bool_decide_eq_true.
Qed.

Lemma content_differs_refl e : content_differs e e = false.
Proof.
  unfold content_differs. repeat case_bool_decide; cbn; try done; by destruct (_ : ¬ _).
Qed.

(** What is under the replica's root once the archive is unpacked. *)
Definition unpacked (local remote : list ManifestEntry) : fs :=
  archive_of local (manifest_diff local remote).1 ∪ by_path remote.

Lemma unpacked_local local remote e :
  NoDup (m_p <$> local) → e ∈ local →
  ∃ e', unpacked local remote !! m_p e = Some e' ∧
    (must_ship (by_path remote) e = true → e' = e) ∧
    (must_ship (by_path remote) e = false → by_path remote !! m_p e = Some e').
Proof.
  intros Hn He. unfold unpacked. destruct (manifest_diff_spec local remote) as [Hc _]. rewrite Hc.
  assert (Hl : by_path local !! m_p e = Some e) by by apply by_path_Some.
  rewrite lookup_union, archive_lookup. case_decide as Hin.
  - rewrite Hl. exists e. rewrite union_Some_l. split_and!; [done..|]. intros Hm.
    apply list_elem_of_fmap in Hin as (e2 & E & [He2 Hm2]%elem_of_retain).
    assert (by_path local !! m_p e = Some e2) by (rewrite E; by apply by_path_Some). congruence.
  - destruct (must_ship _ e) eqn:Hm.
    { destruct Hin. apply list_elem_of_fmap_2. by apply elem_of_retain. }
    unfold must_ship in Hm. destruct (by_path remote !! m_p e) as [re|] eqn:Hr; [|done].
    exists re. by rewrite (left_id_L None (∪)).
Qed.

(** Without kind changes, unpacking leaves a tree. *)
Lemma unpacked_tree local remote :
  tree local → tree remote → (∀ e, e ∈ local → flipped (by_path remote) e = false) →
  tree_shaped (unpacked local remote).
Proof.
  intros Hl Hr Hflip.
  assert (Hdir : ∀ q d, by_path local !! q = Some d → m_k d = "d" →
    ∃ d', unpacked local remote !! q = Some d' ∧ m_k d' = "d").
  { intros q d [Hd <-]%by_path_Some Hk; [|apply Hl].
    destruct (unpacked_local local remote d (tree_nodup _ Hl) Hd) as (d' & Hd' & H1 & H2).
    exists d'. split; [done|]. specialize (Hflip d Hd). unfold flipped in Hflip.
    destruct (must_ship (by_path remote) d); [by rewrite H1|]. rewrite H2 in Hflip by done.
    bool_props. destruct (decide (m_k d' = m_k d)); [congruence|done]. }
  intros p e q He Hu. unfold unpacked in He. apply lookup_union_Some_raw in He as [He|[_ He]].
  - apply map_lookup_filter_Some in He as [He _].
    destruct (tree_shape _ Hl p e q He Hu) as (d & Hd & Hk). by eapply Hdir.
  - destruct (tree_shape _ Hr p e q He Hu) as (d & Hd & Hk).
    destruct (by_path local !! q) as [d'|] eqn:Hd'.
    + apply (Hdir q d' Hd'). apply by_path_Some in Hd' as [Hd' <-]; [|apply Hl].
      specialize (Hflip d' Hd'). unfold flipped in Hflip. rewrite Hd in Hflip. bool_props.
      destruct (decide (m_k d = m_k d')); [congruence|done].
    + exists d. split; [|done]. unfold unpacked. rewrite lookup_union, archive_lookup, Hd'.
      case_decide; by rewrite (left_id_L None (∪)).
Qed.

Lemma deletions_known local remote p :
  tree local → tree remote → p ∈ (manifest_diff local remote).2 →
  is_safe_rel_path p = true ∧ is_Some (unpacked local remote !! p).
Proof.
  intros Hl Hr Hp. apply manifest_diff_spec in Hp as [(e & He & <- & _)|[Hp _]].
  - split; [by apply (tree_safe _ Hl)|].
    destruct (unpacked_local local remote e (tree_nodup _ Hl) He) as (e' & -> & _). by eexists.
  - pose proof Hp as (e & -> & He)%list_elem_of_fmap. split; [by apply (tree_safe _ Hr)|].
    apply by_path_dom in Hp as [x Hx]; [|apply Hr]. unfold unpacked. rewrite lookup_union, Hx.
    destruct (archive_of _ _ !! _); by eexists.
Qed.
End Round.

(** ** The properties *)
Section Properties.
Context (untar : fs → fs → option fs) (rm_ok : string → bool).
(** GNU tar over a tree, when it succeeds, has replaced the archived objects
    and no other, as far as that leaves a tree. *)
Context (untar_law : ∀ a r r', tree_shaped r → tree_shaped (a ∪ r) → untar a r = Some r' → r' = a ∪ r).

(** What a round leaves on the replica. *)
Definition result (local remote : list ManifestEntry) : fs :=
  foldl (remove_at rm_ok) (unpacked local remote)
    (merge_sort children_first (manifest_diff local remote).2).

Lemma elem_of_sorted local remote p :
  p ∈ merge_sort children_first (manifest_diff local remote).2 ↔ p ∈ (manifest_diff local remote).2.
Proof using Type. by rewrite merge_sort_Permutation. Qed.

Lemma result_tree local remote : tree_shaped (unpacked local remote) → tree_shaped (result local remote).
Proof using Type.
  intros Ht. unfold result. revert Ht. generalize (unpacked local remote).
  induction (merge_sort _ _) as [|p ds IH]; intros r Ht; [done|]. cbn. apply IH. by apply remove_at_tree.
Qed.

(** A round that is carried out has that result and leads nowhere else. *)
Lemma sync_files_Ok local remote f host :
  tree local → tree remote → tree_shaped (unpacked local remote) →
  sync_files untar rm_ok local remote = Ok (f, host) → f = result local remote ∧ host = [].
Proof using untar_law.
  intros Hl Hr Ht. unfold sync_files, result.
  destruct (manifest_diff local remote) as [c d] eqn:E. cbn [fst snd].
  destruct (_ && _) eqn:Hb.
  - bool_props. subst. intros [= <- <-]. split; [|done]. unfold unpacked. rewrite E. cbn [fst].
    assert (archive_of local [] = ∅) as ->; [|by rewrite (left_id_L ∅ (∪))].
    apply map_eq. intros p. rewrite archive_lookup, lookup_empty. case_decide; [|done].
    by destruct (not_elem_of_nil p).
  - intros (_ & _ & root & r & [= <-] & Hu & H)%apply_delta_Ok.
    assert (r = unpacked local remote) as ->
      by (unfold unpacked in *; rewrite E in Ht |- *; apply untar_law in Hu; [done|apply Hr|done]).
    rewrite remove_paths_tree in H; [by injection H as <- <-|done|].
    intros p Hp. rewrite merge_sort_Permutation in Hp.
    apply deletions_known; [done|done|]. by rewrite E.
Qed.

(** A round over trees fails only where tar does. *)
Lemma sync_files_fails local remote :
  tree local → tree remote →
  (∃ f host, sync_files untar rm_ok local remote = Ok (f, host)) ∨
  (∃ e, sync_files untar rm_ok local remote = Err e) ∧
    untar (archive_of local (manifest_diff local remote).1) (by_path remote) = None.
Proof using Type.
  intros Hl Hr. unfold sync_files.
  destruct (manifest_diff local remote) as [c d] eqn:E. cbn [fst]. destruct (_ && _); [left; by do 2 eexists|].
  unfold apply_delta. step. assert (existsb (λ d, negb (is_safe_rel_path d)) d = false) as ->.
  { apply existsb_Forall, Forall_forall. intros p Hp. apply negb_false_iff.
    eapply deletions_known; [exact Hl|exact Hr|]. by rewrite E. }
  step. destruct (untar (archive_of local c) (by_path remote)) as [r|]; [left|right; by split; [eexists|]].
  step. destruct (foldl _ _ _) as [f host]. by do 2 eexists.
Qed.

(** No deletion touches a local path, when no kind has changed. *)
Lemma result_local local remote e :
  tree local → tree remote → (∀ e', e' ∈ local → flipped (by_path remote) e' = false) → e ∈ local →
  result local remote !! m_p e = unpacked local remote !! m_p e.
Proof using Type.
  intros Hl Hr Hflip He. apply remove_all_ne. intros p Hp%elem_of_sorted.
  apply manifest_diff_spec in Hp as [(e' & He' & _ & Hf)|[_ Hn]]; [by rewrite Hflip in Hf|].
  split; [intros <-; by destruct Hn; apply list_elem_of_fmap_2|].
  destruct (under p (m_p e)) eqn:Hu; [|done]. destruct Hn.
  destruct (tree_shape _ Hl (m_p e) e p) as (d & Hd & _); [by apply by_path_Some; [apply Hl|]|done|].
  apply by_path_dom; [apply Hl|by eexists].
Qed.

(** What is there besides is what could not be removed. *)
Lemma result_extra local remote p :
  tree local → tree remote → is_Some (result local remote !! p) → p ∉ m_p <$> local →
  p ∈ (manifest_diff local remote).2 ∧ rm_ok p = false.
Proof using Type.
  intros Hl Hr [e He] Hp. pose proof (lookup_weaken _ _ _ _ He (remove_all_sub _ _ _)) as Hu.
  unfold unpacked in Hu. rewrite lookup_union, archive_lookup in Hu.
  assert (by_path local !! p = None) as Hnone
    by (apply eq_None_not_Some; rewrite by_path_dom; [done|apply Hl]).
  rewrite Hnone in Hu. assert (by_path remote !! p = Some e) as Hre
    by (case_decide; by rewrite (left_id_L None (∪)) in Hu).
  assert (p ∈ (manifest_diff local remote).2) as Hin.
  { apply manifest_diff_spec. right. split; [|done]. apply by_path_dom; [apply Hr|by eexists]. }
  split; [done|]. apply not_true_iff_false. intros Hok. unfold result in He.
  by rewrite remove_one_eq in He; [| |apply elem_of_sorted].
Qed.

(** What the next comparison finds: nothing to ship, and to delete only what
    could not be deleted. *)
Lemma result_diff local remote after :
  tree local → tree remote → (∀ e, e ∈ local → flipped (by_path remote) e = false) →
  NoDup (m_p <$> after) → by_path after = result local remote →
  (manifest_diff local after).1 = [] ∧
  ∀ p, p ∈ (manifest_diff local after).2 → p ∈ (manifest_diff local remote).2 ∧ rm_ok p = false.
Proof using Type.
  intros Hl Hr Hflip Hna Haf.
  assert (Hkeep : ∀ e, e ∈ local → must_ship (by_path after) e = false).
  { intros e He. rewrite Haf. unfold must_ship. rewrite result_local by done.
    destruct (unpacked_local local remote e (tree_nodup _ Hl) He) as (e' & -> & H1 & H2).
    destruct (must_ship (by_path remote) e) eqn:Hm.
    - rewrite H1 by done. rewrite content_differs_refl, bool_decide_false; [done|]. by intros [].
    - specialize (H2 eq_refl). unfold must_ship in Hm. by rewrite H2 in Hm. }
  split; [by apply manifest_diff_ships_none|].
  intros p [(e & He & <- & Hf)|[Hp Hn]]%manifest_diff_spec.
  - apply flipped_ships in Hf. by rewrite Hkeep in Hf.
  - apply result_extra; [done..| |done]. rewrite <-Haf. by apply by_path_dom.
Qed.


(** A path whose kind changed on the primary (a file replaced by a link, or
    by a directory) is lost from the standby by the round that ships it, if
    its removal succeeds: the round reports success, but the replica unpacks
    the new object first and then carries out the deletion meant for the old
    one.  The next round has to ship it again. *)
Theorem kind_flip_lost_for_a_round local remote f host :
  tree local → tree remote → tree_shaped (unpacked local remote) →
  sync_files untar rm_ok local remote = Ok (f, host) →
  ∀ e, e ∈ local → flipped (by_path remote) e = true → rm_ok (m_p e) = true →
    f !! m_p e = None ∧ ∀ after, NoDup (m_p <$> after) → by_path after = f → m_p e ∈ (manifest_diff local after).1.
Proof using All.
  intros Hl Hr Ht Hs e He Hf Hok. destruct (sync_files_Ok _ _ _ _ Hl Hr Ht Hs) as [-> _].
  assert (Hgone : result local remote !! m_p e = None).
  { apply remove_one_eq; [done|]. apply elem_of_sorted, manifest_diff_spec. left. eauto. }
  split; [done|]. intros after Hna Haf. apply manifest_diff_ships. exists e. split_and!; [done..|].
  unfold must_ship. by rewrite Haf, Hgone.
Qed.
End Properties.

(** ** Confinement of deletions *)

(** Whatever archive and list of deletions a peer sends, a round that is
    carried out has refused every path with an empty, [.] or [..] component,
    and unless a deletion passes through a link it only removes the paths
    that are named and what lies below them, all inside the tree. *)
Theorem deletions_confined untar rm_ok running rootfs archive deletions f host :
  apply_delta untar rm_ok running rootfs archive deletions = Ok (f, host) →
  running = false ∧ (∀ d, d ∈ deletions → Forall plain (split_on "/"%char d)) ∧
  ∃ root r, rootfs = Some root ∧ untar archive root = Some r ∧ f ⊆ r ∧
    (∀ p, is_Some (r !! p) → f !! p = None →
       ∃ d, d ∈ deletions ∧ (p = d ∨ under d p = true ∨ passes_link r d)) ∧
    (∀ cs, cs ∈ host → ∃ d, d ∈ deletions ∧ passes_link r d).
Proof.
  intros (-> & Hsafe & root & r & -> & Hu & H)%apply_delta_Ok.
  split; [done|]. split; [intros; by apply safe_path_plain, Hsafe|].
  exists root, r. split_and!; [done|done|..];
    pose proof (remove_paths_confined rm_ok r r [] (merge_sort children_first deletions) (reflexivity r)) as Hc;
    rewrite H in Hc; (destruct Hc as (H1 & H2 & H3);
      [apply Forall_forall; intros d; rewrite merge_sort_Permutation; apply Hsafe|]); [done|..].
  - intros p Hp Hf. destruct (H2 p Hp Hf) as (d & Hd & ?). rewrite merge_sort_Permutation in Hd. eauto.
  - intros cs Hcs. destruct (H3 cs Hcs) as [Hn|(d & Hd & ?)]; [by apply not_elem_of_nil in Hn|].
    rewrite merge_sort_Permutation in Hd. eauto.
Qed.

(** The archive with one link, to the host's root directory. *)
Definition link_archive : fs := {["x" := mk_entry "x" "l" 0 0 "/"]}.

(** The check on deletion paths does not confine them: a peer that ships a
    link to the root directory and names a path through it has the replica
    remove any path of the host, and the round succeeds. *)
Theorem deletion_follows_link untar rm_ok root p :
  is_safe_rel_path p = true → untar link_archive root = Some (link_archive ∪ root) →
  is_safe_rel_path ("x/" +:+ p) = true ∧
  apply_delta untar rm_ok false (Some root) link_archive ["x/" +:+ p] =
    Ok (link_archive ∪ root, [["";""] ++ split_on "/"%char p]).
Proof.
  intros Hs Hu. assert (Hsplit : split_on "/"%char ("x/" +:+ p) = "x" :: split_on "/"%char p) by done.
  assert (Hs' : is_safe_rel_path ("x/" +:+ p) = true).
  { unfold is_safe_rel_path in *. rewrite Hsplit. bool_props. cbn [existsb].
    rewrite !andb_true_iff, !negb_true_iff. cbn [orb]. split_and!; try done. }
  split; [done|]. unfold apply_delta. step. cbn [existsb]. rewrite Hs'. step. rewrite Hu. step.
  assert (merge_sort children_first ["x/" +:+ p] = ["x/" +:+ p]) as -> by done. cbn [foldl].
  unfold remove_path. rewrite Hsplit. pose proof (split_on_not_nil "/"%char p) as Hn.
  unfold MAX_LINKS. cbn [resolve]. rewrite (bool_decide_false (split_on _ _ = [])) by done.
  assert ((link_archive ∪ root) !! path_of ["x"] = Some (mk_entry "x" "l" 0 0 "/")) as ->.
  { apply lookup_union_Some_l. by vm_compute. }
  done.
Qed.

(** ** Witnesses *)
Module Demo.
Definition untar (a r : fs) : option fs := Some (a ∪ r).
Definition rm (p : string) : bool := true.
Definition file (p : string) (s m : Z) : ManifestEntry := mk_entry p "f" s m "".
Definition dir (p : string) : ManifestEntry := mk_entry p "d" 0 0 "".
Definition link (p t : string) : ManifestEntry := mk_entry p "l" 0 0 t.

Definition primary : list ManifestEntry := [dir "etc"; file "etc/a" 3 7; link "etc/b" "a"].
Definition standby : list ManifestEntry := [dir "etc"; file "etc/a" 2 7; link "etc/b" "a"; dir "old"; file "old/x" 1 1].
Definition flipped_standby : list ManifestEntry := [dir "etc"; file "etc/a" 3 7; file "etc/b" 9 9].


(** The paths above [p], for checking that a list is a tree. *)
Fixpoint above (p : string) : list string :=
  match p with
  | EmptyString => []
  | String c p => (if bool_decide (c = "/"%char) then [""] else []) ++ (String c <$> above p)
  end.

Lemma under_above q p : under q p = true → q ∈ above p.
Proof.
  intros [r ->]%under_spec. induction q as [|c q IH]; [cbn; by left|].
  change (String c q +:+ "/" +:+ r) with (String c (q +:+ "/" +:+ r)). cbn [above].
  apply elem_of_app. right. by apply list_elem_of_fmap_2.
Qed.

Definition is_tree (l : list ManifestEntry) : bool :=
  bool_decide (NoDup (m_p <$> l)) &&
  forallb (λ e, is_safe_rel_path (m_p e) &&
    forallb (λ q, match by_path l !! q with Some d => bool_decide (m_k d = "d") | None => false end) (above (m_p e))) l.

Lemma is_tree_spec l : is_tree l = true → tree l.
Proof.
  intros [Hn H]%andb_true_iff. apply bool_decide_eq_true in Hn. rewrite forallb_forall in H.
  assert (Hs : ∀ e, e ∈ l → is_safe_rel_path (m_p e) = true ∧ ∀ q, q ∈ above (m_p e) →
    ∃ d, by_path l !! q = Some d ∧ m_k d = "d").
  { intros e He%list_elem_of_In. apply H in He. bool_props. split; [done|]. intros q Hq%list_elem_of_In.
    match goal with H : forallb _ _ = true |- _ => rewrite forallb_forall in H; apply H in Hq end.
    destruct (by_path l !! q) as [d|]; [|done]. bool_props. by exists d. }
  split; [done|by apply Hs|]. intros p e q [He <-]%by_path_Some Hu; [|done].
  apply (proj2 (Hs e He)). by apply under_above.
Qed.
End Demo.

Lemma demo_untar_law a r r' :
  tree_shaped r → tree_shaped (a ∪ r) → Demo.untar a r = Some r' → r' = a ∪ r.
Proof. by intros _ _ [= <-]. Qed.

Lemma kind_flip_lost_for_a_round_witness :
  ∃ f, sync_files Demo.untar Demo.rm Demo.primary Demo.flipped_standby = Ok (f, []) ∧
    f !! "etc/b" = None ∧ is_Some (by_path Demo.primary !! "etc/b").
Proof.
  destruct (sync_files Demo.untar Demo.rm Demo.primary Demo.flipped_standby) as [[f host]|e|] eqn:E;
    [|revert E; vm_compute; discriminate..].
  assert (host = []) as -> by (revert E; vm_compute; by intros [= _ <-]).
  exists f. split; [done|]. split; [|by vm_compute; eauto].
  apply (kind_flip_lost_for_a_round Demo.untar Demo.rm demo_untar_law
    Demo.primary Demo.flipped_standby f []) with (e := Demo.link "etc/b" "a");
    [apply Demo.is_tree_spec; by vm_compute..| |done| |by vm_compute|done].
  - assert (unpacked Demo.primary Demo.flipped_standby = by_path Demo.primary) as -> by by vm_compute.
    apply tree_shape, Demo.is_tree_spec. by vm_compute.
  - refine (bool_decide_unpack _ _); by vm_compute.
Defined.

(** A deletion through a link that the replica itself has, as [/var/run]. *)
Lemma deletions_confined_witness :
  let run := Demo.link "var/run" "/run" in
  ∃ r, r !! "var/run" = Some run ∧ passes_link r "var/run/wolfnet".
Proof.
  intros run.
  destruct (deletions_confined Demo.untar Demo.rm false (Some (by_path [Demo.dir "var"; run])) ∅
    ["var/run/wolfnet"] (by_path [Demo.dir "var"; run]) [["";"run";"wolfnet"]]) as (_ & _ & root & r & Hroot & Hr & _ & _ & H);
    [by vm_compute|].
  exists r. injection Hroot as <-. injection Hr as <-. split; [by vm_compute|].
  destruct (H ["";"run";"wolfnet"]) as (d & ->%list_elem_of_singleton & Hd); [by left|]. exact Hd.
Defined.

Lemma deletion_follows_link_witness :
  ∃ f, apply_delta Demo.untar Demo.rm false (Some ∅) link_archive ["x/etc/passwd"] =
    Ok (f, [["";"";"etc";"passwd"]]).
Proof.
  eexists. apply (deletion_follows_link Demo.untar Demo.rm ∅ "etc/passwd"); by vm_compute.
Defined.
