(* ===== verification/HaStore.v ===== *)
(** * WolfHA: the store of protected subjects (src/src/wolfha/mod.rs)

    Entries, the settings a primary pushes to its standbys, promotion and
    demotion of the local copy, and the chain of a VM's disk deltas.  What a
    step asks of its surroundings is a [World]; what it changes is an
    [HaNode]. *)
From S2P Require Import Prelude Net Cluster.

Inductive HaRole := Primary | Replica.
#[global] Instance HaRole_eq_dec : EqDecision HaRole.
Proof. solve_decision. Defined.

Inductive SubjectKind := Container | Vm | PveContainer.
#[global] Instance SubjectKind_eq_dec : EqDecision SubjectKind.
Proof. solve_decision. Defined.

Record HaPeer := mk_peer { p_node_id : string; p_address : string; p_port : Z }.
#[global] Instance HaPeer_eq_dec : EqDecision HaPeer.
Proof. solve_decision. Defined.

Record HaSyncStatus := mk_sync_status {
  ss_at : Z; ss_ok : bool; ss_message : string; ss_files_sent : Z; ss_bytes_sent : Z
}.

Record PendingDelta := mk_pending {
  pd_path : string; pd_taken_at : Z; pd_applied_by : list string; pd_token : string
}.

Definition default_failover_after : Z := 90.

Record HaEntry := mk_ha {
  container : string;
  kind : SubjectKind;
  role : HaRole;
  interval_minutes : Z;
  replicas : list HaPeer;
  primary : option HaPeer;
  autostart_managed : bool;
  last_sync : gmap string HaSyncStatus;
  last_delta_at : Z;
  stale : bool;
  auto_failover : bool;
  witness : string;
  failover_after_secs : Z;
  pending_vm_delta : option PendingDelta;
  vm_chain : option string;
  self_identity : option HaPeer;
  zfs_datasets : list string
}.
#[global] Instance HaEntry_eta : Eta HaEntry := λ e,
  mk_ha (container e) (kind e) (role e) (interval_minutes e) (replicas e) (primary e)
    (autostart_managed e) (last_sync e) (last_delta_at e) (stale e) (auto_failover e)
    (witness e) (failover_after_secs e) (pending_vm_delta e) (vm_chain e) (self_identity e)
    (zfs_datasets e).

Record HaMeta := mk_meta {
  me_kind : SubjectKind; me_interval_minutes : Z; me_replicas : list HaPeer;
  me_auto_failover : bool; me_witness : string; me_failover_after_secs : Z;
  me_primary : option HaPeer; me_zfs_datasets : list string
}.

Definition from_entry (e : HaEntry) : HaMeta :=
  mk_meta (kind e) (interval_minutes e) (replicas e) (auto_failover e) (witness e)
    (failover_after_secs e) (self_identity e) (zfs_datasets e).

Definition apply_to (m : HaMeta) (e : HaEntry) : HaEntry :=
  let e := e <| kind := me_kind m |> <| interval_minutes := me_interval_minutes m |>
             <| replicas := me_replicas m |> <| auto_failover := me_auto_failover m |>
             <| witness := me_witness m |> <| failover_after_secs := me_failover_after_secs m |> in
  let e := if bool_decide (me_zfs_datasets m = []) then e
           else e <| zfs_datasets := me_zfs_datasets m |> in
  match role e, me_primary m with
  | Replica, Some p => e <| primary := Some p |>
  | _, _ => e
  end.

(** ** The store *)
Abbreviation HaStore := (list HaEntry).

Definition named (c : string) (e : HaEntry) : bool := bool_decide (container e = c).
Definition get (s : HaStore) (c : string) : option HaEntry := List.find (named c) s.
(** A change through [get_mut]. *)
Definition modify (s : HaStore) (c : string) (f : HaEntry → HaEntry) : HaStore :=
  update_first (named c) f s.
Definition remove (s : HaStore) (c : string) : HaStore := retain (λ e, negb (named c e)) s.

(** ** Surroundings and state *)

(** What one URL of a peer answered to a status request. *)
Record Status := mk_status { st_active : option bool; st_role : option string; st_stale : option bool }.
Inductive Reply := Json (v : Status) | NotJson | HttpError | NoAnswer.

Record World := mk_world {
  w_now : Z;
  (** the monotonic clock, nanoseconds *)
  w_instant : Z;
  w_ping : string → bool;
  w_replies : HaPeer → string → list Reply;
  w_cluster : ClusterState;
  w_wolfnet_ip : option string;
  w_addrs : gset string;
  w_static_ip : SubjectKind → string → option string;
  w_dir_exists : string → bool;
  w_save_ok : bool;
  (** result of starting or stopping a subject, and whether it runs after *)
  w_start : SubjectKind → string → bool * bool;
  w_stop : SubjectKind → string → bool * bool;
  w_vm_bitmap : string → bool;
  w_mount : string → bool
}.

Inductive Alert := Once (key : string) | Promoted (c : string) | PromotionFailed (c : string).

Record HaNode := mk_ha_node {
  store : HaStore;
  (** running subjects: is it a VM, and its name *)
  running : gset (bool * string);
  markers : gset string;
  fail_since : gmap string Z;
  latch : gset string;
  alerts : list Alert;
  in_flight : gset string
}.
#[global] Instance HaNode_eta : Eta HaNode := λ n,
  mk_ha_node (store n) (running n) (markers n) (fail_since n) (latch n) (alerts n) (in_flight n).

Definition is_vm (k : SubjectKind) : bool := match k with Vm => true | _ => false end.

Definition subject_is_running (k : SubjectKind) (c : string) (n : HaNode) : bool :=
  bool_decide ((is_vm k, c) ∈ running n).

Definition set_running (k : SubjectKind) (c : string) (up : bool) (n : HaNode) : HaNode :=
  n <| running := if up then {[(is_vm k, c)]} ∪ running n else running n ∖ {[(is_vm k, c)]} |>.

Definition subject_start (w : World) (k : SubjectKind) (c : string) (n : HaNode) : bool * HaNode :=
  let '(ok, up) := w_start w k c in (ok, set_running k c up n).
Definition subject_stop (w : World) (k : SubjectKind) (c : string) (n : HaNode) : bool * HaNode :=
  let '(ok, up) := w_stop w k c in (ok, set_running k c up n).

(** [store.save()]; a store that could not be written is not kept, and the file
    is as it was.  (The file is written in place: a write that is cut short,
    which would leave no entries, is left out.) *)
Definition save (w : World) (s : HaStore) (n : HaNode) : bool * HaNode :=
  if w_save_ok w then (true, n <| store := s |>) else (false, n).

Definition peer_is_local (w : World) (p : HaPeer) : bool := bool_decide (p_address p ∈ w_addrs w).

(** The first URL that answers decides. *)
Fixpoint first_status (rs : list Reply) : option Status :=
  match rs with
  | [] => None
  | Json v :: _ => Some v
  | NotJson :: _ => None
  | _ :: rs => first_status rs
  end.
Definition peer_status (w : World) (p : HaPeer) (c : string) : option Status :=
  first_status (w_replies w p c).

Definition active (v : Status) : bool := default false (st_active v).
Definition role_is (r : string) (v : Status) : bool := bool_decide (st_role v = Some r).

(** What this node answers. *)
Definition wolfha_status (n : HaNode) (c : string) : Status :=
  let k := match get (store n) c with Some e => kind e | None => Container end in
  let act := subject_is_running k c n in
  match get (store n) c with
  | Some e => mk_status (Some act)
                (Some (match role e with Primary => "primary" | Replica => "replica" end))
                (Some (stale e))
  | None => mk_status (Some act) (Some "none") None
  end.

(** ** Promotion *)
Definition promoted_entry (w : World) (me : option HaPeer) (e : HaEntry) : HaEntry :=
  let rs := match primary e with
            | Some p => if existsb (λ r, bool_decide (p_node_id r = p_node_id p)) (replicas e)
                        then replicas e else replicas e ++ [p]
            | None => replicas e
            end in
  let rs := match me with
            | Some m => retain (λ r, bool_decide (p_node_id r ≠ p_node_id m)) rs
            | None => rs
            end in
  let rs := retain (λ r, negb (peer_is_local w r)) rs in
  e <| primary := None |> <| role := Primary |> <| stale := false |> <| last_sync := ∅ |>
    <| replicas := rs |> <| self_identity := me |>
    <| interval_minutes := if interval_minutes e =? 0 then 5 else interval_minutes e |>
    <| autostart_managed := true |>.

(** What has to be done to the copy before the subject may start. *)
Definition prepare (w : World) (k : SubjectKind) (c : string) (s : HaStore) : res string () :=
  match k with
  | Container => Ok ()
  | Vm => guard_err (negb (w_vm_bitmap w c)) "promotion stopped before starting the VM"
  | PveContainer =>
      let datasets := match get s c with Some e => zfs_datasets e | None => [] end in
      _ ← guard_err (bool_decide (datasets = [])) "never seeded here";
      guard_err (negb (forallb (w_mount w) datasets)) "could not mount"
  end.

Definition promote_local (w : World) (c : string) (me : option HaPeer) (n : HaNode) :
    res string () * HaNode :=
  match get (store n) c with
  | None => (Err "not WolfHA-managed on this node", n)
  | Some e =>
      if bool_decide (role e = Primary) && negb (stale e) then (Err "already the active primary here", n) else
      let n := n <| markers := markers n ∖ {[c]} |> in
      let '(saved, n) := save w (modify (store n) c (promoted_entry w me)) n in
      if negb saved then (Err "save wolfha store", n) else
      match prepare w (kind e) c (store n) with
      | Ok _ =>
          let '(ok, n) := subject_start w (kind e) c n in
          (if ok then Ok () else Err "failed to start", n)
      | Err m => (Err m, n)
      | Panic => (Panic, n)
      end
  end.

(** ** Demotion *)
Definition demoted_entry (new_primary : HaPeer) (e : HaEntry) : HaEntry :=
  let e := e <| role := Replica |> <| stale := true |> <| primary := Some new_primary |>
             <| replicas := [] |> <| last_sync := ∅ |> <| self_identity := None |> in
  match kind e with Vm => e <| vm_chain := None |> | _ => e end.

Definition fresh_demoted (c : string) (new_primary : HaPeer) : HaEntry :=
  mk_ha c Container Replica 0 [] (Some new_primary) false ∅ 0 true false "" default_failover_after
    None None None [].

Definition demote_local (w : World) (c : string) (new_primary : HaPeer) (n : HaNode) :
    res string () * HaNode :=
  let k := match get (store n) c with Some e => kind e | None => Container end in
  let '(stopped, n) := if subject_is_running k c n then subject_stop w k c n else (true, n) in
  if negb stopped then (Err "could not stop for demotion", n) else
  let n := if w_dir_exists w c then n <| markers := {[c]} ∪ markers n |> else n in
  let s := match get (store n) c with
           | Some _ => modify (store n) c (demoted_entry new_primary)
           | None => store n ++ [fresh_demoted c new_primary]
           end in
  let '(saved, n) := save w s n in
  (if saved then Ok () else Err "save wolfha store", n).

(** ** Seeds and deltas *)

(** The entry a seed installs. *)
Definition seeded_entry (w : World) (c : string) (k : SubjectKind) (p : HaPeer) (meta : option HaMeta) : HaEntry :=
  let e := mk_ha c k Replica 0 [] (Some p) false ∅ (w_now w) false false "" default_failover_after
             None None None [] in
  match meta with Some m => apply_to m e | None => e end.

(** [unpacked]: the archive was extracted. *)
Definition install_seed (w : World) (unpacked : bool) (c : string) (k : SubjectKind) (p : HaPeer)
    (meta : option HaMeta) (n : HaNode) : res string () * HaNode :=
  if w_dir_exists w c && bool_decide (c ∉ markers n)
  then (Err "already exists on this node and is NOT a WolfHA replica", n) else
  if w_dir_exists w c && subject_is_running Container c n
  then (Err "replica is running here", n) else
  if negb unpacked then (Err "tar extract failed", n <| markers := markers n ∖ {[c]} |>) else
  let n := n <| markers := {[c]} ∪ markers n |> in
  let '(saved, n) := save w (remove (store n) c ++ [seeded_entry w c k p meta]) n in
  (if saved then Ok () else Err "save wolfha store", n).

(** The receiving end of a round; [applied] is the outcome of unpacking the
    archive and block deltas. *)
Definition wolfha_apply_delta (w : World) (applied : res string ()) (meta : option HaMeta) (c : string)
    (n : HaNode) : res string () * HaNode :=
  match get (store n) c with
  | None => (Err "not a WolfHA copy on this node", n)
  | Some e =>
      if bool_decide (role e = Primary) && negb (stale e)
      then (Err "ACTIVE primary here", n) else
      match applied with
      | Ok _ =>
          let f e := let e := e <| last_delta_at := w_now w |> <| stale := false |> in
                     match meta with Some m => apply_to m e | None => e end in
          (Ok (), (save w (modify (store n) c f) n).2)
      | r => (r, n)
      end
  end.

(** ** VM disk deltas

    [D] is the content of a disk image, [qemu_apply] the outcome of committing
    a delta into it: whether it succeeded, and what the disk is then. *)
Section VmDelta.
Context {D delta : Type} (qemu_apply : delta → D → bool * D).

Definition VM_NEEDS_SEED : string := "WOLFHA_VM_NEEDS_SEED".

(** [vars_ok]: the firmware variables, when sent, were installed. *)
Definition vm_apply_delta (w : World) (disk_found vars_ok : bool) (name : string) (d : delta)
    (chain_prev chain_next : string) (st : HaNode * D) : res string () * (HaNode * D) :=
  let '(n, disk) := st in
  match get (store n) name with
  | None => (Err VM_NEEDS_SEED, st)
  | Some e =>
      if bool_decide (kind e ≠ Vm) then (Err "not a WolfHA-managed VM on this node", st) else
      if subject_is_running Vm name n then (Err "running here", st) else
      if bool_decide (chain_prev = "") || bool_decide (chain_next = "") then (Err VM_NEEDS_SEED, st) else
      match vm_chain e with
      | None => (Err VM_NEEDS_SEED, st)
      | Some t =>
          if bool_decide (t = chain_next) then (Ok (), st) else
          if bool_decide (t ≠ chain_prev) then (Err VM_NEEDS_SEED, st) else
          if negb disk_found then (Err "no disk", st) else
          let '(ok, disk) := qemu_apply d disk in
          if negb ok then (Err "qemu-img commit failed", (n, disk)) else
          if negb vars_ok then (Err "efivars", (n, disk)) else
          let '(saved, n) := save w (modify (store n) name (λ e, e <| vm_chain := Some chain_next |>)) n in
          (if saved then Ok () else Err "save wolfha store", (n, disk))
      end
  end.
End VmDelta.

(** ** Replica sets *)

(** One machine under several aliases is kept once: the key is the registry's
    id of the node, or the address of a node it does not know. *)
Definition replica_key {O : HashOrder Node} (w : World) (p : HaPeer) : string :=
  match get_node (w_cluster w) (p_node_id p) with Some n => n_id n | None => p_address p end.

Definition dedupe_step {O : HashOrder Node} (w : World) (acc : gset string * list HaPeer) (p : HaPeer) :
    gset string * list HaPeer :=
  let '(seen, kept) := acc in
  if bool_decide (replica_key w p ∈ seen) then acc
  else ({[replica_key w p]} ∪ seen, kept ++ [p]).

Definition dedupe_replicas {O : HashOrder Node} (w : World) (c : string) (n : HaNode) : HaNode :=
  match get (store n) c with
  | None => n
  | Some e =>
      let kept := (foldl (dedupe_step w) (∅, []) (replicas e)).2 in
      if bool_decide (length kept ≠ length (replicas e))
      then (save w (modify (store n) c (λ e, e <| replicas := kept |>)) n).2 else n
  end.

(** ** Sync rounds in flight, and when one is due *)
Definition try_begin_sync (c : string) (n : HaNode) : bool * HaNode :=
  if bool_decide (c ∈ in_flight n) then (false, n) else (true, n <| in_flight := {[c]} ∪ in_flight n |>).
Definition end_sync (c : string) (n : HaNode) : HaNode := n <| in_flight := in_flight n ∖ {[c]} |>.

Definition sync_due (now : Z) (e : HaEntry) : bool :=
  if bool_decide (role e ≠ Primary) || stale e then false else
  let interval_secs := wrap64 (Z.max (interval_minutes e) 1 * 60) in
  let oldest := match (λ r, match last_sync e !! p_node_id r with Some s => ss_at s | None => 0 end)
                      <$> replicas e with
                | [] => 0
                | x :: xs => foldl Z.min x xs
                end in
  interval_secs <=? sat_sub now oldest.

(** The rounds one wake-up of the scheduler starts. *)
Definition scheduler_tick (w : World) (n : HaNode) : list string * HaNode :=
  foldl (λ '(started, n) e,
    if sync_due (w_now w) e then
      let '(ok, n) := try_begin_sync (container e) n in
      (if ok then started ++ [container e] else started, n)
    else (started, n)) ([], n) (store n).
