(* ===== verification/HaMonitor.v ===== *)
(** * WolfHA: boot guard and automatic failover (src/src/wolfha/mod.rs)

    One wake-up of the failover monitor walks a snapshot of the entries and
    treats each by its role and staleness; the boot guard does the same once
    per machine boot.  A wake-up reads its [World] throughout. *)
From S2P Require Import Prelude Net Cluster HaStore.

Section Monitor.
Context {O : HashOrder Node}.
Implicit Types (w : World) (n : HaNode) (e : HaEntry).

(** ** Failure clocks and alerts *)

(** Seconds since the condition began to fail without interruption. *)
Definition fail_elapsed w (key : string) (failing : bool) n : Z * HaNode :=
  if negb failing then (0, n <| fail_since := delete key (fail_since n) |>) else
  let start := default (w_instant w) (fail_since n !! key) in
  (since (w_instant w) start / SEC, n <| fail_since := <[key := start]> (fail_since n) |>).

Definition alert_once (key : string) n : HaNode :=
  if bool_decide (key ∈ latch n) then n
  else n <| latch := {[key]} ∪ latch n |> <| alerts := alerts n ++ [Once key] |>.
Definition alert_clear (key : string) n : HaNode := n <| latch := latch n ∖ {[key]} |>.
Definition send_alert (a : Alert) n : HaNode := n <| alerts := alerts n ++ [a] |>.

Definition ping_host w (host : string) : bool :=
  if bool_decide (host = "") then false else w_ping w host.

Definition fence_secs (failover_after : Z) : Z := Z.max (failover_after / 2) 30.

(** This node's own identity, as peers can call it. *)
Definition my_identity w : option HaPeer :=
  self ← List.find n_is_self (get_all_nodes (w_now w) (w_cluster w));
  let unusable := bool_decide (n_address self = "") || bool_decide (n_address self = "0.0.0.0")
                  || String.prefix "127." (n_address self) in
  a ← (if unusable then w_wolfnet_ip w else Some (n_address self));
  Some (mk_peer (n_id self) a (n_port self)).

(** The first peer whose answer satisfies [f]. *)
Definition find_peer w (c : string) (f : Status → bool) (ps : list HaPeer) : option HaPeer :=
  List.find (λ p, match peer_status w p c with Some v => f v | None => false end) ps.

Definition reachable w (c : string) (p : HaPeer) : bool := bool_decide (peer_status w p c ≠ None).

(** ** Active primary *)
Definition fence w e (n : HaNode) : HaNode :=
  let c := container e in
  let n := alert_clear ("witnessdown:" +:+ c) n in
  let '(_, n) := subject_stop w (kind e) c n in
  let n := match get (store n) c with
           | Some _ => (save w (modify (store n) c (λ e, e <| stale := true |>)) n).2
           | None => n
           end in
  let '(_, n) := fail_elapsed w ("witness:" +:+ c) false n in
  alert_once ("fenced:" +:+ c) n.

Definition primary_step w e n : HaNode :=
  let c := container e in
  let n := dedupe_replicas w c n in
  if negb (subject_is_running (kind e) c n) then
    let n := match find_peer w c (λ v, active v && role_is "primary" v) (replicas e) with
             | Some p => alert_once ("superseded:" +:+ c) (demote_local w c p n).2
             | None => n
             end in
    (fail_elapsed w ("witness:" +:+ c) false n).2
  else if negb (auto_failover e) || bool_decide (witness e = "") then n
  else
    let ok := ping_host w (witness e) in
    let '(elapsed, n) := fail_elapsed w ("witness:" +:+ c) (negb ok) n in
    if ok then alert_clear ("witnessdown:" +:+ c) n
    else if fence_secs (failover_after_secs e) <=? elapsed then
      if existsb (reachable w c) (replicas e) then alert_once ("witnessdown:" +:+ c) n
      else fence w e n
    else n.

(** ** Fenced primary *)

(** Replicas in order, up to the first that took over. *)
Fixpoint probe_takeover w (c : string) (ps : list HaPeer) : option HaPeer * bool :=
  match ps with
  | [] => (None, true)
  | p :: ps =>
      match peer_status w p c with
      | Some v => if active v || role_is "primary" v then (Some p, true) else probe_takeover w c ps
      | None => let '(t, _) := probe_takeover w c ps in (t, false)
      end
  end.

Definition fenced_step w e n : HaNode :=
  let c := container e in
  let witness_ok := if bool_decide (witness e = "") then true else ping_host w (witness e) in
  if negb witness_ok then n else
  match probe_takeover w c (replicas e) with
  | (Some p, _) => alert_clear ("fenced:" +:+ c) (demote_local w c p n).2
  | (None, true) =>
      if auto_failover e then
        let n := match get (store n) c with
                 | Some _ => (save w (modify (store n) c (λ e, e <| stale := false |>)) n).2
                 | None => n
                 end in
        let '(_, n) := subject_start w (kind e) c n in
        alert_once ("resumed:" +:+ c) (alert_clear ("fenced:" +:+ c) n)
      else n
  | (None, false) => n
  end.

(** ** Standby *)

(** GATE 2: the rest of the cluster still sees the primary's node. *)
Definition cluster_sees w (p : HaPeer) : bool :=
  match get_node (w_cluster w) (p_node_id p) with
  | Some nd => n_online nd && (sat_sub (w_now w) (n_last_seen nd) <? online_window_for (w_cluster w) nd)
  | None => false
  end.

(** GATE 3: a healthy standby comes before this one. *)
Fixpoint defers w (c my_id primary_id : string) (ps : list HaPeer) : bool :=
  match ps with
  | [] => false
  | p :: ps =>
      if bool_decide (p_node_id p = my_id) || peer_is_local w p then false else
      if bool_decide (p_node_id p = primary_id) then defers w c my_id primary_id ps else
      match peer_status w p c with
      | Some v =>
          if role_is "primary" v || (role_is "replica" v && negb (default false (st_stale v))) then true
          else defers w c my_id primary_id ps
      | None => defers w c my_id primary_id ps
      end
  end.

(** GATE 4: the copy is too old to be promoted without an operator. *)
(** The products wrap in a release build. *)
Definition max_age e : Z := Z.max (wrap64 (wrap64 (Z.max (interval_minutes e) 1 * 60) * 6)) 1800.
Definition too_old w e : bool := max_age e <? sat_sub (w_now w) (last_delta_at e).

(** GATE 5: the subject answers on the bridge. *)
Definition answers_on_bridge w e : bool :=
  match w_static_ip w (kind e) (container e) with Some ip => ping_host w ip | None => false end.

Definition take_over w (me : option HaPeer) e n : HaNode :=
  let c := container e in
  let '(r, n) := promote_local w c me n in
  let '(_, n) := fail_elapsed w ("primary:" +:+ c) false n in
  send_alert (match r with Ok _ => Promoted c | _ => PromotionFailed c end) n.

Definition standby_gates w (me : option HaPeer) e (p : HaPeer) n : HaNode :=
  let c := container e in
  let witness_ok := if bool_decide (witness e = "") then false else ping_host w (witness e) in
  if negb witness_ok then n else
  if cluster_sees w p then alert_once ("asym:" +:+ c) n else
  if match me with Some m => defers w c (p_node_id m) (p_node_id p) (replicas e) | None => false end
  then n else
  if too_old w e then alert_once ("toostale:" +:+ c) n else
  if answers_on_bridge w e then n else
  take_over w me e n.

Definition standby_step w (me : option HaPeer) e n : HaNode :=
  match primary e with
  | None => n
  | Some p =>
      let c := container e in
      let pstat := peer_status w p c in
      if subject_is_running (kind e) c n then
        match pstat with
        | Some v => if active v then alert_once ("dup:" +:+ c) (subject_stop w (kind e) c n).2 else n
        | None => n
        end
      else
        let n := alert_clear ("dup:" +:+ c) n in
        if negb (auto_failover e) then n else
        let '(elapsed, n) := fail_elapsed w ("primary:" +:+ c) (bool_decide (pstat = None)) n in
        match pstat with
        | Some _ => alert_clear ("toostale:" +:+ c) (alert_clear ("asym:" +:+ c) n)
        | None =>
            if elapsed <? failover_after_secs e then n
            else standby_gates w me e p n
        end
  end.

(** ** One wake-up *)
Definition entry_step w (me : option HaPeer) n e : HaNode :=
  match role e, stale e with
  | Primary, false => primary_step w e n
  | Primary, true => fenced_step w e n
  | Replica, false => standby_step w me e n
  | Replica, true => n
  end.

Definition failover_tick w n : HaNode := foldl (entry_step w (my_identity w)) n (store n).

(** ** After a machine boot *)
Definition boot_step w n e : HaNode :=
  if bool_decide (role e ≠ Primary) || stale e || negb (autostart_managed e) then n else
  let c := container e in
  if subject_is_running (kind e) c n then n else
  match find_peer w c (λ v, active v || role_is "primary" v) (replicas e) with
  | Some p => (demote_local w c p n).2
  | None => (subject_start w (kind e) c n).2
  end.

Definition boot_guard w (recently_booted : bool) n : HaNode :=
  if recently_booted then foldl (boot_step w) n (store n) else n.
End Monitor.

(** ** Settings of automatic failover (src/src/api/mod.rs) *)
Definition wolfha_validate_auto (parses_as_ip : string → bool) (auto : bool) (witness : string)
    (failover_after_secs : Z) : res string (string * Z) :=
  let witness := trim witness in
  _ ← guard_err (auto && bool_decide (witness = "")) "automatic failover needs a witness IP";
  _ ← guard_err (auto && (negb (is_safe_name witness)
        || (negb (parses_as_ip witness) && negb (contains_char "."%char witness))))
      "does not look like a witness IP or hostname";
  mret (witness, if failover_after_secs =? 0 then 90 else Z.max failover_after_secs 30).
