(* ===== verification/HaFocus.v ===== *)
(** * WolfHA: one subject at a time

    A wake-up of the monitor treats every subject of a node.  The parts of the
    node that concern the subject [c] are compared by [agree c]; steps of other
    subjects leave them alone, so a wake-up is, for [c], the step of its own
    entry on a node that agrees with the one it began with. *)
From S2P Require Import Prelude Net Cluster HaStore HaMonitor.

(** Two nodes that cannot be told apart by looking at [c]. *)
Record agree (c : string) (n m : HaNode) : Prop := {
  ag_entry : get (store n) c = get (store m) c;
  ag_running b : (b, c) ∈ running n ↔ (b, c) ∈ running m;
  ag_witness : fail_since n !! ("witness:" +:+ c) = fail_since m !! ("witness:" +:+ c);
  ag_primary : fail_since n !! ("primary:" +:+ c) = fail_since m !! ("primary:" +:+ c)
}.

#[global] Instance agree_equiv c : Equivalence (agree c).
Proof.
  split.
  - by intros n; split.
  - intros n m []; split; [done|intros; symmetry; auto|done..].
  - intros n m o [H1 H2 H3 H4] [? H2' ??]; split; [congruence|intros b; by rewrite H2|congruence..].
Qed.

Definition names_kept (f : HaEntry → HaEntry) : Prop := ∀ e, container (f e) = container e.

Lemma get_Some s c e : get s c = Some e → e ∈ s ∧ container e = c.
Proof. intros [? Hc]%find_Some_elem. unfold named in Hc. by bool_props. Qed.

Lemma get_modify_eq s c f : names_kept f → get (modify s c f) c = f <$> get s c.
Proof.
  intros Hf. unfold get, modify. induction s as [|e s IH]; [done|]. cbn.
  destruct (named c e) eqn:Hn; cbn; [|by rewrite Hn].
  unfold named in *. by rewrite Hf, Hn.
Qed.

Lemma get_modify_ne s c d f : c ≠ d → names_kept f → get (modify s d f) c = get s c.
Proof.
  intros Hne Hf. unfold get, modify. induction s as [|e s IH]; [done|]. cbn.
  destruct (named d e) eqn:Hn; cbn; [|by destruct (named c e)].
  assert (named c (f e) = false ∧ named c e = false) as [-> ->]; [|done].
  unfold named in *. rewrite Hf. bool_props. split; apply bool_decide_eq_false; congruence.
Qed.

Lemma get_app_fresh s x c :
  get (s ++ [x]) c = match get s c with Some e => Some e | None => if named c x then Some x else None end.
Proof.
  unfold get. induction s as [|e s IH]; [done|]. cbn. by destruct (named c e).
Qed.

Lemma promoted_names w me : names_kept (promoted_entry w me).
Proof. done. Qed.
Lemma demoted_names p : names_kept (demoted_entry p).
Proof. intros e. unfold demoted_entry. cbn. by destruct (kind e). Qed.

Section Focus.
Context {O : HashOrder Node} (w : World) (c : string).
Implicit Types n m : HaNode.

Lemma agree_running_bool k n m : agree c n m → subject_is_running k c n = subject_is_running k c m.
Proof. intros [_ H _ _]. unfold subject_is_running. apply bool_decide_ext. by rewrite H. Qed.

Lemma alert_once_same d k n : agree d (alert_once k n) n.
Proof. unfold alert_once. by case_bool_decide. Qed.

(** ** Steps of another subject *)
Context (d : string) (Hne : c ≠ d).

Lemma key_ne pre pre' : (pre = "witness:" ∨ pre = "primary:") → (pre' = "witness:" ∨ pre' = "primary:") →
  pre +:+ d ≠ pre' +:+ c.
Proof using Hne. intros [-> | ->] [-> | ->] E; cbn in E; simplify_eq. Qed.

Lemma set_running_other k b n : agree c (set_running k d b n) n.
Proof using Hne.
  split; [done| |done..]. intros x. unfold set_running. cbn [running setter]. destruct b; set_solver.
Qed.
Lemma stop_other k n : agree c (subject_stop w k d n).2 n.
Proof using Hne. unfold subject_stop. destruct (w_stop w k d). apply set_running_other. Qed.
Lemma start_other k n : agree c (subject_start w k d n).2 n.
Proof using Hne. unfold subject_start. destruct (w_start w k d). apply set_running_other. Qed.

Lemma save_other s n : get s c = get (store n) c → agree c (save w s n).2 n.
Proof. unfold save. intros. destruct (w_save_ok w); by split. Qed.
Lemma save_modify_other f n : names_kept f → agree c (save w (modify (store n) d f) n).2 n.
Proof using Hne. intros. apply save_other. by apply get_modify_ne. Qed.

Lemma fail_elapsed_other pre failing n :
  pre = "witness:" ∨ pre = "primary:" → agree c (fail_elapsed w (pre +:+ d) failing n).2 n.
Proof using Hne.
  intros Hpre. pose proof (key_ne pre "witness:" Hpre ltac:(by left)).
  pose proof (key_ne pre "primary:" Hpre ltac:(by right)).
  unfold fail_elapsed. destruct failing; cbn [negb snd]; (split; [done|done|..]); cbn [fail_since setter];
    by rewrite ?lookup_insert_ne, ?lookup_delete_ne.
Qed.
End Focus.

Section Other.
Context {O : HashOrder Node} (w : World) (c d : string) (Hne : c ≠ d).
Implicit Types n m : HaNode.

Lemma dedupe_other n : agree c (dedupe_replicas w d n) n.
Proof using Hne.
  unfold dedupe_replicas. destruct (get (store n) d); [|done]. case_bool_decide; [|done].
  by apply save_modify_other.
Qed.

Lemma demote_other p n : agree c (demote_local w d p n).2 n.
Proof using Hne.
  unfold demote_local. set (k := match get (store n) d with Some e => kind e | None => Container end).
  assert (∃ ok n1, (if subject_is_running k d n then subject_stop w k d n else (true, n)) = (ok, n1) ∧
            agree c n1 n) as (ok & n1 & -> & H1).
  { destruct (subject_is_running k d n); [|by eexists _, _].
    destruct (subject_stop w k d n) as [ok n1] eqn:E. eexists _, _. split; [done|].
    change n1 with ((ok, n1).2). rewrite <-E. by apply stop_other. }
  destruct ok; cbn [negb snd]; [|done].
  set (n2 := if w_dir_exists w d then _ else n1).
  assert (H2 : agree c n2 n1) by (unfold n2; by destruct (w_dir_exists w d)).
  destruct (save w _ n2) as [saved n3] eqn:E. cbn [snd].
  assert (H3 : agree c n3 n2).
  { change n3 with ((saved, n3).2). rewrite <-E. apply save_other. destruct (get (store n2) d).
    - apply get_modify_ne; [done|apply demoted_names].
    - rewrite get_app_fresh. unfold named. cbn. rewrite bool_decide_false by congruence.
      by destruct (get (store n2) c). }
  by rewrite H3, H2.
Qed.

Lemma promote_other me n : agree c (promote_local w d me n).2 n.
Proof using Hne.
  unfold promote_local. destruct (get (store n) d) as [e|]; [|done]. destruct (_ && _); [done|].
  set (n1 := n <| markers := _ |>). assert (H1 : agree c n1 n) by done.
  destruct (save w _ n1) as [saved n2] eqn:E.
  assert (H2 : agree c n2 n1).
  { change n2 with ((saved, n2).2). rewrite <-E. by apply save_modify_other. }
  destruct saved; cbn [negb snd]; [|by rewrite H2].
  destruct (prepare _ _ _ _); cbn [snd]; [|by rewrite H2..].
  destruct (subject_start w (kind e) d n2) as [ok n3] eqn:E3. cbn [snd].
  transitivity n2; [|by rewrite H2].
  change n3 with ((ok, n3).2). rewrite <-E3. by apply start_other.
Qed.

Lemma take_over_other me e n : container e = d → agree c (take_over w me e n) n.
Proof using Hne.
  intros Hd. unfold take_over. rewrite Hd. pose proof (promote_other me n) as Hp.
  destruct (promote_local w d me n) as [r n1]. cbn [snd] in Hp.
  pose proof (fail_elapsed_other w c d Hne "primary:" false n1 (or_intror eq_refl)) as Hf.
  destruct (fail_elapsed _ _ _ n1) as [x n2]. cbn [snd] in Hf.
  rewrite <-Hp, <-Hf. done.
Qed.

Lemma fenced_step_other e n : container e = d → agree c (fenced_step w e n) n.
Proof using Hne.
  intros Hd.
  unfold fenced_step. rewrite Hd. destruct (negb _); [done|].
  destruct (probe_takeover w d (replicas e)) as [[p|] []]; try done.
  - transitivity (demote_local w d p n).2; [done|apply demote_other].
  - transitivity (demote_local w d p n).2; [done|apply demote_other].
  - destruct (auto_failover e); [|done].
    set (n1 := match get (store n) d with Some _ => _ | None => n end).
    assert (H1 : agree c n1 n)
      by (unfold n1; destruct (get (store n) d); [by apply save_modify_other|done]).
    pose proof (start_other w c d Hne (kind e) n1) as H2.
    destruct (subject_start w (kind e) d n1) as [ok n2]. cbn [snd] in H2.
    rewrite <-H1, <-H2. rewrite alert_once_same. done.
Qed.

Lemma fence_other e n : container e = d → agree c (fence w e n) n.
Proof using Hne.
  intros Hd.
  unfold fence. rewrite Hd.
  pose proof (stop_other w c d Hne (kind e) (alert_clear ("witnessdown:" +:+ d) n)) as H2.
  destruct (subject_stop _ _ _ _) as [ok n2]. cbn [snd] in H2.
  set (n3 := match get (store n2) d with Some _ => _ | None => n2 end).
  assert (H3 : agree c n3 n2)
    by (unfold n3; destruct (get (store n2) d); [by apply save_modify_other|done]).
  pose proof (fail_elapsed_other w c d Hne "witness:" false n3 (or_introl eq_refl)) as H4.
  destruct (fail_elapsed _ _ _ n3) as [y n4]. cbn [snd] in H4.
  rewrite alert_once_same, H4, H3, H2. done.
Qed.

Lemma primary_step_other e n : container e = d → agree c (primary_step w e n) n.
Proof using Hne.
  intros Hd.
  unfold primary_step. rewrite Hd. pose proof (dedupe_other n) as H0.
  set (n0 := dedupe_replicas w d n) in *. rewrite <-H0.
  destruct (negb (subject_is_running _ _ _)).
  { etrans; [apply fail_elapsed_other; [done|by left]|].
    destruct (find_peer _ _ _ _) as [p|]; [|done].
    transitivity (demote_local w d p n0).2; [apply alert_once_same|apply demote_other]. }
  destruct (_ || _); [done|].
  pose proof (fail_elapsed_other w c d Hne "witness:" (negb (ping_host w (witness e))) n0 (or_introl eq_refl)) as H1.
  destruct (fail_elapsed _ _ _ n0) as [x n1]. cbn [snd] in H1. rewrite <-H1.
  destruct (ping_host _ _); [done|]. destruct (_ <=? _); [|done].
  destruct (existsb _ _); [apply alert_once_same|].
  by apply fence_other.
Qed.

Lemma standby_step_other me e n : container e = d → agree c (standby_step w me e n) n.
Proof using Hne.
  intros Hd.
  unfold standby_step. destruct (primary e) as [p|]; [|done]. rewrite Hd.
  destruct (subject_is_running _ _ _).
  { destruct (peer_status _ _ _) as [v|]; [|done]. destruct (active v); [|done].
    rewrite alert_once_same. apply stop_other. done. }
  destruct (negb _); [done|].
  pose proof (fail_elapsed_other w c d Hne "primary:" (bool_decide (peer_status w p d = None))
    (alert_clear ("dup:" +:+ d) n) (or_intror eq_refl)) as H1.
  destruct (fail_elapsed _ _ _ _) as [x n1]. cbn [snd] in H1.
  assert (H1' : agree c n1 n) by (rewrite H1; done).
  destruct (peer_status _ _ _); [by transitivity n1|]. destruct (_ <? _); [done|].
  unfold standby_gates. rewrite Hd.
  destruct (negb _); [done|]. destruct (cluster_sees _ _); [by rewrite alert_once_same|].
  destruct (match me with Some _ => _ | None => _ end); [done|].
  destruct (too_old _ _); [by rewrite alert_once_same|].
  destruct (answers_on_bridge _ _); [done|]. rewrite <-H1'. by apply take_over_other.
Qed.

Lemma entry_step_other me e n : container e = d → agree c (entry_step w me n e) n.
Proof using Hne.
  intros Hd. unfold entry_step. destruct (role e), (stale e); try done;
    by auto using fenced_step_other, primary_step_other, standby_step_other.
Qed.
End Other.

(** ** The set of names is fixed *)
Section Names.
Context {O : HashOrder Node} (w : World).
Implicit Types (n m : HaNode) (s : HaStore).

Definition names n : list string := container <$> store n.

Lemma modify_names s c f : names_kept f → container <$> modify s c f = container <$> s.
Proof. intros Hf. apply update_first_map. intros. apply Hf. Qed.

Lemma save_names s n : container <$> s = names n → names (save w s n).2 = names n.
Proof. unfold save. by destruct (w_save_ok w). Qed.

Lemma get_named n c : c ∈ names n → is_Some (get (store n) c).
Proof.
  intros (e & -> & He)%list_elem_of_fmap. destruct (get (store n) (container e)) as [x|] eqn:E; [by eexists|].
  apply find_None_Forall in E. rewrite Forall_forall in E. apply E in He. unfold named in He. by bool_props.
Qed.

Lemma fail_elapsed_names k b n : names (fail_elapsed w k b n).2 = names n.
Proof. unfold fail_elapsed. by destruct b. Qed.
Lemma alert_once_names k n : names (alert_once k n) = names n.
Proof. unfold alert_once. by case_bool_decide. Qed.
Lemma start_names k c n : names (subject_start w k c n).2 = names n.
Proof. unfold subject_start. by destruct (w_start w k c). Qed.
Lemma stop_names k c n : names (subject_stop w k c n).2 = names n.
Proof. unfold subject_stop. by destruct (w_stop w k c). Qed.

Lemma dedupe_names c n : names (dedupe_replicas w c n) = names n.
Proof.
  unfold dedupe_replicas. destruct (get (store n) c); [|done]. case_bool_decide; [|done].
  apply save_names. by apply modify_names.
Qed.

Lemma demote_names c p n : c ∈ names n → names (demote_local w c p n).2 = names n.
Proof.
  intros Hc. unfold demote_local. set (k := match get (store n) c with Some e => kind e | None => Container end).
  assert (∃ ok n1, (if subject_is_running k c n then subject_stop w k c n else (true, n)) = (ok, n1) ∧
            store n1 = store n) as (ok & n1 & -> & H1).
  { destruct (subject_is_running k c n); [|by eexists _, _]. unfold subject_stop.
    destruct (w_stop w k c). by eexists _, _. }
  destruct ok; cbn [negb snd]; [|unfold names; by rewrite H1].
  set (n2 := if w_dir_exists w c then _ else n1).
  assert (H2 : store n2 = store n) by (rewrite <-H1; unfold n2; by destruct (w_dir_exists w c)).
  rewrite H2. destruct (get_named n c Hc) as [e ->].
  set (s := modify _ _ _). destruct (save w s n2) as [saved n3] eqn:E. cbn [snd].
  change n3 with ((saved, n3).2). rewrite <-E.
  assert (names n2 = names n) as Hn by (unfold names; by rewrite H2).
  rewrite <-Hn. apply save_names. rewrite Hn. apply modify_names, demoted_names.
Qed.

Lemma promote_names c me n : names (promote_local w c me n).2 = names n.
Proof.
  unfold promote_local. destruct (get (store n) c) as [e|]; [|done]. destruct (_ && _); [done|].
  set (n1 := n <| markers := _ |>). set (s := modify _ _ _).
  assert (Hs : names (save w s n1).2 = names n).
  { change (names n) with (names n1). apply save_names. apply modify_names, promoted_names. }
  destruct (save w s n1) as [saved n2]. cbn [snd] in Hs.
  destruct saved; cbn [negb snd]; [|done]. destruct (prepare _ _ _ _); cbn [snd]; [|done..].
  pose proof (start_names (kind e) c n2) as H3. destruct (subject_start _ _ _ _). cbn [snd] in *. congruence.
Qed.

Lemma mark_names c f n : names_kept f →
  names (match get (store n) c with Some _ => (save w (modify (store n) c f) n).2 | None => n end) = names n.
Proof. intros. destruct (get (store n) c); [|done]. by apply save_names, modify_names. Qed.

Lemma fence_names e n : names (fence w e n) = names n.
Proof.
  unfold fence. pose proof (stop_names (kind e) (container e) (alert_clear ("witnessdown:" +:+ container e) n)) as H2.
  destruct (subject_stop _ _ _ _) as [ok n2]. cbn [snd] in H2.
  set (n3 := match get (store n2) _ with Some _ => _ | None => n2 end).
  assert (H3 : names n3 = names n2) by by apply mark_names.
  pose proof (fail_elapsed_names ("witness:" +:+ container e) false n3) as H4.
  destruct (fail_elapsed _ _ _ n3) as [y n4]. cbn [snd] in H4.
  rewrite alert_once_names, H4, H3, H2. done.
Qed.

Lemma primary_step_names e n : container e ∈ names n → names (primary_step w e n) = names n.
Proof.
  intros Hc. unfold primary_step. pose proof (dedupe_names (container e) n) as H0.
  set (n0 := dedupe_replicas _ _ n) in *. rewrite <-H0 in *. destruct (negb (subject_is_running _ _ _)).
  { rewrite fail_elapsed_names. destruct (find_peer _ _ _ _); [|done].
    rewrite alert_once_names. by apply demote_names. }
  destruct (_ || _); [done|].
  pose proof (fail_elapsed_names ("witness:" +:+ container e) (negb (ping_host w (witness e))) n0) as H1.
  destruct (fail_elapsed _ _ _ n0) as [x n1]. cbn [snd] in H1. rewrite <-H1.
  destruct (ping_host _ _); [done|]. destruct (_ <=? _); [|done].
  destruct (existsb _ _); [apply alert_once_names|apply fence_names].
Qed.

Lemma fenced_step_names e n : container e ∈ names n → names (fenced_step w e n) = names n.
Proof.
  intros Hc. unfold fenced_step. destruct (negb _); [done|].
  destruct (probe_takeover _ _ _) as [[p|] []]; [by apply demote_names..| |done].
  destruct (auto_failover e); [|done].
  set (n1 := match get (store n) _ with Some _ => _ | None => n end).
  assert (H1 : names n1 = names n) by by apply mark_names.
  pose proof (start_names (kind e) (container e) n1) as H2.
  destruct (subject_start _ _ _ _) as [ok n2]. cbn [snd] in H2.
  rewrite alert_once_names, <-H1, <-H2. done.
Qed.

Lemma take_over_names me e n : names (take_over w me e n) = names n.
Proof.
  unfold take_over. pose proof (promote_names (container e) me n) as H1.
  destruct (promote_local _ _ _ _) as [r n1]. cbn [snd] in H1.
  pose proof (fail_elapsed_names ("primary:" +:+ container e) false n1) as H2.
  destruct (fail_elapsed _ _ _ _) as [x n2]. cbn [snd] in H2. rewrite <-H1, <-H2. done.
Qed.

Lemma standby_step_names me e n : names (standby_step w me e n) = names n.
Proof.
  unfold standby_step. destruct (primary e) as [p|]; [|done]. destruct (subject_is_running _ _ _).
  { destruct (peer_status _ _ _) as [v|]; [|done]. destruct (active v); [|done].
    by rewrite alert_once_names, stop_names. }
  destruct (negb _); [done|].
  pose proof (fail_elapsed_names ("primary:" +:+ container e) (bool_decide (peer_status w p (container e) = None))
    (alert_clear ("dup:" +:+ container e) n)) as H1.
  destruct (fail_elapsed _ _ _ _) as [x n1]. cbn [snd] in H1.
  assert (H1' : names n1 = names n) by (rewrite H1; done). rewrite <-H1'.
  destruct (peer_status _ _ _); [done|]. destruct (_ <? _); [done|]. unfold standby_gates.
  destruct (negb _); [done|]. destruct (cluster_sees _ _); [by rewrite alert_once_names|].
  destruct (match me with Some _ => _ | None => _ end); [done|].
  destruct (too_old _ _); [by rewrite alert_once_names|].
  destruct (answers_on_bridge _ _); [done|]. apply take_over_names.
Qed.

Lemma tick_names n : names (failover_tick w n) = names n.
Proof.
  unfold failover_tick. assert (H : ∀ s m, container <$> s ⊆ names n → names m = names n →
    names (foldl (entry_step w (my_identity w)) m s) = names n).
  { induction s as [|e s IH]; intros m Hs Hm; cbn [foldl]; [done|]. rewrite fmap_cons in Hs.
    apply IH; [set_solver|]. assert (container e ∈ names m) by (rewrite Hm; set_solver).
    unfold entry_step. rewrite <-Hm. destruct (role e), (stale e); auto using fenced_step_names,
      primary_step_names, standby_step_names. }
  by apply H.
Qed.
End Names.

(** ** A wake-up, seen by one subject *)
Section Tick.
Context {O : HashOrder Node} (w : World).
Implicit Types (n m : HaNode) (s : HaStore).

Definition unique_names s : Prop := NoDup (container <$> s).

Lemma steps_other me c s n :
  c ∉ container <$> s → agree c (foldl (entry_step w me) n s) n.
Proof.
  revert n. induction s as [|e s IH]; intros n Hc; cbn [foldl]; [done|].
  rewrite fmap_cons, not_elem_of_cons in Hc. destruct Hc as [Hne Hc].
  rewrite IH by done. by apply (entry_step_other w c (container e) Hne).
Qed.

Lemma get_split s c e :
  unique_names s → get s c = Some e →
  ∃ s1 s2, s = s1 ++ e :: s2 ∧ (c ∉ container <$> s1) ∧ (c ∉ container <$> s2).
Proof.
  intros Hn [Hin <-]%get_Some. apply list_elem_of_split in Hin as (s1 & s2 & ->).
  exists s1, s2. split; [done|]. unfold unique_names in Hn. rewrite fmap_app, fmap_cons in Hn.
  apply NoDup_app in Hn as (_ & Hd & [Hc _]%NoDup_cons). split; [|done].
  intros H. apply (Hd _ H). by left.
Qed.

Lemma tick_at c e n :
  unique_names (store n) → get (store n) c = Some e →
  ∃ m, agree c m n ∧ agree c (failover_tick w n) (entry_step w (my_identity w) m e).
Proof.
  intros Hn He. destruct (get_split _ _ _ Hn He) as (s1 & s2 & Hs & H1 & H2).
  unfold failover_tick. rewrite Hs, foldl_app. cbn [foldl].
  exists (foldl (entry_step w (my_identity w)) n s1). split; by apply steps_other.
Qed.

Lemma tick_unique n : unique_names (store n) → unique_names (store (failover_tick w n)).
Proof. unfold unique_names. change (container <$> store (failover_tick w n)) with (names (failover_tick w n)). by rewrite tick_names. Qed.
End Tick.

(** Successive wake-ups. *)
Definition wake_ups {O : HashOrder Node} (ws : list World) (n : HaNode) : HaNode :=
  foldl (λ n w, failover_tick w n) n ws.
