(* ===== verification/HaTiming.v ===== *)
(** * WolfHA: when copies start and stop

    What one wake-up does to a primary's and to a standby's copy, lifted to
    runs of wake-ups: an isolated primary is stopped in time, a standby takes
    over only through the gates and only after the whole window, and with
    enough margin between the two a clean partition never has two copies
    running. *)
From S2P Require Import Prelude Net Cluster HaStore HaMonitor HaFocus.

Section Steps.
Context {O : HashOrder Node}.
Implicit Types (w : World) (n m : HaNode) (e : HaEntry).

(** ** Clocks *)
Definition started w (key : string) n : Z := default (w_instant w) (fail_since n !! key).
Definition waited w (key : string) n : Z := since (w_instant w) (started w key n) / SEC.

Lemma fail_elapsed_failing w key n :
  fail_elapsed w key true n =
    (waited w key n, n <| fail_since := <[key := started w key n]> (fail_since n) |>).
Proof. done. Qed.

Lemma waited_le w key n d s :
  fail_since n !! key = Some s → s + d * SEC ≤ w_instant w → d ≤ waited w key n.
Proof.
  intros Hs Hd. unfold waited, started. rewrite Hs. cbn. unfold since.
  apply Z.div_le_lower_bound; [done|]. unfold SEC in *. lia.
Qed.

Lemma waited_ge w key n d s :
  0 < d → fail_since n !! key = Some s → d ≤ waited w key n → s + d * SEC ≤ w_instant w.
Proof.
  intros Hd Hs. unfold waited, started. rewrite Hs. cbn. unfold since. intros Hw.
  assert (d * SEC ≤ Z.max 0 (w_instant w - s)); [|unfold SEC in *; lia].
  transitivity (SEC * (Z.max 0 (w_instant w - s) / SEC)); [unfold SEC in *; lia|].
  by apply Z.mul_div_le.
Qed.

Lemma waited_none w key n : fail_since n !! key = None → waited w key n = 0.
Proof. intros H. unfold waited, started. rewrite H. cbn. unfold since. by rewrite Z.sub_diag. Qed.

(** ** The primary's copy *)

(** The subject of [e0] is the active, running primary here, with the settings
    of [e0]; its replica set may have lost duplicates. *)
Definition active_copy e0 n : Prop :=
  ∃ e, get (store n) (container e0) = Some e ∧ role e = Primary ∧ stale e = false ∧
    kind e = kind e0 ∧ auto_failover e = auto_failover e0 ∧ witness e = witness e0 ∧
    failover_after_secs e = failover_after_secs e0 ∧ replicas e ⊆ replicas e0 ∧
    (is_vm (kind e0), container e0) ∈ running n.

(** It has been fenced: stopped, and marked stale. *)
Definition fenced_copy e0 n : Prop :=
  ∃ e, get (store n) (container e0) = Some e ∧ role e = Primary ∧ stale e = true ∧
    witness e = witness e0 ∧ (is_vm (kind e0), container e0) ∉ running n.

(** At [w] the node of [e0] reaches neither the witness nor a replica; stopping
    the subject and writing the store work. *)
Record isolated e0 w : Prop := {
  iso_witness : w_ping w (witness e0) = false;
  iso_replicas p : p ∈ replicas e0 → peer_status w p (container e0) = None;
  iso_stop : (w_stop w (kind e0) (container e0)).2 = false;
  iso_save : w_save_ok w = true
}.

Lemma active_agree e0 n m : agree (container e0) n m → active_copy e0 n → active_copy e0 m.
Proof. intros [He Hr _ _] (e & ? & ?). exists e. rewrite <-He. setoid_rewrite <-Hr. done. Qed.
Lemma fenced_agree e0 n m : agree (container e0) n m → fenced_copy e0 n → fenced_copy e0 m.
Proof. intros [He Hr _ _] (e & ? & ?). exists e. rewrite <-He. setoid_rewrite <-Hr. done. Qed.

Lemma dedupe_kept w seen kept ps :
  (foldl (dedupe_step w) (seen, kept) ps).2 ⊆ kept ++ ps.
Proof.
  revert seen kept. induction ps as [|p ps IH]; intros seen kept; cbn [foldl]; [set_solver|].
  unfold dedupe_step at 2. case_bool_decide; (etrans; [apply IH|]); set_solver.
Qed.

Lemma dedupe_active w e0 n : active_copy e0 n → active_copy e0 (dedupe_replicas w (container e0) n).
Proof.
  intros Ha. pose proof Ha as (e & He & H1 & H2 & H3 & H4 & H5 & H6 & H7 & H8).
  unfold dedupe_replicas. rewrite He. case_bool_decide; [|done]. unfold save.
  destruct (w_save_ok w); [|done]. cbn [snd].
  exists (e <| replicas := (foldl (dedupe_step w) (∅, []) (replicas e)).2 |>). split_and!; try done.
  - cbn [store setter]. rewrite get_modify_eq, He; done.
  - cbn [replicas setter]. etrans; [apply dedupe_kept|]. done.
Qed.

Lemma dedupe_clock w c n : fail_since (dedupe_replicas w c n) = fail_since n.
Proof.
  unfold dedupe_replicas. destruct (get _ _); [|done]. case_bool_decide; [|done].
  unfold save. by destruct (w_save_ok w).
Qed.

Lemma no_replica_answers w e0 e :
  isolated e0 w → replicas e ⊆ replicas e0 → existsb (reachable w (container e0)) (replicas e) = false.
Proof.
  intros Hi Hs. apply existsb_Forall, Forall_forall. intros p Hp. unfold reachable.
  rewrite (iso_replicas _ _ Hi p) by by apply Hs. by rewrite bool_decide_false by (intros Hx; by apply Hx).
Qed.

Lemma fence_stops w e0 e n :
  isolated e0 w → container e = container e0 → kind e = kind e0 → active_copy e0 n →
  fenced_copy e0 (fence w e n).
Proof.
  intros Hi Hc Hk (e' & He & H1 & H2 & H3 & H4 & H5 & H6 & H7 & H8). unfold fence. rewrite Hc, Hk.
  unfold subject_stop. pose proof (iso_stop _ _ Hi) as Hs.
  destruct (w_stop w (kind e0) (container e0)) as [ok up]. cbn [snd] in Hs. subst up.
  cbn [store alert_clear set_running setter]. rewrite He. unfold save. rewrite (iso_save _ _ Hi).
  cbn [fail_elapsed negb snd]. eapply fenced_agree; [symmetry; apply alert_once_same|].
  exists (e' <| stale := true |>). cbn [store running setter set_running alert_clear fail_since].
  split_and!; try done; [by rewrite get_modify_eq, He|]. set_solver.
Qed.

(** One wake-up of an isolated primary. *)
Lemma isolated_step w e0 me e n :
  isolated e0 w → auto_failover e0 = true → witness e0 ≠ "" →
  get (store n) (container e0) = Some e → active_copy e0 n →
  let key := "witness:" +:+ container e0 in
  if fence_secs (failover_after_secs e0) <=? waited w key n then fenced_copy e0 (entry_step w me n e)
  else active_copy e0 (entry_step w me n e) ∧ fail_since (entry_step w me n e) !! key = Some (started w key n).
Proof.
  intros Hi Hauto Hwit He Ha key.
  assert (Hc : container e = container e0) by (by apply get_Some in He as [_ ?]).
  pose proof Ha as (e' & He' & H1 & H2 & H3 & H4 & H5 & H6 & H7 & H8).
  rewrite He in He'. injection He' as <-. unfold entry_step. rewrite H1, H2. unfold primary_step. rewrite Hc.
  pose proof (dedupe_active w e0 n Ha) as Ha0. pose proof (dedupe_clock w (container e0) n) as Hclk.
  set (n0 := dedupe_replicas w (container e0) n) in *.
  assert (Hrun : subject_is_running (kind e) (container e0) n0 = true).
  { unfold subject_is_running. rewrite H3. apply bool_decide_eq_true. destruct Ha0 as (x & _ & _ & _ & _ & _ & _ & _ & _ & Hx). exact Hx. }
  rewrite Hrun, H4, Hauto, H5, H6. rewrite (bool_decide_false (witness e0 = "")) by done. cbn [negb orb].
  unfold ping_host. rewrite (bool_decide_false (witness e0 = "")) by done. rewrite (iso_witness _ _ Hi).
  cbn [negb]. rewrite fail_elapsed_failing. fold key.
  assert (waited w key n0 = waited w key n ∧ started w key n0 = started w key n) as [-> ->]
    by (unfold waited, started; by rewrite Hclk).
  set (n1 := n0 <| fail_since := _ |>).
  assert (Ha1 : active_copy e0 n1) by (destruct Ha0 as (x & Hx); by exists x).
  destruct (_ <=? _).
  - rewrite (no_replica_answers w e0 e Hi H7). by apply fence_stops.
  - split; [done|]. unfold n1. cbn [fail_since setter]. apply lookup_insert_eq.
Qed.

(** A fenced copy stays as it is while the witness is down. *)
Lemma fenced_stays w e0 me e n :
  isolated e0 w → witness e0 ≠ "" → get (store n) (container e0) = Some e → fenced_copy e0 n →
  fenced_copy e0 (entry_step w me n e).
Proof.
  intros Hi Hw He Hf. pose proof Hf as (e' & He' & H1 & H2 & H3 & H4).
  rewrite He in He'. injection He' as <-. unfold entry_step. rewrite H1, H2. unfold fenced_step, ping_host.
  rewrite H3, bool_decide_false by done. by rewrite (iso_witness _ _ Hi).
Qed.
End Steps.

(** ** Runs of an isolated primary *)
Section Isolation.
Context {O : HashOrder Node} (e0 : HaEntry).
Context (Hauto : auto_failover e0 = true) (Hwit : witness e0 ≠ "").
Implicit Types (w : World) (n : HaNode).
Let key := "witness:" +:+ container e0.

Lemma isolated_tick w n :
  isolated e0 w → unique_names (store n) → active_copy e0 n →
  let n' := failover_tick w n in
  if fence_secs (failover_after_secs e0) <=? waited w key n then fenced_copy e0 n'
  else active_copy e0 n' ∧ fail_since n' !! key = Some (started w key n).
Proof using Hauto Hwit.
  intros Hi Hn Ha. pose proof Ha as (e & He & _).
  destruct (tick_at w _ _ _ Hn He) as (m & Hm & Ht).
  assert (Ham : active_copy e0 m) by (eapply active_agree; [symmetry; exact Hm|done]).
  assert (Hem : get (store m) (container e0) = Some e) by by rewrite (ag_entry _ _ _ Hm).
  pose proof (isolated_step w e0 (my_identity w) e m Hi Hauto Hwit Hem Ham) as Hs. cbv zeta in Hs |- *.
  fold key in Hs. assert (waited w key m = waited w key n ∧ started w key m = started w key n) as [E1 E2]
    by (unfold waited, started, key; by rewrite (ag_witness _ _ _ Hm)).
  rewrite E1, E2 in Hs. destruct (_ <=? _).
  - eapply fenced_agree; [symmetry; exact Ht|done].
  - destruct Hs as [Hs1 Hs2]. split; [eapply active_agree; [symmetry; exact Ht|done]|].
    unfold key. by rewrite (ag_witness _ _ _ Ht).
Qed.

Lemma fenced_tick w n :
  isolated e0 w → unique_names (store n) → fenced_copy e0 n → fenced_copy e0 (failover_tick w n).
Proof using Hwit.
  intros Hi Hn Hf. pose proof Hf as (e & He & _).
  destruct (tick_at w _ _ _ Hn He) as (m & Hm & Ht).
  eapply fenced_agree; [symmetry; exact Ht|]. apply fenced_stays; try done.
  - by rewrite (ag_entry _ _ _ Hm).
  - eapply fenced_agree; [symmetry; exact Hm|done].
Qed.

Lemma isolated_run t ws n :
  Forall (isolated e0) ws → Forall (λ w, t ≤ w_instant w) ws → unique_names (store n) →
  (fenced_copy e0 n ∨ active_copy e0 n ∧ ∃ s, fail_since n !! key = Some s ∧ s ≤ t) →
  unique_names (store (wake_ups ws n)) ∧
  (fenced_copy e0 (wake_ups ws n) ∨
   active_copy e0 (wake_ups ws n) ∧ ∃ s, fail_since (wake_ups ws n) !! key = Some s ∧ s ≤ t).
Proof using Hauto Hwit.
  intros Hi Ht. revert n. induction ws as [|w ws IH]; intros n Hn Hc; [done|].
  apply Forall_cons in Hi as [Hiw Hi]. apply Forall_cons in Ht as [Htw Ht].
  cbn [wake_ups foldl]. apply IH; [done|done|by apply tick_unique|].
  destruct Hc as [Hf|(Ha & s & Hs & Hst)]; [left; by apply fenced_tick|].
  pose proof (isolated_tick w n Hiw Hn Ha) as H. cbv zeta in H. destruct (_ <=? _); [by left|].
  right. destruct H as [H1 H2]. split; [done|]. exists s. split; [|done].
  rewrite H2. unfold started. by rewrite Hs.
Qed.

(** C2: Self-fencing: a primary that reaches neither its witness nor any
    replica is stopped and marked stale no later than the first wake-up that
    comes the fence time (half the window, at least 30 seconds) after the
    isolation was first seen, and stays so while the isolation lasts. *)
Theorem isolated_primary_fences n w1 ws w later :
  unique_names (store n) → active_copy e0 n →
  (∀ s, fail_since n !! ("witness:" +:+ container e0) = Some s → s ≤ w_instant w1) →
  Forall (isolated e0) (w1 :: ws ++ w :: later) → Forall (λ v, w_instant w1 ≤ w_instant v) ws →
  w_instant w1 + fence_secs (failover_after_secs e0) * SEC ≤ w_instant w →
  fenced_copy e0 (wake_ups (w1 :: ws ++ w :: later) n).
Proof using Hauto Hwit.
  intros Hn Ha Hclk Hi Hts Hlast. fold key in Hclk. apply Forall_cons in Hi as [Hi1 Hi].
  apply Forall_app in Hi as [His [Hiw Hil]%Forall_cons].
  unfold wake_ups. cbn [foldl]. rewrite foldl_app. cbn [foldl].
  assert (Hstay : ∀ n, unique_names (store n) → fenced_copy e0 n → fenced_copy e0 (wake_ups later n)).
  { clear -Hil Hwit key. induction later as [|v vs IH]; intros n Hn Hf; [done|]. cbn [wake_ups foldl].
    apply Forall_cons in Hil as [??]. apply IH; [done|by apply tick_unique|by apply fenced_tick]. }
  assert (H1 : fenced_copy e0 (failover_tick w1 n) ∨ active_copy e0 (failover_tick w1 n) ∧
            ∃ s, fail_since (failover_tick w1 n) !! key = Some s ∧ s ≤ w_instant w1).
  { pose proof (isolated_tick w1 n Hi1 Hn Ha) as H. cbv zeta in H. destruct (_ <=? _); [by left|].
    right. destruct H as [H2 H3]. split; [done|]. eexists. split; [exact H3|]. unfold started.
    destruct (fail_since n !! key) as [s|] eqn:E; [by apply Hclk|done]. }
  destruct (isolated_run (w_instant w1) ws _ His Hts (tick_unique w1 n Hn) H1) as [Hn2 H2].
  fold (wake_ups later (failover_tick w (wake_ups ws (failover_tick w1 n)))).
  apply Hstay; [by apply tick_unique|].
  destruct H2 as [Hf|(Ha2 & s & Hs & Hle)]; [by apply fenced_tick|].
  pose proof (isolated_tick w _ Hiw Hn2 Ha2) as H. cbv zeta in H.
  assert (fence_secs (failover_after_secs e0) ≤ waited w key (wake_ups ws (failover_tick w1 n))) as Hw.
  { eapply waited_le; [exact Hs|]. lia. }
  apply Z.leb_le in Hw. by rewrite Hw in H.
Qed.
End Isolation.

(** ** The standby's copy *)
Section Standby.
Context {O : HashOrder Node}.
Implicit Types (w : World) (n m : HaNode) (e : HaEntry).

Definition untouched e n : Prop :=
  get (store n) (container e) = Some e ∧ (is_vm (kind e), container e) ∉ running n.

(** Every gate is open at [w] for the standby [e] of primary [p]. *)
Record gates_open w (me : option HaPeer) e (p : HaPeer) : Prop := {
  gate_unreachable : peer_status w p (container e) = None;
  gate_witness : witness e ≠ "" ∧ w_ping w (witness e) = true;
  gate_cluster : cluster_sees w p = false;
  gate_priority (q : HaPeer) : me = Some q → defers w (container e) (p_node_id q) (p_node_id p) (replicas e) = false;
  gate_fresh : sat_sub (w_now w) (last_delta_at e) ≤ max_age e;
  gate_bridge ip : w_static_ip w (kind e) (container e) = Some ip → ip = "" ∨ w_ping w ip = false
}.

Lemma untouched_agree e n m : agree (container e) n m → untouched e n → untouched e m.
Proof. intros [He Hr _ _] [??]. split; [by rewrite <-He|by rewrite <-Hr]. Qed.

Lemma ping_host_true w h : ping_host w h = true ↔ h ≠ "" ∧ w_ping w h = true.
Proof. unfold ping_host. case_bool_decide; naive_solver. Qed.

(** Up to the gates nothing but the failure clock changes. *)
Lemma standby_gates_cases w me e p n :
  peer_status w p (container e) = None →
  (untouched e n → untouched e (standby_gates w me e p n) ∧
     fail_since (standby_gates w me e p n) = fail_since n) ∨ gates_open w me e p.
Proof.
  intros Hun. unfold standby_gates.
  assert (Halert : ∀ k, untouched e n → untouched e (alert_once k n) ∧ fail_since (alert_once k n) = fail_since n).
  { intros k Hu. split; [eapply untouched_agree; [symmetry; apply alert_once_same|done]|].
    unfold alert_once. by case_bool_decide. }
  destruct (negb _) eqn:Hw; [by left|]. destruct (cluster_sees w p) eqn:Hcl; [left; apply Halert|].
  destruct (match me with Some _ => _ | None => _ end) eqn:Hd; [by left|].
  destruct (too_old w e) eqn:Ho; [left; apply Halert|].
  destruct (answers_on_bridge w e) eqn:Hb; [by left|]. right. split; [done| |done|..].
  - apply negb_false_iff in Hw. case_bool_decide; [done|]. by apply ping_host_true.
  - intros x ->. done.
  - unfold too_old in Ho. bool_props. lia.
  - intros ip Hip. unfold answers_on_bridge in Hb. rewrite Hip in Hb. unfold ping_host in Hb.
    case_bool_decide; auto.
Qed.

(** One wake-up of a standby that is not running. *)
Lemma standby_wake w e p n :
  role e = Replica → stale e = false → auto_failover e = true → primary e = Some p →
  unique_names (store n) → untouched e n →
  let key := "primary:" +:+ container e in
  let n' := failover_tick w n in
  match peer_status w p (container e) with
  | Some _ => untouched e n' ∧ fail_since n' !! key = None
  | None =>
      (untouched e n' ∧ fail_since n' !! key = Some (started w key n)) ∨
      (gates_open w (my_identity w) e p ∧ failover_after_secs e ≤ waited w key n)
  end.
Proof.
  intros Hrole Hstale Hauto Hp Hn Hu key n'. pose proof Hu as [He _].
  destruct (tick_at w _ _ _ Hn He) as (m & Hm & Ht). fold n' in Ht.
  assert (Hum : untouched e m) by (eapply untouched_agree; [symmetry; exact Hm|done]).
  assert (waited w key m = waited w key n ∧ started w key m = started w key n) as [Ew Es]
    by (unfold waited, started, key; by rewrite (ag_primary _ _ _ Hm)).
  unfold entry_step in Ht. rewrite Hrole, Hstale in Ht. unfold standby_step in Ht. rewrite Hp in Ht.
  assert (Hnr : subject_is_running (kind e) (container e) m = false)
    by (apply bool_decide_eq_false; by destruct Hum).
  rewrite Hnr, Hauto in Ht. cbn [negb] in Ht. fold key in Ht.
  assert (Hback : ∀ x, agree (container e) n' x → untouched e x →
            untouched e n' ∧ fail_since n' !! key = fail_since x !! key).
  { intros x Hx Hux. split; [eapply untouched_agree; [symmetry; exact Hx|done]|]. apply (ag_primary _ _ _ Hx). }
  destruct (peer_status w p (container e)) as [v|] eqn:Hst.
  - rewrite bool_decide_false in Ht by done. cbn [fail_elapsed negb] in Ht.
    apply Hback in Ht as [H1 H2]; [|by destruct Hum]. split; [done|]. rewrite H2.
    cbn [fail_since alert_clear setter]. apply lookup_delete_eq.
  - rewrite bool_decide_true in Ht by done. rewrite fail_elapsed_failing in Ht.
    assert (Hwm : waited w key (alert_clear ("dup:" +:+ container e) m) = waited w key n ∧
                  started w key (alert_clear ("dup:" +:+ container e) m) = started w key n) by done.
    destruct Hwm as [Hwm Hsm]. rewrite Hwm, Hsm in Ht.
    set (m1 := _ <| fail_since := _ |>) in Ht.
    assert (Hum1 : untouched e m1) by by destruct Hum.
    assert (Hm1 : fail_since m1 !! key = Some (started w key n)) by apply lookup_insert_eq.
    destruct (_ <? _) eqn:Hlt.
    + left. apply Hback in Ht as [H1 H2]; [|done]. by rewrite H2.
    + apply Z.ltb_ge in Hlt. destruct (standby_gates_cases w (my_identity w) e p m1 Hst) as [H|H]; [|by right].
      left. destruct (H Hum1) as [H1 H2]. apply Hback in Ht as [H3 H4]; [|done]. by rewrite H4, H2.
Qed.

Section Waits.
Context (e : HaEntry) (p : HaPeer).
Context (Hrole : role e = Replica) (Hstale : stale e = false) (Hauto : auto_failover e = true)
  (Hp : primary e = Some p) (Hwin : 0 < failover_after_secs e).
Let key := "primary:" +:+ container e.

Lemma standby_run t ws n :
  unique_names (store n) → untouched e n →
  (∀ s, fail_since n !! key = Some s → t ≤ s) → Forall (λ w, t ≤ w_instant w) ws →
  untouched e (wake_ups ws n) ∨
  ∃ w, w ∈ ws ∧ t + failover_after_secs e * SEC ≤ w_instant w ∧ gates_open w (my_identity w) e p.
Proof using All.
  revert n. induction ws as [|w ws IH]; intros n Hn Hu Hclk Ht; [by left|].
  apply Forall_cons in Ht as [Htw Ht]. cbn [wake_ups foldl].
  pose proof (standby_wake w e p n Hrole Hstale Hauto Hp Hn Hu) as H. cbv zeta in H. fold key in H.
  assert (Hnext : untouched e (failover_tick w n) →
    (∀ s, fail_since (failover_tick w n) !! key = Some s → t ≤ s) →
    untouched e (foldl (λ n w, failover_tick w n) (failover_tick w n) ws) ∨
    ∃ w', w' ∈ w :: ws ∧ t + failover_after_secs e * SEC ≤ w_instant w' ∧ gates_open w' (my_identity w') e p).
  { intros Hu' Hc'. destruct (IH _ (tick_unique w n Hn) Hu' Hc' Ht) as [?|(w' & ? & ?)]; [by left|].
    right. exists w'. split; [by right|done]. }
  destruct (peer_status w p (container e)) as [v|].
  - destruct H as [H1 H2]. apply Hnext; [done|]. intros s. by rewrite H2.
  - destruct H as [[H1 H2]|[Hg Hw]].
    + apply Hnext; [done|]. rewrite H2. intros ? [= <-]. unfold started.
      destruct (fail_since n !! key) as [s|] eqn:E; [by apply Hclk|done].
    + right. exists w. split; [by left|]. split; [|done].
      destruct (fail_since n !! key) as [s|] eqn:E.
      * apply (waited_ge w key n _ s Hwin E) in Hw. pose proof (Hclk _ eq_refl). lia.
      * rewrite waited_none in Hw by done. lia.
Qed.

(** A standby waits out the whole window: after a wake-up [w0] at which it
    reached the primary, nothing happens to its copy unless some later
    wake-up, at least [failover_after_secs] later, finds every gate open
    (primary unreachable, witness reachable, the cluster not seeing the
    primary's node, no healthier standby first in line, a fresh copy, and
    nothing answering at the subject's address). *)
Theorem standby_waits w0 v ws n :
  unique_names (store n) → untouched e n →
  peer_status w0 p (container e) = Some v → Forall (λ w, w_instant w0 ≤ w_instant w) ws →
  untouched e (wake_ups (w0 :: ws) n) ∨
  ∃ w, w ∈ ws ∧ w_instant w0 + failover_after_secs e * SEC ≤ w_instant w ∧
       gates_open w (my_identity w) e p.
Proof using All.
  intros Hn Hu Hv Ht. cbn [wake_ups foldl].
  pose proof (standby_wake w0 e p n Hrole Hstale Hauto Hp Hn Hu) as H. cbv zeta in H. rewrite Hv in H.
  destruct H as [H1 H2]. apply (standby_run (w_instant w0) ws _ (tick_unique w0 n Hn) H1); [|done].
  intros s. unfold key. by rewrite H2.
Qed.
End Waits.
End Standby.

(** ** A clean partition *)
Section Partition.
Context {O : HashOrder Node} (ep es : HaEntry) (pp : HaPeer) (g : Z).
Context (Hsame : failover_after_secs ep = failover_after_secs es).
Context (Hauto : auto_failover ep = true) (Hwit : witness ep ≠ "").
Context (Hrole : role es = Replica) (Hstale : stale es = false) (Hauto' : auto_failover es = true)
  (Hp : primary es = Some pp) (Hwin : 0 < failover_after_secs es).

(** C1: No two copies run in a clean partition.  Both nodes wake at least every
    [g]; the standby last reached the primary at [s0] and the primary's first
    isolated wake-up [w1] comes at most 2[g] after that.  If the window
    exceeds the fence time by 3[g], then whenever the standby's copy has been
    touched at all, an isolated primary that has kept waking (last at [w], at
    most [g] before the standby's run ended) has its own copy stopped. *)
Theorem partition_one_copy s0 v ss ns w1 ws w np :
  unique_names (store ns) → untouched es ns →
  peer_status s0 pp (container es) = Some v → Forall (λ x, w_instant s0 ≤ w_instant x) ss →
  unique_names (store np) → active_copy ep np →
  (∀ s, fail_since np !! ("witness:" +:+ container ep) = Some s → s ≤ w_instant w1) →
  Forall (isolated ep) (w1 :: ws ++ [w]) → Forall (λ x, w_instant w1 ≤ w_instant x) ws →
  w_instant w1 ≤ w_instant s0 + 2 * g →
  (∀ x, x ∈ ss → w_instant x - g ≤ w_instant w) →
  fence_secs (failover_after_secs ep) * SEC + 3 * g ≤ failover_after_secs ep * SEC →
  untouched es (wake_ups (s0 :: ss) ns) ∨ fenced_copy ep (wake_ups (w1 :: ws ++ [w]) np).
Proof using All.
  intros Hns Hus Hv Hss Hnp Hap Hclk Hiso Hws Hw1 Hlast Hmargin.
  destruct (standby_waits es pp Hrole Hstale Hauto' Hp Hwin s0 v ss ns Hns Hus Hv Hss) as [?|(x & Hx & Hxt & _)];
    [by left|]. right. apply (isolated_primary_fences ep Hauto Hwit); try done.
  apply Hlast in Hx. rewrite Hsame in *. lia.
Qed.
End Partition.

(** ** Concrete runs *)
Module Demo.
Definition order : HashOrder Node := canonical_order Node.

Definition no_cluster : ClusterState :=
  mk_cluster ∅ "me" "10.0.0.9" 8553 ∅ None None (mk_self_files None None None None None None).

(** A world [t] tenths of a second after the start, with or without the
    gateway, in which every peer answers [st]; starting and stopping work. *)
Definition world (t : Z) (gateway : bool) (st : option Status) : World :=
  mk_world (t / 10) (t * (SEC / 10)) (λ _, gateway)
    (λ _ _, match st with Some v => [Json v] | None => [NoAnswer] end)
    no_cluster None ∅ (λ _ _, None) (λ _, true) true (λ _ _, (true, true)) (λ _ _, (true, false))
    (λ _, true) (λ _, true).

Definition peer_p : HaPeer := mk_peer "p" "10.0.0.1" 8553.
Definition peer_s : HaPeer := mk_peer "s" "10.0.0.2" 8553.
Definition entry_p (window : Z) : HaEntry :=
  mk_ha "c" Container Primary 5 [peer_s] None true ∅ 0 false true "gw" window None None None [].
Definition entry_s (window : Z) : HaEntry :=
  mk_ha "c" Container Replica 5 [peer_s] (Some peer_p) false ∅ 0 false true "gw" window None None None [].

Definition node (e : HaEntry) (up : bool) : HaNode :=
  mk_ha_node [e] (if up then {[(false, "c")]} else ∅) ∅ ∅ ∅ [] ∅.
Definition runs (n : HaNode) : bool := subject_is_running Container "c" n.

(** The primary as its standby sees it while all is well. *)
Definition healthy : Status := wolfha_status (node (entry_p 90) true) "c".

(** A partition at 0.9 s: the standby keeps the gateway, the primary loses
    everything.  Both wake every 15 s. *)
Definition lone_primary (ts : list Z) : list World := (λ t, world t false None) <$> ts.
Definition lone_standby (ts : list Z) : list World := (λ t, world t true None) <$> ts.
End Demo.
#[local] Existing Instance Demo.order.

(** ** Witnesses *)
Lemma unique_demo e b : unique_names (store (Demo.node e b)).
Proof. apply NoDup_singleton. Qed.

Lemma demo_active d : active_copy (Demo.entry_p d) (Demo.node (Demo.entry_p d) true).
Proof. exists (Demo.entry_p d). by split_and!. Qed.

Lemma demo_isolated d t : isolated (Demo.entry_p d) (Demo.world t false None).
Proof. by split. Qed.

Lemma isolated_primary_fences_witness :
  fenced_copy (Demo.entry_p 90)
    (wake_ups (Demo.lone_primary [159; 309; 459; 609; 759]) (Demo.node (Demo.entry_p 90) true)).
Proof.
  apply (isolated_primary_fences (Demo.entry_p 90) eq_refl ltac:(done) (Demo.node (Demo.entry_p 90) true)
    (Demo.world 159 false None) (Demo.lone_primary [309; 459]) (Demo.world 609 false None)
    (Demo.lone_primary [759])).
  - apply unique_demo.
  - apply demo_active.
  - intros s. cbn. by rewrite lookup_empty.
  - repeat constructor; apply demo_isolated.
  - by repeat constructor.
  - by vm_compute.
Defined.

Lemma standby_waits_witness :
  ∃ w, w ∈ Demo.lone_standby [150; 300; 450; 600; 750; 900; 1050] ∧ 90 * SEC ≤ w_instant w.
Proof.
  destruct (standby_waits (Demo.entry_s 90) Demo.peer_p eq_refl eq_refl eq_refl eq_refl eq_refl
    (Demo.world 0 true (Some Demo.healthy)) Demo.healthy
    (Demo.lone_standby [150; 300; 450; 600; 750; 900; 1050]) (Demo.node (Demo.entry_s 90) false))
    as [[_ Hnot]|(w & Hw & Ht & _)].
  - apply unique_demo.
  - split; [done|]. set_solver.
  - done.
  - by repeat constructor.
  - exfalso. apply Hnot. refine (bool_decide_unpack _ _). by vm_compute.
  - exists w. split; [exact Hw|]. exact Ht.
Defined.

Lemma partition_one_copy_witness :
  Demo.runs (wake_ups (Demo.world 0 true (Some Demo.healthy)
     :: Demo.lone_standby [150; 300; 450; 600; 750; 900; 1050]) (Demo.node (Demo.entry_s 90) false)) = true ∧
  fenced_copy (Demo.entry_p 90)
    (wake_ups (Demo.lone_primary [159; 309; 459; 609; 759; 909]) (Demo.node (Demo.entry_p 90) true)).
Proof.
  split; [by vm_compute|].
  destruct (partition_one_copy (Demo.entry_p 90) (Demo.entry_s 90) Demo.peer_p (15 * SEC) eq_refl eq_refl
    ltac:(done) eq_refl eq_refl eq_refl eq_refl eq_refl
    (Demo.world 0 true (Some Demo.healthy)) Demo.healthy
    (Demo.lone_standby [150; 300; 450; 600; 750; 900; 1050]) (Demo.node (Demo.entry_s 90) false)
    (Demo.world 159 false None) (Demo.lone_primary [309; 459; 609; 759]) (Demo.world 909 false None)
    (Demo.node (Demo.entry_p 90) true)) as [[_ Hnot]|Hf].
  - apply unique_demo.
  - split; [done|]. set_solver.
  - done.
  - by repeat constructor.
  - apply unique_demo.
  - apply demo_active.
  - intros s. cbn. by rewrite lookup_empty.
  - repeat constructor; apply demo_isolated.
  - by repeat constructor.
  - by vm_compute.
  - assert (Forall (λ x, w_instant x - 15 * SEC ≤ w_instant (Demo.world 909 false None))
      (Demo.lone_standby [150; 300; 450; 600; 750; 900; 1050])) as H by by repeat constructor.
    by rewrite Forall_forall in H.
  - by vm_compute.
  - exfalso. apply Hnot. refine (bool_decide_unpack _ _). by vm_compute.
  - exact Hf.
Defined.
