(* ===== verification/HaProps.v ===== *)
(** * WolfHA: the properties

    What the operations guarantee, the witnesses of the timing theorems, and
    the two situations in which the timing does not protect. *)
From S2P Require Import Prelude Net Cluster HaStore HaMonitor HaFocus HaTiming.

(** ** Promotion and demotion *)
Section Roles.
Context (w : World).
Implicit Types (n : HaNode) (e : HaEntry).

Lemma promoted_replicas me e r :
  r ∈ replicas (promoted_entry w me e) ↔
    (r ∈ replicas e ∨ primary e = Some r ∧ ∀ x, x ∈ replicas e → p_node_id x ≠ p_node_id r) ∧
    (∀ m, me = Some m → p_node_id r ≠ p_node_id m) ∧ peer_is_local w r = false.
Proof.
  unfold promoted_entry. cbn [replicas setter]. rewrite elem_of_retain, negb_true_iff.
  assert (Hbase : r ∈ (match primary e with
            | Some p => if existsb (λ r, bool_decide (p_node_id r = p_node_id p)) (replicas e)
                        then replicas e else replicas e ++ [p]
            | None => replicas e end) ↔
          r ∈ replicas e ∨ primary e = Some r ∧ ∀ x, x ∈ replicas e → p_node_id x ≠ p_node_id r).
  { destruct (primary e) as [p|]; [|naive_solver]. destruct (existsb _ _) eqn:Hex.
    - apply existsb_exists in Hex as (x & Hx & Hb). rewrite <-list_elem_of_In in Hx. bool_props. naive_solver.
    - apply existsb_Forall in Hex. rewrite Forall_forall in Hex. rewrite elem_of_app, list_elem_of_singleton.
      split; [|naive_solver]. intros [?| ->]; [by left|]. right. split; [done|]. intros x Hx%Hex. by bool_props. }
  destruct me as [m|]; rewrite ?elem_of_retain, ?bool_decide_eq_true, Hbase; naive_solver.
Qed.

(** Promotion, on every branch.  An active primary is refused and a store
    that cannot be written changes nothing else.  Otherwise the entry becomes
    an active primary that owns its boot, keeps the disk chain, lists the
    previous owner and never this node (by id or address); success means
    exactly that the copy could be prepared and was started, and a copy that
    could not be prepared has not been started although the role is taken. *)
Theorem promote_local_spec c me n e r n' :
  get (store n) c = Some e → promote_local w c me n = (r, n') →
  let e' := promoted_entry w me e in
  (role e = Primary ∧ stale e = false ∧ n' = n ∧ is_ok r = false) ∨
  ((role e = Replica ∨ stale e = true) ∧
    ((store n' = store n ∧ running n' = running n ∧ is_ok r = false) ∨
     (get (store n') c = Some e' ∧ role e' = Primary ∧ stale e' = false ∧
      autostart_managed e' = true ∧ vm_chain e' = vm_chain e ∧
      (∀ x, x ∈ replicas e' → peer_is_local w x = false ∧ ∀ m, me = Some m → p_node_id x ≠ p_node_id m) ∧
      (∀ p, primary e = Some p → peer_is_local w p = false → (∀ m, me = Some m → p_node_id p ≠ p_node_id m) →
        p ∈ replicas e' ∨ ∃ x, x ∈ replicas e ∧ p_node_id x = p_node_id p) ∧
      (is_ok r = true ↔ prepare w (kind e) c (store n') = Ok () ∧ (w_start w (kind e) c).1 = true) ∧
      (prepare w (kind e) c (store n') ≠ Ok () → running n' = running n)))).
Proof.
  intros He Hp e'. unfold promote_local in Hp. rewrite He in Hp.
  destruct (bool_decide (role e = Primary) && negb (stale e)) eqn:Hact.
  { bool_props. injection Hp as <- <-. by left. }
  right. split.
  { apply andb_false_iff in Hact as [H|H]; bool_props; [left; by destruct (role e)|by right]. }
  unfold save in Hp. cbn [store setter] in Hp. destruct (w_save_ok w); cbn [negb] in Hp.
  2:{ left. injection Hp as <- <-. done. }
  right. cbn [store setter] in Hp.
  assert (Hget : get (modify (store n) c (promoted_entry w me)) c = Some e')
    by (by rewrite get_modify_eq, He).
  assert (Hall : ∀ x, x ∈ replicas e' → peer_is_local w x = false ∧ ∀ m, me = Some m → p_node_id x ≠ p_node_id m)
    by (intros x (_ & ? & ?)%promoted_replicas; done).
  assert (Hold : ∀ p, primary e = Some p → peer_is_local w p = false →
    (∀ m, me = Some m → p_node_id p ≠ p_node_id m) →
    p ∈ replicas e' ∨ ∃ x, x ∈ replicas e ∧ p_node_id x = p_node_id p).
  { intros p Hpr Hl Hm. destruct (existsb (λ x, bool_decide (p_node_id x = p_node_id p)) (replicas e)) eqn:Hx.
    - right. apply existsb_exists in Hx as (x & Hx & Hb). bool_props. exists x. by rewrite list_elem_of_In.
    - left. apply promoted_replicas. apply existsb_Forall in Hx. rewrite Forall_forall in Hx.
      split_and!; [right; split; [done|]|done|done]. intros x Hxin%Hx. by bool_props. }
  destruct (prepare w (kind e) c (modify (store n) c (promoted_entry w me))) as [[]|m|] eqn:Hprep.
  - unfold subject_start in Hp. destruct (w_start w (kind e) c) as [ok up]. injection Hp as <- <-.
    cbn [store setter set_running]. rewrite Hprep. cbn [fst]. split_and!; try done.
    destruct ok; cbn; naive_solver.
  - injection Hp as <- <-. cbn [store setter]. rewrite Hprep. split_and!; try done. split; [done|]. by intros [[=] _].
  - injection Hp as <- <-. cbn [store setter]. rewrite Hprep. split_and!; try done. split; [done|]. by intros [[=] _].
Qed.

Lemma demoted_entry_spec p e :
  let e' := demoted_entry p e in
  role e' = Replica ∧ stale e' = true ∧ primary e' = Some p ∧ replicas e' = [] ∧
  self_identity e' = None ∧ (kind e' = Vm → vm_chain e' = None).
Proof.
  unfold demoted_entry. cbn. destruct (kind e) eqn:Hk; cbn; rewrite ?Hk; split_and!; done.
Qed.

(** Demotion never leaves two owners: when it succeeds the local entry is a
    stale replica of the new primary, without replicas, identity or (for a VM)
    disk chain, and the subject is stopped as far as stopping it told; when
    the subject cannot be stopped the store is untouched. *)
Theorem demote_local_spec c p n r n' :
  demote_local w c p n = (r, n') →
  let k := match get (store n) c with Some e => kind e | None => Container end in
  (r = Ok () → ∃ e', get (store n') c = Some e' ∧ role e' = Replica ∧ stale e' = true ∧
     primary e' = Some p ∧ replicas e' = [] ∧ self_identity e' = None ∧ (kind e' = Vm → vm_chain e' = None) ∧
     (subject_is_running k c n' = true → w_stop w k c = (true, true))) ∧
  (subject_is_running k c n = true → (w_stop w k c).1 = false → is_ok r = false ∧ store n' = store n).
Proof.
  intros Hd k. unfold demote_local in Hd. fold k in Hd.
  destruct (subject_is_running k c n) eqn:Hrun.
  - unfold subject_stop in Hd. destruct (w_stop w k c) as [ok up] eqn:Hstop.
    destruct ok; cbn [negb] in Hd; [|injection Hd as <- <-; by split].
    split; [|done]. intros ->. set (n2 := if w_dir_exists w c then _ else _) in Hd.
    assert (H2 : store n2 = store n ∧ running n2 = running (set_running k c up n))
      by (unfold n2; by destruct (w_dir_exists w c)).
    destruct H2 as [H2 H2r]. rewrite H2 in Hd. unfold save in Hd. destruct (w_save_ok w); [|done].
    injection Hd as <-. unfold subject_is_running. cbn [store running setter]. rewrite H2r.
    assert (Hup : bool_decide ((is_vm k, c) ∈ running (set_running k c up n)) = true → (true, up) = (true, true)).
    { rewrite bool_decide_eq_true. unfold set_running. cbn [running setter]. destruct up; [done|set_solver]. }
    destruct (get (store n) c) as [e|] eqn:He.
    + exists (demoted_entry p e). rewrite get_modify_eq, He by apply demoted_names.
      destruct (demoted_entry_spec p e) as (?&?&?&?&?&?). split_and!; done.
    + exists (fresh_demoted c p). rewrite get_app_fresh, He. unfold named. cbn. by rewrite bool_decide_true.
  - cbn [negb] in Hd. split; [|done]. intros ->. set (n2 := if w_dir_exists w c then _ else _) in Hd.
    assert (H2 : store n2 = store n ∧ running n2 = running n) by (unfold n2; by destruct (w_dir_exists w c)).
    destruct H2 as [H2 H2r]. rewrite H2 in Hd. unfold save in Hd. destruct (w_save_ok w); [|done].
    injection Hd as <-. unfold subject_is_running in *. cbn [store running setter]. rewrite H2r, Hrun.
    destruct (get (store n) c) as [e|] eqn:He.
    + exists (demoted_entry p e). rewrite get_modify_eq, He by apply demoted_names.
      destruct (demoted_entry_spec p e) as (?&?&?&?&?&?). split_and!; done.
    + exists (fresh_demoted c p). rewrite get_app_fresh, He. unfold named. cbn. by rewrite bool_decide_true.
Qed.
End Roles.

(** ** What may start a copy *)
Section Starts.
Context {O : HashOrder Node}.
Implicit Types (w : World) (n m : HaNode) (e : HaEntry).

(** A fenced primary may resume: the witness answers, every replica answers,
    and none of them runs the subject or owns it. *)
Record may_resume w e : Prop := {
  mr_fenced : role e = Primary ∧ stale e = true ∧ auto_failover e = true;
  mr_witness : witness e = "" ∨ w_ping w (witness e) = true;
  mr_replicas p : p ∈ replicas e → ∃ v, peer_status w p (container e) = Some v ∧
    active v = false ∧ role_is "primary" v = false
}.

(** A standby may take over. *)
Record may_take_over w e n : Prop := {
  mt_standby : role e = Replica ∧ stale e = false ∧ auto_failover e = true;
  mt_gates : ∃ p, primary e = Some p ∧ gates_open w (my_identity w) e p;
  mt_waited : failover_after_secs e ≤ waited w ("primary:" +:+ container e) n
}.

Lemma probe_takeover_clear w c ps :
  probe_takeover w c ps = (None, true) →
  ∀ p, p ∈ ps → ∃ v, peer_status w p c = Some v ∧ active v = false ∧ role_is "primary" v = false.
Proof.
  induction ps as [|q ps IH]; cbn [probe_takeover]; [set_solver|].
  destruct (peer_status w q c) as [v|] eqn:Hv.
  - destruct (active v || _) eqn:Hb; [done|]. intros H p [->|Hp]%elem_of_cons; [|by apply IH].
    exists v. by bool_props.
  - destruct (probe_takeover w c ps). done.
Qed.

Lemma demote_running w c p n :
  match get (store n) c with Some e => subject_is_running (kind e) c n = false | None => True end →
  subject_is_running Container c n = false ∨ get (store n) c ≠ None →
  running (demote_local w c p n).2 = running n.
Proof.
  intros Hr Hc. unfold demote_local.
  assert (subject_is_running (match get (store n) c with Some e => kind e | None => Container end) c n = false)
    as -> by (destruct (get (store n) c); [done|by destruct Hc]).
  cbn [negb]. set (n2 := if w_dir_exists w c then _ else _).
  assert (H2 : running n2 = running n) by (unfold n2; by destruct (w_dir_exists w c)).
  unfold save. by destruct (w_save_ok w).
Qed.

Lemma dedupe_running w c n : running (dedupe_replicas w c n) = running n.
Proof.
  unfold dedupe_replicas. destruct (get _ _); [|done]. case_bool_decide; [|done].
  unfold save. by destruct (w_save_ok w).
Qed.

Lemma dedupe_kind w c n e :
  get (store n) c = Some e → ∃ e', get (store (dedupe_replicas w c n)) c = Some e' ∧ kind e' = kind e.
Proof.
  intros He. unfold dedupe_replicas. rewrite He. case_bool_decide; [|eauto]. unfold save.
  destruct (w_save_ok w); [|eauto]. cbn [snd store setter]. rewrite get_modify_eq, He by done. by eexists.
Qed.

Lemma alert_once_running k n : running (alert_once k n) = running n.
Proof. unfold alert_once. by case_bool_decide. Qed.

Lemma primary_step_starts_nothing w e n :
  get (store n) (container e) = Some e → subject_is_running (kind e) (container e) n = false →
  running (primary_step w e n) = running n.
Proof.
  intros He Hr. unfold primary_step. destruct (dedupe_kind w _ _ _ He) as (e' & He' & Hk).
  pose proof (dedupe_running w (container e) n) as Hd.
  assert (Hr' : subject_is_running (kind e) (container e) (dedupe_replicas w (container e) n) = false)
    by (unfold subject_is_running in *; by rewrite Hd).
  rewrite Hr'. cbn [negb fail_elapsed snd running setter]. rewrite <-Hd.
  destruct (find_peer _ _ _ _); [|done]. rewrite alert_once_running. apply demote_running.
  - by rewrite He', Hk.
  - right. by rewrite He'.
Qed.

Lemma entry_step_starts w e n :
  get (store n) (container e) = Some e → subject_is_running (kind e) (container e) n = false →
  subject_is_running (kind e) (container e) (entry_step w (my_identity w) n e) = true →
  may_resume w e ∨ may_take_over w e n.
Proof.
  intros He Hr Hs.
  assert (Habs : subject_is_running (kind e) (container e) n = true → False) by congruence.
  unfold entry_step in Hs. destruct (role e) eqn:Hrole, (stale e) eqn:Hst.
  - left. unfold fenced_step in Hs. destruct (negb _) eqn:Hw; [by rewrite Hr in Hs|].
    assert (Hwit : witness e = "" ∨ w_ping w (witness e) = true).
    { bool_props. case_bool_decide; [by left|]. apply ping_host_true in Hw. naive_solver. }
    destruct (probe_takeover _ _ _) as [[p|] b] eqn:Hp; [|destruct b; [|by rewrite Hr in Hs]].
    + exfalso. unfold subject_is_running in *. cbn [running alert_clear setter] in Hs.
      rewrite demote_running in Hs; [congruence|by rewrite He|right; by rewrite He].
    + destruct (auto_failover e) eqn:Ha; [|by rewrite Hr in Hs]. split; [done|done|]. by apply probe_takeover_clear.
  - exfalso. unfold subject_is_running in *. rewrite primary_step_starts_nothing in Hs by done. congruence.
  - by rewrite Hr in Hs.
  - right. unfold standby_step in Hs. destruct (primary e) as [p|] eqn:Hp; [|by rewrite Hr in Hs].
    rewrite Hr in Hs. destruct (auto_failover e) eqn:Ha; cbn [negb] in Hs; [|by destruct (Habs Hs)].
    destruct (peer_status w p (container e)) as [v|] eqn:Hv.
    + rewrite bool_decide_false in Hs by done. cbn in Hs. by destruct (Habs Hs).
    + rewrite bool_decide_true in Hs by done. rewrite fail_elapsed_failing in Hs.
      set (m := _ <| fail_since := _ |>) in Hs.
      destruct (_ <? _) eqn:Hlt; [by destruct (Habs Hs)|]. bool_props.
      destruct (standby_gates_cases w (my_identity w) e p m Hv) as [H|H].
      * destruct H as [[_ H] _]; [split; [done|by apply bool_decide_eq_false in Hr]|].
        apply bool_decide_eq_true in Hs. done.
      * split; [done|by exists p|done].
Qed.

(** C3: The monitor starts a copy in two cases only: a standby that is not
    stale, for which every gate is open after the whole window, or a fenced
    primary whose witness and all of whose replicas answer, none of them
    owning or running the subject.  In particular a stale replica is never
    started. *)
Theorem monitor_starts_only w e n :
  unique_names (store n) → get (store n) (container e) = Some e →
  subject_is_running (kind e) (container e) n = false →
  subject_is_running (kind e) (container e) (failover_tick w n) = true →
  may_resume w e ∨ may_take_over w e n.
Proof.
  intros Hn He Hr Hs. destruct (tick_at w _ _ _ Hn He) as (m & Hm & Ht).
  rewrite (agree_running_bool _ (kind e) _ _ Ht) in Hs.
  destruct (entry_step_starts w e m) as [?|[H1 H2 H3]]; [..|by left|].
  - by rewrite (ag_entry _ _ _ Hm).
  - by rewrite (agree_running_bool _ (kind e) _ _ Hm).
  - done.
  - right. split; [done|done|]. unfold waited, started in *. by rewrite <-(ag_primary _ _ _ Hm).
Qed.

(** Two running copies are resolved in favour of the owner: a standby that
    runs while the primary reports it active is stopped at the next wake-up
    and stays a replica. *)
Theorem duplicate_is_stopped w e p v n :
  unique_names (store n) → get (store n) (container e) = Some e →
  role e = Replica → stale e = false → primary e = Some p →
  peer_status w p (container e) = Some v → active v = true →
  (w_stop w (kind e) (container e)).2 = false →
  let n' := failover_tick w n in
  subject_is_running (kind e) (container e) n' = false ∧
  (subject_is_running (kind e) (container e) n = true → get (store n') (container e) = Some e).
Proof.
  intros Hn He Hrole Hst Hp Hv Hact Hstop n'. destruct (tick_at w _ _ _ Hn He) as (m & Hm & Ht). fold n' in Ht.
  rewrite (agree_running_bool _ (kind e) _ _ Ht), (ag_entry _ _ _ Ht).
  rewrite <-(agree_running_bool _ (kind e) _ _ Hm). unfold entry_step. rewrite Hrole, Hst.
  unfold standby_step. rewrite Hp. destruct (subject_is_running (kind e) (container e) m) eqn:Hr.
  - rewrite Hv, Hact. unfold subject_stop. destruct (w_stop w _ _) as [ok up]. cbn [snd] in Hstop. subst up.
    split; [|intros _; rewrite <-(ag_entry _ _ _ Hm) in He; unfold alert_once; by case_bool_decide].
    unfold subject_is_running. rewrite alert_once_running. apply bool_decide_eq_false. cbn. set_solver.
  - split; [|done]. destruct (auto_failover e); cbn [negb]; [|done].
    rewrite Hv, bool_decide_false by done. cbn. exact Hr.
Qed.
End Starts.

(** ** The chain of disk deltas *)
Section Chain.
Context {D delta : Type} (qemu_apply : delta → D → bool * D).
Implicit Types (w : World) (n : HaNode).

(** The primary's history: the disk each token stands for, and the one delta
    it issued on top of it (a delta stays pending until every replica has it).
    [partly d x]: the disk [x] is the delta's base, its result, or whatever a
    failed commit of [d] left. *)
Context (disk_at : string → D) (issued : string → option (delta * string)).
Context (partly : delta → D → Prop).
Context (partly_base : ∀ t d t', issued t = Some (d, t') → partly d (disk_at t) ∧ partly d (disk_at t')).
(** Committing a delta copies clusters down: it completes from any of those
    states, and failing leaves another of them. *)
Context (commit_ok : ∀ t d t' x y, issued t = Some (d, t') → partly d x →
  qemu_apply d x = (true, y) → y = disk_at t').
Context (commit_fails : ∀ d x y, partly d x → qemu_apply d x = (false, y) → partly d y).

(** The copy's disk is what its token says, up to a commit that was begun. *)
Definition copy_ok name (n : HaNode) (x : D) : Prop :=
  ∀ e t, get (store n) name = Some e → vm_chain e = Some t →
    x = disk_at t ∨ ∃ d t', issued t = Some (d, t') ∧ partly d x.

(** A standby's disk is never silently wrong: whatever delta the primary
    offers and however the attempt ends (refused, retried, interrupted before
    or after the token was saved), the disk remains the one its token names,
    up to a commit that can be repeated; and when the token is found advanced
    by this attempt the disk is exactly the primary's. *)
Theorem vm_chain_sound w disk_found vars_ok name d t t' n x r n' x' :
  issued t = Some (d, t') → t ≠ t' → copy_ok name n x →
  vm_apply_delta qemu_apply w disk_found vars_ok name d t t' (n, x) = (r, (n', x')) →
  copy_ok name n' x' ∧
  (r = Ok () → ∃ e', get (store n') name = Some e' ∧ vm_chain e' = Some t') ∧
  (∀ e, get (store n) name = Some e → vm_chain e = Some t → r = Ok () → x' = disk_at t').
Proof.
  intros His Hne Hok Ha. unfold vm_apply_delta in Ha.
  destruct (get (store n) name) as [e|] eqn:He; [|by injection Ha as <- <- <-].
  destruct (bool_decide (kind e ≠ Vm)); [by injection Ha as <- <- <-|].
  destruct (subject_is_running _ _ _); [by injection Ha as <- <- <-|].
  destruct (_ || _); [by injection Ha as <- <- <-|].
  destruct (vm_chain e) as [u|] eqn:Hu; [|injection Ha as <- <- <-; split_and!; try done].
  case_bool_decide as Hnext.
  { injection Ha as <- <- <-. subst u. split_and!; [done|eauto|]. intros e' [= <-] Hc. congruence. }
  destruct (bool_decide (u ≠ t)) eqn:Hb; [by injection Ha as <- <- <-|]. apply bool_decide_eq_false, dec_stable in Hb. subst u.
  destruct (negb disk_found); [by injection Ha as <- <- <-|].
  assert (Hx : partly d x).
  { destruct (Hok e t He Hu) as [->|(d' & t'' & Hd & ?)]; [by apply (partly_base t d t')|]. congruence. }
  destruct (qemu_apply d x) as [ok y] eqn:Hq. destruct ok; cbn [negb] in Ha.
  2:{ injection Ha as <- <- <-. split_and!; [|done..]. intros e1 t1 He1 Ht1.
      rewrite He in He1. injection He1 as <-. rewrite Hu in Ht1. injection Ht1 as <-.
      right. exists d, t'. split; [done|]. by apply (commit_fails d x y). }
  assert (Hy : y = disk_at t') by (by apply (commit_ok t d t' x y)).
  assert (Hback : copy_ok name n y).
  { intros e1 t1 He1 Ht1. rewrite He in He1. injection He1 as <-. rewrite Hu in Ht1. injection Ht1 as <-.
    right. exists d, t'. split; [done|]. rewrite Hy. by apply (partly_base t d t'). }
  destruct (negb vars_ok); [by injection Ha as <- <- <-|].
  unfold save in Ha. destruct (w_save_ok w); injection Ha as <- <- <-; [|by split_and!].
  cbn [store setter]. split_and!; [| |done].
  - intros e1 t1. cbn [store setter]. rewrite get_modify_eq, He by done. cbn. intros [= <-] [= <-]. by left.
  - intros _. rewrite get_modify_eq, He by done. by eexists.
Qed.
End Chain.

(** ** Two situations in which the timing does not protect *)
#[local] Existing Instance Demo.order.

(** The shortest window the settings accept gives no protection: with a
    window of 30 seconds the fence time is 30 seconds as well, and in a clean
    partition at 0.9 s a standby waking every 15 s takes over at 45.0 s, before
    the old primary's wake-up at 45.9 s at which it would have stopped. *)
Theorem minimum_window_split_brain :
  wolfha_validate_auto (λ _, true) true "gw" 30 = Ok ("gw", 30) ∧ fence_secs 30 = 30 ∧
  let s := wake_ups (Demo.world 0 true (Some Demo.healthy) :: Demo.lone_standby [150; 300; 450])
             (Demo.node (Demo.entry_s 30) false) in
  let p := wake_ups (Demo.lone_primary [159; 309]) (Demo.node (Demo.entry_p 30) true) in
  Demo.runs s = true ∧ Demo.runs p = true ∧
  Forall (isolated (Demo.entry_p 30)) (Demo.lone_primary [159; 309; 459]) ∧
  Demo.runs (failover_tick (Demo.world 459 false None) p) = false.
Proof.
  split; [by vm_compute|]. split; [done|]. cbv zeta. split_and!; [by vm_compute..| |by vm_compute].
  repeat constructor; cbn; try done; intros ? ->%list_elem_of_singleton; done.
Qed.

(** The failure clock is not reset while automatic failover is off: a
    standby whose primary failed one check, then answered every check for a
    minute and a half with failover switched off, takes over at the first
    failed check after it is switched on again, although the primary was
    reached fifteen seconds before. *)
Theorem failure_clock_survives_switch_off :
  let switch (b : bool) (n : HaNode) :=
    n <| store := modify (store n) "c" (λ e, e <| auto_failover := b |>) |> in
  let answered t := Demo.world t true (Some Demo.healthy) in
  let n0 := wake_ups [Demo.world 0 true None] (Demo.node (Demo.entry_s 90) false) in
  let n1 := wake_ups (answered <$> [150; 300; 450; 600; 750; 900]) (switch false n0) in
  let n2 := wake_ups [Demo.world 1050 true None] (switch true n1) in
  Demo.runs n1 = false ∧ Demo.runs n2 = true ∧
  option_map role (get (store n2) "c") = Some Primary.
Proof. vm_compute. done. Qed.


(** ** Witnesses *)
Lemma promote_local_spec_witness :
  let w := Demo.world 1050 true None in
  let n := Demo.node (Demo.entry_s 90) false in
  (promote_local w "c" (Some Demo.peer_s) n).1 = Ok () ∧
  option_map role (get (store (promote_local w "c" (Some Demo.peer_s) n).2) "c") = Some Primary.
Proof.
  intros w n. split; [by vm_compute|].
  destruct (promote_local_spec w "c" (Some Demo.peer_s) n (Demo.entry_s 90) _ _ eq_refl (surjective_pairing _))
    as [(H & _)|(_ & [(_ & _ & H)|(H & _)])]; [done|by vm_compute in H|by rewrite H].
Defined.

Lemma demote_local_spec_witness :
  let w := Demo.world 0 true None in
  let n := Demo.node (Demo.entry_p 90) true in
  ∃ e', get (store (demote_local w "c" Demo.peer_s n).2) "c" = Some e' ∧ role e' = Replica ∧ stale e' = true.
Proof.
  intros w n.
  destruct (demote_local_spec w "c" Demo.peer_s n _ _ (surjective_pairing _)) as [H _].
  destruct H as (e' & H1 & H2 & H3 & _); [by vm_compute|]. by exists e'.
Defined.

Lemma monitor_starts_only_witness :
  let n := Demo.node (Demo.entry_s 90) false <| fail_since := {["primary:c" := 150 * (SEC / 10)]} |> in
  may_take_over (Demo.world 1050 true None) (Demo.entry_s 90) n.
Proof.
  intros n. destruct (monitor_starts_only (Demo.world 1050 true None) (Demo.entry_s 90) n) as [[(H & _) _ _]|H].
  - apply NoDup_singleton.
  - done.
  - refine (bool_decide_unpack _ _). by vm_compute.
  - by vm_compute.
  - done.
  - exact H.
Defined.

Lemma duplicate_is_stopped_witness :
  Demo.runs (failover_tick (Demo.world 0 true (Some Demo.healthy)) (Demo.node (Demo.entry_s 90) true)) = false.
Proof.
  apply (duplicate_is_stopped (Demo.world 0 true (Some Demo.healthy)) (Demo.entry_s 90) Demo.peer_p Demo.healthy
    (Demo.node (Demo.entry_s 90) true)); [apply NoDup_singleton|done..].
Defined.

(** A disk is a number, and the delta the primary issued on top of ["t0"]
    brings it to 1, the disk of ["t1"]. *)
Lemma vm_chain_sound_witness :
  let e := mk_ha "v" Vm Replica 5 [] (Some Demo.peer_p) false ∅ 0 false true "gw" 90 None (Some "t0") None [] in
  let n := mk_ha_node [e] ∅ ∅ ∅ ∅ [] ∅ in
  let apply (d x : Z) := (true, d) in
  (vm_apply_delta apply (Demo.world 0 true None) true true "v" 1 "t0" "t1" (n, 0)).2.2 = 1.
Proof.
  intros e n apply.
  destruct (vm_chain_sound apply (λ t, if bool_decide (t = "t1") then 1 else 0)
    (λ t, if bool_decide (t = "t0") then Some (1, "t1") else None) (λ d x, (d = 1) ∧ (x = 0 ∨ x = 1))) with
    (w := Demo.world 0 true None) (disk_found := true) (vars_ok := true) (name := "v")
    (d := 1) (t := "t0") (t' := "t1") (n := n) (x := 0)
    (r := (vm_apply_delta apply (Demo.world 0 true None) true true "v" 1 "t0" "t1" (n, 0)).1)
    (n' := (vm_apply_delta apply (Demo.world 0 true None) true true "v" 1 "t0" "t1" (n, 0)).2.1)
    (x' := (vm_apply_delta apply (Demo.world 0 true None) true true "v" 1 "t0" "t1" (n, 0)).2.2)
    as (_ & _ & H).
  - intros t d t'. case_bool_decide; [|done]. intros [= <- <-]. subst t. split; split; try done; auto.
  - intros t d t' x y. case_bool_decide; [|done]. intros [= <- <-]. subst t. intros _ [= <-]. done.
  - intros d x y _ [=].
  - done.
  - done.
  - intros e' t He Ht. left. vm_compute in He. injection He as <-. by injection Ht as <-.
  - by destruct (vm_apply_delta _ _ _ _ _ _ _ _ _) as [? [??]].
  - apply (H e); by vm_compute.
Defined.
